(* ===== verification/_CoqProject ===== *)
-Q . S2P
Prelude.v
JsBuffer.v
JsValues.v
JsText.v
JsSet.v
JsFloat.v
NetwatchDnsWire.v
DnsWire.v
DnsWireFacts.v
DnsAdapt.v
DomainSet.v
ListParser.v
ListParserFacts.v
JsMap.v
ResponseCache.v
SafeSearch.v
Policy.v
PolicyFacts.v
Resolver.v
ResolverFacts.v
Topics.v
EventBuffer.v
Limits.v
Utf8.v
LanInterfaces.v
LanGuard.v
FenceRules.v
Raster.v
RasterFacts.v
EdgeConstants.v
Gcplugin.v
Manifest.v
ManifestFacts.v
Protocol.v
Ipp.v
IppFacts.v
Fmp4.v
Bleparse.v
FeatureStatus.v
Presence.v
Inetq.v
Nut.v
Channel.v
DnsConfig.v
PrintConfig.v
CameraConfig.v
Crypto.v
Signature.v
Packages.v
TlsPin.v
NetProxy.v
NetProxyFacts.v
Bridge.v
BridgeFacts.v
PluginProcess.v
PluginProcessFacts.v
Host.v
HostFacts.v
HostEnds.v
Machine.v
Mqtt.v
Broker.v
MqttManager.v
MqttManagerFacts.v
BrokerFacts.v
Remote.v
Store.v
DnsStats.v
Neighbors.v
Upstream.v
DnsServer.v
DnsLists.v
DnsFilter.v
HttpProxy.v
Egress.v
CacheStore.v
HomeCache.v
InetService.v
Child.v
