(* ===== verification/Prelude.v ===== *)
(** * The home gateway of GateControl, verified

    GateControl's home gateway is a Node.js program that runs as a container
    in a home network: it joins the network to a server over one WireGuard
    tunnel, answers DNS with filters, runs parts of plugins in a container
    without a network of its own, prints, watches devices, cameras, sensors
    and the connection, and reports to the server.  This library models the
    parts of src/src that compute and decide, one file of definitions per
    module of the program, with the theorems that make them correct, mostly
    in a file [...Facts] beside it.

    ** How the program is written down

    A function of the program is a function of the same name.  What throws is
    in the type [res]: [Ok], [Throw] with a code, and [NoFuel] for a loop that
    was cut off; [fueled] says that the latter does not happen.  Strings are
    the lists of their UTF-16 units ([jstr]), buffers the lists of their bytes
    (JsBuffer: reads and writes that throw out of range, UTF-8, 32-bit
    integers), a [Map] or an object used as one is a list of pairs in the order
    of insertion (JsMap), the values of [JSON.parse] and the order of strings
    are in JsValues, arrays made of a [Set] in JsSet, doubles in JsFloat (binary64 of the Standard Library's
    SpecFloat, [Math.round], [toFixed], [Number]).  An object with state is a
    record and a method a function from the old record to the new one.
    Functions that wait are split where they wait, and the answers are inputs:
    Presence, Channel, Nut, NetProxy, Bridge, PluginProcess and Host are
    machines of this kind, the shared questions of the resolver a step
    relation.  What such a machine does to the world - send, fork, close - is
    the list of effects a step gives beside the new state.  Objects that
    closures keep while the maps change are numbered (Bridge, Host), so a late
    event reaches the object it was meant for.  JsText holds [String],
    truthiness and the operators made of it.

    ** Parts, files and what is proved

    DNS.  DnsWire (dns/wire.js), DomainSet (dns/domainSet.js), ListParser
    (dns/listParser.js), ResponseCache, SafeSearch, Policy and Resolver (the
    files of the same names) follow a question from the bytes of a client to
    the bytes of the answer; the resolver calls all the others.  DnsWireFacts:
    messages are read back as they were built.  DnsAdapt: what answering from
    the cache changes in a message.  ListParserFacts: the chunks a list comes
    in make no difference, and a list blocks what its lines say.
    ResponseCache: its limits, and when a response is found.  PolicyFacts: a
    name is blocked exactly when the configuration says so.  DnsConfig
    (dns/config.js, features/macs.js) makes the settings out of what the server
    sends, and DnsConfigFacts shows that they are within their limits and meet
    what the policy's theorems ask for.  ResolverFacts:
    every query gets an answer that fits, whatever upstream does; each question
    goes upstream once.

    Plugins.  Gcplugin (packages), Manifest (manifests and capabilities),
    Protocol (messages of the server), EdgeConstants, Topics and EventBuffer,
    Limits with Utf8, LanGuard, FenceRules (fenceRules.js and fence.js),
    Channel (channel.js), all of src/edge.  Unpacking is safe for any bytes
    and undoes packing; what the validators accept is well formed; the granted
    capabilities are the greatest common ones; the guard and the fence let
    through exactly what they should, and a fence that could not be set up
    never counts as one; the channel to the server is never stuck and never
    doubled.

    The life of an edge part.  Signature (signature.js over the class [Node]
    of Crypto), Packages (packages.js: download, check, unpack, keep), TlsPin
    (proxy/tlsPin.js), NetProxy (netProxy.js: what a part does on the
    network), Bridge (bridge.js: the gateway's end, which runs the calls of
    the edge host in a NetProxy per part), PluginProcess (pluginProcess.js: a
    child and its restarts) and Host (host.js: which parts run, with what).
    Host calls Packages, which calls Gcplugin, Manifest and Signature, and
    starts a PluginProcess for each part; a call of a part goes from
    PluginProcess through Host to Bridge, into NetProxy, and is checked there
    against LanGuard and the capabilities that Protocol took from the server's
    last state.  SignatureFacts: a signature covers every file.
    PackagesFacts: what passes the check, and where it is unpacked.  TlsPin:
    a pinned connection is the pinned one.  NetProxyFacts, BridgeFacts: over
    any run only what is approved happens, and the bounds that hold.
    PluginProcessFacts: calls are answered once, and a wanted process runs or
    is about to.  HostFacts: over any order of events a part is only started
    if it is ordered, checked, accepted and fenced in; HostEnds: each pass
    over the wanted parts ends.  These files also hold small runs that show
    where the code does less than it means to: limits that can be overrun,
    sockets that outlive their approval, a message that ends the host, a start
    beside the fence ([udp_limit_overrun], [closeAll_misses_connecting],
    [push_after_withdrawal], [log_ends_host], [start_without_fence],
    [two_processes], [start_after_stop]).

    Network.  LanInterfaces (discovery/lanInterfaces.js), NetwatchDnsWire
    (netwatch/dnsWire.js), Presence (presence.js, with hostsFor and
    hostsInSubnet) over FeatureStatus (features/status.js), Inetq
    (inetq/aggregate.js with the sums of probe.js), Nut (ups/nut.js).  The
    events of a device alternate and the queue keeps its bounds over every
    order of steps; outages and five-minute values equal their reference
    definitions; a list of a UPS server is read back however it is cut.

    Devices.  Raster (print/convert.js), Ipp (print/ipp.js), Fmp4
    (cameras/fmp4.js), Bleparse (radio/bleparse.js), PrintConfig (print/config.js)
    and CameraConfig (cameras/config.js).  Pages and messages are
    read back by the decoders of their formats, the boxes of a film tile it,
    a sensor's packet is read back and what any packet yields is bounded;
    cameras are private addresses in networks that were named or are own.

    ** Fuel

    A loop over a buffer gets as much fuel as the buffer has bytes, a loop
    over a list as much as the list is long; each turn consumes at least one,
    and the theorems show that the fuel is enough ([fueled], or results that
    are [Ok] or [Throw]) for every input of bytes.

    ** What is a parameter

    SHA-256, HMAC, Ed25519, the reading of base64 and [JSON.parse] (class [Node]), the text
    of a number (class [Numbers]), [new URL] and [toUpperCase] (class [Web]),
    the length of a frame on the bridge's socket (class [Wire]), gunzip.
    The tables of Unicode (class [Unicode]: only what they do to ASCII is
    used), local time (class [LocalTime]), [Date.parse], the URL
    library and the decimal text of odd numbers (class [Runtime]), the upstream resolver, gzip,
    [net.isIPv6] and the matching of packets by the kernel, the answers of the
    network scanner, of a UPS server and of the name service.

    ** What is not modelled

    Sockets, processes, files, timers and cryptography, and the modules that
    are little else: the DNS servers and upstreams, the list store, the broker,
    the runtime inside a plugin's process, proxies, cameras, AI, caches, radio adapters,
    the print service, the API.  The texts of errors are shortened to codes.
    In modelled modules: the log and the counters of the resolver, the
    geometry in floating point and the choice of media of convert.js, the HTTP
    transport of IPP, [Object.prototype]'s names as IPP attributes, the URL
    library of the channel's direct way; in Host the status, the events and
    the key-value store; in Packages the clean-up of leftovers.  [Math.log10] is taken to be exact at the powers of ten in
    Bleparse.

    Planned next: the gateway's side of the broker (mqtt/manager.js), the edge
    end of the bridge's socket (remote.js), the neighbour cache and the
    statistics, the magic packet, the schedule of the features, the playlist
    of a camera. *)

From stdpp Require Export base tactics list numbers list_numbers strings gmap.
From Stdlib Require Export Lia.
From Stdlib Require Import Ascii.

#[export] Set Default Goal Selector "!".
#[export] Set Warnings "-clear-no-such-hyp".

(** ** Results: the JavaScript exceptions of the code *)

(** A computation that may throw.  [NoFuel] marks a bounded loop that was cut
    short; every loop of the development comes with a proof that the fuel it
    is given never runs out. *)
Inductive res (A : Type) : Type :=
  | Ok (a : A)
  | Throw (msg : string)
  | NoFuel.
Arguments Ok {A} a.
Arguments Throw {A} msg.
Arguments NoFuel {A}.

#[export] Instance res_ret : MRet res := @Ok.
#[export] Instance res_bind : MBind res := λ A B f m,
  match m with Ok a => f a | Throw e => Throw e | NoFuel => NoFuel end.

#[export] Instance res_fmap : FMap res := λ A B f m,
  match m with Ok a => Ok (f a) | Throw e => Throw e | NoFuel => NoFuel end.

(** [try { m } catch (_e) { return null; }] *)
Definition try_null {A} (m : res (option A)) : res (option A) :=
  match m with Throw _ => Ok None | r => r end.

Definition of_option {A} (msg : string) (o : option A) : res A :=
  match o with Some a => Ok a | None => Throw msg end.

Lemma res_bind_Ok {A B} (m : res A) (f : A → res B) b :
  m ≫= f = Ok b ↔ ∃ a, m = Ok a ∧ f a = Ok b.
Proof. destruct m; simpl; split; intros; destruct_and?; naive_solver. Qed.

Lemma res_bind_NoFuel {A B} (m : res A) (f : A → res B) :
  m ≫= f = NoFuel ↔ m = NoFuel ∨ ∃ a, m = Ok a ∧ f a = NoFuel.
Proof. destruct m; simpl; split; intros; destruct_and?; naive_solver. Qed.

Lemma try_null_Some {A} (m : res (option A)) a : try_null m = Ok (Some a) → m = Ok (Some a).
Proof. by destruct m. Qed.

(** A computation that is not cut short by its fuel. *)
Definition fueled {A} (m : res A) : Prop := m ≠ NoFuel.

Lemma fueled_bind {A B} (m : res A) (f : A → res B) :
  fueled m → (∀ a, m = Ok a → fueled (f a)) → fueled (m ≫= f).
Proof. unfold fueled. destruct m; naive_solver. Qed.

Lemma fueled_fmap {A B} (f : A → B) (m : res A) : fueled m → fueled (f <$> m).
Proof. by destruct m. Qed.
Lemma fueled_Ok {A} (a : A) : fueled (Ok a).
Proof. done. Qed.
Lemma fueled_Throw {A} e : fueled (@Throw A e).
Proof. done. Qed.
Lemma fueled_of_option {A} e (o : option A) : fueled (of_option e o).
Proof. by destruct o. Qed.
Lemma fueled_try_null {A} (m : res (option A)) : fueled m → fueled (try_null m).
Proof. by destruct m. Qed.

Create HintDb fuel.
#[export] Hint Resolve fueled_bind fueled_fmap fueled_Ok fueled_Throw fueled_of_option
  fueled_try_null : fuel.

(** Goes through a computation step by step; the hints in [fuel] close the
    steps that are known to have enough fuel. *)
Ltac fuel_auto :=
  repeat first [ done
               | solve [eauto with fuel]
               | apply fueled_try_null
               | apply fueled_bind; [| intros ? _]
               | case_match ].

(** Splits hypotheses [m ≫= f = Ok b] into their steps. *)
Ltac res_inv :=
  repeat match goal with
  | H : (_ ≫= _) = Ok _ |- _ =>
      let a := fresh "v" in let H1 := fresh "Hm" in
      apply res_bind_Ok in H as (a & H1 & H)
  | H : Ok _ = Ok _ |- _ => injection H as H; subst
  | H : Throw _ = Ok _ |- _ => discriminate H
  | H : NoFuel = Ok _ |- _ => discriminate H
  | H : of_option _ ?o = Ok _ |- _ =>
      destruct o eqn:?; simpl in H; [injection H as H; subst | discriminate H]
  end.

(** ** JavaScript strings: sequences of UTF-16 code units *)

Abbreviation jstr := (list Z).

Local Open Scope Z_scope.

(** An (ASCII) string literal of the source. *)
Fixpoint js (s : string) : jstr :=
  match s with
  | EmptyString => []
  | String a s => Z.of_N (N_of_ascii a) :: js s
  end.

Definition is_ascii (s : jstr) : Prop := Forall (λ c, 0 ≤ c < 128) s.

(** [s.split(sep)] for a one-unit separator; never empty. *)
Fixpoint split_on (sep : Z) (s : jstr) : list jstr :=
  match s with
  | [] => [[]]
  | c :: r =>
      if c =? sep then [] :: split_on sep r
      else match split_on sep r with
           | [] => [[c]]
           | h :: t => (c :: h) :: t
           end
  end.

(** [l.join(sep)] *)
Fixpoint join (sep : Z) (l : list jstr) : jstr :=
  match l with
  | [] => []
  | [x] => x
  | x :: r => x ++ sep :: join sep r
  end.

Definition nonempty (s : jstr) : bool := match s with [] => false | _ => true end.

(** [s.startsWith(p)], [s.endsWith(p)] *)
Fixpoint starts_with (p s : jstr) : bool :=
  match p, s with
  | [], _ => true
  | a :: p, b :: s => (a =? b) && starts_with p s
  | _ :: _, [] => false
  end.
Definition ends_with (p s : jstr) : bool := starts_with (reverse p) (reverse s).

(** [s.includes(c)] for one unit *)
Definition includes (c : Z) (s : jstr) : bool := existsb (Z.eqb c) s.

(** [s.indexOf(c, from)]: the first position [>= from] of [c], or [-1]. *)
Fixpoint find_from (c : Z) (i : Z) (s : jstr) : Z :=
  match s with
  | [] => -1
  | x :: r => if x =? c then i else find_from c (i + 1) r
  end.
Definition index_of (c : Z) (s : jstr) (from : Z) : Z :=
  find_from c (Z.max 0 from) (drop (Z.to_nat from) s).

(** White space of [String.prototype.trim]. *)
Definition js_space (c : Z) : bool :=
  ((9 <=? c) && (c <=? 13)) || (c =? 32) || (c =? 160) || (c =? 5760)
  || ((8192 <=? c) && (c <=? 8202)) || (c =? 8232) || (c =? 8233)
  || (c =? 8239) || (c =? 8287) || (c =? 12288) || (c =? 65279).
Fixpoint drop_space (s : jstr) : jstr :=
  match s with c :: r => if js_space c then drop_space r else s | [] => [] end.
Definition trim (s : jstr) : jstr := reverse (drop_space (reverse (drop_space s))).

(** ASCII case folding of one unit (what the code writes as [c += 32]). *)
Definition lower_unit (c : Z) : Z := if (65 <=? c) && (c <=? 90) then c + 32 else c.
Definition is_digit (c : Z) : bool := (48 <=? c) && (c <=? 57).
Definition is_lower (c : Z) : bool := (97 <=? c) && (c <=? 122).
Definition is_upper (c : Z) : bool := (65 <=? c) && (c <=? 90).

(** Decimal digits of a non-negative number: [String(n)]. *)
Fixpoint digits_fuel (fuel : nat) (n : Z) (acc : jstr) : jstr :=
  match fuel with
  | O => acc
  | S f => let acc := (48 + n mod 10) :: acc in
           if n <? 10 then acc else digits_fuel f (n / 10) acc
  end.
Definition show_Z (n : Z) : jstr :=
  if n <? 0 then 45 :: digits_fuel (S (Z.to_nat (Z.log2 (- n)))) (- n) []
  else digits_fuel (S (Z.to_nat (Z.log2 n))) n [].

(** ** Unicode tables of the JavaScript runtime

    The code uses two operations whose definition is a Unicode table of the
    runtime: [String.prototype.toLowerCase] and [domainToASCII] of [node:url].
    The development only relies on what they do to ASCII text. *)
Class Unicode := {
  toLowerCase : jstr → jstr;
  domainToASCII : jstr → jstr;
  toLowerCase_ascii s : is_ascii s → toLowerCase s = lower_unit <$> s
}.

(** The tables restricted to ASCII: the instance on which witnesses evaluate. *)
Definition ascii_unicode : Unicode.
Proof.
  refine {| toLowerCase := fmap lower_unit; domainToASCII := λ _, [] |}.
  done.
Defined.

(** ** Generic lemmas *)

Lemma split_on_nonempty sep s : split_on sep s ≠ [].
Proof. destruct s; simpl; [done |]. destruct (_ =? _); [done |]. by destruct (split_on sep s). Qed.

Lemma split_on_nosep sep s : sep ∉ s → split_on sep s = [s].
Proof.
  induction s as [|c s IH]; simpl; intros Hs; [done |].
  destruct (Z.eqb_spec c sep); [set_solver |]. rewrite IH by set_solver. done.
Qed.

Lemma split_on_app_sep sep a s :
  sep ∉ a → split_on sep (a ++ sep :: s) = a :: split_on sep s.
Proof.
  induction a as [|c a IH]; simpl; intros Ha.
  - by rewrite Z.eqb_refl.
  - destruct (Z.eqb_spec c sep); [set_solver |]. by rewrite IH by set_solver.
Qed.

Lemma split_on_join sep l :
  l ≠ [] → Forall (λ x, sep ∉ x) l → split_on sep (join sep l) = l.
Proof.
  intros Hne Hl. induction Hl as [|x l Hx Hl IH]; [done |].
  destruct l as [|y l]; simpl; [by apply split_on_nosep |].
  rewrite split_on_app_sep by done. f_equal. by apply IH.
Qed.

Lemma join_split_on sep s : join sep (split_on sep s) = s.
Proof.
  induction s as [|c s IH]; simpl; [done |].
  destruct (Z.eqb_spec c sep) as [->|Hc].
  - rewrite <- IH at 2. pose proof (split_on_nonempty sep s). by destruct (split_on sep s).
  - pose proof (split_on_nonempty sep s). destruct (split_on sep s) as [|x l]; [done |].
    destruct l; simpl in *; by rewrite <- IH.
Qed.

Lemma is_ascii_js s : forallb (λ c, (0 <=? c) && (c <? 128)) (js s) = true → is_ascii (js s).
Proof.
  intros H. apply Forall_forall. intros c Hc%list_elem_of_In.
  eapply forallb_forall in H; [|done]. lia.
Qed.

(** Case analysis on the 256 byte values, by computation. *)
Lemma byte_ind_bool (P : Z → bool) :
  forallb P (seqZ 0 256) = true → ∀ b, 0 ≤ b < 256 → P b = true.
Proof.
  intros H b Hb. eapply forallb_forall in H; [done |].
  apply list_elem_of_In, elem_of_seqZ. lia.
Qed.

(** ** Decimal numbers *)

(** The value of a string of digits. *)
Definition digits_value (s : jstr) : Z := fold_left (λ a d, a * 10 + (d - 48)) s 0.

Lemma digits_fuel_spec fuel n acc :
  0 ≤ n < 2 ^ Z.of_nat fuel →
  ∃ ds, digits_fuel fuel n acc = ds ++ acc ∧ Forall (λ c, 48 ≤ c ≤ 57) ds ∧ digits_value ds = n.
Proof.
  revert n acc. induction fuel as [|fuel IH]; intros n acc Hn.
  { exists []. split_and!; [done | constructor |]. unfold digits_value. simpl in *. lia. }
  cbn [digits_fuel]. rewrite Nat2Z.inj_succ, Z.pow_succ_r in Hn by lia.
  assert (48 ≤ 48 + n mod 10 ≤ 57) by (pose proof (Z.mod_pos_bound n 10); lia).
  destruct (Z.ltb_spec n 10).
  - exists [48 + n mod 10]. split_and!; [done | by apply Forall_singleton |].
    unfold digits_value. simpl. rewrite Z.mod_small; lia.
  - destruct (IH (n / 10) ((48 + n mod 10) :: acc)) as (ds & -> & Hds & Hv).
    { split; [apply Z.div_pos; lia | apply Z.div_lt_upper_bound; lia]. }
    exists (ds ++ [48 + n mod 10]). split_and!; [by rewrite <- app_assoc | by apply Forall_app_2; [|apply Forall_singleton] |].
    unfold digits_value in *. rewrite fold_left_app, Hv. cbn [fold_left]. Z.div_mod_to_equations. lia.
Qed.

Lemma digits_fuel_app fuel n acc : ∃ l, digits_fuel fuel n acc = l ++ acc.
Proof.
  revert n acc. induction fuel as [|fuel IH]; intros n acc; cbn [digits_fuel]; [by exists [] |].
  destruct (n <? 10); [by exists [48 + n mod 10] |].
  destruct (IH (n / 10) ((48 + n mod 10) :: acc)) as [l ->]. exists (l ++ [48 + n mod 10]).
  by rewrite <- app_assoc.
Qed.

Lemma show_Z_spec n : 0 ≤ n → Forall (λ c, 48 ≤ c ≤ 57) (show_Z n) ∧ digits_value (show_Z n) = n.
Proof.
  intros Hn. unfold show_Z. destruct (Z.ltb_spec n 0); [lia |].
  destruct (digits_fuel_spec (S (Z.to_nat (Z.log2 n))) n []) as (ds & -> & Hds & Hv).
  - split; [done |]. rewrite Nat2Z.inj_succ, Z2Nat.id by apply Z.log2_nonneg.
    destruct (decide (n = 0)) as [->|]; [done |]. apply Z.log2_spec. lia.
  - by rewrite app_nil_r.
Qed.

Lemma show_Z_inj n m : 0 ≤ n → 0 ≤ m → show_Z n = show_Z m → n = m.
Proof. intros Hn Hm E. rewrite <- (proj2 (show_Z_spec n Hn)), E. by apply show_Z_spec. Qed.

(** [every] and [some] as statements about the elements *)
Lemma forallb_Forall {A} (f : A → bool) l : forallb f l = true ↔ Forall (λ x, f x = true) l.
Proof. rewrite forallb_forall, Forall_forall. by setoid_rewrite list_elem_of_In. Qed.
Lemma existsb_Forall {A} (f : A → bool) l : existsb f l = false ↔ Forall (λ x, f x = false) l.
Proof.
  induction l as [|x l IH]; cbn [existsb]; [by split |]. rewrite orb_false_iff, IH, Forall_cons. done.
Qed.

(** Nothing to trim in a string without white space *)
Lemma drop_space_id s : forallb (λ c, negb (js_space c)) s = true → drop_space s = s.
Proof. destruct s as [|c s]; [done |]. cbn. by destruct (js_space c). Qed.

Lemma trim_id s : forallb (λ c, negb (js_space c)) s = true → trim s = s.
Proof.
  intros Hs. unfold trim. rewrite (drop_space_id s Hs), drop_space_id; [apply reverse_involutive |].
  apply forallb_forall. intros x Hx. rewrite forallb_forall in Hs. apply Hs.
  rewrite <- list_elem_of_In in *. by apply elem_of_reverse.
Qed.

(** A separator splits a string in one way. *)
Lemma app_sep_inj (sep : Z) a b x y :
  sep ∉ a → sep ∉ b → a ++ sep :: x = b ++ sep :: y → a = b ∧ x = y.
Proof.
  revert b. induction a as [|c a IH]; intros [|d b]; intros Ha Hb E; simplify_list_eq; [done | set_solver | set_solver |].
  destruct (IH b) as [-> ->]; [set_solver | set_solver | done |]. done.
Qed.

(** [String(v).startsWith(p)] *)
Lemma starts_with_app p s : starts_with p s = true ↔ ∃ r, s = p ++ r.
Proof.
  revert s. induction p as [|a p IH]; intros s; cbn [starts_with].
  - split; [by exists s | done].
  - destruct s as [|b s]; [split; [done | by intros [r ?]] |].
    rewrite andb_true_iff, Z.eqb_eq, IH. split; [naive_solver |].
    intros [r Hr]. simplify_eq/=. naive_solver.
Qed.
