(* ===== verification/JsBuffer.v ===== *)
(** * Node buffers, 32-bit integer operators and UTF-8

    What the sources use of [Buffer] (bounded reads and writes that throw
    [ERR_OUT_OF_RANGE], [subarray], [concat] as [++]), of the bitwise operators
    (operands and results are int32, [>>>] works on uint32) and of the UTF-8
    codec of [Buffer.toString] and [Buffer.from]. *)

From S2P Require Import Prelude.

Local Open Scope Z_scope.

(** ** Buffers: lists of bytes *)

Definition is_byte (b : Z) : Prop := 0 ≤ b < 256.
Abbreviation is_bytes := (Forall is_byte).

Definition blen (b : list Z) : Z := Z.of_nat (length b).

(** [buf[i]]; [None] is [undefined]. *)
Definition byte_at (b : list Z) (i : Z) : option Z :=
  if i <? 0 then None else b !! Z.to_nat i.

(** [buf[i]] used as a number by an operator that turns [undefined] into [0]. *)
Definition byte_or0 (b : list Z) (i : Z) : Z := default 0 (byte_at b i).

Definition out_of_range : string := "ERR_OUT_OF_RANGE".

Definition readUInt16BE (b : list Z) (i : Z) : res Z :=
  match byte_at b i, byte_at b (i + 1) with
  | Some h, Some l => Ok (h * 256 + l)
  | _, _ => Throw out_of_range
  end.

Definition readUInt32BE (b : list Z) (i : Z) : res Z :=
  match byte_at b i, byte_at b (i + 1), byte_at b (i + 2), byte_at b (i + 3) with
  | Some a, Some b, Some c, Some d => Ok (((a * 256 + b) * 256 + c) * 256 + d)
  | _, _, _, _ => Throw out_of_range
  end.

(** [buf.subarray(s, e)] for [0 <= s]. *)
Definition subarray (b : list Z) (s e : Z) : list Z :=
  take (Z.to_nat (e - s)) (drop (Z.to_nat s) b).

Definition alloc (n : Z) : list Z := replicate (Z.to_nat n) 0.

(** Overwrite the bytes at [off] with [l]; throws when they do not fit. *)
Definition write_bytes (b : list Z) (off : Z) (l : list Z) : res (list Z) :=
  if (0 <=? off) && (off + blen l <=? blen b)
  then Ok (take (Z.to_nat off) b ++ l ++ drop (Z.to_nat off + length l) b)
  else Throw out_of_range.

Definition u16 (v : Z) : list Z := [v / 256; v mod 256].
Definition u32 (v : Z) : list Z :=
  [v / 16777216; v / 65536 mod 256; v / 256 mod 256; v mod 256].

Definition writeUInt16BE (b : list Z) (v off : Z) : res (list Z) :=
  if (0 <=? v) && (v <? 65536) then write_bytes b off (u16 v) else Throw out_of_range.

Definition writeUInt32BE (b : list Z) (v off : Z) : res (list Z) :=
  if (0 <=? v) && (v <? 4294967296) then write_bytes b off (u32 v) else Throw out_of_range.

(** ** 32-bit integers *)

Definition uint32 (z : Z) : Z := z mod 4294967296.
Definition int32 (z : Z) : Z := (z + 2147483648) mod 4294967296 - 2147483648.
(** [Math.imul(a, b)], [a ^ b] and [a >>> n] *)
Definition imul (a b : Z) : Z := int32 (a * b).
Definition xor32 (a b : Z) : Z := Z.lxor (int32 a) (int32 b).
Definition ushr (a n : Z) : Z := Z.shiftr (uint32 a) n.

(** ** UTF-8 *)

Definition replacement : Z := 65533.

(** The decoder's pending sequence: continuation bytes still needed, the code
    point so far, the bounds of the next byte (WHATWG "utf-8 decoder"). *)
Record pending := Pending { p_need : Z; p_cp : Z; p_lower : Z; p_upper : Z }.

(** UTF-16 units of a code point. *)
Definition utf16_units (cp : Z) : jstr :=
  if cp <? 65536 then [cp]
  else [55296 + (cp - 65536) / 1024; 56320 + (cp - 65536) mod 1024].

Definition utf8_lead (b : Z) : jstr * option pending :=
  if b <? 128 then ([b], None)
  else if (194 <=? b) && (b <=? 223) then ([], Some (Pending 1 (b - 192) 128 191))
  else if b =? 224 then ([], Some (Pending 2 0 160 191))
  else if b =? 237 then ([], Some (Pending 2 13 128 159))
  else if (225 <=? b) && (b <=? 239) then ([], Some (Pending 2 (b - 224) 128 191))
  else if b =? 240 then ([], Some (Pending 3 0 144 191))
  else if (241 <=? b) && (b <=? 243) then ([], Some (Pending 3 (b - 240) 128 191))
  else if b =? 244 then ([], Some (Pending 3 4 128 143))
  else ([replacement], None).

Fixpoint utf8_go (st : option pending) (bs : list Z) : jstr :=
  match bs with
  | [] => match st with None => [] | Some _ => [replacement] end
  | b :: r =>
      match st with
      | None => let '(out, st') := utf8_lead b in out ++ utf8_go st' r
      | Some (Pending need cp lo hi) =>
          if (lo <=? b) && (b <=? hi) then
            let cp := cp * 64 + (b - 128) in
            if need =? 1 then utf16_units cp ++ utf8_go None r
            else utf8_go (Some (Pending (need - 1) cp 128 191)) r
          else (* the byte starts a new sequence *)
            let '(out, st') := utf8_lead b in replacement :: out ++ utf8_go st' r
      end
  end.

(** [buf.toString('utf8')] *)
Definition utf8_decode (bs : list Z) : jstr := utf8_go None bs.

Definition utf8_encode_cp (cp : Z) : list Z :=
  if cp <? 128 then [cp]
  else if cp <? 2048 then [192 + cp / 64; 128 + cp mod 64]
  else if cp <? 65536 then [224 + cp / 4096; 128 + cp / 64 mod 64; 128 + cp mod 64]
  else [240 + cp / 262144; 128 + cp / 4096 mod 64; 128 + cp / 64 mod 64; 128 + cp mod 64].

(** [Buffer.from(s, 'utf8')]; a lone surrogate becomes U+FFFD. *)
Fixpoint utf8_encode (s : jstr) : list Z :=
  match s with
  | [] => []
  | c :: r =>
      if (55296 <=? c) && (c <=? 56319) then
        match r with
        | d :: r' =>
            if (56320 <=? d) && (d <=? 57343)
            then utf8_encode_cp (65536 + (c - 55296) * 1024 + (d - 56320)) ++ utf8_encode r'
            else utf8_encode_cp replacement ++ utf8_encode r
        | [] => utf8_encode_cp replacement
        end
      else if (56320 <=? c) && (c <=? 57343) then utf8_encode_cp replacement ++ utf8_encode r
      else utf8_encode_cp c ++ utf8_encode r
  end.

(** [Buffer.from(s, 'ascii')] keeps the low byte of each unit. *)
Definition ascii_encode (s : jstr) : list Z := (λ c, c mod 256) <$> s.

(** ** Lemmas *)

Lemma blen_nonneg b : 0 ≤ blen b.
Proof. unfold blen. lia. Qed.

Lemma blen_app a b : blen (a ++ b) = blen a + blen b.
Proof. unfold blen. rewrite length_app. lia. Qed.

Lemma blen_cons x b : blen (x :: b) = 1 + blen b.
Proof. unfold blen. simpl. lia. Qed.

Lemma blen_nil : blen [] = 0.
Proof. done. Qed.

Create Rewrite HintDb jsbytes.
#[export] Hint Rewrite blen_app blen_cons blen_nil : jsbytes.
Ltac pose_blen x :=
  lazymatch goal with
  | H : 0 ≤ blen x |- _ => fail
  | _ => pose proof (blen_nonneg x)
  end.
Ltac blen_lia :=
  unfold u16, u32 in *; autorewrite with jsbytes in *;
  repeat match goal with
  | |- context [blen ?x] => pose_blen x
  | _ : context [blen ?x] |- _ => pose_blen x
  end; lia.

Lemma byte_at_Some b i x : byte_at b i = Some x → 0 ≤ i < blen b.
Proof.
  unfold byte_at, blen. destruct (Z.ltb_spec i 0); [done |].
  intros Hl%lookup_lt_Some. lia.
Qed.

Lemma byte_at_is_Some b i : 0 ≤ i < blen b → ∃ x, byte_at b i = Some x.
Proof.
  unfold byte_at, blen. intros. destruct (Z.ltb_spec i 0); [lia |].
  apply lookup_lt_is_Some_2. lia.
Qed.

Lemma byte_at_byte b i x : is_bytes b → byte_at b i = Some x → is_byte x.
Proof.
  unfold byte_at. destruct (i <? 0); [done |]. intros Hb Hi.
  by eapply Forall_lookup_1.
Qed.

Lemma byte_at_app_r p r i : 0 ≤ i → byte_at (p ++ r) (blen p + i) = byte_at r i.
Proof.
  unfold byte_at, blen. intros.
  destruct (Z.ltb_spec (Z.of_nat (length p) + i) 0), (Z.ltb_spec i 0); try lia.
  rewrite lookup_app_r by lia. f_equal. lia.
Qed.

Lemma byte_at_app_l p r i : i < blen p → byte_at (p ++ r) i = byte_at p i.
Proof.
  unfold byte_at, blen. intros. destruct (Z.ltb_spec i 0); [done |].
  apply lookup_app_l. lia.
Qed.

Lemma byte_at_0 x r : byte_at (x :: r) 0 = Some x.
Proof. done. Qed.

Lemma byte_at_S x r i : 0 ≤ i → byte_at (x :: r) (1 + i) = byte_at r i.
Proof. intros. change (x :: r) with ([x] ++ r). by rewrite <- (byte_at_app_r [x] r). Qed.

Lemma readUInt16BE_app_r p r i :
  0 ≤ i → readUInt16BE (p ++ r) (blen p + i) = readUInt16BE r i.
Proof.
  intros. unfold readUInt16BE. by rewrite <- Z.add_assoc, !byte_at_app_r by lia.
Qed.

Lemma readUInt32BE_app_r p r i :
  0 ≤ i → readUInt32BE (p ++ r) (blen p + i) = readUInt32BE r i.
Proof.
  intros. unfold readUInt32BE. by rewrite <- !Z.add_assoc, !byte_at_app_r by lia.
Qed.

Lemma readUInt16BE_app_l p r i :
  i + 1 < blen p → readUInt16BE (p ++ r) i = readUInt16BE p i.
Proof. intros. unfold readUInt16BE. by rewrite !byte_at_app_l by lia. Qed.

Lemma readUInt16BE_u16 v r : readUInt16BE (u16 v ++ r) 0 = Ok v.
Proof. unfold readUInt16BE, u16. simpl. f_equal. pose proof (Z.div_mod v 256). lia. Qed.

Lemma readUInt32BE_u32 v r : readUInt32BE (u32 v ++ r) 0 = Ok v.
Proof.
  unfold readUInt32BE, u32. simpl. f_equal.
  Z.div_mod_to_equations. lia.
Qed.

Lemma read16_at p v r o : o = blen p → readUInt16BE (p ++ u16 v ++ r) o = Ok v.
Proof.
  intros ->. rewrite <- (Z.add_0_r (blen p)), readUInt16BE_app_r by lia. apply readUInt16BE_u16.
Qed.
Lemma read32_at p v r o : o = blen p → readUInt32BE (p ++ u32 v ++ r) o = Ok v.
Proof.
  intros ->. rewrite <- (Z.add_0_r (blen p)), readUInt32BE_app_r by lia. apply readUInt32BE_u32.
Qed.

Lemma readUInt16BE_Ok b i v :
  readUInt16BE b i = Ok v → 0 ≤ i ∧ i + 2 ≤ blen b.
Proof.
  unfold readUInt16BE. destruct (byte_at b i) eqn:H1, (byte_at b (i + 1)) eqn:H2; try done.
  apply byte_at_Some in H1, H2. lia.
Qed.

Lemma readUInt16BE_total b i : 0 ≤ i → i + 2 ≤ blen b → ∃ v, readUInt16BE b i = Ok v.
Proof.
  intros. unfold readUInt16BE.
  destruct (byte_at_is_Some b i) as [x Hx], (byte_at_is_Some b (i + 1)) as [y Hy]; [lia.. |].
  rewrite Hx, Hy. eauto.
Qed.

Lemma readUInt32BE_total b i : 0 ≤ i → i + 4 ≤ blen b → ∃ v, readUInt32BE b i = Ok v.
Proof.
  intros. unfold readUInt32BE.
  destruct (byte_at_is_Some b i) as [x Hx], (byte_at_is_Some b (i + 1)) as [y Hy],
    (byte_at_is_Some b (i + 2)) as [z Hz], (byte_at_is_Some b (i + 3)) as [w Hw]; [lia.. |].
  rewrite Hx, Hy, Hz, Hw. eauto.
Qed.

Lemma readUInt16BE_range b i v : is_bytes b → readUInt16BE b i = Ok v → 0 ≤ v < 65536.
Proof.
  unfold readUInt16BE. intros Hb.
  destruct (byte_at b i) eqn:H1, (byte_at b (i + 1)) eqn:H2; try done.
  pose proof (byte_at_byte _ _ _ Hb H1) as []. pose proof (byte_at_byte _ _ _ Hb H2) as [].
  intros [= <-]. lia.
Qed.

Lemma readUInt32BE_range b i v : is_bytes b → readUInt32BE b i = Ok v → 0 ≤ v < 4294967296.
Proof.
  unfold readUInt32BE. intros Hb.
  destruct (byte_at b i) eqn:H1, (byte_at b (i + 1)) eqn:H2, (byte_at b (i + 2)) eqn:H3,
    (byte_at b (i + 3)) eqn:H4; try done.
  pose proof (byte_at_byte _ _ _ Hb H1) as []. pose proof (byte_at_byte _ _ _ Hb H2) as [].
  pose proof (byte_at_byte _ _ _ Hb H3) as []. pose proof (byte_at_byte _ _ _ Hb H4) as [].
  intros [= <-]. lia.
Qed.

Lemma fueled_readUInt16BE b i : fueled (readUInt16BE b i).
Proof. unfold readUInt16BE. by destruct (byte_at b i), (byte_at b (i + 1)). Qed.
Lemma fueled_readUInt32BE b i : fueled (readUInt32BE b i).
Proof.
  unfold readUInt32BE.
  by destruct (byte_at b i), (byte_at b (i + 1)), (byte_at b (i + 2)), (byte_at b (i + 3)).
Qed.
Lemma fueled_write_bytes b o l : fueled (write_bytes b o l).
Proof. unfold write_bytes. by destruct (_ && _). Qed.
Lemma fueled_writeUInt16BE b v o : fueled (writeUInt16BE b v o).
Proof. unfold writeUInt16BE. destruct (_ && _); [apply fueled_write_bytes | done]. Qed.
Lemma fueled_writeUInt32BE b v o : fueled (writeUInt32BE b v o).
Proof. unfold writeUInt32BE. destruct (_ && _); [apply fueled_write_bytes | done]. Qed.
#[export] Hint Resolve fueled_readUInt16BE fueled_readUInt32BE fueled_write_bytes
  fueled_writeUInt16BE fueled_writeUInt32BE : fuel.

Lemma blen_u16 v : blen (u16 v) = 2.
Proof. done. Qed.
Lemma blen_u32 v : blen (u32 v) = 4.
Proof. done. Qed.
#[export] Hint Rewrite blen_u16 blen_u32 : jsbytes.

Lemma write_bytes_Ok b o l out :
  write_bytes b o l = Ok out ↔
  0 ≤ o ∧ o + blen l ≤ blen b ∧
  out = take (Z.to_nat o) b ++ l ++ drop (Z.to_nat o + length l) b.
Proof.
  unfold write_bytes.
  destruct (Z.leb_spec 0 o), (Z.leb_spec (o + blen l) (blen b)); simpl;
    split; intros; destruct_and?; simplify_eq; try lia; done.
Qed.

Lemma write_bytes_length b o l out : write_bytes b o l = Ok out → length out = length b.
Proof.
  intros (? & ? & ->)%write_bytes_Ok. unfold blen in *.
  rewrite !length_app, length_take, length_drop. lia.
Qed.

Lemma write_bytes_outside b o l out i :
  write_bytes b o l = Ok out → i < o ∨ o + blen l ≤ i → byte_at out i = byte_at b i.
Proof.
  intros (Ho & Hl & ->)%write_bytes_Ok Hi. unfold byte_at, blen in *.
  destruct (Z.ltb_spec i 0); [done |]. destruct Hi as [Hi|Hi].
  - rewrite lookup_app_l by (rewrite length_take; lia). by rewrite lookup_take_lt by lia.
  - rewrite lookup_app_r by (rewrite length_take; lia).
    rewrite length_take, lookup_app_r by lia. rewrite lookup_drop. f_equal. lia.
Qed.

Lemma write_bytes_inside b o l out i :
  write_bytes b o l = Ok out → 0 ≤ i < blen l → byte_at out (o + i) = byte_at l i.
Proof.
  intros (Ho & Hl & ->)%write_bytes_Ok Hi.
  assert (blen (take (Z.to_nat o) b) = o) as Hlen.
  { unfold blen in *. rewrite length_take. lia. }
  replace (o + i) with (blen (take (Z.to_nat o) b) + i) by lia.
  rewrite byte_at_app_r by lia. apply byte_at_app_l. lia.
Qed.

Lemma write_bytes_bytes b o l out :
  is_bytes b → is_bytes l → write_bytes b o l = Ok out → is_bytes out.
Proof.
  intros Hb Hl (_ & _ & ->)%write_bytes_Ok.
  rewrite !Forall_app. split_and!; auto using Forall_take, Forall_drop.
Qed.

Lemma u16_bytes v : 0 ≤ v < 65536 → is_bytes (u16 v).
Proof.
  intros. unfold u16, is_byte. repeat constructor; Z.div_mod_to_equations; lia.
Qed.

Lemma u32_bytes v : 0 ≤ v < 4294967296 → is_bytes (u32 v).
Proof.
  intros. unfold u32, is_byte. repeat constructor; Z.div_mod_to_equations; lia.
Qed.

Lemma byte_at_ext a b : length a = length b → (∀ i, byte_at a i = byte_at b i) → a = b.
Proof.
  intros _ H. apply list_eq. intros i. specialize (H (Z.of_nat i)).
  unfold byte_at in H. destruct (Z.ltb_spec (Z.of_nat i) 0); [lia |].
  by rewrite Nat2Z.id in H.
Qed.

(** ASCII text is the same in UTF-8, in 'ascii' and as units. *)
Lemma utf8_decode_ascii s : is_ascii s → utf8_decode s = s.
Proof.
  unfold utf8_decode, is_ascii. induction 1 as [|c s Hc Hs IH]; simpl; [done |].
  unfold utf8_lead. destruct (Z.ltb_spec c 128); [|lia]. simpl. by rewrite IH.
Qed.

Lemma ascii_encode_ascii s : is_ascii s → ascii_encode s = s.
Proof.
  unfold ascii_encode. induction 1 as [|c s Hc Hs IH]; csimpl; [done |].
  rewrite IH. f_equal. apply Z.mod_small. lia.
Qed.

Lemma utf8_encode_ascii s : is_ascii s → utf8_encode s = s.
Proof.
  induction 1 as [|c s Hc Hs IH]; simpl; [done |].
  destruct (Z.leb_spec 55296 c); [lia |]. destruct (Z.leb_spec 56320 c); [lia |]. simpl.
  unfold utf8_encode_cp. destruct (Z.ltb_spec c 128); [|lia]. simpl. by rewrite IH.
Qed.

(** int32 results stay in range. *)
Lemma int32_range z : -2147483648 ≤ int32 z < 2147483648.
Proof. unfold int32. pose proof (Z.mod_pos_bound (z + 2147483648) 4294967296). lia. Qed.

Lemma uint32_range z : 0 ≤ uint32 z < 4294967296.
Proof. apply Z.mod_pos_bound. lia. Qed.

Lemma blen_subarray_bound b s e : blen (subarray b s e) ≤ Z.max 0 (e - s).
Proof. unfold subarray, blen. rewrite length_take. lia. Qed.

(** ** Pieces of a buffer *)

Lemma blen_take_drop (l : list Z) (a b : nat) : (a + b <= length l)%nat → length (take b (drop a l)) = b.
Proof. intros. rewrite length_take, length_drop. lia. Qed.

Lemma subarray_eq l s e : 0 ≤ s ≤ e → subarray l s e = take (Z.to_nat e - Z.to_nat s) (drop (Z.to_nat s) l).
Proof. intros. unfold subarray. f_equal. lia. Qed.

Lemma blen_subarray l s e : 0 ≤ s ≤ e → e ≤ blen l → blen (subarray l s e) = e - s.
Proof. intros. rewrite subarray_eq by done. unfold blen in *. rewrite blen_take_drop; lia. Qed.

Lemma drop_split l s e : 0 ≤ s ≤ e → e ≤ blen l →
  drop (Z.to_nat s) l = subarray l s e ++ drop (Z.to_nat e) l.
Proof.
  intros. unfold blen in *. rewrite subarray_eq by lia.
  rewrite <- (take_drop (Z.to_nat e - Z.to_nat s) (drop (Z.to_nat s) l)) at 1.
  f_equal. rewrite drop_drop. f_equal. lia.
Qed.

Lemma byte_at_subarray l s e i : 0 ≤ s → 0 ≤ i < e - s → byte_at (subarray l s e) i = byte_at l (s + i).
Proof.
  intros. unfold byte_at, subarray. destruct (Z.ltb_spec i 0), (Z.ltb_spec (s + i) 0); try lia.
  rewrite lookup_take_lt by lia. rewrite lookup_drop. f_equal. lia.
Qed.

Lemma byte_at_list_ext a b : blen a = blen b → (∀ i, 0 ≤ i < blen a → byte_at a i = byte_at b i) → a = b.
Proof.
  intros Hl H. apply list_eq. intros i. unfold blen in *.
  destruct (decide (i < length a)%nat).
  - specialize (H (Z.of_nat i) ltac:(lia)). unfold byte_at in H.
    destruct (Z.ltb_spec (Z.of_nat i) 0); [lia |]. by rewrite Nat2Z.id in H.
  - rewrite !lookup_ge_None_2; [done | lia | lia].
Qed.

Lemma blen_alloc n : 0 ≤ n → blen (alloc n) = n.
Proof. intros. unfold blen, alloc. rewrite length_replicate. lia. Qed.

Lemma subarray_middle p l r s e :
  s = blen p → e = blen p + blen l → subarray (p ++ l ++ r) s e = l.
Proof.
  unfold subarray, blen. intros -> ->.
  rewrite Nat2Z.id, drop_app_length. apply take_app_length'. lia.
Qed.
