(* ===== verification/JsValues.v ===== *)
(** * JavaScript numbers, JSON values and the order of strings

    What the message checks of the edge runtime use: the values that
    [JSON.parse] gives, the numbers a decimal text stands for, [<] on strings
    and [Array.prototype.sort] with it. *)

From S2P Require Import Prelude JsBuffer.

Local Open Scope Z_scope.

(** ** Numbers *)

(** A number that is not [NaN]: an integer, [m / 2 ^ e] with [m] odd, an infinity. *)
Inductive num :=
  | NInt (z : Z)
  | NFrac (m : Z) (e : positive)
  | NInf (negative : bool).

#[export] Instance num_eq_dec : EqDecision num.
Proof. solve_decision. Defined.

(** The double nearest to an integer: 53 significant bits, ties to even. *)
Definition round53 (z : Z) : Z :=
  let a := Z.abs z in
  if a <? 9007199254740992 then z
  else
    let e := Z.log2 a - 52 in
    let q := Z.shiftr a e in
    let r := a - Z.shiftl q e in
    let half := Z.shiftl 1 (e - 1) in
    let q := if (half <? r) || ((r =? half) && Z.odd q) then q + 1 else q in
    Z.sgn z * Z.shiftl q e.

(** [Number(s)] for a text of digits. *)
Definition digits_num (s : jstr) : num :=
  let v := round53 (digits_value s) in
  if 1024 <=? Z.log2 v then NInf false else NInt v.

(** [a < b] for numbers *)
Definition num_lt (a b : num) : bool :=
  match a, b with
  | NInf neg, NInf neg' => neg && negb neg'
  | NInf neg, _ => neg
  | _, NInf neg => negb neg
  | NInt x, NInt y => x <? y
  | NInt x, NFrac m e => x * 2 ^ Z.pos e <? m
  | NFrac m e, NInt y => m <? y * 2 ^ Z.pos e
  | NFrac m e, NFrac m' e' => m * 2 ^ Z.pos e' <? m' * 2 ^ Z.pos e
  end.
Definition num_min (a b : num) : num := if num_lt b a then b else a.
Definition num_max (a b : num) : num := if num_lt a b then b else a.
Definition is_finite (a : num) : bool := match a with NInf _ => false | _ => true end.

(** ** JSON *)

(** The fields of an object stand in the order [Object.keys] gives. *)
Inductive json :=
  | JNull
  | JBool (b : bool)
  | JNum (n : num)
  | JStr (s : jstr)
  | JArr (l : list json)
  | JObj (fields : list (jstr * json)).

(** [o.k] of an object; [None] is [undefined]. *)
Fixpoint field (fields : list (jstr * json)) (k : jstr) : option json :=
  match fields with
  | [] => None
  | (k', v) :: r => if bool_decide (k' = k) then Some v else field r k
  end.

Definition as_int (v : json) : option Z := match v with JNum (NInt z) => Some z | _ => None end.
Definition as_str (v : json) : option jstr := match v with JStr s => Some s | _ => None end.
Definition is_true (v : option json) : bool := match v with Some (JBool true) => true | _ => false end.
Definition is_false (v : option json) : bool := match v with Some (JBool false) => true | _ => false end.

(** [v === s] for a string literal *)
Definition is_str (v : option json) (s : jstr) : bool :=
  match v with Some (JStr t) => bool_decide (t = s) | _ => false end.

(** ** The order of strings *)

Fixpoint str_lt (a b : jstr) : bool :=
  match a, b with
  | [], [] => false
  | [], _ => true
  | _, [] => false
  | x :: a, y :: b => if x =? y then str_lt a b else x <? y
  end.

Lemma str_lt_irrefl a : str_lt a a = false.
Proof. induction a as [|x a IH]; [done |]. cbn [str_lt]. by rewrite Z.eqb_refl. Qed.

Lemma str_lt_trans a b c : str_lt a b = true → str_lt b c = true → str_lt a c = true.
Proof.
  revert b c. induction a as [|x a IH]; intros [|y b] [|z c]; cbn [str_lt]; try done.
  destruct (Z.eqb_spec x y), (Z.eqb_spec y z), (Z.eqb_spec x z); subst; try lia; eauto.
Qed.

Lemma str_lt_total a b : a = b ∨ str_lt a b = true ∨ str_lt b a = true.
Proof.
  revert b. induction a as [|x a IH]; intros [|y b]; cbn [str_lt]; auto.
  destruct (Z.eqb_spec x y) as [->|]; [rewrite Z.eqb_refl; destruct (IH b) as [->|]; auto |].
  destruct (Z.eqb_spec y x); [lia |]. lia.
Qed.

Lemma str_lt_asymm a b : str_lt a b = true → str_lt b a = false.
Proof.
  intros H. destruct (str_lt b a) eqn:E; [|done].
  pose proof (str_lt_trans a b a H E) as Ht. by rewrite str_lt_irrefl in Ht.
Qed.

(** ** Sorting by a string key *)

(** [l.sort((a, b) => a.key < b.key ? -1 : a.key > b.key ? 1 : 0)], stable *)
Fixpoint insert_by {A} (key : A → jstr) (x : A) (l : list A) : list A :=
  match l with
  | [] => [x]
  | y :: r => if str_lt (key y) (key x) then y :: insert_by key x r else x :: l
  end.
Definition sort_by {A} (key : A → jstr) (l : list A) : list A := foldr (insert_by key) [] l.

Lemma insert_by_perm {A} (key : A → jstr) x l : insert_by key x l ≡ₚ x :: l.
Proof.
  induction l as [|y l IH]; [done |]. cbn [insert_by]. destruct (str_lt _ _); [|done].
  rewrite IH. apply Permutation_swap.
Qed.
Lemma sort_by_perm {A} (key : A → jstr) l : sort_by key l ≡ₚ l.
Proof. induction l as [|x l IH]; [done |]. cbn. by rewrite insert_by_perm, IH. Qed.
