(* ===== verification/JsText.v ===== *)
(** * [String(v)], searching a text, cutting a text *)

From S2P Require Import Prelude JsBuffer JsValues.

Local Open Scope Z_scope.

(** [String(n)] of a number that is not an integer a double holds exactly. *)
Class Numbers := { number_text : num → jstr }.

(** [v] as a truth value; [null] for every value that is none. *)
Definition or_null (v : option json) : json :=
  match v with
  | None | Some JNull | Some (JBool false) | Some (JNum (NInt 0)) | Some (JStr []) => JNull
  | Some v => v
  end.
Definition truthy (v : option json) : bool := match or_null v with JNull => false | _ => true end.
(** [v || 'text'] *)
Definition or_text (v : option json) (text : jstr) : json := match or_null v with JNull => JStr text | v => v end.

(** [String(v)] of a parsed value.  An object with a field [toString] has
    no text, as a parsed value is no function: that throws. *)
Definition type_error : string := "TypeError".
Definition plain (m : list (jstr * json)) : bool := bool_decide (field m (js "toString") = None).
Fixpoint String_ `{Numbers} (v : json) : res jstr :=
  match v with
  | JNull => Ok (js "null")
  | JBool b => Ok (if b then js "true" else js "false")
  | JNum n => Ok (number_text n)
  | JStr s => Ok s
  | JObj m => if plain m then Ok (js "[object Object]") else Throw type_error
  | JArr l =>
      (fix items (l : list json) : res jstr :=
         match l with
         | [] => Ok []
         | [v] => match v with JNull => Ok [] | v => String_ v end
         | v :: l => a ← match v with JNull => Ok [] | v => String_ v end; r ← items l; Ok (a ++ 44 :: r)
         end) l
  end.

(** [s.indexOf(p) >= 0] *)
Fixpoint has_text (p s : jstr) : bool :=
  starts_with p s || match s with [] => false | _ :: s => has_text p s end.

(** [s.slice(0, n)] *)
Definition cut (n : Z) (s : jstr) : jstr := take (Z.to_nat n) s.
(** [s.slice(-n)] *)
Definition keep_last (n : Z) (s : jstr) : jstr := drop (length s - Z.to_nat n) s.

Lemma String_JStr `{Numbers} s : String_ (JStr s) = Ok s.
Proof. done. Qed.
