(* ===== verification/JsSet.v ===== *)
(** * Sets of JavaScript spread into arrays

    The elements of a list without duplicates, in the order of their first
    occurrence. *)

From S2P Require Import Prelude.

Local Open Scope Z_scope.

(** [[...new Set(list)]] *)
Definition uniq {A} `{EqDecision A} (l : list A) : list A :=
  fold_left (λ seen x, if bool_decide (x ∈ seen) then seen else seen ++ [x]) l [].

Section Uniq.
Context {A : Type} `{EqDecision A}.

(** The loop of [uniq] from the elements seen so far. *)
Lemma uniq_fold (seen l : list A) :
  let r := fold_left (λ seen x, if bool_decide (x ∈ seen) then seen else seen ++ [x]) l seen in
  (NoDup seen → NoDup r) ∧ (∀ x, x ∈ r ↔ x ∈ seen ∨ x ∈ l) ∧ (length r <= length seen + length l)%nat ∧
  (NoDup (seen ++ l) → r = seen ++ l).
Proof.
  revert seen. induction l as [|x l IH]; intros seen; cbn [fold_left].
  { split_and!; [done | set_solver | lia | by rewrite app_nil_r]. }
  destruct (IH (if bool_decide (x ∈ seen) then seen else seen ++ [x])) as (IH1 & IH2 & IH3 & IH4).
  set (r := fold_left _ _ _) in *. cbn [length].
  case_bool_decide as Hx.
  - split_and!; [done | set_solver | lia |]. intros (_ & Hd & _)%NoDup_app. set_solver.
  - rewrite length_app in IH3. cbn [length] in IH3. rewrite <- app_assoc in IH4. split_and!.
    + intros Hs. apply IH1, NoDup_app. split_and!; [done | set_solver | apply NoDup_singleton].
    + set_solver.
    + lia.
    + done.
Qed.

Lemma elem_of_uniq x (l : list A) : x ∈ uniq l ↔ x ∈ l.
Proof. unfold uniq. destruct (uniq_fold [] l) as (_ & -> & _). set_solver. Qed.
Lemma uniq_NoDup (l : list A) : NoDup (uniq l).
Proof. apply (uniq_fold [] l). constructor. Qed.
Lemma uniq_length (l : list A) : (length (uniq l) <= length l)%nat.
Proof. apply (uniq_fold [] l). Qed.
Lemma uniq_id (l : list A) : NoDup l → uniq l = l.
Proof. apply (uniq_fold [] l). Qed.
End Uniq.

Lemma take_NoDup {A} (n : nat) (l : list A) : NoDup l → NoDup (take n l).
Proof. intros H. eapply sublist_NoDup; [exact H | apply sublist_take]. Qed.
