(* ===== verification/JsFloat.v ===== *)
(** * JavaScript numbers as doubles

    IEEE binary64 through the Standard Library's [SpecFloat]: the operations
    the sensors and the quality measurements use, with [Math.round] and
    [Number(x.toFixed(d))] computed on the exact value. *)

From S2P Require Import Prelude.
From Stdlib Require Export Floats.SpecFloat.

Local Open Scope Z_scope.

Abbreviation f64 := spec_float.

Definition fl_add : f64 → f64 → f64 := SFadd 53 1024.
Definition fl_sub : f64 → f64 → f64 := SFsub 53 1024.
Definition fl_mul : f64 → f64 → f64 := SFmul 53 1024.
Definition fl_div : f64 → f64 → f64 := SFdiv 53 1024.

#[export] Instance fl_eq_dec : EqDecision f64.
Proof. solve_decision. Defined.

(** The double nearest to [n / d]. *)
Definition fl_quot (n : Z) (d : positive) : f64 :=
  match n with
  | Z0 => S754_zero false
  | Zpos p => SFdiv 53 1024 (S754_finite false p 0) (S754_finite false d 0)
  | Zneg p => SFdiv 53 1024 (S754_finite true p 0) (S754_finite false d 0)
  end.
Definition fl_of_Z (n : Z) : f64 := fl_quot n 1.

(** [floor(k * x + 1/2)] for [x = ± m * 2 ^ e] *)
Definition round_scaled (neg : bool) (m : positive) (e : Z) (k : Z) : Z :=
  let v := (if neg then - Z.pos m else Z.pos m) * k in
  if 0 <=? e then v * 2 ^ e else (2 * v + 2 ^ (- e)) / (2 * 2 ^ (- e)).

(** [Math.round(x)] *)
Definition fl_round (x : f64) : f64 :=
  match x with
  | S754_finite neg m e =>
      let r := round_scaled neg m e 1 in
      if (r =? 0) && neg then S754_zero true else fl_of_Z r
  | _ => x
  end.

Definition ten21 : f64 := fl_of_Z 1000000000000000000000.

(** [Number(x.toFixed(d))]: the nearest decimal, then the nearest double. *)
Definition fl_fixed (x : f64) (d : nat) : f64 :=
  match x with
  | S754_finite neg m e =>
      if SFleb ten21 (SFabs x) then x
      else
        let q := fl_quot (round_scaled false m e (10 ^ Z.of_nat d)) (Z.to_pos (10 ^ Z.of_nat d)) in
        if neg then SFopp q else q
  | S754_zero _ => S754_zero false
  | _ => x
  end.

(** [Number.isFinite(x)] *)
Definition fl_finite (x : f64) : bool := match x with S754_zero _ | S754_finite _ _ _ => true | _ => false end.

(** [0.1 + 0.2 !== 0.3], [Math.round(-0.5)] is [-0], [1.005.toFixed(2)] is ["1.00"]. *)
Example fl_sum_example : fl_add (fl_quot 1 10) (fl_quot 2 10) = fl_quot 30000000000000004 100000000000000000.
Proof. reflexivity. Qed.
Example fl_round_example : fl_round (fl_quot (-5) 10) = S754_zero true ∧ fl_round (fl_quot 25 10) = fl_of_Z 3.
Proof. by vm_compute. Qed.
Example fl_fixed_example : fl_fixed (fl_quot 1005 1000) 2 = fl_of_Z 1 ∧ fl_fixed (fl_mul (fl_of_Z 2345) (fl_quot 1 100)) 2 = fl_quot 2345 100.
Proof. by vm_compute. Qed.

(** ** Numbers of texts *)

Fixpoint span (f : Z → bool) (s : jstr) : jstr * jstr :=
  match s with
  | c :: r => if f c then let '(a, b) := span f r in (c :: a, b) else ([], s)
  | [] => ([], [])
  end.

(** [± m * 10 ^ e] *)
Definition fl_decimal (neg : bool) (m e : Z) : f64 :=
  let v := if 0 <=? e then fl_of_Z (m * 10 ^ e) else fl_quot m (Z.to_pos (10 ^ (- e))) in
  if neg then SFopp v else v.

Definition sign_of (s : jstr) : bool * jstr :=
  match s with 43 :: r => (false, r) | 45 :: r => (true, r) | _ => (false, s) end.

Definition decimal_number (s : jstr) : option f64 :=
  let '(neg, s) := sign_of s in
  if bool_decide (s = js "Infinity") then Some (S754_infinity neg)
  else
    let '(a, r) := span is_digit s in
    let '(b, r) := match r with 46 :: r => span is_digit r | _ => ([], r) end in
    let m := digits_value (a ++ b) in
    let e := - Z.of_nat (length b) in
    if negb (nonempty (a ++ b)) then None
    else
      match r with
      | [] => Some (fl_decimal neg m e)
      | c :: r =>
          if (c =? 101) || (c =? 69) then
            let '(eneg, r) := sign_of r in
            let '(d, rest) := span is_digit r in
            if nonempty d && negb (nonempty rest)
            then Some (fl_decimal neg m (e + (if eneg then - digits_value d else digits_value d)))
            else None
          else None
      end.

(** The value of a digit up to base 36. *)
Definition digit36 (c : Z) : Z :=
  if is_digit c then c - 48 else if is_lower c then c - 87 else if is_upper c then c - 55 else 36.
Definition based_number (base : Z) (s : jstr) : option f64 :=
  if nonempty s && forallb (λ c, digit36 c <? base) s
  then Some (fl_of_Z (fold_left (λ a c, a * base + digit36 c) s 0)) else None.

(** [Number(s)]; [None] is [NaN]. *)
Definition to_number (s : jstr) : option f64 :=
  match trim s with
  | [] => Some (fl_of_Z 0)
  | 48 :: c :: r =>
      if (c =? 120) || (c =? 88) then based_number 16 r
      else if (c =? 111) || (c =? 79) then based_number 8 r
      else if (c =? 98) || (c =? 66) then based_number 2 r
      else decimal_number (48 :: c :: r)
  | t => decimal_number t
  end.

Example to_number_examples :
  to_number (js " 12.50 ") = Some (fl_quot 25 2) ∧ to_number (js "1e3") = Some (fl_of_Z 1000) ∧
  to_number (js "0x1f") = Some (fl_of_Z 31) ∧ to_number (js "12 V") = None ∧ to_number (js ".") = None.
Proof. by vm_compute. Qed.
