(* ===== verification/NetwatchDnsWire.v ===== *)
(** * src/netwatch/dnsWire.js

    The minimal DNS messages of the network watcher (unicast mDNS and NetBIOS
    node status) and [readName], the bounded reader of compressed names that
    the DNS filter shares. *)

From S2P Require Import Prelude JsBuffer.

Local Open Scope Z_scope.

Definition TYPE_A : Z := 1.
Definition TYPE_PTR : Z := 12.
Definition TYPE_NBSTAT : Z := 33.
Definition MAX_JUMPS : Z := 16.
Definition MAX_RECORDS : nat := 64.
Definition dot : Z := 46.

(** [Buffer.from([b.length]), b] for every label, after the length check. *)
Fixpoint encode_labels (enc : jstr → list Z) (parts : list jstr) : res (list Z) :=
  match parts with
  | [] => Ok [0]
  | p :: r =>
      let b := enc p in
      if 63 <? blen b then Throw "label too long"
      else rest ← encode_labels enc r; Ok (blen b :: b ++ rest)
  end.

Definition name_parts (name : jstr) : list jstr :=
  filter (λ p, nonempty p = true) (split_on dot name).

Definition encodeName (name : jstr) : res (list Z) :=
  encode_labels utf8_encode (name_parts name).

Definition header (id qd : Z) : res (list Z) :=
  h ← writeUInt16BE (alloc 12) (Z.land id 65535) 0;
  h ← writeUInt16BE h 0 2;
  writeUInt16BE h qd 4.

Definition encodeQuery (id : Z) (name : jstr) (type : Z) : res (list Z) :=
  q ← writeUInt16BE (alloc 4) type 0;
  q ← writeUInt16BE q 1 2;
  h ← header id 1;
  n ← encodeName name;
  Ok (h ++ n ++ q).

Definition reverseName (ip : jstr) : jstr :=
  join dot (reverse (split_on dot ip)) ++ js ".in-addr.arpa".

(** The reader's loop.  [labels] so far, current [pos], the position [next]
    after the first pointer ([-1]: no pointer yet) and the pointers followed. *)
Fixpoint readName_loop (fuel : nat) (buf : list Z) (labels : list jstr)
    (pos next jumps : Z) : res (jstr * Z) :=
  match fuel with
  | O => NoFuel
  | S fuel =>
      match byte_at buf pos with
      | None => Throw "name out of range"
      | Some len =>
          if len =? 0 then
            let pos := pos + 1 in
            Ok (join dot labels, if next =? -1 then pos else next)
          else if Z.land len 192 =? 192 then
            match byte_at buf (pos + 1) with
            | None => Throw "pointer out of range"
            | Some low =>
                let jumps := jumps + 1 in
                if MAX_JUMPS <? jumps then Throw "too many pointers"
                else
                  let next := if next =? -1 then pos + 2 else next in
                  readName_loop fuel buf labels
                    (Z.lor (Z.shiftl (Z.land len 63) 8) low) next jumps
            end
          else if negb (Z.land len 192 =? 0) then Throw "bad label"
          else if blen buf <? pos + 1 + len then Throw "label out of range"
          else
            let labels := labels ++ [utf8_decode (subarray buf (pos + 1) (pos + 1 + len))] in
            if 128 <? Z.of_nat (length labels) then Throw "name too long"
            else readName_loop fuel buf labels (pos + 1 + len) next jumps
      end
  end.

(** At most 128 labels and 16 pointers, then the terminator. *)
Definition readName_fuel : nat := 145.

(** [readName(buf, off)] as [(name, next)]. *)
Definition readName (buf : list Z) (off : Z) : res (jstr * Z) :=
  readName_loop readName_fuel buf [] off (-1) 0.
(** Conversion unfolds the bounded loop last. *)
#[global] Strategy 1000 [readName readName_loop readName_fuel].

(** Skip [n] questions. *)
Fixpoint skip_questions (n : nat) (buf : list Z) (pos : Z) : res Z :=
  match n with
  | O => Ok pos
  | S n => r ← readName buf pos; skip_questions n buf (r.2 + 4)
  end.

Inductive record_type := RecA | RecPTR.
Record record := Record_ { r_name : jstr; r_type : record_type; r_data : jstr }.

Definition dotted (l : list Z) : jstr := join dot (show_Z <$> l).

(** The record loop of [decodeResponse]; [n] records are left. *)
Fixpoint decode_records (n : nat) (buf : list Z) (pos : Z) : res (list record) :=
  match n with
  | O => Ok []
  | S n =>
      nm ← readName buf pos;
      let pos := nm.2 in
      if blen buf <? pos + 10 then Ok []
      else
        type ← readUInt16BE buf pos;
        rdlen ← readUInt16BE buf (pos + 8);
        let rd := pos + 10 in
        if blen buf <? rd + rdlen then Ok []
        else
          here ← (if (type =? TYPE_A) && (rdlen =? 4) then
                    Ok [Record_ nm.1 RecA (dotted (subarray buf rd (rd + 4)))]
                  else if type =? TYPE_PTR then
                    t ← readName buf rd; Ok [Record_ nm.1 RecPTR t.1]
                  else Ok []);
          rest ← decode_records n buf (rd + rdlen);
          Ok (here ++ rest)
  end.

Definition decodeResponse (buf : list Z) : res (option (Z * list record)) :=
  try_null (
    if blen buf <? 12 then Ok None
    else
      id ← readUInt16BE buf 0;
      flags ← readUInt16BE buf 2;
      if Z.land flags 32768 =? 0 then Ok None
      else
        qd ← readUInt16BE buf 4;
        an ← readUInt16BE buf 6;
        ns ← readUInt16BE buf 8;
        ar ← readUInt16BE buf 10;
        pos ← skip_questions (Z.to_nat qd) buf 12;
        records ← decode_records (Nat.min (Z.to_nat (an + ns + ar)) MAX_RECORDS) buf pos;
        Ok (Some (id, records))).

(** NetBIOS first-level encoding of the padded name "*". *)
Definition encodeNbstatQuery (id : Z) : res (list Z) :=
  let raw := 42 :: replicate 15 0 in
  let enc := 32 :: (raw ≫= λ b, [65 + Z.shiftr b 4; 65 + Z.land b 15]) ++ [0] in
  q ← writeUInt16BE (alloc 4) TYPE_NBSTAT 0;
  q ← writeUInt16BE q 1 2;
  h ← header id 1;
  Ok (h ++ enc ++ q).

Fixpoint drop_pad (l : list Z) : list Z :=
  match l with
  | c :: r => if (c =? 32) || (c =? 0) then drop_pad r else l
  | [] => []
  end.

(** The name table of the node status, [count] entries of 18 bytes. *)
Fixpoint nbstat_names (count : nat) (buf : list Z) (p : Z) : res (option jstr) :=
  match count with
  | O => Ok None
  | S count =>
      if blen buf <? p + 18 then Ok None
      else
        suffix ← of_option out_of_range (byte_at buf (p + 15));
        fl ← readUInt16BE buf (p + 16);
        let group := negb (Z.land fl 32768 =? 0) in
        let name := reverse (drop_pad (reverse (subarray buf p (p + 15)))) in
        if (suffix =? 0) && negb group && nonempty name then Ok (Some name)
        else nbstat_names count buf (p + 18)
  end.

Definition decodeNbstatName (buf : list Z) : res (option jstr) :=
  try_null (
    if blen buf <? 12 then Ok None
    else
      flags ← readUInt16BE buf 2;
      an ← readUInt16BE buf 6;
      if (Z.land flags 32768 =? 0) || (an <? 1) then Ok None
      else
        qd ← readUInt16BE buf 4;
        pos ← skip_questions (Z.to_nat qd) buf 12;
        n ← readName buf pos;
        let pos := n.2 in
        if blen buf <? pos + 10 then Ok None
        else
          type ← readUInt16BE buf pos;
          if negb (type =? TYPE_NBSTAT) then Ok None
          else
            let p := pos + 10 in
            let count := default 0 (byte_at buf p) in
            nbstat_names (Nat.min (Z.to_nat count) 64) buf (p + 1)).

(** ** The reader terminates and stays inside the buffer *)

Lemma readName_loop_fueled fuel buf labels pos next jumps :
  Z.of_nat (length labels) ≤ 128 → 0 ≤ jumps ≤ 16 →
  (128 - Z.of_nat (length labels)) + (16 - jumps) < Z.of_nat fuel →
  fueled (readName_loop fuel buf labels pos next jumps).
Proof.
  revert labels pos next jumps.
  induction fuel as [|fuel IH]; intros labels pos next jumps Hl Hj Hf; [lia |]. cbn [readName_loop].
  destruct (byte_at buf pos) as [len|]; [|done].
  destruct (len =? 0); [done |].
  destruct (_ =? 192).
  { destruct (byte_at buf (pos + 1)); [|done].
    unfold MAX_JUMPS. destruct (Z.ltb_spec 16 (jumps + 1)); [done |]. apply IH; lia. }
  destruct (negb _); [done |]. destruct (_ <? _); [done |].
  rewrite length_app. simpl. destruct (Z.ltb_spec 128 (Z.of_nat (length labels + 1))); [done |].
  apply IH; rewrite ?length_app; simpl; lia.
Qed.

Lemma readName_fueled buf off : fueled (readName buf off).
Proof. apply readName_loop_fueled; [simpl; lia | lia | done]. Qed.
#[export] Hint Resolve readName_fueled : fuel.

Lemma readName_loop_next fuel buf labels pos next jumps r :
  is_bytes buf → readName_loop fuel buf labels pos next jumps = Ok r →
  next = -1 ∨ 0 ≤ next ≤ blen buf →
  0 ≤ r.2 ≤ blen buf ∧ (next = -1 → 0 ≤ pos < r.2) ∧ (next ≠ -1 → r.2 = next).
Proof.
  intros Hbuf. revert labels pos next jumps.
  induction fuel as [|fuel IH]; intros labels pos next jumps Hr Hn; [done |].
  cbn [readName_loop] in Hr.
  destruct (byte_at buf pos) as [len|] eqn:Hlen; [|done].
  pose proof (byte_at_Some _ _ _ Hlen). pose proof (byte_at_byte _ _ _ Hbuf Hlen) as [].
  destruct (len =? 0).
  { injection Hr as <-. simpl. destruct (Z.eqb_spec next (-1)); lia. }
  destruct (_ =? 192).
  { destruct (byte_at buf (pos + 1)) as [low|] eqn:Hlow; [|done].
    pose proof (byte_at_Some _ _ _ Hlow).
    destruct (_ <? _); [done |].
    destruct (Z.eqb_spec next (-1)) as [->|];
      (apply IH in Hr as (? & _ & ?); [split_and!; lia | lia]). }
  destruct (negb _); [done |]. destruct (Z.ltb_spec (blen buf) (pos + 1 + len)); [done |].
  destruct (_ <? _); [done |].
  apply IH in Hr as (? & ? & ?); [split_and!; lia | lia].
Qed.

(** What [readName] promises to the parsers: it terminates, it consumes at
    least one byte and never reads past the buffer. *)
Lemma readName_bounds buf off r :
  is_bytes buf → readName buf off = Ok r → 0 ≤ off < r.2 ∧ r.2 ≤ blen buf.
Proof.
  unfold readName. generalize readName_fuel. intros fuel Hb Hr.
  destruct (readName_loop_next _ _ _ _ _ _ _ Hb Hr (or_introl eq_refl)) as (? & ? & _). lia.
Qed.

Lemma skip_questions_fueled n buf pos : fueled (skip_questions n buf pos).
Proof. revert pos. induction n; simpl; eauto with fuel. Qed.
#[export] Hint Resolve skip_questions_fueled : fuel.

Lemma decode_records_fueled n buf pos : fueled (decode_records n buf pos).
Proof. revert pos. induction n; intros pos; simpl; fuel_auto. Qed.
Lemma nbstat_names_fueled n buf p : fueled (nbstat_names n buf p).
Proof. revert p. induction n; intros p; simpl; fuel_auto. Qed.
#[export] Hint Resolve decode_records_fueled nbstat_names_fueled : fuel.

Lemma decodeResponse_fueled buf : fueled (decodeResponse buf).
Proof. unfold decodeResponse. fuel_auto. Qed.

Lemma decodeNbstatName_fueled buf : fueled (decodeNbstatName buf).
Proof. unfold decodeNbstatName. fuel_auto. Qed.

(** ** Encoded names read back *)

Lemma land_192_small len : 0 ≤ len < 64 → Z.land len 192 = 0.
Proof.
  intros. cut ((64 <=? len) || (Z.land len 192 =? 0) = true); [lia |].
  by apply (byte_ind_bool (λ b, (64 <=? b) || (Z.land b 192 =? 0))); [vm_compute | lia].
Qed.

(** A label that [encodeName] accepts and [readName] returns unchanged. *)
Definition plain_label (p : jstr) : Prop :=
  is_ascii p ∧ p ≠ [] ∧ blen p ≤ 63.

(** Wire form of a list of labels. *)
Definition wire_labels (l : list jstr) : list Z := (l ≫= λ p, blen p :: p) ++ [0].
Arguments wire_labels : simpl never.

Lemma encode_labels_plain enc l :
  (∀ p, is_ascii p → enc p = p) → Forall plain_label l →
  encode_labels enc l = Ok (wire_labels l).
Proof.
  intros Henc. unfold wire_labels.
  induction 1 as [|p l (Ha & _ & Hp) Hl IH]; [done |]. cbn [encode_labels]. rewrite Henc by done.
  destruct (Z.ltb_spec 63 (blen p)); [lia |]. rewrite IH. simpl. by rewrite <- app_assoc.
Qed.

Lemma readName_loop_plain fuel pre l post labels next jumps :
  Forall plain_label l → Z.of_nat (length labels + length l) ≤ 128 →
  (length l < fuel)%nat →
  readName_loop fuel (pre ++ wire_labels l ++ post) labels (blen pre) next jumps
  = Ok (join dot (labels ++ l),
        if next =? -1 then blen pre + blen (wire_labels l) else next).
Proof.
  intros Hl. revert fuel pre labels.
  induction Hl as [|p l (Ha & Hne & Hp) Hl IH]; intros fuel pre labels Hlen Hf;
    (destruct fuel as [|fuel]; [simpl in *; lia |]); cbn [readName_loop].
  - replace (byte_at _ (blen pre)) with (Some 0).
    + rewrite app_nil_r. simpl. done.
    + rewrite <- (Z.add_0_r (blen pre)), byte_at_app_r by lia. done.
  - assert (wire_labels (p :: l) = (blen p :: p) ++ wire_labels l) as Hw.
    { unfold wire_labels. csimpl. by rewrite <- app_assoc. }
    pose proof (blen_nonneg p). assert (blen p ≠ 0).
    { destruct p; [done |]. rewrite blen_cons. pose proof (blen_nonneg p). lia. }
    replace (byte_at _ (blen pre)) with (Some (blen p)).
    2:{ rewrite <- (Z.add_0_r (blen pre)), byte_at_app_r, Hw by lia. done. }
    destruct (Z.eqb_spec (blen p) 0); [lia |]. rewrite land_192_small by lia. cbn [Z.eqb negb].
    rewrite Hw, <- app_assoc.
    replace (pre ++ (blen p :: p) ++ wire_labels l ++ post)
      with ((pre ++ [blen p]) ++ p ++ wire_labels l ++ post) by (by rewrite <- !app_assoc).
    rewrite (subarray_middle (pre ++ [blen p])), utf8_decode_ascii by (done || blen_lia).
    destruct (Z.ltb_spec (blen ((pre ++ [blen p]) ++ p ++ wire_labels l ++ post))
                (blen pre + 1 + blen p)); [blen_lia |].
    rewrite length_app. simpl in *. destruct (Z.ltb_spec 128 (Z.of_nat (length labels + 1))); [lia |].
    rewrite (app_assoc _ p). replace (blen pre + 1 + blen p)
      with (blen ((pre ++ [blen p]) ++ p)) by blen_lia.
    rewrite IH by (rewrite ?length_app; simpl; lia). rewrite <- app_assoc. do 3 f_equal.
    destruct (next =? -1); [blen_lia | done].
Qed.

(** [readName] undoes [encodeName] at any offset of a message. *)
Lemma readName_wire_labels pre l post :
  Forall plain_label l → Z.of_nat (length l) ≤ 128 →
  readName (pre ++ wire_labels l ++ post) (blen pre)
  = Ok (join dot l, blen pre + blen (wire_labels l)).
Proof.
  unfold readName. intros Hl Hn.
  assert (length l < readName_fuel)%nat as Hf by (unfold readName_fuel; lia).
  revert Hf. generalize readName_fuel. intros fuel Hf.
  rewrite readName_loop_plain by (simpl; done || lia). done.
Qed.
