(* ===== verification/DnsWire.v ===== *)
(** * src/dns/wire.js

    DNS messages of the filter: reading client queries and upstream responses
    (bounded, [null] instead of exceptions), building queries and responses,
    and adapting a cached response to a client. *)

From S2P Require Import Prelude JsBuffer NetwatchDnsWire.

Local Open Scope Z_scope.

Module TYPE.
Definition A : Z := 1.
Definition NS : Z := 2.
Definition CNAME : Z := 5.
Definition SOA : Z := 6.
Definition PTR : Z := 12.
Definition MX : Z := 15.
Definition TXT : Z := 16.
Definition AAAA : Z := 28.
Definition OPT : Z := 41.
Definition HTTPS : Z := 65.
Definition ANY : Z := 255.
End TYPE.

Module RCODE.
Definition NOERROR : Z := 0.
Definition FORMERR : Z := 1.
Definition SERVFAIL : Z := 2.
Definition NXDOMAIN : Z := 3.
Definition NOTIMP : Z := 4.
Definition REFUSED : Z := 5.
End RCODE.

Definition CLASS_IN : Z := 1.
Definition EDNS_UDP : Z := 1232.
Definition EDE_BLOCKED : Z := 15.
Definition MAX_RR : Z := 512.

Definition typeName (t : Z) : jstr :=
  if t =? TYPE.A then js "A" else if t =? TYPE.NS then js "NS"
  else if t =? TYPE.CNAME then js "CNAME" else if t =? TYPE.SOA then js "SOA"
  else if t =? TYPE.PTR then js "PTR" else if t =? TYPE.MX then js "MX"
  else if t =? TYPE.TXT then js "TXT" else if t =? TYPE.AAAA then js "AAAA"
  else if t =? TYPE.OPT then js "OPT" else if t =? TYPE.HTTPS then js "HTTPS"
  else if t =? TYPE.ANY then js "ANY" else js "TYPE" ++ show_Z t.

(** Labels of an uncompressed name, as [(labels, end)]; [total] counts the
    bytes so far. *)
Fixpoint readQuestionName_loop (fuel : nat) (buf : list Z) (labels : list (list Z))
    (pos total : Z) : res (option (list (list Z) * Z)) :=
  match fuel with
  | O => NoFuel
  | S fuel =>
      match byte_at buf pos with
      | None => Ok None
      | Some len =>
          if len =? 0 then Ok (Some (labels, pos + 1))
          else if 63 <? len then Ok None
          else if blen buf <? pos + 1 + len then Ok None
          else
            let labels := labels ++ [subarray buf (pos + 1) (pos + 1 + len)] in
            let total := total + (len + 1) in
            if 255 <? total then Ok None
            else readQuestionName_loop fuel buf labels (pos + (1 + len)) total
      end
  end.

(** Every label but the last adds at least two bytes to [total <= 255]. *)
Definition readQuestionName_fuel : nat := 129.
Definition readQuestionName (buf : list Z) (off : Z) : res (option (list (list Z) * Z)) :=
  readQuestionName_loop readQuestionName_fuel buf [] off 0.
#[global] Strategy 1000 [readQuestionName readQuestionName_loop readQuestionName_fuel].

(** Label to lower-case text; [None] for characters foreign to host names. *)
Fixpoint labelText (b : list Z) : option jstr :=
  match b with
  | [] => Some []
  | c :: r =>
      if (c <=? 32) || (127 <=? c) || (c =? 46) then None
      else s ← labelText r; Some ((if (65 <=? c) && (c <=? 90) then c + 32 else c) :: s)
  end.

(** The position after the record at [pos], or [-1]. *)
Definition skipRR (buf : list Z) (pos : Z) : res Z :=
  n ← readName buf pos;
  let p := n.2 in
  if blen buf <? p + 10 then Ok (-1)
  else
    rdlen ← readUInt16BE buf (p + 8);
    if blen buf <? p + 10 + rdlen then Ok (-1) else Ok (p + 10 + rdlen).

Record edns_info := Edns { e_udpSize : Z; e_do : bool; e_version : Z }.

(** The object returned by [parseQuery]; the fields that its early returns do
    not set are [None]. *)
Record query := Query {
  q_id : Z; q_opcode : Z; q_rd : bool; q_cd : bool; q_qdcount : Z;
  q_name : option jstr; q_nameOk : option bool;
  q_qtype : option Z; q_qclass : option Z;
  q_question : option (list Z); q_edns : option edns_info
}.

(** [for (i = 0; i < n && pos !== -1; i++) pos = skipRR(buf, pos)] *)
Fixpoint skip_rrs (n : nat) (buf : list Z) (pos : Z) : res Z :=
  match n with
  | O => Ok pos
  | S n => if pos =? -1 then Ok pos else p ← skipRR buf pos; skip_rrs n buf p
  end.

(** The loop over the additional records that looks for OPT. *)
Fixpoint find_edns (n : nat) (buf : list Z) (pos : Z) (edns : option edns_info)
    : res (option edns_info) :=
  match n with
  | O => Ok edns
  | S n =>
      if pos =? -1 then Ok edns
      else
        nm ← readName buf pos;
        let p := nm.2 in
        if blen buf <? p + 10 then Ok edns
        else
          type ← readUInt16BE buf p;
          edns ← (if type =? TYPE.OPT then
                    ttl ← readUInt32BE buf (p + 4);
                    size ← readUInt16BE buf (p + 2);
                    Ok (Some (Edns (Z.max 512 size) (negb (Z.land ttl 32768 =? 0))
                                (Z.land (ushr ttl 16) 255)))
                  else Ok edns);
          pos ← skipRR buf pos;
          find_edns n buf pos edns
  end.

Definition parseQuery (buf : list Z) : res (option query) :=
  try_null (
    if (blen buf <? 12) || (65535 <? blen buf) then Ok None
    else
      id ← readUInt16BE buf 0;
      flags ← readUInt16BE buf 2;
      if negb (Z.land flags 32768 =? 0) then Ok None
      else
        let opcode := Z.land (Z.shiftr flags 11) 15 in
        qdcount ← readUInt16BE buf 4;
        let rd := negb (Z.land flags 256 =? 0) in
        let cd := negb (Z.land flags 16 =? 0) in
        let bad := Query id opcode rd cd qdcount None None None None None None in
        if negb (qdcount =? 1) then Ok (Some bad)
        else
          q ← readQuestionName buf 12;
          match q with
          | None => Ok (Some bad)
          | Some (labels, qe) =>
              if blen buf <? qe + 4 then Ok (Some bad)
              else
                qtype ← readUInt16BE buf qe;
                qclass ← readUInt16BE buf (qe + 2);
                let qEnd := qe + 4 in
                let texts := mapM labelText labels in
                let name := join dot <$> texts in
                an ← readUInt16BE buf 6;
                ns ← readUInt16BE buf 8;
                ar ← readUInt16BE buf 10;
                if MAX_RR <? an + ns + ar then Ok (Some bad)
                else
                  pos ← skip_rrs (Z.to_nat (an + ns)) buf qEnd;
                  edns ← find_edns (Z.to_nat ar) buf pos None;
                  Ok (Some (Query id opcode rd cd qdcount name (Some (bool_decide (is_Some texts)))
                        (Some qtype) (Some qclass) (Some (subarray buf 12 qEnd)) edns))
          end).

Definition encodeName (name : jstr) : res (list Z) :=
  encode_labels ascii_encode (name_parts name).

Definition questionFor (name : jstr) (qtype qclass : Z) : res (list Z) :=
  t ← writeUInt16BE (alloc 4) qtype 0;
  t ← writeUInt16BE t qclass 2;
  n ← encodeName name;
  Ok (n ++ t).

Definition optRecord (udpSize : Z) (doBit : bool) (ede : option Z) : res (list Z) :=
  rdata ← match ede with
          | None => Ok []
          | Some e =>
              o ← writeUInt16BE (alloc 6) 15 0;
              o ← writeUInt16BE o 2 2;
              writeUInt16BE o e 4
          end;
  h ← writeUInt16BE (alloc 11) TYPE.OPT 1;
  h ← writeUInt16BE h udpSize 3;
  h ← writeUInt32BE h (if doBit then 32768 else 0) 5;
  h ← writeUInt16BE h (blen rdata) 9;
  Ok (h ++ rdata).

(** [edns] carries only the DO bit. *)
Definition buildQuery (id : Z) (name : jstr) (qtype qclass : Z) (edns : option bool) (cd : bool)
    : res (list Z) :=
  h ← writeUInt16BE (alloc 12) (Z.land id 65535) 0;
  h ← writeUInt16BE h (Z.lor 256 (if cd then 16 else 0)) 2;
  h ← writeUInt16BE h 1 4;
  h ← writeUInt16BE h (match edns with Some _ => 1 | None => 0 end) 10;
  q ← questionFor name qtype qclass;
  match edns with
  | None => Ok (h ++ q)
  | Some d => o ← optRecord EDNS_UDP d None; Ok (h ++ q ++ o)
  end.

(** An answer record: [target] is set by [parseResponse] for CNAMEs only. *)
Record answer := Answer {
  a_name : jstr; a_type : Z; a_ttl : Z; a_rdata : list Z; a_target : option jstr
}.

Fixpoint build_answers (qname : option jstr) (l : list answer) : res (list Z) :=
  match l with
  | [] => Ok []
  | a :: l =>
      n ← (if bool_decide (Some (a_name a) = qname) then Ok [192; 12] else encodeName (a_name a));
      f ← writeUInt16BE (alloc 10) (a_type a) 0;
      f ← writeUInt16BE f CLASS_IN 2;
      f ← writeUInt32BE f (Z.max 0 (int32 (a_ttl a))) 4;
      f ← writeUInt16BE f (blen (a_rdata a)) 8;
      rest ← build_answers qname l;
      Ok (n ++ f ++ a_rdata a ++ rest)
  end.

Definition response_flags (opcode : Z) (tc rd cd : bool) (rcode : Z) : Z :=
  Z.lor 32768 (Z.lor (Z.shiftl (Z.land opcode 15) 11)
    (Z.lor (if tc then 512 else 0) (Z.lor (if rd then 256 else 0)
      (Z.lor 128 (Z.lor (if cd then 16 else 0) (Z.land rcode 15)))))).

Definition buildResponse (q : query) (rcode : Z) (answers : list answer) (tc : bool)
    (ede : option Z) : res (list Z) :=
  h ← writeUInt16BE (alloc 12) (Z.land (q_id q) 65535) 0;
  h ← writeUInt16BE h (response_flags (q_opcode q) tc (q_rd q) (q_cd q) rcode) 2;
  let hasQ := bool_decide (is_Some (q_question q)) in
  h ← writeUInt16BE h (if hasQ then 1 else 0) 4;
  h ← writeUInt16BE h (if hasQ then Z.of_nat (length answers) else 0) 6;
  h ← writeUInt16BE h (match q_edns q with Some _ => 1 | None => 0 end) 10;
  body ← match q_question q with
         | None => Ok []
         | Some qu => a ← build_answers (q_name q) answers; Ok (qu ++ a)
         end;
  opt ← match q_edns q with
        | None => Ok []
        | Some e => optRecord EDNS_UDP (e_do e) ede
        end;
  Ok (h ++ body ++ opt).

Record response := Response {
  rs_id : Z; rs_rcode : Z; rs_tc : bool; rs_qname : option jstr;
  rs_ttlOffsets : list Z; rs_minTtl : option Z; rs_negTtl : option Z;
  rs_answers : list answer; rs_an : Z
}.

(** What the record loop of [parseResponse] collects. *)
Record rr_state := RRState {
  st_ttlOffsets : list Z; st_minTtl : option Z; st_negTtl : option Z; st_answers : list answer
}.

Section Responses.
Context `{Unicode}.

(** The body of the record loop at record [i], as [(state, next pos)];
    [None] is [return null]. *)
Definition parse_rr (buf : list Z) (an ns i pos : Z) (st : rr_state)
    : res (option (rr_state * Z)) :=
  n ← readName buf pos;
  let p := n.2 in
  if blen buf <? p + 10 then Ok None
  else
    type ← readUInt16BE buf p;
    ttl ← readUInt32BE buf (p + 4);
    rdlen ← readUInt16BE buf (p + 8);
    let rd := p + 10 in
    if blen buf <? rd + rdlen then Ok None
    else
      st ← (if type =? TYPE.OPT then Ok st
            else
              let minTtl :=
                if i <? an + ns
                then Some (match st_minTtl st with None => ttl | Some m => Z.min m ttl end)
                else st_minTtl st in
              negTtl ←
                (if (an <=? i) && (i <? an + ns) && (type =? TYPE.SOA) then
                   m ← readName buf rd;
                   r ← readName buf m.2;
                   if r.2 + 20 <=? rd + rdlen
                   then v ← readUInt32BE buf (r.2 + 16); Ok (Some (Z.min ttl v))
                   else Ok (st_negTtl st)
                 else Ok (st_negTtl st));
              Ok (RRState (st_ttlOffsets st ++ [p + 4]) minTtl negTtl (st_answers st)));
      st ← (if i <? an then
              target ← (if type =? TYPE.CNAME
                        then t ← readName buf rd; Ok (Some (toLowerCase t.1))
                        else Ok None);
              Ok (RRState (st_ttlOffsets st) (st_minTtl st) (st_negTtl st)
                    (st_answers st ++ [Answer (toLowerCase n.1) type ttl
                                         (subarray buf rd (rd + rdlen)) target]))
            else Ok st);
      Ok (Some (st, rd + rdlen)).

(** [n] records are left, the next one has index [i]. *)
Fixpoint parse_rrs (n : nat) (buf : list Z) (an ns i pos : Z) (st : rr_state)
    : res (option rr_state) :=
  match n with
  | O => Ok (Some st)
  | S n =>
      r ← parse_rr buf an ns i pos st;
      match r with
      | None => Ok None
      | Some (st, pos) => parse_rrs n buf an ns (i + 1) pos st
      end
  end.

Definition parseResponse (buf : list Z) : res (option response) :=
  try_null (
    if blen buf <? 12 then Ok None
    else
      flags ← readUInt16BE buf 2;
      if Z.land flags 32768 =? 0 then Ok None
      else
        qd ← readUInt16BE buf 4;
        an ← readUInt16BE buf 6;
        ns ← readUInt16BE buf 8;
        ar ← readUInt16BE buf 10;
        if (MAX_RR <? an + ns + ar) || (1 <? qd) then Ok None
        else
          q ← (if qd =? 1 then
                 n ← readName buf 12; Ok (Some (toLowerCase n.1), n.2 + 4)
               else Ok (None, 12));
          if (qd =? 1) && (blen buf <? q.2) then Ok None
          else
            st ← parse_rrs (Z.to_nat (an + ns + ar)) buf an ns 0 q.2 (RRState [] None None []);
            match st with
            | None => Ok None
            | Some st =>
                id ← readUInt16BE buf 0;
                Ok (Some (Response id (Z.land flags 15) (negb (Z.land flags 512 =? 0)) q.1
                      (st_ttlOffsets st) (st_minTtl st) (st_negTtl st) (st_answers st) an))
            end).
End Responses.

(** [question.copy(out, 12)]: as much as fits. *)
Definition copy_into (out src : list Z) (off : Z) : list Z :=
  take (Z.to_nat off) out ++ take (length out - Z.to_nat off) src
  ++ drop (Z.to_nat off + length src) out.

Fixpoint age_ttls (out : list Z) (offs : list Z) (ageSec : Z) : res (list Z) :=
  match offs with
  | [] => Ok out
  | off :: offs =>
      t ← readUInt32BE out off;
      out ← writeUInt32BE out (if ageSec <? t then t - ageSec else 0) off;
      age_ttls out offs ageSec
  end.

Definition adaptResponse (buf : list Z) (id : Z) (question : option (list Z))
    (ttlOffsets : list Z) (ageSec : Z) : res (list Z) :=
  out ← writeUInt16BE buf (Z.land id 65535) 0;
  out ← match question with
        | None => Ok out
        | Some qu =>
            qd ← readUInt16BE buf 4;
            if (qd =? 1) && (12 + blen qu <=? blen out) then
              n ← readQuestionName out 12;
              match n with
              | Some (_, e) => Ok (if e + 4 - 12 =? blen qu then copy_into out qu 12 else out)
              | None => Ok out
              end
            else Ok out
        end;
  if 0 <? ageSec then age_ttls out ttlOffsets ageSec else Ok out.

(** ** Termination *)

Lemma readQuestionName_loop_fueled fuel buf labels pos total :
  is_bytes buf → 0 ≤ total ≤ 255 → 255 - total < 2 * Z.of_nat fuel →
  fueled (readQuestionName_loop fuel buf labels pos total).
Proof.
  intros Hb. revert labels pos total.
  induction fuel as [|fuel IH]; intros labels pos total Ht Hf; [lia |].
  cbn [readQuestionName_loop]. destruct (byte_at buf pos) as [len|] eqn:Hl; [|done].
  pose proof (byte_at_byte _ _ _ Hb Hl) as [].
  destruct (Z.eqb_spec len 0); [done |]. destruct (_ <? _); [done |]. destruct (_ <? _); [done |].
  destruct (Z.ltb_spec 255 (total + (len + 1))); [done |]. apply IH; lia.
Qed.

Lemma readQuestionName_fueled buf off : is_bytes buf → fueled (readQuestionName buf off).
Proof. intros. by apply readQuestionName_loop_fueled. Qed.

Lemma skipRR_fueled buf pos : fueled (skipRR buf pos).
Proof. unfold skipRR. fuel_auto. Qed.
#[export] Hint Resolve readQuestionName_fueled skipRR_fueled : fuel.

Lemma skip_rrs_fueled n buf pos : fueled (skip_rrs n buf pos).
Proof. revert pos. induction n; intros pos; simpl; fuel_auto. Qed.
Lemma find_edns_fueled n buf pos e : fueled (find_edns n buf pos e).
Proof. revert pos e. induction n; intros pos e; simpl; fuel_auto. Qed.
#[export] Hint Resolve skip_rrs_fueled find_edns_fueled : fuel.

Lemma parseQuery_fueled buf : is_bytes buf → fueled (parseQuery buf).
Proof. intros. unfold parseQuery. fuel_auto. Qed.

Lemma parse_rr_fueled `{Unicode} buf an ns i pos st : fueled (parse_rr buf an ns i pos st).
Proof. unfold parse_rr. fuel_auto. Qed.
#[export] Hint Resolve parse_rr_fueled : fuel.
Lemma parse_rrs_fueled `{Unicode} n buf an ns i pos st :
  fueled (parse_rrs n buf an ns i pos st).
Proof. revert i pos st. induction n; intros i pos st; simpl; fuel_auto. Qed.
#[export] Hint Resolve parse_rrs_fueled : fuel.
Lemma parseResponse_fueled `{Unicode} buf : fueled (parseResponse buf).
Proof. unfold parseResponse. fuel_auto. Qed.
