(* ===== verification/DnsWireFacts.v ===== *)
(** * The DNS codec of src/dns/wire.js: round trips and cached responses *)

From S2P Require Import Prelude JsBuffer NetwatchDnsWire DnsWire.

Local Open Scope Z_scope.

Abbreviation wire_name n := (wire_labels (split_on dot n)).

(** ** Host names *)

(** A unit the filter accepts unchanged in a label: printable ASCII, lower
    case, no dot. *)
Definition host_unit (c : Z) : Prop := 32 < c < 127 ∧ c ≠ 46 ∧ ¬ 65 ≤ c ≤ 90.

Definition host_label (p : jstr) : Prop := Forall host_unit p ∧ p ≠ [] ∧ blen p ≤ 63.

(** A name of host labels whose wire form fits the 255 bytes of RFC 1035. *)
Definition host_name (name : jstr) : Prop :=
  Forall host_label (split_on dot name) ∧ blen (wire_name name) ≤ 256.

#[export] Instance host_unit_dec c : Decision (host_unit c).
Proof. unfold host_unit. apply _. Defined.
#[export] Instance host_label_dec p : Decision (host_label p).
Proof. unfold host_label. apply _. Defined.
#[export] Instance host_name_dec n : Decision (host_name n).
Proof. unfold host_name. apply _. Defined.

Lemma host_label_plain p : host_label p → plain_label p.
Proof.
  intros (Hp & ? & ?). split_and!; [|done|done].
  eapply Forall_impl; [exact Hp|]. intros c (? & _). lia.
Qed.

Lemma host_labels_plain l : Forall host_label l → Forall plain_label l.
Proof. intros. eapply Forall_impl; [done | apply host_label_plain]. Qed.

Lemma host_labels_wire_bound l :
  Forall host_label l → 2 * Z.of_nat (length l) + 1 ≤ blen (wire_labels l).
Proof.
  unfold wire_labels. induction 1 as [|p l (_ & Hne & _) Hl IH]; csimpl; [done |].
  destruct p as [|c p]; [done |]. autorewrite with jsbytes in *.
  pose proof (blen_nonneg p). lia.
Qed.

Lemma host_name_parts name : host_name name → name_parts name = split_on dot name.
Proof.
  intros [Hl _]. unfold name_parts. induction Hl as [|p l (_ & Hne & _) Hl IH]; [done |].
  rewrite filter_cons, IH, decide_True; [done |]. by destruct p.
Qed.

Lemma encodeName_host name :
  host_name name → encodeName name = Ok (wire_name name).
Proof.
  intros Hn. unfold encodeName. rewrite host_name_parts by done.
  apply encode_labels_plain; [apply ascii_encode_ascii |]. by apply host_labels_plain, Hn.
Qed.

Lemma host_name_ascii name : host_name name → is_ascii name.
Proof.
  intros [Hl _]. rewrite <- (join_split_on dot name).
  induction Hl as [|p l (Hp & _) Hl IH]; [constructor |].
  assert (is_ascii p) by (eapply Forall_impl; [exact Hp|]; intros c (? & _); lia).
  destruct l as [|j l]; [done |]. change (is_ascii (p ++ dot :: join dot (j :: l))).
  apply Forall_app; split; [done |]. constructor; [unfold dot; lia | done].
Qed.

Lemma host_name_lower name : host_name name → lower_unit <$> name = name.
Proof.
  intros [Hl _]. rewrite <- (join_split_on dot name).
  assert (∀ p, Forall host_unit p → lower_unit <$> p = p) as Hlow.
  { induction 1 as [|c p (_ & _ & Hc) Hp IH]; csimpl; [done |]. rewrite IH. f_equal.
    unfold lower_unit. destruct (Z.leb_spec 65 c), (Z.leb_spec c 90); simpl; lia. }
  induction Hl as [|p l (Hp & _) Hl IH]; [done |].
  destruct l as [|j l]; [by apply Hlow |].
  change (lower_unit <$> p ++ dot :: join dot (j :: l) = p ++ dot :: join dot (j :: l)).
  rewrite fmap_app, fmap_cons, IH, Hlow by done. done.
Qed.

Lemma toLowerCase_host `{Unicode} name : host_name name → toLowerCase name = name.
Proof.
  intros. rewrite toLowerCase_ascii by by apply host_name_ascii. by apply host_name_lower.
Qed.

Lemma labelText_host p : Forall host_unit p → labelText p = Some p.
Proof.
  induction 1 as [|c p (? & ? & ?) Hp IH]; [done |]. cbn [labelText].
  destruct (Z.leb_spec c 32), (Z.leb_spec 127 c), (Z.eqb_spec c 46); try lia. simpl.
  rewrite IH. simpl.
  destruct (Z.leb_spec 65 c), (Z.leb_spec c 90); simpl; try done. lia.
Qed.

Lemma labelTexts_host l : Forall host_label l → mapM labelText l = Some l.
Proof.
  intros Hl. apply mapM_Some. apply Forall2_same_length_lookup_2; [done |].
  intros i x y Hx Hy. simplify_eq. apply labelText_host.
  by apply (Forall_lookup_1 _ _ _ _ Hl Hx).
Qed.

(** ** Reading names back *)

Lemma readName_host pre name post :
  host_name name →
  readName (pre ++ wire_name name ++ post) (blen pre)
  = Ok (name, blen pre + blen (wire_name name)).
Proof.
  intros [Hl Hb]. rewrite readName_wire_labels.
  - by rewrite join_split_on.
  - by apply host_labels_plain.
  - apply host_labels_wire_bound in Hl. lia.
Qed.

Lemma readName_at pre name post o :
  host_name name → o = blen pre →
  readName (pre ++ wire_name name ++ post) o = Ok (name, o + blen (wire_name name)).
Proof. intros ? ->. by apply readName_host. Qed.

Lemma readName_root pre post : readName (pre ++ 0 :: post) (blen pre) = Ok ([], blen pre + 1).
Proof.
  change (0 :: post) with (wire_labels [] ++ post).
  rewrite readName_wire_labels by (simpl; lia || constructor). done.
Qed.

(** A pointer to an earlier name. *)
Lemma readName_pointer buf pos name next :
  byte_at buf pos = Some 192 → byte_at buf (pos + 1) = Some 12 →
  (∀ fuel, (129 ≤ fuel)%nat → ∀ n, 0 ≤ n →
     readName_loop fuel buf [] 12 n 1 = Ok (name, n)) → next = pos + 2 → 0 ≤ pos →
  readName buf pos = Ok (name, next).
Proof.
  intros H1 H2 Hr -> Hp. unfold readName.
  assert (∃ f, readName_fuel = S f ∧ (129 ≤ f)%nat) as (f & -> & Hf).
  { exists 144%nat. split; [done | lia]. }
  cbn [readName_loop]. rewrite H1, H2. cbn -[readName_loop byte_at Z.add].
  apply Hr; lia.
Qed.

Lemma readQuestionName_loop_host fuel pre l post labels total :
  Forall host_label l → 0 ≤ total → total + blen (wire_labels l) ≤ 256 →
  (length l < fuel)%nat →
  readQuestionName_loop fuel (pre ++ wire_labels l ++ post) labels (blen pre) total
  = Ok (Some (labels ++ l, blen pre + blen (wire_labels l))).
Proof.
  intros Hl. revert fuel pre labels total.
  induction Hl as [|p l (Hu & Hne & Hp) Hl IH]; intros fuel pre labels total Ht Hb Hf;
    (destruct fuel as [|fuel]; [simpl in *; lia |]); cbn [readQuestionName_loop].
  - replace (byte_at _ (blen pre)) with (Some 0).
    + by rewrite app_nil_r.
    + by rewrite <- (Z.add_0_r (blen pre)), byte_at_app_r by lia.
  - assert (wire_labels (p :: l) = (blen p :: p) ++ wire_labels l) as Hw.
    { unfold wire_labels. csimpl. by rewrite <- app_assoc. }
    rewrite Hw in *. pose proof (blen_nonneg p). assert (blen p ≠ 0).
    { destruct p; [done |]. rewrite blen_cons. pose proof (blen_nonneg p). lia. }
    replace (byte_at _ (blen pre)) with (Some (blen p)).
    2:{ by rewrite <- (Z.add_0_r (blen pre)), byte_at_app_r by lia. }
    destruct (Z.eqb_spec (blen p) 0); [lia |]. destruct (Z.ltb_spec 63 (blen p)); [lia |].
    rewrite <- app_assoc.
    replace (pre ++ (blen p :: p) ++ wire_labels l ++ post)
      with ((pre ++ [blen p]) ++ p ++ wire_labels l ++ post) by (by rewrite <- !app_assoc).
    rewrite (subarray_middle (pre ++ [blen p])) by blen_lia.
    destruct (Z.ltb_spec (blen ((pre ++ [blen p]) ++ p ++ wire_labels l ++ post))
                (blen pre + 1 + blen p)); [blen_lia |].
    assert (1 ≤ blen (wire_labels l)).
    { apply host_labels_wire_bound in Hl. lia. }
    destruct (Z.ltb_spec 255 (total + (blen p + 1))); [blen_lia |].
    rewrite (app_assoc _ p). replace (blen pre + (1 + blen p))
      with (blen ((pre ++ [blen p]) ++ p)) by blen_lia.
    rewrite IH by (simpl in *; blen_lia). rewrite <- app_assoc. do 3 f_equal. blen_lia.
Qed.

Lemma readQuestionName_host pre name post :
  host_name name →
  readQuestionName (pre ++ wire_name name ++ post) (blen pre)
  = Ok (Some (split_on dot name, blen pre + blen (wire_name name))).
Proof.
  intros [Hl Hb]. apply readQuestionName_loop_host; [done | lia | lia |].
  apply host_labels_wire_bound in Hl. unfold readQuestionName_fuel. lia.
Qed.

(** ** The fixed-size parts *)

Definition dns_header (id fl qd an ns ar : Z) : list Z :=
  u16 id ++ u16 fl ++ u16 qd ++ u16 an ++ u16 ns ++ u16 ar.

Lemma writeUInt16BE_ok b v o :
  0 ≤ v < 65536 → writeUInt16BE b v o = write_bytes b o (u16 v).
Proof.
  intros. unfold writeUInt16BE. destruct (Z.leb_spec 0 v), (Z.ltb_spec v 65536); try lia. done.
Qed.
Lemma writeUInt32BE_ok b v o :
  0 ≤ v < 4294967296 → writeUInt32BE b v o = write_bytes b o (u32 v).
Proof.
  intros. unfold writeUInt32BE.
  destruct (Z.leb_spec 0 v), (Z.ltb_spec v 4294967296); try lia. done.
Qed.

Lemma land_65535 id : 0 ≤ id < 65536 → Z.land id 65535 = id.
Proof. intros. change 65535 with (Z.ones 16). rewrite Z.land_ones by lia. by apply Z.mod_small. Qed.

Section Header.
Context (id fl qd an ns ar : Z) (r : list Z).
Let h := dns_header id fl qd an ns ar ++ r.
Lemma header_id : readUInt16BE h 0 = Ok id.
Proof. exact (readUInt16BE_u16 id []). Qed.
Lemma header_flags : readUInt16BE h 2 = Ok fl.
Proof. exact (readUInt16BE_u16 fl []). Qed.
Lemma header_qd : readUInt16BE h 4 = Ok qd.
Proof. exact (readUInt16BE_u16 qd []). Qed.
Lemma header_an : readUInt16BE h 6 = Ok an.
Proof. exact (readUInt16BE_u16 an []). Qed.
Lemma header_ns : readUInt16BE h 8 = Ok ns.
Proof. exact (readUInt16BE_u16 ns []). Qed.
Lemma header_ar : readUInt16BE h 10 = Ok ar.
Proof. exact (readUInt16BE_u16 ar []). Qed.
End Header.

(** Runs one buffer write at a fixed offset of a buffer of known length. *)
Ltac write_step :=
  match goal with
  | |- context [writeUInt16BE ?b ?v ?o] =>
      rewrite (writeUInt16BE_ok b v o) by lia;
      let r := eval cbv -[Z.div Z.modulo] in (write_bytes b o (u16 v)) in
      change (write_bytes b o (u16 v)) with r
  | |- context [writeUInt32BE ?b ?v ?o] =>
      rewrite (writeUInt32BE_ok b v o) by lia;
      let r := eval cbv -[Z.div Z.modulo] in (write_bytes b o (u32 v)) in
      change (write_bytes b o (u32 v)) with r
  end; cbn [mbind res_bind].

Lemma questionFor_host name qtype qclass :
  host_name name → 0 ≤ qtype < 65536 → 0 ≤ qclass < 65536 →
  questionFor name qtype qclass
  = Ok (wire_name name ++ u16 qtype ++ u16 qclass).
Proof.
  intros. unfold questionFor. do 2 write_step. by rewrite encodeName_host.
Qed.

(** The OPT record: root name, type, UDP size, flags, option length, options. *)
Definition opt_wire (size : Z) (d : bool) (opts : list Z) : list Z :=
  0 :: u16 TYPE.OPT ++ u16 size ++ u32 (if d then 32768 else 0) ++ u16 (blen opts) ++ opts.
Definition ede_wire (ede : option Z) : list Z :=
  match ede with Some e => u16 15 ++ u16 2 ++ u16 e | None => [] end.

Lemma optRecord_wire size d ede :
  0 ≤ size < 65536 → (∀ e, ede = Some e → 0 ≤ e < 65536) →
  optRecord size d ede = Ok (opt_wire size d (ede_wire ede)).
Proof.
  intros Hs He. unfold optRecord, opt_wire.
  assert (0 ≤ (if d then 32768 else 0) < 4294967296) by (destruct d; lia).
  assert (0 ≤ TYPE.OPT < 65536) by done.
  destruct ede as [e|].
  - specialize (He e eq_refl). do 3 write_step.
    assert (0 ≤ blen [15 / 256; 15 mod 256; 2 / 256; 2 mod 256; e / 256; e mod 256] < 65536) by done.
    do 4 write_step. done.
  - cbn [mbind res_bind]. assert (0 ≤ blen [] < 65536) by done. do 4 write_step. done.
Qed.

Lemma buildQuery_wire id name qtype qclass edns cd :
  0 ≤ id < 65536 → host_name name → 0 ≤ qtype < 65536 → 0 ≤ qclass < 65536 →
  buildQuery id name qtype qclass edns cd
  = Ok (dns_header id (if cd then 272 else 256) 1 0 0 (match edns with Some _ => 1 | None => 0 end)
        ++ wire_name name ++ u16 qtype ++ u16 qclass
        ++ match edns with Some d => opt_wire EDNS_UDP d [] | None => [] end).
Proof.
  intros. unfold buildQuery. rewrite land_65535 by done.
  assert (Z.lor 256 (if cd then 16 else 0) = if cd then 272 else 256) as -> by (by destruct cd).
  assert (0 ≤ (if cd then 272 else 256) < 65536) by (destruct cd; lia).
  assert (0 ≤ match edns with Some _ => 1 | None => 0 end < 65536) by (destruct edns; lia).
  do 4 write_step. rewrite questionFor_host by done. cbn [mbind res_bind].
  destruct edns as [d|]; [|by rewrite app_nil_r].
  rewrite optRecord_wire by done. cbn [mbind res_bind]. by rewrite <- !app_assoc.
Qed.

Lemma blen_opt_wire size d opts : blen (opt_wire size d opts) = 11 + blen opts.
Proof. unfold opt_wire. autorewrite with jsbytes. lia. Qed.
Lemma blen_dns_header a b c d e f : blen (dns_header a b c d e f) = 12.
Proof. done. Qed.
#[export] Hint Rewrite blen_opt_wire blen_dns_header : jsbytes.

(** The additional-record loop finds an OPT record at the end of a message. *)
Lemma find_edns_opt pre size d opts :
  512 ≤ size → blen opts < 65536 →
  find_edns 1 (pre ++ opt_wire size d opts) (blen pre) None = Ok (Some (Edns size d 0)).
Proof.
  intros Hs Ho. pose proof (blen_nonneg pre). pose proof (blen_nonneg opts).
  set (buf := pre ++ opt_wire size d opts).
  assert (blen buf = blen pre + 11 + blen opts) as Hlen by (unfold buf; blen_lia).
  assert (readName buf (blen pre) = Ok ([], blen pre + 1)) as Hn by apply readName_root.
  assert (∀ k v, 0 ≤ k → readUInt16BE (opt_wire size d opts) k = Ok v →
            readUInt16BE buf (blen pre + k) = Ok v) as H16.
  { intros k v Hk <-. unfold buf. by apply readUInt16BE_app_r. }
  assert (readUInt16BE buf (blen pre + 1) = Ok TYPE.OPT) as Ht
    by exact (H16 1 _ ltac:(lia) (readUInt16BE_u16 TYPE.OPT [])).
  assert (readUInt16BE buf (blen pre + 1 + 2) = Ok size) as Hsz.
  { rewrite <- Z.add_assoc. exact (H16 (1 + 2) _ ltac:(lia) (readUInt16BE_u16 size [])). }
  assert (readUInt16BE buf (blen pre + 1 + 8) = Ok (blen opts)) as Hrd.
  { rewrite <- Z.add_assoc. exact (H16 (1 + 8) _ ltac:(lia) (readUInt16BE_u16 (blen opts) [])). }
  assert (readUInt32BE buf (blen pre + 1 + 4) = Ok (if d then 32768 else 0)) as Httl.
  { rewrite <- Z.add_assoc. unfold buf. rewrite readUInt32BE_app_r by lia.
    exact (readUInt32BE_u32 (if d then 32768 else 0) []). }
  cbn [find_edns]. destruct (Z.eqb_spec (blen pre) (-1)); [lia |].
  unfold skipRR. rewrite Hn. cbn [mbind res_bind fst snd]. rewrite Hlen.
  destruct (Z.ltb_spec (blen pre + 11 + blen opts) (blen pre + 1 + 10)); [lia |].
  rewrite Ht. cbn [mbind res_bind]. rewrite Httl, Hsz, Hrd. cbn [mbind res_bind].
  destruct (Z.ltb_spec (blen pre + 11 + blen opts) (blen pre + 1 + 10 + blen opts)); [lia |].
  cbn -[Z.max]. rewrite Z.max_r by lia. by destruct d.
Qed.

(** Walks a computation whose next step is a known read. *)
Ltac run_with H := rewrite H; cbn [mbind res_bind fst snd].
Ltac skip_guard := match goal with |- context [?a <? ?b] => destruct (Z.ltb_spec a b); [lia |] end.

(** The query part of a message: the question behind any header. *)
Section QuestionPart.
Context (hd tail : list Z) (name : jstr) (qtype qclass : Z).
Context (Hhd : blen hd = 12) (Hn : host_name name).
Let buf := hd ++ wire_name name ++ u16 qtype ++ u16 qclass ++ tail.

Lemma question_name : readQuestionName buf 12 = Ok (Some (split_on dot name, 12 + blen (wire_name name))).
Proof. rewrite <- Hhd. by apply readQuestionName_host. Qed.

Lemma question_readName : readName buf 12 = Ok (name, 12 + blen (wire_name name)).
Proof. rewrite <- Hhd. by apply readName_host. Qed.

Lemma question_type : readUInt16BE buf (12 + blen (wire_name name)) = Ok qtype.
Proof. unfold buf. rewrite app_assoc. apply read16_at. blen_lia. Qed.

Lemma question_class : readUInt16BE buf (12 + blen (wire_name name) + 2) = Ok qclass.
Proof.
  unfold buf. rewrite (app_assoc (wire_name name)), (app_assoc hd). apply read16_at. blen_lia.
Qed.

Lemma question_bytes :
  subarray buf 12 (12 + blen (wire_name name) + 4) = wire_name name ++ u16 qtype ++ u16 qclass.
Proof.
  unfold buf. replace ((wire_name name) ++ u16 qtype ++ u16 qclass ++ tail)
    with (((wire_name name) ++ u16 qtype ++ u16 qclass) ++ tail) by (by rewrite <- !app_assoc).
  apply subarray_middle; blen_lia.
Qed.
End QuestionPart.

Lemma host_wire_bounds name :
  host_name name → 1 ≤ blen (wire_name name) ≤ 256.
Proof. intros [Hl Hb]. apply host_labels_wire_bound in Hl. lia. Qed.

(** A query built for any host name, type and class is parsed back as it
    was, with its EDNS flags. *)
Theorem parseQuery_buildQuery id name qtype qclass edns cd :
  0 ≤ id < 65536 → host_name name → 0 ≤ qtype < 65536 → 0 ≤ qclass < 65536 →
  ∃ msg question,
    buildQuery id name qtype qclass edns cd = Ok msg ∧
    questionFor name qtype qclass = Ok question ∧
    parseQuery msg = Ok (Some (Query id 0 true cd 1 (Some name) (Some true) (Some qtype)
      (Some qclass) (Some question) ((λ d, Edns EDNS_UDP d 0) <$> edns))).
Proof.
  intros Hid Hn Hqt Hqc. eexists _, _. split; [by apply buildQuery_wire |].
  split; [by apply questionFor_host |].
  pose proof (host_wire_bounds name Hn). pose proof Hn as [Hl _].
  set (fl := if cd then 272 else 256). set (ar := match edns with Some _ => 1 | None => 0 end).
  set (opt := match edns with Some d => opt_wire EDNS_UDP d [] | None => [] end).
  set (hd := dns_header id fl 1 0 0 ar).
  set (buf := hd ++ wire_name name ++ u16 qtype ++ u16 qclass ++ opt).
  assert (0 ≤ blen opt ≤ 11) as Hopt by (by destruct edns).
  assert (blen buf = 16 + blen (wire_name name) + blen opt) as Hlen
    by (unfold buf, hd; blen_lia).
  unfold parseQuery. rewrite Hlen. do 2 skip_guard. cbn [orb].
  run_with (header_id id fl 1 0 0 ar _ : readUInt16BE buf 0 = _).
  run_with (header_flags id fl 1 0 0 ar _ : readUInt16BE buf 2 = _).
  replace (negb (Z.land fl 32768 =? 0)) with false by (by destruct cd).
  run_with (header_qd id fl 1 0 0 ar _ : readUInt16BE buf 4 = _). cbn [Z.eqb Pos.eqb negb].
  run_with (question_name hd opt name qtype qclass eq_refl Hn : readQuestionName buf 12 = _).
  skip_guard.
  run_with (question_type hd opt name qtype qclass eq_refl : readUInt16BE buf (12 + blen (wire_name name)) = _).
  run_with (question_class hd opt name qtype qclass eq_refl : readUInt16BE buf (12 + blen (wire_name name) + 2) = _).
  run_with (header_an id fl 1 0 0 ar _ : readUInt16BE buf 6 = _).
  run_with (header_ns id fl 1 0 0 ar _ : readUInt16BE buf 8 = _).
  run_with (header_ar id fl 1 0 0 ar _ : readUInt16BE buf 10 = _).
  replace (MAX_RR <? 0 + 0 + ar) with false by (by destruct edns).
  change (skip_rrs (Z.to_nat (0 + 0)) buf (12 + blen (wire_name name) + 4))
    with (Ok (12 + blen (wire_name name) + 4)). cbn [mbind res_bind].
  assert (find_edns (Z.to_nat ar) buf (12 + blen (wire_name name) + 4) None
          = Ok ((λ d, Edns EDNS_UDP d 0) <$> edns)) as ->.
  { destruct edns as [d|]; [|done].
    replace buf with ((hd ++ wire_name name ++ u16 qtype ++ u16 qclass) ++ opt)
      by (unfold buf; by rewrite <- !app_assoc).
    replace (12 + blen (wire_name name) + 4) with (blen (hd ++ wire_name name ++ u16 qtype ++ u16 qclass))
      by (unfold hd; blen_lia).
    by apply find_edns_opt. }
  cbn [mbind res_bind]. rewrite labelTexts_host by done.
  rewrite (question_bytes hd opt name qtype qclass eq_refl
           : subarray buf 12 (12 + blen (wire_name name) + 4) = _).
  cbn [fmap option_fmap option_map]. rewrite join_split_on. by destruct cd.
Qed.

(** ** Responses *)

(** An answer whose wire form reads back: host names, fields in range, and a
    target exactly for CNAMEs. *)
Definition wf_answer (a : answer) : Prop :=
  host_name (a_name a) ∧ 0 ≤ a_type a < 65536 ∧ a_type a ≠ TYPE.OPT ∧
  0 ≤ a_ttl a < 2147483648 ∧ blen (a_rdata a) < 65536 ∧
  match a_target a with
  | None => a_type a ≠ TYPE.CNAME
  | Some t => a_type a = TYPE.CNAME ∧ host_name t ∧ a_rdata a = wire_name t
  end.

Definition answer_name_wire (qname : jstr) (a : answer) : list Z :=
  if bool_decide (a_name a = qname) then [192; 12] else wire_name (a_name a).

Definition answer_wire (qname : jstr) (a : answer) : list Z :=
  answer_name_wire qname a ++ u16 (a_type a) ++ u16 CLASS_IN ++ u32 (a_ttl a)
  ++ u16 (blen (a_rdata a)) ++ a_rdata a.

Lemma int32_small v : 0 ≤ v < 2147483648 → int32 v = v.
Proof. intros. unfold int32. rewrite Z.mod_small by lia. lia. Qed.

Lemma build_answers_wire qname l :
  Forall wf_answer l → build_answers (Some qname) l = Ok (l ≫= answer_wire qname).
Proof.
  induction 1 as [|a l (Hn & Ht & _ & Httl & Hrd & _) Hl IH]; [done |]. cbn [build_answers].
  assert ((if bool_decide (Some (a_name a) = Some qname) then Ok [192; 12]
           else encodeName (a_name a)) = Ok (answer_name_wire qname a)) as ->.
  { unfold answer_name_wire. repeat case_bool_decide; try naive_solver.
    by apply encodeName_host. }
  cbn [mbind res_bind]. rewrite int32_small, Z.max_r by lia.
  pose proof (blen_nonneg (a_rdata a)). assert (0 ≤ CLASS_IN < 65536) by done.
  do 4 write_step. rewrite IH. csimpl. unfold answer_wire, u16, u32.
  by rewrite <- !app_assoc.
Qed.

Section ReadAnswers.
Context `{Unicode} (hd : list Z) (name : jstr).
Context (Hhd : blen hd = 12) (Hname : host_name name).

(** Any message that starts with the header and the question name. *)
Definition with_question (buf : list Z) : Prop := ∃ r, buf = hd ++ wire_name name ++ r.

Lemma readName_answer pre a post :
  with_question (pre ++ answer_name_wire name a ++ post) → host_name (a_name a) →
  readName (pre ++ answer_name_wire name a ++ post) (blen pre)
  = Ok (a_name a, blen pre + blen (answer_name_wire name a)).
Proof.
  intros [r Hr] Ha. unfold answer_name_wire in *.
  case_bool_decide as Hq; [|by apply readName_host].
  apply readName_pointer.
  - rewrite <- (Z.add_0_r (blen pre)). by rewrite byte_at_app_r by lia.
  - by rewrite byte_at_app_r by lia.
  - intros fuel Hf n Hn. rewrite Hr, <- Hhd.
    destruct Hname as [Hl Hb]. pose proof (host_labels_wire_bound _ Hl).
    rewrite readName_loop_plain; [| by apply host_labels_plain | simpl; lia | lia].
    rewrite app_nil_l, join_split_on, Hq. destruct (Z.eqb_spec n (-1)); [lia | done].
  - done.
  - apply blen_nonneg.
Qed.

(** The state after an answer at [pos], and after a list of them. *)
Definition after_answer (pos : Z) (st : rr_state) (a : answer) : rr_state :=
  RRState (st_ttlOffsets st ++ [pos + blen (answer_name_wire name a) + 4])
    (Some (match st_minTtl st with None => a_ttl a | Some m => Z.min m (a_ttl a) end))
    (st_negTtl st) (st_answers st ++ [a]).

Fixpoint after_answers (pos : Z) (st : rr_state) (l : list answer) : rr_state :=
  match l with
  | [] => st
  | a :: l => after_answers (pos + blen (answer_wire name a)) (after_answer pos st a) l
  end.

Lemma parse_rr_answer pre a post an i st :
  with_question (pre ++ answer_wire name a ++ post) → wf_answer a → 0 ≤ i < an →
  parse_rr (pre ++ answer_wire name a ++ post) an 0 i (blen pre) st
  = Ok (Some (after_answer (blen pre) st a, blen pre + blen (answer_wire name a))).
Proof.
  intros Hq (Hn & Ht & Hopt & Httl & Hrd & Htgt) Hi.
  set (buf := pre ++ answer_wire name a ++ post) in *.
  set (p := pre ++ answer_name_wire name a).
  assert (blen p = blen pre + blen (answer_name_wire name a)) as Hp by (unfold p; blen_lia).
  assert (buf = p ++ u16 (a_type a) ++ u16 CLASS_IN ++ u32 (a_ttl a)
            ++ u16 (blen (a_rdata a)) ++ a_rdata a ++ post) as Hbuf.
  { unfold buf, answer_wire, p. by rewrite <- !app_assoc. }
  assert (blen buf = blen p + 10 + blen (a_rdata a) + blen post) as Hlen
    by (rewrite Hbuf; blen_lia).
  assert (readName buf (blen pre) = Ok (a_name a, blen p)) as Hnm.
  { rewrite Hp. unfold buf in *. unfold answer_wire in *. rewrite <- app_assoc in *.
    by apply readName_answer. }
  assert (readUInt16BE buf (blen p) = Ok (a_type a)) as Hty.
  { rewrite Hbuf. by apply read16_at. }
  assert (readUInt32BE buf (blen p + 4) = Ok (a_ttl a)) as Httl'.
  { rewrite Hbuf, readUInt32BE_app_r by lia. exact (readUInt32BE_u32 (a_ttl a) []). }
  assert (readUInt16BE buf (blen p + 8) = Ok (blen (a_rdata a))) as Hrd'.
  { rewrite Hbuf, readUInt16BE_app_r by lia. exact (readUInt16BE_u16 (blen (a_rdata a)) []). }
  pose proof (blen_nonneg post). pose proof (blen_nonneg (a_rdata a)).
  unfold parse_rr. run_with Hnm. rewrite Hlen. skip_guard. run_with Hty. run_with Httl'.
  run_with Hrd'. skip_guard. destruct (Z.eqb_spec (a_type a) TYPE.OPT); [done |].
  destruct (Z.ltb_spec i (an + 0)), (Z.leb_spec an i), (Z.ltb_spec i an); try lia.
  cbn [andb mbind res_bind].
  assert ((if a_type a =? TYPE.CNAME then t ← readName buf (blen p + 10);
           Ok (Some (toLowerCase t.1)) else Ok None) = Ok (a_target a)) as ->.
  { destruct (a_target a) as [t|].
    - destruct Htgt as (-> & Ht' & Hrdata). cbn [Z.eqb Pos.eqb TYPE.CNAME].
      rewrite Hbuf, Hrdata, !app_assoc, <- (app_assoc _ (wire_name t)).
      rewrite (readName_at _ t) by (done || blen_lia). cbn [mbind res_bind fst].
      by rewrite toLowerCase_host.
    - by destruct (Z.eqb_spec (a_type a) TYPE.CNAME). }
  assert (subarray buf (blen p + 10) (blen p + 10 + blen (a_rdata a)) = a_rdata a) as ->.
  { rewrite Hbuf, !app_assoc, <- (app_assoc _ (a_rdata a)).
    apply subarray_middle; blen_lia. }
  cbn [mbind res_bind]. rewrite toLowerCase_host by done.
  unfold after_answer. rewrite <- Hp. do 3 f_equal.
  - destruct a. done.
  - unfold answer_wire. blen_lia.
Qed.

Lemma blen_answers_cons a l :
  (a :: l) ≫= answer_wire name = answer_wire name a ++ (l ≫= answer_wire name).
Proof. done. Qed.

Lemma parse_rrs_answers pre l post an i st k :
  with_question (pre ++ (l ≫= answer_wire name) ++ post) → Forall wf_answer l → 0 ≤ i →
  i + Z.of_nat (length l) ≤ an →
  parse_rrs (length l + k) (pre ++ (l ≫= answer_wire name) ++ post) an 0 i (blen pre) st
  = parse_rrs k (pre ++ (l ≫= answer_wire name) ++ post) an 0 (i + Z.of_nat (length l))
      (blen pre + blen (l ≫= answer_wire name)) (after_answers (blen pre) st l).
Proof.
  intros Hq Hl. revert pre i st Hq.
  induction Hl as [|a l Ha Hl IH]; intros pre i st Hq Hi Hn.
  - simpl. by rewrite Z.add_0_r, blen_nil, Z.add_0_r.
  - rewrite blen_answers_cons, <- app_assoc in *. cbn [length] in Hn |- *.
    cbn [Nat.add parse_rrs].
    rewrite parse_rr_answer by (done || lia). cbn [mbind res_bind].
    rewrite (app_assoc pre) in Hq |- *. rewrite <- blen_app, IH by (done || lia).
    f_equal; [lia | |]; autorewrite with jsbytes; [lia | done].
Qed.

End ReadAnswers.

Lemma parse_rr_opt `{Unicode} pre size d opts an i st :
    an ≤ i → blen opts < 65536 →
    parse_rr (pre ++ opt_wire size d opts) an 0 i (blen pre) st
    = Ok (Some (st, blen pre + blen (opt_wire size d opts))).
  Proof.
    intros Hi Ho. set (buf := pre ++ opt_wire size d opts).
    pose proof (blen_nonneg pre). pose proof (blen_nonneg opts).
    assert (blen buf = blen pre + 11 + blen opts) as Hlen by (unfold buf; blen_lia).
    assert (∀ k v, 0 ≤ k → readUInt16BE (opt_wire size d opts) k = Ok v →
              readUInt16BE buf (blen pre + k) = Ok v) as H16.
    { intros k v Hk <-. unfold buf. by apply readUInt16BE_app_r. }
    unfold parse_rr. run_with (readName_root pre _ : readName buf (blen pre) = _).
    rewrite Hlen. skip_guard.
    run_with (H16 1 _ ltac:(lia) (readUInt16BE_u16 TYPE.OPT [])).
    assert (∃ ttl, readUInt32BE buf (blen pre + 1 + 4) = Ok ttl) as [ttl Httl].
    { apply readUInt32BE_total; lia. }
    run_with Httl. rewrite <- (Z.add_assoc _ 1 8).
    run_with (H16 (1 + 8) _ ltac:(lia) (readUInt16BE_u16 (blen opts) [])).
    skip_guard. cbn [Z.eqb Pos.eqb TYPE.OPT mbind res_bind].
    destruct (Z.ltb_spec i an); [lia |]. cbn [mbind res_bind]. do 3 f_equal. blen_lia.
  Qed.

(** The smallest TTL of a list of answers, as [parseResponse] folds it. *)
Definition min_ttl (acc : option Z) (l : list answer) : option Z :=
  fold_left (λ m a, Some (match m with None => a_ttl a | Some m => Z.min m (a_ttl a) end)) l acc.

Lemma after_answers_fields name pos st l :
  let st' := after_answers name pos st l in
  st_answers st' = st_answers st ++ l ∧ st_negTtl st' = st_negTtl st ∧
  st_minTtl st' = min_ttl (st_minTtl st) l ∧
  length (st_ttlOffsets st') = (length (st_ttlOffsets st) + length l)%nat.
Proof.
  revert pos st. induction l as [|a l IH]; intros pos st; simpl.
  - by rewrite app_nil_r, Nat.add_0_r.
  - destruct (IH (pos + blen (answer_wire name a)) (after_answer name pos st a)) as (-> & -> & -> & ->).
    simpl. rewrite length_app, <- app_assoc. simpl. split_and!; [done..|lia].
Qed.

Definition flags_ok (opcode rcode : Z) (tc rd cd : bool) : bool :=
  let f := response_flags opcode tc rd cd rcode in
  (0 <=? f) && (f <? 65536) && negb (Z.land f 32768 =? 0) && (Z.land f 15 =? rcode)
  && eqb (negb (Z.land f 512 =? 0)) tc && eqb (negb (Z.land f 256 =? 0)) rd.

Lemma flags_ok_all opcode rcode tc rd cd :
  0 ≤ opcode < 16 → 0 ≤ rcode < 16 → flags_ok opcode rcode tc rd cd = true.
Proof.
  intros.
  assert (flags_ok ((opcode * 16 + rcode) / 16) ((opcode * 16 + rcode) mod 16) tc rd cd = true)
    as Hok.
  { destruct tc, rd, cd;
      apply (byte_ind_bool (λ b, flags_ok (b / 16) (b mod 16) _ _ _)); (done || lia). }
  rewrite Z.div_add_l, Z.div_small, Z.add_0_r in Hok by lia.
  by rewrite Z.add_comm, Z.mod_add, Z.mod_small in Hok by lia.
Qed.

Lemma response_flags_spec opcode tc rd cd rcode :
  0 ≤ opcode < 16 → 0 ≤ rcode < 16 →
  let f := response_flags opcode tc rd cd rcode in
  0 ≤ f < 65536 ∧ (Z.land f 32768 =? 0) = false ∧ Z.land f 15 = rcode ∧
  negb (Z.land f 512 =? 0) = tc.
Proof.
  intros Ho Hr f. pose proof (flags_ok_all opcode rcode tc rd cd Ho Hr) as Hok.
  unfold flags_ok in Hok. fold f in Hok. rewrite !andb_true_iff in Hok.
  destruct Hok as [[[[[? ?] ?] ?] ?%eqb_prop] ?].
  rewrite negb_true_iff in *. split_and!; try done; lia.
Qed.

Definition opt_part (q : query) (ede : option Z) : list Z :=
  match q_edns q with Some e => opt_wire EDNS_UDP (e_do e) (ede_wire ede) | None => [] end.
Definition edns_count (q : query) : Z := match q_edns q with Some _ => 1 | None => 0 end.

Lemma edns_count_range q : 0 ≤ edns_count q ≤ 1.
Proof. unfold edns_count. destruct (q_edns q); lia. Qed.

Lemma blen_ede_wire ede : 0 ≤ blen (ede_wire ede) ≤ 6.
Proof. destruct ede; simpl; blen_lia. Qed.

Lemma buildResponse_wire q name question rcode answers tc ede :
  q_name q = Some name → q_question q = Some question →
  0 ≤ q_id q < 65536 → 0 ≤ q_opcode q < 16 → 0 ≤ rcode < 16 →
  Forall wf_answer answers → Z.of_nat (length answers) < 65536 →
  (∀ e, ede = Some e → 0 ≤ e < 65536) →
  buildResponse q rcode answers tc ede
  = Ok (dns_header (q_id q) (response_flags (q_opcode q) tc (q_rd q) (q_cd q) rcode) 1
          (Z.of_nat (length answers)) 0 (edns_count q)
        ++ question ++ (answers ≫= answer_wire name) ++ opt_part q ede).
Proof.
  intros Hn Hq Hid Hop Hrc Hans Hlen Hede. unfold buildResponse. rewrite Hn, Hq, land_65535 by done.
  destruct (response_flags_spec (q_opcode q) tc (q_rd q) (q_cd q) rcode Hop Hrc) as (Hf & _).
  rewrite bool_decide_eq_true_2 by done.
  fold (edns_count q). pose proof (edns_count_range q).
  set (fl := response_flags _ _ _ _ _) in *. set (ac := Z.of_nat (length answers)) in *.
  set (ec := edns_count q) in *. assert (0 ≤ ac < 65536) by lia.
  clearbody fl ac ec. do 5 write_step.
  rewrite build_answers_wire by done. cbn [mbind res_bind].
  assert (match q_edns q with Some e => optRecord EDNS_UDP (e_do e) ede | None => Ok [] end
          = Ok (opt_part q ede)) as ->.
  { unfold opt_part. destruct (q_edns q); [|done]. by apply optRecord_wire. }
  cbn [mbind res_bind]. unfold dns_header. by rewrite <- !app_assoc.
Qed.

(** The OPT record, if any, leaves the collected state alone. *)
Lemma parse_rrs_opt_part `{Unicode} pre q ede an i st :
  an ≤ i →
  parse_rrs (Z.to_nat (edns_count q)) (pre ++ opt_part q ede) an 0 i (blen pre) st = Ok (Some st).
Proof.
  intros Hi. unfold edns_count, opt_part. destruct (q_edns q) as [e|]; [|done].
  change (Z.to_nat 1) with 1%nat. cbn [parse_rrs].
  pose proof (blen_ede_wire ede). by rewrite parse_rr_opt by lia.
Qed.

(** Reading a response that [buildResponse] wrote gives the response back. *)
Lemma response_roundtrip `{Unicode} q name qt qc rcode answers tc ede :
  q_name q = Some name → host_name name →
  q_question q = Some (wire_name name ++ u16 qt ++ u16 qc) →
  0 ≤ q_id q < 65536 → 0 ≤ q_opcode q < 16 → 0 ≤ rcode < 16 →
  Forall wf_answer answers → (length answers ≤ 511)%nat →
  (∀ e, ede = Some e → 0 ≤ e < 65536) →
  ∃ msg rs,
    buildResponse q rcode answers tc ede = Ok msg ∧
    parseResponse msg = Ok (Some rs) ∧
    rs_id rs = q_id q ∧ rs_rcode rs = rcode ∧ rs_tc rs = tc ∧ rs_qname rs = Some name ∧
    rs_answers rs = answers ∧ rs_an rs = Z.of_nat (length answers) ∧
    rs_minTtl rs = min_ttl None answers ∧ rs_negTtl rs = None ∧
    length (rs_ttlOffsets rs) = length answers.
Proof.
  intros Hn Hname Hq Hid Hop Hrc Hans Hlen Hede.
  destruct (response_flags_spec (q_opcode q) tc (q_rd q) (q_cd q) rcode Hop Hrc) as (_ & Hqr & Hf).
  pose proof (edns_count_range q).
  eexists _, (Response (q_id q) rcode tc (Some name)
    (st_ttlOffsets (after_answers name (16 + blen (wire_name name)) (RRState [] None None []) answers))
    (min_ttl None answers) None answers (Z.of_nat (length answers))).
  split; [apply (buildResponse_wire q name (wire_name name ++ u16 qt ++ u16 qc)); lia || done |].
  split; [| split_and!; try done; apply after_answers_fields].
  set (fl := response_flags _ _ _ _ _) in *. set (ac := Z.of_nat (length answers)).
  set (hd := dns_header (q_id q) fl 1 ac 0 (edns_count q)).
  set (tail := (answers ≫= answer_wire name) ++ opt_part q ede).
  replace (hd ++ (wire_name name ++ u16 qt ++ u16 qc) ++ tail)
    with (hd ++ wire_name name ++ u16 qt ++ u16 qc ++ tail)
    by (by rewrite <- !app_assoc).
  set (rest := wire_name name ++ u16 qt ++ u16 qc ++ tail). set (buf := hd ++ rest).
  assert (blen buf = 16 + blen (wire_name name) + blen tail) as Hblen by (unfold buf, rest, hd; blen_lia).
  pose proof (blen_nonneg (wire_name name)). pose proof (blen_nonneg tail).
  unfold parseResponse. rewrite Hblen. skip_guard.
  run_with (header_flags (q_id q) fl 1 ac 0 (edns_count q) rest : readUInt16BE buf 2 = _). rewrite Hqr.
  run_with (header_qd (q_id q) fl 1 ac 0 (edns_count q) rest : readUInt16BE buf 4 = _).
  run_with (header_an (q_id q) fl 1 ac 0 (edns_count q) rest : readUInt16BE buf 6 = _).
  run_with (header_ns (q_id q) fl 1 ac 0 (edns_count q) rest : readUInt16BE buf 8 = _).
  run_with (header_ar (q_id q) fl 1 ac 0 (edns_count q) rest : readUInt16BE buf 10 = _).
  unfold MAX_RR. skip_guard. cbn [orb Z.ltb Z.compare Pos.compare Pos.compare_cont Z.eqb Pos.eqb].
  run_with (question_readName hd tail name qt qc eq_refl Hname : readName buf 12 = _).
  cbn [andb]. skip_guard. rewrite toLowerCase_host by done.
  set (pre := hd ++ wire_name name ++ u16 qt ++ u16 qc).
  replace (12 + blen (wire_name name) + 4) with (blen pre) by (unfold pre, hd; blen_lia).
  replace buf with (pre ++ tail) by (unfold buf, rest, pre; by rewrite <- !app_assoc).
  replace (Z.to_nat (ac + 0 + edns_count q)) with (length answers + Z.to_nat (edns_count q))%nat by lia.
  replace (pre ++ tail) with (pre ++ (answers ≫= answer_wire name) ++ opt_part q ede) by done.
  rewrite (parse_rrs_answers hd name eq_refl Hname); [| | done | lia | lia].
  2:{ exists ((u16 qt ++ u16 qc) ++ tail). unfold pre, tail. by rewrite <- !app_assoc. }
  rewrite app_assoc, <- blen_app, parse_rrs_opt_part by lia. cbn [mbind res_bind].
  replace (readUInt16BE _ 0) with (Ok (A:=Z) (q_id q)).
  2:{ symmetry. unfold pre. rewrite <- !app_assoc.
      exact (header_id (q_id q) fl 1 ac 0 (edns_count q) _). }
  destruct Hf as [Hf1 Hf2]. cbn [mbind res_bind]. rewrite Hf1, Hf2.
  destruct (after_answers_fields name (blen pre) (RRState [] None None []) answers)
    as (-> & -> & -> & _).
  replace (blen pre) with (16 + blen (wire_name name)) by (unfold pre, hd; blen_lia). done.
Qed.

(** C26: a response built for a query is parsed back with its id, code, name
    and answers, the smallest of their times to live and one place to age for
    each of them. *)
Theorem parseResponse_buildResponse `{Unicode} q name qt qc rcode answers tc ede :
  q_name q = Some name → host_name name →
  q_question q = Some (wire_name name ++ u16 qt ++ u16 qc) →
  0 ≤ q_id q < 65536 → 0 ≤ q_opcode q < 16 → 0 ≤ rcode < 16 →
  Forall wf_answer answers → (length answers ≤ 511)%nat →
  (∀ e, ede = Some e → 0 ≤ e < 65536) →
  ∃ msg rs,
    buildResponse q rcode answers tc ede = Ok msg ∧
    parseResponse msg = Ok (Some rs) ∧
    rs_id rs = q_id q ∧ rs_rcode rs = rcode ∧ rs_tc rs = tc ∧ rs_qname rs = Some name ∧
    rs_answers rs = answers ∧ rs_an rs = Z.of_nat (length answers) ∧
    rs_minTtl rs = min_ttl None answers ∧ rs_negTtl rs = None ∧
    length (rs_ttlOffsets rs) = length answers.
Proof. apply response_roundtrip. Qed.

(** ** Examples *)

Definition sample_name : jstr := js "printer.example".
Definition sample_query : query :=
  Query 7 0 true false 1 (Some sample_name) (Some true) (Some 1) (Some 1)
    (Some (wire_name sample_name ++ u16 1 ++ u16 1)) None.
Definition sample_answers : list answer := [Answer sample_name TYPE.A 300 [192; 168; 1; 9] None].

Lemma parseQuery_buildQuery_witness : ∃ msg question,
  buildQuery 7 sample_name 1 1 (Some true) false = Ok msg ∧ questionFor sample_name 1 1 = Ok question ∧
  parseQuery msg = Ok (Some (Query 7 0 true false 1 (Some sample_name) (Some true) (Some 1) (Some 1) (Some question)
                               (Some (Edns EDNS_UDP true 0)))).
Proof.
  apply (parseQuery_buildQuery 7 sample_name 1 1 (Some true) false); [lia | by apply (bool_decide_unpack (host_name _)); vm_compute | lia..].
Defined.

Lemma parseResponse_buildResponse_witness : ∃ msg rs,
  buildResponse sample_query 0 sample_answers false (Some 18) = Ok msg ∧
  @parseResponse ascii_unicode msg = Ok (Some rs) ∧ rs_answers rs = sample_answers ∧ rs_minTtl rs = Some 300.
Proof.
  destruct (@parseResponse_buildResponse ascii_unicode sample_query sample_name 1 1 0 sample_answers false (Some 18))
    as (msg & rs & Hb & Hp & _ & _ & _ & _ & Ha & _ & Hm & _); try done; try (cbn; lia).
  - by apply (bool_decide_unpack (host_name _)); vm_compute.
  - repeat constructor; try (cbn; lia); try done; by apply (bool_decide_unpack (host_name _)); vm_compute.
  - intros e [= <-]. lia.
  - exists msg, rs. by split_and!.
Defined.
