(* ===== verification/DnsAdapt.v ===== *)
(** * Cached DNS responses: TTL offsets and [adaptResponse] of src/dns/wire.js *)

From S2P Require Import Prelude JsBuffer NetwatchDnsWire DnsWire DnsWireFacts.

Local Open Scope Z_scope.

(** ** Disjoint 4-byte fields between [lo] and [hi] *)

Fixpoint spaced (lo hi : Z) (offs : list Z) : Prop :=
  match offs with
  | [] => lo ≤ hi
  | o :: r => lo ≤ o ∧ spaced (o + 4) hi r
  end.

Lemma spaced_le lo hi offs : spaced lo hi offs → lo ≤ hi.
Proof. revert lo. induction offs as [|o r IH]; simpl; intros lo; [done |]. intros [? ?%IH]. lia. Qed.

Lemma spaced_weaken lo lo' hi hi' offs :
  spaced lo hi offs → lo' ≤ lo → hi ≤ hi' → spaced lo' hi' offs.
Proof.
  revert lo lo'. induction offs as [|o r IH]; simpl; intros lo lo'; [lia |].
  intros [? ?] ? ?. split; [lia |]. eapply IH; [done | lia | done].
Qed.

Lemma spaced_snoc lo hi offs o hi' :
  spaced lo hi offs → hi ≤ o → o + 4 ≤ hi' → spaced lo hi' (offs ++ [o]).
Proof.
  revert lo. induction offs as [|a r IH]; simpl; intros lo; [lia |].
  intros [? ?] ? ?. split; [done |]. by apply IH.
Qed.

Lemma spaced_elem lo hi offs o : spaced lo hi offs → o ∈ offs → lo ≤ o ∧ o + 4 ≤ hi.
Proof.
  revert lo. induction offs as [|a r IH]; simpl; intros lo; [set_solver |].
  intros [? Hs] [->|Hin]%elem_of_cons.
  - apply spaced_le in Hs. lia.
  - specialize (IH _ Hs Hin). lia.
Qed.

(** ** Where [parseResponse] finds TTLs *)

Section Offsets.
Context `{Unicode}.

Lemma parse_rr_offsets buf an ns i pos st st' pos' :
  is_bytes buf → parse_rr buf an ns i pos st = Ok (Some (st', pos')) →
  ∀ lo, spaced lo pos (st_ttlOffsets st) → spaced lo pos' (st_ttlOffsets st') ∧ pos' ≤ blen buf.
Proof.
  intros Hb Hr lo Hs. unfold parse_rr in Hr.
  apply res_bind_Ok in Hr as (n & Hn & Hr). apply readName_bounds in Hn; [|done].
  destruct (_ <? _); [done |].
  apply res_bind_Ok in Hr as (type & _ & Hr). apply res_bind_Ok in Hr as (ttl & _ & Hr).
  apply res_bind_Ok in Hr as (rdlen & Hrd & Hr).
  apply readUInt16BE_range in Hrd; [|done].
  destruct (Z.ltb_spec (blen buf) (n.2 + 10 + rdlen)); [done |].
  apply res_bind_Ok in Hr as (st1 & H1 & Hr). apply res_bind_Ok in Hr as (st2 & H2 & Hr).
  injection Hr as <- <-.
  assert (st_ttlOffsets st2 = st_ttlOffsets st1) as ->.
  { destruct (i <? an); [|by injection H2 as <-].
    apply res_bind_Ok in H2 as (t & _ & H2). by injection H2 as <-. }
  split; [|done]. destruct (type =? TYPE.OPT).
  - injection H1 as <-. eapply spaced_weaken; [done | lia | lia].
  - apply res_bind_Ok in H1 as (neg & _ & H1). injection H1 as <-. simpl.
    eapply spaced_snoc; [done | lia | lia].
Qed.

Lemma parse_rrs_offsets n buf an ns i pos st st' :
  is_bytes buf → parse_rrs n buf an ns i pos st = Ok (Some st') →
  ∀ lo, spaced lo pos (st_ttlOffsets st) → pos ≤ blen buf →
  spaced lo (blen buf) (st_ttlOffsets st').
Proof.
  intros Hb. revert i pos st. induction n as [|n IH]; intros i pos st Hr lo Hs Hp.
  - injection Hr as <-. eapply spaced_weaken; [done | lia | lia].
  - cbn [parse_rrs] in Hr. apply res_bind_Ok in Hr as ([[st1 pos1]|] & H1 & Hr); [|done].
    eapply parse_rr_offsets in H1 as [? ?]; [|done|done]. by eapply IH.
Qed.

(** The end of the question section, as [parseResponse] computes it. *)
Definition question_end (buf : list Z) (e : Z) : Prop :=
  readUInt16BE buf 4 = Ok 1 ∧ (∃ name, readName buf 12 = Ok (name, e - 4)) ∨
  readUInt16BE buf 4 = Ok 0 ∧ e = 12.

Lemma parseResponse_offsets buf rs :
  is_bytes buf → parseResponse buf = Ok (Some rs) →
  12 ≤ blen buf ∧ ∃ e, question_end buf e ∧ 12 ≤ e ∧ spaced e (blen buf) (rs_ttlOffsets rs).
Proof.
  intros Hb Hr. unfold parseResponse, try_null in Hr.
  destruct (Z.ltb_spec (blen buf) 12); [done |].
  destruct (_ ≫= _) as [r| |] eqn:Hm in Hr; [|done|done]. injection Hr as ->.
  apply res_bind_Ok in Hm as (fl & _ & Hm). destruct (_ =? 0); [done |].
  apply res_bind_Ok in Hm as (qd & Hqd & Hm). apply res_bind_Ok in Hm as (an & _ & Hm).
  apply res_bind_Ok in Hm as (ns & _ & Hm). apply res_bind_Ok in Hm as (ar & _ & Hm).
  destruct (_ || _) eqn:Hg; [done |]. apply orb_false_iff in Hg as [_ Hg].
  apply res_bind_Ok in Hm as (q & Hq & Hm). destruct (_ && _) eqn:Hg2; [done |].
  apply res_bind_Ok in Hm as ([st|] & Hst & Hm); [|done].
  apply res_bind_Ok in Hm as (id & _ & Hm). injection Hm as <-. cbn [rs_ttlOffsets].
  split; [done |]. exists q.2.
  pose proof (readUInt16BE_range _ _ _ Hb Hqd).
  destruct (Z.eqb_spec qd 1) as [->|].
  - apply res_bind_Ok in Hq as ([nm e] & Hn & Hq). injection Hq as <-. cbn [fst snd] in *.
    pose proof (readName_bounds _ _ _ Hb Hn) as ?. cbn [fst snd] in *.
    split; [left; split; [done |]; exists nm; rewrite Hn; do 2 f_equal; lia |].
    split; [lia |]. cbn [andb] in Hg2.
    eapply parse_rrs_offsets; [done | done | simpl; lia | lia].
  - injection Hq as <-. cbn [fst snd] in *.
    assert (qd = 0) as -> by lia. split; [by right |]. split; [lia |].
    eapply parse_rrs_offsets; [done | done | simpl; lia | lia].
Qed.
End Offsets.

(** Without compression both name readers stop at the same place. *)
Lemma readQuestionName_loop_readName fuel1 fuel2 buf ls1 ls2 pos total r next :
  is_bytes buf → 0 ≤ total → 2 * Z.of_nat (length ls2) ≤ total →
  readQuestionName_loop fuel1 buf ls1 pos total = Ok (Some r) →
  (fuel1 ≤ fuel2)%nat →
  ∃ name, readName_loop fuel2 buf ls2 pos next 0 = Ok (name, if next =? -1 then r.2 else next).
Proof.
  intros Hb. revert fuel2 ls1 ls2 pos total.
  induction fuel1 as [|fuel1 IH]; intros fuel2 ls1 ls2 pos total Ht Hl Hr Hf; [done |].
  destruct fuel2 as [|fuel2]; [lia |]. cbn [readQuestionName_loop readName_loop] in *.
  destruct (byte_at buf pos) as [len|] eqn:Hlen; [|done].
  pose proof (byte_at_byte _ _ _ Hb Hlen) as [].
  destruct (Z.eqb_spec len 0); [injection Hr as <-; simpl; by eexists |].
  destruct (Z.ltb_spec 63 len); [done |]. rewrite land_192_small by lia. cbn [Z.eqb negb].
  destruct (Z.ltb_spec (blen buf) (pos + 1 + len)); [done |].
  destruct (Z.ltb_spec 255 (total + (len + 1))); [done |].
  rewrite length_app. cbn [length].
  destruct (Z.ltb_spec 128 (Z.of_nat (length ls2 + 1))); [lia |].
  rewrite <- Z.add_assoc. refine (IH fuel2 _ _ _ (total + (len + 1)) _ _ Hr _); [lia | | lia].
  rewrite length_app. simpl. lia.
Qed.

Lemma readQuestionName_readName buf off ls e :
  is_bytes buf → readQuestionName buf off = Ok (Some (ls, e)) →
  ∃ name, readName buf off = Ok (name, e).
Proof.
  unfold readQuestionName, readName. intros Hb Hr.
  assert (readQuestionName_fuel ≤ readName_fuel)%nat as Hf
    by (unfold readQuestionName_fuel, readName_fuel; lia).
  revert Hr Hf. generalize readQuestionName_fuel readName_fuel. intros f1 f2 Hr Hf.
  by destruct (readQuestionName_loop_readName f1 f2 buf [] [] off 0 (ls, e) (-1)) as [name Hn];
    [done | lia | simpl; lia | done | done | exists name].
Qed.

Lemma readQuestionName_no_throw buf off msg : readQuestionName buf off ≠ Throw msg.
Proof.
  unfold readQuestionName. generalize readQuestionName_fuel, (@nil (list Z)), off, 0.
  intros fuel. induction fuel as [|fuel IH]; intros ls pos total; [done |].
  cbn [readQuestionName_loop]. destruct (byte_at buf pos); [|done]. repeat case_match; auto.
Qed.

(** The reader only looks at the bytes from [off] on. *)
Lemma readQuestionName_ext a b off :
  0 ≤ off → is_bytes a → length a = length b → drop (Z.to_nat off) a = drop (Z.to_nat off) b →
  readQuestionName a off = readQuestionName b off.
Proof.
  intros Hoff Hb Hlen Hd. unfold readQuestionName.
  assert (∀ i, off ≤ i → byte_at a i = byte_at b i) as Hat.
  { intros i Hi. unfold byte_at. destruct (i <? 0); [done |].
    replace (Z.to_nat i) with (Z.to_nat off + (Z.to_nat i - Z.to_nat off))%nat by lia.
    rewrite <- !lookup_drop. by rewrite Hd. }
  assert (∀ s e, off ≤ s → subarray a s e = subarray b s e) as Hsub.
  { intros s e Hs. unfold subarray.
    replace (Z.to_nat s) with (Z.to_nat off + (Z.to_nat s - Z.to_nat off))%nat by lia.
    rewrite <- !drop_drop. by rewrite Hd. }
  assert (blen a = blen b) as Hl by (unfold blen; lia).
  assert (off ≤ off) as Hp by lia. revert Hp.
  generalize off at 2 3 4 as pos. generalize readQuestionName_fuel, (@nil (list Z)), 0.
  intros fuel. induction fuel as [|fuel IH]; intros ls total pos Hp; [done |].
  cbn [readQuestionName_loop]. rewrite <- Hat by done.
  destruct (byte_at a pos) as [len|] eqn:Hbyte; [|done].
  pose proof (byte_at_byte _ _ _ Hb Hbyte) as [].
  rewrite <- Hl, Hsub by lia. repeat (destruct (_ =? _) || destruct (_ <? _); [done |]).
  apply IH. lia.
Qed.

(** ** Writing fields *)

Lemma readUInt32BE_ext a b off :
  (∀ i, off ≤ i < off + 4 → byte_at a i = byte_at b i) → readUInt32BE a off = readUInt32BE b off.
Proof. intros Hab. unfold readUInt32BE. by rewrite !Hab by lia. Qed.

Lemma readUInt16BE_ext a b off :
  (∀ i, off ≤ i < off + 2 → byte_at a i = byte_at b i) → readUInt16BE a off = readUInt16BE b off.
Proof. intros Hab. unfold readUInt16BE. by rewrite !Hab by lia. Qed.

Lemma writeUInt32BE_read b v off out :
  writeUInt32BE b v off = Ok out → readUInt32BE out off = Ok v.
Proof.
  unfold writeUInt32BE. destruct (_ && _); [|done]. intros Hw.
  assert (∀ i, 0 ≤ i < 4 → byte_at out (off + i) = byte_at (u32 v) i) as Hi.
  { intros i Hi. by eapply write_bytes_inside. }
  rewrite <- (readUInt32BE_u32 v []), app_nil_r. unfold readUInt32BE.
  rewrite <- (Z.add_0_r off) at 1. by rewrite !Hi by lia.
Qed.

Lemma writeUInt16BE_read b v off out :
  writeUInt16BE b v off = Ok out → readUInt16BE out off = Ok v.
Proof.
  unfold writeUInt16BE. destruct (_ && _); [|done]. intros Hw.
  assert (∀ i, 0 ≤ i < 2 → byte_at out (off + i) = byte_at (u16 v) i) as Hi.
  { intros i Hi. by eapply write_bytes_inside. }
  rewrite <- (readUInt16BE_u16 v []), app_nil_r. unfold readUInt16BE.
  rewrite <- (Z.add_0_r off) at 1. by rewrite !Hi by lia.
Qed.

Lemma write_bytes_total b off l :
  0 ≤ off → off + blen l ≤ blen b → ∃ out, write_bytes b off l = Ok out.
Proof. intros. eexists. by apply write_bytes_Ok. Qed.

Lemma age_ttls_spec offs lo hi out age :
  is_bytes out → 0 ≤ age → 0 ≤ lo → spaced lo hi offs → hi ≤ blen out →
  ∃ out', age_ttls out offs age = Ok out' ∧ length out' = length out ∧ is_bytes out' ∧
    (∀ i, (∀ off, off ∈ offs → i < off ∨ off + 4 ≤ i) → byte_at out' i = byte_at out i) ∧
    (∀ off t, off ∈ offs → readUInt32BE out off = Ok t →
       readUInt32BE out' off = Ok (Z.max 0 (t - age))).
Proof.
  intros Hb Ha. revert lo out Hb. induction offs as [|o offs IH]; intros lo out Hb Hlo Hs Hhi.
  { exists out. split_and!; try done. set_solver. }
  destruct Hs as [Ho Hs]. pose proof (spaced_le _ _ _ Hs). cbn [age_ttls].
  destruct (readUInt32BE_total out o) as [t Ht]; [lia.. |]. rewrite Ht. cbn [mbind res_bind].
  pose proof (readUInt32BE_range _ _ _ Hb Ht).
  set (v := if age <? t then t - age else 0).
  assert (v = Z.max 0 (t - age) ∧ 0 ≤ v < 4294967296) as [Hv Hvr].
  { unfold v. destruct (Z.ltb_spec age t); lia. }
  destruct (write_bytes_total out o (u32 v)) as [out1 Hw]; [lia | rewrite blen_u32; lia |].
  assert (writeUInt32BE out v o = Ok out1) as Hw' by by rewrite writeUInt32BE_ok.
  rewrite Hw'. cbn [mbind res_bind].
  pose proof (write_bytes_length _ _ _ _ Hw) as Hl1.
  pose proof (write_bytes_bytes _ _ _ _ Hb (u32_bytes _ Hvr) Hw) as Hb1.
  assert (∀ i, i < o ∨ o + 4 ≤ i → byte_at out1 i = byte_at out i) as Hout1.
  { intros i Hi. by eapply write_bytes_outside. }
  destruct (IH (o + 4) out1 Hb1 ltac:(lia) Hs) as (out' & Hrun & Hlen & Hb' & Hsame & Hset).
  { unfold blen in *. lia. }
  exists out'. split_and!; [done | lia | done | |].
  - intros i Hi. rewrite Hsame by set_solver. apply Hout1. set_solver.
  - intros off t' [->|Hoff]%elem_of_cons Ht'.
    + replace t' with t by congruence. rewrite <- Hv, <- (writeUInt32BE_read _ _ _ _ Hw'). apply readUInt32BE_ext.
      intros i Hi. apply Hsame. intros off Hoff.
      pose proof (spaced_elem _ _ _ _ Hs Hoff). lia.
    + apply Hset; [done |]. rewrite <- Ht'. apply readUInt32BE_ext. intros i Hi. apply Hout1.
      pose proof (spaced_elem _ _ _ _ Hs Hoff). lia.
Qed.

(** The guarded loop of [adaptResponse]. *)
Lemma age_step_spec offs lo hi out age :
  is_bytes out → 0 ≤ age → 0 ≤ lo → spaced lo hi offs → hi ≤ blen out →
  ∃ out', (if 0 <? age then age_ttls out offs age else Ok out) = Ok out' ∧
    length out' = length out ∧ is_bytes out' ∧
    (∀ i, (∀ off, off ∈ offs → i < off ∨ off + 4 ≤ i) → byte_at out' i = byte_at out i) ∧
    (∀ off t, off ∈ offs → readUInt32BE out off = Ok t →
       readUInt32BE out' off = Ok (Z.max 0 (t - age))).
Proof.
  intros Hb Ha Hlo Hs Hhi. destruct (Z.ltb_spec 0 age); [by eapply age_ttls_spec |].
  exists out. split_and!; try done. intros off t _ Ht.
  pose proof (readUInt32BE_range _ _ _ Hb Ht). rewrite Ht. f_equal. lia.
Qed.

Lemma copy_into_spec out src off :
  0 ≤ off → off + blen src ≤ blen out →
  length (copy_into out src off) = length out ∧
  (∀ i, i < off ∨ off + blen src ≤ i → byte_at (copy_into out src off) i = byte_at out i) ∧
  (∀ i, off ≤ i < off + blen src → byte_at (copy_into out src off) i = byte_at src (i - off)).
Proof.
  intros Ho Hl. assert (write_bytes out off src = Ok (copy_into out src off)) as Hw.
  { apply write_bytes_Ok. split_and!; [done | done |]. unfold copy_into. do 2 f_equal.
    apply take_ge. unfold blen in Hl. lia. }
  split_and!.
  - by eapply write_bytes_length.
  - intros i Hi. by eapply write_bytes_outside.
  - intros i Hi. rewrite <- (write_bytes_inside _ _ _ _ (i - off) Hw) by lia. f_equal. lia.
Qed.

Lemma copy_into_bytes out src off :
  is_bytes out → is_bytes src → is_bytes (copy_into out src off).
Proof.
  intros. unfold copy_into. rewrite !Forall_app. auto using Forall_take, Forall_drop.
Qed.

(** ** The adapted response *)

(** What may differ between [buf] and its adapted copy [out]: the id, the
    spelling of the question and the TTL fields. *)
Definition adapted (buf out : list Z) (id : Z) (question : list Z) (offs : list Z) (age : Z) : Prop :=
  length out = length buf ∧ is_bytes out ∧ readUInt16BE out 0 = Ok (Z.land id 65535) ∧
  (∀ off t, off ∈ offs → readUInt32BE buf off = Ok t →
     readUInt32BE out off = Ok (Z.max 0 (t - age))) ∧
  (∀ i, 2 ≤ i → (∀ off, off ∈ offs → i < off ∨ off + 4 ≤ i) →
     byte_at out i = byte_at buf i ∨
     (12 ≤ i < 12 + blen question ∧ byte_at out i = byte_at question (i - 12))).

Lemma drop_ext12 a b :
  length a = length b → (∀ i, 2 ≤ i → byte_at a i = byte_at b i) →
  drop (Z.to_nat 12) a = drop (Z.to_nat 12) b.
Proof.
  intros Hl Hab. apply list_eq. intros i. rewrite !lookup_drop.
  specialize (Hab (12 + Z.of_nat i) ltac:(lia)). unfold byte_at in Hab.
  destruct (Z.ltb_spec (12 + Z.of_nat i) 0); [lia |].
  by replace (Z.to_nat (12 + Z.of_nat i)) with (Z.to_nat 12 + i)%nat in Hab by lia.
Qed.

(** The question step: a copy, and only over the question section. *)
Lemma adapt_question buf out1 question e :
  is_bytes buf → is_bytes question → 12 ≤ blen buf →
  length out1 = length buf → is_bytes out1 → (∀ i, 2 ≤ i → byte_at out1 i = byte_at buf i) →
  question_end buf e →
  ∃ out2,
    (qd ← readUInt16BE buf 4;
     if (qd =? 1) && (12 + blen question <=? blen out1) then
       n ← readQuestionName out1 12;
       match n with
       | Some (_, e) => Ok (if e + 4 - 12 =? blen question then copy_into out1 question 12 else out1)
       | None => Ok out1
       end
     else Ok out1) = Ok out2 ∧
    length out2 = length buf ∧ is_bytes out2 ∧
    (∀ i, i < 12 ∨ e ≤ i → byte_at out2 i = byte_at out1 i) ∧
    (∀ i, byte_at out2 i = byte_at out1 i ∨
       (12 ≤ i < 12 + blen question ∧ byte_at out2 i = byte_at question (i - 12))).
Proof.
  intros Hb Hq Hlen Hl1 Hb1 Hsame He.
  destruct (readUInt16BE_total buf 4) as [qd Hqd]; [lia.. |]. rewrite Hqd. cbn [mbind res_bind].
  assert (∃ out2, Ok out1 = Ok out2 ∧ length out2 = length buf ∧ is_bytes out2 ∧
    (∀ i, i < 12 ∨ e ≤ i → byte_at out2 i = byte_at out1 i) ∧
    (∀ i, byte_at out2 i = byte_at out1 i ∨
       (12 ≤ i < 12 + blen question ∧ byte_at out2 i = byte_at question (i - 12)))) as Hkeep
    by (exists out1; split_and!; auto).
  destruct (Z.eqb_spec qd 1) as [->|]; [|done].
  destruct (Z.leb_spec (12 + blen question) (blen out1)) as [Hfit|]; [|done]. cbn [andb].
  pose proof (readQuestionName_fueled out1 12 Hb1) as Hf.
  destruct (readQuestionName out1 12) as [[[ls e']|]|msg|] eqn:Hn; [|done| |by destruct Hf].
  2:{ exfalso. by eapply readQuestionName_no_throw. }
  cbn [mbind res_bind]. destruct (Z.eqb_spec (e' + 4 - 12) (blen question)) as [Heq|]; [|done].
  rewrite (readQuestionName_ext out1 buf) in Hn
    by (done || apply drop_ext12; done || (intros; apply Hsame; lia)).
  apply readQuestionName_readName in Hn as [nm Hn]; [|done].
  destruct He as [[_ [nm' Hn']]|[Hqd0 _]]; [|congruence].
  assert (e' = e - 4) as ->.
  { congruence. }
  destruct (copy_into_spec out1 question 12) as (Hcl & Hco & Hci); [lia.. |].
  eexists. split; [done |]. split_and!.
  - congruence.
  - by apply copy_into_bytes.
  - intros i Hi. apply Hco. lia.
  - intros i. destruct (decide (12 ≤ i < 12 + blen question)); [right; auto | left; apply Hco; lia].
Qed.

(** Adapting a cached response never throws: it sets the client's id,
    ages every time to live, not below zero, may restore the client's spelling
    of the question, and changes no other byte. *)
Theorem adaptResponse_spec `{Unicode} buf rs id question age :
  is_bytes buf → is_bytes question → parseResponse buf = Ok (Some rs) → 0 ≤ age →
  ∃ out, adaptResponse buf id (Some question) (rs_ttlOffsets rs) age = Ok out ∧
    adapted buf out id question (rs_ttlOffsets rs) age.
Proof.
  intros Hb Hq Hr Ha.
  destruct (parseResponse_offsets buf rs Hb Hr) as (Hlen & e & He & He12 & Hs).
  assert (0 ≤ Z.land id 65535 < 65536) as Hid.
  { change 65535 with (Z.ones 16). rewrite Z.land_ones by lia. apply Z.mod_pos_bound. lia. }
  destruct (write_bytes_total buf 0 (u16 (Z.land id 65535))) as [out1 Hw]; [lia | rewrite blen_u16; lia |].
  assert (writeUInt16BE buf (Z.land id 65535) 0 = Ok out1) as Hw' by by rewrite writeUInt16BE_ok.
  pose proof (write_bytes_length _ _ _ _ Hw) as Hl1.
  pose proof (write_bytes_bytes _ _ _ _ Hb (u16_bytes _ Hid) Hw) as Hb1.
  assert (∀ i, 2 ≤ i → byte_at out1 i = byte_at buf i) as Hsame1.
  { intros i Hi. eapply write_bytes_outside; [done | rewrite blen_u16; lia]. }
  destruct (adapt_question buf out1 question e Hb Hq Hlen Hl1 Hb1 Hsame1 He)
    as (out2 & Hrun2 & Hl2 & Hb2 & Hout2 & Hin2).
  destruct (age_step_spec (rs_ttlOffsets rs) e (blen buf) out2 age)
    as (out3 & Hrun3 & Hl3 & Hb3 & Hsame3 & Hset3); [done | done | lia | done | unfold blen; lia |].
  exists out3. split.
  { unfold adaptResponse. rewrite Hw'. cbn [mbind res_bind]. by rewrite Hrun2. }
  assert (∀ off, off ∈ rs_ttlOffsets rs → e ≤ off) as Hoffs.
  { intros off Hoff. by pose proof (spaced_elem _ _ _ _ Hs Hoff) as []. }
  split_and!; [lia | done | | |].
  - rewrite <- (writeUInt16BE_read _ _ _ _ Hw'). apply readUInt16BE_ext. intros i Hi.
    rewrite Hsame3; [by apply Hout2; lia |]. intros off Hoff%Hoffs. lia.
  - intros off t Hoff Ht. apply Hset3; [done |]. rewrite <- Ht. apply readUInt32BE_ext.
    intros i Hi. apply Hoffs in Hoff. rewrite Hout2 by lia. apply Hsame1. lia.
  - intros i Hi Hfree. rewrite Hsame3 by done. rewrite <- (Hsame1 i Hi). apply Hin2.
Qed.

(** ** Example *)

(** A response to [a] with an address, cached for 40 seconds. *)
Definition sample_response : list Z :=
  [0; 9; 129; 128; 0; 1; 0; 1; 0; 0; 0; 0; 1; 97; 0; 0; 1; 0; 1; 192; 12; 0; 1; 0; 1; 0; 0; 0; 100; 0; 4; 1; 2; 3; 4].
Definition sample_question : list Z := [1; 65; 0; 0; 1; 0; 1].

Lemma adaptResponse_spec_witness : ∃ rs out,
  @parseResponse ascii_unicode sample_response = Ok (Some rs) ∧
  adaptResponse sample_response 77 (Some sample_question) (rs_ttlOffsets rs) 40 = Ok out ∧
  adapted sample_response out 77 sample_question (rs_ttlOffsets rs) 40.
Proof.
  destruct (@parseResponse ascii_unicode sample_response) as [[rs|]| |] eqn:Hp; [|by vm_compute in Hp..].
  destruct (@adaptResponse_spec ascii_unicode sample_response rs 77 sample_question 40) as (out & Ho & Ha);
    [by repeat constructor; vm_compute; congruence.. | exact Hp | lia |].
  exists rs, out. by split_and!.
Defined.
