(* ===== verification/DomainSet.v ===== *)
(** * src/dns/domainSet.js

    Compact domain sets of the DNS filter: the 53-bit hash of a name, the
    growing hash buffer, binary search in sorted hash arrays, loaded block
    lists and small pattern sets. *)

From S2P Require Import Prelude JsBuffer NetwatchDnsWire.
From stdpp Require Import sorting.

Local Open Scope Z_scope.

(** ** Hashing and names *)

Definition TWO32 : Z := 4294967296.

(** One round of [hash53] (shared with the byte-wise hash of listParser.js). *)
Definition hash_step (h : Z * Z) (c : Z) : Z * Z :=
  let h1 := imul (xor32 h.1 c) 16777619 in
  let h2 := imul (xor32 h.2 c) 1540483477 in
  (h1, xor32 h2 (ushr h2 13)).
Definition hash_init : Z * Z := (2166136261, 2538058380).
Definition hash_final (h : Z * Z) : Z :=
  let h2 := imul (xor32 h.2 (ushr h.2 15)) 2246822507 in
  let h2 := xor32 h2 (ushr h2 16) in
  Z.land (int32 h.1) 2097151 * TWO32 + ushr h2 0.

Definition hash53 (s : jstr) : Z := hash_final (fold_left hash_step s hash_init).

(** The pieces after each dot. *)
Fixpoint tails (name : jstr) : list jstr :=
  match name with
  | [] => []
  | c :: r => if c =? dot then r :: tails r else tails r
  end.
Definition suffixes (name : jstr) : list jstr := name :: tails name.

(** [LABEL_RE = /^[a-z0-9_]([a-z0-9_-]{0,61}[a-z0-9_])?$/] *)
Definition label_edge (c : Z) : bool := is_lower c || is_digit c || (c =? 95).
Definition label_mid (c : Z) : bool := label_edge c || (c =? 45).
Definition label_re (l : jstr) : bool :=
  match l with
  | [] => false
  | c :: r =>
      label_edge c &&
      match reverse r with
      | [] => true
      | d :: m => label_edge d && forallb label_mid m && (Z.of_nat (length m) <=? 61)
      end
  end.

(** [s.endsWith('.') ? s.slice(0, -1) : s] *)
Definition drop_dot (s : jstr) : jstr :=
  if ends_with [dot] s then take (length s - 1) s else s.

Section CleanDomain.
Context `{Unicode}.

(** The part of [cleanDomain] after the IDN step. *)
Definition check_domain (allowSingleLabel : bool) (s : jstr) : option jstr :=
  if nonempty s && forallb (λ c, is_digit c || (c =? dot)) s then None
  else
    let labels := split_on dot s in
    if negb allowSingleLabel && (Z.of_nat (length labels) <? 2) then None
    else if forallb label_re labels then Some s else None.

Definition cleanDomain (allowSingleLabel : bool) (raw : jstr) : option jstr :=
  let s := drop_dot (toLowerCase (trim raw)) in
  if negb (nonempty s) || (253 <? Z.of_nat (length s)) then None
  else if existsb (λ c, 127 <? c) s then
    let s := domainToASCII s in
    if nonempty s then check_domain allowSingleLabel s else None
  else check_domain allowSingleLabel s.
End CleanDomain.

(** ** Sorted arrays *)

Definition arr_at (arr : list Z) (i : Z) : Z := default 0 (byte_at arr i).

(** [while (lo < hi)], cut off by [fuel]. *)
Fixpoint lowerBound_loop (fuel : nat) (arr : list Z) (v lo hi : Z) : res Z :=
  match fuel with
  | O => NoFuel
  | S fuel =>
      if lo <? hi then
        let mid := Z.shiftr (lo + hi) 1 in
        if arr_at arr mid <? v then lowerBound_loop fuel arr v (mid + 1) hi
        else lowerBound_loop fuel arr v lo mid
      else Ok lo
  end.
Definition lowerBound (arr : list Z) (v : Z) : res Z :=
  lowerBound_loop (S (length arr)) arr v 0 (blen arr).

Definition hasHash (arr : list Z) (v : Z) : res bool :=
  i ← lowerBound arr v;
  Ok ((i <? blen arr) && (arr_at arr i =? v)).

(** [for (const x of h) if (hasHash(arr, x)) return true;] *)
Fixpoint hasAny (arr h : list Z) : res bool :=
  match h with
  | [] => Ok false
  | x :: h => b ← hasHash arr x; if b : bool then Ok true else hasAny arr h
  end.

(** ** The hash buffer: a typed array [hb_buf] of which [hb_n] slots are used *)

Record HashBuilder := HB { hb_buf : list Z; hb_n : nat }.

Definition newHashBuilder (initial : nat) : HashBuilder := HB (replicate initial 0) 0.

(** A store outside a typed array does nothing, as stdpp's list insert. *)
Definition addHash (b : HashBuilder) (h : Z) : HashBuilder :=
  let buf := if bool_decide (hb_n b = length (hb_buf b))
             then hb_buf b ++ replicate (length (hb_buf b)) 0 else hb_buf b in
  HB (<[hb_n b := h]> buf) (S (hb_n b)).

Definition hb_add (b : HashBuilder) (domain : jstr) : HashBuilder := addHash b (hash53 domain).

(** The in-place removal of duplicates: [r] reads, [w] writes. *)
Fixpoint dedup_loop (k r w : nat) (a : list Z) : list Z * nat :=
  match k with
  | O => (a, w)
  | S k =>
      let x := default 0 (a !! r) in
      let same := match r with O => false | S p => x =? default 0 (a !! p) end in
      if same then dedup_loop k (S r) w a
      else dedup_loop k (S r) (S w) (<[w := x]> a)
  end.

(** [finish()]: sort the used part, drop duplicates, keep the first [w].  Both
    ways of returning them (a view of the buffer or a copy) have these values. *)
Definition finish (b : HashBuilder) : list Z :=
  let a := merge_sort Z.le (take (hb_n b) (hb_buf b)) in
  let '(a, w) := dedup_loop (length a) 0 0 a in
  take w a.

(** ** Lists *)

Record CompactList := Compact { cl_suffix : list Z; cl_exact : list Z; cl_except : list Z }.

Definition cl_size (l : CompactList) : Z := blen (cl_suffix l) + blen (cl_exact l).
Definition cl_bytes (l : CompactList) : Z :=
  (blen (cl_suffix l) + blen (cl_exact l) + blen (cl_except l)) * 8.

(** [h] are the hashes of all suffixes, the whole name first. *)
Definition matchHashes (l : CompactList) (h : list Z) : res bool :=
  ex ← (if 0 <? blen (cl_except l) then hasAny (cl_except l) h else Ok false);
  if ex : bool then Ok false
  else
    eq ← (if 0 <? blen (cl_exact l)
          then match h with x :: _ => hasHash (cl_exact l) x | [] => Ok false end
          else Ok false);
    if eq : bool then Ok true
    else if 0 <? blen (cl_suffix l) then hasAny (cl_suffix l) h else Ok false.

Definition cl_matches (l : CompactList) (name : jstr) : res bool :=
  matchHashes l (hash53 <$> suffixes name).

(** ** Small pattern sets *)

Record PatternSet := Patterns { ps_incl : gset jstr; ps_sub : gset jstr }.
Definition ps_empty : PatternSet := Patterns ∅ ∅.

Section PatternSets.
Context `{Unicode}.

(** [add(p)]; ['*.example.com'] covers subdomains only. *)
Definition ps_add (s : PatternSet) (p : jstr) : PatternSet :=
  let wild := starts_with (js "*.") (trim p) in
  match cleanDomain false (if wild then drop 2 (trim p) else p) with
  | None => s
  | Some d => if wild then Patterns (ps_incl s) ({[d]} ∪ ps_sub s)
              else Patterns ({[d]} ∪ ps_incl s) (ps_sub s)
  end.

Definition newPatternSet (patterns : list jstr) : PatternSet := fold_left ps_add patterns ps_empty.
End PatternSets.

Definition ps_matches (s : PatternSet) (name : jstr) : bool :=
  if bool_decide (size (ps_incl s) + size (ps_sub s) = 0)%nat then false
  else if bool_decide (name ∈ ps_incl s) then true
  else existsb (λ t, bool_decide (t ∈ ps_incl s) || bool_decide (t ∈ ps_sub s)) (tails name).

(** ** Hash range *)

Lemma land_ones_range z n : 0 ≤ n → 0 ≤ Z.land z (Z.ones n) < 2 ^ n.
Proof. intros. rewrite Z.land_ones by done. apply Z.mod_pos_bound. lia. Qed.

Lemma ushr_range a n : 0 ≤ n → 0 ≤ ushr a n < TWO32.
Proof.
  intros. unfold ushr. pose proof (uint32_range a). rewrite Z.shiftr_div_pow2 by done.
  pose proof (Z.pow_pos_nonneg 2 n). split; [apply Z.div_pos; lia |].
  apply Z.div_lt_upper_bound; [lia |]. unfold TWO32. nia.
Qed.

Lemma hash_final_range h : 0 ≤ hash_final h < 2 ^ 53.
Proof.
  unfold hash_final. pose proof (land_ones_range (int32 h.1) 21) as Hl.
  change (Z.ones 21) with 2097151 in Hl.
  match goal with |- context [ushr ?a 0] => pose proof (ushr_range a 0) end.
  unfold TWO32 in *. lia.
Qed.

Lemma hash53_range s : 0 ≤ hash53 s < 2 ^ 53.
Proof. apply hash_final_range. Qed.

(** ** Binary search *)

Definition ascending (arr : list Z) : Prop :=
  ∀ i j x y, (i ≤ j)%nat → arr !! i = Some x → arr !! j = Some y → x ≤ y.

Lemma ascending_nil : ascending [].
Proof. intros i j x y _ Hx. by rewrite lookup_nil in Hx. Qed.

Lemma arr_at_lookup arr i : 0 ≤ i < blen arr → arr !! Z.to_nat i = Some (arr_at arr i).
Proof.
  intros Hi. unfold arr_at. destruct (byte_at_is_Some arr i Hi) as [x Hx]. rewrite Hx. simpl.
  unfold byte_at in Hx. by destruct (i <? 0).
Qed.

Lemma ascending_arr_at arr i j :
  ascending arr → 0 ≤ i ≤ j → j < blen arr → arr_at arr i ≤ arr_at arr j.
Proof.
  intros Ha Hi Hj. eapply (Ha (Z.to_nat i) (Z.to_nat j)); [lia | |]; apply arr_at_lookup; lia.
Qed.

Lemma lowerBound_loop_spec fuel arr v lo hi :
  ascending arr → 0 ≤ lo ≤ hi → hi ≤ blen arr → hi - lo < Z.of_nat fuel →
  (∀ i, 0 ≤ i < lo → arr_at arr i < v) → (∀ i, hi ≤ i < blen arr → v ≤ arr_at arr i) →
  ∃ r, lowerBound_loop fuel arr v lo hi = Ok r ∧ 0 ≤ r ≤ blen arr ∧
    (∀ i, 0 ≤ i < r → arr_at arr i < v) ∧ (∀ i, r ≤ i < blen arr → v ≤ arr_at arr i).
Proof.
  intros Ha. revert lo hi. induction fuel as [|fuel IH]; intros lo hi Hlo Hhi Hf Hbelow Habove; [lia |].
  cbn [lowerBound_loop]. destruct (Z.ltb_spec lo hi); last first.
  { exists lo. split_and!; [done | lia.. | done |]. intros i Hi. apply Habove. lia. }
  rewrite Z.shiftr_div_pow2 by lia. change (2 ^ 1) with 2. set (mid := (lo + hi) / 2).
  assert (lo ≤ mid < hi) as Hmid by (unfold mid; Z.div_mod_to_equations; lia).
  clearbody mid. destruct (Z.ltb_spec (arr_at arr mid) v); apply IH; try lia; try done.
  - intros i Hi. pose proof (ascending_arr_at arr i mid Ha). lia.
  - intros i Hi. pose proof (ascending_arr_at arr mid i Ha). lia.
Qed.

(** On a sorted array the search terminates at the insertion point. *)
Lemma lowerBound_spec arr v :
  ascending arr →
  ∃ r, lowerBound arr v = Ok r ∧ 0 ≤ r ≤ blen arr ∧
    (∀ i, 0 ≤ i < r → arr_at arr i < v) ∧ (∀ i, r ≤ i < blen arr → v ≤ arr_at arr i).
Proof.
  intros Ha. unfold lowerBound. pose proof (blen_nonneg arr).
  apply lowerBound_loop_spec; try done; try lia. unfold blen. lia.
Qed.

Lemma hasHash_spec arr v : ascending arr → hasHash arr v = Ok (bool_decide (v ∈ arr)).
Proof.
  intros Ha. unfold hasHash. destruct (lowerBound_spec arr v Ha) as (r & -> & Hr & Hlt & Hge).
  cbn [mbind res_bind]. f_equal. symmetry.
  destruct (Z.ltb_spec r (blen arr)) as [Hlr|Hlr]; cbn [andb].
  - destruct (Z.eqb_spec (arr_at arr r) v) as [<-|Hne].
    + apply bool_decide_eq_true_2. eapply list_elem_of_lookup_2. apply arr_at_lookup. lia.
    + apply bool_decide_eq_false_2. intros [i Hi]%list_elem_of_lookup_1.
      assert (0 ≤ Z.of_nat i < blen arr) as Hib.
      { apply lookup_lt_Some in Hi. unfold blen. lia. }
      assert (arr_at arr (Z.of_nat i) = v) as Hiv.
      { pose proof (arr_at_lookup arr _ Hib) as Hl. rewrite Nat2Z.id in Hl. congruence. }
      destruct (decide (Z.of_nat i < r)) as [Hlt'|].
      * specialize (Hlt (Z.of_nat i)). lia.
      * pose proof (ascending_arr_at arr r (Z.of_nat i) Ha). specialize (Hge r). lia.
  - apply bool_decide_eq_false_2. intros [i Hi]%list_elem_of_lookup_1.
    assert (0 ≤ Z.of_nat i < blen arr) as Hib.
    { apply lookup_lt_Some in Hi. unfold blen. lia. }
    pose proof (arr_at_lookup arr _ Hib) as Hl. rewrite Nat2Z.id in Hl.
    specialize (Hlt (Z.of_nat i)). assert (arr_at arr (Z.of_nat i) = v) by congruence. lia.
Qed.

Lemma hasAny_spec arr h :
  ascending arr → hasAny arr h = Ok (existsb (λ x, bool_decide (x ∈ arr)) h).
Proof.
  intros Ha. induction h as [|x h IH]; [done |]. cbn [hasAny existsb].
  rewrite hasHash_spec by done. cbn [mbind res_bind].
  by destruct (bool_decide (x ∈ arr)).
Qed.

(** ** The hash buffer *)

Definition hb_contents (b : HashBuilder) : list Z := take (hb_n b) (hb_buf b).
Definition hb_ok (b : HashBuilder) : Prop :=
  (hb_n b ≤ length (hb_buf b))%nat ∧ (0 < length (hb_buf b))%nat.

Lemma newHashBuilder_ok n : (0 < n)%nat → hb_ok (newHashBuilder n) ∧ hb_contents (newHashBuilder n) = [].
Proof. intros. split; [|done]. split; simpl; rewrite length_replicate; lia. Qed.

(** Growing never loses a hash: adding appends to the contents. *)
Lemma addHash_contents b h :
  hb_ok b → hb_ok (addHash b h) ∧ hb_contents (addHash b h) = hb_contents b ++ [h].
Proof.
  destruct b as [buf n]. unfold hb_ok, hb_contents, addHash. cbn [hb_buf hb_n]. intros [Hn H0].
  set (buf' := if bool_decide _ then _ else _).
  assert (take n buf' = take n buf ∧ (n < length buf')%nat) as [Ht Hl].
  { unfold buf'. case_bool_decide; [|split; [done | lia]].
    rewrite length_app, length_replicate, take_app_le by lia. split; [done | lia]. }
  rewrite length_insert. split; [split; lia |].
  rewrite (take_S_r _ _ h) by (by apply list_lookup_insert_eq).
  by rewrite take_insert_ge, Ht by lia.
Qed.

(** Reference duplicate removal on adjacent elements. *)
Definition dd_step (acc : list Z) (x : Z) : list Z :=
  if bool_decide (last acc = Some x) then acc else acc ++ [x].
Definition dd (l : list Z) : list Z := fold_left dd_step l [].

Lemma dd_snoc l x : dd (l ++ [x]) = dd_step (dd l) x.
Proof. unfold dd. by rewrite fold_left_app. Qed.

Lemma dd_last l : last (dd l) = last l.
Proof.
  induction l as [|x l IH] using rev_ind; [done |].
  rewrite dd_snoc, last_snoc. unfold dd_step. case_bool_decide; [done |]. by rewrite last_snoc.
Qed.

Lemma elem_of_dd l x : x ∈ dd l ↔ x ∈ l.
Proof.
  induction l as [|y l IH] using rev_ind; [done |].
  rewrite dd_snoc, elem_of_app. unfold dd_step. case_bool_decide as Hl; [|set_solver].
  rewrite IH. rewrite dd_last in Hl. apply last_Some_elem_of in Hl. set_solver.
Qed.

Lemma dd_sorted l : StronglySorted Z.le l → StronglySorted Z.lt (dd l).
Proof.
  induction l as [|x l IH] using rev_ind; intros Hs; [constructor |].
  rewrite dd_snoc. unfold dd_step. apply StronglySorted_app in Hs as (Hle & Hs & _).
  case_bool_decide as Hl; [by apply IH |]. apply StronglySorted_app_2; [| by apply IH | by repeat constructor].
  intros y ? Hy ->%list_elem_of_singleton. rewrite elem_of_dd in Hy. rewrite dd_last in Hl.
  assert (y ≤ x) by (apply Hle; set_solver). destruct (decide (y = x)) as [->|]; [|lia].
  (* x is in l and an upper bound of it, hence its last element *)
  destruct Hl. destruct l as [|z l _] using rev_ind; [set_solver |]. rewrite last_snoc. f_equal.
  apply StronglySorted_app in Hs as (Hz & _ & _).
  assert (z ≤ x) by (apply Hle; set_solver).
  apply elem_of_app in Hy as [Hy|Hy]; [|set_solver].
  assert (x ≤ z) by (apply Hz; set_solver). lia.
Qed.

Lemma dedup_loop_spec a0 k r w a :
  length a = length a0 → (r + k = length a0)%nat → (w ≤ r)%nat → drop r a = drop r a0 →
  (∀ p, r = S p → a !! p = a0 !! p) → take w a = dd (take r a0) →
  let '(a', w') := dedup_loop k r w a in take w' a' = dd a0.
Proof.
  revert r w a. induction k as [|k IH]; intros r w a Hl Hk Hw Hd Hp Ht; cbn [dedup_loop].
  { rewrite Ht. by rewrite take_ge by lia. }
  destruct (lookup_lt_is_Some_2 a0 r) as [x Hx]; [lia |].
  assert (a !! r = Some x) as Hax.
  { rewrite <- (Nat.add_0_r r), <- lookup_drop, Hd, lookup_drop, Nat.add_0_r. done. }
  rewrite Hax. cbn [default from_option id].
  assert (dd (take (S r) a0) = dd_step (dd (take r a0)) x) as Hdd
    by by rewrite (take_S_r _ _ x), dd_snoc.
  assert (drop (S r) a = drop (S r) a0) as Hd'.
  { by rewrite <- (Nat.add_1_r r), <- !drop_drop, Hd. }
  assert (last (dd (take r a0)) = match r with O => None | S p => a !! p end) as Hlast.
  { rewrite dd_last. destruct r as [|p]; [done |]. rewrite Hp by done.
    destruct (lookup_lt_is_Some_2 a0 p) as [y Hy]; [lia |].
    by rewrite (take_S_r _ _ y), last_snoc. }
  destruct (match r with O => false | S p => x =? default 0 (a !! p) end) eqn:Hsame.
  - apply IH; try lia; try done; [by intros p [= <-]; congruence |].
    rewrite Hdd, Ht. unfold dd_step. rewrite bool_decide_eq_true_2; [done |].
    destruct r as [|p]; [done |]. rewrite Hlast. apply Z.eqb_eq in Hsame as ->.
    rewrite Hp by done. destruct (lookup_lt_is_Some_2 a0 p) as [y Hy]; [lia |]. by rewrite Hy.
  - apply IH; try lia.
    + by rewrite length_insert.
    + rewrite drop_insert_lt by lia. done.
    + intros p [= <-]. destruct (decide (w = r)) as [->|].
      * rewrite list_lookup_insert_eq by lia. done.
      * rewrite list_lookup_insert_ne by lia. congruence.
    + rewrite (take_S_r _ _ x) by (apply list_lookup_insert_eq; lia).
      rewrite take_insert_ge, Ht, Hdd by lia. unfold dd_step.
      rewrite bool_decide_eq_false_2; [done |]. rewrite Hlast.
      destruct r as [|p]; [done |]. intros Heq. rewrite Heq in Hsame. simpl in Hsame. lia.
Qed.

(** [finish] is sorting followed by the reference duplicate removal. *)
Lemma finish_dd b : finish b = dd (merge_sort Z.le (hb_contents b)).
Proof.
  unfold finish. fold (hb_contents b). set (a := merge_sort _ _).
  pose proof (dedup_loop_spec a (length a) 0 0 a) as Hspec.
  destruct (dedup_loop (length a) 0 0 a) as [a' w']. by apply Hspec.
Qed.

Lemma finish_sorted b : StronglySorted Z.lt (finish b).
Proof. rewrite finish_dd. apply dd_sorted, StronglySorted_merge_sort; apply _. Qed.

Lemma elem_of_finish b x : x ∈ finish b ↔ x ∈ hb_contents b.
Proof. rewrite finish_dd, elem_of_dd. by rewrite merge_sort_Permutation. Qed.

Lemma StronglySorted_ascending l : StronglySorted Z.lt l → ascending l.
Proof.
  intros Hs i j x y Hij Hx Hy. destruct (decide (i = j)) as [->|]; [replace y with x by congruence; lia |].
  assert (x < y); [|lia]. revert i j x y Hij Hx Hy n.
  induction Hs as [|z l Hs IH Hz]; intros i j x y Hij Hx Hy Hn; [done |].
  destruct j as [|j]; [lia |]. destruct i as [|i].
  - injection Hx as <-. by apply (Forall_lookup_1 _ _ _ _ Hz Hy).
  - apply (IH i j); [lia | done | done | lia].
Qed.

Lemma finish_ascending b : ascending (finish b).
Proof. apply StronglySorted_ascending, finish_sorted. Qed.

(** ** Matching *)

Definition cl_ok (l : CompactList) : Prop :=
  ascending (cl_suffix l) ∧ ascending (cl_exact l) ∧ ascending (cl_except l).

(** The empty-array short cuts do not change the answer. *)
Lemma matchHashes_spec l x h :
  cl_ok l →
  matchHashes l (x :: h) = Ok (
    negb (existsb (λ y, bool_decide (y ∈ cl_except l)) (x :: h)) &&
    (bool_decide (x ∈ cl_exact l) || existsb (λ y, bool_decide (y ∈ cl_suffix l)) (x :: h))).
Proof.
  intros (Hs & He & Hx). unfold matchHashes.
  assert (∀ arr k, ascending arr → (if 0 <? blen arr then hasAny arr k else Ok false)
            = Ok (existsb (λ y, bool_decide (y ∈ arr)) k)) as Hany.
  { intros arr k Ha. destruct (Z.ltb_spec 0 (blen arr)); [by apply hasAny_spec |].
    destruct arr; [|autorewrite with jsbytes in *; pose proof (blen_nonneg arr); lia].
    f_equal. by induction k. }
  rewrite !Hany by done. cbn [mbind res_bind].
  destruct (existsb (λ y, bool_decide (y ∈ cl_except l)) (x :: h)); [done |]. cbn [negb andb].
  assert ((if 0 <? blen (cl_exact l) then hasHash (cl_exact l) x else Ok false)
          = Ok (bool_decide (x ∈ cl_exact l))) as ->.
  { specialize (Hany (cl_exact l) [x] He). cbn [hasAny existsb] in Hany.
    rewrite hasHash_spec in * by done. cbn [mbind res_bind] in Hany. rewrite orb_false_r in Hany.
    destruct (0 <? _); [done | by rewrite <- Hany]. }
  cbn [mbind res_bind]. by destruct (bool_decide _).
Qed.

Lemma elem_of_tails t name : t ∈ tails name ↔ ∃ p, name = p ++ dot :: t.
Proof.
  induction name as [|c name IH]; cbn [tails].
  - rewrite elem_of_nil. split; [done |]. intros [[|] ?]; done.
  - destruct (Z.eqb_spec c dot) as [->|Hc]; rewrite ?elem_of_cons, IH; split.
    + intros [->|[p ->]]; [by exists [] | by exists (dot :: p)].
    + intros [[|c p] Hp]; simplify_list_eq; eauto.
    + intros [p ->]. by exists (c :: p).
    + intros [[|c' p] Hp]; simplify_list_eq; eauto.
Qed.

(** [s] is the domain [d] or one of its subdomains. *)
Definition in_domain (d name : jstr) : Prop := name = d ∨ ∃ p, name = p ++ dot :: d.

Lemma elem_of_suffixes d name : d ∈ suffixes name ↔ in_domain d name.
Proof. unfold suffixes, in_domain. rewrite elem_of_cons, elem_of_tails. naive_solver. Qed.

Lemma ps_matches_spec s name :
  ps_matches s name = true ↔
  (∃ d, d ∈ ps_incl s ∧ in_domain d name) ∨ (∃ d p, d ∈ ps_sub s ∧ name = p ++ dot :: d).
Proof.
  unfold ps_matches. case_bool_decide as Hz.
  - assert (ps_incl s ≡ ∅ ∧ ps_sub s ≡ ∅) as [Hi Hs] by (split; apply size_empty_iff; lia).
    split; [done |]. intros [(d & Hd & _)|(d & p & Hd & _)]; set_solver.
  - unfold in_domain. case_bool_decide as Hn; [split; [eauto | done] |].
    rewrite existsb_exists. setoid_rewrite orb_true_iff. setoid_rewrite bool_decide_eq_true.
    setoid_rewrite <- list_elem_of_In. setoid_rewrite elem_of_tails. naive_solver.
Qed.

Section DomainFacts.
Context `{Unicode}.

Definition is_wild (p : jstr) : bool := starts_with (js "*.") (trim p).
Definition pattern_domain (p : jstr) : option jstr :=
  cleanDomain false (if is_wild p then drop 2 (trim p) else p).

Lemma ps_add_spec s p d :
  (d ∈ ps_incl (ps_add s p) ↔
     d ∈ ps_incl s ∨ (is_wild p = false ∧ pattern_domain p = Some d)) ∧
  (d ∈ ps_sub (ps_add s p) ↔
     d ∈ ps_sub s ∨ (is_wild p = true ∧ pattern_domain p = Some d)).
Proof.
  unfold ps_add, pattern_domain. change (starts_with (js "*.") (trim p)) with (is_wild p).
  destruct (cleanDomain false _) as [d'|]; [|naive_solver].
  destruct (is_wild p); simpl; rewrite elem_of_union, elem_of_singleton; naive_solver.
Qed.

Lemma newPatternSet_spec patterns d :
  (d ∈ ps_incl (newPatternSet patterns) ↔
     ∃ p, p ∈ patterns ∧ is_wild p = false ∧ pattern_domain p = Some d) ∧
  (d ∈ ps_sub (newPatternSet patterns) ↔
     ∃ p, p ∈ patterns ∧ is_wild p = true ∧ pattern_domain p = Some d).
Proof.
  unfold newPatternSet. induction patterns as [|p l IH] using rev_ind.
  { simpl. split; (split; [set_solver |]); intros (p & Hp & _); set_solver. }
  rewrite fold_left_app. cbn [fold_left]. rewrite !(proj1 (ps_add_spec _ p d)).
  rewrite !(proj2 (ps_add_spec _ p d)). destruct IH as [-> ->].
  setoid_rewrite elem_of_app. setoid_rewrite list_elem_of_singleton.
  split; split; intros; destruct_or?; destruct_and?; naive_solver.
Qed.
End DomainFacts.
