(* ===== verification/ListParser.v ===== *)
(** * src/dns/listParser.js

    Block lists are parsed on raw bytes: one pass validates and hashes a name,
    a line parser per format, and a stream parser that works on chunks of any
    size and bounds line length and entry count. *)

From S2P Require Import Prelude JsBuffer NetwatchDnsWire DomainSet.

Local Open Scope Z_scope.

Inductive list_format := Domains | Hosts | Adblock.
Inductive entry_kind := KSuffix | KExact | KExcept.

#[export] Instance list_format_eq : EqDecision list_format.
Proof. solve_decision. Defined.
#[export] Instance entry_kind_eq : EqDecision entry_kind.
Proof. solve_decision. Defined.

Definition MAX_LINE : Z := 1024.
Definition NL : Z := 10.
Definition HOSTS_SKIP : list Z :=
  hash53 <$> [js "localhost.localdomain"; js "local.localdomain"; js "ip6-localhost.localdomain"].
Definition ADBLOCK_OPTS : list jstr := [js ""; js "$important"; js "$all"; js "$document"].

Definition isSpace (c : Z) : bool := (c =? 32) || (c =? 9) || (c =? 13) || (c =? 11) || (c =? 12).
Definition isAlnum (c : Z) : bool := ((97 <=? c) && (c <=? 122)) || ((48 <=? c) && (c <=? 57)).

(** ** Validating and hashing a name in one pass *)

(** The loop's variables. *)
Record scan := Scan { sc_h : Z * Z; sc_labelLen : Z; sc_dots : Z; sc_prev : Z; sc_alpha : bool }.
(** [Hash], [null] or [undefined] (a non-ASCII byte: take the slow path). *)
Inductive dhash := Hash (h : Z) | Invalid | NonAscii.

Fixpoint scan_loop (l : list Z) (st : scan) : scan + dhash :=
  match l with
  | [] => inl st
  | c :: l =>
      if 128 <=? c then inr NonAscii
      else
        let c := if (65 <=? c) && (c <=? 90) then c + 32 else c in
        let next labelLen dots alpha :=
          scan_loop l (Scan (hash_step (sc_h st) c) labelLen dots c alpha) in
        if c =? 46 then
          if (sc_labelLen st =? 0) || (sc_prev st =? 45) then inr Invalid
          else next 0 (sc_dots st + 1) (sc_alpha st)
        else if isAlnum c || (c =? 95) || ((c =? 45) && (0 <? sc_labelLen st)) then
          if 63 <? sc_labelLen st + 1 then inr Invalid
          else next (sc_labelLen st + 1) (sc_dots st) (if 57 <? c then true else sc_alpha st)
        else inr Invalid
  end.

Definition hashDomainBytes (buf : list Z) (s e : Z) : dhash :=
  let e := if (s <? e) && bool_decide (byte_at buf (e - 1) = Some 46) then e - 1 else e in
  let len := e - s in
  if (len <? 3) || (253 <? len) then Invalid
  else
    match scan_loop (subarray buf s e) (Scan hash_init 0 0 46 false) with
    | inr r => r
    | inl st =>
        if (sc_labelLen st =? 0) || (sc_prev st =? 45) || (sc_dots st =? 0) || negb (sc_alpha st)
        then Invalid else Hash (hash_final (sc_h st))
    end.

(** [buf[i] === c], false outside the buffer. *)
Definition byte_is (buf : list Z) (i c : Z) : bool := bool_decide (byte_at buf i = Some c).

(** The number of leading elements satisfying [f]. *)
Fixpoint count_while (f : Z → bool) (l : list Z) : nat :=
  match l with c :: l => if f c then S (count_while f l) else 0 | [] => 0 end.

(** [while (s < e && f(buf[s])) s++] and [while (e > s && f(buf[e - 1])) e--] *)
Definition skip_fwd (f : Z → bool) (buf : list Z) (s e : Z) : Z :=
  s + Z.of_nat (count_while f (subarray buf s e)).
Definition skip_bwd (f : Z → bool) (buf : list Z) (s e : Z) : Z :=
  e - Z.of_nat (count_while f (reverse (subarray buf s e))).

Definition isIpToken (buf : list Z) (s e : Z) : bool :=
  if (e - s <? 2) || (39 <? e - s) then false
  else forallb (λ c, let c := Z.lor c 32 in
         ((48 <=? c) && (c <=? 57)) || (c =? 46) || (c =? 58) || ((97 <=? c) && (c <=? 102)))
       (subarray buf s e).

Section Lines.
Context `{Unicode}.

Definition domainHash (buf : list Z) (s e : Z) : option Z :=
  match hashDomainBytes buf s e with
  | Hash h => Some h
  | Invalid => None
  | NonAscii => hash53 <$> cleanDomain false (utf8_decode (subarray buf s e))
  end.

(** The token loop of a hosts line; the calls of [add] in order. *)
Fixpoint hosts_tokens (fuel : nat) (buf : list Z) (p e : Z) : res (list (entry_kind * Z)) :=
  match fuel with
  | O => NoFuel
  | S fuel =>
      if p <? e then
        let t := skip_fwd isSpace buf p e in
        let p := skip_fwd (λ c, negb (isSpace c)) buf t e in
        let here := if t <? p then
                      match domainHash buf t p with
                      | Some h => if bool_decide (h ∈ HOSTS_SKIP) then [] else [(KExact, h)]
                      | None => []
                      end
                    else [] in
        rest ← hosts_tokens fuel buf p e;
        Ok (here ++ rest)
      else Ok []
  end.

(** One line [buf[s, e)]: the entries it adds; the code returns whether
    there is one. *)
Definition parseLineBytes (buf : list Z) (s e : Z) (format : list_format)
    : res (list (entry_kind * Z)) :=
  let s := skip_fwd isSpace buf s e in
  let e := skip_bwd isSpace buf s e in
  if e <=? s then Ok []
  else
    let first := default 0 (byte_at buf s) in
    match format with
    | Adblock =>
        if (first =? 33) || (first =? 91) || (first =? 35) then Ok []
        else
          let ex := (first =? 64) && byte_is buf (s + 1) 64 in
          let p := if ex then s + 2 else s in
          if negb (byte_is buf p 124) || negb (byte_is buf (p + 1) 124) then Ok []
          else
            let p := p + 2 in
            let caret := index_of 94 buf p in
            if (caret =? -1) || (e <=? caret) then Ok []
            else if negb (bool_decide (subarray buf (caret + 1) e ∈ ADBLOCK_OPTS)) then Ok []
            else match domainHash buf p caret with
                 | None => Ok []
                 | Some h => Ok [(if ex then KExcept else KSuffix, h)]
                 end
    | _ =>
        if (first =? 35) || (first =? 33) then Ok []
        else
          let hashPos := index_of 35 buf s in
          let e := if negb (hashPos =? -1) && (hashPos <? e)
                   then skip_bwd isSpace buf s hashPos else e in
          match format with
          | Hosts =>
              let p := skip_fwd (λ c, negb (isSpace c)) buf s e in
              if negb (isIpToken buf s p) then Ok []
              else hosts_tokens (S (Z.to_nat (e - p))) buf p e
          | _ =>
              if existsb isSpace (subarray buf s e) then Ok []
              else
                let s := if byte_is buf s 42 && byte_is buf (s + 1) 46 then s + 2
                         else if byte_is buf s 46 then s + 1 else s in
                match domainHash buf s e with
                | None => Ok []
                | Some h => Ok [(KSuffix, h)]
                end
          end
    end.

(** ** The stream parser *)

Record pstate := PState {
  p_rest : option (list Z); p_overlong : bool; p_lines : Z; p_skipped : Z; p_total : Z;
  p_suffix : HashBuilder; p_exact : HashBuilder; p_except : HashBuilder
}.

Definition ListTooLarge : string := "too_many_entries".

(** [add(kind, h)] *)
Definition add_entry (maxEntries : Z) (st : pstate) (k : entry_kind) (h : Z) : res pstate :=
  if maxEntries <? p_total st + 1 then Throw ListTooLarge
  else
    Ok (PState (p_rest st) (p_overlong st) (p_lines st) (p_skipped st) (p_total st + 1)
          (if k is KSuffix then addHash (p_suffix st) h else p_suffix st)
          (if k is KExact then addHash (p_exact st) h else p_exact st)
          (if k is KExcept then addHash (p_except st) h else p_except st)).

Fixpoint add_entries (maxEntries : Z) (st : pstate) (l : list (entry_kind * Z)) : res pstate :=
  match l with
  | [] => Ok st
  | (k, h) :: l => st ← add_entry maxEntries st k h; add_entries maxEntries st l
  end.

Definition set_rest (st : pstate) (rest : option (list Z)) (overlong : bool) : pstate :=
  PState rest overlong (p_lines st) (p_skipped st) (p_total st)
    (p_suffix st) (p_exact st) (p_except st).
Definition count (st : pstate) (lines skipped : Z) : pstate :=
  PState (p_rest st) (p_overlong st) (p_lines st + lines) (p_skipped st + skipped) (p_total st)
    (p_suffix st) (p_exact st) (p_except st).

(** [line(buf, s, e)]: an unparsed line counts as skipped unless it is blank
    or a comment. *)
Definition line (maxEntries : Z) (format : list_format) (st : pstate) (buf : list Z) (s e : Z)
    : res pstate :=
  let st := count st 1 0 in
  entries ← parseLineBytes buf s e format;
  match entries with
  | _ :: _ => add_entries maxEntries st entries
  | [] =>
      let p := skip_fwd isSpace buf s e in
      Ok (if (p <? e) && negb (byte_is buf p 35) && negb (byte_is buf p 33)
             && negb (byte_is buf p 91)
          then count st 0 1 else st)
  end.

(** The loop over the line ends of a chunk, and what is left after it. *)
Fixpoint chunk_loop (fuel : nat) (maxEntries : Z) (format : list_format) (st : pstate)
    (chunk : list Z) (s : Z) : res pstate :=
  match fuel with
  | O => NoFuel
  | S fuel =>
      let nl := index_of NL chunk s in
      if nl =? -1 then
        if (s <? blen chunk) && negb (p_overlong st) then
          let tail := subarray chunk s (blen chunk) in
          let rest := match p_rest st with Some r => r ++ tail | None => tail end in
          Ok (if MAX_LINE <? blen rest then set_rest st None true
              else set_rest st (Some rest) (p_overlong st))
        else Ok st
      else
        st ← (if p_overlong st then Ok (count (set_rest st (p_rest st) false) 0 1)
              else match p_rest st with
                   | Some r =>
                       let full := r ++ subarray chunk s nl in
                       let st := set_rest st None false in
                       if blen full <=? MAX_LINE
                       then line maxEntries format st full 0 (blen full)
                       else Ok (count st 0 1)
                   | None =>
                       if nl - s <=? MAX_LINE then line maxEntries format st chunk s nl
                       else Ok (count st 0 1)
                   end);
        chunk_loop fuel maxEntries format st chunk (nl + 1)
  end.

Fixpoint parse_chunks (maxEntries : Z) (format : list_format) (st : pstate)
    (chunks : list (list Z)) : res pstate :=
  match chunks with
  | [] => Ok st
  | c :: chunks =>
      st ← chunk_loop (S (length c)) maxEntries format st c 0;
      parse_chunks maxEntries format st chunks
  end.

Definition init_state (format : list_format) (maxEntries expectedEntries : Z) : pstate :=
  let cap := Z.to_nat (Z.min maxEntries (Z.max 1024 (int32 expectedEntries))) in
  PState None false 0 0 0
    (newHashBuilder (if format is Hosts then 1024%nat else cap))
    (newHashBuilder (if format is Hosts then cap else 1024%nat))
    (newHashBuilder 1024).

Record parsed := Parsed { pl_list : CompactList; pl_entries : Z; pl_lines : Z; pl_skipped : Z }.

(** The last line (no line end) and the three finished arrays. *)
Definition finish_stream (maxEntries : Z) (format : list_format) (st : pstate) : res parsed :=
  st ← match p_rest st with
       | Some r => if p_overlong st then Ok st else line maxEntries format st r 0 (blen r)
       | None => Ok st
       end;
  let l := Compact (finish (p_suffix st)) (finish (p_exact st)) (finish (p_except st)) in
  Ok (Parsed l (cl_size l) (p_lines st) (p_skipped st)).

Definition parseListStream (chunks : list (list Z)) (format : list_format)
    (maxEntries expectedEntries : Z) : res parsed :=
  st ← parse_chunks maxEntries format (init_state format maxEntries expectedEntries) chunks;
  finish_stream maxEntries format st.
End Lines.

(** [parseListText(text, format)]: one chunk, the default limits. *)
Definition parseListText `{Unicode} (text : jstr) (format : list_format) : res parsed :=
  parseListStream [utf8_encode text] format 1500000 0.

(** [countLines]: line ends, plus one for an unterminated last line. *)
Definition count_nl (c : list Z) : Z := Z.of_nat (length (filter (λ b, b = NL) c)).
Definition countLines (chunks : list (list Z)) : Z :=
  let n := fold_left (λ n c, n + count_nl c) chunks 0 in
  let last_byte := fold_left (λ x c, match last c with Some b => b | None => x end) chunks NL in
  if last_byte =? NL then n else n + 1.

(** Hosts lines skip well-known local names; adblock exceptions go apart. *)
Example parse_three_formats :
  let run t f := (λ p, (pl_list p, pl_lines p, pl_skipped p)) <$>
    (match @parseListText ascii_unicode (js t) f with Ok p => Some p | _ => None end) in
  run "0.0.0.0 Ads.example.com localhost.localdomain # x" Hosts
  = Some (Compact [] [hash53 (js "ads.example.com")] [], 1, 0) ∧
  run "@@||good.example^" Adblock = Some (Compact [] [] [hash53 (js "good.example")], 1, 0) ∧
  run "*.bad.example" Domains = Some (Compact [hash53 (js "bad.example")] [] [], 1, 0).
Proof. vm_compute. done. Qed.
