(* ===== verification/ListParserFacts.v ===== *)
(** * Theorems on src/dns/listParser.js

    A line parser only looks at the bytes of its line, so the stream parser
    gives the same list for every way the bytes are cut into chunks; the
    arrays it builds are sorted and hold exactly the hashes of the entries. *)

From S2P Require Import Prelude JsBuffer NetwatchDnsWire DomainSet ListParser.

Local Open Scope Z_scope.

(** ** A line inside a larger buffer *)

Section Window.
Context (pre l suf : list Z) (Hsuf : suf = [] ∨ ∃ r, suf = NL :: r).
Local Abbreviation B := (pre ++ l ++ suf).
Local Abbreviation P := (blen pre).
Local Abbreviation L := (blen l).

Lemma window_subarray i j : 0 ≤ i → j ≤ L → subarray B (P + i) (P + j) = subarray l i j.
Proof.
  unfold subarray, blen. intros Hi Hj.
  replace (Z.of_nat (length pre) + j - (Z.of_nat (length pre) + i)) with (j - i) by lia.
  replace (Z.to_nat (Z.of_nat (length pre) + i)) with (length pre + Z.to_nat i)%nat by lia.
  rewrite <- drop_drop, drop_app_length.
  destruct (decide (i <= j)); [|replace (Z.to_nat (j - i)) with 0%nat by lia; done].
  rewrite drop_app_le, take_app_le by (rewrite ?length_drop; lia). done.
Qed.

Lemma window_byte_at i : 0 ≤ i < L → byte_at B (P + i) = byte_at l i.
Proof. intros. rewrite byte_at_app_r, byte_at_app_l by lia. done. Qed.

Lemma window_byte_is i c : 0 ≤ i ≤ L → c ≠ NL → byte_is B (P + i) c = byte_is l i c.
Proof.
  intros Hi Hc. unfold byte_is. destruct (decide (i = L)) as [->|]; [|by rewrite window_byte_at by lia].
  rewrite byte_at_app_r by lia.
  assert (byte_at (l ++ suf) L = byte_at suf 0) as -> by (rewrite <- (byte_at_app_r l suf 0) by lia; f_equal; lia).
  assert (byte_at l L = None) as ->.
  { destruct (byte_at l L) eqn:E; [|done]. apply byte_at_Some in E. lia. }
  rewrite (bool_decide_false (None = _)) by done. apply bool_decide_false.
  destruct Hsuf as [->|[r ->]]; [done |]. rewrite byte_at_0. congruence.
Qed.

Lemma window_skip_fwd f i j :
  0 ≤ i → j ≤ L → skip_fwd f B (P + i) (P + j) = P + skip_fwd f l i j.
Proof. intros. unfold skip_fwd. rewrite window_subarray by done. lia. Qed.

Lemma window_skip_bwd f i j :
  0 ≤ i → j ≤ L → skip_bwd f B (P + i) (P + j) = P + skip_bwd f l i j.
Proof. intros. unfold skip_bwd. rewrite window_subarray by done. lia. Qed.
End Window.

Lemma count_while_le f l : (count_while f l ≤ length l)%nat.
Proof. induction l as [|c l IH]; simpl; [lia |]. destruct (f c); lia. Qed.

Lemma length_subarray b s e : 0 ≤ s → s ≤ e → e ≤ blen b → blen (subarray b s e) = e - s.
Proof. unfold subarray, blen. intros. rewrite length_take, length_drop. lia. Qed.

Lemma skip_fwd_bounds f b s e : s ≤ e → s ≤ skip_fwd f b s e ≤ e.
Proof.
  intros. unfold skip_fwd. pose proof (count_while_le f (subarray b s e)).
  pose proof (blen_subarray_bound b s e). unfold blen in *. lia.
Qed.

Lemma skip_bwd_bounds f b s e : s ≤ e → s ≤ skip_bwd f b s e ≤ e.
Proof.
  intros. unfold skip_bwd. pose proof (count_while_le f (reverse (subarray b s e))) as H1.
  rewrite length_reverse in H1. pose proof (blen_subarray_bound b s e). unfold blen in *. lia.
Qed.

Lemma find_from_shift c i k s : 0 ≤ i → 0 ≤ k →
  find_from c (k + i) s = (if find_from c i s =? -1 then -1 else k + find_from c i s).
Proof.
  revert i. induction s as [|x s IH]; simpl; intros i Hi Hk; [done |].
  destruct (x =? c); [destruct (Z.eqb_spec i (-1)); lia |].
  rewrite <- Z.add_assoc. apply IH; lia.
Qed.

Lemma find_from_app c i a b :
  find_from c i (a ++ b) =
  if decide (c ∈ a) then find_from c i a else find_from c (i + blen a) b.
Proof.
  revert i. induction a as [|x a IH]; intros i.
  - rewrite decide_False by set_solver. f_equal. unfold blen. simpl. lia.
  - cbn [find_from app]. destruct (Z.eqb_spec x c) as [->|Hx].
    + rewrite decide_True by set_solver. done.
    + rewrite IH. rewrite !(decide_ext (c ∈ x :: a) (c ∈ a)) by set_solver.
      case_decide; [done |]. f_equal. blen_lia.
Qed.

Lemma find_from_ge c i s : find_from c i s = -1 ∨ i ≤ find_from c i s < i + blen s.
Proof.
  revert i. induction s as [|x s IH]; intros i; cbn [find_from]; [by left |].
  destruct (x =? c); [right; blen_lia |]. destruct (IH (i + 1)); [by left | right; blen_lia].
Qed.

Lemma find_from_None c i s : 0 ≤ i → find_from c i s = -1 ↔ c ∉ s.
Proof.
  revert i. induction s as [|x s IH]; intros i Hi; cbn [find_from]; [set_solver |].
  destruct (Z.eqb_spec x c) as [->|Hx]; [set_solver by lia |].
  rewrite IH by lia. set_solver.
Qed.

Lemma index_of_app c a b : c ∉ a → index_of c (a ++ c :: b) 0 = blen a.
Proof.
  intros Ha. unfold index_of. change (drop (Z.to_nat 0) ?x) with x.
  rewrite find_from_app, decide_False by done. cbn [find_from]. by rewrite Z.eqb_refl.
Qed.

Section WindowParse.
Context `{Unicode} (pre l suf : list Z) (Hsuf : suf = [] ∨ ∃ r, suf = NL :: r).
Local Abbreviation B := (pre ++ l ++ suf).
Local Abbreviation P := (blen pre).
Local Abbreviation L := (blen l).

(** The two searches agree up to the end [j] of the line. *)
Lemma window_index_of c i j :
  0 ≤ i ≤ L → j ≤ L →
  (index_of c B (P + i) = P + index_of c l i ∧ i ≤ index_of c l i < L) ∨
  (index_of c l i = -1 ∧ (index_of c B (P + i) = -1 ∨ P + j ≤ index_of c B (P + i))).
Proof.
  intros Hi Hj. unfold index_of. rewrite (Z.max_r 0 (P + i)), (Z.max_r 0 i) by (pose_blen pre; lia).
  replace (Z.to_nat (P + i)) with (length pre + Z.to_nat i)%nat by (unfold blen in *; lia).
  rewrite <- drop_drop, drop_app_length, drop_app_le by (unfold blen in *; lia).
  rewrite find_from_app. set (d := drop (Z.to_nat i) l).
  assert (blen d = L - i) as Hd by (unfold d, blen in *; rewrite length_drop; lia).
  pose proof (find_from_ge c i d) as Hge. rewrite Hd in Hge.
  case_decide as Hc.
  - left. assert (find_from c i d ≠ -1) by (rewrite find_from_None by lia; intros ?; contradiction).
    rewrite find_from_shift by (pose_blen pre; lia). destruct (Z.eqb_spec (find_from c i d) (-1)); [done | lia].
  - right. rewrite (find_from_None c i d) by lia. split; [done |]. rewrite Hd.
    destruct (find_from_ge c (P + i + (L - i)) suf); [by left | right; lia].
Qed.

Lemma window_hashDomainBytes i j :
  0 ≤ i → j ≤ L → hashDomainBytes B (P + i) (P + j) = hashDomainBytes l i j.
Proof.
  intros Hi Hj. unfold hashDomainBytes.
  replace (P + i <? P + j) with (i <? j) by (destruct (Z.ltb_spec i j), (Z.ltb_spec (P+i) (P+j)); lia).
  destruct (Z.ltb_spec i j); cbn [andb].
  - replace (P + j - 1) with (P + (j - 1)) by lia. rewrite window_byte_at by lia.
    set (t := bool_decide _).
    assert ((if t then P + (j - 1) else P + j) = P + (if t then j - 1 else j)) as -> by (destruct t; lia).
    rewrite window_subarray by (destruct t; lia).
    by replace (P + (if t then j - 1 else j) - (P + i)) with ((if t then j - 1 else j) - i) by lia.
  - rewrite window_subarray by lia. by replace (P + j - (P + i)) with (j - i) by lia.
Qed.

Lemma window_domainHash i j :
  0 ≤ i → j ≤ L → domainHash B (P + i) (P + j) = domainHash l i j.
Proof.
  intros. unfold domainHash. by rewrite window_hashDomainBytes, window_subarray by done.
Qed.

Lemma window_isIpToken i j :
  0 ≤ i → j ≤ L → isIpToken B (P + i) (P + j) = isIpToken l i j.
Proof.
  intros. unfold isIpToken. rewrite window_subarray by done.
  by replace (P + j - (P + i)) with (j - i) by lia.
Qed.

Lemma window_hosts_tokens fuel i j :
  0 ≤ i → i ≤ j → j ≤ L → hosts_tokens fuel B (P + i) (P + j) = hosts_tokens fuel l i j.
Proof.
  revert i. induction fuel as [|fuel IH]; intros i Hi Hij Hj; [done |]. cbn [hosts_tokens].
  replace (P + i <? P + j) with (i <? j) by (destruct (Z.ltb_spec i j), (Z.ltb_spec (P+i) (P+j)); lia).
  destruct (i <? j); [|done].
  pose proof (skip_fwd_bounds isSpace l i j Hij). rewrite window_skip_fwd by lia.
  set (t := skip_fwd isSpace l i j) in *.
  pose proof (skip_fwd_bounds (λ c, negb (isSpace c)) l t j ltac:(lia)).
  rewrite window_skip_fwd by lia. set (p := skip_fwd _ l t j) in *.
  rewrite window_domainHash, IH by lia.
  by replace (P + t <? P + p) with (t <? p) by (destruct (Z.ltb_spec t p), (Z.ltb_spec (P+t) (P+p)); lia).
Qed.

Lemma window_ltb a b : (P + a <? P + b) = (a <? b).
Proof. destruct (Z.ltb_spec a b), (Z.ltb_spec (P + a) (P + b)); lia. Qed.
Lemma window_leb a b : (P + a <=? P + b) = (a <=? b).
Proof. destruct (Z.leb_spec a b), (Z.leb_spec (P + a) (P + b)); lia. Qed.

Lemma byte_is_lt i c : byte_is l i c = true → i < L.
Proof. unfold byte_is. intros Hb%bool_decide_eq_true_1%byte_at_Some. lia. Qed.

(** The end of a line without its comment. *)
Definition strip_comment (buf : list Z) (s e : Z) : Z :=
  let hashPos := index_of 35 buf s in
  if negb (hashPos =? -1) && (hashPos <? e) then skip_bwd isSpace buf s hashPos else e.

Lemma window_strip_comment s e :
  0 ≤ s ≤ L → e ≤ L → strip_comment B (P + s) (P + e) = P + strip_comment l s e.
Proof.
  intros Hs He. unfold strip_comment.
  destruct (window_index_of 35 s e Hs He) as [[-> Hr]|[-> Hr]].
  - rewrite window_ltb. pose_blen pre.
    destruct (Z.eqb_spec (P + index_of 35 l s) (-1)), (Z.eqb_spec (index_of 35 l s) (-1)); try lia.
    cbn [negb andb]. destruct (Z.ltb_spec (index_of 35 l s) e); [|done].
    by rewrite window_skip_bwd by lia.
  - rewrite Z.eqb_refl. cbn [negb andb].
    destruct Hr as [->|Hr]; [done |]. destruct (Z.ltb_spec (index_of 35 B (P + s)) (P + e)); [lia |].
    by rewrite andb_false_r.
Qed.

Lemma strip_comment_bounds s e : 0 ≤ s ≤ e → s ≤ strip_comment l s e ≤ e.
Proof.
  intros Hs. unfold strip_comment.
  destruct (negb _) eqn:Hn; cbn [andb]; [|lia]. destruct (Z.ltb_spec (index_of 35 l s) e); [|lia].
  assert (s ≤ index_of 35 l s).
  { unfold index_of in *. rewrite Z.max_r in * by lia.
    destruct (find_from_ge 35 s (drop (Z.to_nat s) l)) as [E|]; [|lia]. by rewrite E in Hn. }
  pose proof (skip_bwd_bounds isSpace l s (index_of 35 l s)). lia.
Qed.

(** The adblock rule between [p] (after [||]) and the end of the line. *)
Definition adblock_rule (ex : bool) (buf : list Z) (p e : Z) : list (entry_kind * Z) :=
  let caret := index_of 94 buf p in
  if (caret =? -1) || (e <=? caret) then []
  else if negb (bool_decide (subarray buf (caret + 1) e ∈ ADBLOCK_OPTS)) then []
  else match domainHash buf p caret with
       | None => []
       | Some h => [(if ex then KExcept else KSuffix, h)]
       end.

Lemma window_adblock_rule ex p e :
  0 ≤ p ≤ L → e ≤ L → adblock_rule ex B (P + p) (P + e) = adblock_rule ex l p e.
Proof.
  intros Hp He. unfold adblock_rule.
  destruct (window_index_of 94 p e Hp He) as [[-> Hr]|[-> Hr]].
  - rewrite window_leb. pose_blen pre.
    destruct (Z.eqb_spec (P + index_of 94 l p) (-1)), (Z.eqb_spec (index_of 94 l p) (-1)); try lia.
    cbn [orb]. destruct (Z.leb_spec e (index_of 94 l p)); [done |].
    by rewrite <- Z.add_assoc, window_subarray, window_domainHash by lia.
  - rewrite Z.eqb_refl. cbn [orb]. destruct Hr as [->|Hr]; [done |].
    destruct (Z.leb_spec (P + e) (index_of 94 B (P + p))); [|lia]. by rewrite orb_true_r.
Qed.

Lemma window_adblock s e :
  0 ≤ s → s < e → e ≤ L →
  (let ex := (default 0 (byte_at l s) =? 64) && byte_is B (P + s + 1) 64 in
   let p := if ex then P + s + 2 else P + s in
   if negb (byte_is B p 124) || negb (byte_is B (p + 1) 124) then []
   else adblock_rule ex B (p + 2) (P + e)) =
  (let ex := (default 0 (byte_at l s) =? 64) && byte_is l (s + 1) 64 in
   let p := if ex then s + 2 else s in
   if negb (byte_is l p 124) || negb (byte_is l (p + 1) 124) then []
   else adblock_rule ex l (p + 2) e).
Proof.
  intros Hs Hse He. cbv zeta. rewrite <- !(Z.add_assoc P s). rewrite window_byte_is by (done || lia).
  set (ex := _ && byte_is l (s + 1) 64).
  assert (ex = true → s + 1 < L) as Hex by (intros [_ Hx%byte_is_lt]%andb_prop; lia).
  set (p := if ex then s + 2 else s).
  assert ((if ex then P + (s + 2) else P + s) = P + p) as -> by (unfold p; by destruct ex).
  assert (0 ≤ p ≤ L) by (unfold p; destruct ex; [pose proof (Hex eq_refl) |]; lia).
  rewrite <- !(Z.add_assoc P p). rewrite window_byte_is by (done || lia).
  destruct (byte_is l p 124) eqn:H1; [|done]. apply byte_is_lt in H1. rewrite window_byte_is by (done || lia).
  destruct (byte_is l (p + 1) 124) eqn:H2; [|done]. apply byte_is_lt in H2. cbn [negb orb].
  by rewrite window_adblock_rule by lia.
Qed.

Lemma existsb_window i j :
  0 ≤ i → j ≤ L → existsb isSpace (subarray B (P + i) (P + j)) = existsb isSpace (subarray l i j).
Proof. intros. by rewrite window_subarray. Qed.

(** What a line parser returns depends on the bytes of the line alone. *)
Lemma window_parseLineBytes format :
  parseLineBytes B P (P + L) format = parseLineBytes l 0 L format.
Proof using Hsuf.
  unfold parseLineBytes. pose proof (blen_nonneg l) as HL.
  replace (skip_fwd isSpace B P (P + L)) with (P + skip_fwd isSpace l 0 L)
    by (rewrite <- window_skip_fwd with (suf := suf) by lia; f_equal; lia).
  pose proof (skip_fwd_bounds isSpace l 0 L HL) as Hs. set (s := skip_fwd isSpace l 0 L) in *.
  rewrite window_skip_bwd by lia.
  pose proof (skip_bwd_bounds isSpace l s L ltac:(lia)) as He. set (e := skip_bwd isSpace l s L) in *.
  clearbody s e. rewrite window_leb. destruct (Z.leb_spec e s); [done |].
  rewrite window_byte_at by lia.
  pose proof (window_adblock s e ltac:(lia) ltac:(lia) ltac:(lia)) as Hadblock.
  set (first := default 0 (byte_at l s)) in *. clearbody first.
  change (if negb (index_of 35 ?b ?x =? -1) && (index_of 35 ?b ?x <? ?y)
          then skip_bwd isSpace ?b ?x (index_of 35 ?b ?x) else ?y) with (strip_comment b x y).
  rewrite window_strip_comment by lia.
  pose proof (strip_comment_bounds s e ltac:(lia)). set (e' := strip_comment l s e) in *. clearbody e'.
  destruct format.
  - destruct (_ || _); [done |]. rewrite existsb_window by lia. destruct (existsb _ _); [done |].
    rewrite <- !(Z.add_assoc P s), !window_byte_is by (done || lia).
    set (s' := if _ : bool then s + 2 else _).
    assert (0 ≤ s' ) by (unfold s'; repeat case_match; lia).
    replace (if _ : bool then P + (s + 2) else _) with (P + s') by (unfold s'; repeat case_match; lia).
    by rewrite window_domainHash by lia.
  - destruct (_ || _); [done |].
    pose proof (skip_fwd_bounds (λ c, negb (isSpace c)) l s e' ltac:(lia)).
    rewrite window_skip_fwd by lia. set (p := skip_fwd _ l s e') in *.
    rewrite window_isIpToken by lia. destruct (isIpToken l s p); [|done]. cbn [negb].
    rewrite window_hosts_tokens by lia. do 3 f_equal; lia.
  - destruct (_ || _); [done |]. unfold adblock_rule in Hadblock.
    match type of Hadblock with ?a = ?b => transitivity (Ok a); [|rewrite Hadblock] end.
    all: repeat case_match; congruence.
Qed.
End WindowParse.

(** ** Chunk independence *)

Section Chunks.
Context `{Unicode} (maxEntries : Z) (format : list_format).
Local Abbreviation line := (line maxEntries format).

Lemma window_line st pre l suf :
  (suf = [] ∨ ∃ r, suf = NL :: r) →
  line st (pre ++ l ++ suf) (blen pre) (blen pre + blen l) = line st l 0 (blen l).
Proof.
  intros Hsuf. unfold ListParser.line. rewrite window_parseLineBytes by done.
  assert (skip_fwd isSpace (pre ++ l ++ suf) (blen pre) (blen pre + blen l)
          = blen pre + skip_fwd isSpace l 0 (blen l)) as ->.
  { rewrite <- window_skip_fwd with (suf := suf) by lia. f_equal. lia. }
  pose proof (skip_fwd_bounds isSpace l 0 (blen l) (blen_nonneg l)).
  by rewrite window_ltb, !window_byte_is by (done || lia).
Qed.

Lemma add_entries_set_rest st r o es :
  add_entries maxEntries (set_rest st r o) es
  = st' ← add_entries maxEntries st es; Ok (set_rest st' r o).
Proof.
  revert st. induction es as [|[k h] es IH]; intros st; [done |].
  cbn [add_entries]. unfold add_entry. cbn [p_total set_rest].
  destruct (_ <? _); [done |]. cbn [mbind res_bind]. rewrite <- IH. done.
Qed.

Lemma line_set_rest st r o l s e :
  line (set_rest st r o) l s e = st' ← line st l s e; Ok (set_rest st' r o).
Proof.
  unfold ListParser.line. destruct (parseLineBytes l s e format) as [[|en es]| |]; [| |done|done].
  - cbn [mbind res_bind]. destruct (_ && _); done.
  - change (count (set_rest st r o) 1 0) with (set_rest (count st 1 0) r o).
    cbn [mbind res_bind]. apply add_entries_set_rest.
Qed.

(** A complete line: too long, or parsed. *)
Definition full_line (st : pstate) (l : list Z) : res pstate :=
  if blen l <=? MAX_LINE then line st l 0 (blen l) else Ok (count st 0 1).

Lemma full_line_set_rest st r o l :
  full_line (set_rest st r o) l = st' ← full_line st l; Ok (set_rest st' r o).
Proof. unfold full_line. destruct (_ <=? _); [apply line_set_rest | done]. Qed.

(** The parser as a function of the bytes: [pl] is the line begun so far. *)
Fixpoint run_bytes (st : pstate) (pl data : list Z) : res (pstate * list Z) :=
  match data with
  | [] => Ok (st, pl)
  | b :: data =>
      if b =? NL then st ← full_line st pl; run_bytes st [] data
      else run_bytes st (pl ++ [b]) data
  end.

Lemma run_bytes_app st pl d1 d2 :
  run_bytes st pl (d1 ++ d2) = '(st', pl') ← run_bytes st pl d1; run_bytes st' pl' d2.
Proof.
  revert st pl. induction d1 as [|b d1 IH]; intros st pl; [done |]. cbn [run_bytes app].
  destruct (b =? NL); [|apply IH].
  destruct (full_line st pl); cbn [mbind res_bind]; [apply IH | done | done].
Qed.

Lemma run_bytes_no_nl st pl d : NL ∉ d → run_bytes st pl d = Ok (st, pl ++ d).
Proof.
  revert pl. induction d as [|b d IH]; intros pl Hd; cbn [run_bytes]; [by rewrite app_nil_r |].
  destruct (Z.eqb_spec b NL) as [->|]; [set_solver |].
  rewrite IH by set_solver. by rewrite <- app_assoc.
Qed.

Lemma run_bytes_line st pl a r :
  NL ∉ a → run_bytes st pl (a ++ NL :: r) = st ← full_line st (pl ++ a); run_bytes st [] r.
Proof. intros. rewrite run_bytes_app, run_bytes_no_nl by done. done. Qed.

(** How the begun line is kept between two chunks. *)
Definition pend (st : pstate) (pl : list Z) : pstate :=
  if blen pl =? 0 then set_rest st None false
  else if blen pl <=? MAX_LINE then set_rest st (Some pl) false
  else set_rest st None true.

Lemma pend_line st pl a chunk pre suf :
  chunk = pre ++ a ++ suf → suf = [] ∨ (∃ r, suf = NL :: r) →
  (if p_overlong (pend st pl) then Ok (count (set_rest (pend st pl) (p_rest (pend st pl)) false) 0 1)
   else match p_rest (pend st pl) with
        | Some r =>
            let full := r ++ subarray chunk (blen pre) (blen pre + blen a) in
            let st := set_rest (pend st pl) None false in
            if blen full <=? MAX_LINE then line st full 0 (blen full) else Ok (count st 0 1)
        | None =>
            if blen pre + blen a - blen pre <=? MAX_LINE
            then line (pend st pl) chunk (blen pre) (blen pre + blen a)
            else Ok (count (pend st pl) 0 1)
        end) = full_line (set_rest st None false) (pl ++ a).
Proof.
  intros -> Hsuf. unfold pend, full_line.
  replace (blen pre + blen a - blen pre) with (blen a) by lia.
  assert (subarray (pre ++ a ++ suf) (blen pre) (blen pre + blen a) = a) as ->.
  { replace (blen pre) with (blen pre + 0) at 1 by lia. rewrite window_subarray by lia.
    unfold subarray, blen. simpl. apply take_ge. lia. }
  destruct (Z.eqb_spec (blen pl) 0) as [Hz|Hz].
  - assert (pl = []) as -> by (apply length_zero_iff_nil; unfold blen in Hz; lia). cbn.
    by rewrite window_line.
  - destruct (Z.leb_spec (blen pl) MAX_LINE); [done |]. cbn.
    destruct (Z.leb_spec (blen (pl ++ a)) MAX_LINE); [blen_lia | done].
Qed.

Lemma pend_tail st pl a :
  NL ∉ a →
  (if (0 <? blen a) && negb (p_overlong (pend st pl)) then
     let rest := match p_rest (pend st pl) with Some r => r ++ a | None => a end in
     Ok (if MAX_LINE <? blen rest then set_rest (pend st pl) None true
         else set_rest (pend st pl) (Some rest) (p_overlong (pend st pl)))
   else Ok (pend st pl)) = Ok (pend st (pl ++ a)).
Proof.
  intros _. destruct (Z.ltb_spec 0 (blen a)) as [Ha|Ha]; cbn [andb].
  2: { assert (a = []) as -> by (apply length_zero_iff_nil; unfold blen in Ha; lia).
       by rewrite app_nil_r. }
  unfold pend. pose proof (blen_nonneg pl).
  destruct (Z.eqb_spec (blen (pl ++ a)) 0); [blen_lia |].
  destruct (Z.eqb_spec (blen pl) 0) as [Hz|Hz].
  - assert (pl = []) as -> by (apply length_zero_iff_nil; unfold blen in Hz; lia). cbn.
    rewrite Z.leb_antisym. by destruct (_ <? _).
  - destruct (Z.leb_spec (blen pl) MAX_LINE); cbn.
    + rewrite Z.leb_antisym. by destruct (_ <? _).
    + destruct (Z.leb_spec (blen (pl ++ a)) MAX_LINE); [blen_lia | done].
Qed.

Lemma split_at_nl (d : list Z) : (NL ∉ d) ∨ ∃ a r, d = a ++ NL :: r ∧ NL ∉ a.
Proof.
  induction d as [|b d IH]; [left; set_solver |].
  destruct (decide (b = NL)) as [->|Hb]; [right; exists [], d; set_solver |].
  destruct IH as [Hd|(a & r & -> & Ha)]; [left; set_solver |].
  right. exists (b :: a), r. set_solver.
Qed.

Lemma index_of_app_r c pre d :
  index_of c (pre ++ d) (blen pre)
  = if index_of c d 0 =? -1 then -1 else blen pre + index_of c d 0.
Proof.
  unfold index_of. rewrite Z.max_r by apply blen_nonneg. unfold blen at 2.
  rewrite Nat2Z.id, drop_app_length. change (drop (Z.to_nat 0) d) with d.
  replace (blen pre) with (blen pre + 0) at 1 by lia.
  apply find_from_shift; [lia | apply blen_nonneg].
Qed.

(** One chunk: the loop over its line ends is the run over its bytes. *)
Lemma chunk_loop_run fuel st pl pre d :
  (length d < fuel)%nat →
  chunk_loop fuel maxEntries format (pend st pl) (pre ++ d) (blen pre)
  = '(st', pl') ← run_bytes (set_rest st None false) pl d; Ok (pend st' pl').
Proof.
  revert st pl pre d. induction fuel as [|fuel IH]; intros st pl pre d Hf; [lia |].
  cbn [chunk_loop]. rewrite index_of_app_r.
  destruct (split_at_nl d) as [Hd|(a & r & -> & Ha)].
  - assert (index_of NL d 0 = -1) as -> by (by apply find_from_None).
    rewrite run_bytes_no_nl by done. cbn [mbind res_bind].
    assert (subarray (pre ++ d) (blen pre) (blen (pre ++ d)) = d) as ->.
    { rewrite blen_app. replace (pre ++ d) with (pre ++ d ++ []) by (by rewrite app_nil_r).
      replace (blen pre) with (blen pre + 0) at 1 by lia. rewrite window_subarray by lia.
      unfold subarray, blen. simpl. apply take_ge. lia. }
    assert ((blen pre <? blen (pre ++ d)) = (0 <? blen d)) as ->.
    { destruct (Z.ltb_spec (blen pre) (blen (pre ++ d))), (Z.ltb_spec 0 (blen d)); blen_lia. }
    rewrite Z.eqb_refl. cbv beta iota. by apply (pend_tail st pl d).
  - rewrite index_of_app by done. pose proof (blen_nonneg a). pose proof (blen_nonneg pre).
    destruct (Z.eqb_spec (blen a) (-1)); [lia |]. destruct (Z.eqb_spec (blen pre + blen a) (-1)); [lia |].
    rewrite run_bytes_line by done.
    pose proof (pend_line st pl a (pre ++ a ++ NL :: r) pre (NL :: r) eq_refl ltac:(eauto)) as Hp.
    cbv beta zeta in *. rewrite Hp, full_line_set_rest.
    destruct (full_line st (pl ++ a)) as [st1| |]; cbn [mbind res_bind]; [|done|done].
    replace (pre ++ a ++ NL :: r) with ((pre ++ a ++ [NL]) ++ r) by (by rewrite <- !app_assoc).
    replace (blen pre + blen a + 1) with (blen (pre ++ a ++ [NL])) by blen_lia.
    rewrite <- (IH st1 [] (pre ++ a ++ [NL]) r); [done |]. rewrite length_app in Hf. simpl in Hf. lia.
Qed.

Lemma run_bytes_set_rest st r o pl d :
  run_bytes (set_rest st r o) pl d = '(st', pl') ← run_bytes st pl d; Ok (set_rest st' r o, pl').
Proof.
  revert st pl. induction d as [|b d IH]; intros st pl; [done |]. cbn [run_bytes].
  destruct (b =? NL); [|apply IH]. rewrite full_line_set_rest.
  destruct (full_line st pl); cbn [mbind res_bind]; [apply IH | done | done].
Qed.

Lemma pend_set_rest st r o pl : pend (set_rest st r o) pl = pend st pl.
Proof. done. Qed.

Lemma parse_chunks_run st pl chunks :
  parse_chunks maxEntries format (pend st pl) chunks
  = '(st', pl') ← run_bytes st pl (concat chunks); Ok (pend st' pl').
Proof.
  revert st pl. induction chunks as [|c chunks IH]; intros st pl; [done |].
  cbn [parse_chunks concat]. rewrite run_bytes_app.
  pose proof (chunk_loop_run (S (length c)) st pl [] c ltac:(lia)) as Hc.
  change ([] ++ c) with c in Hc. change (blen []) with 0 in Hc. rewrite Hc, run_bytes_set_rest.
  destruct (run_bytes st pl c) as [[st1 pl1]| |]; cbn [mbind res_bind]; [|done|done].
  rewrite pend_set_rest. apply IH.
Qed.

(** The reference: the lines of the whole text, in order; the last one has
    no line end and counts only when it is neither empty nor too long. *)
Fixpoint full_lines (st : pstate) (ls : list (list Z)) : res pstate :=
  match ls with
  | [] => Ok st
  | [l] => if (0 <? blen l) && (blen l <=? MAX_LINE) then line st l 0 (blen l) else Ok st
  | l :: ls => st ← full_line st l; full_lines st ls
  end.

Lemma full_lines_cons st l ls :
  ls ≠ [] → full_lines st (l :: ls) = st' ← full_line st l; full_lines st' ls.
Proof. by destruct ls. Qed.

Definition finish_parse (st : pstate) : parsed :=
  let l := Compact (finish (p_suffix st)) (finish (p_exact st)) (finish (p_except st)) in
  Parsed l (cl_size l) (p_lines st) (p_skipped st).

Lemma finish_pend st pl :
  finish_stream maxEntries format (pend st pl)
  = st' ← full_lines st [pl]; Ok (finish_parse st').
Proof.
  unfold finish_stream, pend, full_lines. pose proof (blen_nonneg pl).
  destruct (Z.eqb_spec (blen pl) 0) as [->|]; [done |].
  destruct (Z.ltb_spec 0 (blen pl)); [|lia]. cbn [andb].
  destruct (Z.leb_spec (blen pl) MAX_LINE); [|done].
  change (p_rest (set_rest st (Some pl) false)) with (Some pl).
  change (p_overlong (set_rest st (Some pl) false)) with false. cbv iota.
  rewrite line_set_rest. by destruct (line st pl 0 (blen pl)).
Qed.

Lemma run_bytes_lines st pl d :
  NL ∉ pl →
  ('(st', pl') ← run_bytes st pl d; full_lines st' [pl']) = full_lines st (split_on NL (pl ++ d)).
Proof.
  revert st pl. induction d as [|b d IH]; intros st pl Hpl.
  - cbn [run_bytes mbind res_bind]. by rewrite app_nil_r, split_on_nosep.
  - cbn [run_bytes]. destruct (Z.eqb_spec b NL) as [->|Hb].
    + rewrite split_on_app_sep by done. pose proof (split_on_nonempty NL d).
      rewrite full_lines_cons by done.
      destruct (full_line st pl) as [st1| |]; cbn [mbind res_bind]; [|done|done].
      by rewrite (IH st1 []) by set_solver.
    + rewrite IH by set_solver. by rewrite <- app_assoc.
Qed.
End Chunks.

(** ** The name hashed in one pass is the cleaned name *)

(** The begin of a valid label. *)
Definition label_prefix (l : jstr) : bool :=
  match l with
  | [] => true
  | c :: r => label_edge c && forallb label_mid r && (Z.of_nat (length r) <=? 62)
  end.

Lemma label_mid_edge c : label_edge c = true → label_mid c = true.
Proof. unfold label_mid. by intros ->. Qed.

Lemma label_re_prefix l :
  label_re l = nonempty l && label_prefix l && negb (bool_decide (last l = Some 45)).
Proof.
  destruct l as [|c r]; [done |]. cbn [label_re label_prefix nonempty].
  destruct (label_edge c) eqn:Hc; [|done]. cbn [andb].
  destruct r as [|d m _] using rev_ind.
  { cbn. rewrite bool_decide_false; [done |]. intros [= ->]. done. }
  rewrite reverse_snoc, app_comm_cons, last_snoc, forallb_app, length_app.
  cbn [length forallb]. rewrite length_reverse.
  assert (forallb label_mid (reverse m) = forallb label_mid m) as ->.
  { apply eq_true_iff_eq. rewrite !forallb_forall.
    split; intros Hf y Hy; apply Hf; rewrite <- list_elem_of_In in *; by rewrite elem_of_reverse in *. }
  replace (Z.of_nat (length m + 1) <=? 62) with (Z.of_nat (length m) <=? 61)
    by (destruct (Z.leb_spec (Z.of_nat (length m)) 61), (Z.leb_spec (Z.of_nat (length m + 1)) 62); lia).
  destruct (label_edge d) eqn:Hd.
  - rewrite (label_mid_edge d Hd), bool_decide_false; [|by intros [= ->]].
    by destruct (forallb label_mid m), (_ <=? _).
  - cbn [andb]. unfold label_mid at 2. rewrite Hd. cbn [orb]. destruct (Z.eqb_spec d 45) as [->|].
    + rewrite bool_decide_true by done. by rewrite andb_false_r.
    + by rewrite andb_false_r.
Qed.

Definition prefix_last (cur : jstr) : Z := default 46 (last cur).

Lemma label_prefix_snoc cur c :
  label_prefix (cur ++ [c]) =
  label_prefix cur && (label_edge c || ((c =? 45) && (0 <? blen cur))) && (blen cur + 1 <=? 63).
Proof.
  destruct cur as [|x r].
  - unfold blen. cbn. destruct (label_edge c); [done |]. cbn. by rewrite andb_false_r.
  - cbn [label_prefix app]. rewrite forallb_app, length_app. cbn [forallb length].
    rewrite andb_true_r. unfold label_mid at 2.
    replace (0 <? blen (x :: r)) with true by (symmetry; apply Z.ltb_lt; blen_lia). rewrite andb_true_r.
    replace (Z.of_nat (length r + 1) <=? 62) with (blen (x :: r) + 1 <=? 63)
      by (unfold blen; simpl; destruct (Z.leb_spec (Z.of_nat (S (length r)) + 1) 63),
            (Z.leb_spec (Z.of_nat (length r + 1)) 62); lia).
    destruct (label_edge x), (forallb label_mid r), (label_edge c || (c =? 45));
      cbn [andb]; rewrite ?andb_false_r, ?andb_true_r; try done.
    destruct (Z.leb_spec (blen (x :: r) + 1) 63); [|by rewrite ?andb_false_r].
    symmetry. apply andb_true_intro. split; [apply Z.leb_le | done]. unfold blen in *. simpl in *. lia.
Qed.

Lemma label_prefix_app cur r : label_prefix (cur ++ r) = true → label_prefix cur = true.
Proof.
  induction r as [|c r IH] using rev_ind; [by rewrite app_nil_r |].
  rewrite app_assoc, label_prefix_snoc. intros H. apply IH. by destruct (label_prefix (cur ++ r)).
Qed.

Lemma label_re_label_prefix l : label_re l = true → label_prefix l = true.
Proof. rewrite label_re_prefix. by destruct (nonempty l), (label_prefix l). Qed.

Lemma label_prefix_no_dot l : label_prefix l = true → dot ∉ l.
Proof.
  destruct l as [|c r]; [set_solver |]. cbn [label_prefix].
  intros [[Hc Hr]%andb_prop _]%andb_prop. rewrite forallb_forall in Hr.
  intros [<-|Hd%list_elem_of_In%Hr]%elem_of_cons; [by vm_compute in Hc | by vm_compute in Hd].
Qed.

(** All labels but the last are labels, the last one is the begin of one. *)
Definition labels_prefix (ls : list jstr) : bool :=
  forallb label_re (removelast ls) && label_prefix (List.last ls []).

Lemma labels_prefix_cons l ls :
  ls ≠ [] → labels_prefix (l :: ls) = label_re l && labels_prefix ls.
Proof. destruct ls; [done |]. intros _. unfold labels_prefix. cbn. by rewrite andb_assoc. Qed.

Lemma labels_prefix_first cur s :
  dot ∉ cur → label_prefix cur = false → labels_prefix (split_on dot (cur ++ s)) = false.
Proof.
  intros Hd Hl.
  assert (∃ r ls, split_on dot (cur ++ s) = (cur ++ r) :: ls) as (r & ls & ->).
  { clear Hl. revert Hd. induction cur as [|c cur IH]; intros Hd; cbn [app].
    - pose proof (split_on_nonempty dot s). destruct (split_on dot s); naive_solver.
    - cbn [split_on]. destruct (Z.eqb_spec c dot); [set_solver |].
      destruct IH as (r & ls & ->); [set_solver |]. by exists r, ls. }
  destruct ls.
  - unfold labels_prefix. cbn. apply not_true_is_false. intros Hr%label_prefix_app. congruence.
  - rewrite labels_prefix_cons by done. apply not_true_is_false.
    intros [Hr%label_re_label_prefix%label_prefix_app _]%andb_prop. congruence.
Qed.

Definition lower_alpha (s : jstr) : bool := existsb (λ c, 57 <? c) (lower_unit <$> s).

Lemma scan_step_char h cur dots alpha c l :
  0 ≤ c < 128 → lower_unit c ≠ dot → label_prefix cur = true →
  scan_loop (c :: l) (Scan h (blen cur) dots (prefix_last cur) alpha) =
  if label_prefix (cur ++ [lower_unit c]) then
    scan_loop l (Scan (hash_step h (lower_unit c)) (blen (cur ++ [lower_unit c])) dots
                   (prefix_last (cur ++ [lower_unit c])) (alpha || (57 <? lower_unit c)))
  else inr Invalid.
Proof.
  intros Hc Hd Hp. rewrite label_prefix_snoc, Hp. cbn [andb].
  cbn [scan_loop sc_labelLen sc_h sc_prev sc_alpha sc_dots].
  change (if (65 <=? c) && (c <=? 90) then c + 32 else c) with (lower_unit c).
  destruct (Z.leb_spec 128 c); [lia |]. destruct (Z.eqb_spec (lower_unit c) 46); [done |].
  change (isAlnum (lower_unit c) || (lower_unit c =? 95)) with (label_edge (lower_unit c)).
  destruct (label_edge (lower_unit c) || _); cbn [andb]; [|done].
  destruct (Z.leb_spec (blen cur + 1) 63), (Z.ltb_spec 63 (blen cur + 1)); try lia; [|done].
  unfold prefix_last. rewrite last_snoc, blen_app.
  assert ((if 57 <? lower_unit c then true else alpha) = alpha || (57 <? lower_unit c)) as ->
    by (by destruct alpha, (57 <? lower_unit c)).
  done.
Qed.

Lemma scan_step_dot h cur dots alpha l :
  label_prefix cur = true →
  scan_loop (dot :: l) (Scan h (blen cur) dots (prefix_last cur) alpha) =
  if label_re cur then scan_loop l (Scan (hash_step h dot) 0 (dots + 1) dot alpha) else inr Invalid.
Proof.
  intros Hp. rewrite label_re_prefix, Hp. cbn [scan_loop sc_labelLen sc_h sc_prev sc_alpha sc_dots].
  destruct cur as [|x r _] using rev_ind; [done |]. unfold prefix_last. rewrite last_snoc, blen_app.
  change (blen [x]) with 1. pose_blen r. destruct (Z.eqb_spec (blen r + 1) 0); [lia |].
  assert (nonempty (r ++ [x]) = true) as -> by (by destruct r). cbn [default orb andb].
  destruct (Z.eqb_spec x 45) as [->|].
  - by rewrite bool_decide_true by done.
  - rewrite bool_decide_false by congruence. cbn. destruct (Z.eqb_spec x 45); [done | reflexivity].
Qed.

Lemma scan_loop_spec h cur dots alpha l :
  is_ascii l → label_prefix cur = true →
  let ls := split_on dot (cur ++ (lower_unit <$> l)) in
  scan_loop l (Scan h (blen cur) dots (prefix_last cur) alpha) =
  if labels_prefix ls
  then inl (Scan (fold_left hash_step (lower_unit <$> l) h) (blen (List.last ls []))
              (dots + Z.of_nat (length ls) - 1) (prefix_last (List.last ls [])) (alpha || lower_alpha l))
  else inr Invalid.
Proof.
  revert h cur dots alpha. induction l as [|c l IH]; intros h cur dots alpha Hl Hp; cbn zeta.
  { rewrite fmap_nil, app_nil_r, split_on_nosep by by apply label_prefix_no_dot.
    unfold labels_prefix. cbn. rewrite Hp. cbn. rewrite orb_false_r. do 2 f_equal. lia. }
  destruct (proj1 (Forall_cons _ _ _) Hl) as [Hc Hl']. clear Hl. rename Hl' into Hl. rewrite fmap_cons.
  destruct (decide (lower_unit c = dot)) as [Hd|Hd].
  - assert (c = dot) as -> by (unfold lower_unit, dot in *; destruct (_ && _) eqn:?; lia).
    rewrite Hd, split_on_app_sep by by apply label_prefix_no_dot.
    rewrite scan_step_dot by done. specialize (IH (hash_step h dot) [] (dots + 1) alpha Hl eq_refl).
    cbn zeta in IH. cbn [app] in IH. change (blen []) with 0 in IH. change (prefix_last []) with dot in IH.
    rewrite IH. pose proof (split_on_nonempty dot (lower_unit <$> l)).
    set (ls := split_on dot (lower_unit <$> l)) in *.
    rewrite labels_prefix_cons by done. destruct (label_re cur); cbn [andb]; [|done].
    assert (List.last (cur :: ls) [] = List.last ls []) as -> by (by destruct ls).
    destruct (labels_prefix ls); [|done]. cbn [fold_left]. unfold lower_alpha. rewrite fmap_cons, Hd.
    cbn [existsb length]. do 2 f_equal. lia.
  - rewrite scan_step_char by done. replace (cur ++ lower_unit c :: (lower_unit <$> l))
      with ((cur ++ [lower_unit c]) ++ (lower_unit <$> l)) by (by rewrite <- app_assoc).
    destruct (label_prefix (cur ++ [lower_unit c])) eqn:Hp'.
    + rewrite IH by done. cbn zeta. destruct (labels_prefix _); [|done].
      unfold lower_alpha. rewrite fmap_cons. cbn [existsb fold_left]. by rewrite orb_assoc.
    + rewrite labels_prefix_first; [done | | done].
      rewrite elem_of_app, list_elem_of_singleton. pose proof (label_prefix_no_dot cur Hp). naive_solver.
Qed.

Lemma labels_prefix_all ls :
  ls ≠ [] →
  labels_prefix ls && nonempty (List.last ls []) && negb (bool_decide (last (List.last ls []) = Some 45))
  = forallb label_re ls.
Proof.
  intros Hls. destruct ls as [|x ls _] using rev_ind; [done |]. unfold labels_prefix.
  rewrite removelast_last, List.last_last, forallb_app. cbn [forallb]. rewrite andb_true_r, label_re_prefix.
  by destruct (forallb label_re ls), (label_prefix x), (nonempty x), (bool_decide _).
Qed.

Lemma prefix_last_spec l : nonempty l = true → (prefix_last l =? 45) = bool_decide (last l = Some 45).
Proof.
  intros Hl. unfold prefix_last. destruct (last l) as [x|] eqn:E; cbn.
  - destruct (Z.eqb_spec x 45) as [->|]; [by rewrite bool_decide_true | by rewrite bool_decide_false by congruence].
  - by rewrite bool_decide_false.
Qed.

Lemma short_not_domain w :
  (length w < 3)%nat → (Z.of_nat (length (split_on dot w)) <? 2) || negb (forallb label_re (split_on dot w)) = true.
Proof.
  intros Hw. destruct w as [|a [|b [|? ?]]]; [done | | | simpl in Hw; lia]; cbn.
  - by destruct (a =? dot).
  - destruct (a =? dot), (b =? dot); cbn; try done; by rewrite ?andb_false_r.
Qed.

Lemma ends_with_dot s : ends_with [dot] s = bool_decide (last s = Some dot).
Proof.
  unfold ends_with. destruct s as [|x s _] using rev_ind; [done |]. rewrite last_snoc, reverse_snoc.
  change (reverse [dot]) with [dot]. cbn [starts_with]. rewrite andb_true_r. destruct (Z.eqb_spec dot x) as [<-|]; [by rewrite bool_decide_true by done |].
  by rewrite bool_decide_false by congruence.
Qed.

Lemma lower_unit_dot c : lower_unit c = dot ↔ c = dot.
Proof. unfold lower_unit, dot. destruct (_ && _) eqn:?; lia. Qed.

Lemma drop_dot_lower s : drop_dot (lower_unit <$> s) = lower_unit <$> drop_dot s.
Proof.
  unfold drop_dot. rewrite !ends_with_dot, fmap_last, length_fmap, <- fmap_take.
  assert (bool_decide (lower_unit <$> last s = Some dot) = bool_decide (last s = Some dot)) as ->; [|by case_bool_decide].
  apply bool_decide_ext. destruct (last s) as [x|]; [|done]. cbn. pose proof (lower_unit_dot x). naive_solver.
Qed.

Lemma is_ascii_drop_dot s : is_ascii s → is_ascii (drop_dot s).
Proof. intros. unfold drop_dot. destruct (ends_with _ _); [by apply Forall_take | done]. Qed.

Lemma is_ascii_lower s : is_ascii s → is_ascii (lower_unit <$> s).
Proof.
  intros Hs. apply Forall_fmap. eapply Forall_impl; [exact Hs |]. intros c Hc. cbv beta in Hc. change (0 ≤ lower_unit c < 128).
  unfold lower_unit. destruct (_ && _) eqn:?; lia.
Qed.

(** The raw slice the byte hash works on is the slice without its dot. *)
Lemma hashDomainBytes_drop buf s e :
  0 ≤ s ≤ e → e ≤ blen buf →
  hashDomainBytes buf s e =
  let d := drop_dot (subarray buf s e) in
  if (blen d <? 3) || (253 <? blen d) then Invalid
  else match scan_loop d (Scan hash_init 0 0 46 false) with
       | inr r => r
       | inl st =>
           if (sc_labelLen st =? 0) || (sc_prev st =? 45) || (sc_dots st =? 0) || negb (sc_alpha st)
           then Invalid else Hash (hash_final (sc_h st))
       end.
Proof.
  intros Hs He. unfold hashDomainBytes. cbv zeta.
  assert ((s <? e) && bool_decide (byte_at buf (e - 1) = Some 46) = ends_with [dot] (subarray buf s e)) as Hd.
  { rewrite ends_with_dot. destruct (Z.ltb_spec s e); cbn [andb].
    - apply bool_decide_ext. rewrite last_lookup. unfold subarray, byte_at, blen in *.
      destruct (Z.ltb_spec (e - 1) 0); [lia |].
      rewrite length_take, length_drop, lookup_take_lt, lookup_drop by lia.
      replace (Z.to_nat s + _)%nat with (Z.to_nat (e - 1)) by lia. done.
    - unfold subarray. by replace (Z.to_nat (e - s)) with 0%nat by lia. }
  rewrite Hd. unfold drop_dot. destruct (ends_with [dot] (subarray buf s e)) eqn:E.
  - assert (s < e) by (destruct (Z.ltb_spec s e); [done | by rewrite andb_false_l in Hd]).
    assert (take (length (subarray buf s e) - 1) (subarray buf s e) = subarray buf s (e - 1)) as ->.
    { unfold subarray, blen in *. rewrite take_take, length_take, length_drop. f_equal. lia. }
    by rewrite length_subarray by lia.
  - by rewrite length_subarray by lia.
Qed.

Section HashSpec.
Context `{Unicode}.

Lemma cleanDomain_plain sl :
  is_ascii sl → forallb (λ c, negb (js_space c)) sl = true →
  cleanDomain false sl =
  let w := lower_unit <$> drop_dot sl in
  if negb (nonempty w) || (253 <? blen w) then None else check_domain false w.
Proof.
  intros Ha Hs. unfold cleanDomain. rewrite trim_id, toLowerCase_ascii, drop_dot_lower by done.
  cbv zeta. destruct (_ || _); [done |].
  assert (existsb (λ c, 127 <? c) (lower_unit <$> drop_dot sl) = false) as ->; [|done].
  apply not_true_is_false. intros (c & Hc%list_elem_of_In & Hlt)%existsb_exists.
  pose proof (is_ascii_lower _ (is_ascii_drop_dot sl Ha)) as Hl. unfold is_ascii in Hl.
  rewrite Forall_forall in Hl. apply Hl in Hc. lia.
Qed.

(** The one-pass hash of an ASCII slice is the hash of the cleaned name,
    for names with a letter or an underscore. *)
Lemma hashDomainBytes_clean buf s e :
  0 ≤ s ≤ e → e ≤ blen buf →
  is_ascii (subarray buf s e) → forallb (λ c, negb (js_space c)) (subarray buf s e) = true →
  hashDomainBytes buf s e =
  match cleanDomain false (subarray buf s e) with
  | Some d => if existsb (λ c, 57 <? c) d then Hash (hash53 d) else Invalid
  | None => Invalid
  end.
Proof.
  intros Hs He Ha Hsp. rewrite hashDomainBytes_drop, cleanDomain_plain by done. cbv zeta.
  pose proof (is_ascii_drop_dot _ Ha) as Hd. set (d := drop_dot (subarray buf s e)) in *. clearbody d.
  set (w := lower_unit <$> d).
  assert (blen w = blen d) as Hw by (unfold w, blen; by rewrite length_fmap). rewrite Hw.
  pose proof (split_on_nonempty dot w) as Hne. pose proof (short_not_domain w) as Hsh.
  unfold check_domain. set (ls := split_on dot w) in *.
  destruct (Z.ltb_spec 253 (blen d)); [by rewrite !orb_true_r |]. rewrite !orb_false_r.
  destruct (Z.ltb_spec (blen d) 3).
  { specialize (Hsh ltac:(unfold blen in *; lia)). cbn [negb andb].
    destruct (negb (nonempty w)); [done |]. destruct (nonempty w && _); [done |].
    destruct (Z.of_nat (length ls) <? 2); [done |]. by destruct (forallb label_re ls). }
  assert (nonempty w = true) as -> by (destruct w; [unfold blen in *; simpl in *; lia | done]). cbn [negb andb].
  pose proof (scan_loop_spec hash_init [] 0 false d Hd eq_refl) as Hscan. cbn zeta in Hscan.
  cbn [app] in Hscan. change (blen []) with 0 in Hscan. change (prefix_last []) with 46 in Hscan.
  fold w in Hscan. fold ls in Hscan. rewrite Hscan. clear Hscan Hsh.
  pose proof (labels_prefix_all ls Hne) as Hall. unfold lower_alpha. fold w. cbn [orb].
  destruct (labels_prefix ls).
  2: { cbn [andb] in Hall. rewrite <- Hall. by destruct (forallb _ w), (Z.of_nat (length ls) <? 2). }
  cbn [andb sc_labelLen sc_prev sc_dots sc_alpha sc_h] in *.
  destruct (nonempty (List.last ls [])) eqn:Hn; cbn [andb] in Hall.
  2: { rewrite <- Hall. destruct (List.last ls []); [|done]. by destruct (forallb _ w), (Z.of_nat (length ls) <? 2). }
  rewrite prefix_last_spec by done. destruct (Z.eqb_spec (blen (List.last ls [])) 0) as [Hz|_].
  { destruct (List.last ls []); [done | unfold blen in Hz; simpl in Hz; lia]. }
  cbn [orb]. rewrite <- Hall. destruct (bool_decide (last (List.last ls []) = _)).
  { by destruct (forallb _ w), (Z.of_nat (length ls) <? 2). }
  cbn [orb negb].
  destruct (Z.eqb_spec (0 + Z.of_nat (length ls) - 1) 0), (Z.ltb_spec (Z.of_nat (length ls)) 2);
    try (destruct ls; [done | simpl in *; lia]); [by destruct (forallb _ w) |].
  cbn [orb]. destruct (existsb (λ c, 57 <? c) w) eqn:Hex; cbn [negb].
  - destruct (forallb (λ c, is_digit c || (c =? dot)) w) eqn:Hf; [|by rewrite Hex].
    apply existsb_exists in Hex as (c & Hc & Hlt). rewrite forallb_forall in Hf. apply Hf in Hc.
    unfold is_digit, dot in Hc. lia.
  - destruct (forallb _ w); [done |]. by rewrite Hex.
Qed.
End HashSpec.

(** ** Progress and totality of the line parsers *)

Lemma subarray_cons b p e :
  0 ≤ p < e → e ≤ blen b → ∃ c, byte_at b p = Some c ∧ subarray b p e = c :: subarray b (p + 1) e.
Proof.
  intros Hp He. destruct (byte_at_is_Some b p) as [c Hc]; [lia |]. exists c. split; [done |].
  unfold subarray, byte_at in *. destruct (Z.ltb_spec p 0); [lia |].
  rewrite (drop_S b c (Z.to_nat p)) by done.
  replace (Z.to_nat (e - p)) with (S (Z.to_nat (e - (p + 1)))) by lia.
  replace (Z.to_nat (p + 1)) with (S (Z.to_nat p)) by lia. done.
Qed.

Lemma skip_fwd_hit f b p e c :
  0 ≤ p < e → e ≤ blen b → byte_at b p = Some c → f c = true → p < skip_fwd f b p e.
Proof.
  intros Hp He Hc Hf. destruct (subarray_cons b p e Hp He) as (c' & Hc' & Hs). simplify_eq.
  unfold skip_fwd. rewrite Hs. simpl. rewrite Hf. lia.
Qed.

Section Totality.
Context `{Unicode}.

(** The token loop makes progress with every round. *)
Lemma hosts_tokens_total fuel buf p e :
  0 ≤ p ≤ e → e ≤ blen buf → (Z.to_nat (e - p) < fuel)%nat →
  ∃ es, hosts_tokens fuel buf p e = Ok es.
Proof.
  revert p. induction fuel as [|fuel IH]; intros p Hp He Hf; [lia |]. cbn [hosts_tokens].
  destruct (Z.ltb_spec p e); [|by eexists].
  pose proof (skip_fwd_bounds isSpace buf p e ltac:(lia)) as Ht.
  set (t := skip_fwd isSpace buf p e) in *.
  pose proof (skip_fwd_bounds (λ c, negb (isSpace c)) buf t e ltac:(lia)) as Hq.
  assert (p < skip_fwd (λ c, negb (isSpace c)) buf t e) as Hlt.
  { destruct (byte_at_is_Some buf p) as [c Hc]; [lia |].
    destruct (isSpace c) eqn:Hsp.
    - pose proof (skip_fwd_hit isSpace buf p e c ltac:(lia) He Hc Hsp). unfold t in *. lia.
    - destruct (decide (p < t)); [lia |]. assert (t = p) as -> by lia.
      apply (skip_fwd_hit _ buf p e c); [lia | done | done | by rewrite Hsp]. }
  set (q := skip_fwd _ buf t e) in *.
  destruct (IH q) as [es ->]; [lia | done | lia |]. by eexists.
Qed.

Lemma parseLineBytes_total l format : ∃ es, parseLineBytes l 0 (blen l) format = Ok es.
Proof.
  unfold parseLineBytes. pose proof (blen_nonneg l) as HL.
  pose proof (skip_fwd_bounds isSpace l 0 (blen l) HL) as Hs. set (s := skip_fwd isSpace l 0 (blen l)) in *.
  pose proof (skip_bwd_bounds isSpace l s (blen l) ltac:(lia)) as He.
  set (e := skip_bwd isSpace l s (blen l)) in *. clearbody s e.
  destruct (Z.leb_spec e s); [by eexists |].
  change (if negb (index_of 35 ?b ?x =? -1) && (index_of 35 ?b ?x <? ?y)
          then skip_bwd isSpace ?b ?x (index_of 35 ?b ?x) else ?y) with (strip_comment b x y).
  pose proof (strip_comment_bounds l s e ltac:(lia)) as He'. set (e' := strip_comment l s e) in *. clearbody e'.
  destruct format; cycle 1.
  - destruct (_ || _); [by eexists |].
    pose proof (skip_fwd_bounds (λ c, negb (isSpace c)) l s e' ltac:(lia)).
    destruct (negb _); [by eexists |]. apply hosts_tokens_total; lia.
  - repeat case_match; by eexists.
  - repeat case_match; by eexists.
Qed.

(** The entries of a line and of a text. *)
Definition line_entries (format : list_format) (l : list Z) : list (entry_kind * Z) :=
  match parseLineBytes l 0 (blen l) format with Ok es => es | _ => [] end.
Definition text_entries (format : list_format) (ls : list (list Z)) : list (entry_kind * Z) :=
  concat ((λ l, if blen l <=? MAX_LINE then line_entries format l else []) <$> ls).
End Totality.

(** ** What the parsed list holds *)

Definition kind_hashes (k : entry_kind) (es : list (entry_kind * Z)) : list Z :=
  omap (λ '(k', h), match k, k' with
                    | KSuffix, KSuffix | KExact, KExact | KExcept, KExcept => Some h
                    | _, _ => None end) es.

Lemma kind_hashes_app k a b : kind_hashes k (a ++ b) = kind_hashes k a ++ kind_hashes k b.
Proof. apply omap_app. Qed.

Lemma elem_of_kind_hashes k h es : h ∈ kind_hashes k es ↔ (k, h) ∈ es.
Proof.
  unfold kind_hashes. rewrite list_elem_of_omap. split.
  - intros ([k' h'] & Hin & Hh). destruct k, k'; naive_solver.
  - intros Hin. exists (k, h). split; [done |]. by destruct k.
Qed.

Section Contents.
Context `{Unicode} (maxEntries : Z) (format : list_format).

Definition holds (st : pstate) (es : list (entry_kind * Z)) : Prop :=
  (hb_ok (p_suffix st) ∧ hb_contents (p_suffix st) = kind_hashes KSuffix es) ∧
  (hb_ok (p_exact st) ∧ hb_contents (p_exact st) = kind_hashes KExact es) ∧
  (hb_ok (p_except st) ∧ hb_contents (p_except st) = kind_hashes KExcept es) ∧
  p_total st = Z.of_nat (length es) ∧ p_total st ≤ maxEntries.

(** What adding entries to a state that holds [es] gives. *)
Definition adds (es new : list (entry_kind * Z)) (r : res pstate) : Prop :=
  if Z.of_nat (length (es ++ new)) <=? maxEntries then ∃ st, r = Ok st ∧ holds st (es ++ new)
  else r = Throw ListTooLarge.

Lemma adds_bind es a b r f :
  adds es a r → (∀ st, holds st (es ++ a) → adds (es ++ a) b (f st)) → adds es (a ++ b) (r ≫= f).
Proof.
  unfold adds. rewrite !(app_assoc es a b). intros Hr Hf.
  destruct (Z.leb_spec (Z.of_nat (length (es ++ a))) maxEntries).
  - destruct Hr as (st & -> & Hst). apply (Hf st Hst).
  - rewrite Hr. destruct (Z.leb_spec (Z.of_nat (length ((es ++ a) ++ b))) maxEntries) as [Hl|]; [|done].
    rewrite length_app in Hl. lia.
Qed.

Lemma add_entry_adds es st k h : holds st es → adds es [(k, h)] (add_entry maxEntries st k h).
Proof.
  intros ((Hs1 & Hs2) & (He1 & He2) & (Hx1 & Hx2) & Ht & Hm). unfold adds, add_entry. rewrite Ht, length_app.
  cbn [length]. destruct (Z.leb_spec (Z.of_nat (length es + 1)) maxEntries),
    (Z.ltb_spec maxEntries (Z.of_nat (length es) + 1)); try lia; [|done].
  eexists. split; [done |]. unfold holds. cbn [p_suffix p_exact p_except p_total].
  rewrite length_app, !kind_hashes_app. cbn [length].
  destruct (addHash_contents (p_suffix st) h Hs1), (addHash_contents (p_exact st) h He1),
    (addHash_contents (p_except st) h Hx1).
  destruct k; cbn [kind_hashes omap list_omap]; rewrite ?app_nil_r;
    (split_and!; [congruence..|lia|lia]).
Qed.

Lemma adds_nil st es : holds st es → adds es [] (Ok st).
Proof.
  intros Hst. unfold adds. rewrite app_nil_r. destruct (Z.leb_spec (Z.of_nat (length es)) maxEntries).
  - by exists st.
  - destruct Hst as (_ & _ & _ & ? & ?). lia.
Qed.

Lemma add_entries_adds es new st : holds st es → adds es new (add_entries maxEntries st new).
Proof.
  revert es st. induction new as [|[k h] new IH]; intros es st Hst; cbn [add_entries];
    [by apply adds_nil |].
  apply (adds_bind es [(k, h)] new); [by apply add_entry_adds |]. intros st' Hst'. by apply IH.
Qed.

Lemma line_adds es st l :
  holds st es → adds es (line_entries format l) (line maxEntries format st l 0 (blen l)).
Proof.
  intros Hst. unfold line, line_entries. destruct (parseLineBytes_total l format) as [new ->].
  cbn [mbind res_bind]. destruct new as [|x new].
  - destruct (_ && _); by apply adds_nil.
  - by apply add_entries_adds.
Qed.

Lemma line_entries_nil : line_entries format [] = [].
Proof. by destruct format. Qed.

Lemma full_lines_adds es st ls :
  holds st es → adds es (text_entries format ls) (full_lines maxEntries format st ls).
Proof.
  revert es st. induction ls as [|l ls IH]; intros es st Hst; [by apply adds_nil |].
  unfold text_entries. rewrite fmap_cons. cbn [concat].
  destruct ls as [|l' ls].
  - cbn [full_lines fmap list_fmap concat]. rewrite app_nil_r. pose proof (blen_nonneg l).
    destruct (Z.leb_spec (blen l) MAX_LINE); [|rewrite andb_false_r; by apply adds_nil].
    destruct (Z.ltb_spec 0 (blen l)); cbn [andb]; [by apply line_adds |].
    assert (l = []) as -> by (apply length_zero_iff_nil; unfold blen in *; lia).
    rewrite line_entries_nil. by apply adds_nil.
  - rewrite full_lines_cons by done. apply adds_bind; [|intros st' Hst'; by apply IH].
    unfold full_line. destruct (_ <=? _); [by apply line_adds | by apply adds_nil].
Qed.

Lemma init_state_holds expected :
  0 < maxEntries → holds (init_state format maxEntries expected) [].
Proof.
  intros Hm. unfold holds, init_state. set (cap := Z.to_nat _).
  assert (0 < cap)%nat as Hc by (unfold cap; lia).
  pose proof (newHashBuilder_ok 1024 ltac:(lia)) as H1. pose proof (newHashBuilder_ok cap Hc) as H2.
  cbn [p_suffix p_exact p_except p_total]. clearbody cap. destruct format; (split_and!; naive_solver lia).
Qed.
End Contents.

Lemma finish_holds maxEntries st es :
  holds maxEntries st es →
  cl_ok (pl_list (finish_parse st)) ∧
  (∀ h, h ∈ cl_suffix (pl_list (finish_parse st)) ↔ (KSuffix, h) ∈ es) ∧
  (∀ h, h ∈ cl_exact (pl_list (finish_parse st)) ↔ (KExact, h) ∈ es) ∧
  (∀ h, h ∈ cl_except (pl_list (finish_parse st)) ↔ (KExcept, h) ∈ es).
Proof.
  intros ((_ & Hs) & (_ & He) & (_ & Hx) & _). unfold finish_parse. cbn [pl_list cl_suffix cl_exact cl_except].
  split; [by split_and!; apply finish_ascending |].
  split_and!; intros h; rewrite elem_of_finish, ?Hs, ?He, ?Hx; apply elem_of_kind_hashes.
Qed.

Lemma parseListStream_eq `{Unicode} chunks format maxEntries expected :
  parseListStream chunks format maxEntries expected =
  st ← full_lines maxEntries format (init_state format maxEntries expected) (split_on NL (concat chunks));
  Ok (finish_parse st).
Proof.
  unfold parseListStream. set (st0 := init_state format maxEntries expected).
  change st0 with (pend st0 []) at 1. rewrite parse_chunks_run.
  pose proof (run_bytes_lines maxEntries format st0 [] (concat chunks) ltac:(set_solver)) as Hrun.
  cbn [app] in Hrun. rewrite <- Hrun. clear Hrun.
  destruct (run_bytes _ _ _ _ _) as [[st' pl']| |]; [|done|done]. cbn [mbind res_bind]. apply finish_pend.
Qed.

(** ** The theorems *)

(** Reading a blocklist in pieces is reading it whole: however the bytes
    are cut, exactly the complete lines of the text reach the line parser. *)
Theorem parseListStream_lines `{Unicode} chunks format maxEntries expected :
  parseListStream chunks format maxEntries expected =
  st ← full_lines maxEntries format (init_state format maxEntries expected) (split_on NL (concat chunks));
  Ok (finish_parse st).
Proof. apply parseListStream_eq. Qed.

(** C27: a parsed blocklist matches a name exactly when the entries of its
    lines say so, exceptions first; a list above the limit is refused, and
    reading always ends. *)
Theorem parseListStream_matches `{Unicode} chunks format maxEntries expected :
  0 < maxEntries →
  let es := text_entries format (split_on NL (concat chunks)) in
  match parseListStream chunks format maxEntries expected with
  | Ok p =>
      Z.of_nat (length es) ≤ maxEntries ∧
      ∀ name, cl_matches (pl_list p) name = Ok (
        negb (existsb (λ s, bool_decide ((KExcept, hash53 s) ∈ es)) (suffixes name)) &&
        (bool_decide ((KExact, hash53 name) ∈ es)
         || existsb (λ s, bool_decide ((KSuffix, hash53 s) ∈ es)) (suffixes name)))
  | Throw e => e = ListTooLarge ∧ maxEntries < Z.of_nat (length es)
  | NoFuel => False
  end.
Proof.
  intros Hm es. rewrite parseListStream_eq.
  pose proof (full_lines_adds maxEntries format [] _ (split_on NL (concat chunks))
    (init_state_holds maxEntries format expected Hm)) as Ha. fold es in Ha. unfold adds in Ha.
  cbn [app] in Ha. destruct (Z.leb_spec (Z.of_nat (length es)) maxEntries).
  2: { rewrite Ha. by split. }
  destruct Ha as (st & -> & Hst). cbn [mbind res_bind]. split; [done |]. intros name.
  destruct (finish_holds _ _ _ Hst) as (Hok & Hs & He & Hx).
  unfold cl_matches, suffixes. rewrite fmap_cons, matchHashes_spec by done.
  assert (∀ f g l, (∀ x, f (hash53 x) = g x) → existsb f (hash53 <$> l) = existsb g l) as Hmap.
  { clear. intros f g l Hfg. induction l as [|x l IH]; [done |]. rewrite fmap_cons. cbn. by rewrite Hfg, IH. }
  rewrite <- !fmap_cons. do 2 f_equal; [f_equal; apply Hmap | f_equal; [|apply Hmap]];
    intros; apply bool_decide_ext; done.
Qed.

(** ** Example *)

Definition sample_chunks : list (list Z) := [js "0.0.0.0 ads.exa"; js "mple"; [10]].
Definition sample_entries : list (entry_kind * Z) := @text_entries ascii_unicode Domains (split_on NL (concat sample_chunks)).

Lemma parseListStream_matches_witness : ∃ p,
  @parseListStream ascii_unicode sample_chunks Domains 10 0 = Ok p ∧
  DomainSet.cl_matches (pl_list p) (js "x.ads.example") =
    Ok (negb (existsb (λ s, bool_decide ((KExcept, DomainSet.hash53 s) ∈ sample_entries)) (DomainSet.suffixes (js "x.ads.example"))) &&
        (bool_decide ((KExact, DomainSet.hash53 (js "x.ads.example")) ∈ sample_entries)
         || existsb (λ s, bool_decide ((KSuffix, DomainSet.hash53 s) ∈ sample_entries)) (DomainSet.suffixes (js "x.ads.example")))).
Proof.
  pose proof (@parseListStream_matches ascii_unicode sample_chunks Domains 10 0 ltac:(lia)) as H.
  destruct (@parseListStream ascii_unicode sample_chunks Domains 10 0) as [p|e|] eqn:Hp; [| by vm_compute in Hp..].
  exists p. split; [reflexivity | exact (proj2 H (js "x.ads.example"))].
Defined.
