(* ===== verification/JsMap.v ===== *)
(** * JavaScript Map objects

    A [Map] iterates over its entries in insertion order: [set] of a known key
    keeps its place, [delete] followed by [set] moves it to the end.  The model
    is an association list without duplicate keys. *)

From S2P Require Import Prelude.

Section JsMap.
Context {K V : Type} `{EqDecision K}.

Abbreviation jsmap := (list (K * V)).

Fixpoint map_get (m : list (K * V)) (k : K) : option V :=
  match m with
  | [] => None
  | (k', v) :: m => if decide (k = k') then Some v else map_get m k
  end.

Definition map_has (m : list (K * V)) (k : K) : bool :=
  match map_get m k with Some _ => true | None => false end.

Fixpoint map_set (m : list (K * V)) (k : K) (v : V) : list (K * V) :=
  match m with
  | [] => [(k, v)]
  | (k', v') :: m => if decide (k = k') then (k, v) :: m else (k', v') :: map_set m k v
  end.

Fixpoint map_delete (m : list (K * V)) (k : K) : list (K * V) :=
  match m with
  | [] => []
  | (k', v) :: m => if decide (k = k') then map_delete m k else (k', v) :: map_delete m k
  end.

Definition map_size (m : list (K * V)) : Z := Z.of_nat (length m).

(** No key twice. *)
Definition map_ok (m : list (K * V)) : Prop := NoDup m.*1.

Lemma map_get_None m k : map_get m k = None ↔ k ∉ m.*1.
Proof.
  induction m as [|[k' v'] m IH]; csimpl; [set_solver |].
  rewrite not_elem_of_cons. destruct (decide (k = k')); naive_solver.
Qed.

Lemma map_get_elem m k v : map_get m k = Some v → (k, v) ∈ m.
Proof.
  induction m as [|[k' v'] m IH]; csimpl; [done |].
  destruct (decide (k = k')) as [->|]; [intros [= ->]; by left | right; auto].
Qed.

Lemma map_get_ok m k v : map_ok m → map_get m k = Some v ↔ (k, v) ∈ m.
Proof.
  unfold map_ok. split; [apply map_get_elem |]. revert H.
  induction m as [|[k' v'] m IH]; csimpl; [by intros ? ?%elem_of_nil |].
  intros [Hn Hd]%NoDup_cons [[= -> ->]|Hin]%elem_of_cons; [by rewrite decide_True |].
  rewrite decide_False; [by apply IH |]. intros ->. apply Hn. apply list_elem_of_fmap. by exists (k', v).
Qed.

Lemma map_set_keys m k v :
  (map_set m k v).*1 = if decide (k ∈ m.*1) then m.*1 else m.*1 ++ [k].
Proof.
  induction m as [|[k' v'] m IH]; cbn [map_set]; [by rewrite decide_False by set_solver |].
  destruct (decide (k = k')) as [->|]; rewrite !fmap_cons; cbn [fst].
  - by rewrite decide_True by set_solver.
  - rewrite IH. repeat case_decide; set_solver.
Qed.

Lemma map_set_ok m k v : map_ok m → map_ok (map_set m k v).
Proof.
  unfold map_ok. rewrite map_set_keys. case_decide; [done |]. intros.
  apply NoDup_app. split_and!; [done | set_solver | apply NoDup_singleton].
Qed.

Lemma map_delete_keys m k x : x ∈ (map_delete m k).*1 ↔ x ∈ m.*1 ∧ x ≠ k.
Proof.
  induction m as [|[k' v'] m IH]; cbn [map_delete]; [set_solver |].
  case_decide; subst; rewrite ?fmap_cons, ?elem_of_cons, IH; naive_solver.
Qed.

Lemma map_delete_ok m k : map_ok m → map_ok (map_delete m k).
Proof.
  unfold map_ok. induction m as [|[k' v'] m IH]; cbn [map_delete]; [done |].
  rewrite fmap_cons. intros [Hn Hd]%NoDup_cons. case_decide; [by apply IH |].
  rewrite fmap_cons. apply NoDup_cons. rewrite map_delete_keys. naive_solver.
Qed.

Lemma map_delete_elem m k e : e ∈ map_delete m k ↔ e ∈ m ∧ e.1 ≠ k.
Proof.
  induction m as [|[k1 v1] m IH]; cbn [map_delete]; [set_solver |].
  case_decide as Hk; rewrite ?elem_of_cons, IH; split.
  - intros []. auto.
  - intros [[-> | He] Hn]; [done | auto].
  - intros [-> | []]; auto.
  - intros [[-> | He] Hn]; auto.
Qed.

Lemma map_get_set m k v k' :
  map_get (map_set m k v) k' = if decide (k' = k) then Some v else map_get m k'.
Proof.
  induction m as [|[k1 v1] m IH]; csimpl; [done |].
  destruct (decide (k = k1)) as [->|]; csimpl.
  - repeat case_decide; congruence.
  - rewrite IH. repeat case_decide; congruence.
Qed.

Lemma map_get_delete m k k' :
  map_get (map_delete m k) k' = if decide (k' = k) then None else map_get m k'.
Proof.
  induction m as [|[k1 v1] m IH]; cbn [map_delete map_get]; [by case_decide |].
  destruct (decide (k = k1)) as [->|]; cbn [map_get]; rewrite IH; repeat case_decide; congruence.
Qed.

Lemma map_delete_notin m k : k ∉ m.*1 → map_delete m k = m.
Proof.
  induction m as [|[k1 v1] m IH]; cbn [map_delete]; [done |].
  rewrite fmap_cons. intros [Hk Hm]%not_elem_of_cons. rewrite decide_False by done. by rewrite IH.
Qed.

Lemma map_delete_first k v m : map_ok ((k, v) :: m) → map_delete ((k, v) :: m) k = m.
Proof.
  unfold map_ok. rewrite fmap_cons. intros [Hn _]%NoDup_cons. cbn [map_delete].
  rewrite decide_True by done. by apply map_delete_notin.
Qed.

Lemma map_set_length m k v : (length (map_set m k v) <= S (length m))%nat.
Proof. induction m as [|[k' v'] m IH]; cbn [map_set]; [done |]. case_decide; cbn [length]; lia. Qed.

Lemma map_set_Forall (P : K * V → Prop) m k v : Forall P m → P (k, v) → Forall P (map_set m k v).
Proof. intros Hm Hk. induction Hm as [|[k' v'] m Hp Hm IH]; cbn [map_set]; [by repeat constructor |]. case_decide; by constructor. Qed.

Lemma map_delete_Forall (P : K * V → Prop) m k : Forall P m → Forall P (map_delete m k).
Proof. induction 1 as [|[k' v'] m Hp Hm IH]; cbn [map_delete]; [constructor |]. case_decide; [done | by constructor]. Qed.

Lemma map_get_Forall (P : K * V → Prop) m k v : Forall P m → map_get m k = Some v → P (k, v).
Proof. intros Hm Hg%map_get_elem. rewrite Forall_forall in Hm. by apply Hm. Qed.

Lemma map_delete_length m k v : map_get m k = Some v → (S (length (map_delete m k)) <= length m)%nat.
Proof.
  assert (∀ m, (length (map_delete m k) <= length m)%nat) as Hle.
  { intros m'. induction m' as [|[k' v'] m' IH]; cbn [map_delete]; [done |]. case_decide; cbn [length]; lia. }
  induction m as [|[k' v'] m IH]; cbn [map_get map_delete]; [done |].
  case_decide; cbn [length]; [specialize (Hle m); lia |]. intros Hg%IH. lia.
Qed.

(** The sum of a measure over the entries. *)
Definition map_sum (f : V → Z) (m : list (K * V)) : Z := foldr (λ e s, f e.2 + s)%Z 0%Z m.

Lemma map_sum_app f a b : map_sum f (a ++ b) = (map_sum f a + map_sum f b)%Z.
Proof. induction a as [|[k v] a IH]; csimpl; [done |]. unfold map_sum in *. simpl. lia. Qed.

Lemma map_sum_delete f m k v :
  map_ok m → map_get m k = Some v → map_sum f (map_delete m k) = (map_sum f m - f v)%Z.
Proof.
  unfold map_ok. induction m as [|[k1 v1] m IH]; cbn [map_delete map_get]; [done |].
  rewrite fmap_cons. intros [Hn Hd]%NoDup_cons Hg. destruct (decide (k = k1)) as [->|].
  - simplify_eq. rewrite map_delete_notin by done. unfold map_sum. simpl. lia.
  - specialize (IH Hd Hg). unfold map_sum in *. simpl. lia.
Qed.

Lemma map_size_delete m k v :
  map_ok m → map_get m k = Some v → map_size (map_delete m k) = (map_size m - 1)%Z.
Proof.
  unfold map_ok, map_size. induction m as [|[k1 v1] m IH]; cbn [map_delete map_get]; [done |].
  rewrite fmap_cons. intros [Hn Hd]%NoDup_cons Hg. destruct (decide (k = k1)) as [->|].
  - rewrite map_delete_notin by done. simpl. lia.
  - specialize (IH Hd Hg). simpl. lia.
Qed.

Lemma map_set_new m k v : k ∉ m.*1 → map_set m k v = m ++ [(k, v)].
Proof.
  induction m as [|[k1 v1] m IH]; [done |]. rewrite fmap_cons. intros [Hk Hm]%not_elem_of_cons.
  cbn [map_set]. rewrite decide_False by done. by rewrite IH.
Qed.

Lemma map_size_snoc (m : list (K * V)) e : map_size (m ++ [e]) = (map_size m + 1)%Z.
Proof. unfold map_size. rewrite length_app. cbn [length]. lia. Qed.

Lemma map_delete_values m k v : map_ok m → map_get m k = Some v → (map_delete m k).*2 ++ [v] ≡ₚ m.*2.
Proof.
  induction m as [|[k1 v1] m IH]; [done |]. intros Hm Hg. pose proof Hm as [Hn Hm']%NoDup_cons.
  cbn [map_get] in Hg. case_decide as Hk.
  - injection Hg as ->. subst k1. rewrite map_delete_first by done. rewrite fmap_cons. cbn [snd]. by rewrite Permutation_app_comm.
  - cbn [map_delete]. rewrite decide_False by congruence. rewrite !fmap_cons. cbn [snd app]. by rewrite IH.
Qed.
End JsMap.
