(* ===== verification/ResponseCache.v ===== *)
(** * src/dns/responseCache.js

    The cache of upstream answers: least recently used order is the insertion
    order of the Map, the number of entries and of bytes is bounded. *)

From S2P Require Import Prelude JsBuffer JsMap DnsWire.

Local Open Scope Z_scope.

Definition MAX_TTL_S : Z := 86400.
Definition MAX_NEG_TTL_S : Z := 3600.
Definition DEFAULT_NEG_TTL_S : Z := 60.

Record entry := Entry { e_wire : list Z; e_ttlOffsets : list Z; e_storedAt : Z; e_expires : Z }.

Record cache := Cache {
  c_maxEntries : Z; c_maxBytes : Z; c_map : list (jstr * entry); c_bytes : Z
}.

Definition newResponseCache (maxEntries maxBytes : Z) : cache := Cache maxEntries maxBytes [] 0.

Definition _delete (c : cache) (k : jstr) (e : entry) : cache :=
  Cache (c_maxEntries c) (c_maxBytes c) (map_delete (c_map c) k) (c_bytes c - blen (e_wire e)).

(** [get(key)]: the new cache and the entry with its age in seconds. *)
Definition get (c : cache) (key : jstr) (now : Z) : cache * option (entry * Z) :=
  match map_get (c_map c) key with
  | None => (c, None)
  | Some e =>
      if e_expires e <=? now then (_delete c key e, None)
      else (Cache (c_maxEntries c) (c_maxBytes c) (map_set (map_delete (c_map c) key) key e) (c_bytes c),
            Some (e, (now - e_storedAt e) / 1000))
  end.

(** [ttlFor(meta)]; [None] is the result of a failed parse. *)
Definition ttlFor (meta : option response) : Z :=
  match meta with
  | None => 0
  | Some m =>
      if rs_tc m then 0
      else if (rs_rcode m =? 0) && (0 <? rs_an m) then Z.min MAX_TTL_S (default 0 (rs_minTtl m))
      else if (rs_rcode m =? 3) || ((rs_rcode m =? 0) && (rs_an m =? 0))
      then Z.min MAX_NEG_TTL_S (default DEFAULT_NEG_TTL_S (rs_negTtl m))
      else 0
  end.

(** The eviction loop: [fuel] is the number of entries. *)
Fixpoint evict (fuel : nat) (c : cache) : res cache :=
  match fuel with
  | O => NoFuel
  | S fuel =>
      if (c_maxEntries c <? map_size (c_map c)) || (c_maxBytes c <? c_bytes c) then
        match c_map c with
        | [] => Throw "TypeError"
        | (k, e) :: _ => evict fuel (_delete c k e)
        end
      else Ok c
  end.

(** [set(key, wire, meta)]; [wire.length > maxBytes / 16] is a comparison of
    real numbers. *)
Definition set (c : cache) (key : jstr) (wire : list Z) (meta : option response) (now : Z)
    : res (cache * bool) :=
  let ttl := ttlFor meta in
  if (ttl <=? 0) || (c_maxBytes c <? 16 * blen wire) then Ok (c, false)
  else
    let c := match map_get (c_map c) key with Some old => _delete c key old | None => c end in
    let offs := match meta with Some m => rs_ttlOffsets m | None => [] end in
    let e := Entry wire offs now (now + ttl * 1000) in
    let c := Cache (c_maxEntries c) (c_maxBytes c) (map_set (c_map c) key e) (c_bytes c + blen wire) in
    c ← evict (S (length (c_map c))) c;
    Ok (c, true).

Definition clear (c : cache) : cache := Cache (c_maxEntries c) (c_maxBytes c) [] 0.

(** ** The invariant *)

Definition wire_bytes (m : list (jstr * entry)) : Z := map_sum (λ e, blen (e_wire e)) m.

(** The byte count is the sum over the entries, no key occurs twice. *)
Record cache_acc (c : cache) : Prop := {
  acc_keys : map_ok (c_map c);
  acc_bytes : c_bytes c = wire_bytes (c_map c);
  acc_maxEntries : 0 ≤ c_maxEntries c;
  acc_maxBytes : 0 ≤ c_maxBytes c
}.

Definition fits (maxEntries maxBytes : Z) (m : list (jstr * entry)) : bool :=
  (map_size m <=? maxEntries) && (wire_bytes m <=? maxBytes).

Definition cache_ok (c : cache) : Prop :=
  cache_acc c ∧ fits (c_maxEntries c) (c_maxBytes c) (c_map c) = true.

Lemma newResponseCache_ok n b : 0 ≤ n → 0 ≤ b → cache_ok (newResponseCache n b).
Proof.
  intros. split; [split; cbn [c_map c_bytes c_maxEntries c_maxBytes _delete]; [apply NoDup_nil_2 | done..] |]. unfold fits. cbn.
  apply andb_true_intro. split; by apply Z.leb_le.
Qed.

Lemma wire_bytes_delete m k e :
  map_ok m → map_get m k = Some e → wire_bytes (map_delete m k) = wire_bytes m - blen (e_wire e).
Proof. apply (map_sum_delete (λ e, blen (e_wire e))). Qed.

Lemma delete_acc c k e :
  cache_acc c → map_get (c_map c) k = Some e → cache_acc (_delete c k e).
Proof.
  intros [Hk Hb ? ?] Hg. split; cbn [c_map c_bytes c_maxEntries c_maxBytes _delete]; [by apply map_delete_ok | | done | done].
  rewrite Hb. symmetry. by apply wire_bytes_delete.
Qed.

Lemma wire_bytes_nonneg m : 0 ≤ wire_bytes m.
Proof. induction m as [|[k e] m IH]; [done |]. unfold wire_bytes, map_sum in *. simpl. blen_lia. Qed.

Lemma fits_nil n b : 0 ≤ n → 0 ≤ b → fits n b [] = true.
Proof. intros. unfold fits. cbn. apply andb_true_intro. split; by apply Z.leb_le. Qed.

(** Eviction drops the oldest entries, and no more of them than needed. *)
Lemma evict_spec fuel c :
  cache_acc c → (length (c_map c) < fuel)%nat →
  ∃ k c', evict fuel c = Ok c' ∧ cache_ok c' ∧
    c_maxEntries c' = c_maxEntries c ∧ c_maxBytes c' = c_maxBytes c ∧
    c_map c' = drop k (c_map c) ∧ (k ≤ length (c_map c))%nat ∧
    ∀ j, (j < k)%nat → fits (c_maxEntries c) (c_maxBytes c) (drop j (c_map c)) = false.
Proof.
  revert c. induction fuel as [|fuel IH]; intros c Hc Hf; [lia |]. cbn [evict].
  assert ((c_maxEntries c <? map_size (c_map c)) || (c_maxBytes c <? c_bytes c)
          = negb (fits (c_maxEntries c) (c_maxBytes c) (c_map c))) as ->.
  { unfold fits. rewrite (acc_bytes c Hc), negb_andb, !Z.ltb_antisym. done. }
  destruct (fits _ _ (c_map c)) eqn:Hfit; cbn [negb].
  { exists 0%nat, c. split_and!; try done; [lia | intros j ?; lia]. }
  destruct (c_map c) as [|[k e] m] eqn:Hm.
  { rewrite fits_nil in Hfit by apply Hc. done. }
  assert (map_get (c_map c) k = Some e) as Hg by (rewrite Hm; cbn; by rewrite decide_True).
  pose proof (delete_acc c k e Hc Hg) as Hd.
  assert (c_map (_delete c k e) = m) as Hdm.
  { cbn. rewrite Hm. apply map_delete_first. rewrite <- Hm. apply Hc. }
  destruct (IH (_delete c k e) Hd) as (n & c' & Hev & Hok & He & Hb & Hmap & Hn & Hmin).
  { rewrite Hdm. simpl in Hf. lia. }
  rewrite Hdm in *. exists (S n), c'. split_and!; try done; [cbn; lia |].
  intros [|j] Hj; [done | apply Hmin; lia].
Qed.

Lemma map_delete_set m (k : jstr) (e : entry) :
  map_set (map_delete m k) k e = map_delete m k ++ [(k, e)].
Proof. apply map_set_new. rewrite map_delete_keys. naive_solver. Qed.

Lemma acc_put c k e :
  cache_acc c → k ∉ (c_map c).*1 →
  cache_acc (Cache (c_maxEntries c) (c_maxBytes c) (map_set (c_map c) k e) (c_bytes c + blen (e_wire e))).
Proof.
  intros [Hk Hb ? ?] Hn. split; cbn [c_map c_bytes c_maxEntries c_maxBytes _delete]; [by apply map_set_ok | | done | done].
  rewrite map_set_new by done. unfold wire_bytes in *. rewrite map_sum_app, Hb. unfold map_sum at 3. cbn. lia.
Qed.

(** The map a stored answer is put into: without its old entry, at the end. *)
Definition put (m : list (jstr * entry)) (key : jstr) (e : entry) : list (jstr * entry) :=
  map_delete m key ++ [(key, e)].

Definition storable (c : cache) (wire : list Z) (meta : option response) : bool :=
  (0 <? ttlFor meta) && (16 * blen wire <=? c_maxBytes c).

Definition stored (wire : list Z) (meta : option response) (now : Z) : entry :=
  Entry wire (match meta with Some m => rs_ttlOffsets m | None => [] end) now (now + ttlFor meta * 1000).

Lemma set_storable c key wire meta now :
  cache_acc c → storable c wire meta = true →
  ∃ k c', set c key wire meta now = Ok (c', true) ∧ cache_ok c' ∧
    c_maxEntries c' = c_maxEntries c ∧ c_maxBytes c' = c_maxBytes c ∧
    let m := put (c_map c) key (stored wire meta now) in
    c_map c' = drop k m ∧ (k ≤ length m)%nat ∧
    ∀ j, (j < k)%nat → fits (c_maxEntries c) (c_maxBytes c) (drop j m) = false.
Proof.
  intros Hc [Ht Hw]%andb_prop. unfold set.
  replace ((ttlFor meta <=? 0) || (c_maxBytes c <? 16 * blen wire)) with false
    by (symmetry; apply orb_false_iff; split; [apply Z.leb_gt | apply Z.ltb_ge]; lia).
  set (c0 := match map_get (c_map c) key with Some old => _ | None => _ end).
  assert (cache_acc c0 ∧ c_map c0 = map_delete (c_map c) key ∧
          c_maxEntries c0 = c_maxEntries c ∧ c_maxBytes c0 = c_maxBytes c) as (H0 & Hm0 & He0 & Hb0).
  { unfold c0. destruct (map_get (c_map c) key) as [old|] eqn:E.
    - split_and!; [by apply delete_acc | done..].
    - split_and!; [done | | done | done]. symmetry. by apply map_delete_notin, map_get_None. }
  clearbody c0. fold (stored wire meta now).
  assert (key ∉ (c_map c0).*1) as Hk by (rewrite Hm0, map_delete_keys; naive_solver).
  pose proof (acc_put c0 key (stored wire meta now) H0 Hk) as Hacc. cbn [e_wire stored] in Hacc.
  set (c1 := Cache _ _ _ _) in *.
  assert (c_map c1 = put (c_map c) key (stored wire meta now)) as Hm1.
  { unfold put. cbn. by rewrite <- map_delete_set, <- Hm0. }
  destruct (evict_spec (S (length (c_map c1))) c1 Hacc ltac:(lia))
    as (k & c' & -> & Hok & He & Hb & Hmap & Hle & Hmin).
  rewrite Hm1 in *. exists k, c'. cbn [mbind res_bind].
  change (c_maxEntries c1) with (c_maxEntries c0) in *. change (c_maxBytes c1) with (c_maxBytes c0) in *.
  rewrite He0, Hb0 in *. by split_and!.
Qed.

Lemma set_not_storable c key wire meta now :
  storable c wire meta = false → set c key wire meta now = Ok (c, false).
Proof.
  unfold storable, set. intros Hs. destruct (_ || _) eqn:E; [done |].
  apply orb_false_iff in E as [?%Z.leb_gt ?%Z.ltb_ge].
  apply andb_false_iff in Hs as [?%Z.ltb_ge|?%Z.leb_gt]; lia.
Qed.

(** One entry that fits on its own is never evicted by its own [set]. *)
Lemma set_keeps c key wire meta now c' :
  cache_acc c → 1 ≤ c_maxEntries c → set c key wire meta now = Ok (c', true) →
  map_get (c_map c') key = Some (stored wire meta now).
Proof.
  intros Hc H1 Hs. destruct (storable c wire meta) eqn:E; [|by rewrite set_not_storable in Hs].
  destruct (set_storable c key wire meta now Hc E) as (k & c2 & Hs2 & [Hok _] & _ & _ & Hm & Hle & Hmin).
  rewrite Hs in Hs2. injection Hs2 as <-. cbn zeta in *.
  apply map_get_ok; [apply Hok |]. rewrite Hm. unfold put in *.
  set (m := map_delete (c_map c) key) in *. rewrite length_app in Hle. cbn [length] in Hle.
  destruct (decide (k ≤ length m)%nat).
  { rewrite drop_app_le by done. apply elem_of_app. right. by apply list_elem_of_singleton. }
  exfalso. specialize (Hmin (length m) ltac:(lia)). rewrite drop_app_length in Hmin.
  unfold fits, wire_bytes, map_sum, map_size in Hmin. cbn in Hmin.
  unfold storable in E. apply andb_prop in E as [_ E%Z.leb_le]. pose proof (blen_nonneg wire).
  apply andb_false_iff in Hmin as [?%Z.leb_gt|?%Z.leb_gt]; lia.
Qed.

Lemma get_cache_ok c key now : cache_ok c → cache_ok (get c key now).1.
Proof.
  intros [Hc Hfit]. unfold get. destruct (map_get (c_map c) key) as [e|] eqn:E; [|done].
  assert (map_size (map_delete (c_map c) key) = map_size (c_map c) - 1) as Hsz
    by (apply (map_size_delete _ _ e); [apply Hc | done]).
  assert (wire_bytes (map_delete (c_map c) key) = wire_bytes (c_map c) - blen (e_wire e)) as Hwb
    by (apply wire_bytes_delete; [apply Hc | done]).
  unfold fits in *. apply andb_prop in Hfit as [?%Z.leb_le ?%Z.leb_le]. pose proof (blen_nonneg (e_wire e)).
  destruct (_ <=? now); cbn [fst].
  - split; [by apply delete_acc |]. cbn. apply andb_true_intro. split; apply Z.leb_le; lia.
  - rewrite map_delete_set. destruct Hc as [Hk Hb ? ?].
    assert (map_ok (map_delete (c_map c) key ++ [(key, e)])) as Hok'.
    { rewrite <- map_delete_set. by apply map_set_ok, map_delete_ok. }
    assert (wire_bytes (map_delete (c_map c) key ++ [(key, e)]) = wire_bytes (c_map c)) as Hw'.
    { unfold wire_bytes in *. rewrite map_sum_app, Hwb. unfold map_sum at 2. cbn. lia. }
    split; [split; cbn [c_map c_bytes c_maxEntries c_maxBytes _delete]; [done | by rewrite Hw' | done | done] |].
    cbn [c_map c_maxEntries c_maxBytes]. unfold fits. rewrite Hw'.
    unfold map_size in *. rewrite length_app. cbn [length]. apply andb_true_intro. split; apply Z.leb_le; lia.
Qed.

(** ** The theorems *)

(** Storing a response keeps the cache within its entries and bytes: the
    oldest entries go, as few as are needed, and the new one is found; what
    may not be stored changes nothing. *)
Theorem set_spec c key wire meta now :
  cache_ok c →
  if storable c wire meta then
    ∃ k c', set c key wire meta now = Ok (c', true) ∧ cache_ok c' ∧
      let m := put (c_map c) key (stored wire meta now) in
      c_map c' = drop k m ∧
      (∀ j, (j < k)%nat → fits (c_maxEntries c) (c_maxBytes c) (drop j m) = false) ∧
      (1 ≤ c_maxEntries c → map_get (c_map c') key = Some (stored wire meta now))
  else set c key wire meta now = Ok (c, false).
Proof.
  intros [Hc _]. destruct (storable c wire meta) eqn:E; [|by apply set_not_storable].
  destruct (set_storable c key wire meta now Hc E) as (k & c' & Hs & Hok & _ & _ & Hm & _ & Hmin).
  exists k, c'. cbn zeta. split_and!; try done. intros H1. by eapply set_keeps.
Qed.

(** A stored response is found with its age until its time to live is
    over, and is gone from then on. *)
Theorem get_after_set c key wire meta now c' now' :
  cache_ok c → 1 ≤ c_maxEntries c → set c key wire meta now = Ok (c', true) → now ≤ now' →
  cache_ok (get c' key now').1 ∧
  if now' <? now + ttlFor meta * 1000 then
    ∃ age, (get c' key now').2 = Some (stored wire meta now, age) ∧ 0 ≤ age < ttlFor meta ∧
      map_get (c_map (get c' key now').1) key = Some (stored wire meta now)
  else (get c' key now').2 = None ∧ map_get (c_map (get c' key now').1) key = None.
Proof.
  intros [Hc _] H1 Hs Hle. pose proof (set_keeps _ _ _ _ _ _ Hc H1 Hs) as Hg.
  assert (cache_ok c') as Hok'.
  { destruct (storable c wire meta) eqn:E; [|by rewrite set_not_storable in Hs].
    destruct (set_storable c key wire meta now Hc E) as (k & c2 & Hs2 & Hok & _). congruence. }
  split; [by apply get_cache_ok |]. unfold get. rewrite Hg. cbn [e_expires stored].
  destruct (Z.ltb_spec now' (now + ttlFor meta * 1000)), (Z.leb_spec (now + ttlFor meta * 1000) now'); try lia.
  - eexists. split; [done |]. split.
    + split; [apply Z.div_pos; cbn; lia |]. apply Z.div_lt_upper_bound; cbn; lia.
    + cbn. by rewrite map_get_set, decide_True.
  - split; [done |]. cbn. by rewrite map_get_delete, decide_True.
Qed.

(** ** Examples *)

Definition sample_meta : response := Response 1 0 false (Some (js "a")) [] (Some 300) None [] 1.
Definition sample_wire : list Z := [0; 1; 129; 128].

Lemma sample_cache_ok : cache_ok (newResponseCache 10 1000).
Proof. by apply newResponseCache_ok. Qed.

Lemma set_spec_witness : ∃ k c',
  set (newResponseCache 10 1000) (js "k") sample_wire (Some sample_meta) 5000 = Ok (c', true) ∧ cache_ok c' ∧
  c_map c' = drop k (put [] (js "k") (stored sample_wire (Some sample_meta) 5000)).
Proof.
  pose proof (set_spec (newResponseCache 10 1000) (js "k") sample_wire (Some sample_meta) 5000 sample_cache_ok) as H.
  destruct H as (k & c' & Hs & Hok & Hm & _). exists k, c'. by split_and!.
Defined.

Lemma get_after_set_witness : ∃ c' age,
  set (newResponseCache 10 1000) (js "k") sample_wire (Some sample_meta) 5000 = Ok (c', true) ∧
  (get c' (js "k") 65000).2 = Some (stored sample_wire (Some sample_meta) 5000, age).
Proof.
  destruct (set (newResponseCache 10 1000) (js "k") sample_wire (Some sample_meta) 5000) as [[c' []]| |] eqn:Hs;
    [|by vm_compute in Hs..].
  destruct (get_after_set _ _ _ _ _ c' 65000 sample_cache_ok ltac:(cbn; lia) Hs ltac:(lia)) as [_ (age & Hg & _)].
  exists c', age. by split.
Defined.
