(* ===== verification/SafeSearch.v ===== *)
(** * src/dns/safeSearch.js

    Safe search by DNS: the name a provider's host is redirected to. *)

From S2P Require Import Prelude JsMap DomainSet.

Local Open Scope Z_scope.

Definition GOOGLE_NOT : list jstr :=
  [js "google.dev"; js "google.app"; js "google.org"; js "google.net";
   js "www.google.dev"; js "www.google.app"; js "www.google.org"; js "www.google.net"].

Definition FIXED : list (jstr * jstr) :=
  [(js "www.youtube.com", js "restrict.youtube.com");
   (js "youtube.com", js "restrict.youtube.com");
   (js "m.youtube.com", js "restrict.youtube.com");
   (js "youtubei.googleapis.com", js "restrict.youtube.com");
   (js "youtube.googleapis.com", js "restrict.youtube.com");
   (js "www.youtube-nocookie.com", js "restrict.youtube.com");
   (js "www.bing.com", js "strict.bing.com");
   (js "bing.com", js "strict.bing.com");
   (js "duckduckgo.com", js "safe.duckduckgo.com");
   (js "www.duckduckgo.com", js "safe.duckduckgo.com");
   (js "start.duckduckgo.com", js "safe.duckduckgo.com")].

(** [s] without the prefix [p]. *)
Definition strip_prefix (p s : jstr) : option jstr :=
  if starts_with p s then Some (drop (length p) s) else None.

(** [[a-z]{2}] up to the end *)
Definition two_letters (s : jstr) : bool :=
  match s with [a; b] => is_lower a && is_lower b | _ => false end.

(** [((com?\.)?[a-z]{2}|com)$] *)
Definition google_tld (s : jstr) : bool :=
  two_letters s
  || match strip_prefix (js "co.") s with Some r => two_letters r | None => false end
  || match strip_prefix (js "com.") s with Some r => two_letters r | None => false end
  || bool_decide (s = js "com").

(** [GOOGLE_RE = /^(www\.)?google\.((com?\.)?[a-z]{2}|com)$/] *)
Definition google_re (name : jstr) : bool :=
  let after_google s :=
    match strip_prefix (js "google.") s with Some r => google_tld r | None => false end in
  after_google name
  || match strip_prefix (js "www.") name with Some r => after_google r | None => false end.

Definition safeSearchTarget (name : jstr) : option jstr :=
  match map_get FIXED name with
  | Some t => Some t
  | None =>
      if google_re name && negb (bool_decide (name ∈ GOOGLE_NOT))
      then Some (js "forcesafesearch.google.com") else None
  end.

(** ** Lemmas *)

Lemma strip_prefix_Some p s r : strip_prefix p s = Some r ↔ s = p ++ r.
Proof.
  unfold strip_prefix. destruct (starts_with p s) eqn:E.
  - apply starts_with_app in E as [r' ->]. rewrite drop_app_length. split; [congruence |].
    by intros ->%app_inv_head.
  - split; [done |]. intros ->. assert (starts_with p (p ++ r) = true) by (apply starts_with_app; eauto).
    congruence.
Qed.

Definition letters2 (s : jstr) : Prop := ∃ a b, s = [a; b] ∧ 97 ≤ a ≤ 122 ∧ 97 ≤ b ≤ 122.

Lemma two_letters_spec s : two_letters s = true ↔ letters2 s.
Proof.
  unfold letters2, two_letters, is_lower. split.
  - destruct s as [|a [|b [|? ?]]]; try done. intros. exists a, b. split; [done | lia].
  - intros (a & b & -> & ? & ?). simpl. lia.
Qed.

(** The language of [GOOGLE_RE]. *)
Definition google_host (name : jstr) : Prop :=
  ∃ www tld, (www = [] ∨ www = js "www.") ∧ name = www ++ js "google." ++ tld ∧
    (tld = js "com" ∨ ∃ co cc, (co = [] ∨ co = js "co." ∨ co = js "com.") ∧ letters2 cc ∧ tld = co ++ cc).

Lemma google_tld_spec s :
  google_tld s = true ↔
  s = js "com" ∨ ∃ co cc, (co = [] ∨ co = js "co." ∨ co = js "com.") ∧ letters2 cc ∧ s = co ++ cc.
Proof.
  unfold google_tld. rewrite !orb_true_iff, two_letters_spec, bool_decide_eq_true.
  assert (∀ p, match strip_prefix p s with Some r => two_letters r | None => false end = true
               ↔ ∃ cc, letters2 cc ∧ s = p ++ cc) as Hp.
  { intros p. destruct (strip_prefix p s) as [r|] eqn:E.
    - apply strip_prefix_Some in E as ->. rewrite two_letters_spec. split; [eauto |].
      intros (cc & Hcc & ->%app_inv_head). done.
    - split; [done |]. intros (cc & _ & Hs). apply strip_prefix_Some in Hs. congruence. }
  rewrite !Hp. split.
  - intros [[[Hs|(cc & Hcc & ->)]|(cc & Hcc & ->)]|Hs]; [| | |by left]; right; eauto 8.
  - intros [Hs|(co & cc & [->|[->| ->]] & Hcc & ->)]; [by right | | |]; eauto 8.
Qed.

Lemma google_re_spec name : google_re name = true ↔ google_host name.
Proof.
  unfold google_re, google_host.
  assert (∀ s, match strip_prefix (js "google.") s with Some r => google_tld r | None => false end = true
               ↔ ∃ tld, s = js "google." ++ tld ∧ google_tld tld = true) as Hg.
  { intros s. destruct (strip_prefix _ s) as [r|] eqn:E.
    - apply strip_prefix_Some in E as ->. split; [eauto |]. by intros (t & <-%app_inv_head & ?).
    - split; [done |]. intros (t & Hs & _). apply strip_prefix_Some in Hs. congruence. }
  rewrite orb_true_iff, Hg.
  assert (∀ (f : jstr → bool) p s, match strip_prefix p s with Some r => f r | None => false end = true
               ↔ ∃ r, s = p ++ r ∧ f r = true) as Hw.
  { intros f p s. destruct (strip_prefix p s) as [r|] eqn:E.
    - apply strip_prefix_Some in E as ->. split; [eauto |]. by intros (t & <-%app_inv_head & ?).
    - split; [done |]. intros (t & Hs & _). apply strip_prefix_Some in Hs. congruence. }
  rewrite Hw. setoid_rewrite Hg. setoid_rewrite google_tld_spec. split.
  - intros [(t & -> & Ht)|(r & -> & t & -> & Ht)]; [exists [], t | exists (js "www."), t]; eauto.
  - intros (www & t & [->| ->] & -> & Ht); [left | right]; eauto.
Qed.

(** ** The theorems *)

(** Safe search rewrites exactly the fixed search hosts and the country
    hosts of Google, and nothing else. *)
Theorem safeSearchTarget_spec name t :
  safeSearchTarget name = Some t ↔
  (name, t) ∈ FIXED ∨
  (name ∉ FIXED.*1 ∧ google_host name ∧ name ∉ GOOGLE_NOT ∧ t = js "forcesafesearch.google.com").
Proof.
  unfold safeSearchTarget. assert (map_ok FIXED) as Hok by (by apply (bool_decide_unpack (NoDup FIXED.*1))).
  destruct (map_get FIXED name) as [t'|] eqn:E.
  - rewrite <- (map_get_ok FIXED name t) by done. rewrite E. split; [by left |].
    intros [?|[Hn _]]; [done |]. apply map_get_None in Hn. congruence.
  - assert (name ∉ FIXED.*1) as Hn by by apply map_get_None.
    assert ((name, t) ∉ FIXED) by (intros ?%(map_get_ok FIXED name t Hok); congruence).
    pose proof (google_re_spec name). destruct (google_re name); cbn [andb]; [|naive_solver].
    case_bool_decide; cbn [negb]; naive_solver.
Qed.
