(* ===== verification/Policy.v ===== *)
(** * src/dns/policy.js

    The decision for one query: profile by MAC address, pauses, exceptions,
    schedules, block lists, safe search. *)

From S2P Require Import Prelude JsBuffer JsMap NetwatchDnsWire DomainSet SafeSearch.

Local Open Scope Z_scope.

Definition CANARY : jstr := js "use-application-dns.net".
Definition LOCAL_SUFFIXES : list jstr :=
  js <$> ["local"; "lan"; "home"; "home.arpa"; "internal"; "localdomain"; "localhost"; "fritz.box";
          "speedport.ip"; "box.lan"]%string.
Definition PRIVATE_REVERSE : list jstr :=
  (js <$> ["10.in-addr.arpa"; "168.192.in-addr.arpa"; "254.169.in-addr.arpa"]%string)
  ++ ((λ i, show_Z (16 + i) ++ js ".172.in-addr.arpa") <$> seqZ 0 16)
  ++ (js <$> ["d.f.ip6.arpa"; "c.f.ip6.arpa"; "8.e.f.ip6.arpa"; "9.e.f.ip6.arpa"; "a.e.f.ip6.arpa";
              "b.e.f.ip6.arpa"]%string).

(** The fields of a [Date] in the time zone of the process. *)
Record jsdate := JsDate { getDay : Z; getHours : Z; getMinutes : Z }.
Class LocalTime := { localDate : Z → jsdate }.

(** ** The configuration: normalised [features.dns] *)

Record schedule := Schedule {
  s_days : list Z; s_from : Z; s_to : Z; s_block : jstr; s_categories : list jstr;
  s_allowAlways : list jstr
}.
Record profile := Profile {
  pr_id : jstr; pr_macs : list jstr; pr_allow : list jstr; pr_deny : list jstr;
  pr_lists : list jstr; pr_schedules : list schedule; pr_safeSearch : bool
}.
Record until := Until { u_macs : list jstr; u_until : Z }.
Record dns_cfg := DnsCfg {
  cf_alwaysAllow : list jstr; cf_categories : list (jstr * list jstr); cf_profiles : list profile;
  cf_defaultProfile : option jstr; cf_pauses : list until; cf_extensions : list until
}.

(** [s.block === 'all'] *)
Definition blocks_all (s : schedule) : bool := bool_decide (s_block s = js "all").

(** ** Times *)

Definition scheduleActive (s : schedule) (date : jsdate) : bool :=
  let wd := getDay date in
  let iso := if wd =? 0 then 7 else wd in
  let prev := if iso =? 1 then 7 else iso - 1 in
  let m := getHours date * 60 + getMinutes date in
  let has d := bool_decide (d ∈ s_days s) in
  if s_from s =? s_to s then has iso
  else if s_from s <? s_to s then has iso && (s_from s <=? m) && (m <? s_to s)
  else (has iso && (s_from s <=? m)) || (has prev && (m <? s_to s)).

(** [for (const e of entries) for (const mac of e.macs) m.set(...)] *)
Definition untilMap (entries : list until) : list (jstr * Z) :=
  fold_left (λ m e, fold_left (λ m mac, map_set m mac (Z.max (default 0 (map_get m mac)) (u_until e)))
                      (u_macs e) m) entries [].

(** ** The policy object *)

Record sched := Sched { sc_schedule : schedule; sc_allowSet : PatternSet }.
Record prof := Prof {
  pf_profile : profile; pf_allowSet : PatternSet; pf_denySet : PatternSet; pf_schedules : list sched
}.
Record policy := Policy {
  po_lists : list (jstr * CompactList);
  po_alwaysAllow : PatternSet; po_local : PatternSet; po_categories : list (jstr * PatternSet);
  po_profiles : list (jstr * prof); po_byMac : list (jstr * prof); po_defaultProfile : option prof;
  po_pauses : list (jstr * Z); po_extensions : list (jstr * Z)
}.

(** [s.replace(/^\./, '')] *)
Definition strip_dot (s : jstr) : jstr := match s with c :: r => if c =? dot then r else s | [] => [] end.

Section Policy.
Context `{Unicode} `{LocalTime}.

Definition compile_profile (p : profile) : prof :=
  Prof p (newPatternSet (pr_allow p)) (newPatternSet (pr_deny p))
    ((λ s, Sched s (newPatternSet (s_allowAlways s))) <$> pr_schedules p).

(** The loop that enters single labels without going through [cleanDomain]. *)
Definition add_single_labels (local : PatternSet) (l : list jstr) : PatternSet :=
  fold_left (λ ps s, if nonempty s && negb (includes dot s)
                     then Patterns ({[toLowerCase s]} ∪ ps_incl ps) (ps_sub ps) else ps) l local.

Definition newPolicy (cfg : dns_cfg) (lists : list (jstr * CompactList))
    (extraAllow localSuffixes : list jstr) : policy :=
  let local := newPatternSet (strip_dot <$> List.filter nonempty
                 (LOCAL_SUFFIXES ++ PRIVATE_REVERSE ++ localSuffixes)) in
  let profiles := fold_left (λ m p, map_set m (pr_id p) (compile_profile p)) (cf_profiles cfg) [] in
  let byMac := fold_left (λ m p,
                 fold_left (λ m mac, if map_has m mac then m else map_set m mac (compile_profile p))
                   (pr_macs p) m) (cf_profiles cfg) [] in
  Policy lists (newPatternSet (cf_alwaysAllow cfg ++ extraAllow))
    (add_single_labels local (LOCAL_SUFFIXES ++ localSuffixes))
    (fold_left (λ m '(k, v), map_set m k (newPatternSet v)) (cf_categories cfg) [])
    profiles byMac
    (match cf_defaultProfile cfg with
     | Some id => if nonempty id then map_get profiles id else None
     | None => None
     end)
    (untilMap (cf_pauses cfg)) (untilMap (cf_extensions cfg)).

(** [mac && m.get(mac)] for a map of objects or numbers *)
Definition by_mac {V} (m : list (jstr * V)) (mac : option jstr) : option V :=
  match mac with Some k => if nonempty k then map_get m k else None | None => None end.

Definition profileFor (po : policy) (mac : option jstr) : option prof :=
  match by_mac (po_byMac po) mac with Some p => Some p | None => po_defaultProfile po end.

Definition isLocal (po : policy) (name : jstr) : bool :=
  negb (nonempty name) || negb (includes dot name) || ps_matches (po_local po) name.

(** [u && u > now ? u : null] *)
Definition still (u : option Z) (now : Z) : option Z :=
  match u with Some u => if negb (u =? 0) && (now <? u) then Some u else None | None => None end.
Definition pausedUntil (po : policy) (mac : option jstr) (now : Z) : option Z :=
  still (by_mac (po_pauses po) mac) now.
Definition extendedUntil (po : policy) (mac : option jstr) (now : Z) : option Z :=
  still (by_mac (po_extensions po) mac) now.

(** [if (this.pausedUntil(mac, now))] *)
Definition truthy (u : option Z) : bool := match u with Some u => negb (u =? 0) | None => false end.

Inductive reason :=
  | r_canary | r_local | r_always_allow | r_profile_allow | r_paused | r_no_profile | r_profile_deny
  | r_schedule | r_schedule_category | r_list | r_default.

Record decision := Verdict {
  d_profileId : option jstr; d_block : bool; d_reason : reason;
  d_list : option jstr; d_category : option jstr; d_safeSearch : option jstr;
  d_local : bool; d_nxdomain : bool
}.

(** The inner loop over the categories of a schedule. *)
Fixpoint categories_block (po : policy) (name : jstr) (cs : list jstr) : option jstr :=
  match cs with
  | [] => None
  | c :: cs =>
      match map_get (po_categories po) c with
      | Some set => if ps_matches set name then Some c else categories_block po name cs
      | None => categories_block po name cs
      end
  end.

(** The loop over the schedules: the reason and the category of the first
    one that blocks. *)
Fixpoint schedules_block (po : policy) (name : jstr) (date : jsdate) (l : list sched)
    : option (reason * option jstr) :=
  match l with
  | [] => None
  | s :: l =>
      if negb (scheduleActive (sc_schedule s) date) || ps_matches (sc_allowSet s) name
      then schedules_block po name date l
      else if blocks_all (sc_schedule s) then Some (r_schedule, None)
      else match categories_block po name (s_categories (sc_schedule s)) with
           | Some c => Some (r_schedule_category, Some c)
           | None => schedules_block po name date l
           end
  end.

Fixpoint lists_block (po : policy) (name : jstr) (ids : list jstr) : res (option jstr) :=
  match ids with
  | [] => Ok None
  | id :: ids =>
      match map_get (po_lists po) id with
      | None => lists_block po name ids
      | Some l =>
          hit ← matchHashes l (hash53 <$> suffixes name);
          if hit : bool then Ok (Some id) else lists_block po name ids
      end
  end.

Definition decide_name (po : policy) (name : jstr) (mac : option jstr) (now : Z) : res decision :=
  let profile := profileFor po mac in
  let profileId := (λ p, pr_id (pf_profile p)) <$> profile in
  let block r := Verdict profileId true r None None None false false in
  let allow_plain r := Verdict profileId false r None None None false false in
  if bool_decide (name = CANARY) then Ok (Verdict profileId true r_canary None None None false true)
  else if isLocal po name then Ok (Verdict profileId false r_local None None None true false)
  else if ps_matches (po_alwaysAllow po) name then Ok (allow_plain r_always_allow)
  else
    let safe := match profile with
                | Some p => if pr_safeSearch (pf_profile p) then safeSearchTarget name else None
                | None => None
                end in
    let allow r := Verdict profileId false r None None safe false false in
    if match profile with Some p => ps_matches (pf_allowSet p) name | None => false end
    then Ok (allow r_profile_allow)
    else if truthy (pausedUntil po mac now) then Ok (block r_paused)
    else match profile with
         | None => Ok (allow_plain r_no_profile)
         | Some p =>
             if ps_matches (pf_denySet p) name then Ok (block r_profile_deny)
             else
               let by_time :=
                 if negb (Nat.eqb (length (pf_schedules p)) 0) && negb (truthy (extendedUntil po mac now))
                 then schedules_block po name (localDate now) (pf_schedules p) else None in
               match by_time with
               | Some (r, c) => Ok (Verdict profileId true r None c None false false)
               | None =>
                   hit ← lists_block po name (pr_lists (pf_profile p));
                   match hit with
                   | Some id => Ok (Verdict profileId true r_list (Some id) None None false false)
                   | None => Ok (allow r_default)
                   end
               end
         end.

(** The active schedules of a profile, for the diagnosis. *)
Definition activeSchedules (po : policy) (profileId : jstr) (now : Z) : list schedule :=
  match map_get (po_profiles po) profileId with
  | None => []
  | Some p => List.filter (λ s, scheduleActive s (localDate now)) (sc_schedule <$> pf_schedules p)
  end.
End Policy.

(** ** Times: a schedule is a window of the week *)

(** The minute of the week, from Monday 00:00. *)
Definition iso_day (d : jsdate) : Z := if getDay d =? 0 then 7 else getDay d.
Definition week_minute (d : jsdate) : Z := (iso_day d - 1) * 1440 + getHours d * 60 + getMinutes d.
Definition date_ok (d : jsdate) : Prop :=
  0 ≤ getDay d < 7 ∧ 0 ≤ getHours d < 24 ∧ 0 ≤ getMinutes d < 60.
Definition schedule_ok (s : schedule) : Prop :=
  Forall (λ d, 1 ≤ d ≤ 7) (s_days s) ∧ 0 ≤ s_from s < 1440 ∧ 0 ≤ s_to s ≤ 1440.

(** The window that begins on day [d]: its first minute of the week and its
    length; equal times mean the whole day. *)
Definition window_start (s : schedule) (d : Z) : Z :=
  (d - 1) * 1440 + (if s_from s =? s_to s then 0 else s_from s).
Definition window_length (s : schedule) : Z :=
  if s_from s =? s_to s then 1440 else if s_from s <? s_to s then s_to s - s_from s
  else s_to s - s_from s + 1440.

(** A schedule is active exactly in its windows of the week, over
    midnight and over the end of the week. *)
Theorem scheduleActive_window s date :
  schedule_ok s → date_ok date →
  scheduleActive s date = true ↔
  ∃ d, d ∈ s_days s ∧ (week_minute date - window_start s d) mod 10080 < window_length s.
Proof.
  intros (Hd & Hf & Ht) (Hw & Hh & Hm). rewrite Forall_forall in Hd.
  set (iso := iso_day date). assert (1 ≤ iso ≤ 7) by (unfold iso, iso_day; destruct (Z.eqb_spec (getDay date) 0); lia).
  set (m := getHours date * 60 + getMinutes date). assert (0 ≤ m < 1440) by lia.
  assert (week_minute date = (iso - 1) * 1440 + m) as -> by (unfold week_minute, iso, m; lia).
  unfold scheduleActive. fold (iso_day date) iso m. unfold window_start, window_length.
  assert (∀ d x, ((iso - 1) * 1440 + m - ((d - 1) * 1440 + x)) = (iso - d) * 1440 + (m - x)) as Hx by lia.
  setoid_rewrite Hx. destruct (Z.eqb_spec (s_from s) (s_to s)) as [Heq|Hne].
  - rewrite bool_decide_eq_true. split.
    + intros Hin. exists iso. split; [done |]. Z.div_mod_to_equations; lia.
    + intros (d & Hin & Hlt). pose proof (Hd d Hin). assert (d = iso) as ->; [|done].
      Z.div_mod_to_equations. nia.
  - destruct (Z.ltb_spec (s_from s) (s_to s)).
    + rewrite !andb_true_iff, bool_decide_eq_true, Z.leb_le, Z.ltb_lt. split.
      * intros [[Hin Hl] Hr]. exists iso. split; [done |]. Z.div_mod_to_equations; lia.
      * intros (d & Hin & Hlt). pose proof (Hd d Hin). assert (d = iso) as -> by (Z.div_mod_to_equations; nia).
        split_and!; [done | |]; Z.div_mod_to_equations; nia.
    + rewrite orb_true_iff, !andb_true_iff, !bool_decide_eq_true, Z.leb_le, Z.ltb_lt.
      set (prev := if iso =? 1 then 7 else iso - 1).
      assert (1 ≤ prev ≤ 7 ∧ (iso - prev) mod 7 = 1) as [Hp Hp7].
      { unfold prev. destruct (Z.eqb_spec iso 1) as [->|]; [done |]. split; [lia |].
        replace (iso - (iso - 1)) with 1 by lia. done. }
      split.
      * intros [[Hin Hl]|[Hin Hr]]; [exists iso | exists prev]; (split; [done |]); Z.div_mod_to_equations; nia.
      * intros (d & Hin & Hlt). pose proof (Hd d Hin).
        destruct (decide (d = iso)) as [->|]; [left; split; [done |]; Z.div_mod_to_equations; nia |].
        right. assert (d = prev) as -> by (unfold prev in *; Z.div_mod_to_equations; nia).
        split; [done |]. Z.div_mod_to_equations; nia.
Qed.

(** ** Example *)

(** A schedule over midnight, asked on Saturday at one in the morning. *)
Definition sample_schedule : schedule := Schedule [5] 1320 360 (js "all") [] [].

Lemma scheduleActive_window_witness : ∃ d, d ∈ s_days sample_schedule ∧
  (week_minute (JsDate 6 1 0) - window_start sample_schedule d) mod 10080 < window_length sample_schedule.
Proof.
  apply (scheduleActive_window sample_schedule (JsDate 6 1 0)); [| by vm_compute | by vm_compute].
  split; [by repeat constructor | by vm_compute].
Defined.
