(* ===== verification/PolicyFacts.v ===== *)
(** * Theorems on src/dns/policy.js

    The verdict on a name in terms of the configuration: which patterns cover
    the name, which profile a device has, whether it is paused, and which of
    the rules of its profile block the name. *)

From S2P Require Import Prelude JsBuffer JsMap NetwatchDnsWire DomainSet SafeSearch Policy.

Local Open Scope Z_scope.

Section Facts.
Context `{Unicode} `{LocalTime}.

(** ** Pattern lists *)

Definition covers (patterns : list jstr) (name : jstr) : Prop :=
  ∃ p d, p ∈ patterns ∧ pattern_domain p = Some d ∧
    (if is_wild p then ∃ q, name = q ++ dot :: d else in_domain d name).

Lemma newPatternSet_covers patterns name :
  ps_matches (newPatternSet patterns) name = true ↔ covers patterns name.
Proof.
  rewrite ps_matches_spec. split.
  - intros [(d & Hd & Hin)|(d & q & Hd & Hin)].
    + apply (newPatternSet_spec patterns d) in Hd as (p & Hp & Hw & Hpd). exists p, d. by rewrite Hw.
    + apply (newPatternSet_spec patterns d) in Hd as (p & Hp & Hw & Hpd). exists p, d. rewrite Hw. eauto.
  - intros (p & d & Hp & Hpd & Hc). destruct (is_wild p) eqn:Hw.
    + destruct Hc as [q ->]. right. exists d, q. split; [|done]. apply newPatternSet_spec. eauto.
    + left. exists d. split; [|done]. apply newPatternSet_spec. eauto.
Qed.

Lemma covers_dec_false patterns name :
  ps_matches (newPatternSet patterns) name = false ↔ ¬ covers patterns name.
Proof. by rewrite <- newPatternSet_covers, not_true_iff_false. Qed.

(** A single label of the list covers the name. *)
Definition single_label (l : list jstr) (name : jstr) : Prop :=
  ∃ s, s ∈ l ∧ s ≠ [] ∧ (dot ∉ s) ∧ in_domain (toLowerCase s) name.

Lemma includes_spec c s : includes c s = true ↔ c ∈ s.
Proof.
  unfold includes. rewrite existsb_exists. setoid_rewrite <- list_elem_of_In.
  split; [intros (x & Hx & ->%Z.eqb_eq); done | intros; exists c; by rewrite Z.eqb_refl].
Qed.

Lemma nonempty_spec (s : list Z) : nonempty s = true ↔ s ≠ [].
Proof. by destruct s. Qed.

Lemma add_single_labels_spec ps l name :
  ps_matches (add_single_labels ps l) name = true ↔ ps_matches ps name = true ∨ single_label l name.
Proof.
  unfold add_single_labels. revert ps. induction l as [|s l IH]; intros ps; cbn [fold_left].
  { unfold single_label. set_solver. }
  rewrite IH. clear IH. rewrite !ps_matches_spec. unfold single_label.
  destruct (nonempty s && negb (includes dot s)) eqn:E.
  - apply andb_prop in E as [Hs%nonempty_spec Hd%negb_true_iff].
    assert (dot ∉ s) by (rewrite <- includes_spec; congruence).
    cbn [ps_incl ps_sub]. split.
    + intros [[(d & Hd1 & Hd2)|?]|(s' & ? & ?)]; [|naive_solver | set_solver].
      apply elem_of_union in Hd1 as [->%elem_of_singleton|]; [|naive_solver].
      right. exists s. set_solver.
    + intros [[(d & ? & ?)|?]|(s' & Hin & ? & ? & ?)]; [left; left; set_solver | by left; right |].
      apply elem_of_cons in Hin as [->|]; [|right; set_solver].
      left. left. exists (toLowerCase s). set_solver.
  - split; [set_solver |].
    intros [?|(s' & Hin & Hn & Hdot & ?)]; [by left |].
    apply elem_of_cons in Hin as [->|]; [|right; set_solver].
    apply andb_false_iff in E as [E|E%negb_false_iff].
    + by apply nonempty_spec in Hn; rewrite Hn in E.
    + by apply includes_spec in E.
Qed.

Definition local_name (localSuffixes : list jstr) (name : jstr) : Prop :=
  dot ∉ name
  ∨ covers (strip_dot <$> List.filter nonempty (LOCAL_SUFFIXES ++ PRIVATE_REVERSE ++ localSuffixes)) name
  ∨ single_label (LOCAL_SUFFIXES ++ localSuffixes) name.

Lemma isLocal_spec cfg lists extra suff name :
  isLocal (newPolicy cfg lists extra suff) name = true ↔ local_name suff name.
Proof.
  unfold isLocal, local_name, newPolicy. cbn [po_local].
  rewrite !orb_true_iff, !negb_true_iff, add_single_labels_spec, newPatternSet_covers.
  rewrite <- (not_true_iff_false (includes _ _)), includes_spec. split.
  - intros [[Hn|?]|?]; [left; destruct name; [set_solver | done] | by left | by right].
  - intros [?|?]; [by left; right | by right].
Qed.

(** ** The profile of a device *)

Definition device (mac : option jstr) : option jstr :=
  match mac with Some k => if nonempty k then Some k else None | None => None end.

(** The first profile that lists the device, otherwise the default profile
    (the last one of that name). *)
Definition profile_of (cfg : dns_cfg) (mac : option jstr) : option profile :=
  match device mac ≫= λ k, List.find (λ p, bool_decide (k ∈ pr_macs p)) (cf_profiles cfg) with
  | Some p => Some p
  | None => device (cf_defaultProfile cfg) ≫= λ id,
              List.find (λ p, bool_decide (id = pr_id p)) (reverse (cf_profiles cfg))
  end.

Lemma profiles_map_get ps m id :
  map_get (fold_left (λ m p, map_set m (pr_id p) (compile_profile p)) ps m) id =
  match List.find (λ p, bool_decide (id = pr_id p)) (reverse ps) with
  | Some p => Some (compile_profile p)
  | None => map_get m id
  end.
Proof.
  revert m. induction ps as [|p ps IH] using rev_ind; intros m; [done |].
  rewrite fold_left_app, reverse_snoc. cbn [fold_left List.find]. rewrite map_get_set.
  case_decide as E; case_bool_decide; try congruence. apply IH.
Qed.

Lemma macs_map_get (v : prof) (macs : list jstr) m k :
  map_get (fold_left (λ m mac, if map_has m mac then m else map_set m mac v) macs m) k =
  match map_get m k with
  | Some w => Some w
  | None => if bool_decide (k ∈ macs) then Some v else None
  end.
Proof.
  revert m. induction macs as [|x macs IH]; intros m; cbn [fold_left].
  { rewrite bool_decide_false by set_solver. by destruct (map_get m k). }
  rewrite IH. clear IH. unfold map_has. destruct (map_get m x) eqn:Ex.
  - destruct (map_get m k) eqn:Ek; [done |]. rewrite (bool_decide_ext (k ∈ x :: macs) (k ∈ macs)); [done |].
    rewrite elem_of_cons. naive_solver.
  - rewrite map_get_set. case_decide as Hk.
    + subst. rewrite Ex. by rewrite bool_decide_true by set_solver.
    + destruct (map_get m k); [done |]. by rewrite (bool_decide_ext (k ∈ x :: macs) (k ∈ macs)) by set_solver.
Qed.

Lemma byMac_map_get ps m k :
  map_get (fold_left (λ m p, fold_left (λ m mac, if map_has m mac then m
                                        else map_set m mac (compile_profile p)) (pr_macs p) m) ps m) k =
  match map_get m k with
  | Some w => Some w
  | None => compile_profile <$> List.find (λ p, bool_decide (k ∈ pr_macs p)) ps
  end.
Proof.
  revert m. induction ps as [|p ps IH]; intros m; cbn [fold_left List.find]; [by destruct (map_get m k) |].
  rewrite IH, macs_map_get. destruct (map_get m k); [done |]. by case_bool_decide.
Qed.

Lemma profileFor_spec cfg lists extra suff mac :
  profileFor (newPolicy cfg lists extra suff) mac = compile_profile <$> profile_of cfg mac.
Proof.
  unfold profileFor, profile_of, newPolicy. cbn [po_byMac po_defaultProfile].
  assert (by_mac (fold_left (λ m p, fold_left (λ m mac0, if map_has m mac0 then m
            else map_set m mac0 (compile_profile p)) (pr_macs p) m) (cf_profiles cfg) []) mac
          = compile_profile <$> (device mac ≫= λ k, List.find (λ p, bool_decide (k ∈ pr_macs p)) (cf_profiles cfg))) as ->.
  { unfold by_mac, device. destruct mac as [k|]; [|done]. destruct (nonempty k); [|done].
    by rewrite byMac_map_get. }
  destruct (device mac ≫= _); [done |]. cbn [fmap option_fmap option_map].
  unfold device. destruct (cf_defaultProfile cfg) as [id|]; [|done]. destruct (nonempty id); [|done].
  rewrite profiles_map_get. cbn [mbind option_bind]. by destruct (List.find _ _).
Qed.

(** ** Pauses and extensions *)

(** Some entry of the list holds the device beyond [now]. *)
Definition held (entries : list until) (mac : option jstr) (now : Z) : Prop :=
  ∃ k e, device mac = Some k ∧ e ∈ entries ∧ k ∈ u_macs e ∧ now < u_until e.

Definition max_until (m : list (jstr * Z)) (now : Z) (k : jstr) : Prop :=
  ∃ u, map_get m k = Some u ∧ now < u.

Lemma until_step (macs : list jstr) u m now k :
  0 ≤ now →
  max_until (fold_left (λ m mac, map_set m mac (Z.max (default 0 (map_get m mac)) u)) macs m) now k ↔
  max_until m now k ∨ (k ∈ macs ∧ now < u).
Proof.
  intros Hnow. revert m. induction macs as [|x macs IH]; intros m; cbn [fold_left]; [set_solver |].
  rewrite IH. clear IH. unfold max_until. setoid_rewrite map_get_set. rewrite elem_of_cons.
  destruct (decide (k = x)) as [->|]; [|naive_solver]. split.
  - intros [(v & [= <-] & Hv)|]; [|naive_solver].
    destruct (decide (now < u)); [naive_solver |]. left.
    destruct (map_get m x) as [w|]; cbn in *; [exists w; split; [done | lia] | lia].
  - intros [(v & Hv & ?)|[_ ?]]; left; eexists; (split; [done |]); [rewrite Hv; cbn; lia | lia].
Qed.

Lemma untilMap_spec entries now k :
  0 ≤ now → max_until (untilMap entries) now k ↔ ∃ e, e ∈ entries ∧ k ∈ u_macs e ∧ now < u_until e.
Proof.
  intros Hnow. unfold untilMap.
  assert (∀ m, max_until (fold_left (λ m e, fold_left (λ m mac, map_set m mac
                 (Z.max (default 0 (map_get m mac)) (u_until e))) (u_macs e) m) entries m) now k
            ↔ max_until m now k ∨ ∃ e, e ∈ entries ∧ k ∈ u_macs e ∧ now < u_until e) as Hm.
  { induction entries as [|e l IH]; intros m; cbn [fold_left]; [set_solver |].
    rewrite IH, until_step by done. setoid_rewrite elem_of_cons. naive_solver. }
  rewrite Hm. unfold max_until at 1. cbn. naive_solver.
Qed.

Lemma still_untilMap entries mac now :
  0 ≤ now → truthy (still (by_mac (untilMap entries) mac) now) = true ↔ held entries mac now.
Proof.
  intros Hnow. pose proof (λ k, untilMap_spec entries now k Hnow) as Hspec. unfold max_until in Hspec.
  unfold held, by_mac, device. destruct mac as [k|]; [|cbn; naive_solver].
  destruct (nonempty k); [|cbn; naive_solver]. specialize (Hspec k).
  trans (∃ u, map_get (untilMap entries) k = Some u ∧ now < u); [|rewrite Hspec; naive_solver].
  destruct (map_get (untilMap entries) k) as [u|]; [|cbn; naive_solver]. unfold still.
  destruct (Z.eqb_spec u 0); cbn [negb andb truthy].
  - split; [done |]. intros (v & [= <-] & ?). lia.
  - destruct (Z.ltb_spec now u); cbn [truthy].
    + destruct (Z.eqb_spec u 0); [lia |]. naive_solver.
    + split; [done |]. intros (v & [= <-] & ?). lia.
Qed.

(** ** Schedules and lists *)

Definition category_blocks (cfg : dns_cfg) (name c : jstr) : Prop :=
  ∃ pats, (c, pats) ∈ cf_categories cfg ∧ covers pats name.

(** A schedule that is active, does not except the name, and blocks all or
    one of the categories of the name. *)
Definition schedule_blocks (cfg : dns_cfg) (name : jstr) (now : Z) (s : schedule) : Prop :=
  scheduleActive s (localDate now) = true ∧ ¬ covers (s_allowAlways s) name ∧
  (blocks_all s = true ∨ ∃ c, c ∈ s_categories s ∧ category_blocks cfg name c).

Definition list_blocks (lists : list (jstr * CompactList)) (name id : jstr) : Prop :=
  ∃ l, map_get lists id = Some l ∧ cl_matches l name = Ok true.

Lemma categories_map_get (cs : list (jstr * list jstr)) m c :
  NoDup cs.*1 → c ∉ (m : list (jstr * PatternSet)).*1 →
  map_get (fold_left (λ m '(k, v), map_set m k (newPatternSet v)) cs m) c =
  newPatternSet <$> map_get cs c.
Proof.
  revert m. induction cs as [|[k v] cs IH]; intros m Hnd Hc; cbn [fold_left map_get].
  { by apply map_get_None. }
  rewrite fmap_cons in Hnd. apply NoDup_cons in Hnd as [Hk Hnd]. cbn [fst] in Hk.
  destruct (decide (c = k)) as [->|Hne].
  - assert (∀ m', map_get (fold_left (λ m '(k, v), map_set m k (newPatternSet v)) cs m') k = map_get m' k) as ->.
    { clear -Hk. induction cs as [|[k1 v1] cs IH]; intros m'; cbn [fold_left]; [done |].
      rewrite fmap_cons in Hk. apply not_elem_of_cons in Hk as [? ?]. rewrite IH by done.
      rewrite map_get_set. by case_decide. }
    rewrite map_get_set. by rewrite decide_True.
  - apply IH; [done |]. rewrite map_set_keys. case_decide; set_solver.
Qed.

Context (cfg : dns_cfg) (lists : list (jstr * CompactList)) (extra suff : list jstr).
Context (Hcats : NoDup (cf_categories cfg).*1)
        (Hlists : ∀ id l, map_get lists id = Some l → cl_ok l).
Local Abbreviation po := (newPolicy cfg lists extra suff).

Lemma categories_block_spec name cs :
  is_Some (categories_block po name cs) ↔ ∃ c, c ∈ cs ∧ category_blocks cfg name c.
Proof.
  unfold category_blocks. induction cs as [|c cs IH]; cbn [categories_block].
  { split; [by intros [? ?] | set_solver]. }
  assert (map_get (po_categories po) c = newPatternSet <$> map_get (cf_categories cfg) c) as ->
    by (apply categories_map_get; [done | set_solver]).
  pose proof (λ v, map_get_ok (cf_categories cfg) c v Hcats) as Hget.
  destruct (map_get (cf_categories cfg) c) as [pats|]; cbn [fmap option_fmap option_map].
  - destruct (ps_matches (newPatternSet pats) name) eqn:E.
    + split; [|by eexists]. intros _. exists c. split; [by left |]. exists pats.
      split; [by apply Hget | by apply newPatternSet_covers].
    + rewrite IH. split; [set_solver |]. intros (c' & [->|Hc]%elem_of_cons & pats' & Hin & Hcov); [|eauto].
      apply Hget in Hin as [= <-]. by apply covers_dec_false in E.
  - rewrite IH. split; [set_solver |]. intros (c' & [->|Hc]%elem_of_cons & pats' & Hin & Hcov); [|eauto].
    by apply Hget in Hin.
Qed.

Lemma schedules_block_spec name now l :
  is_Some (schedules_block po name (localDate now) ((λ s, Sched s (newPatternSet (s_allowAlways s))) <$> l))
  ↔ ∃ s, s ∈ l ∧ schedule_blocks cfg name now s.
Proof.
  induction l as [|s l IH]; rewrite ?fmap_nil, ?fmap_cons; cbn [schedules_block sc_schedule sc_allowSet].
  { split; [by intros [? ?] | set_solver]. }
  assert (¬ schedule_blocks cfg name now s →
          ((∃ s', s' ∈ s :: l ∧ schedule_blocks cfg name now s') ↔ ∃ s', s' ∈ l ∧ schedule_blocks cfg name now s')) as Hskip.
  { intros Hs. setoid_rewrite elem_of_cons. naive_solver. }
  destruct (scheduleActive s (localDate now)) eqn:Ha; cbn [negb orb].
  2: { rewrite Hskip by (intros (Hs & _); congruence). done. }
  destruct (ps_matches (newPatternSet (s_allowAlways s)) name) eqn:Hm.
  { apply newPatternSet_covers in Hm. rewrite Hskip by (intros (_ & Hs & _); done). done. }
  apply covers_dec_false in Hm. destruct (blocks_all s) eqn:Hb.
  { split; [|by eexists]. intros _. exists s. split; [by left |]. by split_and!; [| |left]. }
  pose proof (categories_block_spec name (s_categories s)) as Hc.
  destruct (categories_block po name (s_categories s)) as [c|].
  { split; [|by eexists]. intros _. exists s. split; [by left |]. split_and!; [done | done |]. right.
    apply Hc. by eexists. }
  rewrite Hskip; [done |]. intros (_ & _ & [?|Hex]); [congruence |]. apply Hc in Hex. by destruct Hex.
Qed.

Lemma cl_matches_total l name : cl_ok l → ∃ b, cl_matches l name = Ok b.
Proof.
  intros. unfold cl_matches, suffixes. rewrite fmap_cons, matchHashes_spec by done. by eexists.
Qed.

Lemma lists_block_spec name ids :
  ∃ r, lists_block po name ids = Ok r ∧
    (is_Some r ↔ ∃ id, id ∈ ids ∧ list_blocks lists name id).
Proof.
  unfold list_blocks. induction ids as [|id ids (r & Hr & IH)]; cbn [lists_block].
  { exists None. split; [done |]. split; [by intros [? ?] | set_solver]. }
  change (po_lists po) with lists. destruct (map_get lists id) as [l|] eqn:E.
  - destruct (cl_matches_total l name (Hlists id l E)) as [b Hb].
    change (matchHashes l (hash53 <$> suffixes name)) with (cl_matches l name). rewrite Hb.
    cbn [mbind res_bind]. destruct b.
    + exists (Some id). split; [done |]. split; [|by eexists]. intros _. exists id. split; [by left | eauto].
    + exists r. split; [done |]. rewrite IH. split; [set_solver |].
      intros (i & [->|?]%elem_of_cons & l' & Hl & Hm); [|eauto]. congruence.
  - exists r. split; [done |]. rewrite IH. split; [set_solver |].
    intros (i & [->|?]%elem_of_cons & l' & Hl & Hm); [|eauto]. congruence.
Qed.

(** ** The verdict *)

(** What the profile of a device says against a name. *)
Definition profile_blocks (p : profile) (name : jstr) (mac : option jstr) (now : Z) : Prop :=
  covers (pr_deny p) name
  ∨ (¬ held (cf_extensions cfg) mac now ∧ ∃ s, s ∈ pr_schedules p ∧ schedule_blocks cfg name now s)
  ∨ ∃ id, id ∈ pr_lists p ∧ list_blocks lists name id.

Definition must_block (name : jstr) (mac : option jstr) (now : Z) : Prop :=
  name = CANARY ∨
  ¬ local_name suff name ∧ ¬ covers (cf_alwaysAllow cfg ++ extra) name ∧
  match profile_of cfg mac with
  | None => held (cf_pauses cfg) mac now
  | Some p => ¬ covers (pr_allow p) name ∧
              (held (cf_pauses cfg) mac now ∨ profile_blocks p name mac now)
  end.

(** The end of [decide], for a device with a profile. *)
Lemma by_time_spec p name mac now :
  0 ≤ now →
  is_Some (if negb (Nat.eqb (length (pf_schedules (compile_profile p))) 0)
              && negb (truthy (extendedUntil po mac now))
           then schedules_block po name (localDate now) (pf_schedules (compile_profile p)) else None) ↔
  ¬ held (cf_extensions cfg) mac now ∧ ∃ s, s ∈ pr_schedules p ∧ schedule_blocks cfg name now s.
Proof.
  intros Hnow. pose proof (still_untilMap (cf_extensions cfg) mac now Hnow) as Hext.
  change (still (by_mac (untilMap (cf_extensions cfg)) mac) now) with (extendedUntil po mac now) in Hext.
  rewrite <- schedules_block_spec, <- Hext. cbn [pf_schedules compile_profile]. rewrite length_fmap.
  destruct (pr_schedules p) as [|s l] eqn:E; cbn [length Nat.eqb negb andb].
  { split; [by intros [? ?] |]. cbn. by intros (_ & ? & ?). }
  destruct (truthy _); cbn [negb]; naive_solver.
Qed.

Lemma flag_false (P : Prop) : (false = true ↔ P) → ¬ P.
Proof. intros HP Hp. by apply HP in Hp. Qed.

Local Ltac verdict :=
  eexists; split_and!; [done | done |]; cbn [d_block];
  assert (false ≠ true) by done; assert (true = true) by done.

(** C1: for every name, device and time the policy decides, and it blocks
    exactly when it must: the canary name always, otherwise a name that is
    neither local nor always allowed and that the pause, the profile's own
    rules, its schedule or its lists block. *)
Theorem decide_blocked name mac now :
  0 ≤ now →
  ∃ d, decide_name po name mac now = Ok d ∧ d_profileId d = pr_id <$> profile_of cfg mac ∧
    (d_block d = true ↔ must_block name mac now).
Proof.
  intros Hnow. unfold decide_name, must_block. rewrite profileFor_spec.
  set (pid := (λ p, pr_id (pf_profile p)) <$> _).
  assert (pid = pr_id <$> profile_of cfg mac) as <- by (unfold pid; by destruct (profile_of cfg mac)).
  clearbody pid. case_bool_decide as Hcan; [by eexists; split_and!; [| |split; [left|]] |].
  pose proof (isLocal_spec cfg lists extra suff name) as Hloc.
  destruct (isLocal po name); [verdict; tauto | apply flag_false in Hloc].
  pose proof (newPatternSet_covers (cf_alwaysAllow cfg ++ extra) name) as Halw.
  change (newPatternSet (cf_alwaysAllow cfg ++ extra)) with (po_alwaysAllow po) in Halw.
  destruct (ps_matches (po_alwaysAllow po) name); [verdict; tauto | apply flag_false in Halw].
  pose proof (still_untilMap (cf_pauses cfg) mac now Hnow) as Hpause.
  change (still (by_mac (untilMap (cf_pauses cfg)) mac) now) with (pausedUntil po mac now) in Hpause.
  destruct (profile_of cfg mac) as [p|]; cbn [fmap option_fmap option_map].
  2: { destruct (truthy _); verdict; tauto. }
  pose proof (newPatternSet_covers (pr_allow p) name) as Hallow.
  change (newPatternSet (pr_allow p)) with (pf_allowSet (compile_profile p)) in Hallow.
  destruct (ps_matches (pf_allowSet (compile_profile p)) name); [verdict; tauto | apply flag_false in Hallow].
  destruct (truthy (pausedUntil po mac now)); [verdict; tauto | apply flag_false in Hpause].
  unfold profile_blocks. pose proof (newPatternSet_covers (pr_deny p) name) as Hdeny.
  change (newPatternSet (pr_deny p)) with (pf_denySet (compile_profile p)) in Hdeny.
  destruct (ps_matches (pf_denySet (compile_profile p)) name); [verdict; tauto | apply flag_false in Hdeny].
  pose proof (by_time_spec p name mac now Hnow) as Htime.
  destruct (if negb _ && negb _ then _ else _) as [[r c]|]; rewrite is_Some_alt in Htime.
  { verdict. tauto. }
  destruct (lists_block_spec name (pr_lists p)) as (hit & Hhit & Hlist).
  change (pr_lists (pf_profile (compile_profile p))) with (pr_lists p). rewrite Hhit. cbn [mbind res_bind].
  rewrite is_Some_alt in Hlist. destruct hit as [id|]; verdict; tauto.
Qed.
End Facts.

(** ** Example *)

Definition sample_date : LocalTime := {| localDate := λ _, JsDate 1 12 0 |}.
Definition sample_cfg : dns_cfg :=
  DnsCfg [] [] [Profile (js "kids") [js "aa:bb:cc:dd:ee:ff"] [] [js "games.example"] [] [] false] None [] [].

Lemma decide_blocked_witness : ∃ d,
  @decide_name sample_date (@newPolicy ascii_unicode sample_cfg [] [] []) (js "www.games.example")
    (Some (js "aa:bb:cc:dd:ee:ff")) 1000 = Ok d ∧
  (d_block d = true ↔
   @must_block ascii_unicode sample_date sample_cfg [] [] [] (js "www.games.example") (Some (js "aa:bb:cc:dd:ee:ff")) 1000).
Proof.
  destruct (@decide_blocked ascii_unicode sample_date sample_cfg [] [] [] (NoDup_nil_2) ltac:(done)
    (js "www.games.example") (Some (js "aa:bb:cc:dd:ee:ff")) 1000 ltac:(lia)) as (d & Hd & _ & Hb).
  exists d. split; [exact Hd | exact Hb].
Defined.
