(* ===== verification/Resolver.v ===== *)
(** * src/dns/resolver.js

    One client query from the message to the answer: policy, blocked answers,
    safe search, forwarding with the cache; and the pool of upstream queries
    that identical client queries share. *)

From S2P Require Import ResponseCache.
From S2P Require Import Prelude JsBuffer JsMap NetwatchDnsWire DnsWire DomainSet SafeSearch Policy.

Local Open Scope Z_scope.

Definition MAX_CHAIN : nat := 8.
Definition SAFE_CNAME_TTL : Z := 300.
Definition BLOCK_TTL : Z := 60.
Definition MAX_LOG : Z := 2000.

(** [String(ip).startsWith('127.')] *)
Definition isLoopback (ip : jstr) : bool :=
  bool_decide (ip = js "127.0.0.1") || bool_decide (ip = js "::1") || starts_with (js "127.") ip.

(** [_log(entry)]: the newest [MAX_LOG] entries are kept. *)
Definition _log {E} (enabled : bool) (log : list E) (e : E) : list E :=
  if negb enabled then log
  else
    let log := log ++ [e] in
    if MAX_LOG <? Z.of_nat (length log) then drop (Z.to_nat (Z.of_nat (length log) - MAX_LOG)) log
    else log.

(** What [_forward] returns. *)
Record reply := Reply {
  r_wire : list Z; r_ttlOffsets : list Z; r_ageSec : Z; r_cached : bool; r_via : jstr
}.

(** The cache key of a question; [edns] is the DO bit of a client with EDNS. *)
Definition bit (b : bool) : jstr := if b then js "1" else js "0".
Definition cache_key (local : bool) (name : jstr) (qtype qclass : Z) (edns : option bool) (cd : bool) : jstr :=
  (if local then js "L" else js "U") ++ js "|" ++ show_Z qtype ++ js "|" ++ show_Z qclass ++ js "|" ++ name
  ++ js "|" ++ bit (bool_decide (is_Some edns)) ++ bit (default false edns) ++ bit cd.

(** [q.id] and the other fields with another question, for error answers. *)
Definition no_question (q : query) : query :=
  Query (q_id q) (q_opcode q) (q_rd q) (q_cd q) (q_qdcount q) (q_name q) (q_nameOk q) (q_qtype q)
    (q_qclass q) None (q_edns q).

(** The message went well, apart from the answer. *)
Record outcome := Outcome { o_wire : list Z; o_cached : bool; o_via : option jstr }.

Section Resolver.
Context `{Unicode} `{LocalTime}.
(** [upstream.local] / [upstream.query]: the network; a rejection is a [Throw]. *)
Context (upstream : bool → list Z → res (list Z * jstr)).

(** The part of [_forward] that runs when the cache has no answer. *)
Definition fetch (cache : ResponseCache.cache) (local : bool) (name : jstr) (qtype qclass : Z)
    (edns : option bool) (cd : bool) (now : Z) : ResponseCache.cache * res reply :=
  match
    query ← buildQuery 0 name qtype qclass edns cd;
    r ← upstream local query;
    meta ← parseResponse r.1;
    m ← of_option "bad upstream response" meta;
    s ← ResponseCache.set cache (cache_key local name qtype qclass edns cd) r.1 (Some m) now;
    Ok (s.1, Reply r.1 (rs_ttlOffsets m) 0 false r.2)
  with
  | Ok (cache, r) => (cache, Ok r)
  | Throw e => (cache, Throw e)
  | NoFuel => (cache, NoFuel)
  end.

Definition _forward (cache : ResponseCache.cache) (local : bool) (name : jstr) (qtype qclass : Z)
    (edns : option bool) (cd : bool) (now : Z) : ResponseCache.cache * res reply :=
  match ResponseCache.get cache (cache_key local name qtype qclass edns cd) now with
  | (cache, Some (e, age)) =>
      (cache, Ok (Reply (ResponseCache.e_wire e) (ResponseCache.e_ttlOffsets e) age true (js "cache")))
  | (cache, None) => fetch cache local name qtype qclass edns cd now
  end.

Definition _blocked (q : query) (d : decision) (blockResponse : jstr) : res (list Z) :=
  if d_nxdomain d || bool_decide (blockResponse = js "nxdomain")
  then buildResponse q RCODE.NXDOMAIN [] false (Some EDE_BLOCKED)
  else
    let name := default [] (q_name q) in
    let a := if bool_decide (q_qtype q = Some TYPE.A)
             then [Answer name TYPE.A BLOCK_TTL (alloc 4) None] else [] in
    let aaaa := if bool_decide (q_qtype q = Some TYPE.AAAA)
                then [Answer name TYPE.AAAA BLOCK_TTL (alloc 16) None] else [] in
    buildResponse q RCODE.NOERROR (a ++ aaaa) false (Some EDE_BLOCKED).

(** The chain of CNAMEs from [cur]: the records to add and the last name. *)
Fixpoint chain (n : nat) (answers : list answer) (ageSec : Z) (cur : jstr) : res (list answer * jstr) :=
  match n with
  | O => Ok ([], cur)
  | S n =>
      match List.find (λ a, bool_decide (a_name a = cur) && (a_type a =? TYPE.CNAME)
                            && match a_target a with Some t => nonempty t | None => false end) answers with
      | None => Ok ([], cur)
      | Some c =>
          let t := default [] (a_target c) in
          rd ← encodeName t;
          rest ← chain n answers ageSec t;
          Ok (Answer cur TYPE.CNAME (Z.max 0 (a_ttl c - ageSec)) rd None :: rest.1, rest.2)
      end
  end.

Definition safe_answers (q : query) (target : jstr) (r : reply) (meta : response) : res (list answer) :=
  rd ← encodeName target;
  c ← chain MAX_CHAIN (rs_answers meta) (r_ageSec r) target;
  let cur := c.2 in
  let addrs := omap (λ a, if bool_decide (a_name a = cur) && bool_decide (Some (a_type a) = q_qtype q)
                          then Some (Answer cur (a_type a) (Z.max 0 (a_ttl a - r_ageSec r)) (a_rdata a) None)
                          else None) (rs_answers meta) in
  Ok (Answer (default [] (q_name q)) TYPE.CNAME SAFE_CNAME_TTL rd None :: c.1 ++ addrs).

Definition _safeSearch (cache : ResponseCache.cache) (q : query) (target : jstr) (now : Z)
    : ResponseCache.cache * res outcome :=
  let '(cache, r) := _forward cache false target (default 0 (q_qtype q)) CLASS_IN
                       (e_do <$> q_edns q) (q_cd q) now in
  (cache,
   r ← r;
   meta ← parseResponse (r_wire r);
   out ← match meta with
         | Some m =>
             if rs_rcode m =? RCODE.NOERROR then
               answers ← safe_answers q target r m;
               buildResponse q RCODE.NOERROR answers false None
             else buildResponse q (rs_rcode m) [] false None
         | None => buildResponse q RCODE.SERVFAIL [] false None
         end;
   Ok (Outcome out (r_cached r) (Some (r_via r)))).

(** The [try] block of [handle]. *)
Definition respond (cache : ResponseCache.cache) (q : query) (d : decision) (blockResponse : jstr) (now : Z)
    : ResponseCache.cache * res outcome :=
  let qtype := default 0 (q_qtype q) in
  if d_block d then (cache, out ← _blocked q d blockResponse; Ok (Outcome out false None))
  else
    match d_safeSearch d with
    | Some t =>
        if (qtype =? TYPE.A) || (qtype =? TYPE.AAAA) then _safeSearch cache q t now
        else (cache, out ← buildResponse q RCODE.NOERROR [] false None; Ok (Outcome out false None))
    | None =>
        let '(cache, r) := _forward cache (d_local d) (default [] (q_name q)) qtype
                             (default CLASS_IN (q_qclass q)) (e_do <$> q_edns q) (q_cd q) now in
        (cache,
         r ← r;
         out ← adaptResponse (r_wire r) (q_id q) (q_question q) (r_ttlOffsets r) (r_ageSec r);
         Ok (Outcome out (r_cached r) (Some (r_via r))))
    end.

(** [catch (_err) { out = SERVFAIL }] *)
Definition or_servfail (q : query) (r : res outcome) : res outcome :=
  match r with
  | Throw _ => out ← buildResponse q RCODE.SERVFAIL [] false None; Ok (Outcome out false None)
  | r => r
  end.

(** Too long for UDP: the question alone, with TC. *)
Definition maxUdp (q : query) (udp : bool) : Z :=
  if udp then match q_edns q with Some e => Z.min (e_udpSize e) 4096 | None => 512 end else 0.
Definition truncate (q : query) (udp : bool) (out : list Z) : res (list Z) :=
  let m := maxUdp q udp in
  if negb (m =? 0) && (m <? blen out) then
    meta ← parseResponse out;
    buildResponse q (match meta with Some m => rs_rcode m | None => RCODE.NOERROR end) [] true None
  else Ok out.

(** The part of [handle] after the early returns: the decision, the
    response and what is logged about it. *)
Definition handle_question (cache : ResponseCache.cache) (po : policy) (q : query) (name : jstr)
    (mac : option jstr) (udp : bool) (blockResponse : jstr) (now : Z)
    : ResponseCache.cache * res (decision * outcome) :=
  match decide_name po name mac now with
  | Ok d =>
      let '(cache, r) := respond cache q d blockResponse now in
      (cache,
       o ← or_servfail q r;
       out ← truncate q udp (o_wire o);
       Ok (d, Outcome out (o_cached o) (o_via o)))
  | Throw e => (cache, Throw e)
  | NoFuel => (cache, NoFuel)
  end.

(** The device of the client: not looked up for the host itself. *)
Definition client_mac (macFor : option (jstr → option jstr)) (ip : option jstr) : option jstr :=
  match ip, macFor with
  | Some ip, Some f => if nonempty ip && negb (isLoopback ip) then f ip else None
  | _, _ => None
  end.

(** [handle(msg, { ip, udp })]; [None] is a dropped message. *)
Definition handle (cache : ResponseCache.cache) (po : policy) (macFor : option (jstr → option jstr))
    (msg : list Z) (ip : option jstr) (udp : bool) (blockResponse : jstr) (now : Z)
    : ResponseCache.cache * res (option (list Z)) :=
  match parseQuery msg with
  | Ok (Some q) =>
      if negb (q_opcode q =? 0) then (cache, Some <$> buildResponse q RCODE.NOTIMP [] false None)
      else
        match q_question q with
        | None => (cache, Some <$> buildResponse (no_question q) RCODE.FORMERR [] false None)
        | Some _ =>
            match q_name q with
            | Some name =>
                if negb (bool_decide (q_qclass q = Some CLASS_IN)) || negb (default false (q_nameOk q))
                then (cache, Some <$> buildResponse q RCODE.REFUSED [] false None)
                else
                  let '(cache, r) := handle_question cache po q name (client_mac macFor ip) udp
                                       blockResponse now in
                  (cache, r ← r; Ok (Some (o_wire r.2)))
            | None => (cache, Some <$> buildResponse q RCODE.REFUSED [] false None)
            end
        end
  | Ok None => (cache, Ok None)
  | Throw e => (cache, Throw e)
  | NoFuel => (cache, NoFuel)
  end.
End Resolver.

(** ** The pool of upstream queries

    Client queries with the same key wait for one upstream query.  A step is
    the arrival of a client query that the cache does not answer, or the end
    of an upstream query (the promise settles and leaves the map). *)

Record pool := Pool {
  pl_inflight : list (jstr * list nat);  (* key, waiting clients *)
  pl_sent : list jstr;                   (* upstream queries started, newest first *)
  pl_answered : list (nat * jstr)        (* clients answered, with the key of the answer *)
}.

(** [let p = this.inflight.get(key); if (!p) { ...; this.inflight.set(key, p) } return p] *)
Definition join_pool (st : pool) (client : nat) (key : jstr) : pool :=
  match map_get (pl_inflight st) key with
  | Some ws => Pool (map_set (pl_inflight st) key (ws ++ [client])) (pl_sent st) (pl_answered st)
  | None => Pool (map_set (pl_inflight st) key [client]) (key :: pl_sent st) (pl_answered st)
  end.

(** [p.finally(() => this.inflight.delete(key))] and the waiters' continuations *)
Definition settle (st : pool) (key : jstr) (ws : list nat) : pool :=
  Pool (map_delete (pl_inflight st) key) (pl_sent st) (((λ c, (c, key)) <$> ws) ++ pl_answered st).

Inductive pool_event := Asked (client : nat) (key : jstr) | Settled (key : jstr).

Inductive pool_step : pool → pool_event → pool → Prop :=
  | step_asked st c k : pool_step st (Asked c k) (join_pool st c k)
  | step_settled st k ws :
      map_get (pl_inflight st) k = Some ws → pool_step st (Settled k) (settle st k ws).

Inductive pool_run : list pool_event → pool → Prop :=
  | run_init : pool_run [] (Pool [] [] [])
  | run_step tr st e st' : pool_run tr st → pool_step st e st' → pool_run (tr ++ [e]) st'.
