(* ===== verification/ResolverFacts.v ===== *)
(** * Theorems on src/dns/resolver.js

    Distinct questions never share a cache entry, identical ones share one
    upstream query; every message that is a DNS query is answered, within the
    size UDP allows; blocked names resolve to the null address. *)

From S2P Require Import ResponseCache.
From S2P Require Import Prelude JsBuffer JsMap NetwatchDnsWire DnsWire DnsWireFacts DnsAdapt.
From S2P Require Import DomainSet SafeSearch Policy Resolver.

Local Open Scope Z_scope.

(** ** Cache keys *)

Lemma digits_no_bar n : 0 ≤ n → 124 ∉ show_Z n.
Proof.
  intros Hn Hin. destruct (show_Z_spec n Hn) as [Hd _]. rewrite Forall_forall in Hd.
  apply Hd in Hin. lia.
Qed.

Lemma bit_inj a b : bit a = bit b → a = b.
Proof. by destruct a, b. Qed.

Lemma cache_key_injective local1 name1 qt1 qc1 edns1 cd1 local2 name2 qt2 qc2 edns2 cd2 :
  0 ≤ qt1 → 0 ≤ qc1 → 0 ≤ qt2 → 0 ≤ qc2 →
  cache_key local1 name1 qt1 qc1 edns1 cd1 = cache_key local2 name2 qt2 qc2 edns2 cd2 →
  local1 = local2 ∧ name1 = name2 ∧ qt1 = qt2 ∧ qc1 = qc2 ∧ edns1 = edns2 ∧ cd1 = cd2.
Proof.
  intros Ht1 Hc1 Ht2 Hc2 E. unfold cache_key in E.
  assert (local1 = local2) as -> by (destruct local1, local2; by cbn in E). apply app_inv_head in E.
  apply app_inv_head, app_sep_inj in E as [Et E]; [|by apply digits_no_bar..].
  apply show_Z_inj in Et as ->; [|done..].
  apply app_sep_inj in E as [Ec E]; [|by apply digits_no_bar..]. apply show_Z_inj in Ec as ->; [|done..].
  apply app_inj_2 in E as [-> E]; [|by destruct (bool_decide (is_Some edns1)), edns1 as [[]|], cd1,
    (bool_decide (is_Some edns2)), edns2 as [[]|], cd2].
  split_and!; try done; destruct edns1 as [[]|], edns2 as [[]|], cd1, cd2; by cbn in E.
Qed.

(** ** The pool of upstream queries *)

#[export] Instance pool_event_eq : EqDecision pool_event.
Proof. solve_decision. Defined.

Definition waiting (m : list (jstr * list nat)) : list (nat * jstr) :=
  m ≫= λ '(k, ws), (λ c, (c, k)) <$> ws.
Definition asks (tr : list pool_event) : list (nat * jstr) :=
  omap (λ e, match e with Asked c k => Some (c, k) | Settled _ => None end) tr.
Definition settlements (tr : list pool_event) (k : jstr) : nat :=
  length (filter (λ e, e = Settled k) tr).
Definition queries (st : pool) (k : jstr) : nat := length (filter (λ k', k' = k) (pl_sent st)).
Definition in_flight (st : pool) (k : jstr) : nat := if map_has (pl_inflight st) k then 1%nat else 0%nat.

Lemma waiting_set m k ws c :
  map_get m k = Some ws → waiting (map_set m k (ws ++ [c])) ≡ₚ (c, k) :: waiting m.
Proof.
  induction m as [|[k' ws'] m IH]; cbn [map_get map_set]; [done |]. intros Hg. unfold waiting in *.
  destruct (decide (k = k')) as [->|]; cbn [mbind list_bind].
  - simplify_eq. rewrite fmap_app. cbn. rewrite <- app_assoc. cbn. by rewrite <- Permutation_middle.
  - rewrite IH by done. by rewrite <- Permutation_middle.
Qed.

Lemma waiting_new m k c : map_get m k = None → waiting (map_set m k [c]) ≡ₚ (c, k) :: waiting m.
Proof.
  intros Hg%map_get_None. rewrite map_set_new by done. unfold waiting. rewrite bind_app. cbn.
  by rewrite <- Permutation_cons_append.
Qed.

Lemma waiting_delete m k ws :
  map_ok m → map_get m k = Some ws → waiting m ≡ₚ ((λ c, (c, k)) <$> ws) ++ waiting (map_delete m k).
Proof.
  unfold map_ok. induction m as [|[k' ws'] m IH]; cbn [map_get map_delete]; [done |].
  rewrite fmap_cons. intros [Hn Hd]%NoDup_cons Hg. unfold waiting in *. destruct (decide (k = k')) as [->|].
  - simplify_eq. rewrite map_delete_notin by done. done.
  - cbn [mbind list_bind]. rewrite IH by done. rewrite !app_assoc. by rewrite (Permutation_app_comm (_ <$> ws')).
Qed.

(** What holds of the pool after every run. *)
Definition pool_inv (tr : list pool_event) (st : pool) : Prop :=
  map_ok (pl_inflight st) ∧
  asks tr ≡ₚ waiting (pl_inflight st) ++ pl_answered st ∧
  ∀ k, queries st k = (settlements tr k + in_flight st k)%nat.

Lemma asks_snoc tr e : asks (tr ++ [e]) = asks tr ++ asks [e].
Proof. apply omap_app. Qed.
Lemma settlements_snoc tr e k :
  settlements (tr ++ [e]) k = (settlements tr k + if decide (e = Settled k) then 1 else 0)%nat.
Proof.
  unfold settlements. rewrite filter_app, length_app. f_equal. rewrite filter_cons. by case_decide.
Qed.

Lemma pool_inv_asked tr st c k : pool_inv tr st → pool_inv (tr ++ [Asked c k]) (join_pool st c k).
Proof.
  intros (Hok & Hasks & Hq). unfold join_pool.
  assert (asks (tr ++ [Asked c k]) ≡ₚ (c, k) :: asks tr) as Hnew
    by (rewrite asks_snoc; symmetry; apply Permutation_cons_append).
  destruct (map_get (pl_inflight st) k) as [ws|] eqn:E; split_and!; cbn [pl_inflight pl_answered].
  - by apply map_set_ok.
  - rewrite Hnew, waiting_set, Hasks by done. done.
  - intros k'. rewrite settlements_snoc, decide_False by done. specialize (Hq k').
    unfold queries, in_flight, map_has in *. cbn [pl_sent pl_inflight]. rewrite map_get_set.
    case_decide; [subst; rewrite E in Hq; lia | lia].
  - by apply map_set_ok.
  - rewrite Hnew, waiting_new, Hasks by done. done.
  - intros k'. rewrite settlements_snoc, decide_False by done. specialize (Hq k').
    unfold queries, in_flight, map_has in *. cbn [pl_sent pl_inflight]. rewrite map_get_set, filter_cons.
    repeat case_decide; subst; try done; [rewrite E in Hq; cbn [length]; lia | lia].
Qed.

Lemma pool_inv_settled tr st k ws :
  pool_inv tr st → map_get (pl_inflight st) k = Some ws → pool_inv (tr ++ [Settled k]) (settle st k ws).
Proof.
  intros (Hok & Hasks & Hq) Hg. unfold settle. split_and!; cbn [pl_inflight pl_answered].
  - by apply map_delete_ok.
  - rewrite asks_snoc, app_nil_r, Hasks, (waiting_delete _ _ _ Hok Hg). rewrite !app_assoc.
    by rewrite (Permutation_app_comm (_ <$> ws)).
  - intros k'. rewrite settlements_snoc. specialize (Hq k'). unfold queries, in_flight, map_has in *.
    cbn [pl_sent pl_inflight]. rewrite map_get_delete.
    repeat case_decide; simplify_eq; try done; [rewrite Hg in Hq; lia | lia].
Qed.

Lemma pool_run_inv tr st : pool_run tr st → pool_inv tr st.
Proof.
  induction 1 as [|tr st e st' _ IH Hstep].
  - split_and!; [by apply NoDup_nil_2 | done | done].
  - destruct Hstep; [by apply pool_inv_asked | by apply pool_inv_settled].
Qed.

(** ** The theorems on keys and the pool *)

Theorem cache_key_separates local1 name1 qt1 qc1 edns1 cd1 local2 name2 qt2 qc2 edns2 cd2 :
  0 ≤ qt1 → 0 ≤ qc1 → 0 ≤ qt2 → 0 ≤ qc2 →
  cache_key local1 name1 qt1 qc1 edns1 cd1 = cache_key local2 name2 qt2 qc2 edns2 cd2 →
  local1 = local2 ∧ name1 = name2 ∧ qt1 = qt2 ∧ qc1 = qc2 ∧ edns1 = edns2 ∧ cd1 = cd2.
Proof. apply cache_key_injective. Qed.

(** C28: over any interleaving of questions and answers every client is
    waiting or answered, once per question, and for each key the queries sent
    are the answers that came, plus one exactly while one is under way. *)
Theorem pool_coalesces tr st :
  pool_run tr st →
  asks tr ≡ₚ waiting (pl_inflight st) ++ pl_answered st ∧
  ∀ k, queries st k = (settlements tr k + if map_has (pl_inflight st) k then 1 else 0)%nat.
Proof. intros (_ & Ha & Hq)%pool_run_inv. by split. Qed.

(** ** Bounds of a parsed query *)

Lemma readQuestionName_loop_bound fuel buf labels pos total ls e :
  is_bytes buf → total ≤ 255 →
  readQuestionName_loop fuel buf labels pos total = Ok (Some (ls, e)) →
  pos < e ≤ pos + 256 - total.
Proof.
  intros Hb. revert labels pos total. induction fuel as [|fuel IH]; intros labels pos total Ht; [done |].
  cbn [readQuestionName_loop]. destruct (byte_at buf pos) as [len|] eqn:Hl; [|done].
  pose proof (byte_at_byte _ _ _ Hb Hl) as [].
  destruct (Z.eqb_spec len 0); [intros [= <- <-]; lia |]. destruct (63 <? len); [done |].
  destruct (_ <? _); [done |]. destruct (Z.ltb_spec 255 (total + (len + 1))) as [|Hle]; [done |].
  intros Hr. specialize (IH _ _ _ Hle Hr). lia.
Qed.

Lemma readQuestionName_bound buf off ls e :
  is_bytes buf → readQuestionName buf off = Ok (Some (ls, e)) → off < e ≤ off + 256.
Proof. intros Hb Hr. unfold readQuestionName in Hr. eapply readQuestionName_loop_bound in Hr; [lia | done | lia]. Qed.

Definition edns_ok (e : option edns_info) : Prop := ∀ i, e = Some i → 512 ≤ e_udpSize i.

Lemma find_edns_ok n buf pos e r : edns_ok e → find_edns n buf pos e = Ok r → edns_ok r.
Proof.
  revert pos e. induction n as [|n IH]; intros pos e He; cbn [find_edns]; [by intros [= <-] |].
  destruct (pos =? -1); [by intros [= <-] |]. intros Hr. res_inv.
  destruct (_ <? _); [by injection Hr as <- |]. res_inv. eapply IH; [|done].
  destruct (_ =? TYPE.OPT); res_inv; [|done]. intros i [= <-]. cbn [e_udpSize]. lia.
Qed.

Record query_ok (q : query) : Prop := {
  qk_id : 0 ≤ q_id q < 65536;
  qk_opcode : 0 ≤ q_opcode q < 16;
  qk_question : blen (default [] (q_question q)) ≤ 260 ∧ is_bytes (default [] (q_question q));
  qk_edns : edns_ok (q_edns q);
  qk_type : 0 ≤ default 0 (q_qtype q) < 65536
}.

Lemma is_bytes_subarray b s e : is_bytes b → is_bytes (subarray b s e).
Proof. intros. unfold subarray. by apply Forall_take, Forall_drop. Qed.

Lemma parseQuery_ok buf q : is_bytes buf → parseQuery buf = Ok (Some q) → query_ok q.
Proof.
  intros Hb Hp. unfold parseQuery in Hp. unfold try_null in Hp.
  destruct (_ || _); [done |].
  destruct (readUInt16BE buf 0) as [id| |] eqn:Hid; try done.
  apply readUInt16BE_range in Hid; [|done].
  destruct (readUInt16BE buf 2) as [flags| |]; try done. cbn [mbind res_bind] in Hp.
  destruct (negb _); [done |].
  assert (0 ≤ Z.land (Z.shiftr flags 11) 15 < 16) as Hop
    by (change 15 with (Z.ones 4); rewrite Z.land_ones by lia; by apply Z.mod_pos_bound).
  destruct (readUInt16BE buf 4) as [qd| |]; try done. cbn [mbind res_bind] in Hp.
  set (bad := Query _ _ _ _ _ None _ _ _ None _) in Hp.
  assert (query_ok bad) as Hbad by (split; [done | done | by split; [|constructor] | by intros ? | done]).
  clearbody bad. destruct (negb _); [by injection Hp as <- |].
  destruct (readQuestionName buf 12) as [[[labels qe]|]| |] eqn:Hq; try done;
    cbn [mbind res_bind] in Hp; [|by injection Hp as <-].
  apply readQuestionName_bound in Hq; [|done].
  destruct (_ <? _); [by injection Hp as <- |].
  destruct (readUInt16BE buf qe) as [qt| |] eqn:Ht; try done. apply readUInt16BE_range in Ht; [|done].
  destruct (readUInt16BE buf (qe + 2)) as [qc| |]; try done.
  destruct (readUInt16BE buf 6) as [an| |]; try done. destruct (readUInt16BE buf 8) as [ns| |]; try done.
  destruct (readUInt16BE buf 10) as [ar| |]; try done. cbn [mbind res_bind] in Hp.
  destruct (_ <? _); [by injection Hp as <- |].
  destruct (skip_rrs _ _ _) as [pos| |]; try done. cbn [mbind res_bind] in Hp.
  destruct (find_edns _ _ _ _) as [edns| |] eqn:He; try done. cbn [mbind res_bind] in Hp.
  injection Hp as <-. apply find_edns_ok in He; [|done]. split; cbn; try done.
  split; [|by apply is_bytes_subarray]. pose proof (blen_subarray_bound buf 12 (qe + 4)). lia.
Qed.

(** ** Responses without answers *)

Lemma buildResponse_empty q rcode tc ede :
  query_ok q → 0 ≤ rcode < 16 → (∀ e, ede = Some e → 0 ≤ e < 65536) →
  ∃ out, buildResponse q rcode [] tc ede = Ok out ∧ blen out ≤ 289.
Proof.
  intros [Hid Hop [Hqu _] _ _] Hrc Hede. unfold buildResponse. rewrite land_65535 by done.
  destruct (response_flags_spec (q_opcode q) tc (q_rd q) (q_cd q) rcode Hop Hrc) as (Hf & _).
  fold (edns_count q). pose proof (edns_count_range q) as Hec.
  set (fl := response_flags _ _ _ _ _) in *. set (hq := if bool_decide (is_Some _) then 1 else 0).
  assert (0 ≤ hq < 65536) by (unfold hq; case_bool_decide; lia).
  replace (if bool_decide _ then Z.of_nat (length []) else 0) with 0 by (by case_bool_decide).
  set (ec := edns_count q) in *. clearbody fl hq ec. do 5 write_step.
  assert (match q_edns q with Some e => optRecord EDNS_UDP (e_do e) ede | None => Ok [] end
          = Ok (opt_part q ede)) as ->.
  { unfold opt_part. destruct (q_edns q); [|done]. by apply optRecord_wire. }
  assert (0 ≤ blen (opt_part q ede) ≤ 17).
  { unfold opt_part. destruct (q_edns q); [|change (blen []) with 0; lia]. rewrite blen_opt_wire.
    pose proof (blen_ede_wire ede). lia. }
  assert (∀ qu, blen qu ≤ 260 → blen (qu ++ opt_part q ede) ≤ 277) as Hpart by (intros qu ?; blen_lia).
  destruct (q_question q) as [qu|]; cbn [build_answers mbind res_bind from_option id] in *;
    (eexists; split; [done |]); cbn [app]; rewrite ?app_nil_r, !blen_cons.
  - specialize (Hpart qu Hqu). lia.
  - specialize (Hpart [] ltac:(done)). cbn [app] in *. lia.
Qed.

Lemma encode_labels_fueled enc l : fueled (encode_labels enc l).
Proof. induction l as [|x l IH]; cbn [encode_labels]; fuel_auto. Qed.
Lemma encodeName_fueled name : fueled (encodeName name).
Proof. apply encode_labels_fueled. Qed.
#[export] Hint Resolve encodeName_fueled : fuel.
Lemma build_answers_fueled qname l : fueled (build_answers qname l).
Proof. induction l as [|a l IH]; cbn [build_answers]; fuel_auto. Qed.
#[export] Hint Resolve build_answers_fueled : fuel.
Lemma optRecord_fueled s d e : fueled (optRecord s d e).
Proof. unfold optRecord. fuel_auto. Qed.
#[export] Hint Resolve optRecord_fueled : fuel.
Lemma buildResponse_fueled q rcode l tc ede : fueled (buildResponse q rcode l tc ede).
Proof. unfold buildResponse. fuel_auto. Qed.
Lemma buildQuery_fueled id name qt qc edns cd : fueled (buildQuery id name qt qc edns cd).
Proof. unfold buildQuery, questionFor. fuel_auto. Qed.
#[export] Hint Resolve buildResponse_fueled buildQuery_fueled parseResponse_fueled : fuel.

Lemma age_ttls_fueled out offs age : fueled (age_ttls out offs age).
Proof. revert out. induction offs as [|o l IH]; intros out; cbn [age_ttls]; fuel_auto. Qed.
#[export] Hint Resolve age_ttls_fueled : fuel.

Lemma adaptResponse_fueled buf id qu offs age : is_bytes buf → fueled (adaptResponse buf id qu offs age).
Proof.
  intros Hb. unfold adaptResponse. apply fueled_bind; [auto with fuel |]. intros out Hw.
  assert (is_bytes out).
  { unfold writeUInt16BE in Hw. destruct (_ && _) eqn:E; [|done].
    eapply write_bytes_bytes; [done | | done]. apply u16_bytes. lia. }
  fuel_auto.
Qed.

Section Handle.
Context `{Unicode} `{LocalTime} (upstream : bool → list Z → res (list Z * jstr)).
(** The network gives buffers or fails. *)
Context (upstream_fueled : ∀ l m, fueled (upstream l m))
        (upstream_bytes : ∀ l m r, upstream l m = Ok r → is_bytes r.1).

Definition cache_inv (c : ResponseCache.cache) : Prop :=
  ResponseCache.cache_ok c ∧
  Forall (λ ke, is_bytes (ResponseCache.e_wire ke.2)) (ResponseCache.c_map c).
Definition policy_ok (po : policy) : Prop :=
  ∀ id l, map_get (po_lists po) id = Some l → cl_ok l.

Lemma map_delete_forall (P : jstr * ResponseCache.entry → Prop) m k :
  Forall P m → Forall P (map_delete m k).
Proof.
  induction 1 as [|[k' v] m Hp _ IH]; cbn [map_delete]; [constructor |].
  case_decide; [done | by constructor].
Qed.

Lemma set_inv c key wire meta now :
  cache_inv c → is_bytes wire →
  ∃ c' b, ResponseCache.set c key wire meta now = Ok (c', b) ∧ cache_inv c'.
Proof.
  intros [[Hacc Hfit] Hb] Hw. destruct (ResponseCache.storable c wire meta) eqn:E.
  - destruct (ResponseCache.set_storable c key wire meta now Hacc E) as (k & c' & -> & Hok & _ & _ & Hm & _).
    exists c', true. split; [done |]. split; [done |]. cbn zeta in Hm. rewrite Hm.
    apply Forall_drop. unfold ResponseCache.put. apply Forall_app. split; [by apply map_delete_forall |].
    by repeat constructor.
  - rewrite ResponseCache.set_not_storable by done. by exists c, false.
Qed.

Lemma get_inv c key now :
  cache_inv c →
  cache_inv (ResponseCache.get c key now).1 ∧
  ∀ e age, (ResponseCache.get c key now).2 = Some (e, age) → is_bytes (ResponseCache.e_wire e).
Proof.
  intros [Hok Hb]. split.
  - split; [by apply ResponseCache.get_cache_ok |]. unfold ResponseCache.get.
    destruct (map_get _ key) as [e|] eqn:E; [|done].
    assert (is_bytes (ResponseCache.e_wire e)).
    { apply map_get_elem in E. rewrite Forall_forall in Hb. by apply Hb in E. }
    destruct (_ <=? now); cbn; [by apply map_delete_forall |].
    rewrite ResponseCache.map_delete_set. apply Forall_app. split; [by apply map_delete_forall |].
    by repeat constructor.
  - intros e age. unfold ResponseCache.get. destruct (map_get _ key) as [e'|] eqn:E; [|done].
    destruct (_ <=? now); [done |]. intros [= <- _]. apply map_get_elem in E.
    rewrite Forall_forall in Hb. by apply Hb in E.
Qed.

(** A step of the resolver keeps the cache and does not run out of fuel. *)
Definition sound_step {A} (P : A → Prop) (x : ResponseCache.cache * res A) : Prop :=
  cache_inv x.1 ∧ fueled x.2 ∧ ∀ a, x.2 = Ok a → P a.

Lemma fetch_sound c local name qt qc edns cd now :
  cache_inv c → sound_step (λ r, is_bytes (r_wire r)) (fetch upstream c local name qt qc edns cd now).
Proof.
  intros Hc. unfold fetch. pose proof (buildQuery_fueled 0 name qt qc edns cd) as Hq.
  destruct (buildQuery 0 name qt qc edns cd) as [msg| |]; cbn [mbind res_bind]; [|by split_and!|done].
  pose proof (upstream_fueled local msg) as Hf. pose proof (upstream_bytes local msg) as Hb.
  destruct (upstream local msg) as [r| |]; cbn [mbind res_bind]; [|by split_and!|done].
  specialize (Hb r eq_refl). pose proof (parseResponse_fueled r.1) as Hp.
  destruct (parseResponse r.1) as [[m|]| |]; cbn [mbind res_bind of_option]; [|by split_and!|by split_and!|done].
  destruct (set_inv c (cache_key local name qt qc edns cd) r.1 (Some m) now Hc Hb) as (c' & b & -> & Hc').
  cbn [mbind res_bind]. split_and!; [done | done |]. by intros a [= <-].
Qed.

Lemma _forward_sound c local name qt qc edns cd now :
  cache_inv c → sound_step (λ r, is_bytes (r_wire r)) (_forward upstream c local name qt qc edns cd now).
Proof.
  intros Hc. unfold _forward.
  destruct (get_inv c (cache_key local name qt qc edns cd) now Hc) as [Hc' He].
  destruct (ResponseCache.get c _ now) as [c' [[e age]|]]; cbn [fst snd] in *; [|by apply fetch_sound].
  split_and!; [done | done |]. intros a [= <-]. by eapply He.
Qed.

Lemma chain_fueled n l age cur : fueled (chain n l age cur).
Proof. revert cur. induction n as [|n IH]; intros cur; cbn [chain]; fuel_auto. Qed.
Local Hint Resolve chain_fueled : fuel.

Lemma respond_sound c q d br now :
  cache_inv c → sound_step (λ _, True) (respond upstream c q d br now).
Proof.
  intros Hc. unfold respond, sound_step. destruct (d_block d).
  { split_and!; [done | cbn; unfold _blocked; fuel_auto | done]. }
  destruct (d_safeSearch d) as [t|].
  - destruct (_ || _); [|split_and!; [done | cbn; fuel_auto | done]]. unfold _safeSearch.
    pose proof (_forward_sound c false t (default 0 (q_qtype q)) CLASS_IN (e_do <$> q_edns q) (q_cd q) now Hc)
      as (Hc' & Hf & _).
    destruct (_forward _ _ _ _ _ _ _ _ _) as [c' r]. cbn [fst snd] in *. split_and!; [done | | done].
    unfold safe_answers. fuel_auto.
  - pose proof (_forward_sound c (d_local d) (default [] (q_name q)) (default 0 (q_qtype q))
      (default CLASS_IN (q_qclass q)) (e_do <$> q_edns q) (q_cd q) now Hc) as (Hc' & Hf & Hb).
    destruct (_forward _ _ _ _ _ _ _ _ _) as [c' r]. cbn [fst snd] in *. split_and!; [done | | done].
    apply fueled_bind; [done |]. intros a Ha. apply fueled_bind; [|intros; done].
    apply adaptResponse_fueled. by apply Hb.
Qed.

Lemma or_servfail_total q r :
  query_ok q → fueled r → ∃ o, or_servfail q r = Ok o.
Proof.
  intros Hq Hr. destruct r as [o|e|]; [by exists o | | done]. cbn [or_servfail].
  destruct (buildResponse_empty q RCODE.SERVFAIL false None Hq) as (out & -> & _); [done | done |].
  by eexists.
Qed.

Lemma rcode_range buf m : parseResponse buf = Ok (Some m) → 0 ≤ rs_rcode m < 16.
Proof.
  intros Hp. unfold parseResponse in Hp. apply try_null_Some in Hp.
  destruct (blen buf <? 12); [done |]. apply res_bind_Ok in Hp as (flags & _ & Hp).
  destruct (_ =? 0); [done |]. res_inv. destruct (_ || _); [done |]. res_inv. destruct (_ && _); [done |].
  res_inv. destruct v4; [|done]. res_inv. cbn [rs_rcode].
  change 15 with (Z.ones 4). rewrite Z.land_ones by lia. by apply Z.mod_pos_bound.
Qed.

Lemma truncate_total q udp out :
  query_ok q →
  ∃ out', truncate q udp out = Ok out' ∧ (udp = true → blen out' ≤ maxUdp q udp).
Proof.
  intros Hq. unfold truncate.
  assert (udp = true → 512 ≤ maxUdp q udp) as Hm.
  { intros ->. unfold maxUdp. pose proof (qk_edns q Hq) as He. destruct (q_edns q) as [i|]; [|lia].
    specialize (He i eq_refl). lia. }
  destruct (negb (maxUdp q udp =? 0) && (maxUdp q udp <? blen out)) eqn:E.
  - pose proof (parseResponse_fueled out) as Hf. pose proof (rcode_range out) as Hr.
    destruct (parseResponse out) as [meta| |] eqn:Ep; [|unfold parseResponse, try_null in Ep; by case_match|done].
    cbn [mbind res_bind].
    destruct (buildResponse_empty q (match meta with Some m => rs_rcode m | None => RCODE.NOERROR end)
      true None Hq) as (out' & -> & Hl); [destruct meta; [by apply Hr | done] | done |].
    exists out'. split; [done |]. intros Hu. specialize (Hm Hu). lia.
  - exists out. split; [done |]. intros Hu. specialize (Hm Hu).
    apply andb_false_iff in E as [E|E]; [apply negb_false_iff, Z.eqb_eq in E; lia | by apply Z.ltb_ge].
Qed.

Lemma decide_total po name mac now : policy_ok po → ∃ d, decide_name po name mac now = Ok d.
Proof.
  intros Hpo. unfold decide_name.
  assert (∀ ids, ∃ r, lists_block po name ids = Ok r) as Hl.
  { induction ids as [|id ids [r Hr]]; cbn [lists_block]; [by eexists |].
    destruct (map_get (po_lists po) id) as [l|] eqn:E; [|by eexists].
    unfold suffixes. rewrite fmap_cons, matchHashes_spec by (by eapply Hpo). cbn [mbind res_bind].
    destruct (_ && _); by eexists. }
  case_bool_decide; [by eexists |]. destruct (isLocal po name); [by eexists |].
  destruct (ps_matches _ _); [by eexists |]. destruct (profileFor po mac) as [p|]; cbv zeta.
  2: { destruct (truthy _); by eexists. }
  destruct (ps_matches _ _); [by eexists |]. destruct (truthy _); [by eexists |].
  destruct (ps_matches _ _); [by eexists |]. destruct (if negb _ && negb _ then _ else _) as [[? ?]|]; [by eexists |].
  destruct (Hl (pr_lists (pf_profile p))) as [[id|] ->]; by eexists.
Qed.

(** C2: whatever bytes a client sends: the cache stays well formed, bytes that
    are no query get no answer, every query gets one, whatever the upstream
    does, and over UDP no answer is longer than the client takes. *)
Theorem handle_answers c po macFor msg ip udp br now :
  is_bytes msg → policy_ok po → cache_inv c →
  let '(c', r) := handle upstream c po macFor msg ip udp br now in
  cache_inv c' ∧
  match parseQuery msg with
  | Ok (Some q) => ∃ out, r = Ok (Some out) ∧ (udp = true → blen out ≤ maxUdp q udp)
  | p => p = Ok None ∧ r = Ok None
  end.
Proof.
  intros Hb Hpo Hc. unfold handle. pose proof (parseQuery_fueled msg Hb) as Hf.
  pose proof (parseQuery_ok msg) as Hqok. destruct (parseQuery msg) as [[q|]|e|] eqn:Ep; [| by split_and! | | done].
  2: { unfold parseQuery, try_null in Ep. by case_match. }
  specialize (Hqok q Hb eq_refl).
  assert (udp = true → 289 ≤ maxUdp q udp) as Hm.
  { intros ->. unfold maxUdp. pose proof (qk_edns q Hqok) as He. destruct (q_edns q) as [i|]; [|lia].
    specialize (He i eq_refl). lia. }
  assert (∀ q' rc, query_ok q' → 0 ≤ rc < 16 → ∃ out, Some <$> buildResponse q' rc [] false None = Ok (Some out)
            ∧ (udp = true → blen out ≤ maxUdp q udp)) as Herr.
  { intros q' rc Hq' Hrc. destruct (buildResponse_empty q' rc false None Hq' Hrc) as (out & -> & Hl); [done |].
    exists out. split; [done |]. intros Hu. specialize (Hm Hu). lia. }
  destruct (negb (q_opcode q =? 0)); [by split; [|apply Herr] |].
  destruct (q_question q) as [qu|].
  2: { split; [done |]. apply Herr; [|done]. destruct Hqok. split; cbn; try done; by split; [|constructor]. }
  destruct (q_name q) as [name|]; [|by split; [|apply Herr]].
  destruct (_ || _); [by split; [|apply Herr] |].
  unfold handle_question. destruct (decide_total po name (client_mac macFor ip) now Hpo) as [d ->].
  pose proof (respond_sound c q d br now Hc) as (Hc' & Hfr & _).
  destruct (respond upstream c q d br now) as [c' r]. cbn [fst snd] in *. split; [done |].
  destruct (or_servfail_total q r Hqok Hfr) as [o ->]. cbn [mbind res_bind].
  destruct (truncate_total q udp (o_wire o) Hqok) as (out & -> & Hl). cbn [mbind res_bind].
  exists out. by split.
Qed.
End Handle.

Theorem blocked_null_address `{Unicode} q d name qt br :
  q_name q = Some name → host_name name → q_qtype q = Some qt → 0 ≤ qt < 65536 →
  q_question q = Some (wire_name name ++ u16 qt ++ u16 CLASS_IN) →
  0 ≤ q_id q < 65536 → 0 ≤ q_opcode q < 16 →
  ∃ msg rs,
    _blocked q d br = Ok msg ∧ parseResponse msg = Ok (Some rs) ∧
    rs_id rs = q_id q ∧ rs_qname rs = Some name ∧ rs_tc rs = false ∧
    if d_nxdomain d || bool_decide (br = js "nxdomain")
    then rs_rcode rs = RCODE.NXDOMAIN ∧ rs_answers rs = []
    else rs_rcode rs = RCODE.NOERROR ∧
         rs_answers rs = (if qt =? TYPE.A then [Answer name TYPE.A 60 [0; 0; 0; 0] None]
                          else if qt =? TYPE.AAAA then [Answer name TYPE.AAAA 60 (replicate 16 0) None]
                          else []).
Proof.
  intros Hn Hh Ht Hqt Hq Hid Hop. unfold _blocked. rewrite Hn, Ht.
  destruct (_ || _).
  - destruct (response_roundtrip q name qt CLASS_IN RCODE.NXDOMAIN [] false (Some EDE_BLOCKED))
      as (msg & rs & ? & ? & ? & ? & ? & ? & ? & _);
      [done..| constructor | simpl; lia | by intros e [= <-] |].
    exists msg, rs. by split_and!.
  - set (ans := _ ++ _).
    assert (ans = (if qt =? TYPE.A then [Answer name TYPE.A 60 [0; 0; 0; 0] None]
                   else if qt =? TYPE.AAAA then [Answer name TYPE.AAAA 60 (replicate 16 0) None] else [])) as Hans.
    { unfold ans. destruct (Z.eqb_spec qt TYPE.A) as [->|]; [done |]. rewrite bool_decide_false by congruence.
      destruct (Z.eqb_spec qt TYPE.AAAA) as [->|]; [done |]. by rewrite bool_decide_false by congruence. }
    destruct (response_roundtrip q name qt CLASS_IN RCODE.NOERROR ans false (Some EDE_BLOCKED))
      as (msg & rs & ? & ? & ? & ? & ? & ? & Ha & _); [done..| | | |].
    + rewrite Hans. destruct (_ =? _); [|destruct (_ =? _)]; [| |constructor]; apply Forall_singleton;
        by split_and!.
    + rewrite Hans. destruct (_ =? _); [|destruct (_ =? _)]; cbn; lia.
    + by intros e [= <-].
    + exists msg, rs. rewrite Ha. by split_and!.
Qed.

(** ** Examples *)

(** Two clients ask the same question before the answer comes. *)
Definition sample_trace : list pool_event := [Asked 1 (js "k"); Asked 2 (js "k"); Settled (js "k")].

Lemma sample_run : ∃ st, pool_run sample_trace st.
Proof.
  pose (p1 := join_pool (Pool [] [] []) 1 (js "k")). pose (p2 := join_pool p1 2 (js "k")).
  exists (settle p2 (js "k") [1; 2]%nat).
  apply (run_step [Asked 1 (js "k"); Asked 2 (js "k")] p2); [|by apply step_settled].
  apply (run_step [Asked 1 (js "k")] p1); [|apply step_asked].
  apply (run_step [] (Pool [] [] [])); [apply run_init | apply step_asked].
Qed.

Lemma pool_coalesces_witness : ∃ st, pool_run sample_trace st ∧
  asks sample_trace ≡ₚ waiting (pl_inflight st) ++ pl_answered st.
Proof.
  destruct sample_run as (st & Hrun). exists st. split; [exact Hrun |]. exact (proj1 (pool_coalesces sample_trace st Hrun)).
Defined.

(** An upstream that never answers, and an empty configuration. *)
Definition no_upstream (l : bool) (m : list Z) : res (list Z * jstr) := Throw "timeout".
Definition empty_policy : policy := @newPolicy ascii_unicode (DnsCfg [] [] [] None [] []) [] [] [].
Definition sample_local : LocalTime := {| localDate := λ _, JsDate 1 12 0 |}.
Definition sample_msg : list Z := [0; 7; 1; 0; 0; 1; 0; 0; 0; 0; 0; 0; 1; 97; 0; 0; 1; 0; 1].

Lemma handle_answers_witness : ∃ c' out,
  @handle ascii_unicode sample_local no_upstream (ResponseCache.newResponseCache 10 1000) empty_policy None sample_msg
    (Some (js "192.168.1.5")) true (js "null") 1000 = (c', Ok (Some out)) ∧ cache_inv c'.
Proof.
  assert (cache_inv (ResponseCache.newResponseCache 10 1000)) as Hc
    by (split; [by apply ResponseCache.newResponseCache_ok | constructor]).
  assert (is_bytes sample_msg) as Hm by (repeat constructor; vm_compute; congruence).
  assert (policy_ok empty_policy) as Hp by done.
  pose proof (@handle_answers ascii_unicode sample_local no_upstream ltac:(done) ltac:(done)
    (ResponseCache.newResponseCache 10 1000) empty_policy None sample_msg (Some (js "192.168.1.5")) true (js "null") 1000
    Hm Hp Hc) as H.
  destruct (@handle ascii_unicode sample_local _ _ _ _ _ _ _ _ _) as [c' r].
  destruct (parseQuery sample_msg) as [[q|]| |] eqn:Hq; [| by vm_compute in Hq..].
  destruct H as [Hc' (out & -> & _)]. exists c', out. split; [reflexivity | exact Hc'].
Defined.
