(* ===== verification/Topics.v ===== *)
(** * src/edge/topics.js

    MQTT topics and filters: validity, matching, and the question whether an
    approved filter covers a requested one. *)

From S2P Require Import Prelude.

Local Open Scope Z_scope.

Definition MAX_LEN : Z := 256.
Definition slash : Z := 47.
Definition hash_level : jstr := js "#".
Definition plus_level : jstr := js "+".

Definition slen (s : jstr) : Z := Z.of_nat (length s).

(** [/[\0\r\n]/] *)
Definition control_unit (c : Z) : bool := (c =? 0) || (c =? 13) || (c =? 10).

Fixpoint valid_levels (levels : list jstr) : bool :=
  match levels with
  | [] => true
  | l :: rest =>
      if bool_decide (l = hash_level) then
        (match rest with [] => valid_levels rest | _ => false end)
      else if bool_decide (l = plus_level) then valid_levels rest
      else if includes 35 l || includes 43 l then false
      else valid_levels rest
  end.

(** Filters are strings here ([typeof f === 'string']). *)
Definition validFilter (f : jstr) : bool :=
  if (slen f =? 0) || (MAX_LEN <? slen f) then false
  else if existsb control_unit f then false
  else valid_levels (split_on slash f).

Definition validTopic (t : jstr) : bool :=
  (0 <? slen t) && (slen t <=? MAX_LEN)
  && negb (existsb (λ c, control_unit c || (c =? 35) || (c =? 43)) t).

Definition validPluginFilter (f : jstr) : bool :=
  validFilter f && negb (starts_with (js "#") f) && negb (starts_with (js "+") f)
  && negb (starts_with (js "$") f).

(** The loop of [matches] over the levels. *)
Fixpoint matches_levels (f t : list jstr) : bool :=
  match f with
  | [] => match t with [] => true | _ => false end
  | l :: f =>
      if bool_decide (l = hash_level) then true
      else match t with
           | [] => false
           | x :: t =>
               if negb (bool_decide (l = plus_level)) && negb (bool_decide (l = x)) then false
               else matches_levels f t
           end
  end.

Definition wild_level (l : jstr) : bool := bool_decide (l = hash_level) || bool_decide (l = plus_level).

Definition matches (filter topic : jstr) : bool :=
  let f := split_on slash filter in
  let t := split_on slash topic in
  if starts_with (js "$") topic && wild_level (hd [] f) then false else matches_levels f t.

(** The loop of [covers] over the levels. *)
Fixpoint covers_levels (o n : list jstr) : bool :=
  match o with
  | [] => match n with [] => true | _ => false end
  | lo :: o =>
      if bool_decide (lo = hash_level) then true
      else match n with
           | [] => false
           | ln :: n =>
               if bool_decide (ln = hash_level) then false
               else if bool_decide (lo = plus_level) then covers_levels o n
               else if bool_decide (ln = plus_level) || negb (bool_decide (ln = lo)) then false
               else covers_levels o n
           end
  end.

Definition covers (outer inner : jstr) : bool :=
  covers_levels (split_on slash outer) (split_on slash inner).

(** ** Lemmas *)

(** A level of a topic: no wildcard in it. *)
Definition plain_level (l : jstr) : Prop := (35 ∉ l) ∧ (43 ∉ l).

Lemma plain_not_wild l : plain_level l → l ≠ hash_level ∧ l ≠ plus_level.
Proof. intros [H1 H2]. split; intros ->; set_solver. Qed.

Lemma covers_levels_sound o n t :
  covers_levels o n = true → matches_levels n t = true → matches_levels o t = true.
Proof.
  revert n t. induction o as [|lo o IH]; intros n t; cbn [covers_levels matches_levels].
  { destruct n; [|done]. by destruct t. }
  case_bool_decide as Hlo; [done |]. destruct n as [|ln n]; [done |]. cbn [matches_levels].
  case_bool_decide as Hln; [done |].
  destruct t as [|x t]; [by case_bool_decide |].
  case_bool_decide as Hplus; cbn [negb andb].
  - intros Hc. destruct (_ && _); [done |]. by apply IH.
  - case_bool_decide as Hlnp; [done |]. case_bool_decide as Heq; [|done]. subst ln. cbn [orb negb andb].
    intros Hc. case_bool_decide; [|done]. by apply IH.
Qed.

Lemma matches_levels_app_plain f t : matches_levels f t = true → hash_level ∉ f → length f = length t.
Proof.
  revert t. induction f as [|l f IH]; intros t; cbn [matches_levels]; [by destruct t |].
  case_bool_decide; [set_solver |]. destruct t as [|x t]; [done |].
  destruct (_ && _); [done |]. intros Hm Hn. simpl. f_equal. apply IH; [done | set_solver].
Qed.

(** A topic for the filter [n]: [+] is replaced by [x], a final [#] by [more]. *)
Fixpoint instance (x : jstr) (more : list jstr) (n : list jstr) : list jstr :=
  match n with
  | [] => []
  | l :: n => if bool_decide (l = hash_level) then more
              else (if bool_decide (l = plus_level) then x else l) :: instance x more n
  end.

Lemma instance_matches x more n : matches_levels n (instance x more n) = true.
Proof.
  induction n as [|l n IH]; cbn [instance matches_levels]; [done |].
  case_bool_decide; [done |]. repeat case_bool_decide; done.
Qed.

Lemma instance_plain x more n :
  plain_level x → Forall plain_level more → valid_levels n = true → Forall plain_level (instance x more n).
Proof.
  intros Hx Hm. induction n as [|l n IH]; cbn [instance valid_levels]; [constructor |].
  case_bool_decide; [by destruct n |]. case_bool_decide.
  - intros. constructor; auto.
  - destruct (includes 35 l || includes 43 l) eqn:E; [done |]. intros. constructor; [|auto].
    apply orb_false_iff in E as [E1 E2]. unfold includes in *. split; intros Hin.
    + assert (existsb (Z.eqb 35) l = true); [|congruence]. apply existsb_exists. exists 35.
      rewrite <- list_elem_of_In. by rewrite Z.eqb_refl.
    + assert (existsb (Z.eqb 43) l = true); [|congruence]. apply existsb_exists. exists 43.
      rewrite <- list_elem_of_In. by rewrite Z.eqb_refl.
Qed.

(** When [o] does not cover [n], one of two topics of [n] is not of [o]:
    the one where [#] stands for nothing or the one where it is a level. *)
Lemma valid_levels_cons l ls :
  valid_levels (l :: ls) = true → l ≠ hash_level → valid_levels ls = true.
Proof.
  cbn [valid_levels]. intros Hv Hl. rewrite bool_decide_false in Hv by done.
  case_bool_decide; [done |]. by destruct (_ || _).
Qed.

(** One level of the two filters. *)
Lemma covers_level_step x more lo o ln n :
  lo ≠ hash_level → ln ≠ hash_level → x ≠ lo → x ≠ hash_level → x ≠ plus_level →
  covers_levels (lo :: o) (ln :: n) = false →
  (lo ≠ plus_level ∧ matches_levels (lo :: o) (instance x more (ln :: n)) = false) ∨
  (covers_levels o n = false ∧
   matches_levels (lo :: o) (instance x more (ln :: n)) = matches_levels o (instance x more n)).
Proof.
  intros Hlo Hln Hxl Hx1 Hx2. cbn [covers_levels matches_levels instance].
  rewrite !(bool_decide_false (lo = hash_level)), !(bool_decide_false (ln = hash_level)) by done.
  destruct (decide (lo = plus_level)) as [->|Hp].
  - rewrite !(bool_decide_true (plus_level = plus_level)) by done. cbn [negb andb]. by right.
  - rewrite !(bool_decide_false (lo = plus_level)) by done. cbn [negb andb].
    destruct (decide (ln = plus_level)) as [->|Hq].
    + rewrite !(bool_decide_true (plus_level = plus_level)) by done. intros _. left.
      by rewrite bool_decide_false by congruence.
    + rewrite !(bool_decide_false (ln = plus_level)) by done. cbn [orb].
      destruct (decide (ln = lo)) as [->|].
      * rewrite !bool_decide_true by done. cbn [negb]. by right.
      * intros _. left. by rewrite bool_decide_false by congruence.
Qed.

(** When [o] does not cover [n], one of two topics of [n] is not one of [o]:
    the one where [#] stands for nothing, or the one where it is a level. *)
Lemma covers_levels_complete x o n :
  valid_levels o = true → valid_levels n = true → (x ∉ o) → x ≠ hash_level → x ≠ plus_level →
  covers_levels o n = false →
  matches_levels o (instance x [] n) = false ∨ matches_levels o (instance x [x] n) = false.
Proof.
  intros Ho Hn Hxo Hx1 Hx2. revert n Hn. induction o as [|lo o IH]; intros n Hn.
  { destruct n as [|ln n]; [done |]. intros _. right. cbn [instance]. by case_bool_decide. }
  destruct (decide (lo = hash_level)) as [->|Hlo]; [cbn; by rewrite bool_decide_true |].
  assert (matches_levels (lo :: o) [] = false) as Hnil by (cbn; by rewrite bool_decide_false).
  destruct n as [|ln n]; [by left |].
  destruct (decide (ln = hash_level)) as [->|Hln].
  { left. cbn [instance]. by rewrite bool_decide_true. }
  intros Hc.
  destruct (covers_level_step x [] lo o ln n) as [[_ ?]|[Hc' ->]]; try done; [set_solver | by left |].
  destruct (covers_level_step x [x] lo o ln n) as [[_ ?]|[_ ->]]; try done; [set_solver | by right |].
  apply IH; [by eapply valid_levels_cons | set_solver | by eapply valid_levels_cons | done].
Qed.

(** The first level decides whether the topic may be empty. *)
Lemma instance_nonempty x n : n ≠ [] → instance x [x] n ≠ [].
Proof. destruct n as [|l n]; [done |]. intros _. cbn [instance]. by case_bool_decide. Qed.

(** ** Topics as level lists *)

(** A list of levels that is a topic name. *)
Definition topic_levels (t : list jstr) : Prop :=
  t ≠ [] ∧ Forall (λ l, (slash ∉ l) ∧ plain_level l) t.

Lemma split_on_levels t : Forall (λ l, slash ∉ l) (split_on slash t).
Proof.
  induction t as [|c t IH]; cbn [split_on]; [repeat constructor; set_solver |].
  destruct (Z.eqb_spec c slash); [constructor; [set_solver | done] |].
  destruct (split_on slash t) as [|h r]; [repeat constructor; set_solver |].
  apply Forall_cons in IH as [Hh Hr]. constructor; [set_solver | done].
Qed.

Lemma split_join t : topic_levels t → split_on slash (join slash t) = t.
Proof.
  intros [Hne Ht]. apply split_on_join; [done |]. eapply Forall_impl; [exact Ht | naive_solver].
Qed.

Lemma starts_with_hd s c : c ≠ slash → starts_with [c] s = starts_with [c] (hd [] (split_on slash s)).
Proof.
  intros Hc. destruct s as [|d s]; [done |]. cbn [split_on]. destruct (Z.eqb_spec d slash) as [->|].
  - cbn. destruct (Z.eqb_spec c slash); [done |]. done.
  - by destruct (split_on slash s).
Qed.

(** A level that occurs in none of the given ones. *)
Definition fresh_level (ls : list jstr) : jstr := replicate (S (sum_list (length <$> ls))) 120.

Lemma fresh_level_spec ls : fresh_level ls ∉ ls.
Proof.
  intros Hin. assert (∀ l, l ∈ ls → (length l ≤ sum_list (length <$> ls))%nat) as Hle.
  { clear Hin. induction ls as [|y ls IH]; [set_solver |]. intros l [->|Hl]%elem_of_cons; csimpl; [lia |].
    specialize (IH l Hl). lia. }
  apply Hle in Hin. unfold fresh_level in Hin. rewrite length_replicate in Hin. lia.
Qed.

Lemma fresh_level_plain ls : plain_level (fresh_level ls) ∧ (slash ∉ fresh_level ls) ∧ starts_with (js "$") (fresh_level ls) = false.
Proof.
  unfold plain_level, fresh_level. split_and!; try done; by intros ?%elem_of_replicate_inv.
Qed.

Lemma join_plain t : Forall (λ l, (slash ∉ l) ∧ plain_level l) t → plain_level (join slash t).
Proof.
  unfold plain_level. induction 1 as [|l t [_ [H1 H2]] Ht IH]; cbn [join]; [set_solver |].
  destruct t as [|l' t]; [done |]. rewrite !elem_of_app, !elem_of_cons. unfold slash. naive_solver lia.
Qed.

Lemma instance_levels x more n :
  plain_level x → (slash ∉ x) → Forall (λ l, (slash ∉ l) ∧ plain_level l) more →
  valid_levels n = true → Forall (λ l, slash ∉ l) n →
  Forall (λ l, (slash ∉ l) ∧ plain_level l) (instance x more n).
Proof.
  intros Hx Hsx Hm Hv Hn. apply Forall_and. split.
  - clear Hv. induction n as [|l n IH]; cbn [instance]; [constructor |].
    apply Forall_cons in Hn as [Hl Hn]. case_bool_decide.
    + eapply Forall_impl; [exact Hm | naive_solver].
    + constructor; [by case_bool_decide | by apply IH].
  - apply instance_plain; [done | | done]. eapply Forall_impl; [exact Hm | naive_solver].
Qed.

Lemma validFilter_levels f : validFilter f = true → valid_levels (split_on slash f) = true.
Proof. unfold validFilter. destruct (_ || _); [done |]. by destruct (existsb _ _). Qed.

Lemma hd_instance x n :
  n ≠ [] → wild_level (hd [] n) = true → hd [] (instance x [x] n) = x.
Proof.
  destruct n as [|l n]; [done |]. intros _. cbn [hd instance]. unfold wild_level.
  case_bool_decide; [done |]. cbn [orb]. by intros ->.
Qed.

(** The topic that separates two filters, as a string. *)
Lemma separating_topic outer inner :
  validFilter outer = true → wild_level (hd [] (split_on slash outer)) = false →
  validFilter inner = true → covers outer inner = false →
  ∃ topic, plain_level topic ∧ matches inner topic = true ∧ matches outer topic = false.
Proof.
  intros Ho Hwild Hn Hc. unfold covers in Hc. apply validFilter_levels in Ho, Hn.
  pose proof (split_on_nonempty slash outer) as Hone. pose proof (split_on_nonempty slash inner) as Hnne.
  pose proof (split_on_levels inner) as Hnl. unfold matches.
  set (o := split_on slash outer) in *. set (n := split_on slash inner) in *.
  set (x := fresh_level o). destruct (fresh_level_plain o) as (Hxp & Hxs & Hxd). fold x in Hxp, Hxs, Hxd.
  destruct (plain_not_wild x Hxp) as [Hx1 Hx2]. pose proof (fresh_level_spec o) as Hxo. fold x in Hxo.
  assert (∀ more, more = [] ∨ more = [x] → instance x more n ≠ [] →
    (wild_level (hd [] n) = true → hd [] (instance x more n) = x) → matches_levels o (instance x more n) = false →
    ∃ topic, plain_level topic ∧
      (if starts_with (js "$") topic && wild_level (hd [] n) then false else matches_levels n (split_on slash topic)) = true ∧
      (if starts_with (js "$") topic && wild_level (hd [] o) then false else matches_levels o (split_on slash topic)) = false)
    as Htopic.
  { intros more Hmore Hne Hhd Hm.
    assert (topic_levels (instance x more n)) as Ht.
    { split; [done |]. apply instance_levels; try done. destruct Hmore as [->| ->]; repeat constructor; try done; apply Hxp. }
    exists (join slash (instance x more n)). rewrite split_join by done.
    rewrite Hwild, andb_false_r, instance_matches. split; [by apply join_plain; apply Ht |]. split; [|done].
    change (js "$") with [36]. rewrite starts_with_hd, split_join by done.
    destruct (wild_level (hd [] n)) eqn:Hw; [|by rewrite andb_false_r].
    change (js "$") with [36] in Hxd. by rewrite Hhd, Hxd. }
  destruct (covers_levels_complete x o n Ho Hn Hxo Hx1 Hx2 Hc) as [H1|H1].
  2: { apply (Htopic [x]); [by right | by apply instance_nonempty | by apply hd_instance | done]. }
  destruct (decide (wild_level (hd [] n) = true)) as [Hw|Hw].
  - apply (Htopic [x]); [by right | by apply instance_nonempty | by apply hd_instance |].
    pose proof (hd_instance x n Hnne Hw) as Hhd. pose proof (instance_nonempty x n Hnne).
    destruct (instance x [x] n) as [|y ys]; [done |]. cbn [hd] in Hhd. subst y.
    destruct o as [|lo o']; [done |]. cbn [hd] in Hwild. unfold wild_level in Hwild.
    apply orb_false_iff in Hwild as [Hl1 Hl2]. cbn [matches_levels]. rewrite Hl1, Hl2. cbn [negb andb].
    by rewrite bool_decide_false by set_solver.
  - apply (Htopic []); [by left | | done | done]. destruct n as [|ln n']; [done |]. cbn [instance].
    cbn [hd] in Hw. unfold wild_level in Hw. rewrite bool_decide_false; [done |].
    intros ->. by rewrite bool_decide_true in Hw.
Qed.

(** A filter that plugins may use does not begin with a wildcard. *)
Lemma plugin_filter_hd f : validPluginFilter f = true → validFilter f = true ∧ wild_level (hd [] (split_on slash f)) = false.
Proof.
  unfold validPluginFilter. rewrite !andb_true_iff, !negb_true_iff. intros [[[Ho Hh] Hp] _]. split; [done |].
  change (js "#") with [35] in Hh. change (js "+") with [43] in Hp. rewrite starts_with_hd in Hh, Hp by done.
  unfold wild_level. rewrite !bool_decide_false; [done | |]; intros E; rewrite E in *; done.
Qed.

Lemma covers_matches outer inner topic :
  validPluginFilter outer = true → covers outer inner = true → matches inner topic = true → matches outer topic = true.
Proof.
  intros [_ Hwild]%plugin_filter_hd Hc Hm. unfold matches in *. rewrite Hwild, andb_false_r.
  destruct (starts_with _ _ && _); [done |]. by eapply covers_levels_sound.
Qed.

(** ** The theorems *)

(** One topic filter covers another exactly when every topic the other
    matches is matched by it. *)
Theorem covers_spec outer inner :
  validPluginFilter outer = true → validFilter inner = true →
  covers outer inner = true ↔
  ∀ topic, plain_level topic → matches inner topic = true → matches outer topic = true.
Proof.
  intros Hp Hn. destruct (plugin_filter_hd _ Hp) as [Ho Hwild]. split.
  - intros Hc topic _ Hm. by eapply covers_matches.
  - intros Hall. destruct (covers outer inner) eqn:Hc; [done |].
    destruct (separating_topic outer inner Ho Hwild Hn Hc) as (topic & Hpl & Hm & Hm').
    rewrite (Hall topic Hpl Hm) in Hm'. done.
Qed.

Lemma covers_spec_witness : covers (js "home/#") (js "home/+/state") = true ∧
  ∀ topic, plain_level topic → matches (js "home/+/state") topic = true → matches (js "home/#") topic = true.
Proof.
  split; [by vm_compute |]. apply (covers_spec (js "home/#") (js "home/+/state")); by vm_compute.
Defined.
