(* ===== verification/EventBuffer.v ===== *)
(** * src/edge/eventBuffer.js

    The buffer of unacknowledged events of a plug-in: rising sequence numbers,
    bounded in number and age, acknowledged up to and including a number. *)

From stdpp Require Import sorting.
From S2P Require Import Prelude.

Local Open Scope Z_scope.

(** [LIMITS.eventBufferMax] and [LIMITS.eventBufferMaxAgeMs] of
    src/edge/constants.js *)
Definition eventBufferMax : Z := 1000.
Definition eventBufferMaxAgeMs : Z := 60 * 60 * 1000.

Section Events.
(** [M] stands for the fields of a message other than its [seq]. *)
Context {M : Type}.

Record item := Item { it_seq : Z; it_msg : M; it_ts : Z }.
Record buffer := Buffer {
  b_max : Z; b_maxAgeMs : Z; b_lastSeq : Z; b_items : list item; b_lost : Z
}.

Definition newEventBuffer (max maxAgeMs : Z) : buffer := Buffer max maxAgeMs 0 [] 0.

Definition nextSeq (b : buffer) (now : Z) : Z := Z.max (b_lastSeq b + 1) now.

Definition with_items (b : buffer) (items : list item) (lost : Z) : buffer :=
  Buffer (b_max b) (b_maxAgeMs b) (b_lastSeq b) items lost.

(** The two loops of [prune]: [shift] and count. *)
Fixpoint drop_old (cutoff : Z) (items : list item) (lost : Z) : list item * Z :=
  match items with
  | i :: rest => if it_ts i <? cutoff then drop_old cutoff rest (lost + 1) else (items, lost)
  | [] => ([], lost)
  end.
Fixpoint drop_excess (max : Z) (items : list item) (lost : Z) : list item * Z :=
  match items with
  | _ :: rest => if max <? Z.of_nat (length items) then drop_excess max rest (lost + 1) else (items, lost)
  | [] => ([], lost)
  end.

Definition prune (b : buffer) (now : Z) : buffer :=
  let '(items, lost) := drop_old (now - b_maxAgeMs b) (b_items b) (b_lost b) in
  let '(items, lost) := drop_excess (b_max b) items lost in
  with_items b items lost.

(** [push]: the clock is read for the number, for the time stamp and by
    [prune]. The number is part of the returned message. *)
Definition push (b : buffer) (m : M) (now1 now2 now3 : Z) : buffer * Z :=
  let seq := nextSeq b now1 in
  (prune (Buffer (b_max b) (b_maxAgeMs b) seq (b_items b ++ [Item seq m now2]) (b_lost b)) now3, seq).

Fixpoint drop_acked (seq : Z) (items : list item) (n : Z) : list item * Z :=
  match items with
  | i :: rest => if it_seq i <=? seq then drop_acked seq rest (n + 1) else (items, n)
  | [] => ([], n)
  end.

(** [ack(seq)]; [None] is a number that is not finite. *)
Definition ack (b : buffer) (seq : option Z) : buffer * Z :=
  match seq with
  | None => (b, 0)
  | Some seq => let '(items, n) := drop_acked seq (b_items b) 0 in (with_items b items (b_lost b), n)
  end.

Definition pending (b : buffer) (now : Z) : buffer * list (Z * M) :=
  let b := prune b now in (b, (λ i, (it_seq i, it_msg i)) <$> b_items b).

(** ** Runs *)

Inductive event_op :=
  | Push (m : M) (now1 now2 now3 : Z)
  | Ack (seq : option Z)
  | Pending (now : Z).

Definition run_op (b : buffer) (op : event_op) : buffer :=
  match op with
  | Push m n1 n2 n3 => (push b m n1 n2 n3).1
  | Ack s => (ack b s).1
  | Pending n => (pending b n).1
  end.

(** The events of a run, with the numbers they got. *)
Fixpoint pushed (b : buffer) (ops : list event_op) : list (Z * M) :=
  match ops with
  | [] => []
  | op :: ops =>
      match op with Push m n1 n2 n3 => [((push b m n1 n2 n3).2, m)] | _ => [] end
      ++ pushed (run_op b op) ops
  end.

Definition run (b : buffer) (ops : list event_op) : buffer := fold_left run_op ops b.

(** ** Lemmas *)

Definition entries (b : buffer) : list (Z * M) := (λ i, (it_seq i, it_msg i)) <$> b_items b.
Definition increasing (l : list (Z * M)) : Prop := StronglySorted Z.lt l.*1.

(** [a] is what is left of [b] after dropping from the front. *)
Lemma drop_old_spec cutoff items lost :
  ∃ k, drop_old cutoff items lost = (drop k items, lost + Z.of_nat k) ∧ (k ≤ length items)%nat.
Proof.
  revert lost. induction items as [|i items IH]; intros lost; cbn [drop_old].
  - exists 0%nat. split; [f_equal; lia | done].
  - destruct (_ <? _).
    + destruct (IH (lost + 1)) as (k & -> & Hk). exists (S k). split; [f_equal; lia | simpl; lia].
    + exists 0%nat. split; [f_equal; lia | lia].
Qed.

Lemma drop_excess_spec max items lost :
  0 ≤ max →
  ∃ k, drop_excess max items lost = (drop k items, lost + Z.of_nat k) ∧ (k ≤ length items)%nat ∧
    Z.of_nat (length (drop k items)) ≤ max ∧ (Z.of_nat (length items) ≤ max → k = 0%nat).
Proof.
  intros Hmax. revert lost. induction items as [|i items IH]; intros lost; cbn [drop_excess].
  - exists 0%nat. split_and!; [f_equal; lia | done | simpl; lia | done].
  - destruct (Z.ltb_spec max (Z.of_nat (length (i :: items)))) as [Hlt|Hle].
    + destruct (IH (lost + 1)) as (k & -> & Hk & Hl & _). exists (S k). split_and!; [f_equal; lia | simpl; lia | done | lia].
    + exists 0%nat. rewrite drop_0. split_and!; [f_equal; lia | lia | lia | done].
Qed.

Lemma prune_spec b now :
  0 ≤ b_max b →
  ∃ k, prune b now = with_items b (drop k (b_items b)) (b_lost b + Z.of_nat k) ∧
    (k ≤ length (b_items b))%nat ∧ Z.of_nat (length (drop k (b_items b))) ≤ b_max b.
Proof.
  intros Hmax. unfold prune. destruct (drop_old_spec (now - b_maxAgeMs b) (b_items b) (b_lost b)) as (k & -> & Hk).
  destruct (drop_excess_spec (b_max b) (drop k (b_items b)) (b_lost b + Z.of_nat k) Hmax) as (j & -> & Hj & Hl & _).
  rewrite length_drop in Hj. rewrite drop_drop in *. exists (k + j)%nat. split_and!; [f_equal; lia | lia | done].
Qed.

Lemma drop_acked_spec seq items n :
  ∃ k, drop_acked seq items n = (drop k items, n + Z.of_nat k) ∧ (k ≤ length items)%nat ∧
    Forall (λ i, it_seq i ≤ seq) (take k items) ∧
    (StronglySorted Z.lt (it_seq <$> items) → Forall (λ i, seq < it_seq i) (drop k items)).
Proof.
  revert n. induction items as [|i items IH]; intros n; cbn [drop_acked].
  - exists 0%nat. split_and!; [f_equal; lia | done | constructor | constructor].
  - destruct (Z.leb_spec (it_seq i) seq).
    + destruct (IH (n + 1)) as (k & -> & Hk & Ht & Hd). exists (S k).
      split_and!; [f_equal; lia | simpl; lia | by constructor |]. rewrite fmap_cons.
      intros [Hs _]%StronglySorted_inv. by apply Hd.
    + exists 0%nat. split_and!; [f_equal; lia | lia | constructor |]. rewrite fmap_cons.
      intros [_ Hf]%StronglySorted_inv. constructor; [done |].
      rewrite Forall_fmap in Hf. eapply Forall_impl; [exact Hf |]. simpl. lia.
Qed.

(** What holds of the buffer during a run: the numbers rise, the buffer is
    a suffix of the events and bounded, and what was dropped is counted. *)
Definition buffer_inv (b : buffer) (all : list (Z * M)) (acked : Z) : Prop :=
  0 ≤ b_max b ∧ increasing all ∧ Forall (λ e, e.1 ≤ b_lastSeq b) all ∧
  (∃ gone, all = gone ++ entries b ∧ Z.of_nat (length gone) = b_lost b + acked) ∧
  Z.of_nat (length (b_items b)) ≤ b_max b.

Lemma entries_drop b k lost : entries (with_items b (drop k (b_items b)) lost) = drop k (entries b).
Proof. unfold entries. simpl. apply fmap_drop. Qed.

Lemma increasing_suffix gone l : increasing (gone ++ l) → StronglySorted Z.lt l.*1.
Proof. unfold increasing. rewrite fmap_app, StronglySorted_app. naive_solver. Qed.

Lemma prune_inv b all acked now :
  buffer_inv b all acked → buffer_inv (prune b now) all acked.
Proof.
  intros (Hmax & Hinc & Hlast & (gone & Hall & Hgone) & Hlen).
  destruct (prune_spec b now Hmax) as (k & -> & Hk & Hl). split_and!; try done.
  exists (gone ++ take k (entries b)). rewrite entries_drop, <- app_assoc, take_drop. split; [done |].
  unfold entries. rewrite length_app, length_take, length_fmap. cbn [b_lost with_items]. lia.
Qed.

Lemma push_inv b all acked m n1 n2 n3 :
  buffer_inv b all acked →
  buffer_inv (push b m n1 n2 n3).1 (all ++ [((push b m n1 n2 n3).2, m)]) acked.
Proof.
  intros (Hmax & Hinc & Hlast & (gone & Hall & Hgone) & Hlen). unfold push. cbn [fst snd].
  set (seq := nextSeq b n1). assert (b_lastSeq b < seq) by (unfold seq, nextSeq; lia).
  set (b1 := Buffer (b_max b) (b_maxAgeMs b) seq (b_items b ++ [Item seq m n2]) (b_lost b)).
  destruct (prune_spec b1 n3 Hmax) as (k & -> & Hk & Hl). split_and!; try done.
  - unfold increasing in *. rewrite fmap_app, StronglySorted_app. split_and!; [| done |].
    + intros x y Hx Hy. apply list_elem_of_fmap in Hx as (e & -> & He). rewrite Forall_forall in Hlast.
      apply Hlast in He. apply list_elem_of_singleton in Hy as ->. cbn [fst]. lia.
    + repeat constructor.
  - apply Forall_app. split; [eapply Forall_impl; [exact Hlast |]; simpl; lia | by repeat constructor].
  - assert (all ++ [(seq, m)] = gone ++ entries b1) as Hall1.
    { unfold entries in *. unfold b1. cbn [b_items]. rewrite fmap_app, Hall, app_assoc. done. }
    exists (gone ++ take k (entries b1)). rewrite entries_drop, <- app_assoc, take_drop. split; [done |].
    unfold entries. rewrite length_app, length_take, length_fmap. cbn [b_lost with_items b1] in *. lia.
Qed.

Lemma ack_inv b all acked s :
  buffer_inv b all acked →
  buffer_inv (ack b s).1 all (acked + (ack b s).2) ∧
  (∀ q, s = Some q → Forall (λ e, q < e.1) (entries (ack b s).1)).
Proof.
  intros (Hmax & Hinc & Hlast & (gone & Hall & Hgone) & Hlen). destruct s as [q|]; cbn [ack].
  2: { split; [|done]. split_and!; try done. exists gone. split; [done | cbn; lia]. }
  destruct (drop_acked_spec q (b_items b) 0) as (k & -> & Hk & _ & Hd). cbn [fst snd].
  assert (StronglySorted Z.lt (it_seq <$> b_items b)) as Hs.
  { rewrite Hall in Hinc. apply increasing_suffix in Hinc. unfold entries in Hinc.
    by rewrite <- list_fmap_compose in Hinc. }
  split.
  - split_and!; try done.
    + exists (gone ++ take k (entries b)). rewrite entries_drop, <- app_assoc, take_drop. split; [done |].
      unfold entries. rewrite length_app, length_take, length_fmap. cbn [b_lost with_items]. lia.
    + cbn [b_items with_items b_max]. rewrite length_drop. lia.
  - intros q' [= <-]. unfold entries. cbn [b_items with_items]. rewrite Forall_fmap.
    eapply Forall_impl; [by apply Hd |]. done.
Qed.

Lemma run_inv ops b all acked :
  buffer_inv b all acked → ∃ acked', buffer_inv (run b ops) (all ++ pushed b ops) acked'.
Proof.
  revert b all acked. induction ops as [|op ops IH]; intros b all acked Hinv; cbn [pushed run fold_left].
  { exists acked. by rewrite app_nil_r. }
  destruct op as [m n1 n2 n3|s|n]; cbn [run_op]; rewrite ?app_nil_l.
  - rewrite app_assoc. by apply (IH _ _ acked), push_inv.
  - apply (IH _ _ (acked + (ack b s).2)). by apply ack_inv.
  - apply (IH _ _ acked). by apply prune_inv.
Qed.

(** ** The theorem *)

(** Over any sequence of pushes, acknowledgements and reads the buffer
    holds, in order, exactly the newest of the messages pushed; those gone are
    the lost and the acknowledged ones, and it never holds more than its
    limit. *)
Theorem event_buffer_run max maxAgeMs ops :
  0 ≤ max →
  let b := run (newEventBuffer max maxAgeMs) ops in
  let all := pushed (newEventBuffer max maxAgeMs) ops in
  increasing all ∧ Z.of_nat (length (b_items b)) ≤ max ∧
  ∃ gone acked, all = gone ++ entries b ∧ Z.of_nat (length gone) = b_lost b + acked ∧
    ∀ seq, increasing (entries b) ∧ Forall (λ e, seq < e.1) (entries (ack b (Some seq)).1).
Proof.
  intros Hmax b all.
  destruct (run_inv ops (newEventBuffer max maxAgeMs) [] 0) as (acked & Hinv).
  { split_and!; try done; [constructor | by exists []]. }
  cbn [app] in Hinv. fold all b in Hinv.
  assert (b_max b = max) as Hbm.
  { unfold b, run. assert (∀ b0, b_max (fold_left run_op ops b0) = b_max b0) as ->; [|done].
    clear. induction ops as [|op ops IH]; intros b0; [done |]. cbn [fold_left]. rewrite IH.
    assert (∀ b n, b_max (prune b n) = b_max b) as Hp
      by (intros; unfold prune; destruct (drop_old _ _ _), (drop_excess _ _ _); done).
    destruct op as [| [s|] |]; cbn [run_op push ack pending fst]; rewrite ?Hp; try done.
    by destruct (drop_acked _ _ _). }
  pose proof Hinv as (_ & Hinc & _ & (gone & Hall & Hgone) & Hlen). rewrite Hbm in Hlen.
  split_and!; [done | done |]. exists gone, acked. split_and!; [done | done |]. intros seq. split.
  - rewrite Hall in Hinc. by apply increasing_suffix in Hinc.
  - by apply (ack_inv b all acked (Some seq) Hinv).
Qed.
End Events.

(** Three messages in a buffer of two; the second is acknowledged. *)
Definition sample_ops : list (@event_op Z) := [Push 7 0 0 0; Push 8 1 1 1; Push 9 2 2 2; Ack (Some 1)].

Lemma event_buffer_run_witness :
  let b := run (newEventBuffer 2 60000) sample_ops in
  Z.of_nat (length (b_items b)) ≤ 2 ∧
  ∃ gone acked, pushed (newEventBuffer 2 60000) sample_ops = gone ++ entries b ∧
    Z.of_nat (length gone) = b_lost b + acked.
Proof.
  destruct (event_buffer_run 2 60000 sample_ops ltac:(lia)) as (_ & Hl & gone & acked & Hall & Hg & _).
  split; [exact Hl | exists gone, acked; split; [exact Hall | exact Hg]].
Defined.
