(* ===== verification/Limits.v ===== *)
(** * src/edge/limits.js

    A rate limiter with fixed windows, and cutting text to a number of bytes. *)

From stdpp Require Import sorting.
From S2P Require Import Prelude JsBuffer.

Local Open Scope Z_scope.

(** ** RateWindow *)

Record RateWindow := Rate { w_max : Z; w_windowMs : Z; w_start : Z; w_n : Z; w_dropped : Z }.

Definition newRateWindow (max windowMs : Z) : RateWindow := Rate max windowMs 0 0 0.

Definition rw_take (w : RateWindow) (t : Z) : RateWindow * bool :=
  let '(start, n) := if w_windowMs w <=? t - w_start w then (t, 0) else (w_start w, w_n w) in
  if w_max w <=? n then (Rate (w_max w) (w_windowMs w) start n (w_dropped w + 1), false)
  else (Rate (w_max w) (w_windowMs w) start (n + 1) (w_dropped w), true).

Definition drainDropped (w : RateWindow) : RateWindow * Z :=
  (Rate (w_max w) (w_windowMs w) (w_start w) (w_n w) 0, w_dropped w).

(** ** truncateUtf8 *)

(** [while (i >= 0 && back < 4 && (buf[i] & 0xc0) === 0x80) { i--; back++; }]
    on the bytes before the end, last one first; [back] and the byte at [i]. *)
Fixpoint back_loop (n : nat) (rev_buf : list Z) (back : Z) : Z * option Z :=
  match n, rev_buf with
  | S n, c :: r => if Z.land c 192 =? 128 then back_loop n r (back + 1) else (back, Some c)
  | _, r => (back, head r)
  end.

Definition truncateUtf8 (s : jstr) (max : Z) : jstr :=
  let bytes := utf8_encode s in
  if blen bytes <=? max then s
  else
    let buf := subarray bytes 0 max in
    let '(back, lead) := back_loop 4 (reverse buf) 0 in
    utf8_decode (match lead with
                 | Some lead =>
                     let need := if 240 <=? lead then 4 else if 224 <=? lead then 3
                                 else if 192 <=? lead then 2 else 1 in
                     if need =? back + 1 then buf else subarray buf 0 (blen buf - 1 - back)
                 | None => buf
                 end).

(** ** Runs of the limiter *)

(** The times of the granted calls of a run, in order. *)
Fixpoint granted (w : RateWindow) (times : list Z) : list Z :=
  match times with
  | [] => []
  | t :: times => (if (rw_take w t).2 then [t] else []) ++ granted (rw_take w t).1 times
  end.

Definition in_span (a len t : Z) : Prop := a ≤ t < a + len.
Definition count_in (a len : Z) (l : list Z) : Z := Z.of_nat (length (filter (in_span a len) l)).

Lemma count_in_app a len l1 l2 : count_in a len (l1 ++ l2) = count_in a len l1 + count_in a len l2.
Proof. unfold count_in. rewrite filter_app, length_app. lia. Qed.

Lemma count_in_none a len l : Forall (λ t, ¬ in_span a len t) l → count_in a len l = 0.
Proof.
  unfold count_in. induction 1 as [|t l Ht _ IH]; [done |]. rewrite filter_cons, decide_False by done. done.
Qed.

Lemma count_in_le a len l : count_in a len l ≤ Z.of_nat (length l).
Proof. unfold count_in. pose proof (length_filter (in_span a len) l). lia. Qed.

Lemma count_in_nonneg a len l : 0 ≤ count_in a len l.
Proof. unfold count_in. lia. Qed.

(** What holds after the calls granted at [old ++ cur]: [cur] are those of
    the current window, and no window-long span holds more than two windows. *)
Definition rate_inv (w : RateWindow) (old cur : list Z) (now : Z) : Prop :=
  0 ≤ w_max w ∧ 0 < w_windowMs w ∧ w_n w = Z.of_nat (length cur) ∧ w_n w ≤ w_max w ∧
  Forall (λ t, t < w_start w) old ∧ Forall (λ t, w_start w ≤ t < w_start w + w_windowMs w) cur ∧
  w_start w ≤ now ∧
  (∀ a, w_start w - w_windowMs w < a → count_in a (w_windowMs w) old ≤ w_max w) ∧
  (∀ a, count_in a (w_windowMs w) (old ++ cur) ≤ 2 * w_max w).

Lemma take_new_window w old cur now t :
  rate_inv w old cur now → now ≤ t → w_windowMs w ≤ t - w_start w →
  let g := if w_max w <=? 0 then [] else [t] in
  rate_inv (rw_take w t).1 (old ++ cur) g t ∧ g = (if (rw_take w t).2 then [t] else []).
Proof.
  intros (Hmax & Hwin & Hn & Hle & Hold & Hcur & Hst & Hw1 & Hw2) Hnow Hnew. unfold rw_take.
  destruct (Z.leb_spec (w_windowMs w) (t - w_start w)); [|lia].
  assert (∀ a, t - w_windowMs w < a → count_in a (w_windowMs w) (old ++ cur) ≤ w_max w) as Hspan.
  { intros a Ha. rewrite count_in_app, (count_in_none a _ old), Z.add_0_l.
    - pose proof (count_in_le a (w_windowMs w) cur). lia.
    - eapply Forall_impl; [exact Hold |]. unfold in_span. simpl. lia. }
  assert (Forall (λ x, x < t) (old ++ cur)).
  { apply Forall_app. split; (eapply Forall_impl; [done |]); simpl; lia. }
  destruct (Z.leb_spec (w_max w) 0); cbn [fst snd]; (split; [|done]); unfold rate_inv; cbn [w_max w_windowMs w_start w_n].
  - rewrite app_nil_r. split_and!; try done; lia.
  - split_and!; try done; try lia; [by repeat constructor; lia |].
    intros a. rewrite count_in_app. destruct (decide (in_span a (w_windowMs w) t)) as [Hin|Hout].
    + pose proof (count_in_le a (w_windowMs w) [t]) as Hone. cbn [length] in Hone.
      unfold in_span in Hin. specialize (Hspan a ltac:(lia)). lia.
    + rewrite (count_in_none a _ [t]) by (by repeat constructor). specialize (Hw2 a). lia.
Qed.

Lemma take_same_window w old cur now t :
  rate_inv w old cur now → now ≤ t → t - w_start w < w_windowMs w →
  let g := if w_max w <=? w_n w then [] else [t] in
  rate_inv (rw_take w t).1 old (cur ++ g) t ∧ g = (if (rw_take w t).2 then [t] else []).
Proof.
  intros (Hmax & Hwin & Hn & Hle & Hold & Hcur & Hst & Hw1 & Hw2) Hnow Hsame. unfold rw_take.
  destruct (Z.leb_spec (w_windowMs w) (t - w_start w)); [lia |].
  destruct (Z.leb_spec (w_max w) (w_n w)); cbn [fst snd]; (split; [|done]); unfold rate_inv; cbn [w_max w_windowMs w_start w_n].
  - rewrite app_nil_r. split_and!; try done; lia.
  - assert (Forall (λ x, w_start w ≤ x < w_start w + w_windowMs w) (cur ++ [t])) as Hcur'
      by (apply Forall_app; split; [done | repeat constructor; lia]).
    split_and!; try done; try lia; [rewrite length_app; simpl; lia |].
    intros a. rewrite count_in_app. destruct (decide (w_start w - w_windowMs w < a)) as [Ha|Ha].
    + specialize (Hw1 a Ha). pose proof (count_in_le a (w_windowMs w) (cur ++ [t])) as Hc.
      rewrite length_app in Hc. simpl in Hc. lia.
    + rewrite (count_in_none a _ (cur ++ [t])).
      * specialize (Hw2 a). rewrite count_in_app in Hw2. pose proof (count_in_nonneg a (w_windowMs w) cur). lia.
      * eapply Forall_impl; [exact Hcur' |]. unfold in_span. simpl. lia.
Qed.

(** Times that do not run backwards. *)
Definition rising (times : list Z) : Prop := StronglySorted Z.le times.

Lemma granted_inv times w old cur now :
  rate_inv w old cur now → rising times → Forall (λ t, now ≤ t) times →
  ∀ a, count_in a (w_windowMs w) ((old ++ cur) ++ granted w times) ≤ 2 * w_max w.
Proof.
  revert w old cur now. induction times as [|t times IH]; intros w old cur now Hinv Hr Ht a; cbn [granted].
  { rewrite app_nil_r. by apply Hinv. }
  apply StronglySorted_inv in Hr as [Hr Hle]. apply Forall_cons in Ht as [Ht _].
  assert (w_windowMs (rw_take w t).1 = w_windowMs w ∧ w_max (rw_take w t).1 = w_max w) as [Hw Hm]
    by (unfold rw_take; repeat case_match; simplify_eq; done).
  rewrite app_assoc. destruct (decide (w_windowMs w ≤ t - w_start w)) as [Hnew|Hsame].
  - destruct (take_new_window w old cur now t Hinv Ht Hnew) as [Hinv' <-].
    specialize (IH _ _ _ t Hinv' Hr Hle a). by rewrite Hw, Hm in IH.
  - destruct (take_same_window w old cur now t Hinv Ht ltac:(lia)) as [Hinv' <-].
    specialize (IH _ _ _ t Hinv' Hr Hle a). rewrite Hw, Hm in IH. by rewrite <- (app_assoc old).
Qed.

(** ** The theorem on the limiter *)

(** Whenever the calls come, no stretch of one window grants more than
    twice the limit. *)
Theorem rate_window_bound max windowMs times a :
  0 ≤ max → 0 < windowMs → rising times → Forall (λ t, 0 ≤ t) times →
  count_in a windowMs (granted (newRateWindow max windowMs) times) ≤ 2 * max.
Proof.
  intros Hmax Hwin Hr Ht.
  apply (granted_inv times (newRateWindow max windowMs) [] [] 0); [|done|done].
  split_and!; try done; intros; rewrite count_in_none by constructor; simpl; lia.
Qed.

Lemma rate_window_bound_witness : count_in 0 1000 (granted (newRateWindow 2 1000) [0; 1; 2; 999; 1000]) ≤ 2 * 2.
Proof.
  apply (rate_window_bound 2 1000 [0; 1; 2; 999; 1000] 0); [lia | lia | | by repeat constructor].
  unfold rising. repeat constructor; lia.
Defined.
