(* ===== verification/Utf8.v ===== *)
(** * Well-formed text in UTF-8

    Text given by code points is encoded and decoded without loss, and
    [truncateUtf8] of src/edge/limits.js cuts it between code points. *)

From S2P Require Import Prelude JsBuffer Limits.

Local Open Scope Z_scope.

(** Unicode scalar values. *)
Definition scalar (cp : Z) : Prop := 0 ≤ cp < 55296 ∨ 57344 ≤ cp < 1114112.
Definition text (cps : list Z) : jstr := cps ≫= utf16_units.
Definition encoded (cps : list Z) : list Z := cps ≫= utf8_encode_cp.

Ltac zdm := Z.div_mod_to_equations; lia.

(** Decides the comparisons of a goal one by one. *)
Ltac cmp_step :=
  match goal with
  | |- context [?a <? ?b] => destruct (Z.ltb_spec a b); [try zdm | try zdm]
  | |- context [?a <=? ?b] => destruct (Z.leb_spec a b); [try zdm | try zdm]
  | |- context [?a =? ?b] => destruct (Z.eqb_spec a b); [try zdm | try zdm]
  end.

Lemma utf8_encode_step cp s :
  scalar cp → utf8_encode (utf16_units cp ++ s) = utf8_encode_cp cp ++ utf8_encode s.
Proof.
  intros Hcp. unfold scalar in Hcp. unfold utf16_units. destruct (Z.ltb_spec cp 65536) as [Hb|Hb]; cbn [app utf8_encode].
  - destruct (Z.leb_spec 55296 cp), (Z.leb_spec cp 56319), (Z.leb_spec 56320 cp), (Z.leb_spec cp 57343);
      cbn [andb]; (done || lia).
  - destruct (Z.leb_spec 55296 (55296 + (cp - 65536) / 1024)); [|zdm].
    destruct (Z.leb_spec (55296 + (cp - 65536) / 1024) 56319); [|zdm].
    destruct (Z.leb_spec 56320 (56320 + (cp - 65536) mod 1024)); [|zdm].
    destruct (Z.leb_spec (56320 + (cp - 65536) mod 1024) 57343); [|zdm].
    cbn [andb]. f_equal. f_equal. zdm.
Qed.

Lemma utf8_encode_text cps : Forall scalar cps → utf8_encode (text cps) = encoded cps.
Proof.
  unfold text, encoded. induction 1 as [|cp cps Hcp _ IH]; [done |]. cbn [mbind list_bind].
  by rewrite utf8_encode_step, IH.
Qed.

(** The continuation bytes of a pending sequence. *)
Lemma utf8_go_cont need cp lo hi b r :
  lo ≤ b ≤ hi →
  utf8_go (Some (Pending need cp lo hi)) (b :: r) =
  if need =? 1 then utf16_units (cp * 64 + (b - 128)) ++ utf8_go None r
  else utf8_go (Some (Pending (need - 1) (cp * 64 + (b - 128)) 128 191)) r.
Proof.
  intros. cbn [utf8_go]. destruct (Z.leb_spec lo b), (Z.leb_spec b hi); try lia. done.
Qed.

Lemma utf8_go_lead b r out st :
  utf8_lead b = (out, st) → utf8_go None (b :: r) = out ++ utf8_go st r.
Proof. intros H. cbn [utf8_go]. by rewrite H. Qed.

(** The lead bytes of two, three and four byte sequences. *)
Lemma utf8_lead2 b : 194 ≤ b ≤ 223 → utf8_lead b = ([], Some (Pending 1 (b - 192) 128 191)).
Proof. intros. unfold utf8_lead. repeat cmp_step; done. Qed.
Lemma utf8_lead3 b :
  224 ≤ b ≤ 239 →
  utf8_lead b = ([], Some (Pending 2 (b - 224) (if b =? 224 then 160 else 128) (if b =? 237 then 159 else 191))).
Proof. intros. unfold utf8_lead. repeat (cmp_step; subst); try done; lia. Qed.
Lemma utf8_lead4 b :
  240 ≤ b ≤ 244 →
  utf8_lead b = ([], Some (Pending 3 (b - 240) (if b =? 240 then 144 else 128) (if b =? 244 then 143 else 191))).
Proof. intros. unfold utf8_lead. repeat (cmp_step; subst); try done; lia. Qed.

Lemma utf8_decode_step cp bs :
  scalar cp → utf8_go None (utf8_encode_cp cp ++ bs) = utf16_units cp ++ utf8_go None bs.
Proof.
  intros Hcp. unfold scalar in Hcp. unfold utf8_encode_cp.
  destruct (Z.ltb_spec cp 128).
  { assert (utf8_lead cp = ([cp], None)) as Hl by (unfold utf8_lead; destruct (Z.ltb_spec cp 128); [done | lia]).
    cbn [app]. rewrite (utf8_go_lead _ _ _ _ Hl). unfold utf16_units. by destruct (Z.ltb_spec cp 65536); [|lia]. }
  destruct (Z.ltb_spec cp 2048).
  { cbn [app]. erewrite utf8_go_lead by (apply utf8_lead2; zdm).
    rewrite utf8_go_cont by zdm. cbn [Z.eqb Pos.eqb app]. do 2 f_equal. zdm. }
  destruct (Z.ltb_spec cp 65536).
  { cbn [app]. erewrite utf8_go_lead by (apply utf8_lead3; zdm).
    rewrite utf8_go_cont; [|repeat case_match; zdm].
    cbn [Z.eqb Pos.eqb Z.sub Z.add Z.opp Z.pos_sub Pos.pred_double].
    rewrite utf8_go_cont by zdm. cbn [Z.eqb Pos.eqb app]. do 2 f_equal. zdm. }
  cbn [app]. erewrite utf8_go_lead by (apply utf8_lead4; zdm).
  rewrite utf8_go_cont; [|repeat case_match; zdm].
  change (3 =? 1) with false. change (3 - 1) with 2. cbv iota.
  rewrite utf8_go_cont by zdm. change (2 =? 1) with false. change (2 - 1) with 1. cbv iota.
  rewrite utf8_go_cont by zdm. cbn [Z.eqb Pos.eqb app]. do 2 f_equal. zdm.
Qed.

Lemma utf8_decode_encoded cps : Forall scalar cps → utf8_decode (encoded cps) = text cps.
Proof.
  unfold utf8_decode, encoded, text. induction 1 as [|cp cps Hcp _ IH]; [done |]. cbn [mbind list_bind].
  by rewrite utf8_decode_step, IH.
Qed.

(** ** Cutting an encoding *)

Definition continuation (c : Z) : Prop := Z.land c 192 = 128.

Lemma continuation_byte c : 128 ≤ c < 192 → continuation c.
Proof.
  intros Hc. unfold continuation.
  pose proof (byte_ind_bool (λ c, negb ((128 <=? c) && (c <? 192)) || (Z.land c 192 =? 128)) eq_refl c ltac:(lia)).
  destruct (Z.leb_spec 128 c), (Z.ltb_spec c 192); cbn in *; lia.
Qed.

Lemma lead_byte c : 0 ≤ c < 128 ∨ 192 ≤ c < 256 → (Z.land c 192 =? 128) = false.
Proof.
  intros Hc.
  pose proof (byte_ind_bool (λ c, ((128 <=? c) && (c <? 192)) || negb (Z.land c 192 =? 128)) eq_refl c ltac:(lia)) as H.
  destruct (Z.leb_spec 128 c), (Z.ltb_spec c 192); cbn in H; try lia; by apply negb_true_iff in H.
Qed.

(** The length a lead byte announces. *)
Definition need_of (lead : Z) : Z :=
  if 240 <=? lead then 4 else if 224 <=? lead then 3 else if 192 <=? lead then 2 else 1.

Lemma utf8_encode_cp_shape cp :
  scalar cp → ∃ lead conts,
    utf8_encode_cp cp = lead :: conts ∧ (Z.land lead 192 =? 128) = false ∧ Forall continuation conts ∧
    (length conts ≤ 3)%nat ∧ need_of lead = blen conts + 1.
Proof.
  intros Hcp. unfold scalar in Hcp. unfold utf8_encode_cp, need_of.
  assert (∀ x, 0 ≤ x mod 64 < 64) as Hm by (intros; by apply Z.mod_pos_bound).
  assert (∀ x, continuation (128 + x mod 64)) as Hcont by (intros x; apply continuation_byte; specialize (Hm x); lia).
  destruct (Z.ltb_spec cp 128).
  { eexists _, _. split; [done |]. split_and!; [apply lead_byte; lia | constructor | simpl; lia |].
    unfold blen. cbn [length]. by repeat cmp_step. }
  destruct (Z.ltb_spec cp 2048).
  { eexists _, _. split; [done |]. split_and!; [apply lead_byte; zdm | by repeat constructor | simpl; lia |].
    unfold blen. cbn [length]. by repeat cmp_step. }
  destruct (Z.ltb_spec cp 65536).
  { eexists _, _. split; [done |]. split_and!; [apply lead_byte; zdm | by repeat constructor | simpl; lia |].
    unfold blen. cbn [length]. by repeat cmp_step. }
  eexists _, _. split; [done |]. split_and!; [apply lead_byte; zdm | by repeat constructor | simpl; lia |].
  unfold blen. cbn [length]. by repeat cmp_step.
Qed.

Lemma back_loop_conts n conts lead r back :
  Forall continuation conts → (Z.land lead 192 =? 128) = false → (length conts ≤ n)%nat →
  back_loop n (conts ++ lead :: r) back = (back + blen conts, Some lead).
Proof.
  revert n back. induction conts as [|c conts IH]; intros n back Hc Hl Hn; cbn [app].
  - destruct n; cbn [back_loop]; [|rewrite Hl]; f_equal; unfold blen; simpl; lia.
  - apply Forall_cons in Hc as [Hc1 Hc]. destruct n as [|n]; [simpl in Hn; lia |]. cbn [back_loop].
    unfold continuation in Hc1. rewrite (proj2 (Z.eqb_eq _ _) Hc1). simpl in Hn.
    rewrite IH by (done || lia). f_equal. blen_lia.
Qed.

Lemma back_loop_tail pre lead conts :
  Forall continuation conts → (Z.land lead 192 =? 128) = false → (length conts ≤ 3)%nat →
  back_loop 4 (reverse (pre ++ lead :: conts)) 0 = (blen conts, Some lead).
Proof.
  intros Hc Hl Hn. rewrite reverse_app, reverse_cons, <- app_assoc. cbn [app].
  rewrite back_loop_conts; [|by apply Forall_reverse | done | rewrite length_reverse; lia].
  f_equal. unfold blen. rewrite length_reverse. lia.
Qed.

(** What [truncateUtf8] makes of the cut bytes. *)
Definition repair (buf : list Z) : list Z :=
  let '(back, lead) := back_loop 4 (reverse buf) 0 in
  match lead with
  | Some lead => if need_of lead =? back + 1 then buf else subarray buf 0 (blen buf - 1 - back)
  | None => buf
  end.

Lemma subarray_0 b n : subarray b 0 n = take (Z.to_nat n) b.
Proof. unfold subarray. by rewrite Z.sub_0_r, drop_0. Qed.

Lemma subarray_prefix a b n : n = blen a → subarray (a ++ b) 0 n = a.
Proof. intros ->. unfold subarray, blen. rewrite Z.sub_0_r, Nat2Z.id, drop_0.
  by rewrite take_app_length. Qed.

Lemma encoded_snoc cps cp : encoded (cps ++ [cp]) = encoded cps ++ utf8_encode_cp cp.
Proof. unfold encoded. rewrite bind_app. cbn. by rewrite app_nil_r. Qed.

(** A cut inside the last code point is moved to its front; a cut between
    code points stays. *)
Lemma repair_encoded cps : Forall scalar cps → repair (encoded cps) = encoded cps.
Proof.
  intros Hc. destruct cps as [|cp cps _] using rev_ind; [done |]. apply Forall_app in Hc as [_ Hcp].
  rewrite Forall_singleton in Hcp.
  rewrite encoded_snoc. destruct (utf8_encode_cp_shape cp Hcp) as (lead & conts & -> & Hl & Hcs & Hn & Hneed).
  unfold repair. by rewrite back_loop_tail, Hneed, Z.eqb_refl.
Qed.

Lemma repair_cut cps cp j :
  scalar cp → (0 < j < length (utf8_encode_cp cp))%nat →
  repair (encoded cps ++ take j (utf8_encode_cp cp)) = encoded cps.
Proof.
  intros Hcp Hj. destruct (utf8_encode_cp_shape cp Hcp) as (lead & conts & E & Hl & Hcs & Hn & Hneed).
  rewrite E in *. destruct j as [|j]; [lia |]. cbn [take firstn]. unfold repair.
  change (firstn j conts) with (take j conts).
  assert (blen (take j conts) < blen conts) as Hlt by (simpl in Hj; unfold blen; rewrite length_take; lia).
  rewrite back_loop_tail; [|by apply Forall_take | done | rewrite length_take; lia].
  rewrite Hneed. destruct (Z.eqb_spec (blen conts + 1) (blen (take j conts) + 1)); [lia |].
  apply subarray_prefix. blen_lia.
Qed.

(** Where [max] bytes cut an encoding. *)
Lemma cut_position cps max :
  Forall scalar cps → 0 ≤ max < blen (encoded cps) →
  ∃ k cp j, cps !! k = Some cp ∧ subarray (encoded cps) 0 max = encoded (take k cps) ++ take j (utf8_encode_cp cp) ∧
    (j < length (utf8_encode_cp cp))%nat ∧ max = blen (encoded (take k cps)) + Z.of_nat j.
Proof.
  intros Hs. revert max. induction Hs as [|cp cps Hcp Hs IH]; intros max Hm.
  { unfold encoded, blen in Hm. simpl in Hm. lia. }
  unfold encoded in Hm. cbn [mbind list_bind] in Hm. fold (encoded cps) in Hm. rewrite blen_app in Hm.
  destruct (decide (max < blen (utf8_encode_cp cp))) as [Hlt|Hge].
  - exists 0%nat, cp, (Z.to_nat max). split; [done |]. unfold blen in Hlt.
    split_and!; [| lia | unfold blen; simpl; lia]. rewrite subarray_0. unfold encoded. cbn [mbind list_bind].
    by rewrite take_app_le by lia.
  - destruct (IH (max - blen (utf8_encode_cp cp)) ltac:(lia)) as (k & cp' & j & Hk & Hsub & Hj & Hmax).
    exists (S k), cp', j. split; [done |]. cbn [take firstn]. unfold encoded in *. cbn [mbind list_bind].
    rewrite <- app_assoc. change (firstn k cps) with (take k cps). rewrite <- Hsub. split_and!; [| done | rewrite blen_app; lia].
    rewrite !subarray_0. unfold blen in *. rewrite take_app_ge by lia. do 2 f_equal. lia.
Qed.

Theorem truncateUtf8_spec cps max :
  Forall scalar cps → 0 ≤ max →
  ∃ k, truncateUtf8 (text cps) max = text (take k cps) ∧
    blen (utf8_encode (truncateUtf8 (text cps) max)) ≤ max ∧
    ((k < length cps)%nat → max < blen (utf8_encode (text (take (S k) cps)))).
Proof.
  intros Hs Hmax.
  assert (∀ n, utf8_encode (text (take n cps)) = encoded (take n cps)) as Henc
    by (intros; by apply utf8_encode_text, Forall_take).
  unfold truncateUtf8. rewrite utf8_encode_text by done. destruct (Z.leb_spec (blen (encoded cps)) max) as [Hle|Hlt].
  { exists (length cps). rewrite take_ge by done. rewrite utf8_encode_text by done. split_and!; [done | done | lia]. }
  destruct (cut_position cps max Hs ltac:(lia)) as (k & cp & j & Hk & Hsub & Hj & Hm).
  assert (scalar cp) as Hcp by (by eapply Forall_lookup_1).
  assert (repair (subarray (encoded cps) 0 max) = encoded (take k cps)) as Hrep.
  { rewrite Hsub. destruct j as [|j]; [|by apply repair_cut; [|lia]].
    rewrite take_0, app_nil_r. by apply repair_encoded, Forall_take. }
  assert ((let '(back, lead) := back_loop 4 (reverse (subarray (encoded cps) 0 max)) 0 in
           utf8_decode (match lead with
                        | Some lead => if need_of lead =? back + 1 then subarray (encoded cps) 0 max
                                       else subarray (subarray (encoded cps) 0 max) 0
                                              (blen (subarray (encoded cps) 0 max) - 1 - back)
                        | None => subarray (encoded cps) 0 max
                        end)) = text (take k cps)) as Hres.
  { rewrite <- (utf8_decode_encoded (take k cps)) by by apply Forall_take. rewrite <- Hrep. unfold repair.
    by destruct (back_loop 4 _ 0) as [back [lead|]]. }
  exists k. unfold need_of in Hres. cbv zeta. rewrite Hres, !Henc. split_and!; [done | lia |].
  intros _. rewrite (take_S_r _ _ cp) by done. rewrite encoded_snoc. unfold blen in *. rewrite length_app. lia.
Qed.

Lemma truncateUtf8_spec_witness : ∃ k, truncateUtf8 (text [97; 128512; 98]) 4 = text (take k [97; 128512; 98]) ∧
  blen (utf8_encode (truncateUtf8 (text [97; 128512; 98]) 4)) ≤ 4.
Proof.
  destruct (truncateUtf8_spec [97; 128512; 98] 4) as (k & Hk & Hl & _); [|lia|by exists k].
  repeat first [apply Forall_nil_2 | apply Forall_cons_2; [unfold scalar; lia |]].
Defined.
