(* ===== verification/LanInterfaces.v ===== *)
(** * src/discovery/lanInterfaces.js, and [isIPv4] of [node:net]

    Which interfaces are physical LAN interfaces, their subnets, and the test
    whether an address lies in a subnet. *)

From S2P Require Import Prelude JsBuffer NetwatchDnsWire.

Local Open Scope Z_scope.

(** ** Dotted quads *)

(** One number of [net.isIPv4]: decimal, no leading zero, at most 255. *)
Definition octet (s : jstr) : option Z :=
  if forallb is_digit s && nonempty s && (Z.of_nat (length s) <=? 3)
     && ((Z.of_nat (length s) =? 1) || negb (default 0 (head s) =? 48))
     && (digits_value s <=? 255)
  then Some (digits_value s) else None.

Definition octets (s : jstr) : option (Z * Z * Z * Z) :=
  match split_on dot s with
  | [a; b; c; d] =>
      a ← octet a; b ← octet b; c ← octet c; d ← octet d; Some (a, b, c, d)
  | _ => None
  end.

Definition isIPv4 (s : jstr) : bool := bool_decide (is_Some (octets s)).

(** [Number(o)] for a part of an address: its digits; [None] is [NaN]. *)
Definition Number (s : jstr) : option Z :=
  if forallb is_digit s then Some (digits_value s) else None.
(** A number as an operand of [&] and [<<]: [NaN] counts as 0. *)
Definition operand (s : jstr) : Z := default 0 (Number s).

(** ** Interfaces *)

Definition WG_INTERFACE : jstr := js "gatecontrol0".

Definition isPhysicalLan (name : jstr) : bool :=
  if bool_decide (name = js "lo") || starts_with (js "wg") name || starts_with WG_INTERFACE name then false
  else if starts_with (js "docker") name || starts_with (js "br-") name then false
  else if starts_with (js "veth") name || starts_with (js "tailscale") name then false
  else if starts_with (js "zt") name || starts_with (js "nebula") name then false
  else true.

(** The number of ones in binary. *)
Fixpoint ones (fuel : nat) (n : Z) : Z :=
  match fuel with
  | O => 0
  | S fuel => if n =? 0 then 0 else n mod 2 + ones fuel (n / 2)
  end.
Definition popcount (n : Z) : Z := ones (S (Z.to_nat (Z.log2 n))) n.

Definition netmaskToPrefix (netmask : jstr) : Z :=
  fold_left (λ bits o, bits + popcount (operand o)) (split_on dot netmask) 0.

(** [((a << 8) + (Number(o) & 255)) >>> 0] *)
Definition _ipToInt (ip : jstr) : Z :=
  fold_left (λ a o, uint32 (int32 (a * 256) + Z.land (operand o) 255)) (split_on dot ip) 0.

Definition networkAddress (ip netmask : jstr) : jstr :=
  let mP := split_on dot netmask in
  join dot (imap (λ i o, show_Z (Z.land (operand o) (operand (default [] (mP !! i))))) (split_on dot ip)).

Definition cidr_mask (prefix : Z) : Z :=
  if 32 <=? prefix then 4294967295 else uint32 (Z.lnot (int32 (Z.shiftr 4294967295 prefix))).

(** [prefix] is at most 32 or treated like it. *)
Definition ipInCidr (ip network : jstr) (prefix : Z) : bool :=
  if prefix <=? 0 then true
  else uint32 (Z.land (_ipToInt ip) (cidr_mask prefix)) =? uint32 (Z.land (_ipToInt network) (cidr_mask prefix)).

(** An entry of [os.networkInterfaces()]. *)
Record if_addr := IfAddr { ia_ipv4 : bool; ia_internal : bool; ia_netmask : jstr; ia_address : jstr }.
Record subnet := Subnet { sn_iface : jstr; sn_network : jstr; sn_prefix : Z; sn_cidr : jstr }.
Record lan_subnet := LanSubnet { ls_iface : jstr; ls_cidr : jstr; ls_primary : bool }.

(** The double loop of [lanSubnets]; [seen] are the cidrs of the entries. *)
Definition add_subnet (name : jstr) (entries : list subnet) (addr : if_addr) : list subnet :=
  if negb (ia_ipv4 addr) || ia_internal addr then entries
  else if negb (nonempty (ia_netmask addr)) || negb (nonempty (ia_address addr)) then entries
  else
    let prefix := netmaskToPrefix (ia_netmask addr) in
    if (prefix <=? 0) || (32 <=? prefix) then entries
    else
      let network := networkAddress (ia_address addr) (ia_netmask addr) in
      let cidr := network ++ js "/" ++ show_Z prefix in
      if bool_decide (cidr ∈ sn_cidr <$> entries) then entries
      else entries ++ [Subnet name network prefix cidr].

Definition subnet_entries (ifaces : list (jstr * list if_addr)) : list subnet :=
  fold_left (λ entries '(name, addrs),
    if negb (isPhysicalLan name) then entries else fold_left (add_subnet name) addrs entries) ifaces [].

(** [findIndex] *)
Fixpoint find_index {A} (f : A → bool) (l : list A) : Z :=
  match l with
  | [] => -1
  | x :: l => if f x then 0 else let i := find_index f l in if i =? -1 then -1 else 1 + i
  end.

Definition lanSubnets (defaultGwIp : option jstr) (ifaces : list (jstr * list if_addr)) : list lan_subnet :=
  let entries := subnet_entries ifaces in
  let hit := match defaultGwIp with
             | Some gw => if nonempty gw then find_index (λ e, ipInCidr gw (sn_network e) (sn_prefix e)) entries
                          else -1
             | None => -1
             end in
  let primaryIdx := if (hit =? -1) && (0 <? Z.of_nat (length entries)) then 0 else hit in
  imap (λ i e, LanSubnet (sn_iface e) (sn_cidr e) (Z.of_nat i =? primaryIdx)) entries.

Definition _isPrivateIpv4 (ip : jstr) : bool :=
  match Number <$> split_on dot ip with
  | [Some a; Some b; Some c; Some d] =>
      if (255 <? a) || (255 <? b) || (255 <? c) || (255 <? d) then false
      else (a =? 10) || ((a =? 172) && (16 <=? b) && (b <=? 31)) || ((a =? 192) && (b =? 168))
  | _ => false
  end.

Record candidate := Cand { ca_address : jstr; ca_network : jstr; ca_prefix : Z }.

Definition candidates (ifaces : list (jstr * list if_addr)) : list candidate :=
  ifaces ≫= λ '(name, addrs),
    if negb (isPhysicalLan name) then []
    else omap (λ addr,
      if negb (ia_ipv4 addr) || ia_internal addr then None
      else if negb (nonempty (ia_address addr)) || negb (nonempty (ia_netmask addr)) then None
      else if negb (_isPrivateIpv4 (ia_address addr)) then None
      else Some (Cand (ia_address addr) (networkAddress (ia_address addr) (ia_netmask addr))
                   (netmaskToPrefix (ia_netmask addr)))) addrs.

Definition primaryLanIp (defaultGwIp : option jstr) (ifaces : list (jstr * list if_addr)) : option jstr :=
  match candidates ifaces with
  | [] => None
  | (c0 :: _) as cands =>
      match defaultGwIp with
      | Some gw =>
          if nonempty gw then
            match List.find (λ c, ipInCidr gw (ca_network c) (ca_prefix c)) cands with
            | Some c => Some (ca_address c)
            | None => Some (ca_address c0)
            end
          else Some (ca_address c0)
      | None => Some (ca_address c0)
      end
  end.

(** ** Addresses as numbers *)

Definition quad (a b c d : Z) : jstr := join dot (show_Z <$> [a; b; c; d]).
Definition quad_value (a b c d : Z) : Z := a * 16777216 + b * 65536 + c * 256 + d.
Definition byte4 (a b c d : Z) : Prop := 0 ≤ a < 256 ∧ 0 ≤ b < 256 ∧ 0 ≤ c < 256 ∧ 0 ≤ d < 256.

Lemma octet_Some s n : octet s = Some n → 0 ≤ n ≤ 255 ∧ operand s = n.
Proof.
  unfold octet, operand, Number. destruct (forallb is_digit s) eqn:Hd; [|done]. cbn [andb].
  destruct (_ && _) eqn:E; [|done]. intros [= <-]. cbn. split; [|done].
  apply andb_prop in E as [_ ?%Z.leb_le]. split; [|done]. unfold digits_value.
  assert (∀ acc, 0 ≤ acc → 0 ≤ fold_left (λ a d, a * 10 + (d - 48)) s acc) as Hnn; [|by apply Hnn].
  clear -Hd. induction s as [|c s IH]; intros acc Hacc; cbn [fold_left]; [done |].
  cbn [forallb] in Hd. apply andb_prop in Hd as [Hc Hs]. unfold is_digit in Hc. apply IH; [done | lia].
Qed.

Lemma octet_Number s n : octet s = Some n → Number s = Some n.
Proof.
  unfold octet, Number. destruct (forallb is_digit s); [|done]. cbn [andb]. by destruct (_ && _).
Qed.

Lemma octets_Some s a b c d :
  octets s = Some (a, b, c, d) →
  byte4 a b c d ∧ operand <$> split_on dot s = [a; b; c; d].
Proof.
  unfold octets. destruct (split_on dot s) as [|a' [|b' [|c' [|d' [|? ?]]]]]; try done. intros Ho.
  destruct (octet a') eqn:Ea; [|done]. destruct (octet b') eqn:Eb; [|done].
  destruct (octet c') eqn:Ec; [|done]. destruct (octet d') eqn:Ed; [|done].
  cbn in Ho. injection Ho as -> -> -> ->.
  apply octet_Some in Ea as [? Ea], Eb as [? Eb], Ec as [? Ec], Ed as [? Ed].
  split; [unfold byte4; lia |]. csimpl. by rewrite Ea, Eb, Ec, Ed.
Qed.

Lemma land_255 n : 0 ≤ n < 256 → Z.land n 255 = n.
Proof. intros. change 255 with (Z.ones 8). rewrite Z.land_ones by lia. by apply Z.mod_small. Qed.

Lemma int32_wrap z : uint32 (int32 z) = uint32 z.
Proof. unfold uint32, int32. Z.div_mod_to_equations. lia. Qed.

Lemma ipToInt_octets s a b c d :
  operand <$> split_on dot s = [a; b; c; d] → byte4 a b c d → _ipToInt s = quad_value a b c d.
Proof.
  intros Hs (Ha & Hb & Hc & Hd). unfold _ipToInt.
  assert (∀ acc, fold_left (λ a o, uint32 (int32 (a * 256) + Z.land (operand o) 255)) (split_on dot s) acc =
          fold_left (λ a o, uint32 (int32 (a * 256) + Z.land o 255)) (operand <$> split_on dot s) acc) as ->.
  { clear. induction (split_on dot s) as [|x l IH]; intros acc; [done |]. rewrite fmap_cons. cbn [fold_left]. apply IH. }
  rewrite Hs. cbn [fold_left]. rewrite !land_255 by done. unfold quad_value, uint32, int32.
  Z.div_mod_to_equations. lia.
Qed.

(** [ipInCidr] compares the leading [prefix] bits. *)
Lemma cidr_mask_land v prefix :
  0 ≤ v < 4294967296 → 0 < prefix ≤ 32 →
  uint32 (Z.land v (cidr_mask prefix)) = v / 2 ^ (32 - prefix) * 2 ^ (32 - prefix).
Proof.
  intros Hv Hp.
  assert (cidr_mask prefix = Z.shiftl (Z.ones prefix) (32 - prefix)) as ->.
  { assert (forallb (λ p, (p <? 1) || (32 <? p) || (cidr_mask p =? Z.shiftl (Z.ones p) (32 - p))) (seqZ 0 256) = true) as Hall
      by (by vm_compute).
    pose proof (byte_ind_bool _ Hall prefix ltac:(lia)) as H. cbv beta in H.
    destruct (Z.ltb_spec prefix 1), (Z.ltb_spec 32 prefix); cbn [orb] in H; lia. }
  assert (Z.land v (Z.shiftl (Z.ones prefix) (32 - prefix)) = Z.shiftl (Z.shiftr v (32 - prefix)) (32 - prefix)) as ->.
  { apply Z.bits_inj'. intros n Hn. rewrite Z.land_spec, !Z.shiftl_spec by done.
    destruct (decide (n < 32 - prefix)) as [Hlt|Hge].
    - rewrite !(Z.testbit_neg_r _ (n - (32 - prefix))) by lia. by rewrite andb_false_r.
    - rewrite Z.shiftr_spec by lia. replace (n - (32 - prefix) + (32 - prefix)) with n by lia.
      destruct (decide (n < 32)).
      + rewrite Z.ones_spec_low by lia. by rewrite andb_true_r.
      + assert (Z.testbit v n = false) as ->; [|done].
        destruct (decide (v = 0)) as [->|]; [apply Z.testbit_0_l |].
        apply Z.bits_above_log2; [lia |].
        assert (Z.log2 v < 32) by (apply Z.log2_lt_pow2; [lia | exact (proj2 Hv)]). lia. }
  rewrite Z.shiftr_div_pow2, Z.shiftl_mul_pow2 by lia. unfold uint32. apply Z.mod_small.
  pose proof (Z.pow_pos_nonneg 2 (32 - prefix) ltac:(lia) ltac:(lia)). split.
  - apply Z.mul_nonneg_nonneg; [apply Z.div_pos; lia | lia].
  - pose proof (Z.mul_div_le v (2 ^ (32 - prefix)) ltac:(lia)). lia.
Qed.

Lemma quad_value_range a b c d : byte4 a b c d → 0 ≤ quad_value a b c d < 4294967296.
Proof. unfold byte4, quad_value. lia. Qed.

Lemma ipInCidr_octets ip net prefix a b c d a' b' c' d' :
  operand <$> split_on dot ip = [a; b; c; d] → byte4 a b c d →
  operand <$> split_on dot net = [a'; b'; c'; d'] → byte4 a' b' c' d' → 0 ≤ prefix ≤ 32 →
  ipInCidr ip net prefix = true ↔
  quad_value a b c d / 2 ^ (32 - prefix) = quad_value a' b' c' d' / 2 ^ (32 - prefix).
Proof.
  intros Hip Hb Hnet Hb' Hp. unfold ipInCidr.
  pose proof (quad_value_range _ _ _ _ Hb). pose proof (quad_value_range _ _ _ _ Hb').
  destruct (Z.leb_spec prefix 0).
  - assert (prefix = 0) as -> by lia. change (2 ^ (32 - 0)) with 4294967296. rewrite !Z.div_small by done. done.
  - rewrite (ipToInt_octets _ _ _ _ _ Hip Hb), (ipToInt_octets _ _ _ _ _ Hnet Hb').
    rewrite !cidr_mask_land by lia. rewrite Z.eqb_eq.
    pose proof (Z.pow_pos_nonneg 2 (32 - prefix) ltac:(lia) ltac:(lia)).
    split; [intros; by apply (Z.mul_reg_r _ _ (2 ^ (32 - prefix))); [lia |] | by intros ->].
Qed.

(** ** The list of subnets *)

Lemma find_index_spec {A} (f : A → bool) l :
  (find_index f l = -1 ∧ Forall (λ x, f x = false) l) ∨
  (∃ i x, find_index f l = Z.of_nat i ∧ l !! i = Some x ∧ f x = true ∧
     ∀ j y, (j < i)%nat → l !! j = Some y → f y = false).
Proof.
  induction l as [|x l IH]; cbn [find_index]; [left; by split |].
  destruct (f x) eqn:Hx; [right; exists 0%nat, x; split_and!; try done; intros; lia |].
  destruct IH as [[-> Hall]|(i & y & -> & Hi & Hy & Hmin)].
  - left. split; [done | by constructor].
  - right. exists (S i), y. destruct (Z.eqb_spec (Z.of_nat i) (-1)); [lia |].
    split_and!; [lia | done | done |]. intros [|j] z Hj; cbn; [congruence |]. intros Hz. apply (Hmin j); [lia | done].
Qed.

(** What is true of every entry: where it comes from. *)
Definition entry_ok (ifaces : list (jstr * list if_addr)) (e : subnet) : Prop :=
  ∃ addrs addr, (sn_iface e, addrs) ∈ ifaces ∧ addr ∈ addrs ∧ isPhysicalLan (sn_iface e) = true ∧
    ia_ipv4 addr = true ∧ ia_internal addr = false ∧
    sn_prefix e = netmaskToPrefix (ia_netmask addr) ∧ 1 ≤ sn_prefix e ≤ 31 ∧
    sn_network e = networkAddress (ia_address addr) (ia_netmask addr) ∧
    sn_cidr e = sn_network e ++ js "/" ++ show_Z (sn_prefix e).

Definition entries_ok (ifaces : list (jstr * list if_addr)) (l : list subnet) : Prop :=
  NoDup (sn_cidr <$> l) ∧ Forall (entry_ok ifaces) l.

Lemma add_subnet_ok ifaces name addrs addr l :
  (name, addrs) ∈ ifaces → addr ∈ addrs → isPhysicalLan name = true →
  entries_ok ifaces l → entries_ok ifaces (add_subnet name l addr).
Proof.
  intros Hin Haddr Hphys [Hnd Hall]. unfold add_subnet.
  destruct (negb (ia_ipv4 addr) || ia_internal addr) eqn:E1; [done |].
  apply orb_false_iff in E1 as [E1%negb_false_iff E2]. destruct (_ || _); [done |].
  destruct ((_ <=? 0) || _) eqn:E3; [done |]. apply orb_false_iff in E3 as [?%Z.leb_gt ?%Z.leb_gt].
  cbv zeta. case_bool_decide as Hc; [done |]. split.
  - rewrite fmap_app. apply NoDup_app. split_and!; [done | | by apply NoDup_singleton].
    intros x Hx ->%list_elem_of_singleton. done.
  - apply Forall_app. split; [done |]. apply Forall_singleton. exists addrs, addr. cbn.
    split_and!; (done || lia).
Qed.

Lemma subnet_entries_ok ifaces : entries_ok ifaces (subnet_entries ifaces).
Proof.
  unfold subnet_entries.
  assert (∀ l0 l, (∀ x, x ∈ l0 → x ∈ ifaces) → entries_ok ifaces l →
    entries_ok ifaces (fold_left (λ entries '(name, addrs),
      if negb (isPhysicalLan name) then entries else fold_left (add_subnet name) addrs entries) l0 l)) as Hgen.
  { induction l0 as [|[name addrs] l0 IH]; intros l Hsub Hl; [done |]. cbn [fold_left]. apply IH; [set_solver |].
    destruct (isPhysicalLan name) eqn:Hp; [|done]. cbn [negb].
    assert ((name, addrs) ∈ ifaces) as Hin by (apply Hsub; by left).
    assert (∀ as0 l, (∀ a, a ∈ as0 → a ∈ addrs) → entries_ok ifaces l →
      entries_ok ifaces (fold_left (add_subnet name) as0 l)) as Hin2; [|by apply Hin2].
    induction as0 as [|a as0 IHa]; intros l1 Hs Hl1; [done |]. cbn [fold_left].
    apply IHa; [set_solver |]. eapply add_subnet_ok; [done | apply Hs; by left | done | done]. }
  apply Hgen; [done |]. split; [apply NoDup_nil_2 | constructor].
Qed.

(** The LAN subnets are the networks of the physical interfaces' IPv4
    addresses, in order; exactly one of them is the primary one, and it is the
    first that contains the default gateway when one does. *)
Theorem lanSubnets_spec gw ifaces :
  let es := subnet_entries ifaces in
  entries_ok ifaces es ∧
  (λ s, (ls_iface s, ls_cidr s)) <$> lanSubnets gw ifaces = (λ e, (sn_iface e, sn_cidr e)) <$> es ∧
  (es ≠ [] → ∃ p, ∀ i s, lanSubnets gw ifaces !! i = Some s → (ls_primary s = true ↔ i = p)) ∧
  (∀ g i e, gw = Some g → g ≠ [] → es !! i = Some e → ipInCidr g (sn_network e) (sn_prefix e) = true →
     ∃ p e', (p ≤ i)%nat ∧ es !! p = Some e' ∧ ipInCidr g (sn_network e') (sn_prefix e') = true ∧
       lanSubnets gw ifaces !! p = Some (LanSubnet (sn_iface e') (sn_cidr e') true)).
Proof.
  intros es. split; [apply subnet_entries_ok |]. unfold lanSubnets. fold es.
  set (hit := match gw with Some g => _ | None => -1 end).
  set (pi := if (hit =? -1) && _ then 0 else hit).
  assert (hit = -1 ∨ ∃ n, hit = Z.of_nat n) as Hhit.
  { unfold hit. destruct gw as [g|]; [|by left]. destruct (nonempty g); [|by left].
    destruct (find_index_spec (λ e, ipInCidr g (sn_network e) (sn_prefix e)) es)
      as [[-> _]|(i & x & -> & _)]; eauto. }
  split_and!.
  - rewrite fmap_imap. apply list_eq. intros i. rewrite list_lookup_imap, list_lookup_fmap. by destruct (es !! i).
  - intros Hne. assert (∃ n, pi = Z.of_nat n) as [n Hn].
    { unfold pi. destruct Hhit as [->|[n ->]].
      - destruct es; [done |]. exists 0%nat. done.
      - exists n. destruct (Z.eqb_spec (Z.of_nat n) (-1)); [lia | done]. }
    exists n. intros i s. rewrite list_lookup_imap. destruct (es !! i); [|done]. intros [= <-]. cbn.
    rewrite Hn, Z.eqb_eq. lia.
  - intros g i e -> Hg Hi Hin. destruct (find_index_spec (λ e, ipInCidr g (sn_network e) (sn_prefix e)) es)
      as [[_ Hall]|(p & e' & Hp & Hlk & He' & Hmin)].
    { rewrite Forall_lookup in Hall. rewrite (Hall i e Hi) in Hin. done. }
    exists p, e'. split; [destruct (decide (p ≤ i)%nat); [done |]; rewrite (Hmin i e) in Hin by (done || lia); done |].
    split; [done |]. split; [done |]. rewrite list_lookup_imap, Hlk. cbn.
    unfold pi, hit. destruct g as [|? ?]; [done |]. cbn [nonempty]. rewrite Hp.
    destruct (Z.eqb_spec (Z.of_nat p) (-1)); [lia |]. cbn [andb]. by rewrite Z.eqb_refl.
Qed.
