(* ===== verification/LanGuard.v ===== *)
(** * src/edge/lanGuard.js

    The addresses edge plug-ins may reach: IPv4 addresses in the private LAN
    subnets of the gateway, never the tunnel, the server or a network
    address; approved multicast groups. *)

From S2P Require Import Prelude JsBuffer NetwatchDnsWire LanInterfaces.

Local Open Scope Z_scope.

Definition CACHE_MS : Z := 10000.
Definition slash : Z := 47.

(** [isPrivateNet(cidr)]: comparisons with [NaN] are false. *)
Definition isPrivateNet (cidr : jstr) : bool :=
  let parts := split_on dot (default [] (head (split_on slash cidr))) in
  let a := head parts ≫= Number in
  let b := parts !! 1%nat ≫= Number in
  let eq_num o n := bool_decide (o = Some n) in
  eq_num a 10
  || (eq_num a 172 && match b with Some b => (16 <=? b) && (b <=? 31) | None => false end)
  || (eq_num a 192 && eq_num b 168).

Definition privateLanCidrs (subnets : list lan_subnet) : list jstr :=
  List.filter isPrivateNet (ls_cidr <$> subnets).

(** A parsed subnet; a prefix that is no number is [None]. *)
Record guard_net := GuardNet { gn_network : jstr; gn_prefix : option Z; gn_cidr : jstr }.
Definition parse_net (c : jstr) : guard_net :=
  let parts := split_on slash c in
  GuardNet (default [] (head parts)) (parts !! 1%nat ≫= Number) c.

(** The cache of the closure. *)
Record guard := Guard { gd_cache : option (list guard_net); gd_cachedAt : Z }.
Definition newGuard : guard := Guard None 0.

(** [subnets()]; the clock is read for the test and for the time stamp. *)
Definition subnets (g : guard) (subnetsOf : list jstr) (now now2 : Z) : guard * list guard_net :=
  let fresh := parse_net <$> subnetsOf in
  match gd_cache g with
  | Some nets => if CACHE_MS <? now - gd_cachedAt g then (Guard (Some fresh) now2, fresh) else (g, nets)
  | None => (Guard (Some fresh) now2, fresh)
  end.

Definition isMulticast (ip : jstr) : bool :=
  match Number (default [] (head (split_on dot ip))) with
  | Some a => (224 <=? a) && (a <=? 239)
  | None => false
  end.

(** [ipInCidr(host, s.network, s.prefix)]; for a prefix that is no number,
    both comparisons of [ipInCidr] are false and [>>> NaN] shifts by nothing,
    so the mask is empty. *)
Definition in_net (host : jstr) (s : guard_net) : bool :=
  match gn_prefix s with Some p => ipInCidr host (gn_network s) p | None => true end.

(** [last.every((o, i) => o === Number(hit.network.split('.')[i]))] *)
Definition is_network_address (host network : jstr) : bool :=
  let net := split_on dot network in
  forallb id (imap (λ i o, match Number o, net !! i ≫= Number with
                           | Some a, Some b => a =? b
                           | _, _ => false
                           end) (split_on dot host)).

(** The checks of [check] after the subnets are known. *)
Definition check_nets (nets : list guard_net) (tunnelIp : option jstr) (serverAddrs : list jstr)
    (multicast : list jstr) (host : jstr) : res jstr :=
  if negb (isIPv4 host) then Throw "target must be an IPv4 address in the LAN"
  else if isMulticast host then
    (if bool_decide (host ∈ multicast) then Ok host else Throw "multicast group not approved")
  else if match tunnelIp with Some t => nonempty t && bool_decide (host = t) | None => false end
  then Throw "the tunnel address is not a LAN target"
  else if bool_decide (host ∈ serverAddrs) then Throw "the server is not a LAN target"
  else
    match List.find (in_net host) nets with
    | None => Throw "not in a LAN subnet of this gateway"
    | Some hit =>
        if is_network_address host (gn_network hit)
           && match gn_prefix hit with Some p => p <? 31 | None => false end
        then Throw "network address is not a target"
        else Ok host
    end.

(** [check(host, { multicast })]: the subnets are only read when the checks
    get that far. *)
Definition check (g : guard) (subnetsOf : list jstr) (now now2 : Z) (tunnelIp : option jstr)
    (serverAddrs multicast : list jstr) (host : jstr) : guard * res jstr :=
  if negb (isIPv4 host) || isMulticast host
     || match tunnelIp with Some t => nonempty t && bool_decide (host = t) | None => false end
     || bool_decide (host ∈ serverAddrs)
  then (g, check_nets [] tunnelIp serverAddrs multicast host)
  else let '(g, nets) := subnets g subnetsOf now now2 in
       (g, check_nets nets tunnelIp serverAddrs multicast host).

Definition allowed (r : res jstr) : bool := match r with Ok _ => true | _ => false end.

(** [port] is a number; [None] is one that is not an integer. *)
Definition checkPort (port : option Z) : res Z :=
  match port with
  | Some p => if (p <? 1) || (65535 <? p) then Throw "invalid port" else Ok p
  | None => Throw "invalid port"
  end.

(** ** What the guard lets through *)

(** Nets as [lanSubnets] makes them. *)
Definition net_ok (n : guard_net) : Prop :=
  ∃ a b c d p, octets (gn_network n) = Some (a, b, c, d) ∧ gn_prefix n = Some p ∧ 0 ≤ p ≤ 32.

(** The leading bits of the address are those of the net. *)
Definition in_range (v : Z * Z * Z * Z) (n : guard_net) : Prop :=
  let '(a, b, c, d) := v in
  ∃ a' b' c' d' p, octets (gn_network n) = Some (a', b', c', d') ∧ gn_prefix n = Some p ∧
    quad_value a b c d / 2 ^ (32 - p) = quad_value a' b' c' d' / 2 ^ (32 - p).

(** The address of the net itself, where the net has other addresses. *)
Definition net_address (v : Z * Z * Z * Z) (n : guard_net) : Prop :=
  octets (gn_network n) = Some v ∧ ∃ p, gn_prefix n = Some p ∧ p < 31.

Lemma in_net_spec host v n : octets host = Some v → net_ok n → in_net host n = true ↔ in_range v n.
Proof.
  destruct v as [[[a b] c] d]. intros Hv (a' & b' & c' & d' & p & Hn & Hp & Hrange).
  unfold in_net, in_range. rewrite Hp.
  destruct (octets_Some _ _ _ _ _ Hv) as [Hb Hs], (octets_Some _ _ _ _ _ Hn) as [Hb' Hs'].
  rewrite (ipInCidr_octets host (gn_network n) p _ _ _ _ _ _ _ _ Hs Hb Hs' Hb') by done.
  split; [eauto 10 | intros (? & ? & ? & ? & ? & ? & ? & ?); by simplify_eq].
Qed.

Lemma octets_Number s a b c d :
  octets s = Some (a, b, c, d) →
  ∃ s1 s2 s3 s4, split_on dot s = [s1; s2; s3; s4] ∧
    Number s1 = Some a ∧ Number s2 = Some b ∧ Number s3 = Some c ∧ Number s4 = Some d.
Proof.
  unfold octets. destruct (split_on dot s) as [|a' [|b' [|c' [|d' [|? ?]]]]]; try done. intros Ho.
  destruct (octet a') eqn:Ea; [|done]. destruct (octet b') eqn:Eb; [|done].
  destruct (octet c') eqn:Ec; [|done]. destruct (octet d') eqn:Ed; [|done].
  cbn in Ho. injection Ho as -> -> -> ->. exists a', b', c', d'.
  apply octet_Number in Ea, Eb, Ec, Ed. by split_and!.
Qed.

Lemma is_network_address_spec host network v w :
  octets host = Some v → octets network = Some w → is_network_address host network = true ↔ v = w.
Proof.
  destruct v as [[[a b] c] d], w as [[[a' b'] c'] d']. intros Hv Hw.
  destruct (octets_Number _ _ _ _ _ Hv) as (s1 & s2 & s3 & s4 & Hs & N1 & N2 & N3 & N4).
  destruct (octets_Number _ _ _ _ _ Hw) as (t1 & t2 & t3 & t4 & Ht & M1 & M2 & M3 & M4).
  unfold is_network_address. rewrite Hs, Ht. cbn. rewrite N1, N2, N3, N4, M1, M2, M3, M4.
  rewrite andb_true_r, !andb_true_iff, !Z.eqb_eq. naive_solver.
Qed.

Lemma isMulticast_spec host a b c d :
  octets host = Some (a, b, c, d) → isMulticast host = true ↔ 224 ≤ a ≤ 239.
Proof.
  intros Hv. destruct (octets_Number _ _ _ _ _ Hv) as (s1 & s2 & s3 & s4 & Hs & N1 & _).
  unfold isMulticast. rewrite Hs. cbn. rewrite N1. lia.
Qed.

Lemma find_split {A} (f : A → bool) l x :
  List.find f l = Some x ↔ ∃ pre post, l = pre ++ x :: post ∧ f x = true ∧ Forall (λ y, f y = false) pre.
Proof.
  induction l as [|y l IH]; cbn [List.find].
  - split; [done |]. intros ([|] & ? & ? & _); done.
  - destruct (f y) eqn:Hy.
    + split; [intros [= <-]; by exists [], l |]. intros (pre & post & E & Hx & Hpre).
      destruct pre as [|z pre]; simplify_list_eq; [done |]. apply Forall_cons in Hpre as [? _]. congruence.
    + rewrite IH. split.
      * intros (pre & post & -> & Hx & Hpre). exists (y :: pre), post. split_and!; [done | done | by constructor].
      * intros (pre & post & E & Hx & Hpre). destruct pre as [|z pre]; simplify_list_eq; [congruence |].
        apply Forall_cons in Hpre as [_ ?]. eauto.
Qed.

(** The tunnel address is known and is the target. *)
Definition is_tunnel (tunnelIp : option jstr) (host : jstr) : Prop := tunnelIp = Some host ∧ host ≠ [].

Lemma is_tunnel_spec tunnelIp host :
  match tunnelIp with Some t => nonempty t && bool_decide (host = t) | None => false end = true
  ↔ is_tunnel tunnelIp host.
Proof.
  unfold is_tunnel. destruct tunnelIp as [t|]; [|naive_solver]. rewrite andb_true_iff, bool_decide_eq_true.
  destruct t; naive_solver.
Qed.

Lemma first_unique {A} (P : A → Prop) pre x post pre' y post' :
  pre ++ x :: post = pre' ++ y :: post' → P x → P y →
  Forall (λ z, ¬ P z) pre → Forall (λ z, ¬ P z) pre' → y = x.
Proof.
  revert pre'. induction pre as [|a pre IH]; intros [|b pre'] E Hx Hy Hp Hp'; simplify_list_eq; try done.
  - by apply Forall_cons in Hp' as [? _].
  - by apply Forall_cons in Hp as [? _].
  - apply Forall_cons in Hp as [_ Hp], Hp' as [_ Hp']. by eapply IH.
Qed.

Lemma find_none {A} (f : A → bool) l x : List.find f l = None → x ∈ l → f x = false.
Proof. intros Hf Hx%list_elem_of_In. by eapply find_none. Qed.

(** Only the network address is tested: a net wider than the RFC 1918 block
    it starts in counts as private and brings public addresses along. *)
Lemma isPrivateNet_ignores_prefix :
  isPrivateNet (js "192.168.0.0/15") = true ∧
  allowed (check_nets [parse_net (js "192.168.0.0/15")] None [] [] (js "192.169.1.1")) = true ∧
  _isPrivateIpv4 (js "192.169.1.1") = false.
Proof. by vm_compute. Qed.

(** C29: the guard lets a plugin reach an IPv4 address exactly when it is an
    allowed multicast group, or neither the tunnel nor a server and a host of
    the first net of the LAN that contains it. *)
Theorem check_nets_spec nets tunnelIp serverAddrs multicast host :
  Forall net_ok nets →
  check_nets nets tunnelIp serverAddrs multicast host = Ok host ↔
  ∃ a b c d, octets host = Some (a, b, c, d) ∧
    if decide (224 ≤ a ≤ 239) then host ∈ multicast
    else ¬ is_tunnel tunnelIp host ∧ (host ∉ serverAddrs) ∧
         ∃ pre n post, nets = pre ++ n :: post ∧ Forall (λ m, ¬ in_range (a, b, c, d) m) pre ∧
           in_range (a, b, c, d) n ∧ ¬ net_address (a, b, c, d) n.
Proof.
  intros Hnets. unfold check_nets, isIPv4.
  destruct (octets host) as [[[[a b] c] d]|] eqn:Hv.
  2: { rewrite bool_decide_false by (by intros [? ?]). cbn. split; [done |]. by intros (? & ? & ? & ? & ? & _). }
  rewrite bool_decide_true by eauto. cbn [negb].
  pose proof (isMulticast_spec host a b c d Hv) as Hm. pose proof (is_tunnel_spec tunnelIp host) as Ht.
  trans (if decide (224 ≤ a ≤ 239) then host ∈ multicast
    else ¬ is_tunnel tunnelIp host ∧ (host ∉ serverAddrs) ∧
         ∃ pre n post, nets = pre ++ n :: post ∧ Forall (λ m, ¬ in_range (a, b, c, d) m) pre ∧
           in_range (a, b, c, d) n ∧ ¬ net_address (a, b, c, d) n).
  2: { split; [intros; by exists a, b, c, d | by intros (? & ? & ? & ? & [= <- <- <- <-] & ?)]. }
  destruct (isMulticast host).
  { rewrite decide_True by by apply Hm. case_bool_decide; by split. }
  rewrite decide_False by (by intros ?%Hm).
  destruct (match tunnelIp with Some _ => _ | None => false end).
  { split; [done |]. intros [Hnt _]. by destruct Hnt; apply Ht. }
  assert (¬ is_tunnel tunnelIp host) as Hnt by (by intros ?%Ht). case_bool_decide as Hs; [split; [done | naive_solver] |].
  assert (∀ m, m ∈ nets → in_net host m = true ↔ in_range (a, b, c, d) m) as Hin.
  { intros m Hm'. rewrite Forall_forall in Hnets. by apply in_net_spec; [|apply Hnets]. }
  assert (∀ n, n ∈ nets →
    is_network_address host (gn_network n) && match gn_prefix n with Some p => p <? 31 | None => false end = true
    ↔ net_address (a, b, c, d) n) as Hna.
  { intros n Hn. rewrite Forall_forall in Hnets. destruct (Hnets n Hn) as (a' & b' & c' & d' & p & Hon & Hp & _).
    unfold net_address. rewrite Hp, andb_true_iff, (is_network_address_spec _ _ _ _ Hv Hon), Z.ltb_lt, Hon. naive_solver. }
  destruct (List.find (in_net host) nets) as [hit|] eqn:Hf.
  - apply find_split in Hf as (pre & post & -> & Hhit & Hpre). specialize (Hna hit ltac:(set_solver)).
    assert (in_range (a, b, c, d) hit) by (apply Hin; [set_solver | done]).
    assert (Forall (λ m, ¬ in_range (a, b, c, d) m) pre).
    { apply Forall_forall. intros m Hm' Hr%Hin; [|set_solver]. rewrite Forall_forall in Hpre. by rewrite Hpre in Hr. }
    destruct (_ && _).
    + split; [done |]. intros (_ & _ & pre' & n & post' & E & Hpre' & Hr & Hn).
      assert (n = hit) as ->; [|by destruct Hn; apply Hna].
      eapply (first_unique (in_range (a, b, c, d))); [exact E | done..].
    + split; [|done]. intros _. split_and!; [done | done |]. exists pre, hit, post. split_and!; try done.
      intros ?%Hna. done.
  - split; [done |]. intros (_ & _ & pre & n & post & -> & _ & Hr & _).
    assert (in_net host n = true) as Hn by (apply Hin; [set_solver | done]).
    eapply (find_none (in_net host)) in Hf; [|apply elem_of_app; right; by left]. congruence.
Qed.

Lemma check_nets_spec_witness : ∃ a b c d, octets (js "192.168.1.9") = Some (a, b, c, d) ∧
  check_nets [parse_net (js "192.168.1.0/24")] None [] [] (js "192.168.1.9") = Ok (js "192.168.1.9").
Proof.
  destruct (proj1 (check_nets_spec [parse_net (js "192.168.1.0/24")] None [] [] (js "192.168.1.9")
    ltac:(constructor; [by exists 192, 168, 1, 0, 24 | constructor])) ltac:(by vm_compute)) as (a & b & c & d & Ho & _).
  exists a, b, c, d. by split.
Defined.
