(* ===== verification/FenceRules.v ===== *)
(** * src/edge/fenceRules.js

    The network fence of the edge container: the packet filter rules for the
    edge user, as text for nftables and iptables, and the manager that applies
    them with either backend and fails closed. *)

From S2P Require Import Prelude JsBuffer NetwatchDnsWire LanInterfaces.

Local Open Scope Z_scope.

Definition TABLE : jstr := js "gc_edge".
Definition CHAIN : jstr := js "GC_EDGE".
Definition BROKER_PORT : Z := 1883.
Definition WG_IFACE : jstr := js "gatecontrol0".
Definition NLc : Z := 10.

(** [CIDR4 = /^(\d{1,3}\.){3}\d{1,3}\/\d{1,2}$/] *)
Definition digits_upto (n : Z) (s : jstr) : bool :=
  nonempty s && (Z.of_nat (length s) <=? n) && forallb is_digit s.
Definition cidr4_re (s : jstr) : bool :=
  match split_on dot s with
  | [a; b; c; d] =>
      digits_upto 3 a && digits_upto 3 b && digits_upto 3 c
      && match split_on 47 d with
         | [d; p] => digits_upto 3 d && digits_upto 2 p
         | _ => false
         end
  | _ => false
  end.

Record fence_in := FenceIn {
  fi_uid : option Z; fi_lanCidrs : list jstr; fi_serverAddrs : list jstr;
  fi_serverPort : option Z; fi_tunnelIp : option jstr
}.

Section Fence.
(** [net.isIPv6] of the runtime. *)
Context (isIPv6 : jstr → bool).

Definition v4 (l : list jstr) : list jstr := List.filter isIPv4 l.
Definition v6 (l : list jstr) : list jstr := List.filter isIPv6 l.

(** [tunnelIp] of the input, when it is not empty. *)
Definition tunnel (o : fence_in) : option jstr :=
  match fi_tunnelIp o with Some t => if nonempty t then Some t else None | None => None end.

(** [assertInputs]: the user id and the port, or the error. *)
Definition assertInputs (o : fence_in) : res (Z * Z) :=
  match fi_uid o with
  | Some uid =>
      if uid <? 1 then Throw "fence: invalid uid"
      else if existsb (λ c, negb (cidr4_re c)) (fi_lanCidrs o) then Throw "fence: invalid cidr"
      else if existsb (λ a, negb (isIPv4 a || isIPv6 a)) (fi_serverAddrs o)
      then Throw "fence: invalid server address"
      else
        match fi_serverPort o with
        | Some port =>
            if (port <? 1) || (65535 <? port) then Throw "fence: invalid server port"
            else if match tunnel o with Some t => negb (isIPv4 t) | None => false end
            then Throw "fence: invalid tunnel ip"
            else Ok (uid, port)
        | None => Throw "fence: invalid server port"
        end
  | None => Throw "fence: invalid uid"
  end.

(** [l.join(sep)] *)
Fixpoint join_str (sep : jstr) (l : list jstr) : jstr :=
  match l with [] => [] | [x] => x | x :: l => x ++ sep ++ join_str sep l end.
Definition comma : list jstr → jstr := join_str (js ", ").

Definition lines_of (l : list jstr) : jstr := join NLc l.

Definition quoted (s : jstr) : jstr := 34 :: s ++ [34].

Definition buildNftRuleset (o : fence_in) : res jstr :=
  ids ← assertInputs o;
  let '(uid, port) := ids in
  let s4 := v4 (fi_serverAddrs o) in
  let s6 := v6 (fi_serverAddrs o) in
  let lo := js "    oifname " ++ quoted (js "lo") ++ js " tcp " in
  Ok (lines_of (
    [js "table inet " ++ TABLE;
     js "delete table inet " ++ TABLE;
     js "table inet " ++ TABLE ++ js " {";
     js "  chain output {";
     js "    type filter hook output priority 0; policy accept;";
     js "    meta skuid " ++ show_Z uid ++ js " jump edge";
     js "  }";
     js "  chain edge {";
     lo ++ js "dport " ++ show_Z BROKER_PORT ++ js " accept";
     lo ++ js "sport " ++ show_Z BROKER_PORT ++ js " accept"]
    ++ (match s4 with [] => [] | _ =>
          [js "    ip daddr { " ++ comma s4 ++ js " } tcp dport " ++ show_Z port ++ js " accept"] end)
    ++ (match s6 with [] => [] | _ =>
          [js "    ip6 daddr { " ++ comma s6 ++ js " } tcp dport " ++ show_Z port ++ js " accept"] end)
    ++ (match tunnel o with Some t => [js "    ip daddr " ++ t ++ js " drop"] | None => [] end)
    ++ [js "    oifname " ++ quoted WG_IFACE ++ js " drop";
        js "    ip daddr 224.0.0.0/4 accept"]
    ++ (match fi_lanCidrs o with [] => [] | l => [js "    ip daddr { " ++ comma l ++ js " } accept"] end)
    ++ [js "    counter drop"; js "  }"; js "}"; []])).

(** ** The iptables rules

    [-A CHAIN] rules: what they match and their target. *)
Inductive ipt_match :=
  | OnLoDport | OnLoSport         (* -o lo -p tcp --dport/--sport 1883 *)
  | ToServer (a : jstr) (len port : Z)  (* -d a/len -p tcp --dport port *)
  | ToHost (a : jstr)             (* -d a/32 *)
  | OnWg                          (* -o gatecontrol0 *)
  | ToCidr (c : jstr)             (* -d c *)
  | Always.
Record ipt_rule := Rule { ru_match : ipt_match; ru_accept : bool }.

(** The rules of a family, in order. *)
Definition ipt_rules (o : fence_in) (port : Z) (family4 : bool) : list ipt_rule :=
  [Rule OnLoDport true; Rule OnLoSport true]
  ++ (if family4 then
        ((λ a, Rule (ToServer a 32 port) true) <$> v4 (fi_serverAddrs o))
        ++ (match tunnel o with Some t => [Rule (ToHost t) false] | None => [] end)
        ++ [Rule OnWg false; Rule (ToCidr (js "224.0.0.0/4")) true]
        ++ ((λ c, Rule (ToCidr c) true) <$> fi_lanCidrs o)
      else ((λ a, Rule (ToServer a 128 port) true) <$> v6 (fi_serverAddrs o)))
  ++ [Rule Always false].

Definition match_args (m : ipt_match) : jstr :=
  match m with
  | OnLoDport => js " -o lo -p tcp --dport " ++ show_Z BROKER_PORT
  | OnLoSport => js " -o lo -p tcp --sport " ++ show_Z BROKER_PORT
  | ToServer a len port => js " -d " ++ a ++ js "/" ++ show_Z len ++ js " -p tcp --dport " ++ show_Z port
  | ToHost a => js " -d " ++ a ++ js "/32"
  | OnWg => js " -o " ++ WG_IFACE
  | ToCidr c => js " -d " ++ c
  | Always => []
  end.
Definition rule_text (r : ipt_rule) : jstr :=
  js "-A " ++ CHAIN ++ match_args (ru_match r) ++ js " -j " ++ (if ru_accept r then js "ACCEPT" else js "DROP").

Definition buildIptablesRestore (o : fence_in) (family4 : bool) : res jstr :=
  ids ← assertInputs o;
  Ok (lines_of ([js "*filter"; js ":" ++ CHAIN ++ js " - [0:0]"]
                ++ (rule_text <$> ipt_rules o ids.2 family4)
                ++ [js "COMMIT"; []])).

Definition jumpArgs (verb : jstr) (uid : Z) : list jstr :=
  [verb; js "OUTPUT"] ++ (if bool_decide (verb = js "-I") then [js "1"] else [])
  ++ [js "-m"; js "owner"; js "--uid-owner"; show_Z uid; js "-j"; CHAIN].

(** ** FenceManager *)

Inductive backend := Nft | Iptables.
#[export] Instance backend_eq : EqDecision backend.
Proof. solve_decision. Defined.
Record fence_state := FenceState { fs_active : bool; fs_backend : option backend; fs_error : option jstr }.
Record manager := Manager {
  fm_uid : Z; fm_mode : jstr; fm_backend : option backend; fm_lastApplied : option jstr; fm_state : fence_state
}.

(** The outside world of one [apply]: the results of the commands, with the
    rules visible afterwards or not. *)
Record world := World {
  nft_edge_listed : bool;            (* nft list chain inet gc_edge edge *)
  nft_load : jstr → option jstr;     (* nft -f file: the error *)
  nft_output_listed : bool;          (* ... output, naming the user id *)
  ipt_restore : bool → jstr → option jstr;
  ipt_jump_present : bool → bool;    (* -C before the insertion *)
  ipt_jump_insert : bool → option jstr;
  ipt_jump_visible : bool → bool;    (* -C afterwards *)
  has_ipv6 : bool
}.

(** Applying a backend: the script that is active now, or the error. *)
Definition applyNft (m : manager) (w : world) (o : fence_in) : sum jstr jstr :=
  match buildNftRuleset o with
  | Ok script =>
      if bool_decide (fm_backend m = Some Nft) && bool_decide (fm_lastApplied m = Some script)
         && nft_edge_listed w then inl script
      else
        match nft_load w script with
        | Some err => inr err
        | None => if nft_output_listed w then inl script else inr (js "nft: rules not visible after apply")
        end
  | Throw e => inr (js e)
  | NoFuel => inr []
  end.

Definition applyIptablesFamily (w : world) (o : fence_in) (family4 : bool) : option jstr :=
  match buildIptablesRestore o family4 with
  | Ok rules =>
      match ipt_restore w family4 rules with
      | Some err => Some err
      | None =>
          match (if ipt_jump_present w family4 then None else ipt_jump_insert w family4) with
          | Some err => Some err
          | None => if ipt_jump_visible w family4 then None else Some ((if family4 then js "iptables" else js "ip6tables")
                             ++ js ": jump rule not visible after apply")
          end
      end
  | Throw e => Some (js e)
  | NoFuel => Some []
  end.

Definition applyIptables (w : world) (o : fence_in) : option jstr :=
  match applyIptablesFamily w o true with
  | Some err => Some err
  | None => match applyIptablesFamily w o false with
            | Some err => if has_ipv6 w then Some err else None
            | None => None
            end
  end.

(** The order in which [apply] tries the backends. *)
Definition backend_order (m : manager) : list backend :=
  if bool_decide (fm_mode m = js "nft") then [Nft]
  else if bool_decide (fm_mode m = js "iptables") then [Iptables]
  else if bool_decide (fm_backend m = Some Iptables) then [Iptables; Nft] else [Nft; Iptables].

(** The loop over the backends: the one that worked with the last nft
    script, or the errors. *)
Fixpoint try_backends (m : manager) (w : world) (o : fence_in) (l : list backend) (errors : list jstr)
    : option (backend * option jstr) * list jstr :=
  match l with
  | [] => (None, errors)
  | Nft :: l =>
      match applyNft m w o with
      | inl script => (Some (Nft, Some script), errors)
      | inr err => try_backends m w o l (errors ++ [err])
      end
  | Iptables :: l =>
      match applyIptables w o with
      | None => (Some (Iptables, fm_lastApplied m), errors)
      | Some err => try_backends m w o l (errors ++ [err])
      end
  end.

(** [new Set(l)], in order of the first occurrence *)
Definition dedup (l : list jstr) : list jstr :=
  fold_left (λ acc x, if bool_decide (x ∈ acc) then acc else acc ++ [x]) l [].

Definition error_text (errors : list jstr) : jstr :=
  take 300 (join_str (js " | ") errors).

Definition apply (m : manager) (w : world) (lanCidrs serverAddrs : list jstr) (serverPort : option Z)
    (tunnelIp : option jstr) : manager :=
  let o := FenceIn (Some (fm_uid m)) (dedup lanCidrs) serverAddrs serverPort tunnelIp in
  match try_backends m w o (backend_order m) [] with
  | (Some (b, script), _) =>
      Manager (fm_uid m) (fm_mode m) (Some b) script (FenceState true (Some b) None)
  | (None, errors) =>
      Manager (fm_uid m) (fm_mode m) (fm_backend m) (fm_lastApplied m)
        (FenceState false None (Some (error_text errors)))
  end.
End Fence.

(** ** The meaning of the rules *)

(** What a rule sees of a packet. *)
Record packet := Packet {
  pk_lo : bool; pk_wg : bool; pk_tcp : bool; pk_sport : Z; pk_dport : Z; pk_dst : Z
}.

Section Meaning.
Context (isIPv6 : jstr → bool).
(** [-d]: the destination lies in the block a string denotes (iptables). *)
Context (in_block : jstr → Z → Z → bool) (in_cidr : jstr → Z → bool).

Definition rule_matches (m : ipt_match) (p : packet) : bool :=
  match m with
  | OnLoDport => pk_lo p && pk_tcp p && (pk_dport p =? BROKER_PORT)
  | OnLoSport => pk_lo p && pk_tcp p && (pk_sport p =? BROKER_PORT)
  | ToServer a len port => in_block a len (pk_dst p) && pk_tcp p && (pk_dport p =? port)
  | ToHost a => in_block a 32 (pk_dst p)
  | OnWg => pk_wg p
  | ToCidr c => in_cidr c (pk_dst p)
  | Always => true
  end.

(** A chain is read in order; the first match decides. *)
Fixpoint verdict (rules : list ipt_rule) (p : packet) : option bool :=
  match rules with
  | [] => None
  | r :: rules => if rule_matches (ru_match r) p then Some (ru_accept r) else verdict rules p
  end.

Definition broker_packet (p : packet) : Prop :=
  pk_lo p = true ∧ pk_tcp p = true ∧ (pk_dport p = BROKER_PORT ∨ pk_sport p = BROKER_PORT).
Definition server_packet (addrs : list jstr) (len port : Z) (p : packet) : Prop :=
  pk_tcp p = true ∧ pk_dport p = port ∧ ∃ a, a ∈ addrs ∧ in_block a len (pk_dst p) = true.

Lemma verdict_app l1 l2 p :
  verdict (l1 ++ l2) p = match verdict l1 p with Some b => Some b | None => verdict l2 p end.
Proof. induction l1 as [|r l1 IH]; cbn [verdict app]; [done |]. by destruct (rule_matches _ _). Qed.

(** A list of rules with the same target. *)
Lemma verdict_all {A} (f : A → ipt_match) (l : list A) p b :
  verdict ((λ a, Rule (f a) b) <$> l) p =
  if existsb (λ a, rule_matches (f a) p) l then Some b else None.
Proof.
  induction l as [|a l IH]; [done |]. rewrite fmap_cons. cbn [verdict existsb ru_match ru_accept].
  by destruct (rule_matches (f a) p).
Qed.

Lemma verdict_broker p :
  verdict [Rule OnLoDport true; Rule OnLoSport true] p = Some true ∧ broker_packet p ∨
  verdict [Rule OnLoDport true; Rule OnLoSport true] p = None ∧ ¬ broker_packet p.
Proof.
  unfold broker_packet. cbn [verdict rule_matches ru_match ru_accept].
  destruct (pk_lo p), (pk_tcp p); cbn [andb]; try (right; split; [done |]; naive_solver).
  destruct (Z.eqb_spec (pk_dport p) BROKER_PORT); [by left; naive_solver |].
  destruct (Z.eqb_spec (pk_sport p) BROKER_PORT); [left | right]; naive_solver.
Qed.

Lemma existsb_server addrs len port p :
  existsb (λ a, rule_matches (ToServer a len port) p) addrs = true ↔ server_packet addrs len port p.
Proof.
  unfold server_packet. rewrite existsb_exists. setoid_rewrite <- list_elem_of_In. cbn [rule_matches].
  setoid_rewrite andb_true_iff. setoid_rewrite andb_true_iff. setoid_rewrite Z.eqb_eq. naive_solver.
Qed.

(** What the IPv4 chain lets the edge user send. *)
Definition permitted4 (o : fence_in) (port : Z) (p : packet) : Prop :=
  broker_packet p ∨ server_packet (v4 (fi_serverAddrs o)) 32 port p ∨
  ((∀ t, tunnel o = Some t → in_block t 32 (pk_dst p) = false) ∧ pk_wg p = false ∧
   ∃ c, (c = js "224.0.0.0/4" ∨ c ∈ fi_lanCidrs o) ∧ in_cidr c (pk_dst p) = true).
Definition permitted6 (o : fence_in) (port : Z) (p : packet) : Prop :=
  broker_packet p ∨ server_packet (v6 isIPv6 (fi_serverAddrs o)) 128 port p.

Lemma existsb_cidr l p :
  existsb (λ c, rule_matches (ToCidr c) p) l = true ↔ ∃ c, c ∈ l ∧ in_cidr c (pk_dst p) = true.
Proof. rewrite existsb_exists. by setoid_rewrite <- list_elem_of_In. Qed.

(** The rules after the server: tunnel and WireGuard before the LAN. *)
Lemma verdict_lan o p :
  let rules := (match tunnel o with Some t => [Rule (ToHost t) false] | None => [] end)
        ++ [Rule OnWg false; Rule (ToCidr (js "224.0.0.0/4")) true]
        ++ ((λ c, Rule (ToCidr c) true) <$> fi_lanCidrs o) ++ [Rule Always false] in
  ∃ b, verdict rules p = Some b ∧
    (b = true ↔ (∀ t, tunnel o = Some t → in_block t 32 (pk_dst p) = false) ∧ pk_wg p = false ∧
                ∃ c, (c = js "224.0.0.0/4" ∨ c ∈ fi_lanCidrs o) ∧ in_cidr c (pk_dst p) = true).
Proof.
  cbv zeta. rewrite verdict_app.
  assert (verdict (match tunnel o with Some t => [Rule (ToHost t) false] | None => [] end) p
          = match tunnel o with Some t => if in_block t 32 (pk_dst p) then Some false else None | None => None end) as ->
    by (by destruct (tunnel o)).
  destruct (match tunnel o with Some t => if in_block t 32 (pk_dst p) then Some false else None | None => None end)
    as [b|] eqn:Et.
  { destruct (tunnel o) as [t|]; [|done]. destruct (in_block t 32 (pk_dst p)) eqn:Eb; [|done].
    injection Et as <-. exists false. split; [done |]. split; [done |]. intros [Ht _]. by rewrite (Ht t) in Eb. }
  assert (∀ t, tunnel o = Some t → in_block t 32 (pk_dst p) = false) as Ht.
  { intros t Hto. rewrite Hto in Et. by destruct (in_block t 32 (pk_dst p)). }
  cbn [app verdict ru_match ru_accept rule_matches].
  destruct (pk_wg p); [exists false; split; [done |]; split; [done | by intros (_ & ? & _)] |].
  destruct (in_cidr (js "224.0.0.0/4") (pk_dst p)) eqn:Em.
  { exists true. split; [done |]. split; [|done]. intros _. split_and!; [done | done |]. eauto. }
  rewrite verdict_app, verdict_all. pose proof (existsb_cidr (fi_lanCidrs o) p) as Hc.
  destruct (existsb _ (fi_lanCidrs o)).
  - exists true. split; [done |]. split; [|done]. intros _. split_and!; [done | done |].
    destruct (proj1 Hc eq_refl) as (c & Hin & Hd). eauto.
  - exists false. split; [done |]. split; [done |]. intros (_ & _ & c & [->|Hin] & Hd); [congruence |].
    assert (false = true); [|done]. apply Hc. eauto.
Qed.


(** ** Failing closed *)

(** The rules are in place: the nft table is loaded and visible, or both
    iptables families are, the second one only where there is IPv6. *)
Definition family_in_place (w : world) (o : fence_in) (family4 : bool) : Prop :=
  ∃ rules, buildIptablesRestore isIPv6 o family4 = Ok rules ∧ ipt_restore w family4 rules = None ∧
    (ipt_jump_present w family4 = true ∨ ipt_jump_insert w family4 = None) ∧ ipt_jump_visible w family4 = true.
Definition in_place (m : manager) (w : world) (o : fence_in) (b : backend) : Prop :=
  match b with
  | Nft => ∃ script, buildNftRuleset isIPv6 o = Ok script ∧
      ((fm_backend m = Some Nft ∧ fm_lastApplied m = Some script ∧ nft_edge_listed w = true) ∨
       (nft_load w script = None ∧ nft_output_listed w = true))
  | Iptables => family_in_place w o true ∧ (has_ipv6 w = true → family_in_place w o false)
  end.

Lemma applyIptablesFamily_None w o f : applyIptablesFamily isIPv6 w o f = None ↔ family_in_place w o f.
Proof.
  unfold applyIptablesFamily, family_in_place. destruct (buildIptablesRestore isIPv6 o f) as [rules| |]; [|naive_solver..].
  destruct (ipt_restore w f rules) eqn:Er; [naive_solver |].
  destruct (ipt_jump_present w f), (ipt_jump_insert w f), (ipt_jump_visible w f); naive_solver.
Qed.

Lemma applyIptables_None w o : applyIptables isIPv6 w o = None ↔ in_place (Manager 1 [] None None (FenceState false None None)) w o Iptables.
Proof.
  unfold applyIptables. cbn [in_place]. rewrite <- !applyIptablesFamily_None.
  destruct (applyIptablesFamily isIPv6 w o true); [naive_solver |].
  destruct (applyIptablesFamily isIPv6 w o false), (has_ipv6 w); naive_solver.
Qed.

Lemma applyNft_inl m w o : (∃ s, applyNft isIPv6 m w o = inl s) ↔ in_place m w o Nft.
Proof.
  unfold applyNft. cbn [in_place]. destruct (buildNftRuleset isIPv6 o) as [script| |]; [|naive_solver..].
  do 2 case_bool_decide; cbn [andb]; destruct (nft_edge_listed w), (nft_load w script) eqn:?, (nft_output_listed w); naive_solver.
Qed.

Lemma try_backends_spec m w o l errs :
  match (try_backends isIPv6 m w o l errs).1 with
  | Some (b, _) => b ∈ l ∧ in_place m w o b
  | None => ∀ b, b ∈ l → ¬ in_place m w o b
  end.
Proof.
  revert errs. induction l as [|[] l IH]; intros errs; cbn [try_backends fst].
  - set_solver.
  - pose proof (applyNft_inl m w o) as Hn. destruct (applyNft isIPv6 m w o) as [s|e]; cbn [fst].
    + split; [by left |]. apply Hn. eauto.
    + assert (¬ in_place m w o Nft) by (rewrite <- Hn; naive_solver). specialize (IH (errs ++ [e])).
      destruct (try_backends _ _ _ _ l _) as [[[b ?]|] ?]; cbn [fst] in *; [destruct IH; split; [by right | done] |].
      intros b [->|Hb]%elem_of_cons; auto.
  - pose proof (applyIptables_None w o) as Hn. cbn [in_place] in Hn. destruct (applyIptables isIPv6 w o) as [e|]; cbn [fst].
    + assert (¬ in_place m w o Iptables) by (cbn [in_place]; rewrite <- Hn; done). specialize (IH (errs ++ [e])).
      destruct (try_backends _ _ _ _ l _) as [[[b ?]|] ?]; cbn [fst] in *; [destruct IH; split; [by right | done] |].
      intros b [->|Hb]%elem_of_cons; auto.
    + split; [by left |]. cbn [in_place]. by apply Hn.
Qed.

(** C4: the fence counts as active exactly when one of the backends that are
    tried was put in place completely, and then it names a backend that is in
    place: a failure on the way never looks like protection. *)
Theorem apply_fails_closed m w lan addrs port tip :
  let o := FenceIn (Some (fm_uid m)) (dedup lan) addrs port tip in
  let m' := apply isIPv6 m w lan addrs port tip in
  (fs_active (fm_state m') = true ↔ ∃ b, b ∈ backend_order m ∧ in_place m w o b) ∧
  (fs_active (fm_state m') = true → ∃ b, fs_backend (fm_state m') = Some b ∧ fm_backend m' = Some b ∧
     in_place m w o b).
Proof.
  intros o m'. unfold m', apply. fold o. pose proof (try_backends_spec m w o (backend_order m) []) as Hs.
  destruct (try_backends isIPv6 m w o (backend_order m) []) as [[[b s]|] errs]; cbn [fst fm_state fs_active fs_backend fm_backend] in *.
  - split; [split; [eauto | done] |]. intros _. exists b. naive_solver.
  - split; [|done]. split; [done |]. intros (b & Hb & Hi). by destruct (Hs b Hb).
Qed.
End Meaning.
