(* ===== verification/Raster.v ===== *)
(** * src/print/convert.js: pages as raster data

    Recognising a file by its first bytes, reading the renderer's PNM output,
    turning a page for the sheet and for its back side, the byte runs of PWG
    and Apple raster, and the page headers. *)

From S2P Require Import Prelude JsBuffer.

Local Open Scope Z_scope.

Definition PWG : jstr := js "image/pwg-raster".
Definition URF : jstr := js "image/urf".
Definition JPEG : jstr := js "image/jpeg".
Definition PDF : jstr := js "application/pdf".
Definition PREFERRED_DPI : Z := 300.
Definition PNM_HEAD_MAX : Z := 512.

(** ** sniff *)

(** [buf.indexOf(p) >= 0] *)
Fixpoint contains (p s : list Z) : bool :=
  starts_with p s || match s with [] => false | _ :: r => contains p r end.

(** [at(s, o)]: the bytes of [s] stand at offset [o]. *)
Definition at_bytes (buf s : list Z) (o : Z) : bool :=
  (o + blen s <=? blen buf) && bool_decide (subarray buf o (o + blen s) = s).

Definition HEIF_BRANDS : list (list Z) :=
  js <$> ["heic"; "heix"; "hevc"; "hevx"; "heim"; "heis"; "mif1"; "msf1"].

Definition sniff (buf : list Z) : option jstr :=
  if blen buf <? 4 then None
  else if contains (js "%PDF-") (subarray buf 0 1024) then Some PDF
  else if bool_decide (take 3 buf = [255; 216; 255]) then Some JPEG
  else if at_bytes buf (137 :: js "PNG" ++ [13; 10; 26; 10]) 0 then Some (js "image/png")
  else if at_bytes buf (js "RaS2") 0 then Some PWG
  else if at_bytes buf (js "UNIRAST" ++ [0]) 0 then Some URF
  else if at_bytes buf (js "GIF87a") 0 || at_bytes buf (js "GIF89a") 0 then Some (js "image/gif")
  else if at_bytes buf (js "RIFF") 0 && at_bytes buf (js "WEBP") 8 then Some (js "image/webp")
  else if at_bytes buf (js "II*" ++ [0]) 0 || at_bytes buf (js "MM" ++ [0] ++ js "*") 0 then Some (js "image/tiff")
  else if at_bytes buf (js "ftyp") 4 && bool_decide (subarray buf 8 12 ∈ HEIF_BRANDS) then Some (js "image/heic")
  else if at_bytes buf (js "%!PS") 0 then Some (js "application/postscript")
  else None.

(** ** The printer's resolutions and colour types *)

(** [res] is never empty. *)
Definition chooseDpi (res : list Z) : Z :=
  if bool_decide (PREFERRED_DPI ∈ res) then PREFERRED_DPI
  else match filter (λ r, PREFERRED_DPI < r) res with
       | r :: above => fold_left Z.min above r
       | [] => match res with r :: l => fold_left Z.max l r | [] => 0 end
       end.

Definition chooseType (types : list jstr) (color : bool) : option jstr :=
  if color && bool_decide (js "srgb_8" ∈ types) then Some (js "srgb_8")
  else if bool_decide (js "sgray_8" ∈ types) then Some (js "sgray_8")
  else if bool_decide (js "srgb_8" ∈ types) then Some (js "srgb_8")
  else if bool_decide (js "black_1" ∈ types) then Some (js "black_1") else None.

(** ** parsePnm *)

(** [bpp] bytes per pixel ([0]: one bit per pixel, [i_row] bytes per row). *)
Record image := Img { i_width : Z; i_height : Z; i_bpp : Z; i_row : option Z; i_data : list Z }.

Definition convert_failed : string := "convert_failed".

Definition isSpace (c : Z) : bool :=
  (c =? 32) || (c =? 9) || (c =? 10) || (c =? 13) || (c =? 11) || (c =? 12).

(** [while (o < limit && buf[o] !== 0x0a) o++], on the bytes from [o] to the limit. *)
Fixpoint skip_comment (s : list Z) : list Z :=
  match s with c :: r => if c =? 10 then s else skip_comment r | [] => [] end.

(** White space and comments. *)
Fixpoint skip_blank (fuel : nat) (s : list Z) : list Z :=
  match fuel, s with
  | S fuel, c :: r =>
      if isSpace c then skip_blank fuel r
      else if c =? 35 then skip_blank fuel (skip_comment r)
      else s
  | _, _ => s
  end.

(** Up to [k] digits: the number, the digits read and the rest. *)
Fixpoint pnm_digits (k : nat) (s : list Z) (n digits : Z) : Z * Z * list Z :=
  match k, s with
  | S k, c :: r =>
      if is_digit c then pnm_digits k r (n * 10 + (c - 48)) (digits + 1) else (n, digits, s)
  | _, _ => (n, digits, s)
  end.

(** [count] numbers of the head, and what follows the last one. *)
Fixpoint pnm_numbers (count : nat) (s : list Z) : res (list Z * list Z) :=
  match count with
  | O => Ok ([], s)
  | S count =>
      let '(n, digits, s) := pnm_digits 6 (skip_blank (length s) s) 0 0 in
      match s with
      | c :: _ =>
          if (digits =? 0) || negb (isSpace c) then Throw convert_failed
          else r ← pnm_numbers count s; Ok (n :: r.1, r.2)
      | [] => Throw convert_failed
      end
  end.

Definition parsePnm (buf : list Z) : res image :=
  match buf with
  | a :: b :: _ :: _ =>
      if negb (a =? 80) || (negb (b =? 53) && negb (b =? 54)) then Throw convert_failed
      else
        let bpp := if b =? 53 then 1 else 3 in
        let limit := Z.min (blen buf) PNM_HEAD_MAX in
        r ← pnm_numbers 3 (subarray buf 2 limit);
        let o := limit - blen r.2 + 1 in
        match r.1 with
        | [width; height; max] =>
            if negb (max =? 255) || (width =? 0) || (height =? 0) then Throw convert_failed
            else
              let data := drop (Z.to_nat o) buf in
              if blen data <? width * height * bpp then Throw convert_failed
              else Ok (Img width height bpp None (subarray data 0 (width * height * bpp)))
        | _ => Throw convert_failed
        end
  | _ => Throw convert_failed
  end.

(** ** Turning a page *)

(** [out[p] = v] for the pairs in order; a position out of range is ignored,
    as in a [Buffer]. *)
Definition write_all (out : list Z) (ws : list (Z * Z)) : list Z :=
  fold_left (λ out w, if w.1 <? 0 then out else <[Z.to_nat w.1 := w.2]> out) ws out.

(** The positions [(x, y, c)] of an image in the order of the loops. *)
Definition positions (w h bpp : Z) : list (Z * Z * Z) :=
  y ← seqZ 0 h; x ← seqZ 0 w; c ← seqZ 0 bpp; [(x, y, c)].

Definition rotate90 (img : image) : image :=
  let w := i_width img in
  let h := i_height img in
  let bpp := i_bpp img in
  let ws := (λ '(x, y, c), (((w - 1 - x) * h + y) * bpp + c,
                            byte_or0 (i_data img) ((y * w + x) * bpp + c))) <$> positions w h bpp in
  Img h w bpp None (write_all (alloc (w * h * bpp)) ws).

(** [src.copy(out, at, s, e)]: clipped to both buffers. *)
Definition copy_at (out : list Z) (at_ : Z) (l : list Z) : list Z :=
  write_all out (imap (λ i v, (at_ + Z.of_nat i, v)) l).

Definition onSheet (img : image) (W H x0 y0 : Z) : image :=
  if (i_width img =? W) && (i_height img =? H) then img
  else
    let bpp := i_bpp img in
    let cw := Z.min (i_width img) (W - x0) in
    let rows := filter (λ y, y + y0 < H) (seqZ 0 (i_height img)) in
    Img W H bpp None
      (fold_left (λ out y, copy_at out (((y + y0) * W + x0) * bpp)
                             (subarray (i_data img) (y * i_width img * bpp) ((y * i_width img + cw) * bpp)))
         rows (replicate (Z.to_nat (W * H * bpp)) 255)).

Inductive sheet_back := BackNormal | BackFlipped | BackRotated | BackManualTumble.

Definition backSide (img : image) (back : sheet_back) : image :=
  let w := i_width img in
  let h := i_height img in
  let bpp := i_bpp img in
  let row := w * bpp in
  let data := i_data img in
  match back with
  | BackNormal | BackManualTumble => img
  | BackFlipped =>
      Img w h bpp (i_row img)
        (fold_left (λ out y, copy_at out ((h - 1 - y) * row) (subarray data (y * row) ((y + 1) * row)))
           (seqZ 0 h) (alloc (blen data)))
  | BackRotated =>
      let ws := (λ '(x, y, c), ((h - 1 - y) * row + (w - 1 - x) * bpp + c,
                                byte_or0 (subarray data (y * row) ((y + 1) * row)) (x * bpp + c)))
                <$> positions w h bpp in
      Img w h bpp (i_row img) (write_all (alloc (blen data)) ws)
  end.

(** [Math.ceil(a / b)] *)
Definition ceil_div (a b : Z) : Z := (a + b - 1) / b.

Definition toType (img : image) (type : jstr) : image :=
  let w := i_width img in
  let h := i_height img in
  let data := i_data img in
  if bool_decide (type = js "srgb_8") && (i_bpp img =? 1) then
    Img w h 3 (i_row img) (write_all (alloc (w * h * 3))
      (mjoin (imap (λ i v, (λ c, (3 * Z.of_nat i + c, v)) <$> [0; 1; 2]) data)))
  else if bool_decide (type = js "black_1") then
    let row := ceil_div w 8 in
    Img w h 0 (Some row)
      (fold_left (λ out '(x, y),
         if match byte_at data (y * w + x) with Some v => v <? 128 | None => false end then
           let p := y * row + Z.shiftr x 3 in
           write_all out [(p, Z.lor (byte_or0 out p) (Z.shiftr 128 (Z.land x 7)))]
         else out)
       (y ← seqZ 0 h; x ← seqZ 0 w; [(x, y)]) (alloc (row * h)))
  else img.

(** ** The byte runs of a line *)

Definition same (line : list Z) (unit a b : Z) : bool :=
  if unit =? 1 then bool_decide (byte_at line a = byte_at line b)
  else forallb (λ c, bool_decide (byte_at line (a * unit + c) = byte_at line (b * unit + c))) (seqZ 0 unit).

(** [while (i + run < n && run < 128 && same(i, i + run)) run++] *)
Fixpoint run_loop (k : nat) (line : list Z) (unit n i run : Z) : Z :=
  match k with
  | O => run
  | S k => if (i + run <? n) && (run <? 128) && same line unit i (i + run)
              then run_loop k line unit n i (run + 1) else run
  end.

(** [while (i < n && i - start < 128 && !(i + 1 < n && same(i, i + 1))) i++] *)
Fixpoint literal_loop (k : nat) (line : list Z) (unit n start i : Z) : Z :=
  match k with
  | O => i
  | S k => if (i <? n) && (i - start <? 128) && negb ((i + 1 <? n) && same line unit i (i + 1))
              then literal_loop k line unit n start (i + 1) else i
  end.

Fixpoint pack_loop (fuel : nat) (line : list Z) (unit n i : Z) (out : list Z) : res (list Z) :=
  if i <? n then
    match fuel with
    | O => NoFuel
    | S fuel =>
        let run := run_loop 128 line unit n i 1 in
        if (1 <? run) || (n <=? i + 1) then
          pack_loop fuel line unit n (i + run)
            (out ++ (run - 1) :: subarray line (i * unit) ((i + 1) * unit))
        else
          let j := literal_loop 128 line unit n i (i + 1) in
          let count := j - i in
          pack_loop fuel line unit n j
            (out ++ (if count =? 1 then 0 else 257 - count) :: subarray line (i * unit) (j * unit))
    end
  else Ok out.

(** [n = line.length / unit]; the loops compare whole positions with it. *)
Definition packLine (line : list Z) (unit : Z) : res (list Z) :=
  let n := ceil_div (blen line) unit in
  pack_loop (Z.to_nat n) line unit n 0 [].

Definition packLine_alloc (line : list Z) (unit : Z) : Z :=
  let n := ceil_div (blen line) unit in
  n * unit + ceil_div n 128 * 2 + 2 + n.

(** [while (y + rep + 1 < height && rep < 255 && row(y + rep + 1).equals(line)) rep++] *)
Fixpoint rep_loop (k : nat) (data : list Z) (row height y rep : Z) : Z :=
  match k with
  | O => rep
  | S k =>
      if (y + rep + 1 <? height) && (rep <? 255)
         && bool_decide (subarray data ((y + rep + 1) * row) ((y + rep + 2) * row)
                         = subarray data (y * row) ((y + 1) * row))
      then rep_loop k data row height y (rep + 1) else rep
  end.

Fixpoint page_loop (fuel : nat) (data : list Z) (row unit height y : Z) : res (list Z) :=
  if y <? height then
    match fuel with
    | O => NoFuel
    | S fuel =>
        let rep := rep_loop 255 data row height y 0 in
        packed ← packLine (subarray data (y * row) ((y + 1) * row)) unit;
        rest ← page_loop fuel data row unit height (y + rep + 1);
        Ok (rep :: packed ++ rest)
    end
  else Ok [].

(** [img.row || img.width * img.bpp] and [img.bpp || 1] *)
Definition row_of (img : image) : Z :=
  match i_row img with
  | Some r => if r =? 0 then i_width img * i_bpp img else r
  | None => i_width img * i_bpp img
  end.
Definition unit_of (img : image) : Z := if i_bpp img =? 0 then 1 else i_bpp img.

Definition packPage (img : image) : res (list Z) :=
  page_loop (Z.to_nat (i_height img)) (i_data img) (row_of img) (unit_of img) (i_height img) 0.

(** ** Page headers *)

Record raster_type := RType { t_bpc : Z; t_bpp : Z; t_cs : Z; t_colors : Z; t_urf : Z }.

(** [TYPE[type]]; black_1 has no number in URF ([null], stored as 0). *)
Definition TYPE (type : jstr) : option raster_type :=
  if bool_decide (type = js "srgb_8") then Some (RType 8 24 19 3 1)
  else if bool_decide (type = js "sgray_8") then Some (RType 8 8 18 1 0)
  else if bool_decide (type = js "black_1") then Some (RType 1 1 3 1 0)
  else None.

(** [media]: its name and its width and height, rounded to whole points. *)
Record page_header := PageHeader {
  ph_width : Z; ph_height : Z; ph_dpi : Z; ph_type : raster_type; ph_duplex : bool;
  ph_media_name : jstr; ph_media_w : Z; ph_media_h : Z; ph_pages : Z; ph_transform : Z
}.

Definition pwg_fields (p : page_header) : list (Z * Z) :=
  let t := ph_type p in
  [(272, if ph_duplex p then 1 else 0); (276, ph_dpi p); (280, ph_dpi p);
   (352, ph_media_w p); (356, ph_media_h p); (372, ph_width p); (376, ph_height p);
   (384, t_bpc t); (388, t_bpp t); (392, ceil_div (ph_width p * t_bpp t) 8);
   (396, 0); (400, t_cs t); (420, t_colors t); (452, ph_pages p);
   (456, ph_transform p); (460, ph_transform p);
   (464, 0); (468, 0); (472, ph_width p); (476, ph_height p); (480, 16777215)].

(** [u(off, v)] for the fields in order *)
Fixpoint write_fields (h : list Z) (fs : list (Z * Z)) : res (list Z) :=
  match fs with
  | [] => Ok h
  | (off, v) :: fs => h ← writeUInt32BE h (uint32 v) off; write_fields h fs
  end.

(** [Buffer.from(s, 'latin1')] *)
Definition latin1 (s : jstr) : list Z := (λ c, c mod 256) <$> s.

Definition pwgHeader (p : page_header) : res (list Z) :=
  h ← write_bytes (alloc 1796) 0 (js "PwgRaster");
  h ← write_fields h (pwg_fields p);
  write_bytes h 1732 (latin1 (take 63 (ph_media_name p))).

Definition urfHeader (p : page_header) : res (list Z) :=
  let t := ph_type p in
  h ← write_bytes (alloc 32) 0 [t_bpp t; t_urf t; if ph_duplex p then 3 else 1; 4];
  h ← writeUInt32BE h (ph_width p) 12;
  h ← writeUInt32BE h (ph_height p) 16;
  writeUInt32BE h (ph_dpi p) 20.
