(* ===== verification/RasterFacts.v ===== *)
(** * Properties of the raster output

    The readers of PWG raster lines and pages, written after the format, give
    back what the packer was given; turning a page moves every pixel to its
    place; the renderer's output is read as it was written. *)

From S2P Require Import Prelude JsBuffer Raster.

Local Open Scope Z_scope.

(** ** A reader of the format *)

(** One line of [need] pixels: [c < 128] repeats the next pixel [c + 1] times,
    [c > 128] is followed by [257 - c] pixels; the line and what follows. *)
Fixpoint unpack_line (k : nat) (unit need : Z) (s : list Z) : option (list Z * list Z) :=
  if need =? 0 then Some ([], s)
  else
    match k, s with
    | S k, c :: s =>
        if c <? 128 then
          if (blen s <? unit) || (need <? c + 1) then None
          else '(l, rest) ← unpack_line k unit (need - (c + 1)) (drop (Z.to_nat unit) s);
               Some (mjoin (replicate (Z.to_nat (c + 1)) (take (Z.to_nat unit) s)) ++ l, rest)
        else if c =? 128 then None
        else
          let m := 257 - c in
          if (blen s <? m * unit) || (need <? m) then None
          else '(l, rest) ← unpack_line k unit (need - m) (drop (Z.to_nat (m * unit)) s);
               Some (take (Z.to_nat (m * unit)) s ++ l, rest)
    | _, _ => None
    end.

Definition unpackLine (unit n : Z) (s : list Z) : option (list Z * list Z) :=
  unpack_line (Z.to_nat n) unit n s.

(** A page of [need] lines of [n] pixels. *)
Fixpoint unpack_page (k : nat) (unit n need : Z) (s : list Z) : option (list Z * list Z) :=
  if need =? 0 then Some ([], s)
  else
    match k, s with
    | S k, rep :: s =>
        if need <? rep + 1 then None
        else
          '(line, s) ← unpackLine unit n s;
          '(l, rest) ← unpack_page k unit n (need - (rep + 1)) s;
          Some (mjoin (replicate (Z.to_nat (rep + 1)) line) ++ l, rest)
    | _, _ => None
    end.

Definition unpackPage (unit n height : Z) (s : list Z) : option (list Z * list Z) :=
  unpack_page (Z.to_nat height) unit n height s.

(** ** The loops of packLine *)

Section Line.
Context (line : list Z) (unit n : Z).
Context (Hunit : 0 < unit) (Hn : 0 ≤ n) (Hline : blen line = n * unit).

Definition pixel (i : Z) : list Z := subarray line (i * unit) ((i + 1) * unit).

Lemma blen_pixel i : 0 ≤ i < n → blen (pixel i) = unit.
Proof. intros. unfold pixel. rewrite blen_subarray; nia. Qed.

Lemma same_pixel i j : 0 ≤ i < n → 0 ≤ j < n → same line unit i j = true → pixel i = pixel j.
Proof.
  intros Hi Hj Hs. apply byte_at_list_ext; [by rewrite !blen_pixel |].
  intros c Hc. rewrite blen_pixel in Hc by done. unfold pixel.
  rewrite !byte_at_subarray by nia. unfold same in Hs. destruct (Z.eqb_spec unit 1).
  - apply bool_decide_eq_true in Hs. replace c with 0 by lia. subst unit.
    rewrite !Z.mul_1_r, !Z.add_0_r. done.
  - eapply forallb_forall in Hs; [| apply list_elem_of_In, elem_of_seqZ; split; [apply Hc | lia]].
    by apply bool_decide_eq_true in Hs.
Qed.

Lemma run_loop_spec k i run : 0 ≤ i → 1 ≤ run ≤ 128 → i + run ≤ n →
  (∀ j, 0 ≤ j < run → pixel (i + j) = pixel i) →
  let r := run_loop k line unit n i run in
  1 ≤ r ≤ 128 ∧ i + r ≤ n ∧ ∀ j, 0 ≤ j < r → pixel (i + j) = pixel i.
Proof.
  revert run. induction k as [|k IH]; intros run Hi Hr Hle Hp; cbn [run_loop]; [split_and!; done || lia |].
  destruct (Z.ltb_spec (i + run) n), (Z.ltb_spec run 128); cbn [andb]; try (split_and!; done || lia).
  destruct (same line unit i (i + run)) eqn:Hs; cbn [andb]; [|split_and!; done || lia].
  apply IH; [done | lia | lia |]. intros j Hj. destruct (decide (j = run)) as [->|].
  - symmetry. apply same_pixel; [lia | lia | done].
  - apply Hp. lia.
Qed.

Lemma literal_loop_spec k start i : 0 ≤ start < i → i - start ≤ 128 → i ≤ n →
  i ≤ literal_loop k line unit n start i ≤ n ∧ literal_loop k line unit n start i - start ≤ 128.
Proof.
  revert i. induction k as [|k IH]; intros i Hs Hl Hi; cbn [literal_loop]; [lia |].
  destruct (Z.ltb_spec i n), (Z.ltb_spec (i - start) 128); cbn [andb]; try lia.
  destruct (negb _); [| lia].
  destruct (IH (i + 1)); lia.
Qed.

Lemma repeated_pixels i r : 0 ≤ i → 0 ≤ r → i + r ≤ n → (∀ j, 0 ≤ j < r → pixel (i + j) = pixel i) →
  drop (Z.to_nat (i * unit)) line
  = mjoin (replicate (Z.to_nat r) (pixel i)) ++ drop (Z.to_nat ((i + r) * unit)) line.
Proof.
  intros Hi Hr. revert r Hr. apply (natlike_ind (λ r, i + r ≤ n → _ → _)).
  { intros _ _. by rewrite Z.add_0_r. }
  intros r Hr IH Hle Hp. rewrite IH by (lia || (intros; apply Hp; lia)).
  rewrite Z2Nat.inj_succ, replicate_S_end, join_app by done. cbn [mjoin list_join].
  rewrite app_nil_r, <- app_assoc. f_equal.
  rewrite (drop_split line ((i + r) * unit) ((i + r + 1) * unit)) by nia.
  rewrite <- (Hp r ltac:(lia)). by replace (i + Z.succ r) with (i + r + 1) by lia.
Qed.
(** What the packer has written for the pixels from [i] on. *)
Definition packs (i : Z) (packed : list Z) : Prop :=
  blen packed ≤ (n - i) * (unit + 1) ∧
  ∀ k rest, n - i ≤ Z.of_nat k →
    unpack_line k unit (n - i) (packed ++ rest) = Some (drop (Z.to_nat (i * unit)) line, rest).

Lemma packs_end : packs n [].
Proof.
  split; [unfold blen; cbn [length]; nia |]. intros k rest _. rewrite Z.sub_diag.
  rewrite drop_ge by (unfold blen in *; lia). by destruct k.
Qed.

Lemma packs_run i r packed : 0 ≤ i → 1 ≤ r ≤ 128 → i + r ≤ n →
  (∀ j, 0 ≤ j < r → pixel (i + j) = pixel i) →
  packs (i + r) packed → packs i ((r - 1) :: pixel i ++ packed).
Proof.
  intros Hi Hr Hle Hp [Hlen Hu]. pose proof (blen_pixel i ltac:(lia)) as Hpx. split.
  { rewrite blen_cons, blen_app. nia. }
  intros k rest Hk. destruct k as [|k]; [lia |]. cbn [unpack_line app].
  destruct (Z.eqb_spec (n - i) 0); [lia |]. destruct (Z.ltb_spec (r - 1) 128); [|lia].
  rewrite <- app_assoc.
  destruct (Z.ltb_spec (blen (pixel i ++ packed ++ rest)) unit) as [Hs|_].
  { rewrite !blen_app in Hs. pose proof (blen_nonneg packed). pose proof (blen_nonneg rest). lia. }
  destruct (Z.ltb_spec (n - i) (r - 1 + 1)); [lia |]. cbn [orb].
  rewrite drop_app_length' by (unfold blen in Hpx; lia).
  rewrite take_app_length' by (unfold blen in Hpx; lia).
  replace (n - i - (r - 1 + 1)) with (n - (i + r)) by lia.
  rewrite Hu by lia. cbn [mbind option_bind]. replace (r - 1 + 1) with r by lia.
  by rewrite (repeated_pixels i r) by (done || lia).
Qed.

Lemma packs_literal i j packed : 0 ≤ i → i + 2 ≤ j ≤ n → j - i ≤ 128 →
  packs j packed → packs i ((257 - (j - i)) :: subarray line (i * unit) (j * unit) ++ packed).
Proof.
  intros Hi Hj Hc [Hlen Hu].
  pose proof (blen_subarray line (i * unit) (j * unit) ltac:(nia) ltac:(nia)) as Hpx. split.
  { rewrite blen_cons, blen_app. nia. }
  intros k rest Hk. destruct k as [|k]; [lia |]. cbn [unpack_line app].
  destruct (Z.eqb_spec (n - i) 0); [lia |]. destruct (Z.ltb_spec (257 - (j - i)) 128); [lia |].
  destruct (Z.eqb_spec (257 - (j - i)) 128); [lia |].
  replace (257 - (257 - (j - i))) with (j - i) by lia. rewrite <- app_assoc.
  destruct (Z.ltb_spec (blen (subarray line (i * unit) (j * unit) ++ packed ++ rest)) ((j - i) * unit)) as [Hs|_].
  { rewrite !blen_app in Hs. pose proof (blen_nonneg packed). pose proof (blen_nonneg rest). lia. }
  destruct (Z.ltb_spec (n - i) (j - i)); [lia |]. cbn [orb].
  rewrite drop_app_length' by (unfold blen in Hpx; lia).
  rewrite take_app_length' by (unfold blen in Hpx; lia).
  replace (n - i - (j - i)) with (n - j) by lia.
  rewrite Hu by lia. cbn [mbind option_bind]. by rewrite (drop_split line (i * unit) (j * unit)) by nia.
Qed.

Lemma pack_loop_spec fuel i out : 0 ≤ i ≤ n → n - i ≤ Z.of_nat fuel →
  ∃ packed, pack_loop fuel line unit n i out = Ok (out ++ packed) ∧ packs i packed.
Proof.
  revert i out. induction fuel as [|fuel IH]; intros i out Hi Hf; cbn [pack_loop];
    (destruct (Z.ltb_spec i n);
      [| exists []; rewrite app_nil_r; replace i with n by lia; split; [done | apply packs_end]]); [lia |].
  destruct (run_loop_spec 128 i 1) as (Hr & Hle & Hp); [lia | lia | lia | |].
  { intros j Hj. by replace (i + j) with i by lia. }
  set (r := run_loop _ _ _ _ _ _) in *.
  assert ((1 <? r) || (n <=? i + 1) = false → i + 2 ≤ n) as Hn2 by (intros; lia).
  destruct ((1 <? r) || (n <=? i + 1)) eqn:Hb.
  - destruct (IH (i + r) (out ++ (r - 1) :: subarray line (i * unit) ((i + 1) * unit))) as (packed & -> & Hpk); [lia | lia |].
    exists ((r - 1) :: pixel i ++ packed). rewrite <- app_assoc. split; [done | apply packs_run; done || lia].
  - specialize (Hn2 eq_refl).
    destruct (literal_loop_spec 128 i (i + 1)) as [Hj Hc]; [lia | lia | lia |].
    set (j := literal_loop _ _ _ _ _ _) in *.
    set (c := if j - i =? 1 then 0 else 257 - (j - i)).
    destruct (IH j (out ++ c :: subarray line (i * unit) (j * unit))) as (packed & -> & Hpk); [lia | lia |].
    exists (c :: subarray line (i * unit) (j * unit) ++ packed). rewrite <- app_assoc. split; [done |].
    unfold c. destruct (Z.eqb_spec (j - i) 1) as [E|].
    + replace j with (i + 1) in * by lia. apply (packs_run i 1); [lia.. | | done].
      intros j' Hj'. by replace (i + j') with i by lia.
    + apply packs_literal; [lia.. | done].
Qed.
End Line.

Lemma ceil_div_mul n unit : 0 < unit → ceil_div (n * unit) unit = n.
Proof. intros. unfold ceil_div. replace (n * unit + unit - 1) with (n * unit + (unit - 1)) by lia.
  rewrite Z.div_add_l by lia. rewrite Z.div_small by lia. lia. Qed.

Lemma packLine_packs line unit n : 0 < unit → 0 ≤ n → blen line = n * unit →
  ∃ packed, packLine line unit = Ok packed ∧ blen packed ≤ packLine_alloc line unit ∧
    ∀ rest, unpackLine unit n (packed ++ rest) = Some (line, rest).
Proof.
  intros Hu Hn Hl. unfold packLine, packLine_alloc. rewrite Hl, ceil_div_mul by done.
  destruct (pack_loop_spec line unit n Hu Hn Hl (Z.to_nat n) 0 []) as (packed & -> & [Hlen Hr]); [lia | lia |].
  exists packed. split_and!; [done | |].
  - assert (0 ≤ ceil_div n 128) by (apply Z.div_pos; lia). nia.
  - intros rest. specialize (Hr (Z.to_nat n) rest ltac:(lia)).
    rewrite Z.sub_0_r in Hr. unfold unpackLine. by rewrite Hr.
Qed.

(** ** Pages *)

Section Page.
Context (data : list Z) (row unit n height : Z).
Context (Hunit : 0 < unit) (Hn : 0 < n) (Hrow : row = n * unit).
Context (Hheight : 0 ≤ height) (Hdata : blen data = height * row).

Lemma row_positive : 0 < row.
Proof. nia. Qed.

Lemma rep_loop_spec k y rep : 0 ≤ y → 0 ≤ rep ≤ 255 → y + rep + 1 ≤ height →
  (∀ j, 0 ≤ j < rep + 1 → pixel data row (y + j) = pixel data row y) →
  0 ≤ rep_loop k data row height y rep ≤ 255 ∧ y + rep_loop k data row height y rep + 1 ≤ height ∧
  ∀ j, 0 ≤ j < rep_loop k data row height y rep + 1 → pixel data row (y + j) = pixel data row y.
Proof.
  revert rep. induction k as [|k IH]; intros rep Hy Hr Hle Hp; cbn [rep_loop]; [split_and!; done || lia |].
  destruct (Z.ltb_spec (y + rep + 1) height), (Z.ltb_spec rep 255); cbn [andb];
    try (split_and!; done || lia).
  destruct (bool_decide _) eqn:Hs; [|split_and!; done || lia].
  apply bool_decide_eq_true in Hs. apply IH; [done | lia | lia |]. intros j Hj.
  destruct (decide (j = rep + 1)) as [->|]; [|apply Hp; lia].
  unfold pixel. rewrite <- Hs. f_equal; lia.
Qed.

Lemma page_loop_spec fuel y : 0 ≤ y ≤ height → height - y ≤ Z.of_nat fuel →
  ∃ packed, page_loop fuel data row unit height y = Ok packed ∧
    ∀ k rest, height - y ≤ Z.of_nat k →
      unpack_page k unit n (height - y) (packed ++ rest) = Some (drop (Z.to_nat (y * row)) data, rest).
Proof.
  pose proof row_positive as Hpos.
  revert y. induction fuel as [|fuel IH]; intros y Hy Hf; cbn [page_loop];
    (destruct (Z.ltb_spec y height);
      [| exists []; split; [done |]; intros k rest _; replace (height - y) with 0 by lia;
         rewrite drop_ge by (unfold blen in *; nia); by destruct k]); [lia |].
  destruct (rep_loop_spec 255 y 0) as (Hr & Hle & Hp); [lia | lia | lia | |].
  { intros j Hj. by replace (y + j) with y by lia. }
  set (rep := rep_loop _ _ _ _ _ _) in *. clearbody rep. fold (pixel data row y).
  assert (blen (pixel data row y) = n * unit) as Hlen.
  { rewrite (blen_pixel data row height); [lia.. |]. lia. }
  destruct (packLine_packs (pixel data row y) unit n) as (packed & -> & _ & Hu); [lia | lia | done |].
  destruct (IH (y + rep + 1)) as (more & -> & Hm); [lia | lia |]. cbn [mbind res_bind].
  eexists. split; [done |]. intros k rest Hk. destruct k as [|k]; [lia |]. cbn [unpack_page app].
  destruct (Z.eqb_spec (height - y) 0); [lia |]. destruct (Z.ltb_spec (height - y) (rep + 1)); [lia |].
  rewrite <- app_assoc, Hu. cbn [mbind option_bind].
  replace (height - y - (rep + 1)) with (height - (y + rep + 1)) by lia.
  rewrite Hm by lia. cbn [mbind option_bind].
  rewrite (repeated_pixels data row height Hpos Hdata y (rep + 1)) by (done || lia).
  by rewrite Z.add_assoc.
Qed.
End Page.

(** ** Writing pixels *)

Lemma write_all_length out ws : length (write_all out ws) = length out.
Proof.
  revert out. induction ws as [|[p v] ws IH]; intros out; [done |]. unfold write_all in *.
  cbn [fold_left]. rewrite IH. cbn. destruct (p <? 0); [done |]. by rewrite length_insert.
Qed.

Lemma write_all_cons out p v ws : write_all out ((p, v) :: ws)
  = write_all (if p <? 0 then out else <[Z.to_nat p := v]> out) ws.
Proof. done. Qed.

Lemma write_all_notin out ws i : i ∉ ws.*1 → byte_at (write_all out ws) i = byte_at out i.
Proof.
  revert out. induction ws as [|[p v] ws IH]; intros out Hi; [done |].
  rewrite write_all_cons, IH by set_solver. unfold byte_at.
  destruct (Z.ltb_spec i 0), (Z.ltb_spec p 0); try done.
  apply list_lookup_insert_ne. set_solver by lia.
Qed.

(** Every position is written once, so what was written stays. *)
Lemma write_all_elem out ws i v : NoDup ws.*1 → (i, v) ∈ ws → 0 ≤ i < blen out →
  byte_at (write_all out ws) i = Some v.
Proof.
  revert out. induction ws as [|[p w] ws IH]; intros out Hnd Hin Hi; [set_solver |].
  cbn in Hnd. apply NoDup_cons in Hnd as [Hp Hnd]. rewrite write_all_cons.
  apply elem_of_cons in Hin as [E|Hin].
  - simplify_eq. rewrite write_all_notin by done. unfold byte_at, blen in *.
    destruct (Z.ltb_spec p 0); [lia |]. apply list_lookup_insert_eq. lia.
  - apply IH; [done.. |]. unfold blen in *. destruct (p <? 0); [done |]. by rewrite length_insert.
Qed.

Lemma radix_inj m a b a' b' : 0 ≤ b < m → 0 ≤ b' < m → a * m + b = a' * m + b' → a = a' ∧ b = b'.
Proof. intros. assert (a = a') by nia. lia. Qed.

Lemma elem_of_positions w h bpp x y c :
  (x, y, c) ∈ positions w h bpp ↔ 0 ≤ x < w ∧ 0 ≤ y < h ∧ 0 ≤ c < bpp.
Proof.
  unfold positions. setoid_rewrite list_elem_of_bind. setoid_rewrite list_elem_of_bind.
  setoid_rewrite list_elem_of_bind. setoid_rewrite elem_of_seqZ. setoid_rewrite list_elem_of_singleton.
  split; [intros (y' & (x' & (c' & ? & ?) & ?) & ?); simplify_eq; lia |].
  intros (? & ? & ?). exists y. split; [|lia]. exists x. split; [|lia]. exists c. split; [done | lia].
Qed.

Lemma positions_NoDup w h bpp : NoDup (positions w h bpp).
Proof.
  unfold positions. apply NoDup_bind; [| intros y _; apply NoDup_bind |]; try apply NoDup_seqZ.
  - intros y1 y2 z _ _ (x & (c & ->%list_elem_of_singleton & _)%list_elem_of_bind & _)%list_elem_of_bind.
    intros (x' & (c' & E%list_elem_of_singleton & _)%list_elem_of_bind & _)%list_elem_of_bind. by simplify_eq.
  - intros x1 x2 z _ _ (c & ->%list_elem_of_singleton & _)%list_elem_of_bind.
    intros (c' & E%list_elem_of_singleton & _)%list_elem_of_bind. by simplify_eq.
  - intros x _. apply NoDup_bind; [| intros; apply NoDup_singleton | apply NoDup_seqZ].
    intros c1 c2 z _ _ ->%list_elem_of_singleton E%list_elem_of_singleton. by simplify_eq.
Qed.

(** Moving every pixel of an image to the place [dst] gives it. *)
Lemma moved_pixels w h bpp out (dst : Z * Z * Z → Z) (v : Z * Z * Z → Z) x y c :
  (∀ p q, p ∈ positions w h bpp → q ∈ positions w h bpp → dst p = dst q → p = q) →
  0 ≤ x < w → 0 ≤ y < h → 0 ≤ c < bpp → 0 ≤ dst (x, y, c) < blen out →
  byte_at (write_all out ((λ p, (dst p, v p)) <$> positions w h bpp)) (dst (x, y, c)) = Some (v (x, y, c)).
Proof.
  intros Hinj Hx Hy Hc Hd. apply write_all_elem; [| | done].
  - rewrite <- list_fmap_compose. apply NoDup_fmap_2_strong; [| apply positions_NoDup].
    intros p q Hp Hq E. by apply Hinj.
  - apply list_elem_of_fmap. exists (x, y, c). split; [done |]. by apply elem_of_positions.
Qed.

(** ** Turned images *)

Definition image_ok (img : image) : Prop :=
  0 < i_width img ∧ 0 < i_height img ∧ 0 < i_bpp img ∧
  blen (i_data img) = i_width img * i_height img * i_bpp img.

(** Byte [c] of the pixel [(x, y)]. *)
Definition px (img : image) (x y c : Z) : option Z :=
  byte_at (i_data img) ((y * i_width img + x) * i_bpp img + c).

Definition within (img : image) (x y c : Z) : Prop :=
  0 ≤ x < i_width img ∧ 0 ≤ y < i_height img ∧ 0 ≤ c < i_bpp img.

Lemma blen_write_all out ws : blen (write_all out ws) = blen out.
Proof. unfold blen. by rewrite write_all_length. Qed.

Lemma index_bound w h bpp x y c : 0 ≤ x < w → 0 ≤ y < h → 0 ≤ c < bpp →
  0 ≤ (y * w + x) * bpp + c < w * h * bpp.
Proof.
  intros. assert (y * w + x + 1 ≤ w * h) by nia. assert (0 ≤ y * w + x) by nia.
  assert (0 ≤ (y * w + x) * bpp) by nia. assert ((y * w + x + 1) * bpp ≤ w * h * bpp) by nia. lia.
Qed.

Lemma px_Some img x y c : image_ok img → within img x y c →
  px img x y c = Some (byte_or0 (i_data img) ((y * i_width img + x) * i_bpp img + c)).
Proof.
  intros (? & ? & ? & Hl) (? & ? & ?). unfold px, byte_or0.
  destruct (index_bound (i_width img) (i_height img) (i_bpp img) x y c); [done.. |].
  destruct (byte_at_is_Some (i_data img) ((y * i_width img + x) * i_bpp img + c)) as [v ->]; [lia | done].
Qed.

Lemma rotate90_px img x y c : image_ok img → within img x y c →
  px (rotate90 img) y (i_width img - 1 - x) c = px img x y c.
Proof.
  intros Hok Hin. rewrite (px_Some img) by done. destruct Hok as (Hw & Hh & Hb & Hl), Hin as (Hx & Hy & Hc).
  unfold px, rotate90. cbn [i_data i_width i_height i_bpp].
  set (w := i_width img) in *. set (h := i_height img) in *. set (bpp := i_bpp img) in *.
  destruct (index_bound h w bpp y (w - 1 - x) c); [lia.. |]. assert (w * h * bpp = h * w * bpp) by lia.
  etrans; [| apply (moved_pixels w h bpp (alloc (w * h * bpp))
    (λ '(x, y, c), ((w - 1 - x) * h + y) * bpp + c)
    (λ '(x, y, c), byte_or0 (i_data img) ((y * w + x) * bpp + c)) x y c)]; try done.
  - f_equal. f_equal. apply list_fmap_ext. by intros _ [[? ?] ?] _.
  - intros [[x1 y1] c1] [[x2 y2] c2] Hp1%elem_of_positions Hp2%elem_of_positions E.
    apply radix_inj in E as [E ->]; [|lia..]. apply radix_inj in E as [E ->]; [|lia..]. f_equal. f_equal. lia.
  - rewrite blen_alloc by nia. lia.
Qed.

Lemma rotate90_ok img : image_ok img → image_ok (rotate90 img).
Proof.
  intros (? & ? & ? & Hl). unfold image_ok, rotate90. cbn [i_data i_width i_height i_bpp].
  split_and!; [done.. |]. rewrite blen_write_all, blen_alloc by nia. nia.
Qed.

Lemma rotated_px img x y c : image_ok img → within img x y c →
  px (backSide img BackRotated) (i_width img - 1 - x) (i_height img - 1 - y) c = px img x y c.
Proof.
  intros Hok Hin. rewrite (px_Some img) by done. destruct Hok as (Hw & Hh & Hb & Hl), Hin as (Hx & Hy & Hc).
  unfold px, backSide. cbn [i_data i_width i_height i_bpp].
  set (w := i_width img) in *. set (h := i_height img) in *. set (bpp := i_bpp img) in *.
  destruct (index_bound w h bpp (w - 1 - x) (h - 1 - y) c); [lia.. |].
  etrans; [| etrans; [apply (moved_pixels w h bpp (alloc (blen (i_data img)))
    (λ '(x, y, c), ((h - 1 - y) * w + (w - 1 - x)) * bpp + c)
    (λ '(x, y, c), byte_or0 (subarray (i_data img) (y * (w * bpp)) ((y + 1) * (w * bpp))) (x * bpp + c)) x y c)|]];
    try done.
  - f_equal. f_equal. apply list_fmap_ext. intros _ [[? ?] ?] _. f_equal. lia.
  - intros [[x1 y1] c1] [[x2 y2] c2] Hp1%elem_of_positions Hp2%elem_of_positions E.
    apply radix_inj in E as [E ->]; [|lia..]. apply radix_inj in E as [E E']; [|lia..]. f_equal. f_equal; lia.
  - rewrite blen_alloc by nia. lia.
  - cbv beta iota. unfold byte_or0. rewrite byte_at_subarray by nia. do 3 f_equal. lia.
Qed.

Lemma fold_write_all (g : Z → list (Z * Z)) ys out :
  fold_left (λ out y, write_all out (g y)) ys out = write_all out (ys ≫= g).
Proof.
  revert out. induction ys as [|y ys IH]; intros out; [done |]. cbn [fold_left]. rewrite IH.
  unfold write_all. cbn. by rewrite fold_left_app.
Qed.

(** The bytes a row copy writes. *)
Definition row_writes (at_ : Z) (l : list Z) : list (Z * Z) := imap (λ i v, (at_ + Z.of_nat i, v)) l.

Lemma elem_of_row_writes at_ l p v :
  (p, v) ∈ row_writes at_ l ↔ ∃ i, 0 ≤ i < blen l ∧ p = at_ + i ∧ byte_at l i = Some v.
Proof.
  unfold row_writes. rewrite elem_of_lookup_imap. split.
  - intros (i & y & [= -> ->] & Hi). exists (Z.of_nat i).
    assert (byte_at l (Z.of_nat i) = Some y) as Hb
      by (unfold byte_at; destruct (Z.ltb_spec (Z.of_nat i) 0); [lia | by rewrite Nat2Z.id]).
    split_and!; [lia | by apply byte_at_Some in Hb as [? _]; unfold blen in *; apply lookup_lt_Some in Hi; lia | done | done].
  - intros (i & Hi & -> & Hb). exists (Z.to_nat i), v. rewrite Z2Nat.id by lia. split; [done |].
    unfold byte_at in Hb. by destruct (Z.ltb_spec i 0); [lia |].
Qed.

Lemma row_writes_NoDup at_ l : NoDup (row_writes at_ l).*1.
Proof.
  unfold row_writes. rewrite fmap_imap. apply NoDup_alt. intros i j p Hi Hj.
  rewrite list_lookup_imap in Hi, Hj.
  destruct (l !! i), (l !! j); cbn in *; simplify_eq. lia.
Qed.

Lemma fmap_of_bind {A B C} (f : A → list B) (g : B → C) l : g <$> (l ≫= f) = l ≫= (λ x, g <$> f x).
Proof. induction l as [|x l IH]; [done |]. csimpl. by rewrite fmap_app, IH. Qed.

Lemma flipped_px img x y c : image_ok img → within img x y c →
  px (backSide img BackFlipped) x (i_height img - 1 - y) c = px img x y c.
Proof.
  intros Hok Hin. rewrite (px_Some img) by done. destruct Hok as (Hw & Hh & Hb & Hl), Hin as (Hx & Hy & Hc).
  unfold px, backSide. cbn [i_data i_width i_height i_bpp].
  set (w := i_width img) in *. set (h := i_height img) in *. set (bpp := i_bpp img) in *.
  destruct (index_bound w h bpp x y c), (index_bound w h bpp x (h - 1 - y) c); [lia.. |].
  set (rowd := λ y, subarray (i_data img) (y * (w * bpp)) ((y + 1) * (w * bpp))).
  rewrite (fold_write_all (λ y, row_writes ((h - 1 - y) * (w * bpp)) (rowd y))).
  assert (∀ y, 0 ≤ y < h → blen (rowd y) = w * bpp) as Hrow.
  { intros y' Hy'. unfold rowd. rewrite blen_subarray; nia. }
  assert (0 ≤ x * bpp + c < w * bpp) by nia.
  apply write_all_elem.
  - rewrite fmap_of_bind. apply NoDup_bind; [| intros; apply row_writes_NoDup | apply NoDup_seqZ].
    intros y1 y2 p Hy1%elem_of_seqZ Hy2%elem_of_seqZ
      ([p1 v1] & -> & (i & Hi & -> & _)%elem_of_row_writes)%list_elem_of_fmap
      ([p2 v2] & E & (j & Hj & -> & _)%elem_of_row_writes)%list_elem_of_fmap.
    rewrite !Hrow in * by lia. cbn in E. apply radix_inj in E as [E _]; lia.
  - apply list_elem_of_bind. exists y. split; [| apply elem_of_seqZ; lia].
    apply elem_of_row_writes. exists (x * bpp + c). rewrite Hrow by lia. split_and!; [lia | lia | lia |].
    unfold rowd. rewrite byte_at_subarray by nia. unfold byte_or0.
    replace (y * (w * bpp) + (x * bpp + c)) with ((y * w + x) * bpp + c) by lia.
    by destruct (byte_at_is_Some (i_data img) ((y * w + x) * bpp + c)) as [? ->]; [lia |].
  - rewrite blen_alloc by lia. lia.
Qed.

Lemma blen_fold_copy (a : Z → Z) (l : Z → list Z) ys out :
  blen (fold_left (λ out y, copy_at out (a y) (l y)) ys out) = blen out.
Proof.
  revert out. induction ys as [|y ys IH]; intros out; [done |]. cbn [fold_left].
  rewrite IH. apply blen_write_all.
Qed.

Lemma backSide_image img back : image_ok img → image_ok (backSide img back) ∧
  i_width (backSide img back) = i_width img ∧ i_height (backSide img back) = i_height img ∧
  i_bpp (backSide img back) = i_bpp img.
Proof.
  intros Hok. pose proof Hok as (? & ? & ? & Hl). unfold image_ok.
  destruct back; cbn [backSide i_data i_width i_height i_bpp]; split_and!; try done;
    rewrite ?blen_write_all, ?blen_fold_copy, ?blen_alloc; lia.
Qed.

(** ** What the renderer writes *)

Lemma skip_blank_ge fuel s : (1 <= fuel)%nat →
  match s with c :: _ => isSpace c = false ∧ c ≠ 35 | [] => True end → skip_blank fuel s = s.
Proof.
  destruct fuel; [lia |]. intros _. destruct s as [|c s]; [done |]. intros [Hs Hc]. cbn [skip_blank].
  rewrite Hs. by destruct (Z.eqb_spec c 35).
Qed.

Lemma pnm_digits_app k ds s n digits : Forall (λ c, 48 ≤ c ≤ 57) ds → (length ds <= k)%nat →
  match s with c :: _ => is_digit c = false | [] => True end →
  pnm_digits k (ds ++ s) n digits
  = (fold_left (λ a d, a * 10 + (d - 48)) ds n, digits + blen ds, s).
Proof.
  intros Hds. revert k n digits. induction Hds as [|d ds Hd Hds IH]; intros k n digits Hk Hs.
  - cbn [app fold_left]. rewrite Z.add_0_r. destruct k, s as [|c s]; cbn [pnm_digits]; rewrite ?Hs; done.
  - destruct k as [|k]; cbn [length] in Hk; [lia |]. cbn [app pnm_digits].
    assert (is_digit d = true) as -> by (unfold is_digit; lia).
    rewrite IH by (done || lia). cbn [fold_left]. rewrite blen_cons. f_equal. f_equal. lia.
Qed.

Lemma digits_fuel_length fuel n acc k : 0 ≤ n < 10 ^ Z.of_nat k → (1 <= k)%nat →
  (length (digits_fuel fuel n acc) <= k + length acc)%nat.
Proof.
  revert n acc k. induction fuel as [|fuel IH]; intros n acc k Hn Hk; cbn [digits_fuel]; [lia |].
  destruct (Z.ltb_spec n 10); [cbn [length]; lia |].
  destruct k as [|[|k]]; [lia | cbn in Hn; lia |].
  rewrite Nat2Z.inj_succ, Z.pow_succ_r in Hn by lia.
  specialize (IH (n / 10) ((48 + n mod 10) :: acc) (S k)). cbn [length] in IH.
  assert (0 ≤ n / 10 < 10 ^ Z.of_nat (S k)) by (split; [apply Z.div_pos; lia | apply Z.div_lt_upper_bound; lia]).
  lia.
Qed.

Lemma show_Z_length n k : 0 ≤ n < 10 ^ Z.of_nat k → (1 <= k)%nat → (length (show_Z n) <= k)%nat.
Proof.
  intros Hn Hk. unfold show_Z. destruct (Z.ltb_spec n 0); [lia |].
  pose proof (digits_fuel_length (S (Z.to_nat (Z.log2 n))) n [] k Hn Hk). cbn [length] in *. lia.
Qed.

Lemma show_Z_nonempty n : 0 ≤ n → 1 ≤ blen (show_Z n).
Proof.
  intros Hn. unfold show_Z. destruct (Z.ltb_spec n 0); [lia |]. cbn [digits_fuel].
  destruct (n <? 10); [done |].
  destruct (digits_fuel_app (Z.to_nat (Z.log2 n)) (n / 10) [48 + n mod 10]) as [l ->].
  rewrite blen_app. unfold blen. cbn [length]. lia.
Qed.

Definition pnm_number (n : Z) : Prop := 0 < n < 1000000.

(** One number of the head with the white space around it. *)
Lemma pnm_number_read count n sep rest : isSpace sep = true → 0 ≤ n < 1000000 →
  ∀ blanks, (blanks = [] ∨ ∃ c, blanks = [c] ∧ isSpace c = true) →
  pnm_numbers (S count) (blanks ++ show_Z n ++ sep :: rest)
  = r ← pnm_numbers count (sep :: rest); Ok (n :: r.1, r.2).
Proof.
  intros Hsep Hn blanks Hb. destruct (show_Z_spec n ltac:(lia)) as [Hds Hv].
  pose proof (show_Z_nonempty n ltac:(lia)) as Hne.
  assert ((length (show_Z n) <= 6)%nat) as Hlen by (apply (show_Z_length n 6); [cbn; lia | lia]).
  assert (∀ k, (1 <= k)%nat → skip_blank k (show_Z n ++ sep :: rest) = show_Z n ++ sep :: rest) as Hskip.
  { intros k Hk. apply skip_blank_ge; [done |]. destruct (show_Z n) as [|d ds]; [done |].
    inversion Hds; subst. cbn [app]. split; [unfold isSpace; lia | lia]. }
  cbn [pnm_numbers]. assert (skip_blank (length (blanks ++ show_Z n ++ sep :: rest)) (blanks ++ show_Z n ++ sep :: rest)
    = show_Z n ++ sep :: rest) as ->.
  { destruct Hb as [->|(c & -> & Hc)].
    - apply Hskip. rewrite !length_app. cbn [length]. lia.
    - rewrite !length_app. cbn [length app Nat.add skip_blank]. rewrite Hc. apply Hskip. lia. }
  rewrite pnm_digits_app; [| done | done | unfold isSpace, is_digit in *; lia].
  fold (digits_value (show_Z n)). rewrite Hv, Hsep. cbn [negb].
  destruct (Z.eqb_spec (0 + blen (show_Z n)) 0); [lia | done].
Qed.

(** The output of the renderer: type, size, maximum, pixels. *)
Definition rendered (img : image) : list Z :=
  [80; (if i_bpp img =? 1 then 53 else 54); 10] ++ show_Z (i_width img) ++ 32 :: show_Z (i_height img)
  ++ 10 :: show_Z 255 ++ 10 :: i_data img.

Lemma pnm_numbers_rendered w h more : 0 < w < 1000000 → 0 < h < 1000000 →
  pnm_numbers 3 (10 :: show_Z w ++ 32 :: show_Z h ++ 10 :: show_Z 255 ++ 10 :: more)
  = Ok ([w; h; 255], 10 :: more).
Proof.
  intros Hw Hh. change (10 :: show_Z w ++ ?r) with ([10] ++ show_Z w ++ r).
  rewrite pnm_number_read; [| done | lia | right; by exists 10].
  change (32 :: show_Z h ++ ?r) with ([32] ++ show_Z h ++ r).
  rewrite pnm_number_read; [| done | lia | right; by exists 32].
  change (10 :: show_Z 255 ++ ?r) with ([10] ++ show_Z 255 ++ r).
  rewrite pnm_number_read; [done | done | lia | right; by exists 10].
Qed.

Lemma parsePnm_reads img : image_ok img → i_bpp img = 1 ∨ i_bpp img = 3 → i_row img = None →
  i_width img < 1000000 → i_height img < 1000000 → parsePnm (rendered img) = Ok img.
Proof.
  intros (Hw & Hh & Hb & Hl) Hbpp Hrow Hw' Hh'.
  assert ((length (show_Z (i_width img)) <= 6)%nat) as Hlw by (apply (show_Z_length _ 6); [cbn; lia | lia]).
  assert ((length (show_Z (i_height img)) <= 6)%nat) as Hlh by (apply (show_Z_length _ 6); [cbn; lia | lia]).
  set (head := [80; (if i_bpp img =? 1 then 53 else 54)]).
  set (nums := 10 :: show_Z (i_width img) ++ 32 :: show_Z (i_height img) ++ 10 :: show_Z 255 ++ [10]).
  assert (rendered img = head ++ nums ++ i_data img) as Hbuf.
  { unfold rendered, head, nums. cbn [app]. do 3 f_equal. rewrite <- !app_assoc. cbn [app]. f_equal. f_equal.
    by rewrite <- !app_assoc. }
  assert (1 ≤ blen nums ≤ 20) as Hnums.
  { unfold nums. rewrite blen_cons, blen_app, blen_cons, blen_app, blen_cons, blen_app.
    unfold blen. cbn [length show_Z]. change (length (show_Z 255)) with 3%nat. lia. }
  set (limit := Z.min (blen (rendered img)) PNM_HEAD_MAX).
  assert (∃ more, subarray (rendered img) 2 limit = nums ++ more ∧ blen more = limit - 2 - blen nums) as (more & Hsub & Hmore).
  { assert (2 + blen nums ≤ limit ≤ blen (rendered img)) as Hlim.
    { unfold limit, PNM_HEAD_MAX. rewrite Hbuf, !blen_app. change (blen head) with 2.
      pose proof (blen_nonneg (i_data img)). lia. }
    exists (subarray (i_data img) 0 (limit - 2 - blen nums)). split.
    - unfold subarray. rewrite Hbuf. change (drop (Z.to_nat 2) (head ++ ?l)) with l. cbn [drop].
      rewrite drop_0, Z.sub_0_r, take_app. f_equal; [rewrite take_ge; [done | unfold blen in *; lia] |].
      f_equal. unfold blen. lia.
    - rewrite blen_subarray; [lia | lia |]. rewrite Hbuf, !blen_app in Hlim. change (blen head) with 2 in Hlim. lia. }
  assert (parsePnm (rendered img) = (
        let bpp := if (if i_bpp img =? 1 then 53 else 54) =? 53 then 1 else 3 in
        r ← pnm_numbers 3 (subarray (rendered img) 2 limit);
        let o := limit - blen r.2 + 1 in
        match r.1 with
        | [width; height; max] =>
            if negb (max =? 255) || (width =? 0) || (height =? 0) then Throw convert_failed
            else
              let data := drop (Z.to_nat o) (rendered img) in
              if blen data <? width * height * bpp then Throw convert_failed
              else Ok (Img width height bpp None (subarray data 0 (width * height * bpp)))
        | _ => Throw convert_failed
        end)) as ->.
  { unfold rendered. cbn [app parsePnm]. by destruct (i_bpp img =? 1). }
  rewrite Hsub. unfold nums. cbn [app]. rewrite <- !app_assoc. cbn [app]. rewrite <- !app_assoc. cbn [app].
  rewrite <- !app_assoc. cbn [app]. rewrite pnm_numbers_rendered by lia.
  cbn [mbind res_bind fst snd]. destruct (Z.eqb_spec (i_width img) 0); [lia |].
  destruct (Z.eqb_spec (i_height img) 0); [lia |]. cbn [negb orb Z.eqb Pos.eqb].
  assert ((if (if i_bpp img =? 1 then 53 else 54) =? 53 then 1 else 3) = i_bpp img) as ->
    by (destruct Hbpp as [-> | ->]; done).
  assert (drop (Z.to_nat (limit - blen (10 :: more) + 1)) (rendered img) = i_data img) as ->.
  { rewrite blen_cons, Hbuf, app_assoc. apply drop_app_length'. rewrite length_app.
    unfold blen in *. cbn [length head]. lia. }
  rewrite Hl. destruct (Z.ltb_spec (i_width img * i_height img * i_bpp img) (i_width img * i_height img * i_bpp img)); [lia |].
  f_equal. unfold subarray. rewrite drop_0, take_ge by (unfold blen in *; lia). destruct img; cbn in *. by subst.
Qed.

(** ** The theorems *)

(** A page packed for the printer unpacks to the page, by the decoder the
    raster format describes. *)
Theorem packPage_unpackPage img n :
  0 ≤ i_height img → 0 < n → 0 < unit_of img → row_of img = n * unit_of img →
  blen (i_data img) = i_height img * row_of img →
  ∃ packed, packPage img = Ok packed ∧
    unpackPage (unit_of img) n (i_height img) packed = Some (i_data img, []).
Proof.
  intros Hh Hn Hu Hrow Hl. unfold packPage, unpackPage.
  destruct (page_loop_spec (i_data img) (row_of img) (unit_of img) n (i_height img) Hu Hn Hrow Hh Hl
              (Z.to_nat (i_height img)) 0) as (packed & -> & Hp); [lia | lia |].
  exists packed. split; [done |]. specialize (Hp (Z.to_nat (i_height img)) [] ltac:(lia)).
  by rewrite app_nil_r, Z.sub_0_r in Hp.
Qed.

Lemma packPage_unpackPage_witness :
  packPage (Img 3 3 3 None [1;2;3;1;2;3;9;9;9; 1;2;3;1;2;3;9;9;9; 0;0;0;1;1;1;2;2;2])
    = Ok [1; 1;1;2;3; 0;9;9;9; 0; 254;0;0;0;1;1;1;2;2;2] ∧
  ∃ packed, packPage (Img 3 3 3 None [1;2;3;1;2;3;9;9;9; 1;2;3;1;2;3;9;9;9; 0;0;0;1;1;1;2;2;2]) = Ok packed ∧
    unpackPage 3 3 3 packed = Some ([1;2;3;1;2;3;9;9;9; 1;2;3;1;2;3;9;9;9; 0;0;0;1;1;1;2;2;2], []).
Proof.
  split; [by vm_compute |].
  apply (packPage_unpackPage (Img 3 3 3 None [1;2;3;1;2;3;9;9;9; 1;2;3;1;2;3;9;9;9; 0;0;0;1;1;1;2;2;2]) 3);
    by vm_compute.
Defined.

(** Turning a page for the printer's orientation moves every pixel to the
    place the rotation says and loses none. *)
Theorem turned_pixels img x y c :
  image_ok img → within img x y c →
  px (rotate90 img) y (i_width img - 1 - x) c = px img x y c ∧
  px (backSide img BackRotated) (i_width img - 1 - x) (i_height img - 1 - y) c = px img x y c ∧
  px (backSide img BackFlipped) x (i_height img - 1 - y) c = px img x y c ∧
  image_ok (rotate90 img) ∧ ∀ back, image_ok (backSide img back).
Proof.
  intros Hok Hin. split_and!; [by apply rotate90_px | by apply rotated_px | by apply flipped_px
    | by apply rotate90_ok | intros back; by apply backSide_image].
Qed.

Lemma turned_pixels_witness :
  px (rotate90 (Img 3 2 1 None [1;2;3;4;5;6])) 1 2 0 = Some 4 ∧
  px (Img 3 2 1 None [1;2;3;4;5;6]) 0 1 0 = Some 4.
Proof.
  destruct (turned_pixels (Img 3 2 1 None [1;2;3;4;5;6]) 0 1 0) as [H _];
    [repeat split; by vm_compute | repeat split; by vm_compute |].
  split; [exact H | reflexivity].
Defined.

Theorem parsePnm_rendered img :
  image_ok img → i_bpp img = 1 ∨ i_bpp img = 3 → i_row img = None →
  i_width img < 1000000 → i_height img < 1000000 →
  parsePnm (rendered img) = Ok img.
Proof. apply parsePnm_reads. Qed.

Lemma parsePnm_rendered_witness :
  rendered (Img 2 1 1 None [7; 8]) = [80; 53; 10; 50; 32; 49; 10; 50; 53; 53; 10; 7; 8] ∧
  parsePnm (rendered (Img 2 1 1 None [7; 8])) = Ok (Img 2 1 1 None [7; 8]).
Proof.
  split; [reflexivity |].
  apply (parsePnm_rendered (Img 2 1 1 None [7; 8])); [repeat split; by vm_compute | by left | done | done | done].
Defined.
