(* ===== verification/EdgeConstants.v ===== *)
(** * src/edge/constants.js

    The limits of the edge runtime and the two names that cross the protocol:
    plugin ids and versions. *)

From S2P Require Import Prelude JsBuffer JsValues.

Local Open Scope Z_scope.

Module LIMITS.
Definition frameBytes : Z := 64 * 1024.
Definition callTimeoutMaxMs : Z := 30000.
Definition callTimeoutDefaultMs : Z := 30000.
Definition maxPlugins : Z := 32.
Definition packageBytes : Z := 20 * 1024 * 1024.
Definition unpackedBytes : Z := 50 * 1024 * 1024.
Definition fileCount : Z := 1000.
Definition pathLength : Z := 200.
Definition pathDepth : Z := 12.
Definition openCallsPerPlugin : Z := 32.
Definition eventsPerSec : Z := 50.
Definition logsPerSec : Z := 20.
Definition logLineBytes : Z := 2048.
Definition manifestBytes : Z := 256 * 1024.
Definition storeBytes : Z := 1024 * 1024.
Definition hostCallsPerPlugin : Z := 64.
Definition httpRequestBytes : Z := 1024 * 1024.
Definition httpResponseBytes : Z := 5 * 1024 * 1024.
Definition httpTimeoutMaxMs : Z := 30000.
Definition udpSocketsPerPlugin : Z := 16.
Definition udpDatagramBytes : Z := 8192.
Definition tcpSocketsPerPlugin : Z := 32.
Definition tcpWriteBufferBytes : Z := 1024 * 1024.
Definition mdnsBrowsesPerPlugin : Z := 8.
Definition memoryMbMin : Z := 16.
Definition memoryMbMax : Z := 256.
Definition memoryMbDefault : Z := 48.
Definition mqttSubscriptionsPerPlugin : Z := 64.
Definition mqttPayloadBytes : Z := 256 * 1024.
End LIMITS.

(** Restarts after a crash: the last value repeats. *)
Definition RESTART_BACKOFF_MS : list Z := [1000; 2000; 5000; 15000; 30000; 60000; 300000].

Definition str_len (s : jstr) : Z := Z.of_nat (length s).
Definition is_alnum (c : Z) : bool := is_digit c || is_lower c || is_upper c.
Definition lower_alnum (c : Z) : bool := is_digit c || is_lower c.

(** [/^[a-z0-9]+(?:-[a-z0-9]+)*$/]: non-empty parts between hyphens *)
Definition ID_RE (s : jstr) : bool :=
  forallb (λ p, nonempty p && forallb lower_alnum p) (split_on 45 s).

Definition validId (s : jstr) : bool :=
  (2 <=? str_len s) && (str_len s <=? 64) && ID_RE s.

Definition assertId (id : jstr) : res jstr :=
  if validId id then Ok id else Throw "invalid plugin id".

(** [/^\d+/]: the digits in front and the rest *)
Fixpoint take_digits (s : jstr) : jstr * jstr :=
  match s with
  | c :: r => if is_digit c then let '(d, r) := take_digits r in (c :: d, r) else ([], s)
  | [] => ([], [])
  end.

(** [/^(\d+)\.(\d+)\.(\d+)/]: the three numbers and what follows them *)
Definition three_numbers (s : jstr) : option (jstr * jstr * jstr * jstr) :=
  match take_digits s with
  | (a, 46 :: s) =>
      match take_digits s with
      | (b, 46 :: s) =>
          let '(c, s) := take_digits s in
          if nonempty a && nonempty b && nonempty c then Some (a, b, c, s) else None
      | _ => None
      end
  | _ => None
  end.

(** [[0-9A-Za-z.-]] *)
Definition version_unit (c : Z) : bool := is_alnum c || (c =? 46) || (c =? 45).

Definition VERSION_RE (s : jstr) : bool :=
  match three_numbers s with
  | Some (_, _, _, []) => true
  | Some (_, _, _, c :: r) =>
      ((c =? 45) || (c =? 43)) && forallb version_unit r && (1 <=? str_len r) && (str_len r <=? 40)
  | None => false
  end.

Definition validVersion (v : jstr) : bool := (str_len v <=? 64) && VERSION_RE v.

Definition assertVersion (v : jstr) : res jstr :=
  if validVersion v then Ok v else Throw "invalid plugin version".
