(* ===== verification/Gcplugin.v ===== *)
(** * src/edge/gcplugin.js

    The package format of plugins: paths, writing a package and reading it
    with every check of the reader. *)

From S2P Require Import Prelude JsBuffer JsMap JsValues EdgeConstants.

Local Open Scope Z_scope.

Definition MAGIC : list Z := [71; 67; 80; 76; 85; 71; 73; 78; 0; 1].
Definition path_sep : Z := 47.

(** [/^[A-Za-z0-9_-][A-Za-z0-9._-]{0,99}$/] *)
Definition segment_unit (c : Z) : bool := is_alnum c || (c =? 95) || (c =? 45).
Definition SEGMENT_RE (s : jstr) : bool :=
  match s with
  | c :: r => segment_unit c && forallb (λ c, segment_unit c || (c =? 46)) r && (str_len r <=? 99)
  | [] => false
  end.

Definition checkPath (p : jstr) : res jstr :=
  if negb (nonempty p) || (LIMITS.pathLength <? str_len p) then Throw "bad_path"
  else if starts_with [path_sep] p || includes 92 p || includes 0 p then Throw "bad_path"
  else
    let segs := split_on path_sep p in
    if LIMITS.pathDepth <? Z.of_nat (length segs) then Throw "bad_path"
    else if existsb (λ s, bool_decide (s = js ".") || bool_decide (s = js "..") || negb (SEGMENT_RE s)) segs
    then Throw "bad_path"
    else Ok p.

Abbreviation file := (jstr * list Z)%type.

(** ** Writing *)

Fixpoint check_paths (files : list file) : res (list file) :=
  match files with
  | [] => Ok []
  | (p, d) :: r => p ← checkPath p; r ← check_paths r; Ok ((p, d) :: r)
  end.

Definition encode_entry (f : file) : res (list Z) :=
  let name := utf8_encode f.1 in
  h ← writeUInt16BE (alloc 2) (blen name) 0;
  s ← writeUInt32BE (alloc 4) (blen f.2) 0;
  Ok (h ++ name ++ s ++ f.2).

Fixpoint encode_entries (files : list file) : res (list Z) :=
  match files with
  | [] => Ok (alloc 2)
  | f :: r => e ← encode_entry f; r ← encode_entries r; Ok (e ++ r)
  end.

Definition encode_raw (files : list file) : res (list Z) :=
  l ← check_paths files;
  b ← encode_entries (sort_by fst l);
  Ok (MAGIC ++ b).

(** ** Reading *)

Inductive gunzipped := Gunzipped (raw : list Z) | GunzipTooLarge | GunzipFailed.

Section Package.
Context `{Unicode}.
(** [zlib.gzipSync] and [zlib.gunzipSync] with [maxOutputLength]. *)
Context (gzip : list Z → list Z) (gunzip : list Z → Z → gunzipped).

Definition encode (files : list file) : res (list Z) := gzip <$> encode_raw files.

(** The files read so far, the lower-case names and the bytes of the files. *)
Record reading := Reading { rd_files : list file; rd_seen : list jstr; rd_total : Z }.

Definition damaged : string := "corrupt".
Definition duplicate : string := "duplicate".
Definition too_large : string := "too_large".
Definition not_a_package : string := "not_a_package".

(** [for (;;)]: one entry after the other; the state and the offset at the end. *)
Fixpoint read_entries (fuel : nat) (raw : list Z) (off : Z) (st : reading) : res (reading * Z) :=
  match fuel with
  | O => NoFuel
  | S fuel =>
      if blen raw <? off + 2 then Throw damaged
      else
        nameLen ← readUInt16BE raw off;
        let off := off + 2 in
        if nameLen =? 0 then Ok (st, off)
        else if (LIMITS.pathLength <? nameLen) || (blen raw <? off + nameLen + 4) then Throw damaged
        else
          let name := utf8_decode (subarray raw off (off + nameLen)) in
          let off := off + nameLen in
          _ ← checkPath name;
          size ← readUInt32BE raw off;
          let off := off + 4 in
          if blen raw <? off + size then Throw damaged
          else
            let total := rd_total st + size in
            if LIMITS.unpackedBytes <? total then Throw too_large
            else if bool_decide (toLowerCase name ∈ rd_seen st) then Throw duplicate
            else
              let files := map_set (rd_files st) name (subarray raw off (off + size)) in
              if LIMITS.fileCount <? map_size files then Throw "too_many_files"
              else read_entries fuel raw (off + size) (Reading files (rd_seen st ++ [toLowerCase name]) total)
  end.

(** [segs.slice(0, i).join('/').toLowerCase()] for [1 <= i < segs.length] *)
Definition folders (name : jstr) : list jstr :=
  let segs := split_on path_sep name in
  (λ i, toLowerCase (join path_sep (take i segs))) <$> seq 1 (length segs - 1).

Definition decode (buf : list Z) : res (list file) :=
  if blen buf <? 20 then Throw not_a_package
  else if LIMITS.packageBytes <? blen buf then Throw too_large
  else if negb (byte_or0 buf 0 =? 31) || negb (byte_or0 buf 1 =? 139) then Throw not_a_package
  else
    match gunzip buf (LIMITS.unpackedBytes + 64 * 1024 + LIMITS.fileCount * (LIMITS.pathLength + 6)) with
    | GunzipTooLarge => Throw too_large
    | GunzipFailed => Throw damaged
    | Gunzipped raw =>
        if (blen raw <? blen MAGIC + 2) || negb (bool_decide (subarray raw 0 (blen MAGIC) = MAGIC))
        then Throw not_a_package
        else
          r ← read_entries (S (length raw)) raw (blen MAGIC) (Reading [] [] 0);
          if negb (r.2 =? blen raw) then Throw damaged
          else if existsb (λ f, existsb (λ d, bool_decide (d ∈ rd_seen r.1)) (folders f.1)) (rd_files r.1)
          then Throw "bad_path"
          else Ok (rd_files r.1)
    end.
End Package.

(** * Properties of the package format

    What [decode] accepts is safe to unpack, and what [encode] writes is read
    back, sorted by path. *)

(** ** Paths *)

Definition path_ok (p : jstr) : Prop := checkPath p = Ok p.

Lemma checkPath_Ok p q : checkPath p = Ok q → q = p ∧ path_ok p.
Proof. unfold path_ok, checkPath. repeat (case_match; try done). naive_solver. Qed.

Lemma segment_ascii s : SEGMENT_RE s = true → is_ascii s ∧ nonempty s = true.
Proof.
  destruct s as [|c s]; [done |]. cbn [SEGMENT_RE]. intros [[Hc Hs]%andb_true_iff _]%andb_true_iff.
  split; [|done]. constructor.
  - unfold segment_unit, is_alnum, is_digit, is_lower, is_upper in Hc. lia.
  - apply Forall_forall. intros d Hd%list_elem_of_In. eapply forallb_forall in Hs; [|done].
    unfold segment_unit, is_alnum, is_digit, is_lower, is_upper in Hs. lia.
Qed.

Lemma join_ascii sep l : 0 ≤ sep < 128 → Forall is_ascii l → is_ascii (join sep l).
Proof.
  intros Hsep. induction 1 as [|s l Hs Hl IH]; [constructor |]. destruct l as [|t l]; [done |].
  cbn [join]. apply Forall_app_2; [done |]. by constructor.
Qed.

Lemma path_ok_ascii p : path_ok p → is_ascii p ∧ 1 ≤ blen p ≤ 200.
Proof.
  unfold path_ok, checkPath, str_len, LIMITS.pathLength, blen.
  destruct p as [|c p]; [done |]. destruct (Z.ltb_spec 200 (Z.of_nat (length (c :: p)))); [done |].
  cbn [nonempty negb orb]. destruct (_ || _ || _); [done |]. destruct (_ <? _); [done |].
  destruct (existsb _ _) eqn:He; [done |]. intros _. split; [| cbn [length] in *; lia].
  rewrite <- (join_split_on path_sep (c :: p)). apply join_ascii; [done |].
  apply Forall_forall. intros s Hs%list_elem_of_In.
  destruct (SEGMENT_RE s) eqn:Hre; [by apply segment_ascii |].
  exfalso. apply not_true_iff_false in He. apply He, existsb_exists. exists s. split; [done |].
  rewrite Hre. by rewrite !orb_true_r.
Qed.

(** ** What the reader accepts *)

Section Facts.
Context `{Unicode}.

Definition lower_names (files : list file) : list jstr := (λ f, toLowerCase f.1) <$> files.
Definition total_size (files : list file) : Z := foldr (λ f n, blen f.2 + n) 0 files.

(** What makes a set of files safe to unpack. *)
Record package_ok (files : list file) : Prop := {
  pk_paths : Forall (λ f, path_ok f.1) files;
  pk_distinct : NoDup (lower_names files);
  pk_folders : ∀ f d, f ∈ files → d ∈ folders f.1 → d ∉ lower_names files;
  pk_count : Z.of_nat (length files) ≤ LIMITS.fileCount;
  pk_total : total_size files ≤ LIMITS.unpackedBytes
}.

Lemma total_size_app l k : total_size (l ++ k) = total_size l + total_size k.
Proof. unfold total_size. induction l as [|f l IH]; [done |]. cbn [foldr app]. lia. Qed.

(** The invariant of the loop that reads the entries. *)
Record reading_ok (st : reading) : Prop := {
  ro_paths : Forall (λ f, path_ok f.1) (rd_files st);
  ro_seen : rd_seen st = lower_names (rd_files st);
  ro_distinct : NoDup (rd_seen st);
  ro_count : Z.of_nat (length (rd_files st)) ≤ LIMITS.fileCount;
  ro_total : rd_total st = total_size (rd_files st);
  ro_limit : rd_total st ≤ LIMITS.unpackedBytes
}.

Lemma not_seen_new files name :
  toLowerCase name ∉ lower_names files → name ∉ files.*1.
Proof.
  intros Hn. intros (f & -> & Hf)%list_elem_of_fmap. apply Hn.
  unfold lower_names. apply list_elem_of_fmap. by exists f.
Qed.

Lemma reading_step st name data :
  reading_ok st → path_ok name → toLowerCase name ∉ rd_seen st →
  map_size (map_set (rd_files st) name data) ≤ LIMITS.fileCount →
  rd_total st + blen data ≤ LIMITS.unpackedBytes →
  map_set (rd_files st) name data = rd_files st ++ [(name, data)] ∧
  reading_ok (Reading (map_set (rd_files st) name data) (rd_seen st ++ [toLowerCase name]) (rd_total st + blen data)).
Proof.
  intros [Hp Hs Hd Hc Ht Hl] Hname Hnew Hcount Htotal.
  assert (map_set (rd_files st) name data = rd_files st ++ [(name, data)]) as E
    by (apply map_set_new, not_seen_new; by rewrite <- Hs).
  split; [done |]. unfold map_size in Hcount. rewrite E in *. split; cbn.
  - apply Forall_app_2; [done |]. by constructor.
  - unfold lower_names. by rewrite fmap_app, Hs.
  - apply NoDup_app. split_and!; [done | | apply NoDup_singleton]. intros x Hx ->%list_elem_of_singleton. done.
  - done.
  - rewrite total_size_app, Ht. unfold total_size. cbn [foldr snd]. lia.
  - done.
Qed.

Lemma read_entries_ok fuel raw off st r :
  is_bytes raw → reading_ok st → 0 ≤ off → read_entries fuel raw off st = Ok r → reading_ok r.1.
Proof.
  intros Hraw. revert off st. induction fuel as [|fuel IH]; intros off st Hst Hoff; cbn [read_entries]; [done |].
  destruct (Z.ltb_spec (blen raw) (off + 2)); [done |]. intros Hr. res_inv.
  rename v into nameLen. destruct (Z.eqb_spec nameLen 0); [by simplify_eq |].
  apply readUInt16BE_range in Hm; [|done].
  destruct ((LIMITS.pathLength <? nameLen) || (blen raw <? off + 2 + nameLen + 4)) eqn:Hb; [done |]. res_inv.
  rename v0 into size. apply readUInt32BE_range in Hm1; [|done].
  destruct (Z.ltb_spec (blen raw) (off + 2 + nameLen + 4 + size)); [done |].
  destruct (Z.ltb_spec LIMITS.unpackedBytes (rd_total st + size)); [done |].
  case_bool_decide as Hseen; [done |].
  set (name := utf8_decode _) in *. set (data := subarray raw (off + 2 + nameLen + 4) _) in *.
  assert (blen data = size) as Hdata.
  { unfold data. rewrite blen_subarray; lia. }
  destruct (Z.ltb_spec LIMITS.fileCount (map_size (map_set (rd_files st) name data))); [done |].
  apply checkPath_Ok in Hm0 as [-> Hpath]. rewrite <- Hdata in Hr.
  eapply IH, Hr; [| lia]. apply reading_step; [done.. | lia].
Qed.
Lemma checkPath_fueled p : fueled (checkPath p).
Proof. unfold checkPath. repeat case_match; done. Qed.

Lemma read_entries_fueled fuel raw off st :
  is_bytes raw → 0 ≤ off ≤ blen raw → blen raw - off < Z.of_nat fuel → fueled (read_entries fuel raw off st).
Proof.
  intros Hraw. revert off st. induction fuel as [|fuel IH]; intros off st Hoff Hf; [lia |]. cbn [read_entries].
  case_match; [done |]. apply fueled_bind; [auto with fuel | intros n Hn].
  apply readUInt16BE_range in Hn; [|done]. case_match; [done |].
  destruct ((LIMITS.pathLength <? n) || (blen raw <? off + 2 + n + 4)) eqn:Hb; [done |].
  apply fueled_bind; [apply checkPath_fueled | intros _ _].
  apply fueled_bind; [auto with fuel | intros size Hsize]. apply readUInt32BE_range in Hsize; [|done].
  destruct (Z.ltb_spec (blen raw) (off + 2 + n + 4 + size)); [done |].
  repeat (case_match; [done |]). apply IH; lia.
Qed.

(** ** Writing and reading back *)

Definition entry (f : file) : list Z := u16 (blen f.1) ++ f.1 ++ u32 (blen f.2) ++ f.2.

Lemma entries_cons f l : mjoin (entry <$> f :: l) = entry f ++ mjoin (entry <$> l).
Proof. done. Qed.

Lemma encode_entry_wire f : path_ok f.1 → blen f.2 < 4294967296 → encode_entry f = Ok (entry f).
Proof.
  intros [Ha Hl]%path_ok_ascii Hs. unfold encode_entry. rewrite utf8_encode_ascii by done.
  unfold writeUInt16BE, writeUInt32BE. pose proof (blen_nonneg f.2).
  destruct (Z.leb_spec 0 (blen f.1)), (Z.ltb_spec (blen f.1) 65536); try lia.
  destruct (Z.leb_spec 0 (blen f.2)), (Z.ltb_spec (blen f.2) 4294967296); try lia. done.
Qed.

Lemma total_size_nonneg files : 0 ≤ total_size files.
Proof. unfold total_size. induction files as [|f l IH]; [done |]. cbn [foldr]. pose proof (blen_nonneg f.2). lia. Qed.

Lemma total_size_elem files f : f ∈ files → blen f.2 ≤ total_size files.
Proof.
  induction files as [|g l IH]; [by intros ?%elem_of_nil |]. intros [->|Hf]%elem_of_cons; cbn [total_size foldr].
  - pose proof (total_size_nonneg l). unfold total_size in *. lia.
  - pose proof (blen_nonneg g.2). specialize (IH Hf). unfold total_size in *. lia.
Qed.

Lemma check_paths_ok files : Forall (λ f, path_ok f.1) files → check_paths files = Ok files.
Proof.
  induction 1 as [|[p d] l Hp Hl IH]; [done |]. cbn [check_paths]. cbn in Hp.
  rewrite Hp. cbn. by rewrite IH.
Qed.

Lemma encode_entries_wire files : Forall (λ f, path_ok f.1 ∧ blen f.2 < 4294967296) files →
  encode_entries files = Ok (mjoin (entry <$> files) ++ [0; 0]).
Proof.
  induction 1 as [|f l [Hp Hd] Hl IH]; [done |]. cbn [encode_entries].
  rewrite encode_entry_wire by done. cbn [mbind res_bind]. rewrite IH. csimpl. by rewrite app_assoc.
Qed.

Lemma package_ok_perm files files' : files ≡ₚ files' → package_ok files → package_ok files'.
Proof.
  intros E [Hp Hd Hf Hc Ht]. assert (lower_names files ≡ₚ lower_names files') as En by (unfold lower_names; by rewrite E).
  split.
  - by rewrite <- E.
  - by rewrite <- En.
  - intros f d Hin Hd'. rewrite <- En. apply (Hf f); [by rewrite E | done].
  - by rewrite <- E.
  - assert (total_size files' = total_size files) as ->; [|done]. clear -E. induction E; cbn [total_size foldr] in *;
      unfold total_size in *; lia.
Qed.

(** What stands where, behind [pre]. *)
Lemma entry_reads pre name data rest :
  let raw := pre ++ entry (name, data) ++ rest in
  let o := blen pre + 2 + blen name in
  blen raw = o + 4 + blen data + blen rest ∧
  readUInt16BE raw (blen pre) = Ok (blen name) ∧ subarray raw (blen pre + 2) o = name ∧
  readUInt32BE raw o = Ok (blen data) ∧ subarray raw (o + 4) (o + 4 + blen data) = data.
Proof.
  intros raw o. unfold raw, o, entry. cbn [fst snd]. rewrite <- !app_assoc. split_and!.
  - rewrite !blen_app, blen_u16, blen_u32. lia.
  - by apply read16_at.
  - rewrite (app_assoc pre). apply subarray_middle; rewrite blen_app, blen_u16; lia.
  - rewrite (app_assoc pre), (app_assoc _ name). apply read32_at. rewrite !blen_app, blen_u16. lia.
  - rewrite (app_assoc pre), (app_assoc _ name), (app_assoc _ (u32 _)).
    apply subarray_middle; rewrite !blen_app, blen_u16, blen_u32; lia.
Qed.

(** What a package that goes on with [(name, data)] says about this file. *)
Lemma package_next st name data files :
  reading_ok st → package_ok (rd_files st ++ (name, data) :: files) →
  path_ok name ∧ (toLowerCase name ∉ rd_seen st) ∧ rd_total st + blen data ≤ LIMITS.unpackedBytes ∧
  blen data < 4294967296 ∧ map_size (map_set (rd_files st) name data) ≤ LIMITS.fileCount.
Proof.
  intros Hst [Hp Hd Hfo Hc Ht].
  assert (toLowerCase name ∉ rd_seen st) as Hnew.
  { rewrite (ro_seen _ Hst). unfold lower_names in *. rewrite fmap_app in Hd. apply NoDup_app in Hd as (_ & Hd & _).
    intros Hin. by apply (Hd _ Hin); left. }
  rewrite total_size_app in Ht. pose proof (total_size_nonneg files) as Hn. pose proof (blen_nonneg data).
  unfold total_size at 2 in Ht. cbn [foldr snd] in Ht. fold (total_size files) in Ht.
  pose proof (total_size_nonneg (rd_files st)). rewrite (ro_total _ Hst). split_and!.
  - apply Forall_app in Hp as [_ Hp]. by inversion Hp.
  - done.
  - lia.
  - unfold LIMITS.unpackedBytes in *. lia.
  - unfold map_size. rewrite map_set_new by (apply not_seen_new; by rewrite <- (ro_seen _ Hst)).
    rewrite length_app in *. cbn [length] in *. lia.
Qed.

(** The loop reads what the writer has written behind [pre]. *)
Lemma read_entries_written fuel files pre st :
  reading_ok st → package_ok (rd_files st ++ files) → (length files < fuel)%nat →
  read_entries fuel (pre ++ mjoin (entry <$> files) ++ [0; 0]) (blen pre) st
  = Ok (Reading (rd_files st ++ files) (lower_names (rd_files st ++ files)) (total_size (rd_files st ++ files)),
        blen (pre ++ mjoin (entry <$> files) ++ [0; 0])).
Proof.
  revert fuel pre st. induction files as [|[name data] files IH]; intros fuel pre st Hst Hpk Hf;
    (destruct fuel as [|fuel]; [cbn [length] in Hf; lia |]); cbn [read_entries].
  - rewrite app_nil_r. cbn [fmap list_fmap mjoin list_join app].
    destruct (Z.ltb_spec (blen (pre ++ [0; 0])) (blen pre + 2)) as [Hb|_]; [rewrite blen_app in Hb; unfold blen in Hb; cbn [length] in Hb; lia |].
    rewrite (read16_at pre 0 []) by done. cbn [mbind res_bind]. rewrite Z.eqb_refl.
    destruct Hst as [? Hs ? ? Ht ?]. rewrite <- Hs, <- Ht. destruct st; cbn. f_equal. f_equal. rewrite blen_app. done.
  - destruct (package_next _ _ _ _ Hst Hpk) as (Hname & Hnew & Htotal & Hsmall & Hcount).
    pose proof (path_ok_ascii _ Hname) as [Hascii Hlen]. pose proof (blen_nonneg data).
    set (rest := mjoin (entry <$> files) ++ [0; 0]).
    assert (mjoin (entry <$> (name, data) :: files) ++ [0; 0] = entry (name, data) ++ rest) as ->
      by (unfold rest; rewrite entries_cons; by rewrite <- app_assoc).
    destruct (entry_reads pre name data rest) as (Hraw & Hr1 & Hr2 & Hr3 & Hr4).
    set (raw := pre ++ _) in *. pose proof (blen_nonneg rest).
    destruct (Z.ltb_spec (blen raw) (blen pre + 2)); [lia |]. rewrite Hr1. cbn [mbind res_bind].
    destruct (Z.eqb_spec (blen name) 0); [lia |].
    destruct (Z.ltb_spec LIMITS.pathLength (blen name)); [unfold LIMITS.pathLength in *; lia |].
    destruct (Z.ltb_spec (blen raw) (blen pre + 2 + blen name + 4)); [lia |]. cbn [orb].
    rewrite Hr2, utf8_decode_ascii, Hname by done. cbn [mbind res_bind]. rewrite Hr3. cbn [mbind res_bind].
    destruct (Z.ltb_spec (blen raw) (blen pre + 2 + blen name + 4 + blen data)); [lia |].
    destruct (Z.ltb_spec LIMITS.unpackedBytes (rd_total st + blen data)); [lia |].
    rewrite Hr4, bool_decide_false by done.
    destruct (Z.ltb_spec LIMITS.fileCount (map_size (map_set (rd_files st) name data))); [lia |].
    destruct (reading_step st name data) as [E Hnext]; [done.. |].
    specialize (IH fuel (pre ++ entry (name, data)) _ Hnext).
    cbn [rd_files] in IH. rewrite E in *. rewrite <- !app_assoc in IH. cbn [app] in IH. fold rest in IH.
    assert (blen (pre ++ entry (name, data)) = blen pre + 2 + blen name + 4 + blen data) as El
      by (unfold entry; rewrite !blen_app, blen_u16, blen_u32; cbn [fst snd]; lia).
    rewrite El in IH. apply IH; [done | cbn [length] in Hf; lia].
Qed.

(** A package fits the bound that [decode] gives to [gunzip]. *)
Lemma entries_length files : Forall (λ f, path_ok f.1) files →
  Z.of_nat (length files) ≤ blen (mjoin (entry <$> files)) ≤ total_size files + Z.of_nat (length files) * 206.
Proof.
  induction 1 as [|f l Hf Hl IH]; [done |]. rewrite entries_cons, blen_app.
  apply path_ok_ascii in Hf as [_ Hf]. pose proof (blen_nonneg f.2).
  assert (blen (entry f) = 6 + blen f.1 + blen f.2) as -> by (unfold entry; rewrite !blen_app, blen_u16, blen_u32; lia).
  unfold total_size in *. cbn [foldr length]. lia.
Qed.

Lemma newReading_ok : reading_ok (Reading [] [] 0).
Proof. split; try done; constructor. Qed.

Lemma entries_bytes files : Forall (λ f, path_ok f.1 ∧ is_bytes f.2 ∧ blen f.2 < 4294967296) files →
  is_bytes (mjoin (entry <$> files)).
Proof.
  induction 1 as [|f l (Hp & Hd & Hs) Hl IH]; [constructor |].
  rewrite entries_cons. apply path_ok_ascii in Hp as [Ha Hp].
  pose proof (blen_nonneg f.2). unfold entry. rewrite !Forall_app.
  split_and!; [apply u16_bytes; lia | | apply u32_bytes; lia | done..].
  eapply Forall_impl; [done |]. intros x Hx. unfold is_byte. cbn in Hx. lia.
Qed.
End Facts.

(** ** The theorems *)

Section Theorems.
Context `{Unicode} (gzip : list Z → list Z) (gunzip : list Z → Z → gunzipped).
(** [gunzip] gives bytes. *)
Context (gunzip_bytes : ∀ buf max raw, gunzip buf max = Gunzipped raw → is_bytes raw).

(** C31: whatever bytes a package has, unpacking it ends, and what it yields
    is safe to write: clean relative paths, no file under another, no file
    twice, within the limits of number and size. *)
Theorem decode_safe buf :
  decode gunzip buf ≠ NoFuel ∧ ∀ files, decode gunzip buf = Ok files → package_ok files.
Proof.
  unfold decode. do 2 (case_match; [done |]). destruct (_ || _); [done |].
  destruct (gunzip buf _) as [raw| |] eqn:Hg; [|done..]. apply gunzip_bytes in Hg.
  destruct (_ || _) eqn:Hm; [done |]. apply orb_false_iff in Hm as [Hm _]. apply Z.ltb_ge in Hm.
  change (blen MAGIC) with 10 in *.
  pose proof (read_entries_fueled (S (length raw)) raw 10 (Reading [] [] 0) Hg) as Hf.
  destruct (read_entries _ raw _ _) as [r| |] eqn:Hr; cbn [mbind res_bind];
    [| done | destruct Hf; [lia | unfold blen in *; lia | done]].
  apply read_entries_ok in Hr as [Hp Hs Hd Hc Ht Hl]; [| done | apply newReading_ok | lia].
  destruct (negb _); [done |]. destruct (existsb _ _) eqn:He; [done |]. split; [done |].
  intros files [= <-]. rewrite Hs in Hd. rewrite Ht in Hl. split; [done.. | | done | done].
  intros f d Hin Hd' Hx. apply not_true_iff_false in He. apply He, existsb_exists.
  exists f. split; [by apply list_elem_of_In |]. apply existsb_exists. exists d. rewrite Hs.
  split; [by apply list_elem_of_In | by apply bool_decide_eq_true].
Qed.

(** Packing files and unpacking the package gives the files back. *)
Theorem decode_encode files :
  (∀ raw max, is_bytes raw → blen raw ≤ max → gunzip (gzip raw) max = Gunzipped raw) →
  (∀ raw, ∃ r, gzip raw = 31 :: 139 :: r ∧ 18 ≤ blen r) →
  package_ok files → Forall (λ f, is_bytes f.2) files →
  ∃ buf, encode gzip files = Ok buf ∧
    (blen buf ≤ LIMITS.packageBytes → decode gunzip buf = Ok (sort_by fst files)).
Proof.
  intros Hgz Hhead Hpk Hbytes. pose proof (sort_by_perm fst files) as Hperm.
  pose proof (package_ok_perm _ _ (symmetry Hperm) Hpk) as Hpk'. pose proof Hpk' as [Hp Hd Hf Hc Ht].
  assert (Forall (λ f, path_ok f.1 ∧ is_bytes f.2 ∧ blen f.2 < 4294967296) (sort_by fst files)) as Hall.
  { apply Forall_forall. intros f Hin. split_and!.
    - by eapply Forall_forall in Hp.
    - rewrite Hperm in Hin. by eapply Forall_forall in Hbytes.
    - apply total_size_elem in Hin. unfold LIMITS.unpackedBytes in Ht. lia. }
  unfold encode, encode_raw. rewrite check_paths_ok by apply Hpk. cbn [mbind res_bind].
  rewrite encode_entries_wire by (eapply Forall_impl; [done | cbn; tauto]). cbn [mbind res_bind fmap res_fmap].
  eexists. split; [done |]. intros Hsize. unfold decode. set (raw := MAGIC ++ _) in *.
  destruct (Hhead raw) as (r & Hr & Hlen). pose proof (blen_nonneg r).
  assert (blen (gzip raw) = 2 + blen r) as Hgl by (rewrite Hr, !blen_cons; lia).
  destruct (Z.ltb_spec (blen (gzip raw)) 20); [lia |].
  destruct (Z.ltb_spec LIMITS.packageBytes (blen (gzip raw))); [lia |].
  assert (byte_or0 (gzip raw) 0 = 31 ∧ byte_or0 (gzip raw) 1 = 139) as [-> ->] by (by rewrite Hr).
  cbn [negb orb Z.eqb Pos.eqb].
  set (w := mjoin (entry <$> sort_by fst files) ++ [0; 0]) in *.
  assert (blen raw = 10 + blen w) as Hraw by (unfold raw; by rewrite blen_app).
  assert (2 ≤ blen w) by (unfold w; rewrite blen_app; pose proof (blen_nonneg (mjoin (entry <$> sort_by fst files)));
    change (blen [0; 0]) with 2; lia).
  pose proof (entries_length _ Hp) as Hel. assert (blen w = blen (mjoin (entry <$> sort_by fst files)) + 2) as Hw
    by (unfold w; by rewrite blen_app).
  assert (is_bytes raw) as Hrb.
  { unfold raw, w. apply Forall_app_2; [repeat constructor; unfold is_byte; lia |].
    apply Forall_app_2; [by apply entries_bytes | repeat constructor; unfold is_byte; lia]. }
  rewrite Hgz by (done || unfold LIMITS.pathLength, LIMITS.fileCount, LIMITS.unpackedBytes in *; lia).
  change (blen MAGIC) with 10. destruct (Z.ltb_spec (blen raw) (10 + 2)); [lia |].
  rewrite bool_decide_true by done. cbn [negb orb].
  pose proof (read_entries_written (S (length raw)) (sort_by fst files) MAGIC (Reading [] [] 0) newReading_ok) as Hread.
  cbn [rd_files app] in Hread. fold w raw in Hread. change (blen MAGIC) with 10 in Hread.
  rewrite Hread; [| done | unfold blen in *; lia].
  cbn [mbind res_bind fst snd rd_files rd_seen]. rewrite Z.eqb_refl. cbn [negb].
  destruct (existsb _ _) eqn:He; [|done]. apply existsb_exists in He as (f & Hin & He).
  apply existsb_exists in He as (d & Hd' & He). apply list_elem_of_In in Hin, Hd'.
  apply bool_decide_eq_true in He. by destruct (Hf f d Hin Hd').
Qed.
End Theorems.

(** A store-only compressor, on which the theorems are applied. *)
Definition store_gzip (raw : list Z) : list Z := 31 :: 139 :: replicate 18 0 ++ raw.
Definition store_gunzip (buf : list Z) (max : Z) : gunzipped :=
  let raw := drop 20 buf in
  if negb (forallb (λ b, (0 <=? b) && (b <? 256)) raw) then GunzipFailed
  else if blen raw <=? max then Gunzipped raw else GunzipTooLarge.

Lemma store_gunzip_bytes buf max raw : store_gunzip buf max = Gunzipped raw → is_bytes raw.
Proof.
  unfold store_gunzip. destruct (forallb _ _) eqn:Hf; [|done]. cbn [negb]. case_match; [|done]. intros [= <-].
  apply Forall_forall. intros b Hb%list_elem_of_In. eapply forallb_forall in Hf; [|done]. unfold is_byte. lia.
Qed.

Lemma store_gunzip_gzip raw max : is_bytes raw → blen raw ≤ max → store_gunzip (store_gzip raw) max = Gunzipped raw.
Proof.
  intros Hb Hm. unfold store_gunzip. change (drop 20 (store_gzip raw)) with raw. cbv zeta.
  assert (forallb (λ b, (0 <=? b) && (b <? 256)) raw = true) as ->.
  { apply forallb_forall. intros b Hin%list_elem_of_In. eapply Forall_forall in Hb; [|done]. unfold is_byte in Hb. lia. }
  cbn [negb]. by destruct (Z.leb_spec (blen raw) max); [|lia].
Qed.

Definition two_files : list file := [(js "plugin.json", js "{}"); (js "edge/index.js", [1; 2])].

Lemma two_files_ok : @package_ok ascii_unicode two_files.
Proof.
  split; [| | | by vm_compute | by vm_compute].
  - repeat constructor.
  - apply (bool_decide_unpack _). by vm_compute.
  - intros f d Hf Hd. repeat (apply elem_of_cons in Hf as [->|Hf]); [.. | by apply elem_of_nil in Hf].
    + vm_compute in Hd. by apply elem_of_nil in Hd.
    + vm_compute in Hd. apply list_elem_of_singleton in Hd as ->. apply (bool_decide_unpack _). by vm_compute.
Qed.

Lemma decode_safe_witness : ∃ files,
  @decode ascii_unicode store_gunzip (store_gzip (MAGIC ++ [0; 1; 97; 0; 0; 0; 2; 7; 8; 0; 0])) = Ok files ∧
  @package_ok ascii_unicode files.
Proof.
  exists [(js "a", [7; 8])].
  assert (@decode ascii_unicode store_gunzip (store_gzip (MAGIC ++ [0; 1; 97; 0; 0; 0; 2; 7; 8; 0; 0]))
          = Ok [(js "a", [7; 8])]) as E by (vm_compute; reflexivity).
  split; [exact E |]. exact (proj2 (@decode_safe ascii_unicode store_gunzip store_gunzip_bytes _) _ E).
Defined.

Lemma decode_encode_witness : ∃ buf, encode store_gzip two_files = Ok buf ∧
  (blen buf ≤ LIMITS.packageBytes →
   @decode ascii_unicode store_gunzip buf = Ok [(js "edge/index.js", [1; 2]); (js "plugin.json", js "{}")]).
Proof.
  apply (@decode_encode ascii_unicode store_gzip store_gunzip two_files).
  - exact store_gunzip_gzip.
  - intros raw. eexists. split; [reflexivity |]. change (replicate 18 0 ++ raw) with (replicate 18 0 ++ raw).
    rewrite blen_app. pose proof (blen_nonneg raw). change (blen (replicate 18 0)) with 18. lia.
  - exact two_files_ok.
  - repeat constructor; vm_compute; (done || (intros ?; discriminate)).
Defined.
