(* ===== verification/Manifest.v ===== *)
(** * src/edge/manifest.js

    The edge part of a plugin's manifest: its capabilities, what of them the
    server has approved, versions and the manifest itself.  The texts of the
    errors are not modelled, only their codes. *)

From S2P Require Import Prelude JsBuffer JsValues JsSet EdgeConstants Gcplugin Topics.

Local Open Scope Z_scope.

Definition bad_caps : string := "bad_caps".
Definition bad_manifest : string := "bad_manifest".
Definition CAP_KEYS : list jstr := js <$> ["udp"; "mdns"; "tcp"; "http"; "mqtt"; "serial"].
Definition SERIAL_NAMES : list jstr := [js "zigbee"].
Definition MDNS_GROUP : jstr := js "224.0.0.251".

(** ** Addresses and names *)

(** [\d{1,3}] with its value *)
Definition octet_digits (s : jstr) : option Z :=
  if (1 <=? str_len s) && (str_len s <=? 3) && forallb is_digit s then Some (digits_value s) else None.

Definition ipv4 (s : jstr) : option (list Z) :=
  o ← mapM octet_digits (split_on 46 s);
  if (length o =? 4)%nat && negb (existsb (λ x, 255 <? x) o) then Some o else None.

Definition multicastAllowed (g : jstr) : bool :=
  match ipv4 g with
  | Some (a :: b :: c :: _) =>
      if (a <? 224) || (239 <? a) then false
      else if (a =? 224) && (b =? 0) && (c =? 0) then bool_decide (g = MDNS_GROUP)
      else true
  | _ => false
  end.

(** [[a-z0-9](?:[a-z0-9-]{0,61}[a-z0-9])?] *)
Definition mdns_label (s : jstr) : bool :=
  match s with
  | c :: r =>
      lower_alnum c && (str_len s <=? 63) && forallb (λ c, lower_alnum c || (c =? 45)) r
      && lower_alnum (List.last s 0)
  | [] => false
  end.

(** [/^_label\._(?:tcp|udp)$/] *)
Definition MDNS_SERVICE_RE (s : jstr) : bool :=
  match s with
  | 95 :: r =>
      let n := (length r - 5)%nat in
      mdns_label (take n r) && bool_decide (drop n r = js "._tcp" ∨ drop n r = js "._udp")
  | _ => false
  end.

(** ** Capabilities *)

Record udp_caps := UdpCaps { u_ports : list Z; u_multicast : list jstr }.
Record caps := Caps {
  c_udp : option udp_caps; c_mdns : option (list jstr); c_tcp : option bool; c_http : option bool;
  c_mqtt : option (list jstr); c_serial : option (list jstr)
}.
Definition no_caps : caps := Caps None None None None None None.

(** Every element passes [ok] or the whole list is refused. *)
Definition checked {A} (ok : json → option A) (l : list json) : res (list A) :=
  of_option bad_caps (mapM ok l).

Definition list_of (max : Z) (v : json) : res (list json) :=
  match v with
  | JArr l => if max <? Z.of_nat (length l) then Throw bad_caps else Ok l
  | _ => Throw bad_caps
  end.

Definition udp_port (v : json) : option Z :=
  p ← as_int v; if (p <? 1024) || (65535 <? p) || (p =? 5353) then None else Some p.
Definition str_such (ok : jstr → bool) (v : json) : option jstr :=
  s ← as_str v; if ok s then Some s else None.

Definition udp_part (v : option json) : res (option udp_caps) :=
  match v with
  | None => Ok None
  | Some (JObj u) =>
      ports ← list_of 16 (default (JArr []) (field u (js "ports")));
      ports ← checked udp_port ports;
      groups ← list_of 16 (default (JArr []) (field u (js "multicast")));
      groups ← checked (str_such multicastAllowed) groups;
      Ok (Some (UdpCaps (uniq ports) (uniq groups)))
  | Some _ => Throw bad_caps
  end.

(** [o[k]], a list of at most 16 strings *)
Definition names_part (k : jstr) (ok : jstr → bool) (v : option json) : res (option (list jstr)) :=
  match v with
  | None => Ok None
  | Some (JObj m) =>
      match field m k with
      | Some l => l ← list_of 16 l; l ← checked (str_such ok) l; Ok (Some (uniq l))
      | None => Throw bad_caps
      end
  | Some _ => Throw bad_caps
  end.

(** [{ "lan": true|false }] and no other key *)
Definition lan_part (v : option json) : res (option bool) :=
  match v with
  | None => Ok None
  | Some (JObj m) =>
      match field m (js "lan") with
      | Some (JBool b) => if existsb (λ f, negb (bool_decide (f.1 = js "lan"))) m then Throw bad_caps else Ok (Some b)
      | _ => Throw bad_caps
      end
  | Some _ => Throw bad_caps
  end.

Definition http_part (v : option json) : res (option bool) :=
  match v with
  | Some (JObj m) => if bool_decide (is_Some (field m (js "selfSigned"))) then Throw bad_caps else lan_part v
  | _ => lan_part v
  end.

Definition serial_part (v : option json) : res (option (list jstr)) :=
  match v with
  | None => Ok None
  | Some v => l ← list_of 4 v; l ← checked (str_such (λ s, bool_decide (s ∈ SERIAL_NAMES))) l; Ok (Some (uniq l))
  end.

Definition validateCaps (v : option json) : res caps :=
  match v with
  | None | Some JNull => Ok no_caps
  | Some (JObj c) =>
      if existsb (λ f, negb (bool_decide (f.1 ∈ CAP_KEYS))) c then Throw bad_caps
      else
        udp ← udp_part (field c (js "udp"));
        mdns ← names_part (js "services") MDNS_SERVICE_RE (field c (js "mdns"));
        tcp ← lan_part (field c (js "tcp"));
        http ← http_part (field c (js "http"));
        mqtt ← names_part (js "topics") validPluginFilter (field c (js "mqtt"));
        serial ← serial_part (field c (js "serial"));
        Ok (Caps udp mdns tcp http mqtt serial)
  | Some _ => Throw bad_caps
  end.

(** [l.filter((x) => r.includes(x))] *)
Definition both {A} `{EqDecision A} (l r : list A) : list A := filter (λ x, x ∈ r) l.

(** What both sides have, and the parts only one has left out. *)
Definition meet {A} (f : A → A → A) (x y : option A) : option A :=
  match x, y with Some a, Some b => Some (f a b) | _, _ => None end.

Definition intersectCaps (m a : caps) : caps :=
  Caps (meet (λ x y, UdpCaps (both (u_ports x) (u_ports y)) (both (u_multicast x) (u_multicast y))) (c_udp m) (c_udp a))
    (meet both (c_mdns m) (c_mdns a)) (meet andb (c_tcp m) (c_tcp a)) (meet andb (c_http m) (c_http a))
    (meet both (c_mqtt m) (c_mqtt a)) (meet both (c_serial m) (c_serial a)).

(** ** Versions *)

Record semver := Semver { v_major : num; v_minor : num; v_patch : num; v_pre : option jstr }.

(** The longest prefix of version units and the rest. *)
Fixpoint take_units (s : jstr) : jstr * jstr :=
  match s with
  | c :: r => if version_unit c then let '(d, r) := take_units r in (c :: d, r) else ([], s)
  | [] => ([], [])
  end.

(** [(?:\+[0-9A-Za-z.-]+)?$] *)
Definition build_part (s : jstr) : bool :=
  match s with
  | [] => true
  | c :: r => (c =? 43) && nonempty r && forallb version_unit r
  end.

Definition parseSemver (v : jstr) : option semver :=
  match three_numbers v with
  | None => None
  | Some (a, b, c, rest) =>
      let ver := Semver (digits_num a) (digits_num b) (digits_num c) in
      match rest with
      | 45 :: r =>
          let '(pre, rest) := take_units r in
          if nonempty pre && build_part rest then Some (ver (Some pre)) else None
      | _ => if build_part rest then Some (ver None) else None
      end
  end.

(** The comparison of two numbers, [None] when they are equal. *)
Definition num_cmp (x y : num) : option Z :=
  if bool_decide (x = y) then None else Some (if num_lt x y then -1 else 1).

Definition pre_cmp (x y : option jstr) : Z :=
  match x, y with
  | None, None => 0
  | None, Some _ => 1
  | Some _, None => -1
  | Some p, Some q => if bool_decide (p = q) then 0 else if str_lt p q then -1 else 1
  end.

Definition semver_cmp (x y : semver) : Z :=
  match num_cmp (v_major x) (v_major y) with
  | Some c => c
  | None =>
      match num_cmp (v_minor x) (v_minor y) with
      | Some c => c
      | None =>
          match num_cmp (v_patch x) (v_patch y) with
          | Some c => c
          | None => pre_cmp (v_pre x) (v_pre y)
          end
      end
  end.

Definition compareVersions (a b : jstr) : res Z :=
  match parseSemver a, parseSemver b with
  | Some x, Some y => Ok (semver_cmp x y)
  | _, _ => Throw "invalid version"
  end.

(** ** The manifest *)

(** [path.posix.dirname] of a path that passed [checkPath] *)
Definition dirname (p : jstr) : jstr :=
  match reverse (split_on path_sep p) with
  | _ :: ((_ :: _) as dirs) => join path_sep (reverse dirs)
  | _ => js "."
  end.

(** [String(v || '')] where it can be a version: a string, or lists around one. *)
Fixpoint version_text (v : json) : jstr :=
  match v with
  | JStr s => s
  | JArr [v] => version_text v
  | _ => []
  end.

Record edge_manifest := EdgeManifest {
  em_id : option json; em_version : option json; em_entry : jstr; em_entryDir : jstr;
  em_minGateway : option json; em_memoryMb : Z; em_capabilities : caps
}.

(** [/\.(?:c?js)$/] *)
Definition script_name (p : jstr) : bool := ends_with (js ".js") p || ends_with (js ".cjs") p.

Definition memory_part (v : option json) : res Z :=
  match v with
  | None => Ok LIMITS.memoryMbDefault
  | Some v =>
      match as_int v with
      | Some n => if (n <? LIMITS.memoryMbMin) || (LIMITS.memoryMbMax <? n) then Throw bad_manifest else Ok n
      | None => Throw bad_manifest
      end
  end.

(** [gatewayVersion]: the version of this gateway, when it is known. *)
Definition minGateway_part (gatewayVersion : option jstr) (v : option json) : res (option json) :=
  match v with
  | None => Ok None
  | Some v =>
      if bool_decide (parseSemver (version_text v) = None) then Throw bad_manifest
      else
        match gatewayVersion with
        | Some g =>
            match compareVersions g (version_text v) with
            | Ok c => if c <? 0 then Throw "gateway_too_old" else Ok (Some v)
            | _ => Ok (Some v)
            end
        | None => Ok (Some v)
        end
  end.

Definition validateEdgeManifest (manifest : json) (gatewayVersion : option jstr) : res edge_manifest :=
  match manifest with
  | JObj m =>
      match field m (js "edge") with
      | Some (JObj e) =>
          match field e (js "entry") with
          | Some (JStr p) =>
              match checkPath p with
              | Ok entry =>
                  if negb (script_name entry) then Throw bad_manifest
                  else
                    let entryDir := dirname entry in
                    if bool_decide (entryDir = js ".") then Throw bad_manifest
                    else
                      memoryMb ← memory_part (field e (js "memoryMb"));
                      minGateway ← minGateway_part gatewayVersion (field e (js "minGateway"));
                      capabilities ← validateCaps (field e (js "capabilities"));
                      Ok (EdgeManifest (field m (js "id")) (field m (js "version")) entry entryDir
                            minGateway memoryMb capabilities)
              | _ => Throw bad_manifest
              end
          | _ => Throw bad_manifest
          end
      | _ => Throw "no_edge"
      end
  | _ => Throw bad_manifest
  end.
