(* ===== verification/ManifestFacts.v ===== *)
(** * Properties of manifests and capabilities

    Accepted capabilities are within the limits and are accepted again
    unchanged; the effective capabilities are the greatest that both sides
    grant; versions are totally ordered. *)

From S2P Require Import Prelude JsBuffer JsValues JsSet EdgeConstants Gcplugin Topics Manifest.

Local Open Scope Z_scope.

(** ** Valid capabilities *)

Definition port_ok (p : Z) : Prop := 1024 ≤ p ≤ 65535 ∧ p ≠ 5353.
(** At most [max] different names that pass [ok]. *)
Definition names_ok (max : Z) (ok : jstr → bool) (l : list jstr) : Prop :=
  Forall (λ s, ok s = true) l ∧ NoDup l ∧ Z.of_nat (length l) ≤ max.
Definition on_some {A} (P : A → Prop) (o : option A) : Prop := ∀ a, o = Some a → P a.

Definition udp_ok (u : udp_caps) : Prop :=
  (Forall port_ok (u_ports u) ∧ NoDup (u_ports u) ∧ Z.of_nat (length (u_ports u)) ≤ 16) ∧
  names_ok 16 multicastAllowed (u_multicast u).

Record caps_ok (c : caps) : Prop := {
  ok_udp : on_some udp_ok (c_udp c);
  ok_mdns : on_some (names_ok 16 MDNS_SERVICE_RE) (c_mdns c);
  ok_mqtt : on_some (names_ok 16 validPluginFilter) (c_mqtt c);
  ok_serial : on_some (names_ok 4 (λ s, bool_decide (s ∈ SERIAL_NAMES))) (c_serial c)
}.

(** The capabilities as the JSON object they are reported in. *)
Definition json_names (l : list jstr) : json := JArr (JStr <$> l).
Definition caps_fields (c : caps) : list (jstr * json) :=
  match c_udp c with
  | Some u => [(js "udp", JObj [(js "ports", JArr ((JNum ∘ NInt) <$> u_ports u)); (js "multicast", json_names (u_multicast u))])]
  | None => []
  end ++
  match c_mdns c with Some l => [(js "mdns", JObj [(js "services", json_names l)])] | None => [] end ++
  match c_tcp c with Some b => [(js "tcp", JObj [(js "lan", JBool b)])] | None => [] end ++
  match c_http c with Some b => [(js "http", JObj [(js "lan", JBool b)])] | None => [] end ++
  match c_mqtt c with Some l => [(js "mqtt", JObj [(js "topics", json_names l)])] | None => [] end ++
  match c_serial c with Some l => [(js "serial", json_names l)] | None => [] end.
Definition caps_json (c : caps) : json := JObj (caps_fields c).

Lemma checked_Forall {A} (ok : json → option A) (P : A → Prop) l out :
  (∀ v a, ok v = Some a → P a) → checked ok l = Ok out → Forall P out ∧ length out = length l.
Proof.
  intros Hok. unfold checked. destruct (mapM ok l) as [k|] eqn:Hm; [|done]. cbn. intros [= <-].
  apply mapM_Some in Hm. split; [| by apply Forall2_length in Hm].
  clear -Hok Hm. induction Hm; constructor; eauto.
Qed.

Lemma list_of_Ok max v l : list_of max v = Ok l → v = JArr l ∧ Z.of_nat (length l) ≤ max.
Proof. destruct v; cbn; try done. case_match eqn:E; [done |]. intros [= <-]. split; [done | lia]. Qed.

Lemma names_checked max ok v l k :
  list_of max v = Ok l → checked (str_such ok) l = Ok k → names_ok max ok (uniq k).
Proof.
  intros [_ Hl]%list_of_Ok Hk. apply (checked_Forall _ (λ s, ok s = true)) in Hk as [Hk Hlen].
  - split_and!; [| apply uniq_NoDup | pose proof (uniq_length k); lia].
    apply Forall_forall. intros s Hs. rewrite elem_of_uniq in Hs. rewrite Forall_forall in Hk. by apply Hk.
  - intros v' s. unfold str_such. destruct (as_str v') as [s'|]; [|done]. cbn. case_match; [naive_solver | done].
Qed.

Lemma udp_part_ok v o : udp_part v = Ok o → on_some udp_ok o.
Proof.
  destruct v as [[]|]; cbn [udp_part]; intros Hr; try done; [|by simplify_eq].
  apply res_bind_Ok in Hr as (l & Hl & Hr). apply res_bind_Ok in Hr as (ports & Hp & Hr).
  apply res_bind_Ok in Hr as (l' & Hl' & Hr). apply res_bind_Ok in Hr as (groups & Hg & [= <-]).
  intros u [= <-]. split; [| by eapply names_checked]. cbn [u_ports].
  apply list_of_Ok in Hl as [_ Hl]. apply (checked_Forall _ port_ok) in Hp as [Hp Hlen].
  - split_and!; [| apply uniq_NoDup | pose proof (uniq_length ports); lia].
    apply Forall_forall. intros p Hp'. rewrite elem_of_uniq in Hp'. rewrite Forall_forall in Hp. by apply Hp.
  - intros v p. unfold udp_port. destruct (as_int v) as [p'|]; [|done]. cbn. case_match eqn:E; [done |].
    intros [= <-]. unfold port_ok. lia.
Qed.

Lemma names_part_ok k ok v o : names_part k ok v = Ok o → on_some (names_ok 16 ok) o.
Proof.
  destruct v as [[| | | | |m]|]; cbn [names_part]; intros Hr; try done; [|by simplify_eq].
  destruct (field m k); [|done].
  apply res_bind_Ok in Hr as (l & Hl & Hr). apply res_bind_Ok in Hr as (names & Hn & [= <-]).
  intros ? [= <-]. by eapply names_checked.
Qed.

Lemma serial_part_ok v o :
  serial_part v = Ok o → on_some (names_ok 4 (λ s, bool_decide (s ∈ SERIAL_NAMES))) o.
Proof.
  destruct v as [v|]; cbn [serial_part]; intros Hr; [|by simplify_eq].
  apply res_bind_Ok in Hr as (l & Hl & Hr). apply res_bind_Ok in Hr as (names & Hn & [= <-]).
  intros ? [= <-]. by eapply names_checked.
Qed.

Lemma validateCaps_ok v c : validateCaps v = Ok c → caps_ok c.
Proof.
  assert (caps_ok no_caps) as Hnone by (by split).
  destruct v as [v|]; [|by intros [= <-]]. destruct v as [| | | | |fields]; try done; [by intros [= <-] |].
  cbn [validateCaps]. destruct (existsb _ _); [done |]. intros Hr. res_inv.
  split; cbn [c_udp c_mdns c_mqtt c_serial]; eauto using udp_part_ok, names_part_ok, serial_part_ok.
Qed.

(** ** Accepted capabilities are accepted again *)

Lemma checked_names ok l : Forall (λ s, ok s = true) l → checked (str_such ok) (JStr <$> l) = Ok l.
Proof.
  intros Hl. unfold checked. assert (mapM (str_such ok) (JStr <$> l) = Some l) as ->; [|done].
  apply mapM_Some. induction Hl as [|s l Hs Hl IH]; constructor; [|done]. unfold str_such. cbn. by rewrite Hs.
Qed.

Lemma checked_ports l : Forall port_ok l → checked udp_port ((JNum ∘ NInt) <$> l) = Ok l.
Proof.
  intros Hl. unfold checked. assert (mapM udp_port ((JNum ∘ NInt) <$> l) = Some l) as ->; [|done].
  apply mapM_Some. induction Hl as [|p l [Hp Hn] Hl IH]; constructor; [|done]. unfold udp_port. cbn.
  destruct (Z.ltb_spec p 1024), (Z.ltb_spec 65535 p), (Z.eqb_spec p 5353); (done || lia).
Qed.

Lemma list_of_map {A} max (f : A → json) l : Z.of_nat (length l) ≤ max → list_of max (JArr (f <$> l)) = Ok (f <$> l).
Proof. intros Hl. cbn [list_of]. rewrite length_fmap. by destruct (Z.ltb_spec max (Z.of_nat (length l))); [lia |]. Qed.

Lemma udp_part_again u : udp_ok u →
  udp_part (Some (JObj [(js "ports", JArr ((JNum ∘ NInt) <$> u_ports u)); (js "multicast", json_names (u_multicast u))]))
  = Ok (Some u).
Proof.
  intros [(Hp & Hd & Hl) (Hg & Hgd & Hgl)]. unfold udp_part, json_names. cbn [field].
  rewrite (bool_decide_true (js "ports" = js "ports")) by done.
  rewrite (bool_decide_false (js "ports" = js "multicast")) by done.
  rewrite (bool_decide_true (js "multicast" = js "multicast")) by done. cbn [from_option id].
  rewrite !list_of_map by done. cbn [mbind res_bind]. rewrite checked_ports by done. cbn [mbind res_bind].
  rewrite checked_names by done. cbn [mbind res_bind].
  rewrite !uniq_id by done. by destruct u.
Qed.

Lemma names_part_again k ok l : names_ok 16 ok l → names_part k ok (Some (JObj [(k, json_names l)])) = Ok (Some l).
Proof.
  intros (Hn & Hd & Hl). unfold names_part, json_names. cbn [field].
  rewrite bool_decide_true by done. rewrite list_of_map by done. cbn [mbind res_bind].
  rewrite checked_names by done. cbn [mbind res_bind]. by rewrite uniq_id.
Qed.

Lemma serial_part_again l : names_ok 4 (λ s, bool_decide (s ∈ SERIAL_NAMES)) l → serial_part (Some (json_names l)) = Ok (Some l).
Proof.
  intros (Hn & Hd & Hl). unfold serial_part, json_names. rewrite list_of_map by done. cbn [mbind res_bind].
  rewrite checked_names by done. cbn [mbind res_bind]. by rewrite uniq_id.
Qed.

Definition udp_json (u : udp_caps) : json :=
  JObj [(js "ports", JArr ((JNum ∘ NInt) <$> u_ports u)); (js "multicast", json_names (u_multicast u))].
Definition names_json (k : jstr) (l : list jstr) : json := JObj [(k, json_names l)].
Definition lan_json (b : bool) : json := JObj [(js "lan", JBool b)].

(** Each part of the report under its key. *)
Lemma caps_fields_parts c :
  field (caps_fields c) (js "udp") = udp_json <$> c_udp c ∧
  field (caps_fields c) (js "mdns") = names_json (js "services") <$> c_mdns c ∧
  field (caps_fields c) (js "tcp") = lan_json <$> c_tcp c ∧
  field (caps_fields c) (js "http") = lan_json <$> c_http c ∧
  field (caps_fields c) (js "mqtt") = names_json (js "topics") <$> c_mqtt c ∧
  field (caps_fields c) (js "serial") = json_names <$> c_serial c ∧
  existsb (λ f, negb (bool_decide (f.1 ∈ CAP_KEYS))) (caps_fields c) = false.
Proof. by destruct c as [[] [] [] [] [] []]. Qed.

(** A part that is read back when it is there is read back when it is not. *)
Lemma part_again {A} (part : option json → res (option A)) (f : A → json) (P : A → Prop) o :
  part None = Ok None → (∀ a, P a → part (Some (f a)) = Ok (Some a)) → on_some P o → part (f <$> o) = Ok o.
Proof. intros Hn Hs Ho. destruct o as [a|]; [by apply Hs, Ho | done]. Qed.

Lemma lan_part_again b : lan_part (Some (lan_json b)) = Ok (Some b) ∧ http_part (Some (lan_json b)) = Ok (Some b).
Proof. done. Qed.

Lemma validateCaps_again c : caps_ok c → validateCaps (Some (caps_json c)) = Ok c.
Proof.
  intros [Hu Hm Hq Hs]. unfold caps_json. cbn [validateCaps].
  destruct (caps_fields_parts c) as (-> & -> & -> & -> & -> & -> & ->).
  rewrite (part_again udp_part udp_json udp_ok) by (done || apply udp_part_again). cbn [mbind res_bind].
  rewrite (part_again (names_part (js "services") MDNS_SERVICE_RE) _ (names_ok 16 MDNS_SERVICE_RE)) by (done || apply names_part_again).
  cbn [mbind res_bind].
  rewrite (part_again lan_part lan_json (λ _, True)) by (done || apply lan_part_again). cbn [mbind res_bind].
  rewrite (part_again http_part lan_json (λ _, True)) by (done || apply lan_part_again). cbn [mbind res_bind].
  rewrite (part_again (names_part (js "topics") validPluginFilter) _ (names_ok 16 validPluginFilter)) by (done || apply names_part_again).
  cbn [mbind res_bind].
  rewrite (part_again serial_part json_names (names_ok 4 (λ s, bool_decide (s ∈ SERIAL_NAMES))))
    by (done || apply serial_part_again). cbn [mbind res_bind]. by destruct c.
Qed.

(** ** The effective capabilities *)

(** [x] grants nothing that [y] does not. *)
Definition part_le {A} (le : A → A → Prop) (x y : option A) : Prop :=
  ∀ a, x = Some a → ∃ b, y = Some b ∧ le a b.
Record caps_le (x y : caps) : Prop := {
  le_udp : part_le (λ a b, u_ports a ⊆ u_ports b ∧ u_multicast a ⊆ u_multicast b) (c_udp x) (c_udp y);
  le_mdns : part_le subseteq (c_mdns x) (c_mdns y);
  le_tcp : part_le implb (c_tcp x) (c_tcp y);
  le_http : part_le implb (c_http x) (c_http y);
  le_mqtt : part_le subseteq (c_mqtt x) (c_mqtt y);
  le_serial : part_le subseteq (c_serial x) (c_serial y)
}.

(** [f] computes greatest lower bounds. *)
Definition is_meet {A} (le : A → A → Prop) (f : A → A → A) : Prop :=
  ∀ a b, le (f a b) a ∧ le (f a b) b ∧ ∀ c, le c a → le c b → le c (f a b).

Lemma meet_spec {A} (le : A → A → Prop) f x y : is_meet le f →
  part_le le (meet f x y) x ∧ part_le le (meet f x y) y ∧
  ∀ z, part_le le z x → part_le le z y → part_le le z (meet f x y).
Proof.
  intros Hf. unfold part_le, meet. split_and!.
  - destruct x as [a|], y as [b|]; intros ? [= <-]. exists a. split; [done | apply Hf].
  - destruct x as [a|], y as [b|]; intros ? [= <-]. exists b. split; [done | apply Hf].
  - intros z Hx Hy c Hc. destruct (Hx c Hc) as (a & -> & Ha), (Hy c Hc) as (b & -> & Hb).
    exists (f a b). split; [done |]. by apply Hf.
Qed.

Lemma both_meet {A} `{EqDecision A} : is_meet (A:=list A) subseteq both.
Proof.
  intros l r. unfold both. split_and!; intros x.
  - rewrite list_elem_of_filter. tauto.
  - rewrite list_elem_of_filter. tauto.
  - intros Hl Hr y Hy. rewrite list_elem_of_filter. split; [by apply Hr | by apply Hl].
Qed.

Lemma andb_meet : is_meet implb andb.
Proof. intros [] []; cbn; split_and!; try done; intros []; cbn; done. Qed.

Lemma udp_meet : is_meet (λ a b, u_ports a ⊆ u_ports b ∧ u_multicast a ⊆ u_multicast b)
  (λ x y, UdpCaps (both (u_ports x) (u_ports y)) (both (u_multicast x) (u_multicast y))).
Proof.
  intros a b. cbn. destruct (both_meet (u_ports a) (u_ports b)) as (? & ? & Hp).
  destruct (both_meet (u_multicast a) (u_multicast b)) as (? & ? & Hm).
  split_and!; try done; intros c [] []; split; eauto.
Qed.

Lemma Forall_both {A} `{EqDecision A} (P : A → Prop) l r : Forall P l → Forall P (both l r).
Proof.
  rewrite !Forall_forall. unfold both. intros Hl x Hx. rewrite list_elem_of_filter in Hx. by apply Hl; destruct Hx.
Qed.

Lemma names_ok_both max ok l r : names_ok max ok l → names_ok max ok (both l r).
Proof.
  intros (Hn & Hd & Hl). split_and!; [by apply Forall_both | by apply NoDup_filter |]. unfold both.
  pose proof (length_filter (λ x, x ∈ r) l). lia.
Qed.

Lemma intersectCaps_ok m a : caps_ok m → caps_ok (intersectCaps m a).
Proof.
  intros [Hu Hm Hq Hs]. unfold intersectCaps, meet. split; cbn [c_udp c_mdns c_mqtt c_serial].
  - destruct (c_udp m) as [u|], (c_udp a) as [u'|]; intros ? [= <-].
    destruct (Hu u eq_refl) as [(Hp & Hd & Hl) Hg]. split; [| by apply names_ok_both].
    cbn [u_ports]. split_and!; [by apply Forall_both | by apply NoDup_filter |]. unfold both.
    pose proof (length_filter (λ x, x ∈ u_ports u') (u_ports u)). lia.
  - destruct (c_mdns m), (c_mdns a); intros ? [= <-]. by apply names_ok_both, Hm.
  - destruct (c_mqtt m), (c_mqtt a); intros ? [= <-]. by apply names_ok_both, Hq.
  - destruct (c_serial m), (c_serial a); intros ? [= <-]. by apply names_ok_both, Hs.
Qed.

Lemma intersectCaps_greatest m a :
  caps_le (intersectCaps m a) m ∧ caps_le (intersectCaps m a) a ∧
  ∀ c, caps_le c m → caps_le c a → caps_le c (intersectCaps m a).
Proof.
  destruct (meet_spec _ _ (c_udp m) (c_udp a) udp_meet) as (? & ? & ?).
  destruct (meet_spec _ _ (c_mdns m) (c_mdns a) both_meet) as (? & ? & ?).
  destruct (meet_spec _ _ (c_tcp m) (c_tcp a) andb_meet) as (? & ? & ?).
  destruct (meet_spec _ _ (c_http m) (c_http a) andb_meet) as (? & ? & ?).
  destruct (meet_spec _ _ (c_mqtt m) (c_mqtt a) both_meet) as (? & ? & ?).
  destruct (meet_spec _ _ (c_serial m) (c_serial a) both_meet) as (? & ? & ?).
  split_and!; [by split | by split |]. intros c [] []. split; cbn; auto.
Qed.

(** ** The order of versions *)

(** The numbers of a version: not negative, or too large for a double. *)
Definition version_num (n : num) : Prop := match n with NInt _ => True | NInf neg => neg = false | NFrac _ _ => False end.
Definition semver_ok (x : semver) : Prop :=
  version_num (v_major x) ∧ version_num (v_minor x) ∧ version_num (v_patch x).

Lemma digits_num_version s : version_num (digits_num s).
Proof. unfold digits_num. by case_match. Qed.

Lemma parseSemver_ok v x : parseSemver v = Some x → semver_ok x.
Proof.
  unfold parseSemver. destruct (three_numbers v) as [[[[a b] c] rest]|]; [|done]. intros Hx.
  assert (∃ pre, x = Semver (digits_num a) (digits_num b) (digits_num c) pre) as [pre ->].
  { repeat (case_match; try done); simplify_eq; eauto. }
  split_and!; apply digits_num_version.
Qed.

(** A comparison that orders what satisfies [P]: its sign flips with the
    arguments, it is [0] on equals only, and it is transitive. *)
Record ordered {A} (P : A → Prop) (cmp : A → A → Z) : Prop := {
  ord_sign x y : P x → P y → cmp x y = -1 ∨ cmp x y = 0 ∨ cmp x y = 1;
  ord_flip x y : P x → P y → cmp y x = - cmp x y;
  ord_eq x y : P x → P y → cmp x y = 0 ↔ x = y;
  ord_trans x y z : P x → P y → P z → cmp x y ≤ 0 → cmp y z ≤ 0 → cmp x z ≤ 0
}.

Definition num_order (x y : num) : Z := default 0 (num_cmp x y).

Lemma num_order_cases x y : version_num x → version_num y →
  num_order x y = match x, y with
                  | NInt a, NInt b => if a =? b then 0 else if a <? b then -1 else 1
                  | NInt _, _ => -1
                  | _, NInt _ => 1
                  | _, _ => 0
                  end.
Proof.
  unfold num_order, num_cmp. intros Hx Hy. destruct x as [a| |na], y as [b| |nb]; try done; cbn in Hx, Hy; subst; try done.
  case_bool_decide as E; [simplify_eq; cbn; by rewrite Z.eqb_refl |].
  cbn. destruct (Z.eqb_spec a b); [by subst |]. by destruct (a <? b).
Qed.

Lemma num_ordered : ordered version_num num_order.
Proof.
  split.
  - intros x y Hx Hy. rewrite num_order_cases by done. destruct x, y; try done; auto. repeat case_match; auto.
  - intros x y Hx Hy. rewrite !num_order_cases by done. destruct x as [a| |], y as [b| |]; try done.
    destruct (Z.eqb_spec a b), (Z.eqb_spec b a), (Z.ltb_spec a b), (Z.ltb_spec b a); lia.
  - intros x y Hx Hy. rewrite num_order_cases by done. destruct x as [a| |], y as [b| |]; cbn in Hx, Hy; subst; try done.
    destruct (Z.eqb_spec a b); [by subst |]. destruct (a <? b); naive_solver.
  - intros x y z Hx Hy Hz. rewrite !num_order_cases by done. destruct x as [a| |], y as [b| |], z as [c| |]; try done.
    destruct (Z.eqb_spec a b), (Z.eqb_spec b c), (Z.eqb_spec a c), (Z.ltb_spec a b), (Z.ltb_spec b c), (Z.ltb_spec a c); lia.
Qed.

Lemma pre_ordered : ordered (λ _, True) pre_cmp.
Proof.
  assert (∀ p q, p ≠ q → str_lt p q = negb (str_lt q p)) as Hneg.
  { intros p q Hne. destruct (str_lt_total p q) as [?|[H|H]]; [done | |]; pose proof (str_lt_asymm _ _ H) as ->; by rewrite H. }
  split.
  - intros [p|] [q|] _ _; cbn; try lia. case_bool_decide; [lia |]. destruct (str_lt p q); lia.
  - intros [p|] [q|] _ _; cbn; try done. repeat case_bool_decide; subst; try (done || congruence). rewrite (Hneg p q) by done. by destruct (str_lt q p).
  - intros [p|] [q|] _ _; cbn; try done. case_bool_decide; [naive_solver |]. destruct (str_lt p q); naive_solver.
  - intros [p|] [q|] [r|] _ _ _; cbn; try lia. intros Hpq Hqr.
    repeat case_bool_decide; subst; try (lia || done || congruence).
    assert (str_lt p q = true) as E1 by (destruct (str_lt p q); [done | lia]).
    assert (str_lt q r = true) as E2 by (destruct (str_lt q r); [done | lia]).
    by rewrite (str_lt_trans _ _ _ E1 E2).
Qed.

(** Comparing first by [f], then by the rest. *)
Lemma ordered_lex {A B} (P : A → Prop) (Q : B → Prop) c d :
  ordered P c → ordered Q d →
  ordered (λ x : A * B, P x.1 ∧ Q x.2) (λ x y, if c x.1 y.1 =? 0 then d x.2 y.2 else c x.1 y.1).
Proof.
  intros [Cs Cf Ce Ct] [Ds Df De Dt]. split.
  - intros [a b] [a' b'] [] []. cbn in *. destruct (c a a' =? 0); auto.
  - intros [a b] [a' b'] [] []. cbn in *. rewrite (Cf a a') by done.
    destruct (Z.eqb_spec (c a a') 0), (Z.eqb_spec (- c a a') 0); (lia || auto).
  - intros [a b] [a' b'] [] []. cbn in *. pose proof (Ce a a') as E. pose proof (De b b') as E'.
    destruct (Z.eqb_spec (c a a') 0); naive_solver.
  - intros [a b] [a' b'] [a'' b''] [] [] []. cbn in *. intros Hc1 Hc2.
    assert (c a a' ≤ 0) as Ha by (destruct (Z.eqb_spec (c a a') 0); lia).
    assert (c a' a'' ≤ 0) as Ha' by (destruct (Z.eqb_spec (c a' a'') 0); lia).
    pose proof (Ct a a' a'') as Htr. destruct (Z.eqb_spec (c a a'') 0) as [E|]; [|auto].
    assert (c a' a ≤ 0) by (apply (Ct a' a'' a); [done.. |]; rewrite (Cf a a''), E by done; lia).
    rewrite (Cf a a') in * by done. assert (c a a' = 0) as E1 by lia. rewrite E1 in Hc1. cbn in Hc1.
    apply Ce in E1 as <-; [|done..]. rewrite E in Hc2. cbn in Hc2. by apply (Dt b b' b'').
Qed.

Definition semver_tuple (x : semver) : num * (num * (num * option jstr)) := (v_major x, (v_minor x, (v_patch x, v_pre x))).

Lemma semver_cmp_tuple x y : semver_ok x → semver_ok y →
  semver_cmp x y =
  (λ s t, if num_order s.1 t.1 =? 0 then
            (λ s t, if num_order s.1 t.1 =? 0 then
                      (λ s t, if num_order s.1 t.1 =? 0 then pre_cmp s.2 t.2 else num_order s.1 t.1) s.2 t.2
                    else num_order s.1 t.1) s.2 t.2
          else num_order s.1 t.1) (semver_tuple x) (semver_tuple y).
Proof.
  intros _ _. unfold semver_cmp, num_order, semver_tuple. cbn.
  assert (∀ a b, default 0 (num_cmp a b) = 0 ↔ num_cmp a b = None) as Hz.
  { intros a b. unfold num_cmp. case_bool_decide; [done |]. by destruct (num_lt a b). }
  pose proof (Hz (v_major x) (v_major y)). pose proof (Hz (v_minor x) (v_minor y)). pose proof (Hz (v_patch x) (v_patch y)).
  destruct (num_cmp (v_major x) (v_major y)), (num_cmp (v_minor x) (v_minor y)), (num_cmp (v_patch x) (v_patch y)); cbn in *;
    repeat match goal with |- context [?z =? 0] => destruct (Z.eqb_spec z 0); [naive_solver |] end; done.
Qed.

Lemma semver_ordered : ordered semver_ok semver_cmp.
Proof.
  pose proof (ordered_lex _ _ _ _ num_ordered (ordered_lex _ _ _ _ num_ordered
    (ordered_lex _ _ _ _ num_ordered pre_ordered))) as [Os Of Oe Ot].
  assert (∀ x, semver_ok x → (λ x : num * (num * (num * option jstr)), version_num x.1 ∧
     (λ x, version_num x.1 ∧ (λ x, version_num x.1 ∧ True) x.2) x.2) (semver_tuple x)) as Hok
    by (intros x (? & ? & ?); by cbn).
  split.
  - intros x y Hx Hy. rewrite semver_cmp_tuple by done. apply Os; by apply Hok.
  - intros x y Hx Hy. rewrite !semver_cmp_tuple by done. apply Of; by apply Hok.
  - intros x y Hx Hy. rewrite semver_cmp_tuple by done. etrans; [apply Oe; by apply Hok |].
    destruct x, y. unfold semver_tuple. cbn. naive_solver.
  - intros x y z Hx Hy Hz. rewrite !semver_cmp_tuple by done. apply Ot; by apply Hok.
Qed.

(** ** The theorems *)

(** Capabilities that are accepted come out in the normal form the guards
    rely on, and accepting them again changes nothing. *)
Theorem validateCaps_spec v c :
  validateCaps v = Ok c → caps_ok c ∧ validateCaps (Some (caps_json c)) = Ok c.
Proof. intros Hv. pose proof (validateCaps_ok _ _ Hv). split; [done | by apply validateCaps_again]. Qed.

Definition sample_caps : json :=
  JObj [(js "udp", JObj [(js "ports", JArr [JNum (NInt 5000); JNum (NInt 5000)]); (js "multicast", JArr [JStr (js "239.1.2.3")])]);
        (js "tcp", JObj [(js "lan", JBool true)])].

Lemma validateCaps_spec_witness :
  validateCaps (Some (caps_json (Caps (Some (UdpCaps [5000] [js "239.1.2.3"])) None (Some true) None None None)))
  = Ok (Caps (Some (UdpCaps [5000] [js "239.1.2.3"])) None (Some true) None None None).
Proof.
  apply (proj2 (validateCaps_spec (Some sample_caps) (Caps (Some (UdpCaps [5000] [js "239.1.2.3"])) None (Some true) None None None)
    ltac:(vm_compute; reflexivity))).
Defined.

(** The capabilities a plugin runs with are the greatest set that both
    its manifest and the operator grant. *)
Theorem intersectCaps_meet m a :
  caps_le (intersectCaps m a) m ∧ caps_le (intersectCaps m a) a ∧
  (∀ c, caps_le c m → caps_le c a → caps_le c (intersectCaps m a)) ∧
  (caps_ok m → caps_ok (intersectCaps m a)).
Proof.
  destruct (intersectCaps_greatest m a) as (? & ? & ?). split_and!; [done | done | done | apply intersectCaps_ok].
Qed.

Theorem compareVersions_order :
  (∀ a b x y, parseSemver a = Some x → parseSemver b = Some y →
     compareVersions a b = Ok (semver_cmp x y) ∧ (semver_cmp x y = 0 ↔ x = y) ∧
     compareVersions b a = Ok (- semver_cmp x y)) ∧
  ordered semver_ok semver_cmp ∧
  ∀ x, v_pre x = None → ∀ p, semver_cmp (Semver (v_major x) (v_minor x) (v_patch x) (Some p)) x = -1.
Proof.
  pose proof semver_ordered as [Os Of Oe Ot]. split_and!.
  - intros a b x y Hx Hy. unfold compareVersions. rewrite Hx, Hy. apply parseSemver_ok in Hx, Hy.
    split_and!; [done | by apply Oe | by rewrite Of].
  - apply semver_ordered.
  - intros [ma mi pa pre] Hp p. cbn in Hp. subst. unfold semver_cmp, num_cmp. cbn. by rewrite !bool_decide_true.
Qed.

Lemma compareVersions_order_witness :
  compareVersions (js "1.10.0") (js "1.9.9") = Ok 1 ∧ compareVersions (js "1.9.9") (js "1.10.0") = Ok (-1).
Proof.
  destruct (proj1 compareVersions_order (js "1.10.0") (js "1.9.9") (Semver (NInt 1) (NInt 10) (NInt 0) None)
    (Semver (NInt 1) (NInt 9) (NInt 9) None)) as (Ha & _ & Hb); [vm_compute; reflexivity.. |].
  split; [exact Ha | exact Hb].
Defined.


Definition sample_manifest : json :=
  JObj [(js "id", JStr (js "lamp")); (js "version", JStr (js "1.0.0"));
        (js "edge", JObj [(js "entry", JStr (js "edge/index.js")); (js "minGateway", JStr (js "1.2.0"));
                          (js "capabilities", sample_caps)])].

