(* ===== verification/Protocol.v ===== *)
(** * src/edge/protocol.js

    The messages of the server: the wanted state with its plugins and MQTT
    accounts, and calls.  The texts of the errors are not modelled. *)

From S2P Require Import Prelude ManifestFacts JsBuffer JsValues JsSet EdgeConstants Topics Manifest.

Local Open Scope Z_scope.

Definition bad_message : string := "bad_message".
Definition ACCESS : list jstr := js <$> ["read"; "write"; "readwrite"].
Definition RESERVED_USERS : list jstr := [js "gc-edge"].

(** [/^[A-Za-z0-9_.@-]{1,64}$/] *)
Definition USER_RE (s : jstr) : bool :=
  (1 <=? str_len s) && (str_len s <=? 64)
  && forallb (λ c, is_alnum c || (c =? 95) || (c =? 46) || (c =? 64) || (c =? 45)) s.

(** [[A-Za-z0-9+/]+={0,2}] *)
Fixpoint base64_tail (s : jstr) : bool :=
  match s with
  | [] => true
  | c :: r =>
      if is_alnum c || (c =? 43) || (c =? 47) then base64_tail r
      else bool_decide (s = [61] ∨ s = [61; 61])
  end.
Definition base64_part (s : jstr) : bool :=
  match s with c :: r => (is_alnum c || (c =? 43) || (c =? 47)) && base64_tail r | [] => false end.

(** The hash formats 6 and 7 of mosquitto_passwd: parts between dollar signs. *)
Definition HASH_RE (s : jstr) : bool :=
  match split_on 36 s with
  | [[]; kind; salt; hash] => bool_decide (kind = js "6") && base64_part salt && base64_part hash
  | [[]; kind; n; salt; hash] =>
      bool_decide (kind = js "7") && (1 <=? str_len n) && (str_len n <=? 7) && forallb is_digit n
      && base64_part salt && base64_part hash
  | _ => false
  end.

(** ** MQTT accounts *)

Record acl_entry := Acl { acl_access : jstr; acl_topic : jstr }.
Record account := Account { ac_user : jstr; ac_hash : jstr; ac_acl : list acl_entry }.
Record mqtt := Mqtt {
  mq_enabled : bool; mq_tls : bool; mq_accounts : list account; mq_pluginTopics : list (jstr * list jstr)
}.

Definition acl_of (v : json) : res acl_entry :=
  match v with
  | JObj r =>
      match field r (js "access"), field r (js "topic") with
      | Some (JStr a), Some (JStr t) =>
          if bool_decide (a ∈ ACCESS) && validFilter t && negb (starts_with (js "$") t) then Ok (Acl a t)
          else Throw bad_message
      | _, _ => Throw bad_message
      end
  | _ => Throw bad_message
  end.

Fixpoint acls_of (l : list json) : res (list acl_entry) :=
  match l with [] => Ok [] | v :: l => a ← acl_of v; r ← acls_of l; Ok (a :: r) end.

(** A list of at most [max]; an absent one is empty. *)
Definition short_list (max : Z) (v : option json) : res (list json) :=
  match v with
  | None => Ok []
  | Some (JArr l) => if max <? Z.of_nat (length l) then Throw bad_message else Ok l
  | Some _ => Throw bad_message
  end.

Fixpoint accounts_of (l : list json) (seen : list jstr) : res (list account) :=
  match l with
  | [] => Ok []
  | v :: l =>
      match v with
      | JObj a =>
          match field a (js "user") with
          | Some (JStr user) =>
              if negb (USER_RE user) || bool_decide (user ∈ RESERVED_USERS) || bool_decide (user ∈ seen)
              then Throw bad_message
              else
                match field a (js "hash") with
                | Some (JStr hash) =>
                    if (512 <? str_len hash) || negb (HASH_RE hash) then Throw bad_message
                    else
                      al ← short_list 64 (field a (js "acl"));
                      acl ← acls_of al;
                      rest ← accounts_of l (user :: seen);
                      Ok (Account user hash acl :: rest)
                | _ => Throw bad_message
                end
          | _ => Throw bad_message
          end
      | _ => Throw bad_message
      end
  end.

Definition plugin_filter (v : json) : option jstr := str_such validPluginFilter v.

Fixpoint topics_of (fields : list (jstr * json)) : res (list (jstr * list jstr)) :=
  match fields with
  | [] => Ok []
  | (id, v) :: r =>
      if negb (validId id) then Throw bad_message
      else
        match v with
        | JArr l =>
            if 16 <? Z.of_nat (length l) then Throw bad_message
            else
              topics ← of_option bad_message (mapM plugin_filter l);
              rest ← topics_of r;
              Ok ((id, uniq topics) :: rest)
        | _ => Throw bad_message
        end
  end.

Definition pluginTopics_of (v : option json) : res (list (jstr * list jstr)) :=
  match v with
  | None => Ok []
  | Some (JObj f) => topics_of f
  | Some _ => Throw bad_message
  end.

Definition parseMqtt (v : option json) : res mqtt :=
  match v with
  | None | Some JNull => Ok (Mqtt false false [] [])
  | Some (JObj m) =>
      list ← short_list 256 (field m (js "accounts"));
      accounts ← accounts_of list [];
      topics ← pluginTopics_of (field m (js "pluginTopics"));
      Ok (Mqtt (is_true (field m (js "enabled"))) (is_true (field m (js "tls"))) accounts topics)
  | Some _ => Throw bad_message
  end.

(** ** The state *)

(** [p_capsError]: the code of the error that [validateCaps] threw. *)
Record plugin := Plugin {
  p_id : jstr; p_version : jstr; p_sha256 : jstr; p_caps : caps; p_capsError : option string;
  p_memoryMb : option Z; p_enabled : bool
}.
Record state := State { st_edgeEnabled : bool; st_allowUnsigned : bool; st_plugins : list plugin; st_mqtt : mqtt }.

(** [/^[a-f0-9]{64}$/i] *)
Definition SHA256_RE (s : jstr) : bool :=
  (str_len s =? 64)
  && forallb (λ c, is_digit c || ((97 <=? c) && (c <=? 102)) || ((65 <=? c) && (c <=? 70))) s.

Definition memoryMb_of (v : option json) : res (option Z) :=
  match v with
  | None | Some JNull => Ok None
  | Some v =>
      match as_int v with
      | Some n => if (n <? LIMITS.memoryMbMin) || (LIMITS.memoryMbMax <? n) then Throw bad_message else Ok (Some n)
      | None => Throw bad_message
      end
  end.

Definition caps_of (v : option json) : caps * option string :=
  match validateCaps v with
  | Ok c => (c, None)
  | Throw e => (no_caps, Some e)
  | NoFuel => (no_caps, None)
  end.

Section Protocol.
Context `{Unicode}.

Fixpoint plugins_of (l : list json) (ids : list jstr) : res (list plugin) :=
  match l with
  | [] => Ok []
  | JObj p :: l =>
      match field p (js "id"), field p (js "version"), field p (js "sha256") with
      | Some (JStr id), Some (JStr version), Some (JStr sha256) =>
          if negb (validId id) || bool_decide (id ∈ ids) || negb (validVersion version) || negb (SHA256_RE sha256)
          then Throw bad_message
          else
            memoryMb ← memoryMb_of (field p (js "memoryMb"));
            let '(caps, capsError) := caps_of (field p (js "caps")) in
            rest ← plugins_of l (id :: ids);
            Ok (Plugin id version (toLowerCase sha256) caps capsError memoryMb
                  (negb (is_false (field p (js "enabled")))) :: rest)
      | _, _, _ => Throw bad_message
      end
  | _ :: _ => Throw bad_message
  end.

Definition parseState (msg : json) : res state :=
  match msg with
  | JObj m =>
      if negb (is_str (field m (js "t")) (js "state")) then Throw bad_message
      else
        list ← short_list LIMITS.maxPlugins (field m (js "plugins"));
        plugins ← plugins_of list [];
        mqtt ← parseMqtt (field m (js "mqtt"));
        Ok (State (is_true (field m (js "edgeEnabled"))) (is_true (field m (js "allowUnsigned"))) plugins mqtt)
  | _ => Throw bad_message
  end.
End Protocol.

(** ** Calls *)

Record call := Call { cl_id : jstr; cl_plugin : jstr; cl_method : jstr; cl_params : json; cl_timeoutMs : num }.

(** [/^[A-Za-z0-9._:-]{1,64}$/] *)
Definition METHOD_RE (s : jstr) : bool :=
  (1 <=? str_len s) && (str_len s <=? 64)
  && forallb (λ c, is_alnum c || (c =? 46) || (c =? 95) || (c =? 58) || (c =? 45)) s.

Definition call_timeout (v : option json) : num :=
  match v with
  | Some (JNum n) =>
      if is_finite n then num_max (NInt 1) (num_min (NInt LIMITS.callTimeoutMaxMs) n)
      else NInt LIMITS.callTimeoutDefaultMs
  | _ => NInt LIMITS.callTimeoutDefaultMs
  end.

(** [msg]: the fields of the message. *)
Definition parseCall (msg : list (jstr * json)) : res call :=
  match field msg (js "id"), field msg (js "plugin"), field msg (js "method") with
  | Some (JStr id), Some (JStr plugin), Some (JStr method) =>
      if (str_len id <? 1) || (64 <? str_len id) || negb (validId plugin) || negb (METHOD_RE method)
      then Throw bad_message
      else Ok (Call id plugin method (default JNull (field msg (js "params"))) (call_timeout (field msg (js "timeoutMs"))))
  | _, _, _ => Throw bad_message
  end.

(** * Properties of the server's messages

    A state that is accepted names each plugin and each account once and keeps
    every limit; the time of a call is bounded. *)

Lemma short_list_Ok max v l : 0 ≤ max → short_list max v = Ok l → Z.of_nat (length l) ≤ max.
Proof.
  intros Hm. destruct v as [[]|]; cbn; try done; [|by intros [= <-]]. case_match eqn:E; [done |]. intros [= <-]. lia.
Qed.

(** ** Accounts *)

Definition acl_ok (a : acl_entry) : Prop :=
  acl_access a ∈ ACCESS ∧ validFilter (acl_topic a) = true ∧ starts_with (js "$") (acl_topic a) = false.
Definition account_ok (a : account) : Prop :=
  USER_RE (ac_user a) = true ∧ (ac_user a ∉ RESERVED_USERS) ∧ HASH_RE (ac_hash a) = true ∧ str_len (ac_hash a) ≤ 512 ∧
  Forall acl_ok (ac_acl a) ∧ Z.of_nat (length (ac_acl a)) ≤ 64.
Definition topics_ok (t : jstr * list jstr) : Prop := validId t.1 = true ∧ names_ok 16 validPluginFilter t.2.
Record mqtt_ok (m : mqtt) : Prop := {
  mo_accounts : Forall account_ok (mq_accounts m);
  mo_users : NoDup (ac_user <$> mq_accounts m);
  mo_count : Z.of_nat (length (mq_accounts m)) ≤ 256;
  mo_topics : Forall topics_ok (mq_pluginTopics m)
}.

Lemma acls_of_Ok l out : acls_of l = Ok out → Forall acl_ok out ∧ length out = length l.
Proof.
  revert out. induction l as [|v l IH]; intros out; cbn [acls_of]; [by intros [= <-] |]. intros Hr.
  apply res_bind_Ok in Hr as (a & Ha & Hr). apply res_bind_Ok in Hr as (r & Hr & [= <-]).
  apply IH in Hr as [Hr Hl]. split; [|cbn; lia]. constructor; [|done].
  destruct v as [| | | | |f]; try done. unfold acl_of in Ha.
  destruct (field f (js "access")) as [[| | |acc| |]|], (field f (js "topic")) as [[| | |t| |]|]; try done.
  destruct (bool_decide (acc ∈ ACCESS) && validFilter t && negb (starts_with (js "$") t)) eqn:Hb; [|done].
  injection Ha as <-. apply andb_true_iff in Hb as [[Hacc Hf]%andb_true_iff Hd].
  apply bool_decide_eq_true in Hacc. unfold acl_ok. cbn [acl_access acl_topic].
  split_and!; [done | done | by destruct (starts_with _ t)].
Qed.

Lemma accounts_of_Ok l seen out :
  accounts_of l seen = Ok out →
  Forall account_ok out ∧ NoDup (ac_user <$> out) ∧ (∀ a, a ∈ out → ac_user a ∉ seen) ∧ length out = length l.
Proof.
  revert seen out. induction l as [|v l IH]; intros seen out; cbn [accounts_of].
  { intros [= <-]. split_and!; [constructor | constructor | set_solver | done]. }
  destruct v as [| | | | |f]; try done. destruct (field f (js "user")) as [[| | |user| |]|]; try done.
  destruct (negb (USER_RE user) || bool_decide (user ∈ RESERVED_USERS) || bool_decide (user ∈ seen)) eqn:Hu; [done |].
  destruct (field f (js "hash")) as [[| | |hash| |]|]; try done.
  destruct ((512 <? str_len hash) || negb (HASH_RE hash)) eqn:Hh; [done |]. intros Hr.
  apply res_bind_Ok in Hr as (al & Hal & Hr). apply res_bind_Ok in Hr as (acl & Hacl & Hr).
  apply res_bind_Ok in Hr as (rest & Hrest & [= <-]). apply IH in Hrest as (Hok & Hnd & Hnew & Hlen).
  apply short_list_Ok in Hal; [|lia]. apply acls_of_Ok in Hacl as [Hacl Hn].
  apply orb_false_iff in Hu as [[Hre Hres]%orb_false_iff Hseen]. apply bool_decide_eq_false in Hres, Hseen.
  apply orb_false_iff in Hh as [Hlong Hhash]. apply negb_false_iff in Hre, Hhash. split_and!.
  - constructor; [|done]. unfold account_ok. cbn. split_and!; (done || lia).
  - rewrite fmap_cons. constructor; [|done]. cbn [ac_user].
    intros (a & E & Ha)%list_elem_of_fmap. apply (Hnew a Ha). rewrite <- E. by left.
  - intros a [->|Ha]%elem_of_cons; [done |]. intros Hin. apply (Hnew a Ha). by right.
  - cbn. lia.
Qed.

Lemma plugin_filters_ok l out : mapM plugin_filter l = Some out → Z.of_nat (length l) ≤ 16 → names_ok 16 validPluginFilter (uniq out).
Proof.
  intros Hm Hl. eapply (names_checked 16 validPluginFilter (JArr l) l); [cbn; by destruct (Z.ltb_spec 16 (Z.of_nat (length l))); [lia |] |].
  unfold checked. change (str_such validPluginFilter) with plugin_filter. by rewrite Hm.
Qed.

Lemma topics_of_Ok f out : topics_of f = Ok out → Forall topics_ok out.
Proof.
  revert out. induction f as [|[id v] f IH]; intros out; cbn [topics_of]; [by intros [= <-] |].
  destruct (validId id) eqn:Hid; [|done]. cbn [negb]. destruct v as [| | | |l|]; try done.
  destruct (Z.ltb_spec 16 (Z.of_nat (length l))); [done |]. intros Hr.
  apply res_bind_Ok in Hr as (topics & Ht & Hr). apply res_bind_Ok in Hr as (rest & Hrest & [= <-]).
  constructor; [|by apply IH]. split; [done |]. cbn [snd].
  destruct (mapM plugin_filter l) eqn:Hm; [|done]. injection Ht as <-. by eapply plugin_filters_ok.
Qed.

Lemma parseMqtt_ok v m : parseMqtt v = Ok m → mqtt_ok m.
Proof.
  assert (mqtt_ok (Mqtt false false [] [])) as Hnone by (split; cbn; [constructor | constructor | done | constructor]).
  destruct v as [[| | | | |f]|]; cbn [parseMqtt]; intros Hr; try done; [by simplify_eq | | by simplify_eq].
  apply res_bind_Ok in Hr as (l & Hl & Hr). apply res_bind_Ok in Hr as (accounts & Ha & Hr).
  apply res_bind_Ok in Hr as (topics & Ht & [= <-]). apply short_list_Ok in Hl; [|lia].
  apply accounts_of_Ok in Ha as (Ha & Hnd & _ & Hlen). split; cbn; [done | done | lia |].
  destruct (field f (js "pluginTopics")) as [[]|]; cbn in Ht; simplify_eq; [by eapply topics_of_Ok | constructor].
Qed.

(** ** Plugins *)

Section Facts.
Context `{Unicode}.

Record plugin_ok (p : plugin) : Prop := {
  po_id : validId (p_id p) = true;
  po_version : validVersion (p_version p) = true;
  po_sha : str_len (p_sha256 p) = 64 ∧ Forall (λ c, 48 ≤ c ≤ 57 ∨ 97 ≤ c ≤ 102) (p_sha256 p);
  po_memory : on_some (λ n, LIMITS.memoryMbMin ≤ n ≤ LIMITS.memoryMbMax) (p_memoryMb p);
  po_caps : caps_ok (p_caps p);
  po_denied : p_capsError p ≠ None → p_caps p = no_caps
}.

Lemma sha_lower s : SHA256_RE s = true →
  str_len (toLowerCase s) = 64 ∧ Forall (λ c, 48 ≤ c ≤ 57 ∨ 97 ≤ c ≤ 102) (toLowerCase s).
Proof.
  unfold SHA256_RE. intros [Hl Hs]%andb_true_iff.
  assert (Forall (λ c, 48 ≤ c ≤ 57 ∨ 97 ≤ c ≤ 102 ∨ 65 ≤ c ≤ 70) s) as Hc.
  { apply Forall_forall. intros c Hc%list_elem_of_In. eapply forallb_forall in Hs; [|done]. unfold is_digit in Hs. lia. }
  rewrite toLowerCase_ascii by (eapply Forall_impl; [done | cbn; intros; lia]).
  unfold str_len in *. rewrite length_fmap. split; [lia |]. apply Forall_fmap.
  eapply Forall_impl; [done |]. intros c Hcc. cbn. unfold lower_unit. case_match; cbn in Hcc; lia.
Qed.

Lemma caps_of_ok v : caps_ok (caps_of v).1 ∧ ((caps_of v).2 ≠ None → (caps_of v).1 = no_caps).
Proof.
  unfold caps_of. destruct (validateCaps v) eqn:E; cbn; [|split; [by split | done]..].
  split; [by eapply validateCaps_ok | done].
Qed.

Lemma plugins_of_Ok l ids out :
  plugins_of l ids = Ok out →
  Forall plugin_ok out ∧ NoDup (p_id <$> out) ∧ (∀ p, p ∈ out → p_id p ∉ ids) ∧ length out = length l.
Proof.
  revert ids out. induction l as [|v l IH]; intros ids out; cbn [plugins_of].
  { intros [= <-]. split_and!; [constructor | constructor | set_solver | done]. }
  destruct v as [| | | | |f]; try done.
  destruct (field f (js "id")) as [[| | |id| |]|], (field f (js "version")) as [[| | |ver| |]|],
    (field f (js "sha256")) as [[| | |sha| |]|]; try done.
  destruct (negb (validId id) || bool_decide (id ∈ ids) || negb (validVersion ver) || negb (SHA256_RE sha)) eqn:Hb; [done |].
  intros Hr. apply res_bind_Ok in Hr as (mem & Hmem & Hr).
  pose proof (caps_of_ok (field f (js "caps"))) as [Hcaps Hden].
  destruct (caps_of _) as [c ce]. apply res_bind_Ok in Hr as (rest & Hrest & [= <-]).
  apply IH in Hrest as (Hok & Hnd & Hnew & Hlen).
  apply orb_false_iff in Hb as [[[Hid Hin]%orb_false_iff Hver]%orb_false_iff Hsha].
  apply bool_decide_eq_false in Hin. apply negb_false_iff in Hid, Hver, Hsha. split_and!.
  - constructor; [|done]. split; cbn; [done | done | by apply sha_lower | | done | done].
    intros n ->. unfold memoryMb_of in Hmem. destruct (field f (js "memoryMb")) as [v|]; [|done].
    destruct v as [| |[z| |]| | |]; cbn in Hmem; try done. case_match eqn:E; [done |]. injection Hmem as <-. lia.
  - rewrite fmap_cons. constructor; [|done]. cbn [p_id].
    intros (p & E & Hp)%list_elem_of_fmap. apply (Hnew p Hp). rewrite <- E. by left.
  - intros p [->|Hp]%elem_of_cons; [done |]. intros Hin'. apply (Hnew p Hp). by right.
  - cbn. lia.
Qed.

(** C36: what is taken from a state message of the server meets the bounds of
    every field: each plugin well formed, no id twice, no more than the limit,
    and the broker's accounts and topics checked; anything else is refused
    with an error. *)
Theorem parseState_spec msg st :
  parseState msg = Ok st →
  Forall plugin_ok (st_plugins st) ∧ NoDup (p_id <$> st_plugins st) ∧
  Z.of_nat (length (st_plugins st)) ≤ LIMITS.maxPlugins ∧ mqtt_ok (st_mqtt st).
Proof.
  destruct msg as [| | | | |m]; try done. cbn [parseState]. destruct (negb _); [done |]. intros Hr.
  apply res_bind_Ok in Hr as (l & Hl & Hr). apply res_bind_Ok in Hr as (plugins & Hp & Hr).
  apply res_bind_Ok in Hr as (mq & Hmq & [= <-]). apply short_list_Ok in Hl; [|done].
  apply plugins_of_Ok in Hp as (Hok & Hnd & _ & Hlen). apply parseMqtt_ok in Hmq.
  cbn. split_and!; [done | done | lia | done].
Qed.
End Facts.

Definition sample_state : json :=
  JObj [(js "t", JStr (js "state"));
        (js "plugins", JArr [JObj [(js "id", JStr (js "lamp")); (js "version", JStr (js "1.0.0"));
                                   (js "sha256", JStr (replicate 64 65)); (js "caps", sample_caps)]]);
        (js "mqtt", JObj [(js "enabled", JBool true); (js "accounts", JArr [JObj [(js "user", JStr (js "tv"));
          (js "hash", JStr (js "$7$101$c2FsdA==$aGFzaA=="))]])])].

Lemma parseState_spec_witness : ∃ st,
  @parseState ascii_unicode sample_state = Ok st ∧ p_id <$> st_plugins st = [js "lamp"] ∧
  @plugin_ok (Plugin (js "lamp") (js "1.0.0") (replicate 64 97)
    (Caps (Some (UdpCaps [5000] [js "239.1.2.3"])) None (Some true) None None None) None None true).
Proof.
  assert (@parseState ascii_unicode sample_state = Ok (State false false [Plugin (js "lamp") (js "1.0.0") (replicate 64 97)
    (Caps (Some (UdpCaps [5000] [js "239.1.2.3"])) None (Some true) None None None) None None true]
    (Mqtt true false [Account (js "tv") (js "$7$101$c2FsdA==$aGFzaA==") []] []))) as E by (vm_compute; reflexivity).
  eexists. split; [exact E |]. split; [reflexivity |].
  destruct (@parseState_spec ascii_unicode _ _ E) as [Hp _]. cbn in Hp. by inversion Hp.
Defined.

(** ** Calls *)

(** A call message that is accepted has an id, a plugin and a method of
    the right form, and its time limit is put within the bounds; anything else
    is refused with an error. *)
Theorem parseCall_spec msg c :
  parseCall msg = Ok c →
  1 ≤ str_len (cl_id c) ≤ 64 ∧ validId (cl_plugin c) = true ∧ METHOD_RE (cl_method c) = true ∧
  num_lt (cl_timeoutMs c) (NInt 1) = false ∧ num_lt (NInt LIMITS.callTimeoutMaxMs) (cl_timeoutMs c) = false.
Proof.
  unfold parseCall. destruct (field msg (js "id")) as [[| | |id| |]|], (field msg (js "plugin")) as [[| | |pl| |]|],
    (field msg (js "method")) as [[| | |me| |]|]; try done.
  destruct ((str_len id <? 1) || (64 <? str_len id) || negb (validId pl) || negb (METHOD_RE me)) eqn:Hb; [done |].
  intros [= <-]. cbn [cl_id cl_plugin cl_method cl_timeoutMs].
  assert (∀ v, num_lt (call_timeout v) (NInt 1) = false ∧ num_lt (NInt LIMITS.callTimeoutMaxMs) (call_timeout v) = false) as Ht.
  { intros [[| |n| | |]|]; try done. unfold call_timeout. destruct n as [z|m e|]; [| |done]; cbn [is_finite];
      unfold num_max, num_min, LIMITS.callTimeoutMaxMs; cbn [num_lt].
    - destruct (Z.ltb_spec z 30000); cbn [num_lt]; [destruct (Z.ltb_spec 1 z) | done]; cbn [num_lt]; lia.
    - destruct (Z.ltb_spec m (30000 * 2 ^ Z.pos e)); cbn [num_lt]; [|done].
      destruct (Z.ltb_spec (1 * 2 ^ Z.pos e) m); cbn [num_lt]; [lia | done]. }
  split_and!; [lia | lia | | | apply Ht | apply Ht]; apply orb_false_iff in Hb as [[[_ _]%orb_false_iff Hp]%orb_false_iff Hm];
    by apply negb_false_iff.
Qed.

Lemma parseCall_spec_witness :
  cl_timeoutMs <$> parseCall [(js "id", JStr (js "1")); (js "plugin", JStr (js "lamp")); (js "method", JStr (js "on"));
                              (js "timeoutMs", JNum (NInt 90000))] = Ok (NInt 30000) ∧
  num_lt (NInt LIMITS.callTimeoutMaxMs) (NInt 30000) = false.
Proof.
  split; [vm_compute; reflexivity |].
  apply (parseCall_spec [(js "id", JStr (js "1")); (js "plugin", JStr (js "lamp")); (js "method", JStr (js "on"));
    (js "timeoutMs", JNum (NInt 90000))] (Call (js "1") (js "lamp") (js "on") JNull (NInt 30000))).
  vm_compute. reflexivity.
Defined.
