(* ===== verification/Ipp.v ===== *)
(** * src/print/ipp.js: the messages

    IPP messages: attributes and requests as bytes, the reader of answers with
    its collections, and the requests of the print jobs.  Sending them is not
    modelled. *)

From S2P Require Import Prelude JsBuffer JsMap.

Local Open Scope Z_scope.

Module OP.
Definition PRINT_JOB : Z := 2.
Definition CANCEL_JOB : Z := 8.
Definition GET_JOB_ATTRIBUTES : Z := 9.
Definition GET_PRINTER_ATTRIBUTES : Z := 11.
End OP.

Module GROUP.
Definition operation : Z := 1.
Definition job : Z := 2.
Definition end_ : Z := 3.
Definition printer : Z := 4.
End GROUP.

Module TAG.
Definition unsupported : Z := 16.
Definition unknown : Z := 18.
Definition noValue : Z := 19.
Definition integer : Z := 33.
Definition boolean : Z := 34.
Definition enum : Z := 35.
Definition dateTime : Z := 49.
Definition resolution : Z := 50.
Definition rangeOfInteger : Z := 51.
Definition begCollection : Z := 52.
Definition textWithLanguage : Z := 53.
Definition nameWithLanguage : Z := 54.
Definition endCollection : Z := 55.
Definition name : Z := 66.
Definition keyword : Z := 68.
Definition uri : Z := 69.
Definition charset : Z := 71.
Definition naturalLanguage : Z := 72.
Definition mimeMediaType : Z := 73.
Definition memberAttrName : Z := 74.
End TAG.

Definition JOB_STATE (n : Z) : option jstr :=
  js <$> match n with
         | 3 => Some "pending" | 4 => Some "held" | 5 => Some "processing" | 6 => Some "stopped"
         | 7 => Some "canceled" | 8 => Some "aborted" | 9 => Some "completed" | _ => None
         end%string.

(** ** Writing *)

(** What the callers pass as values. *)
Inductive arg := AInt (z : Z) | ABool (b : bool) | AStr (s : jstr).

Definition writeInt32BE (b : list Z) (v off : Z) : res (list Z) :=
  if (-2147483648 <=? v) && (v <? 2147483648) then write_bytes b off (u32 (uint32 v)) else Throw out_of_range.

(** The tag, the name with its length and the length of the value. *)
Definition attr_head (tag : Z) (name : jstr) (len : Z) : res (list Z) :=
  let n := utf8_encode name in
  t ← (if (0 <=? tag) && (tag <? 256) then Ok tag else Throw out_of_range);
  nl ← writeUInt16BE (alloc 2) (blen n) 0;
  vl ← writeUInt16BE (alloc 2) len 0;
  Ok (t :: nl ++ n ++ vl).

Definition String_ (v : arg) : jstr :=
  match v with AStr s => s | AInt z => show_Z z | ABool true => js "true" | ABool false => js "false" end.

Definition str (tag : Z) (name : jstr) (value : arg) : res (list Z) :=
  let v := utf8_encode (String_ value) in
  h ← attr_head tag name (blen v); Ok (h ++ v).

Definition int (tag : Z) (name : jstr) (value : arg) : res (list Z) :=
  h ← attr_head tag name 4;
  match value with
  | AInt z => v ← writeInt32BE (alloc 4) z 0; Ok (h ++ v)
  | _ => Throw "ERR_INVALID_ARG_TYPE"
  end.

Definition bool_ (name : jstr) (value : arg) : res (list Z) :=
  h ← attr_head TAG.boolean name 1;
  Ok (h ++ [match value with
            | ABool b => if b then 1 else 0
            | AInt z => if z =? 0 then 0 else 1
            | AStr s => if nonempty s then 1 else 0
            end]).

(** [[tag, name, value | values[]]] *)
Record attr := Attr { at_tag : Z; at_name : jstr; at_values : list arg }.

Definition encode_value (tag : Z) (nm : jstr) (v : arg) : res (list Z) :=
  if (tag =? TAG.integer) || (tag =? TAG.enum) then int tag nm v
  else if tag =? TAG.boolean then bool_ nm v
  else str tag nm v.

(** The values in order, the first one with the name. *)
Fixpoint encode_values (tag : Z) (nm : jstr) (vs : list arg) : res (list Z) :=
  match vs with
  | [] => Ok []
  | v :: vs => b ← encode_value tag nm v; r ← encode_values tag [] vs; Ok (b ++ r)
  end.

Definition encodeAttr (a : attr) : res (list Z) := encode_values (at_tag a) (at_name a) (at_values a).

Fixpoint encode_attrs (l : list attr) : res (list Z) :=
  match l with [] => Ok [] | a :: l => b ← encodeAttr a; r ← encode_attrs l; Ok (b ++ r) end.

Fixpoint encode_groups (groups : list (Z * list attr)) : res (list Z) :=
  match groups with
  | [] => Ok [GROUP.end_]
  | (_, []) :: groups => encode_groups groups
  | (gt, l) :: groups => b ← encode_attrs l; r ← encode_groups groups; Ok (gt mod 256 :: b ++ r)
  end.

Definition encodeMessage (code requestId : Z) (groups : list (Z * list attr)) : res (list Z) :=
  head ← write_bytes (alloc 8) 0 [2; 0];
  head ← writeUInt16BE head code 2;
  head ← writeUInt32BE head (uint32 requestId) 4;
  parts ← encode_groups groups;
  Ok (head ++ parts).

Definition encodeRequest (op requestId : Z) (operation job : list attr) : res (list Z) :=
  encodeMessage op requestId [(GROUP.operation, operation); (GROUP.job, job)].

(** ** Reading *)

(** [VColl r]: the collection object [r] of the message. *)
Inductive value :=
  | VNull | VInt (z : Z) | VBool (b : bool) | VStr (s : jstr)
  | VRange (lower upper : Z) | VRes (x y units : Z) | VColl (r : nat).

Definition readInt32BE (b : list Z) (i : Z) : res Z := v ← readUInt32BE b i; Ok (int32 v).

Definition readValue (tag : Z) (buf : list Z) : res value :=
  let n := blen buf in
  if (tag =? TAG.integer) || (tag =? TAG.enum) then
    if n =? 4 then v ← readInt32BE buf 0; Ok (VInt v) else Ok VNull
  else if tag =? TAG.boolean then
    Ok (if n =? 1 then VBool (negb (byte_or0 buf 0 =? 0)) else VNull)
  else if tag =? TAG.rangeOfInteger then
    if n =? 8 then l ← readInt32BE buf 0; u ← readInt32BE buf 4; Ok (VRange l u) else Ok VNull
  else if tag =? TAG.resolution then
    if n =? 9 then x ← readInt32BE buf 0; y ← readInt32BE buf 4; Ok (VRes x y (byte_or0 buf 8)) else Ok VNull
  else if tag =? TAG.dateTime then Ok VNull
  else if (tag =? TAG.textWithLanguage) || (tag =? TAG.nameWithLanguage) then
    if n <? 4 then Ok VNull
    else
      ll ← readUInt16BE buf 0;
      tl ← (if 4 + ll <=? n then readUInt16BE buf (2 + ll) else Ok 0);
      Ok (VStr (utf8_decode (subarray buf (4 + ll) (4 + ll + tl))))
  else if (tag =? TAG.unsupported) || (tag =? TAG.unknown) || (tag =? TAG.noValue) then Ok VNull
  else Ok (VStr (utf8_decode buf)).

(** An object used as a map: its own properties.  A name that every object
    inherits is found by [o[k] || []] and is no array. *)
Abbreviation attrs := (list (jstr * list value)).
Definition proto_name : jstr := js "__proto__".
Definition inherited : list jstr :=
  proto_name :: (js <$> ["constructor"; "hasOwnProperty"; "isPrototypeOf"; "propertyIsEnumerable"; "toLocaleString";
    "toString"; "valueOf"; "__defineGetter__"; "__defineSetter__"; "__lookupGetter__"; "__lookupSetter__"]).

(** [(o[k] = o[k] || []).push(v)] *)
Definition push_to (o : attrs) (k : jstr) (v : value) : res attrs :=
  match map_get o k with
  | Some l => Ok (map_set o k (l ++ [v]))
  | None => if bool_decide (k ∈ inherited) then Throw "TypeError" else Ok (map_set o k [v])
  end.

(** [o[k] = [v]]: [__proto__] becomes no property of [o]. *)
Definition assign (o : attrs) (k : jstr) (v : value) : attrs :=
  if bool_decide (k = proto_name) then o else map_set o k [v].

(** [o[k].push(v)] for the last name assigned *)
Definition push_last (o : attrs) (k : jstr) (v : value) : attrs :=
  match map_get o k with Some l => map_set o k (l ++ [v]) | None => o end.

Record frame := Frame { f_obj : nat; f_member : jstr }.
(** The groups so far (the open one last), the objects of the collections by
    number, the open collections (innermost first), the last name. *)
Record reader := Reader {
  r_groups : list (Z * attrs); r_objs : list attrs; r_stack : list frame; r_last : option jstr
}.
Record response := Response {
  rs_version : jstr; rs_status : Z; rs_requestId : Z; rs_groups : list (Z * attrs); rs_objs : list attrs;
  rs_data : option (list Z)
}.

Definition bad_response : string := "bad_response".

(** The open group is the last one: change its attributes. *)
Fixpoint on_last (f : attrs → attrs) (gs : list (Z * attrs)) : list (Z * attrs) :=
  match gs with
  | [] => []
  | [(t, a)] => [(t, f a)]
  | g :: gs => g :: on_last f gs
  end.
Definition open_attrs (r : reader) : option attrs := snd <$> last (r_groups r).
Definition set_attrs (r : reader) (a : attrs) (lst : option jstr) : reader :=
  Reader (on_last (λ _, a) (r_groups r)) (r_objs r) (r_stack r) lst.

(** [(top.obj[top.member] = top.obj[top.member] || []).push(v)] *)
Definition push_member (r : reader) (top : frame) (v : value) : res reader :=
  o ← push_to (default [] (r_objs r !! f_obj top)) (f_member top) v;
  Ok (Reader (r_groups r) (<[f_obj top := o]> (r_objs r)) (r_stack r) (r_last r)).

(** A new object for a collection, pushed where it belongs. *)
Definition begin_collection (r : reader) (name : jstr) : res reader :=
  if 8 <=? Z.of_nat (length (r_stack r)) then Throw bad_response
  else
    let n := length (r_objs r) in
    let r := Reader (r_groups r) (r_objs r ++ [[]]) (r_stack r) (r_last r) in
    r ← match r_stack r with
        | top :: _ =>
            if nonempty name then Throw bad_response
            else if negb (nonempty (f_member top)) then Throw bad_response
            else push_member r top (VColl n)
        | [] =>
            let a := default [] (open_attrs r) in
            if nonempty name then a ← push_to a name (VColl n); Ok (set_attrs r a (Some name))
            else Ok (match r_last r with
                     | Some l => set_attrs r (push_last a l (VColl n)) (Some l)
                     | None => r
                     end)
        end;
    Ok (Reader (r_groups r) (r_objs r) (Frame n [] :: r_stack r) (r_last r)).

(** One attribute of the message. *)
Definition attribute (r : reader) (tag : Z) (name : jstr) (raw : list Z) : res reader :=
  match open_attrs r with
  | None => Throw bad_response
  | Some a =>
      if tag =? TAG.begCollection then begin_collection r name
      else if tag =? TAG.endCollection then Ok (Reader (r_groups r) (r_objs r) (tail (r_stack r)) (r_last r))
      else
        match r_stack r with
        | top :: stack =>
            if tag =? TAG.memberAttrName then
              Ok (Reader (r_groups r) (r_objs r) (Frame (f_obj top) (utf8_decode raw) :: stack) (r_last r))
            else if nonempty (f_member top) then v ← readValue tag raw; push_member r top v
            else Ok r
        | [] =>
            v ← readValue tag raw;
            if nonempty name then Ok (set_attrs r (assign a name v) (Some name))
            else Ok (match r_last r with Some l => set_attrs r (push_last a l v) (Some l) | None => r end)
        end
  end.

(** [need(n)] *)
Definition need (buf : list Z) (o n : Z) : res () := if blen buf <? o + n then Throw bad_response else Ok ().

Fixpoint read_loop (fuel : nat) (buf : list Z) (o : Z) (r : reader) : res (reader * option (list Z)) :=
  match byte_at buf o with
  | None => Ok (r, None)
  | Some tag =>
      match fuel with
      | O => NoFuel
      | S fuel =>
          let o := o + 1 in
          if tag =? GROUP.end_ then Ok (r, Some (drop (Z.to_nat o) buf))
          else if tag <? 16 then
            read_loop fuel buf o (Reader (r_groups r ++ [(tag, [])]) (r_objs r) (r_stack r) None)
          else
            _ ← need buf o 2; nl ← readUInt16BE buf o; let o := o + 2 in
            _ ← need buf o nl; let name := utf8_decode (subarray buf o (o + nl)) in let o := o + nl in
            _ ← need buf o 2; vl ← readUInt16BE buf o; let o := o + 2 in
            _ ← need buf o vl; let raw := subarray buf o (o + vl) in let o := o + vl in
            r ← attribute r tag name raw;
            read_loop fuel buf o r
      end
  end.

Definition decodeResponse (buf : list Z) : res response :=
  if blen buf <? 9 then Throw bad_response
  else
    status ← readUInt16BE buf 2;
    requestId ← readUInt32BE buf 4;
    r ← read_loop (length buf) buf 8 (Reader [] [] [] None);
    Ok (Response (show_Z (byte_or0 buf 0) ++ 46 :: show_Z (byte_or0 buf 1)) status requestId
          (r_groups r.1) (r_objs r.1) r.2).

(** [Object.assign(all, g.attrs)] over the groups with [tag] *)
Definition attrsOf (rsp : response) (tag : Z) : attrs :=
  fold_left (λ all g, if g.1 =? tag then fold_left (λ all kv, map_set all kv.1 kv.2) g.2 all else all) (rs_groups rsp) [].

(** ** The requests *)

Record endpoint := Endpoint { ep_scheme : jstr; ep_host : jstr; ep_port : Z; ep_path : jstr }.

(** [.replace(/^\/+/, '')] *)
Fixpoint drop_slashes (s : jstr) : jstr :=
  match s with c :: r => if c =? 47 then drop_slashes r else s | [] => [] end.

Definition endpointUri (ep : endpoint) : jstr :=
  ep_scheme ep ++ js "://" ++ ep_host ep ++ 58 :: show_Z (ep_port ep) ++ 47 :: drop_slashes (ep_path ep).

(** [reqId()] from the last id *)
Definition reqId (nextId : Z) : Z := nextId mod 2147483647 + 1.

Definition baseOps (ep : endpoint) : list attr :=
  [Attr TAG.charset (js "attributes-charset") [AStr (js "utf-8")];
   Attr TAG.naturalLanguage (js "attributes-natural-language") [AStr (js "en")];
   Attr TAG.uri (js "printer-uri") [AStr (endpointUri ep)]].

Definition PRINTER_ATTRS : list jstr := js <$>
  ["printer-state"; "printer-state-reasons"; "printer-is-accepting-jobs"; "printer-make-and-model"; "printer-name";
   "printer-info"; "printer-location"; "printer-uuid"; "color-supported"; "sides-supported"; "print-color-mode-supported";
   "document-format-supported"; "copies-supported"; "marker-names"; "marker-colors"; "marker-levels"; "marker-types";
   "marker-low-levels"; "pwg-raster-document-resolution-supported"; "pwg-raster-document-type-supported";
   "pwg-raster-document-sheet-back"; "urf-supported"; "media-default"; "media-ready"].

Definition user_name : jstr := js "requesting-user-name".
Definition GateControl : jstr := js "GateControl".

Definition getPrinterAttributes_head (ep : endpoint) (id : Z) : res (list Z) :=
  encodeRequest OP.GET_PRINTER_ATTRIBUTES id
    (baseOps ep ++ [Attr TAG.name user_name [AStr GateControl];
                    Attr TAG.keyword (js "requested-attributes") (AStr <$> PRINTER_ATTRS)]) [].

(** [job]: empty texts, [copies = 0] and [None] stand for absent fields. *)
Record print_job := PrintJob {
  pj_name : jstr; pj_user : jstr; pj_format : jstr; pj_copies : Z; pj_duplex : option bool; pj_color : option bool
}.

Definition or_name (s : jstr) : jstr := if nonempty s then s else GateControl.

Definition jobAttrs (j : print_job) : list attr :=
  (if 1 <? pj_copies j then [Attr TAG.integer (js "copies") [AInt (pj_copies j)]] else []) ++
  match pj_duplex j with
  | Some d => [Attr TAG.keyword (js "sides") [AStr (if d then js "two-sided-long-edge" else js "one-sided")]]
  | None => []
  end ++
  match pj_color j with
  | Some c => [Attr TAG.keyword (js "print-color-mode") [AStr (if c then js "color" else js "monochrome")]]
  | None => []
  end.

Definition printJob_head (ep : endpoint) (j : print_job) (id : Z) : res (list Z) :=
  encodeRequest OP.PRINT_JOB id
    (baseOps ep ++ [Attr TAG.name user_name [AStr (take 60 (or_name (pj_user j)))];
                    Attr TAG.name (js "job-name") [AStr (take 120 (or_name (pj_name j)))];
                    Attr TAG.mimeMediaType (js "document-format") [AStr (pj_format j)]])
    (jobAttrs j).

(** [JOB_STATE[v]]: a number or the text of one. *)
Definition job_state (l : option (list value)) : option jstr :=
  match l with
  | Some (VInt n :: _) => JOB_STATE n
  | Some (VStr s :: _) => head (omap (λ n, if bool_decide (s = show_Z n) then JOB_STATE n else None) [3; 4; 5; 6; 7; 8; 9])
  | _ => None
  end.

Definition first_int (l : option (list value)) : option Z :=
  match l with Some (VInt z :: _) => Some z | _ => None end.

Record job_result := JobResult { jr_status : Z; jr_jobId : option Z; jr_jobState : option jstr }.

Definition printJob_result (rsp : response) : job_result :=
  let j := attrsOf rsp GROUP.job in
  JobResult (rs_status rsp) (first_int (map_get j (js "job-id")))
    (job_state (map_get j (js "job-state"))).

Definition getJobAttributes_head (ep : endpoint) (jobId id : Z) : res (list Z) :=
  encodeRequest OP.GET_JOB_ATTRIBUTES id
    (baseOps ep ++ [Attr TAG.integer (js "job-id") [AInt jobId]; Attr TAG.name user_name [AStr GateControl];
                    Attr TAG.keyword (js "requested-attributes") [AStr (js "job-state"); AStr (js "job-state-reasons")]]) [].

(** The state and at most eight reasons that are strings. *)
Definition getJobAttributes_result (rsp : response) : res (option jstr * list jstr) :=
  if 1024 <=? rs_status rsp then Throw "ipp_status"
  else
    let j := attrsOf rsp GROUP.job in
    Ok (job_state (map_get j (js "job-state")),
        take 8 (omap (λ v, match v with VStr s => Some s | _ => None end) (default [] (map_get j (js "job-state-reasons"))))).

Definition cancelJob_head (ep : endpoint) (jobId id : Z) : res (list Z) :=
  encodeRequest OP.CANCEL_JOB id
    (baseOps ep ++ [Attr TAG.integer (js "job-id") [AInt jobId]; Attr TAG.name user_name [AStr GateControl]]) [].
