(* ===== verification/Fmp4.v ===== *)
(** * src/cameras/fmp4.js

    Fragmented MP4: the boxes of a buffer, the tracks of an init segment, the
    times of a segment, moving them to zero and writing the duration. *)

From S2P Require Import Prelude JsBuffer JsMap.

Local Open Scope Z_scope.

Definition bad_mp4 : string := "bad_mp4".

(** [buf.readBigUInt64BE(i)] and [buf.writeBigUInt64BE(v, i)] *)
Definition readBigUInt64BE (b : list Z) (i : Z) : res Z :=
  h ← readUInt32BE b i; l ← readUInt32BE b (i + 4); Ok (h * 4294967296 + l).
Definition u64 (v : Z) : list Z := u32 (v / 4294967296) ++ u32 (v mod 4294967296).
Definition writeBigUInt64BE (b : list Z) (v off : Z) : res (list Z) :=
  if (0 <=? v) && (v <? 18446744073709551616) then write_bytes b off (u64 v) else Throw out_of_range.

(** ** Boxes *)

(** The type is the four bytes of its name. *)
Record box := Box { bx_type : list Z; bx_start : Z; bx_size : Z; bx_body : Z }.
Definition bx_end (b : box) : Z := bx_start b + bx_size b.

(** The size of a box and of its head. *)
Definition box_head (buf : list Z) (i end_ : Z) : res (Z * Z) :=
  size ← readUInt32BE buf i;
  if size =? 1 then
    if end_ <? i + 16 then Throw bad_mp4
    else
      big ← readBigUInt64BE buf (i + 8);
      if end_ - i <? big then Throw bad_mp4 else Ok (big, 16)
  else Ok (if size =? 0 then end_ - i else size, 8).

Fixpoint boxes_loop (fuel : nat) (buf : list Z) (i end_ : Z) : res (list box) :=
  if i + 8 <=? end_ then
    match fuel with
    | O => NoFuel
    | S fuel =>
        h ← box_head buf i end_;
        let '(size, head) := h in
        if (size <? head) || (end_ <? i + size) then Throw bad_mp4
        else
          rest ← boxes_loop fuel buf (i + size) end_;
          Ok (Box (subarray buf (i + 4) (i + 8)) i size (i + head) :: rest)
    end
  else Ok [].

(** [boxes(buf, start, end)] *)
Definition boxes_in (buf : list Z) (start end_ : Z) : res (list box) :=
  boxes_loop (Z.to_nat (end_ - start)) buf start end_.
Definition boxes (buf : list Z) : res (list box) := boxes_in buf 0 (blen buf).

Definition is_type (t : string) (b : box) : bool := bool_decide (bx_type b = js t).
Definition find_type (t : string) (l : list box) : option box := head (filter (λ b, is_type t b = true) l).
Definition all_type (t : string) (l : list box) : list box := filter (λ b, is_type t b = true) l.
Definition kids (buf : list Z) (b : box) : res (list box) := boxes_in buf (bx_body b) (bx_end b).

Definition childOf (buf : list Z) (b : box) (t : string) : res (option box) :=
  l ← kids buf b; Ok (find_type t l).
(** [x && childOf(buf, x, t)] *)
Definition childOf_opt (buf : list Z) (b : option box) (t : string) : res (option box) :=
  match b with Some b => childOf buf b t | None => Ok None end.

(** [buf[i] === 1] *)
Definition version1 (buf : list Z) (i : Z) : bool := bool_decide (byte_at buf i = Some 1).

Definition timescaleOf (buf : list Z) (b : box) : res Z :=
  readUInt32BE buf (bx_body b + (if version1 buf (bx_body b) then 20 else 12)).

(** ** Codecs *)

Definition hex_digit (n : Z) : Z := if n <? 10 then 48 + n else 87 + n.
(** [hex2(buf[i])]; [undefined] has no [toString]. *)
Definition hex2 (o : option Z) : res jstr :=
  match o with Some n => Ok [hex_digit (n / 16); hex_digit (n mod 16)] | None => Throw "TypeError" end.

Definition avc_codec (buf : list Z) (e : box) : res jstr :=
  l ← boxes_in buf (bx_body e + 78) (bx_end e);
  match find_type "avcC" l with
  | None => Ok (bx_type e)
  | Some c =>
      a ← hex2 (byte_at buf (bx_body c + 1));
      b ← hex2 (byte_at buf (bx_body c + 2));
      d ← hex2 (byte_at buf (bx_body c + 3));
      Ok (bx_type e ++ 46 :: a ++ b ++ d)
  end.

Definition hevc_codec (buf : list Z) (e : box) : res jstr :=
  l ← boxes_in buf (bx_body e + 78) (bx_end e);
  match find_type "hvcC" l with
  | None => Ok (bx_type e)
  | Some c =>
      let b := bx_body c in
      let profile := Z.land (byte_or0 buf (b + 1)) 31 in
      let tier := if Z.land (Z.shiftr (byte_or0 buf (b + 1)) 5) 1 =? 0 then js "L" else js "H" in
      let level := match byte_at buf (b + 12) with Some n => show_Z n | None => js "undefined" end in
      Ok (bx_type e ++ 46 :: show_Z profile ++ js ".6." ++ tier ++ level ++ js ".B0")
  end.

Definition codecOf (buf : list Z) (stsd : box) : res (option jstr) :=
  entries ← boxes_in buf (bx_body stsd + 8) (bx_end stsd);
  match entries with
  | [] => Ok None
  | e :: _ =>
      if is_type "avc1" e || is_type "avc3" e then Some <$> avc_codec buf e
      else if is_type "hvc1" e || is_type "hev1" e then Some <$> hevc_codec buf e
      else if is_type "mp4a" e then Ok (Some (js "mp4a.40.2"))
      else Ok (Some (bx_type e))
  end.

(** ** The init segment *)

Record track := Track { tr_id : Z; tr_timescale : option Z; tr_handler : option (list Z); tr_codec : option jstr }.
Record init_info := InitInfo { ii_movieTimescale : Z; ii_tracks : list track }.

(** [o ? f(o) : null] *)
Definition if_some {A B} (o : option A) (f : A → res B) : res (option B) :=
  match o with Some a => Some <$> f a | None => Ok None end.

Definition track_of (buf : list Z) (trak : box) : res (option track) :=
  tkhd ← childOf buf trak "tkhd";
  mdia ← childOf buf trak "mdia";
  match tkhd, mdia with
  | Some tkhd, Some mdia =>
      id ← readUInt32BE buf (bx_body tkhd + (if version1 buf (bx_body tkhd) then 20 else 12));
      mdhd ← childOf buf mdia "mdhd";
      hdlr ← childOf buf mdia "hdlr";
      minf ← childOf buf mdia "minf";
      stbl ← childOf_opt buf minf "stbl";
      stsd ← childOf_opt buf stbl "stsd";
      timescale ← if_some mdhd (timescaleOf buf);
      codec ← match stsd with Some s => codecOf buf s | None => Ok None end;
      Ok (Some (Track id timescale
                  ((λ h, subarray buf (bx_body h + 8) (bx_body h + 12)) <$> hdlr) codec))
  | _, _ => Ok None
  end.

Fixpoint tracks_of (buf : list Z) (l : list box) : res (list track) :=
  match l with
  | [] => Ok []
  | b :: l => t ← track_of buf b; r ← tracks_of buf l; Ok (match t with Some t => t :: r | None => r end)
  end.

Definition initInfo (buf : list Z) : res init_info :=
  top ← boxes buf;
  match find_type "moov" top with
  | None => Throw bad_mp4
  | Some moov =>
      mvhd ← childOf buf moov "mvhd";
      inner ← kids buf moov;
      tracks ← tracks_of buf (all_type "trak" inner);
      scale ← match mvhd with Some b => timescaleOf buf b | None => Ok 1000 end;
      Ok (InitInfo scale tracks)
  end.

(** [tracks.map(codec).filter(Boolean).join(', ')] *)
Fixpoint join_comma (l : list jstr) : jstr :=
  match l with [] => [] | [x] => x | x :: r => x ++ js ", " ++ join_comma r end.
Definition codecsString (i : init_info) : jstr :=
  join_comma (filter (λ s, nonempty s = true) (omap tr_codec (ii_tracks i))).

(** ** Times *)

Record tfdt := Tfdt { tf_trackId : Z; tf_offset : Z; tf_version : Z; tf_value : Z }.

Definition tfdt_of (buf : list Z) (traf : box) : res (option tfdt) :=
  tfhd ← childOf buf traf "tfhd";
  t ← childOf buf traf "tfdt";
  match tfhd, t with
  | Some tfhd, Some t =>
      let off := bx_body t + 4 in
      value ← (if version1 buf (bx_body t) then readBigUInt64BE buf off else readUInt32BE buf off);
      id ← readUInt32BE buf (bx_body tfhd + 4);
      Ok (Some (Tfdt id off (byte_or0 buf (bx_body t)) value))
  | _, _ => Ok None
  end.

Fixpoint tfdts_of (buf : list Z) (l : list box) : res (list tfdt) :=
  match l with
  | [] => Ok []
  | b :: l => t ← tfdt_of buf b; r ← tfdts_of buf l; Ok (match t with Some t => t :: r | None => r end)
  end.

Fixpoint tfdts_moofs (buf : list Z) (l : list box) : res (list tfdt) :=
  match l with
  | [] => Ok []
  | m :: l => inner ← kids buf m; here ← tfdts_of buf (all_type "traf" inner); r ← tfdts_moofs buf l; Ok (here ++ r)
  end.

Definition tfdtsOf (buf : list Z) : res (list tfdt) :=
  top ← boxes buf; tfdts_moofs buf (all_type "moof" top).

(** [Map(trackId -> value)] of the first times *)
Definition firstTimes (buf : list Z) : res (list (Z * Z)) :=
  l ← tfdtsOf buf;
  Ok (fold_left (λ m t, if map_has m (tf_trackId t) then m else map_set m (tf_trackId t) (tf_value t)) l []).

Definition slice (buf : list Z) (b : box) : list Z := subarray buf (bx_start b) (bx_end b).
Definition slices (buf : list Z) (l : list box) : list Z := mjoin (slice buf <$> l).

(** The new value of a time; 32-bit fields keep the low bits. *)
Definition write_time (out : list Z) (t : tfdt) (v : Z) : res (list Z) :=
  if tf_version t =? 1 then writeBigUInt64BE out v (tf_offset t)
  else writeUInt32BE out (Z.land v 4294967295) (tf_offset t).

Fixpoint rebase_times (base : list (Z * Z)) (out : list Z) (l : list tfdt) : res (list Z) :=
  match l with
  | [] => Ok out
  | t :: l =>
      match map_get base (tf_trackId t) with
      | None => rebase_times base out l
      | Some b => out ← write_time out t (Z.max 0 (tf_value t - b)); rebase_times base out l
      end
  end.

Definition kept (top : list box) : list box := filter (λ b, is_type "styp" b || is_type "sidx" b = false) top.

Definition rebase (buf : list Z) (base : list (Z * Z)) : res (list Z) :=
  top ← boxes buf;
  let out := slices buf (kept top) in
  l ← tfdtsOf out;
  rebase_times base out l.

(** ** The duration *)

Definition mehd_box (ticks : Z) : res (list Z) :=
  writeBigUInt64BE (u32 20 ++ js "mehd" ++ [1; 0; 0; 0] ++ alloc 8) ticks 12.

(** A box of type [t] around [body] with its length in front. *)
Definition wrap_box (t : string) (body : list Z) : res (list Z) :=
  let b := u32 0 ++ js t ++ body in
  writeUInt32BE b (blen b) 0.

(** [withMehd(init, ticks)] as the new segment and the place of the duration. *)
Definition withMehd (init : list Z) (ticks : Z) : res (list Z * Z) :=
  top ← boxes init;
  match find_type "moov" top with
  | None => Throw bad_mp4
  | Some moov =>
      if negb (bx_body moov - bx_start moov =? 8) then Throw bad_mp4
      else
        inner ← kids init moov;
        match find_type "mvex" inner with
        | None => Throw bad_mp4
        | Some mvex =>
            if negb (bx_body mvex - bx_start mvex =? 8) then Throw bad_mp4
            else
              mehd ← mehd_box ticks;
              mvexKids ← kids init mvex;
              newMvex ← wrap_box "mvex" (mehd ++ slices init (filter (λ b, is_type "mehd" b = false) mvexKids));
              let first := filter (λ b, bx_start b < bx_start mvex) inner in
              let parts := mjoin ((λ b, if bx_start b =? bx_start mvex then newMvex else slice init b) <$> inner) in
              newMoov ← wrap_box "moov" parts;
              let before := slices init (filter (λ b, bx_start b < bx_start moov) top) in
              let after := slices init (filter (λ b, bx_start moov < bx_start b) top) in
              Ok (before ++ newMoov ++ after,
                  blen before + 8 + foldr (λ b n, bx_size b + n) 0 first + 8 + 12)
        end
  end.

(** * Properties of the MP4 editing

    The boxes of a buffer tile it; moving the times touches the time fields
    only and puts the differences there; the duration stands where the
    returned offset says. *)

(** ** Boxes tile the buffer *)

(** The boxes follow one another from [s] to [stop]. *)
Fixpoint tiled (s : Z) (bs : list box) (stop : Z) : Prop :=
  match bs with
  | [] => stop = s
  | b :: bs => bx_start b = s ∧ bx_start b + 8 ≤ bx_body b ≤ bx_end b ∧ tiled (bx_end b) bs stop
  end.

Lemma readBigUInt64BE_range b i v : is_bytes b → readBigUInt64BE b i = Ok v → 0 ≤ v < 18446744073709551616.
Proof.
  intros Hb Hr. unfold readBigUInt64BE in Hr. res_inv.
  apply readUInt32BE_range in Hm; [|done]. apply readUInt32BE_range in Hm0; [|done]. lia.
Qed.

Lemma fueled_readBigUInt64BE b i : fueled (readBigUInt64BE b i).
Proof. unfold readBigUInt64BE. fuel_auto. Qed.
#[export] Hint Resolve fueled_readBigUInt64BE : fuel.

Lemma box_head_Ok buf i e size head : is_bytes buf → box_head buf i e = Ok (size, head) → head = 8 ∨ head = 16.
Proof.
  intros Hb Hh. unfold box_head in Hh. res_inv. case_match; [|naive_solver]. case_match; [done |]. res_inv.
  case_match; naive_solver.
Qed.

Lemma box_head_fueled buf i e : fueled (box_head buf i e).
Proof. unfold box_head. fuel_auto. Qed.

Lemma boxes_loop_spec fuel buf s e : is_bytes buf → e - s ≤ Z.of_nat fuel →
  fueled (boxes_loop fuel buf s e) ∧
  ∀ bs, boxes_loop fuel buf s e = Ok bs → ∃ stop, tiled s bs stop ∧ s ≤ stop ≤ Z.max s e ∧ e < stop + 8.
Proof.
  intros Hb. revert s. induction fuel as [|fuel IH]; intros s Hf; cbn [boxes_loop];
    (destruct (Z.leb_spec (s + 8) e); [| split; [done |]; intros bs [= <-]; exists s; cbn; lia]); [lia |].
  destruct (box_head buf s e) as [[size hd]| |] eqn:Hh; cbn [mbind res_bind];
    [| done | by apply box_head_fueled in Hh].
  apply box_head_Ok in Hh; [|done].
  destruct ((size <? hd) || (e <? s + size)) eqn:Hsz; [done |].
  destruct (IH (s + size)) as [IHf IHs]; [lia |].
  destruct (boxes_loop fuel buf (s + size) e) as [rest| |]; [| done | done]. cbn [mbind res_bind].
  split; [done |]. intros bs [= <-]. destruct (IHs rest eq_refl) as (stop & Ht & Hstop & He).
  exists stop. cbn [tiled bx_start bx_body bx_end bx_size]. unfold bx_end. cbn [bx_start bx_size].
  split_and!; [done | lia | lia | done | lia | lia | lia].
Qed.

Lemma boxes_in_spec buf s e bs : is_bytes buf → boxes_in buf s e = Ok bs →
  ∃ stop, tiled s bs stop ∧ s ≤ stop ≤ Z.max s e ∧ e < stop + 8.
Proof. intros Hb. apply boxes_loop_spec; [done | lia]. Qed.

Lemma tiled_le s bs stop : tiled s bs stop → s ≤ stop.
Proof. revert s. induction bs as [|b bs IH]; intros s; cbn [tiled]; [lia |]. intros (<- & Hb & Ht). apply IH in Ht. lia. Qed.

Lemma tiled_bounds s bs stop b : tiled s bs stop → b ∈ bs → s ≤ bx_start b ∧ bx_start b + 8 ≤ bx_body b ≤ bx_end b ∧ bx_end b ≤ stop.
Proof.
  revert s. induction bs as [|x bs IH]; intros s; cbn [tiled]; [by intros _ ?%elem_of_nil |].
  intros (<- & Hx & Ht) [->|Hb]%elem_of_cons.
  - apply tiled_le in Ht. lia.
  - destruct (IH _ Ht Hb) as (? & ? & ?). lia.
Qed.

(** A box divides the list at its place. *)
Lemma tiled_split s bs stop b : tiled s bs stop → b ∈ bs →
  ∃ l r, bs = l ++ b :: r ∧ tiled s l (bx_start b) ∧ tiled (bx_end b) r stop.
Proof.
  revert s. induction bs as [|x bs IH]; intros s; cbn [tiled]; [by intros _ ?%elem_of_nil |].
  intros (<- & Hx & Ht) [->|Hb]%elem_of_cons; [by exists [], bs |].
  destruct (IH _ Ht Hb) as (l & r & -> & Hl & Hr). by exists (x :: l), r.
Qed.

(** Its place separates the boxes before it from the boxes after it. *)
Lemma tiled_split_start s bs stop b : tiled s bs stop → b ∈ bs →
  ∃ l r, bs = l ++ b :: r ∧ tiled s l (bx_start b) ∧ tiled (bx_end b) r stop ∧
    (∀ x, x ∈ l → bx_start x < bx_start b) ∧ (∀ x, x ∈ r → bx_start b < bx_start x).
Proof.
  intros Ht Hb. destruct (tiled_bounds _ _ _ _ Ht Hb) as (Hs & Hbb & He).
  destruct (tiled_split _ _ _ _ Ht Hb) as (l & r & -> & Hl & Hr). exists l, r. split_and!; [done.. | |];
    intros x Hx; [destruct (tiled_bounds _ _ _ _ Hl Hx) | destruct (tiled_bounds _ _ _ _ Hr Hx)]; lia.
Qed.

Lemma slices_cons buf b bs : slices buf (b :: bs) = slice buf b ++ slices buf bs.
Proof. done. Qed.
Lemma slices_app buf l r : slices buf (l ++ r) = slices buf l ++ slices buf r.
Proof. unfold slices. by rewrite fmap_app, join_app. Qed.

Lemma subarray_app buf s m e : 0 ≤ s ≤ m → m ≤ e → e ≤ blen buf → subarray buf s m ++ subarray buf m e = subarray buf s e.
Proof.
  intros. apply byte_at_list_ext.
  - rewrite blen_app, !blen_subarray; lia.
  - rewrite blen_app, !blen_subarray by lia. intros i Hi. rewrite (byte_at_subarray buf s e) by lia.
    destruct (Z.ltb_spec i (m - s)).
    + rewrite byte_at_app_l by (rewrite blen_subarray; lia). by rewrite byte_at_subarray by lia.
    + replace i with (blen (subarray buf s m) + (i - (m - s))) at 1 by (rewrite blen_subarray; lia).
      rewrite byte_at_app_r by lia. rewrite byte_at_subarray by lia. f_equal. lia.
Qed.

Lemma slices_tiled buf s bs stop : tiled s bs stop → 0 ≤ s → stop ≤ blen buf → slices buf bs = subarray buf s stop.
Proof.
  revert s. induction bs as [|b bs IH]; intros s; cbn [tiled].
  - intros -> Hs _. unfold subarray. by rewrite Z.sub_diag.
  - intros (<- & Hb & Ht) Hs Hstop. rewrite slices_cons. unfold slice. pose proof (tiled_le _ _ _ Ht).
    rewrite (IH (bx_end b)) by (done || lia). apply subarray_app; lia.
Qed.

(** The sizes of some of the boxes are the lengths of their slices. *)
Lemma slices_length buf s bs stop l : tiled s bs stop → 0 ≤ s → stop ≤ blen buf → (∀ b, b ∈ l → b ∈ bs) →
  blen (slices buf l) = foldr (λ b n, bx_size b + n) 0 l.
Proof.
  intros Ht Hs Hstop. induction l as [|b l IH]; intros Hin; [done |].
  rewrite slices_cons, blen_app. cbn [foldr]. rewrite IH by set_solver.
  destruct (tiled_bounds _ _ _ b Ht) as (? & ? & ?); [set_solver |].
  unfold slice. rewrite blen_subarray by lia. unfold bx_end in *. lia.
Qed.

(** ** 64-bit numbers *)

Lemma blen_u64 v : blen (u64 v) = 8.
Proof. unfold u64. by rewrite blen_app, !blen_u32. Qed.
#[export] Hint Rewrite blen_u64 : jsbytes.

Lemma read64_at p v r o : o = blen p → readBigUInt64BE (p ++ u64 v ++ r) o = Ok v.
Proof.
  intros ->. unfold readBigUInt64BE, u64.
  set (h := v / 4294967296). set (m := v mod 4294967296).
  assert (readUInt32BE (p ++ (u32 h ++ u32 m) ++ r) (blen p) = Ok h) as ->
    by (rewrite <- app_assoc; by apply read32_at).
  assert (readUInt32BE (p ++ (u32 h ++ u32 m) ++ r) (blen p + 4) = Ok m) as ->.
  { rewrite <- app_assoc, app_assoc. apply read32_at. by rewrite blen_app, blen_u32. }
  cbn [mbind res_bind]. subst h m.
  f_equal. pose proof (Z.div_mod v 4294967296). lia.
Qed.

Lemma mehd_box_Ok ticks out : mehd_box ticks = Ok out →
  out = u32 20 ++ js "mehd" ++ [1; 0; 0; 0] ++ u64 ticks ∧ 0 ≤ ticks < 18446744073709551616.
Proof.
  unfold mehd_box, writeBigUInt64BE. intros H. case_match eqn:Ht; [|done].
  apply write_bytes_Ok in H as (_ & _ & ->). split; [reflexivity | lia].
Qed.

Lemma wrap_box_Ok t body out : wrap_box t body = Ok out → out = u32 (4 + blen (js t) + blen body) ++ js t ++ body.
Proof.
  unfold wrap_box, writeUInt32BE. intros H. case_match; [|done].
  apply write_bytes_Ok in H as (_ & _ & ->). rewrite !blen_app, blen_u32, Z.add_assoc. done.
Qed.

(** ** The duration *)

Lemma find_type_elem t l b : find_type t l = Some b → b ∈ l ∧ is_type t b = true.
Proof.
  unfold find_type. intros H. assert (b ∈ filter (λ b, is_type t b = true) l) as Hb.
  { destruct (filter _ l); [done |]. injection H as ->. by left. }
  by apply list_elem_of_filter in Hb as [? ?].
Qed.

Lemma filter_all {A} (P : A → Prop) `{∀ x, Decision (P x)} (l : list A) : (∀ x, x ∈ l → P x) → filter P l = l.
Proof.
  induction l as [|x l IH]; intros Hl; [done |].
  rewrite filter_cons_True by (apply Hl; by left). f_equal. apply IH. intros y Hy. apply Hl. by right.
Qed.
Lemma filter_none {A} (P : A → Prop) `{∀ x, Decision (P x)} (l : list A) : (∀ x, x ∈ l → ¬ P x) → filter P l = [].
Proof.
  induction l as [|x l IH]; intros Hl; [done |].
  rewrite filter_cons_False by (apply Hl; by left). apply IH. intros y Hy. apply Hl. by right.
Qed.

Lemma filter_before l b r : (∀ x, x ∈ l → bx_start x < bx_start b) → (∀ x, x ∈ r → bx_start b < bx_start x) →
  filter (λ x, bx_start x < bx_start b) (l ++ b :: r) = l.
Proof.
  intros Hl Hr. rewrite filter_app, filter_cons_False by lia.
  rewrite filter_all by done. rewrite filter_none; [by rewrite app_nil_r |]. intros x Hx. apply Hr in Hx. lia.
Qed.
Lemma filter_after l b r : (∀ x, x ∈ l → bx_start x < bx_start b) → (∀ x, x ∈ r → bx_start b < bx_start x) →
  filter (λ x, bx_start b < bx_start x) (l ++ b :: r) = r.
Proof.
  intros Hl Hr. rewrite filter_app, filter_cons_False by lia.
  rewrite (filter_all _ r) by done. rewrite filter_none; [done |]. intros x Hx. apply Hl in Hx. lia.
Qed.

Lemma replaced_parts init l b r new : (∀ x, x ∈ l → bx_start x < bx_start b) → (∀ x, x ∈ r → bx_start b < bx_start x) →
  mjoin ((λ x, if bx_start x =? bx_start b then new else slice init x) <$> l ++ b :: r) =
  slices init l ++ new ++ slices init r.
Proof.
  intros Hl Hr.
  assert (∀ k : list box, (∀ x, x ∈ k → bx_start x ≠ bx_start b) →
    (λ x, if bx_start x =? bx_start b then new else slice init x) <$> k = slice init <$> k) as Hk.
  { intros k Hk. apply list_fmap_ext. intros i x Hx. apply list_elem_of_lookup_2, Hk in Hx.
    destruct (Z.eqb_spec (bx_start x) (bx_start b)); [lia | done]. }
  rewrite fmap_app, fmap_cons, join_app, Hk, Hk; [| intros x Hx; apply Hr in Hx; lia | intros x Hx; apply Hl in Hx; lia].
  rewrite Z.eqb_refl. done.
Qed.

(** The duration inside the [mehd], [mvex] and [moov] around it. *)
Lemma mehd_place pre inner n m ticks a b c o : o = blen pre + 8 + blen inner + 8 + 12 →
  readBigUInt64BE (pre ++ (u32 n ++ js "moov" ++ inner ++
    (u32 m ++ js "mvex" ++ (u32 20 ++ js "mehd" ++ [1; 0; 0; 0] ++ u64 ticks) ++ a) ++ b) ++ c) o = Ok ticks.
Proof.
  intros ->.
  transitivity (readBigUInt64BE ((pre ++ u32 n ++ js "moov" ++ inner ++ u32 m ++ js "mvex" ++ u32 20 ++ js "mehd" ++
    [1; 0; 0; 0]) ++ u64 ticks ++ a ++ b ++ c) (blen pre + 8 + blen inner + 8 + 12)).
  - f_equal. by rewrite <- !app_assoc.
  - apply read64_at. rewrite !blen_app, !blen_u32. change (blen (js _)) with 4. change (blen [1; 0; 0; 0]) with 4. lia.
Qed.

(** The boxes of any buffer come out without a read outside it or without
    end: they are refused as a bad MP4, or they follow one another from the
    start, at most seven bytes stay behind, and their slices are the buffer up
    to there. *)
Theorem boxes_tile buf : is_bytes buf →
  fueled (boxes buf) ∧
  ∀ bs, boxes buf = Ok bs → ∃ stop, tiled 0 bs stop ∧ 0 ≤ stop ≤ blen buf ∧ blen buf < stop + 8 ∧
    slices buf bs = subarray buf 0 stop.
Proof.
  intros Hb. unfold boxes, boxes_in. pose proof (blen_nonneg buf).
  destruct (boxes_loop_spec (Z.to_nat (blen buf - 0)) buf 0 (blen buf)) as [Hf Hs]; [done | lia |].
  split; [done |]. intros bs Hbs. destruct (Hs bs Hbs) as (stop & Ht & Hstop & He).
  exists stop. split_and!; [done | lia.. |]. apply slices_tiled; [done | lia | lia].
Qed.

(** The duration written into an init segment can be read back at the
    offset returned with it; the bytes before and after the moov box are those
    of the segment, and the length in front of the new moov is its own. *)
Theorem withMehd_duration init ticks out off : is_bytes init → withMehd init ticks = Ok (out, off) →
  readBigUInt64BE out off = Ok ticks ∧
  ∃ top moov body stop, boxes init = Ok top ∧ find_type "moov" top = Some moov ∧
    out = subarray init 0 (bx_start moov) ++ (u32 (8 + blen body) ++ js "moov" ++ body) ++
          subarray init (bx_end moov) stop ∧ stop ≤ blen init ∧ blen init < stop + 8.
Proof.
  intros Hb H. unfold withMehd in H. res_inv.
  destruct (find_type "moov" v) as [moov|] eqn:Hmoov; [|done]. case_match eqn:Hplain; [done |]. res_inv.
  destruct (find_type "mvex" v0) as [mvex|] eqn:Hmvex; [|done]. case_match; [done |]. res_inv.
  apply mehd_box_Ok in Hm1 as [-> Ht]. apply wrap_box_Ok in Hm3 as ->. apply wrap_box_Ok in Hm4 as ->.
  pose proof (blen_nonneg init).
  destruct (boxes_in_spec _ _ _ _ Hb Hm) as (stop & Htop & Hstop & He).
  apply find_type_elem in Hmoov as Hmoov'. destruct Hmoov' as [Hin _].
  destruct (tiled_bounds _ _ _ _ Htop Hin) as (Hms & Hmb & Hme).
  destruct (tiled_split_start _ _ _ _ Htop Hin) as (l & r & -> & Hl & Hr & Hlt & Hrt).
  destruct (boxes_in_spec _ _ _ _ Hb Hm0) as (stop' & Hinner & Hstop' & He').
  apply find_type_elem in Hmvex as [Hin' _].
  destruct (tiled_split_start _ _ _ _ Hinner Hin') as (l' & r' & -> & Hl' & Hr' & Hlt' & Hrt').
  destruct (tiled_bounds _ _ _ _ Hinner Hin') as (Hxs & Hxb & Hxe).
  assert (blen (slices init l') = foldr (λ b n, bx_size b + n) 0 l') as Hlen'.
  { apply (slices_length init (bx_body moov) l' (bx_start mvex)); [done | lia | lia | done]. }
  rewrite (filter_before l), (filter_after l), (filter_before l') by done.
  rewrite replaced_parts by done. split.
  - apply mehd_place. by rewrite Hlen'.
  - eexists _, moov, _, stop. split_and!; [done | done | | lia | lia].
    rewrite (slices_tiled init 0 l (bx_start moov)), (slices_tiled init (bx_end moov) r stop) by (done || lia).
    done.
Qed.

(** ** Examples *)

(** A [free] box and a [moov] around an empty [mvex] *)
Definition sample_init : list Z :=
  u32 8 ++ js "free" ++ u32 16 ++ js "moov" ++ u32 8 ++ js "mvex".

Lemma boxes_tile_witness :
  ∃ bs stop, boxes sample_init = Ok bs ∧ tiled 0 bs stop ∧ slices sample_init bs = subarray sample_init 0 stop.
Proof.
  destruct (boxes_tile sample_init) as [_ Hs]; [repeat constructor; vm_compute; congruence |].
  destruct (boxes sample_init) as [bs| |] eqn:Hb; [|by vm_compute in Hb..].
  destruct (Hs bs eq_refl) as (stop & Ht & _ & _ & Hsl).
  exists bs, stop. split; [reflexivity | split; [exact Ht | exact Hsl]].
Defined.

Lemma withMehd_duration_witness :
  ∃ out off, withMehd sample_init 5000000000 = Ok (out, off) ∧ off = 36 ∧ readBigUInt64BE out off = Ok 5000000000.
Proof.
  destruct (withMehd sample_init 5000000000) as [[out off]| |] eqn:Hw; [|by vm_compute in Hw..].
  exists out, off. split; [done |]. split.
  - vm_compute in Hw. by injection Hw.
  - apply (withMehd_duration sample_init); [repeat constructor; vm_compute; congruence | exact Hw].
Defined.
