(* ===== verification/Bleparse.v ===== *)
(** * src/radio/bleparse.js

    Bluetooth advertisements of sensors: the structures of a packet, BTHome
    version 2, the two formats of the Xiaomi firmwares, and what of it goes
    to the server. *)

From S2P Require Import Prelude JsBuffer JsMap JsFloat.

Local Open Scope Z_scope.

Definition AD_NAME_SHORT : Z := 8.
Definition AD_NAME_FULL : Z := 9.
Definition AD_SERVICE_DATA16 : Z := 22.

Definition UUID_BTHOME : Z := 64722.
Definition UUID_ENV : Z := 6170.
Definition UUID_MIBEACON : Z := 65173.

(** ** The objects *)

(** The factor [0.35] of the source is [35 / 10 ^ 2]. *)
Record factor := Factor { fc_num : Z; fc_digits : nat }.
Definition factor_num (f : factor) : f64 := fl_quot (fc_num f) (Z.to_pos (10 ^ Z.of_nat (fc_digits f))).

Record obj := Obj { ob_name : string; ob_len : Z; ob_signed : bool; ob_factor : factor }.

Definition f1 : factor := Factor 1 0.
Definition f01 : factor := Factor 1 1.
Definition f001 : factor := Factor 1 2.
Definition f0001 : factor := Factor 1 3.

Definition OBJ : list (Z * obj) := [
  (0, Obj "packet" 1 false f1);
  (1, Obj "battery" 1 false f1);
  (2, Obj "temperature" 2 true f001);
  (3, Obj "humidity" 2 false f001);
  (4, Obj "pressure" 3 false f001);
  (5, Obj "illuminance" 3 false f001);
  (6, Obj "mass" 2 false f001);
  (7, Obj "mass_lb" 2 false f001);
  (8, Obj "dewpoint" 2 true f001);
  (9, Obj "count" 1 false f1);
  (10, Obj "energy" 3 false f0001);
  (11, Obj "power" 3 false f001);
  (12, Obj "voltage" 2 false f0001);
  (13, Obj "pm25" 2 false f1);
  (14, Obj "pm10" 2 false f1);
  (18, Obj "co2" 2 false f1);
  (19, Obj "tvoc" 2 false f1);
  (20, Obj "moisture" 2 false f001);
  (46, Obj "humidity" 1 false f1);
  (47, Obj "moisture" 1 false f1);
  (58, Obj "button" 1 false f1);
  (60, Obj "dimmer" 2 false f1);
  (61, Obj "count" 2 false f1);
  (62, Obj "count" 4 false f1);
  (63, Obj "rotation" 2 true f01);
  (64, Obj "distance_mm" 2 false f1);
  (65, Obj "distance_m" 2 false f01);
  (66, Obj "duration" 3 false f0001);
  (67, Obj "current" 2 false f0001);
  (68, Obj "speed" 2 false f001);
  (69, Obj "temperature" 2 true f01);
  (70, Obj "uv" 1 false f01);
  (71, Obj "volume" 2 false f01);
  (72, Obj "volume_ml" 2 false f1);
  (73, Obj "flow" 2 false f0001);
  (74, Obj "voltage" 2 false f01);
  (75, Obj "gas" 3 false f0001);
  (76, Obj "gas" 4 false f0001);
  (77, Obj "energy" 4 false f0001);
  (78, Obj "volume" 4 false f0001);
  (79, Obj "water" 4 false f0001);
  (80, Obj "timestamp" 4 false f1);
  (81, Obj "acceleration" 2 false f0001);
  (82, Obj "gyroscope" 2 false f0001);
  (85, Obj "volume_storage" 4 false f0001);
  (86, Obj "conductivity" 2 false f1);
  (87, Obj "temperature" 1 true f1);
  (88, Obj "temperature" 1 true (Factor 35 2));
  (89, Obj "count" 1 true f1);
  (90, Obj "count" 2 true f1);
  (91, Obj "count" 4 true f1);
  (92, Obj "power" 4 true f001);
  (93, Obj "current" 2 true f0001);
  (94, Obj "direction" 2 false f001);
  (95, Obj "precipitation" 2 false f1);
  (96, Obj "channel" 1 false f1);
  (97, Obj "rotational_speed" 2 false f1);
  (240, Obj "device_type" 2 false f1);
  (241, Obj "firmware" 4 false f1);
  (242, Obj "firmware" 3 false f1)].

Definition BINARY : list (Z * string) := [
  (15, "generic"); (16, "power_on"); (17, "opening"); (21, "battery_low"); (22, "charging"); (26, "door");
  (28, "gas_detected"); (29, "heat"); (30, "light"); (31, "lock"); (32, "moisture_wet"); (33, "motion");
  (34, "moving"); (35, "occupancy"); (38, "presence"); (41, "smoke"); (42, "sound"); (43, "tamper");
  (44, "vibration"); (45, "window")]%string.

Definition KEEP : list string := [
  "battery"; "temperature"; "humidity"; "pressure"; "illuminance"; "dewpoint"; "voltage"; "pm25"; "pm10"; "co2";
  "tvoc"; "moisture"; "button"; "uv"; "power"; "energy"; "opening"; "door"; "window"; "motion"; "occupancy"; "presence";
  "moisture_wet"; "smoke"; "battery_low"; "vibration"; "tamper"; "light"]%string.

(** ** Numbers *)

(** [f >= 1 ? 0 : Math.min(3, Math.ceil(-Math.log10(f)))]: the digits that
    the place of the first figure of the factor needs. *)
Definition digits_of (f : factor) : nat :=
  let enough (d : nat) := 10 ^ Z.of_nat (fc_digits f) <=? fc_num f * 10 ^ Z.of_nat d in
  if enough 0%nat then 0%nat else if enough 1%nat then 1%nat else if enough 2%nat then 2%nat else 3%nat.

Definition round (v : f64) (f : factor) : f64 := fl_fixed v (digits_of f).

(** The bytes that are there, the last one first; the callers check the length. *)
Fixpoint read_le (buf : list Z) (off : Z) (n : nat) : Z :=
  match n with O => 0 | S n => byte_or0 buf off + 256 * read_le buf (off + 1) n end.
Definition readUInt (buf : list Z) (off len : Z) : Z := read_le buf off (Z.to_nat len).

Definition signed_of (u max : Z) : Z := if max <=? 2 * u then u - max else u.
Definition readInt (buf : list Z) (off len : Z) : Z := signed_of (readUInt buf off len) (2 ^ (8 * len)).

(** ** The structures of a packet *)

Record ad := Ad { ad_type : Z; ad_data : list Z }.

Fixpoint ad_loop (fuel : nat) (buf : list Z) (i : Z) : res (list ad) :=
  if i <? blen buf then
    match fuel with
    | O => NoFuel
    | S fuel =>
        let len := byte_or0 buf i in
        if (len =? 0) || (blen buf <? i + 1 + len) then Ok []
        else
          rest ← ad_loop fuel buf (i + 1 + len);
          Ok (Ad (byte_or0 buf (i + 1)) (subarray buf (i + 2) (i + 1 + len)) :: rest)
    end
  else Ok [].
Definition adStructures (buf : list Z) : res (list ad) := ad_loop (length buf) buf 0.

(** ** BTHome *)

Inductive value := VNum (n : f64) | VBool (b : bool).
Abbreviation values := (list (string * value)).
Record bthome := BTHome { bt_encrypted : bool; bt_values : values }.

Definition is_binary (id : Z) : bool :=
  (id =? 15) || (id =? 16) || (id =? 17) || ((21 <=? id) && (id <=? 45)).

(** The number an object's bytes stand for. *)
Definition scaled (o : obj) (raw : Z) : f64 := round (fl_mul (fl_of_Z raw) (factor_num (ob_factor o))) (ob_factor o).
Definition raw_of (o : obj) (data : list Z) (off : Z) : Z :=
  if ob_signed o then readInt data off (ob_len o) else readUInt data off (ob_len o).

(** The first number of a name counts. *)
Definition set_first (vs : values) (k : string) (v : value) : values :=
  if map_has vs k then vs else map_set vs k v.

Fixpoint bthome_loop (fuel : nat) (data : list Z) (i : Z) (vs : values) : res values :=
  if i <? blen data then
    match fuel with
    | O => NoFuel
    | S fuel =>
        let id := byte_or0 data i in
        if is_binary id then
          if blen data <=? i + 1 then Ok vs
          else bthome_loop fuel data (i + 2)
                 match map_get BINARY id with
                 | Some name => map_set vs name (VBool (byte_or0 data (i + 1) =? 1))
                 | None => vs
                 end
        else if (id =? 83) || (id =? 84) then
          if blen data <=? i + 1 then Ok vs
          else bthome_loop fuel data (i + (2 + byte_or0 data (i + 1))) vs
        else
          match map_get OBJ id with
          | None => Ok vs
          | Some o =>
              if blen data <? i + 1 + ob_len o then Ok vs
              else bthome_loop fuel data (i + (1 + ob_len o))
                     (set_first vs (ob_name o) (VNum (scaled o (raw_of o data (i + 1)))))
          end
    end
  else Ok vs.

Definition parseBthome (data : list Z) : res (option bthome) :=
  match data with
  | [] => Ok None
  | info :: _ =>
      if negb (Z.shiftr info 5 =? 2) then Ok None
      else if Z.testbit info 0 then Ok (Some (BTHome true []))
      else Some ∘ BTHome false <$> bthome_loop (length data) data 1 []
  end.

(** ** The formats of the environment UUID *)

Record env := Env { en_format : string; en_values : values }.

(** [buf.toString('hex')] *)
Definition hex_digit (n : Z) : Z := if n <? 10 then 48 + n else 87 + n.
Definition to_hex (b : list Z) : jstr := mjoin ((λ n, [hex_digit (n / 16); hex_digit (n mod 16)]) <$> b).

Definition u16_be (b : list Z) (i : Z) : Z := byte_or0 b i * 256 + byte_or0 b (i + 1).
Definition u16_le (b : list Z) (i : Z) : Z := byte_or0 b (i + 1) * 256 + byte_or0 b i.

Definition fixed (raw : Z) (f : factor) : value := VNum (round (fl_mul (fl_of_Z raw) (factor_num f)) f).
Definition plain (n : Z) : value := VNum (fl_of_Z n).

Section WithUnicode.
Context `{Unicode}.

(** [String(mac || '').replace(/:/g, '').toLowerCase()] *)
Definition macHex (mac : jstr) : jstr := toLowerCase (filter (λ c, c ≠ 58) mac).

Definition parseEnv (data : list Z) (mac : jstr) : option env :=
  if blen data =? 13 then
    if negb (bool_decide (to_hex (subarray data 0 6) = macHex mac)) then None
    else Some (Env "atc1441" [
      ("temperature"%string, fixed (signed_of (u16_be data 6) 65536) f01);
      ("humidity"%string, plain (byte_or0 data 8));
      ("battery"%string, plain (byte_or0 data 9));
      ("voltage"%string, fixed (u16_be data 10) f0001)])
  else if blen data =? 15 then
    if negb (bool_decide (to_hex (reverse (subarray data 0 6)) = macHex mac)) then None
    else Some (Env "pvvx" [
      ("temperature"%string, fixed (signed_of (u16_le data 6) 65536) f001);
      ("humidity"%string, fixed (u16_le data 8) f001);
      ("voltage"%string, fixed (u16_le data 10) f0001);
      ("battery"%string, plain (byte_or0 data 12))])
  else None.

(** ** Advertisements *)

(** The decoder gives whole pairs of surrogates, and neither of a pair is
    refused: going through the units drops the same characters. *)
Definition cleanName (buf : list Z) : option jstr :=
  let s := filter (λ c, (32 <=? c) && negb (c =? 127) && negb (c =? replacement) = true) (utf8_decode buf) in
  match take 32 (trim s) with [] => None | t => Some t end.

Record found := Found { fo_format : string; fo_encrypted : bool; fo_values : values }.
Record advert := Advert { av_format : string; av_encrypted : bool; av_name : option jstr; av_values : values }.

(** What a service data structure of two bytes and more tells. *)
Definition service (mac : jstr) (data : list Z) : res (option found) :=
  let uuid := u16_le data 0 in
  let rest := subarray data 2 (blen data) in
  if uuid =? UUID_BTHOME then
    r ← parseBthome rest;
    Ok (option_map (λ b, Found "bthome" (bt_encrypted b) (bt_values b)) r)
  else if uuid =? UUID_ENV then
    Ok (option_map (λ e, Found (en_format e) false (en_values e)) (parseEnv rest mac))
  else if (uuid =? UUID_MIBEACON) && (5 <=? blen rest) then
    Ok (Some (Found "mibeacon" (Z.testbit (u16_le rest 0) 3) []))
  else Ok None.

Fixpoint advert_loop (mac : jstr) (ads : list ad) (name : option jstr) (fd : option found)
    : res (option jstr * option found) :=
  match ads with
  | [] => Ok (name, fd)
  | a :: ads =>
      let name :=
        if (ad_type a =? AD_NAME_FULL) || (ad_type a =? AD_NAME_SHORT) then
          match cleanName (ad_data a) with Some n => Some n | None => name end
        else name in
      if negb (ad_type a =? AD_SERVICE_DATA16) || (blen (ad_data a) <? 2) || bool_decide (is_Some fd)
      then advert_loop mac ads name fd
      else fd ← service mac (ad_data a); advert_loop mac ads name fd
  end.

Definition keeps (e : string * value) : bool :=
  bool_decide (e.1 ∈ KEEP) && match e.2 with VBool _ => true | VNum n => fl_finite n end.

Definition parseAdvert (mac : jstr) (buf : list Z) : res (option advert) :=
  ads ← adStructures buf;
  r ← advert_loop mac ads None None;
  Ok (option_map (λ f, Advert (fo_format f) (fo_encrypted f) r.1 (filter (λ e, keeps e = true) (fo_values f))) r.2).

End WithUnicode.

(** * Properties of the sensor advertisements

    A packet built from readings is read back as these readings, and what a
    packet of any bytes sends to the server is bounded. *)

(** ** The tables *)

Definition obj_ok (e : Z * obj) : bool :=
  negb (is_binary e.1) && negb (e.1 =? 83) && negb (e.1 =? 84) && (1 <=? ob_len (snd e)) && (ob_len (snd e) <=? 4).

Lemma OBJ_ok id o : map_get OBJ id = Some o →
  is_binary id = false ∧ (id =? 83) || (id =? 84) = false ∧ 1 ≤ ob_len o ≤ 4.
Proof.
  intros Hid%map_get_elem.
  assert (Forall (λ e, obj_ok e = true) OBJ) as Hall by (by repeat constructor).
  rewrite Forall_forall in Hall. specialize (Hall _ Hid). unfold obj_ok in Hall. cbn [fst snd] in Hall.
  destruct (is_binary id), (id =? 83), (id =? 84); cbn in Hall; try done. split_and!; [done.. | lia | lia].
Qed.

(** ** Bytes *)

Fixpoint le_bytes (n : nat) (v : Z) : list Z :=
  match n with O => [] | S n => v mod 256 :: le_bytes n (v / 256) end.

Lemma blen_le_bytes n v : blen (le_bytes n v) = Z.of_nat n.
Proof. revert v. induction n as [|n IH]; intros v; [done |]. cbn [le_bytes]. rewrite blen_cons, IH. lia. Qed.

Lemma byte_or0_at p x r o : o = blen p → byte_or0 (p ++ x :: r) o = x.
Proof.
  intros ->. unfold byte_or0. rewrite <- (Z.add_0_r (blen p)), byte_at_app_r by lia. by rewrite byte_at_0.
Qed.

Lemma byte_or0_range b i : is_bytes b → 0 ≤ byte_or0 b i < 256.
Proof.
  intros Hb. unfold byte_or0. destruct (byte_at b i) as [x|] eqn:Hx; [|cbn; lia].
  apply byte_at_byte in Hx; [|done]. unfold is_byte in Hx. done.
Qed.

Lemma read_le_bytes n p v r : read_le (p ++ le_bytes n v ++ r) (blen p) n = v mod 256 ^ Z.of_nat n.
Proof.
  revert p v. induction n as [|n IH]; intros p v; [by rewrite Z.mod_1_r |].
  cbn [read_le le_bytes]. rewrite <- app_comm_cons, byte_or0_at by done.
  replace (p ++ v mod 256 :: le_bytes n (v / 256) ++ r) with ((p ++ [v mod 256]) ++ le_bytes n (v / 256) ++ r)
    by by rewrite <- app_assoc.
  replace (blen p + 1) with (blen (p ++ [v mod 256])) by (by rewrite blen_app).
  rewrite IH. rewrite Nat2Z.inj_succ, Z.pow_succ_r by lia.
  rewrite Z.rem_mul_r by lia. lia.
Qed.

(** ** Readings *)

Inductive reading :=
  | RObj (id : Z) (raw : Z)
  | RBin (id : Z) (v : Z)
  | RText (id : Z) (text : list Z).

Definition in_range (o : obj) (raw : Z) : bool :=
  let max := 2 ^ (8 * ob_len o) in
  if ob_signed o then (- max <=? 2 * raw) && (2 * raw <? max) else (0 <=? raw) && (raw <? max).

Definition reading_ok (r : reading) : bool :=
  match r with
  | RObj id raw => match map_get OBJ id with Some o => in_range o raw | None => false end
  | RBin id v => is_binary id
  | RText id text => (id =? 83) || (id =? 84)
  end.

Definition encode (r : reading) : list Z :=
  match r with
  | RObj id raw => id :: match map_get OBJ id with
                         | Some o => le_bytes (Z.to_nat (ob_len o)) (raw mod 2 ^ (8 * ob_len o))
                         | None => []
                         end
  | RBin id v => [id; v]
  | RText id text => id :: blen text :: text
  end.

(** What a reading adds: the first number of a name, the last state of a sensor. *)
Definition note (vs : values) (r : reading) : values :=
  match r with
  | RObj id raw => match map_get OBJ id with
                   | Some o => set_first vs (ob_name o) (VNum (scaled o raw))
                   | None => vs
                   end
  | RBin id v => match map_get BINARY id with Some name => map_set vs name (VBool (v =? 1)) | None => vs end
  | RText _ _ => vs
  end.

Lemma raw_of_encode o p raw r : 1 ≤ ob_len o ≤ 4 → in_range o raw = true →
  raw_of o (p ++ le_bytes (Z.to_nat (ob_len o)) (raw mod 2 ^ (8 * ob_len o)) ++ r) (blen p) = raw.
Proof.
  intros Hl Hr. unfold raw_of, readInt, readUInt. rewrite read_le_bytes.
  rewrite Z2Nat.id by lia. change 256 with (2 ^ 8). rewrite <- Z.pow_mul_r by lia.
  unfold in_range in Hr. set (max := 2 ^ (8 * ob_len o)) in *.
  assert (0 < max) by (subst max; apply Z.pow_pos_nonneg; lia).
  rewrite Z.mod_mod by lia. destruct (ob_signed o); [|rewrite Z.mod_small; lia].
  unfold signed_of. destruct (Z.ltb_spec raw 0).
  - replace (raw mod max) with (raw + max); [case_match; lia |].
    apply Z.mod_unique with (-1); lia.
  - rewrite Z.mod_small by lia. case_match; lia.
Qed.

Lemma bthome_loop_encode fuel p rs vs : (length (mjoin (encode <$> rs)) ≤ fuel)%nat →
  Forall (λ r, reading_ok r = true) rs →
  bthome_loop fuel (p ++ mjoin (encode <$> rs)) (blen p) vs = Ok (fold_left note rs vs).
Proof.
  revert fuel p vs. induction rs as [|r rs IH]; intros fuel p vs Hf Hrs.
  { cbn. rewrite app_nil_r. destruct fuel; cbn [bthome_loop]; by rewrite Z.ltb_irrefl. }
  apply Forall_cons in Hrs as [Hr Hrs].
  change (mjoin (encode <$> r :: rs)) with (encode r ++ mjoin (encode <$> rs)) in *.
  assert (∃ x y, encode r = x :: y) as (x & y & Hxy) by (destruct r; eauto).
  destruct fuel as [|fuel]; [rewrite Hxy in Hf; cbn in Hf; lia |].
  rewrite length_app in Hf.
  assert (∀ vs', bthome_loop fuel (p ++ encode r ++ mjoin (encode <$> rs)) (blen (p ++ encode r)) vs' =
                 Ok (fold_left note rs vs')) as Hnext.
  { intros vs'. rewrite app_assoc. apply IH; [|done]. rewrite Hxy in Hf. cbn in Hf. lia. }
  rewrite blen_app in Hnext. cbn [fold_left bthome_loop].
  rewrite (proj2 (Z.ltb_lt (blen p) _)) by (rewrite !blen_app, Hxy, blen_cons; pose proof (blen_nonneg y);
    pose proof (blen_nonneg (mjoin (encode <$> rs))); lia).
  set (rest := mjoin (encode <$> rs)) in *. pose proof (blen_nonneg p). pose proof (blen_nonneg rest).
  destruct r as [id raw|id v|id text]; cbn [encode reading_ok note] in *; rewrite <- app_comm_cons, byte_or0_at by done.
  - destruct (map_get OBJ id) as [o|] eqn:Ho; [|done]. destruct (OBJ_ok _ _ Ho) as (Hb & Ht & Hl). rewrite Hb, Ht.
    set (bs := le_bytes _ _) in *. assert (blen bs = ob_len o) as Hbs by (subst bs; rewrite blen_le_bytes; lia).
    assert (blen (p ++ id :: bs ++ rest) = blen p + 1 + ob_len o + blen rest) as Htot by (rewrite blen_app, blen_cons, blen_app; lia).
    rewrite Htot, (proj2 (Z.ltb_ge _ _)) by lia.
    replace (raw_of o _ (blen p + 1)) with raw.
    2:{ replace (blen p + 1) with (blen (p ++ [id])) by (by rewrite blen_app).
        change (id :: bs ++ rest) with ([id] ++ bs ++ rest). rewrite (app_assoc p). symmetry. by apply raw_of_encode. }
    rewrite <- Hnext. f_equal. rewrite blen_cons. lia.
  - rewrite Hr. rewrite (proj2 (Z.leb_gt _ _)) by (rewrite !blen_app, blen_cons, blen_app, blen_cons, blen_nil; lia).
    replace (byte_or0 _ (blen p + 1)) with v.
    2:{ replace (blen p + 1) with (blen (p ++ [id])) by (by rewrite blen_app).
        change (id :: [v] ++ rest) with ([id] ++ v :: rest). rewrite (app_assoc p). by rewrite byte_or0_at. }
    rewrite <- Hnext. f_equal.
  - rewrite Hr. replace (is_binary id) with false by (destruct (Z.eqb_spec id 83), (Z.eqb_spec id 84); by subst).
    pose proof (blen_nonneg text).
    rewrite (proj2 (Z.leb_gt _ _)) by (rewrite blen_app, blen_cons, blen_app, blen_cons; lia).
    replace (byte_or0 _ (blen p + 1)) with (blen text).
    2:{ replace (blen p + 1) with (blen (p ++ [id])) by (by rewrite blen_app).
        change (id :: (blen text :: text) ++ rest) with ([id] ++ blen text :: text ++ rest).
        rewrite (app_assoc p). by rewrite byte_or0_at. }
    rewrite <- Hnext. f_equal. rewrite !blen_cons. lia.
Qed.

(** A BTHome packet made of sensor objects, states and texts is read
    back: every number is the raw value of its object, whatever its length and
    sign, times the object's factor; the first number of a name and the last
    state of a sensor are kept. *)
Theorem parseBthome_encode rs : Forall (λ r, reading_ok r = true) rs →
  parseBthome (64 :: mjoin (encode <$> rs)) = Ok (Some (BTHome false (fold_left note rs []))).
Proof.
  intros Hrs. unfold parseBthome. cbn [Z.shiftr Z.testbit].
  pose proof (bthome_loop_encode (length (64 :: mjoin (encode <$> rs))) [64] rs []) as Hl.
  cbn [app] in Hl. change (blen [64]) with 1 in Hl. rewrite Hl; [done | cbn; lia | done].
Qed.

(** ** Any packet *)

Lemma subarray_bytes b s e : is_bytes b → is_bytes (subarray b s e).
Proof. intros Hb. unfold subarray. auto using Forall_take, Forall_drop. Qed.

Lemma ad_loop_spec fuel buf i : is_bytes buf → 0 ≤ i → blen buf - i ≤ Z.of_nat fuel →
  ∃ ads, ad_loop fuel buf i = Ok ads ∧ Forall (λ a, is_bytes (ad_data a)) ads.
Proof.
  intros Hb. revert i. induction fuel as [|fuel IH]; intros i Hi Hf; cbn [ad_loop];
    (destruct (Z.ltb_spec i (blen buf)); [| by exists []]); [lia |].
  pose proof (byte_or0_range buf i Hb). destruct (Z.eqb_spec (byte_or0 buf i) 0) as [|Hne]; [by exists [] |].
  cbn [orb]. case_match; [by exists [] |].
  destruct (IH (i + 1 + byte_or0 buf i)) as (ads & -> & Hads); [lia.. |].
  cbn [mbind res_bind]. eexists. split; [done |]. constructor; [|done]. by apply subarray_bytes.
Qed.

Lemma set_first_ok vs k v : map_ok vs → map_ok (set_first vs k v).
Proof. intros. unfold set_first. case_match; [done |]. by apply map_set_ok. Qed.

Lemma bthome_loop_total fuel data i vs : is_bytes data → blen data - i ≤ Z.of_nat fuel → map_ok vs →
  ∃ vs', bthome_loop fuel data i vs = Ok vs' ∧ map_ok vs'.
Proof.
  intros Hb. revert i vs. induction fuel as [|fuel IH]; intros i vs Hf Hvs; cbn [bthome_loop];
    (destruct (Z.ltb_spec i (blen data)); [| eauto]); [lia |].
  pose proof (byte_or0_range data (i + 1) Hb).
  case_match; [case_match; [eauto |]; apply IH; [lia | case_match; [by apply map_set_ok | done]] |].
  case_match; [case_match; [eauto |]; apply IH; [lia | done] |].
  destruct (map_get OBJ (byte_or0 data i)) as [o|] eqn:Ho; [|eauto]. apply OBJ_ok in Ho as (_ & _ & Ho).
  case_match; [eauto |]. apply IH; [lia |]. by apply set_first_ok.
Qed.

Lemma parseBthome_total data : is_bytes data →
  ∃ r, parseBthome data = Ok r ∧ ∀ b, r = Some b → map_ok (bt_values b).
Proof.
  intros Hb. destruct data as [|info data]; [by exists None |]. unfold parseBthome.
  case_match; [by exists None |]. case_match.
  { eexists. split; [done |]. intros b [= <-]. constructor. }
  destruct (bthome_loop_total (length (info :: data)) (info :: data) 1 []) as (vs & -> & Hvs);
    [done | unfold blen; lia | constructor |].
  eexists. split; [done |]. by intros b [= <-].
Qed.

Section Any.
Context `{Unicode}.

Lemma parseEnv_ok data mac e : parseEnv data mac = Some e → map_ok (en_values e).
Proof.
  unfold parseEnv. intros He. repeat case_match; simplify_eq; cbn [en_values map_ok fmap list_fmap fst];
    (unfold map_ok; cbn; repeat constructor; set_solver).
Qed.

Lemma service_total mac data : is_bytes data →
  ∃ r, service mac data = Ok r ∧ ∀ f, r = Some f → map_ok (fo_values f).
Proof.
  intros Hb. unfold service. case_match; [|case_match; [|case_match]].
  - destruct (parseBthome_total (subarray data 2 (blen data))) as (r & -> & Hr); [by apply subarray_bytes |].
    eexists. split; [done |]. intros f Hf. destruct r as [b|]; [|done]. injection Hf as <-. by apply Hr.
  - eexists. split; [done |]. intros f Hf. destruct (parseEnv _ mac) as [e|] eqn:He; [|done].
    injection Hf as <-. by apply parseEnv_ok in He.
  - eexists. split; [done |]. intros f [= <-]. constructor.
  - by exists None.
Qed.

(** A name of 1 to 32 units without control characters and without the
    character that stands for bytes that are not UTF-8. *)
Definition name_ok (n : jstr) : Prop :=
  1 ≤ Z.of_nat (length n) ≤ 32 ∧ Forall (λ c, 32 ≤ c ∧ c ≠ 127 ∧ c ≠ 65533) n.

Lemma drop_space_Forall P s : Forall P s → Forall P (drop_space s).
Proof. induction 1; cbn [drop_space]; [done |]. case_match; [done | by constructor]. Qed.

Lemma trim_Forall P s : Forall P s → Forall P (trim s).
Proof. intros HP. unfold trim. by apply Forall_reverse, drop_space_Forall, Forall_reverse, drop_space_Forall. Qed.

Lemma cleanName_ok buf n : cleanName buf = Some n → name_ok n.
Proof.
  unfold cleanName. intros Hn. set (s := filter _ _) in Hn.
  assert (Forall (λ c, 32 ≤ c ∧ c ≠ 127 ∧ c ≠ 65533) (take 32 (trim s))) as Ht.
  { apply Forall_take, trim_Forall, Forall_forall. intros c Hc. subst s. apply list_elem_of_filter in Hc as [Hc _].
    unfold replacement in Hc. rewrite !andb_true_iff, !negb_true_iff, !Z.eqb_neq, Z.leb_le in Hc. naive_solver. }
  destruct (take 32 (trim s)) as [|c t] eqn:Htk; [done |]. injection Hn as <-. split; [|done].
  pose proof (length_take (trim s) 32) as Hlen. rewrite Htk in Hlen. cbn [length] in *. lia.
Qed.

Lemma advert_loop_total mac ads name fd : Forall (λ a, is_bytes (ad_data a)) ads →
  (∀ n, name = Some n → name_ok n) → (∀ f, fd = Some f → map_ok (fo_values f)) →
  ∃ name' fd', advert_loop mac ads name fd = Ok (name', fd') ∧
    (∀ n, name' = Some n → name_ok n) ∧ (∀ f, fd' = Some f → map_ok (fo_values f)).
Proof.
  intros Hads. revert name fd. induction Hads as [|a ads Ha Hads IH]; intros name fd Hn Hf; cbn [advert_loop].
  { by exists name, fd. }
  match goal with |- context [advert_loop mac ads ?n fd] => set (name1 := n) end.
  assert (∀ n, name1 = Some n → name_ok n) as Hn1.
  { subst name1. case_match; [|done]. destruct (cleanName (ad_data a)) as [m|] eqn:Hm; [|done].
    intros n [= <-]. by apply cleanName_ok in Hm. }
  case_match; [by apply IH |].
  destruct (service_total mac (ad_data a) Ha) as (r & -> & Hr). cbn [mbind res_bind]. by apply IH.
Qed.

(** Whatever the bytes of an advertisement, reading it comes to an end
    without an error, and what goes to the server is bounded: values of the
    listed names only, each name once, every number finite, and a name of the
    device of at most 32 printable units. *)
Theorem parseAdvert_any mac buf : is_bytes buf →
  ∃ r, parseAdvert mac buf = Ok r ∧
    ∀ a, r = Some a →
      Forall (λ e, e.1 ∈ KEEP ∧ ∀ n, e.2 = VNum n → fl_finite n = true) (av_values a) ∧
      NoDup (av_values a).*1 ∧ ∀ n, av_name a = Some n → name_ok n.
Proof.
  intros Hb. unfold parseAdvert, adStructures.
  destruct (ad_loop_spec (length buf) buf 0 Hb) as (ads & -> & Hads); [lia | unfold blen; lia |]. cbn [mbind res_bind].
  destruct (advert_loop_total mac ads None None Hads) as (name & fd & -> & Hn & Hf); [done.. |]. cbn [mbind res_bind].
  eexists. split; [done |]. intros a Ha. cbn [fst snd] in Ha. destruct fd as [f|]; [|done]. injection Ha as <-.
  cbn [av_values av_name]. split_and!; [| | done].
  - apply Forall_forall. intros e [He _]%list_elem_of_filter. unfold keeps in He.
    apply andb_true_iff in He as [Hk%bool_decide_eq_true He]. split; [done |]. intros n Hv. by rewrite Hv in He.
  - eapply sublist_NoDup; [by apply (Hf f) |]. apply fmap_sublist, sublist_filter.
Qed.
End Any.

(** ** Examples *)

(** A battery of 90, 25.06 degrees, a text, an open window. *)
Definition sample_readings : list reading :=
  [RObj 1 90; RObj 2 2506; RText 83 (js "hi"); RBin 45 1; RObj 69 (-7)].

Lemma parseBthome_encode_witness :
  parseBthome (64 :: mjoin (encode <$> sample_readings)) =
    Ok (Some (BTHome false (fold_left note sample_readings []))) ∧
  fold_left note sample_readings [] =
    [("battery"%string, VNum (fl_of_Z 90)); ("temperature"%string, VNum (fl_quot 2506 100)); ("window"%string, VBool true)].
Proof. split; [apply (parseBthome_encode sample_readings); by repeat constructor | by vm_compute]. Defined.

Definition sample_advert : list Z :=
  [3; 9; 65; 66; 10; 22; 210; 252; 64; 1; 90; 2; 202; 9; 45].

Lemma parseAdvert_any_witness :
  ∃ a, @parseAdvert ascii_unicode (js "a4:c1:38:00:00:01") sample_advert = Ok (Some a) ∧
    av_name a = Some (js "AB") ∧ NoDup (av_values a).*1.
Proof.
  destruct (@parseAdvert_any ascii_unicode (js "a4:c1:38:00:00:01") sample_advert) as (r & Hr & Ha).
  { repeat constructor; vm_compute; congruence. }
  destruct r as [a|]; [|by vm_compute in Hr]. exists a. split; [exact Hr |]. split.
  - vm_compute in Hr. by injection Hr as <-.
  - by apply (Ha a).
Defined.
