(* ===== verification/FeatureStatus.v ===== *)
(** * src/features/status.js

    The state of a function for the telemetry, and the recurring task: its
    timer and whether it was stopped. *)

From S2P Require Import Prelude.

Local Open Scope Z_scope.

Definition MAX_MSG : nat := 200.

Record last_error := LastError { le_at : Z; le_message : jstr }.

Record feature_status := FeatureStatus {
  fs_enabled : bool; fs_running : bool;
  fs_lastRunAt : option Z; fs_lastOkAt : option Z; fs_lastError : option last_error }.

Definition status_new : feature_status := FeatureStatus false false None None None.

Definition setEnabled (s : feature_status) (on : bool) : feature_status :=
  FeatureStatus on (if on then fs_running s else false) (fs_lastRunAt s) (fs_lastOkAt s) (fs_lastError s).

Definition start (s : feature_status) (now : Z) : feature_status :=
  FeatureStatus (fs_enabled s) true (Some now) (fs_lastOkAt s) (fs_lastError s).

Definition ok (s : feature_status) (now : Z) : feature_status :=
  FeatureStatus (fs_enabled s) false (fs_lastRunAt s) (Some now) None.

(** The text of the error is given. *)
Definition fail (s : feature_status) (now : Z) (message : jstr) : feature_status :=
  FeatureStatus (fs_enabled s) false (fs_lastRunAt s) (fs_lastOkAt s) (Some (LastError now (take MAX_MSG message))).

(** ** The recurring task *)

(** The pending timer as its delay. *)
Record task := Task { ta_timer : option Z; ta_stopped : bool }.

Definition task_new : task := Task None false.

Definition schedule (t : task) (ms : Z) : task :=
  if ta_stopped t then t else Task (Some (Z.max 0 ms)) (ta_stopped t).

Definition task_start (t : task) (firstDelayMs : Z) : task := schedule (Task (ta_timer t) false) firstDelayMs.
Definition task_stop (t : task) : task := Task None true.

(** [run]: the timer fires, and whether the task is called; its end. *)
Definition run_begin (t : task) : task * bool := (Task None (ta_stopped t), negb (ta_stopped t)).
Definition run_end (t : task) (delay : Z) : task := if ta_stopped t then t else schedule t delay.
