(* ===== verification/Presence.v ===== *)
(** * src/presence/presence.js

    Who is at home: the addresses of the released devices, what the neighbour
    table and the probes say of them, the transitions, the queue of events
    for the server, and a check as the steps between its answers. Also
    [hostsFor] of netwatch.js and [hostsInSubnet] of tcpSweep.js. *)

From S2P Require Import Prelude JsBuffer JsMap NetwatchDnsWire LanInterfaces FeatureStatus.

Local Open Scope Z_scope.

Abbreviation mac := jstr.
Abbreviation ip := jstr.

(** ** The hosts of a subnet *)

Definition _intToIp (n : Z) : ip :=
  join dot (show_Z <$> [Z.land (Z.shiftr n 24) 255; Z.land (Z.shiftr n 16) 255; Z.land (Z.shiftr n 8) 255; Z.land n 255]).

Definition slash : Z := 47.
(** [cidr.split('/')]: the network and the number after it. *)
Definition cidr_parts (cidr : jstr) : jstr * Z :=
  match split_on slash cidr with n :: p :: _ => (n, operand p) | [n] => (n, 0) | [] => ([], 0) end.

(** [2 ** (32 - prefix)]; a fraction counts no host, like one address. *)
Definition host_count (prefix : Z) : Z := if 32 <? prefix then 1 else 2 ^ (32 - prefix).

Definition hostsInSubnet (cidr : jstr) : list ip :=
  let '(network, prefix) := cidr_parts cidr in
  let base := uint32 (_ipToInt network) in
  (λ i, _intToIp (uint32 (base + i))) <$> seqZ 1 (host_count prefix - 2).

Definition hostsFor (cidr : jstr) (maxPrefix : Z) (localIp : option ip) : list ip :=
  let prefix := (cidr_parts cidr).2 in
  if maxPrefix <=? prefix then hostsInSubnet cidr
  else
    match localIp with
    | None => []
    | Some l => hostsInSubnet (join dot (take 3 (split_on dot l)) ++ js ".0/24")
    end.

(** ** The state *)

Definition INTERVAL_MS : Z := 60000.
Definition SWEEP_EVERY_MS : Z := 600000.
Definition MAX_QUEUE : nat := 256.

Record config := Config { pc_enabled : bool; pc_macs : list mac; pc_awayAfterSec : Z }.
Record device := Device { dv_online : option bool; dv_lastSeen : option Z; dv_since : Z }.
Record event := Event { ev_mac : mac; ev_online : bool; ev_at : Z; ev_lastSeen : option Z }.

(** Where a check stands: between ticks, waiting for the scanner, waiting for
    the server's answer to so many events. *)
Inductive phase := Idle | Detecting (macs : list mac) | Posting (n : nat).

Record presence := Presence {
  pr_cfg : config;
  pr_state : list (mac * device);
  pr_ipCache : list (mac * ip);
  pr_queue : list event;
  pr_lastSweepAt : Z;
  pr_busy : bool;
  pr_phase : phase;
  pr_status : feature_status;
  pr_loop : task }.

Definition presence_new : presence :=
  Presence (Config false [] 600) [] [] [] 0 false Idle status_new task_new.

(** [new Set(l)], [set.add(x)] *)
Definition set_add (l : list jstr) (x : jstr) : list jstr := if bool_decide (x ∈ l) then l else l ++ [x].
Definition to_set (l : list jstr) : list jstr := fold_left set_add l [].

(** ** Settings *)

Definition drop_unwanted {V} (want : list mac) (gone : list mac) (m : list (mac * V)) : list (mac * V) :=
  fold_left (λ m k, if bool_decide (k ∈ want) then m else map_delete m k) gone m.

Definition track (now : Z) (m : list (mac * device)) (k : mac) : list (mac * device) :=
  if map_has m k then m else map_set m k (Device None None now).

Definition apply (s : presence) (enabled : bool) (macs : list mac) (awayAfterSec now : Z) : presence :=
  let was := pc_enabled (pr_cfg s) in
  let cfg := Config enabled (if enabled then macs else []) awayAfterSec in
  let want := to_set (pc_macs cfg) in
  let keys := (pr_state s).*1 in
  Presence cfg
    (fold_left (track now) want (drop_unwanted want keys (pr_state s)))
    (drop_unwanted want keys (pr_ipCache s))
    (if enabled then pr_queue s else [])
    (pr_lastSweepAt s) (pr_busy s) (pr_phase s)
    (setEnabled (pr_status s) enabled)
    (if enabled && negb was then task_start (pr_loop s) 5000
     else if negb enabled && was then task_stop (pr_loop s) else pr_loop s).

Definition stop (s : presence) : presence :=
  Presence (pr_cfg s) (pr_state s) (pr_ipCache s) (pr_queue s) (pr_lastSweepAt s) (pr_busy s) (pr_phase s)
    (pr_status s) (task_stop (pr_loop s)).

(** ** Looking for the devices *)

Record neighbor := Neighbor { nb_ip : ip; nb_mac : option mac; nb_state : jstr }.
Record lan := Lan { ln_cidr : jstr; ln_localIp : option ip }.

(** What the neighbour table says: seen, the addresses of each, the last ones. *)
Record sighting := Sighting { sg_seen : list mac; sg_ips : list (mac * list ip); sg_cache : list (mac * ip) }.

Definition sight (tracked : list mac) (g : sighting) (e : neighbor) : sighting :=
  match nb_mac e with
  | None => g
  | Some m =>
      if negb (bool_decide (m ∈ tracked)) then g
      else Sighting
        (if bool_decide (nb_state e = js "REACHABLE") then set_add (sg_seen g) m else sg_seen g)
        (map_set (sg_ips g) m (set_add (default [] (map_get (sg_ips g) m)) (nb_ip e)))
        (map_set (sg_cache g) m (nb_ip e))
  end.

Definition add_some (l : list ip) (o : option ip) : list ip :=
  match o with Some (c :: i) => set_add l (c :: i) | _ => l end.

(** The addresses to probe: those of the devices the table does not show. *)
Definition probe_ips (knownIp : mac → option ip) (macs : list mac) (g : sighting) : list ip :=
  fold_left (λ acc m,
    if bool_decide (m ∈ sg_seen g) then acc
    else fold_left set_add
           (add_some (add_some (default [] (map_get (sg_ips g) m)) (map_get (sg_cache g) m)) (knownIp m)) acc)
    macs [].

(** [for (const [ip, mac] of r.online) if (tracked.has(mac)) …] *)
Definition answers (tracked : list mac) (r : list (ip * mac)) (g : sighting) : sighting :=
  fold_left (λ g a,
    if bool_decide (a.2 ∈ tracked)
    then Sighting (set_add (sg_seen g) a.2) (sg_ips g) (map_set (sg_cache g) a.2 a.1) else g) r g.

Section Scanner.
(** The scanner's answers, the addresses another part knows, the subnets. *)
Context (probe : list ip → list (ip * mac)) (sweep : list ip → option ip → list (ip * mac)).
Context (knownIp : mac → option ip) (ownSweep : bool) (getSubnets : list lan) (maxPrefix sweepEveryMs : Z).

Definition sweep_all (tracked : list mac) (g : sighting) : sighting :=
  fold_left (λ g sn,
    match hostsFor (ln_cidr sn) maxPrefix (ln_localIp sn) with
    | [] => g
    | hosts => answers tracked (sweep hosts (ln_localIp sn)) g
    end) getSubnets g.

(** [_detect(macs)]: what was seen, the new cache, the time of the last sweep. *)
Definition _detect (macs : list mac) (neigh : list neighbor) (cache : list (mac * ip)) (lastSweepAt now : Z)
    : list mac * list (mac * ip) * Z :=
  let g := fold_left (sight macs) neigh (Sighting [] [] cache) in
  let ips := probe_ips knownIp macs g in
  let g := match ips with [] => g | _ => answers macs (probe ips) g end in
  let missing := filter (λ m, m ∉ sg_seen g) macs in
  if bool_decide (missing ≠ []) && ownSweep && (sweepEveryMs <=? now - lastSweepAt) then
    let g := sweep_all macs g in (sg_seen g, sg_cache g, now)
  else (sg_seen g, sg_cache g, lastSweepAt).

End Scanner.

(** ** Transitions *)

Definition transition (awayMs : Z) (seen : list mac) (now : Z) (m : mac) (d : device) : device * list event :=
  if bool_decide (m ∈ seen) then
    (Device (Some true) (Some now) (dv_since d),
     if bool_decide (dv_online d = Some true) then [] else [Event m true now (Some now)])
  else if negb (bool_decide (dv_online d = Some false)) && (awayMs <=? now - default (dv_since d) (dv_lastSeen d)) then
    (Device (Some false) (dv_lastSeen d) (dv_since d), [Event m false now (dv_lastSeen d)])
  else (d, []).

Fixpoint transitions (awayMs : Z) (seen : list mac) (now : Z) (st : list (mac * device))
    : list (mac * device) * list event :=
  match st with
  | [] => ([], [])
  | (m, d) :: st =>
      let '(d', evs) := transition awayMs seen now m d in
      let '(st', rest) := transitions awayMs seen now st in
      ((m, d') :: st', evs ++ rest)
  end.

(** ** A check *)

Definition finish (s : presence) (status : feature_status) (queue : list event) : presence :=
  Presence (pr_cfg s) (pr_state s) (pr_ipCache s) queue (pr_lastSweepAt s) false Idle status (pr_loop s).

(** [_flush] up to the request. *)
Definition flush (s : presence) (now : Z) : presence :=
  match pr_queue s with
  | [] => finish s (ok (pr_status s) now) []
  | q => Presence (pr_cfg s) (pr_state s) (pr_ipCache s) q (pr_lastSweepAt s) (pr_busy s)
           (Posting (length (take MAX_QUEUE q))) (pr_status s) (pr_loop s)
  end.

(** The last 256 of the events stay. *)
Definition enqueue (q events : list event) : list event :=
  let q := q ++ events in drop (length q - MAX_QUEUE) q.

Definition after_detect (s : presence) (seen : list mac) (now : Z) : presence :=
  let '(st, events) := transitions (pc_awayAfterSec (pr_cfg s) * 1000) seen now (pr_state s) in
  flush (Presence (pr_cfg s) st (pr_ipCache s)
           (match events with [] => pr_queue s | _ => enqueue (pr_queue s) events end)
           (pr_lastSweepAt s) (pr_busy s) (pr_phase s) (pr_status s) (pr_loop s)) now.

Definition tick (s : presence) (now : Z) : presence :=
  if negb (pc_enabled (pr_cfg s)) || pr_busy s then s
  else
    let s' := Presence (pr_cfg s) (pr_state s) (pr_ipCache s) (pr_queue s) (pr_lastSweepAt s) true
                (Detecting (pr_state s).*1) (start (pr_status s) now) (pr_loop s) in
    match (pr_state s).*1 with [] => after_detect s' [] now | _ => s' end.

(** The scanner is done. *)
Definition detected (s : presence) (seen : list mac) (cache : list (mac * ip)) (lastSweepAt now : Z) : presence :=
  match pr_phase s with
  | Detecting _ =>
      after_detect (Presence (pr_cfg s) (pr_state s) cache (pr_queue s) lastSweepAt (pr_busy s) (pr_phase s)
                      (pr_status s) (pr_loop s)) seen now
  | _ => s
  end.

(** The server has answered, or something threw. *)
Definition posted (s : presence) (now : Z) : presence :=
  match pr_phase s with
  | Posting n => finish s (ok (pr_status s) now) (drop n (pr_queue s))
  | _ => s
  end.
Definition failed (s : presence) (now : Z) (message : jstr) : presence :=
  match pr_phase s with Idle => s | _ => finish s (fail (pr_status s) now message) (pr_queue s) end.

(** What can happen, in any order. *)
Inductive input :=
  | IApply (enabled : bool) (macs : list mac) (awayAfterSec now : Z)
  | IStop
  | ITick (now : Z)
  | IDetected (seen : list mac) (cache : list (mac * ip)) (lastSweepAt now : Z)
  | IPosted (now : Z)
  | IFailed (now : Z) (message : jstr).

Definition step (s : presence) (i : input) : presence :=
  match i with
  | IApply e m a now => apply s e m a now
  | IStop => stop s
  | ITick now => tick s now
  | IDetected seen cache at_ now => detected s seen cache at_ now
  | IPosted now => posted s now
  | IFailed now message => failed s now message
  end.
Definition run (s : presence) (l : list input) : presence := fold_left step l s.

(** ** Telemetry *)

(** [home], [tracked] and [pending] *)
Definition telemetry (s : presence) : nat * nat * nat :=
  (length (filter (λ e : mac * device, dv_online e.2 = Some true) (pr_state s)), length (pr_state s), length (pr_queue s)).

(** * Properties of the presence detection

    The queue and the tracked devices over any order of checks, settings and
    answers; the events of a device over any sequence of checks. *)

(** ** The tracked devices *)

Lemma elem_of_set_add l x y : y ∈ set_add l x ↔ y ∈ l ∨ y = x.
Proof. unfold set_add. case_bool_decide; set_solver. Qed.

Lemma elem_of_fold_set_add k l y : y ∈ fold_left set_add k l ↔ y ∈ l ∨ y ∈ k.
Proof. revert l. induction k as [|x k IH]; intros l; cbn [fold_left]; [set_solver |]. rewrite IH, elem_of_set_add. set_solver. Qed.

Lemma elem_of_to_set l y : y ∈ to_set l ↔ y ∈ l.
Proof. unfold to_set. rewrite elem_of_fold_set_add. set_solver. Qed.

Lemma drop_unwanted_ok {V} want gone (m : list (mac * V)) : map_ok m →
  map_ok (drop_unwanted want gone m) ∧
  ∀ k, k ∈ (drop_unwanted want gone m).*1 ↔ k ∈ m.*1 ∧ (k ∈ gone → k ∈ want).
Proof.
  unfold drop_unwanted. revert m. induction gone as [|g gone IH]; intros m Hm; cbn [fold_left]; [set_solver |].
  case_bool_decide as Hg.
  - destruct (IH m Hm) as [Hok Hk]. split; [done |]. intros k. rewrite Hk, elem_of_cons.
    split; intros [? Hi]; (split; [done |]); [intros [->|?]; [done | by apply Hi] | intros ?; apply Hi; by right].
  - destruct (IH (map_delete m g)) as [Hok Hk]; [by apply map_delete_ok |]. split; [done |].
    intros k. rewrite Hk, map_delete_keys, elem_of_cons. split.
    + intros [[? ?] Hi]. split; [done |]. intros [->|?]; [done | by apply Hi].
    + intros [? Hi]. split; [split; [done |] |]; [intros ->; apply Hg, Hi; by left | intros ?; apply Hi; by right].
Qed.

Lemma map_has_spec {V} (m : list (mac * V)) k : map_has m k = true ↔ k ∈ m.*1.
Proof.
  unfold map_has. destruct (map_get m k) as [v|] eqn:Hk.
  - apply map_get_elem, (list_elem_of_fmap_2 fst) in Hk. done.
  - apply map_get_None in Hk. done.
Qed.

Lemma track_ok now m k : map_ok m → map_ok (track now m k) ∧ ∀ x, x ∈ (track now m k).*1 ↔ x ∈ m.*1 ∨ x = k.
Proof.
  intros Hm. unfold track. destruct (map_has m k) eqn:Hk.
  - apply map_has_spec in Hk. split; [done |]. set_solver.
  - split; [by apply map_set_ok |]. intros x. rewrite map_set_keys. case_decide; set_solver.
Qed.

Lemma fold_track_ok now l m : map_ok m →
  map_ok (fold_left (track now) l m) ∧ ∀ x, x ∈ (fold_left (track now) l m).*1 ↔ x ∈ m.*1 ∨ x ∈ l.
Proof.
  revert m. induction l as [|k l IH]; intros m Hm; cbn [fold_left]; [set_solver |].
  destruct (track_ok now m k Hm) as [Hok Hk]. destruct (IH _ Hok) as [Hok' Hk']. split; [done |].
  intros x. rewrite Hk', Hk. set_solver.
Qed.

(** ** Checks do not change which devices are tracked *)

Lemma transitions_keys away seen now st : (transitions away seen now st).1.*1 = st.*1.
Proof.
  induction st as [|[m d] st IH]; cbn [transitions]; [done |].
  destruct (transition away seen now m d) as [d' evs]. destruct (transitions away seen now st) as [st' rest].
  cbn [fst] in *. rewrite !fmap_cons. cbn [fst]. f_equal. exact IH.
Qed.

(** ** The invariant *)

(** What of a state does not depend on where the check stands. *)
Record core (s : presence) : Prop := Core {
  co_tracked : map_ok (pr_state s);
  co_macs m : m ∈ (pr_state s).*1 ↔ m ∈ pc_macs (pr_cfg s);
  co_queue : (length (pr_queue s) <= MAX_QUEUE)%nat;
  co_off : pc_enabled (pr_cfg s) = false → pr_queue s = [] ∧ pr_state s = [] }.

(** A check is on its way when [busy] says so; the events the server is being
    asked to take are the whole queue, or the queue was emptied meanwhile. *)
Record inv (s : presence) : Prop := Inv {
  inv_core : core s;
  inv_busy : pr_busy s = true ↔ pr_phase s ≠ Idle;
  inv_batch n : pr_phase s = Posting n → pr_queue s = [] ∨ n = length (pr_queue s) }.

Lemma inv_new : inv presence_new.
Proof. split; [split; cbn; [constructor | set_solver | unfold MAX_QUEUE; lia | done] | cbn; naive_solver | done]. Qed.

Lemma apply_inv s e macs a now : inv s → inv (apply s e macs a now).
Proof.
  intros [[Ht Hm Hq Hoff] Hb Hp]. set (want := to_set (if e then macs else [])).
  destruct (drop_unwanted_ok want (pr_state s).*1 (pr_state s) Ht) as [Hd Hdk].
  destruct (fold_track_ok now want _ Hd) as [Hf Hfk].
  assert (∀ m, m ∈ (fold_left (track now) want (drop_unwanted want (pr_state s).*1 (pr_state s))).*1 ↔
    m ∈ (if e then macs else [])) as Hkeys.
  { intros m. rewrite Hfk, Hdk. unfold want. rewrite elem_of_to_set. naive_solver. }
  split; [split |..]; cbn [pr_state pr_cfg pr_queue pr_busy pr_phase pc_macs pc_enabled apply]; [done | done | | | done |].
  - destruct e; [done | cbn; unfold MAX_QUEUE; lia].
  - intros ->. split; [done |]. apply (fmap_nil_inv fst). apply elem_of_nil_inv.
    intros m Hin. apply Hkeys in Hin. by apply elem_of_nil in Hin.
  - intros n Hn. destruct e; [by apply Hp | by left].
Qed.

Lemma finish_inv s st q : core s → (length q <= MAX_QUEUE)%nat → (pr_queue s = [] → q = []) → inv (finish s st q).
Proof.
  intros [Ht Hm Hq Hoff] Hlen Hnil. split; [split |..]; cbn; [done | done | done | | naive_solver | done].
  intros He. destruct (Hoff He) as [Hq' Hs]. by rewrite Hs, (Hnil Hq').
Qed.

Lemma flush_inv s now : core s → pr_busy s = true → inv (flush s now).
Proof.
  intros Hc Hb. unfold flush. destruct (pr_queue s) as [|e q] eqn:Hq; [apply finish_inv; [done | cbn; lia | done] |].
  pose proof (co_queue _ Hc) as Hlen. rewrite Hq in Hlen. rewrite take_ge by done.
  destruct Hc as [Ht Hm Hl Hoff]. rewrite Hq in *. split; [split |..]; cbn -[length]; [done | done | done | done | naive_solver |].
  intros n [= <-]. by right.
Qed.

Lemma enqueue_length q l : (length (enqueue q l) <= MAX_QUEUE)%nat.
Proof. unfold enqueue. rewrite length_drop. lia. Qed.

Lemma after_detect_inv s seen now : core s → pr_busy s = true → inv (after_detect s seen now).
Proof.
  intros [Ht Hm Hq Hoff] Hb. unfold after_detect. set (away := pc_awayAfterSec _ * 1000).
  pose proof (transitions_keys away seen now (pr_state s)) as Hk.
  destruct (transitions away seen now (pr_state s)) as [st evs] eqn:Htr. cbn [fst] in Hk.
  apply flush_inv; [|done]. split; cbn [pr_state pr_cfg pr_queue].
  - unfold map_ok. by rewrite Hk.
  - intros m. by rewrite Hk.
  - case_match; [done | apply enqueue_length].
  - intros He. destruct (Hoff He) as [Hq' Hs]. rewrite Hs in Htr. cbn in Htr. by injection Htr as <- <-.
Qed.

Lemma step_inv s i : inv s → inv (step s i).
Proof.
  intros Hi. destruct Hi as [Hc Hb Hp] eqn:Hinv. clear Hinv. destruct i as [e m a now| |now|seen cache sw now|now|now msg]; cbn [step].
  - by apply apply_inv.
  - split; [|done..]. by destruct Hc; split.
  - unfold tick. case_match; [done |]. set (s' := Presence _ _ _ _ _ _ _ _ _).
    assert (core s') by (by destruct Hc; split). case_match; [by apply after_detect_inv |].
    by split; [|cbn; naive_solver |].
  - unfold detected. case_match eqn:Hph; [done | | done]. apply after_detect_inv; [by destruct Hc; split |].
    cbn. by apply Hb.
  - unfold posted. case_match eqn:Hph; [done | done |]. apply finish_inv; [done | |].
    + rewrite length_drop. pose proof (co_queue _ Hc). lia.
    + intros ->. by rewrite drop_nil.
  - unfold failed. case_match; [done | |]; (apply finish_inv; [done | apply Hc | done]).
Qed.


(** ** The events of a device *)

(** Checks of the tracked devices, one after the other. *)
Fixpoint checks (away : Z) (st : list (mac * device)) (l : list (list mac * Z)) : list (mac * device) * list event :=
  match l with
  | [] => (st, [])
  | (seen, now) :: l =>
      let '(st', evs) := transitions away seen now st in
      let '(st'', rest) := checks away st' l in (st'', evs ++ rest)
  end.

Definition about (m : mac) (evs : list event) : list event := filter (λ e, ev_mac e = m) evs.

(** From the state [o] of a device the events lead to [o'], each telling something new. *)
Fixpoint alternating (o : option bool) (evs : list event) (o' : option bool) : Prop :=
  match evs with
  | [] => o = o'
  | e :: evs => o ≠ Some (ev_online e) ∧ alternating (Some (ev_online e)) evs o'
  end.

Lemma alternating_app a evs b evs' c : alternating a evs b → alternating b evs' c → alternating a (evs ++ evs') c.
Proof. revert a. induction evs as [|e evs IH]; intros a; cbn; [by intros -> |]. intros [? ?] ?. split; auto. Qed.

(** What an event says of the time since the last sign of life. *)
Definition event_ok (away : Z) (d : device) (e : event) : Prop :=
  if ev_online e then ev_lastSeen e = Some (ev_at e)
  else away ≤ ev_at e - default (dv_since d) (ev_lastSeen e).

Lemma transition_spec away seen now m d : let '(d', evs) := transition away seen now m d in
  dv_since d' = dv_since d ∧ alternating (dv_online d) evs (dv_online d') ∧
  Forall (λ e, ev_mac e = m ∧ event_ok away d e) evs.
Proof.
  unfold transition. case_bool_decide; [|destruct (_ && _) eqn:Hc].
  - cbn. split; [done |]. case_bool_decide as Ho; cbn; [done |]. split; [done |]. by repeat constructor.
  - apply andb_true_iff in Hc as [Hn Ha]. apply negb_true_iff, bool_decide_eq_false in Hn. apply Z.leb_le in Ha.
    cbn. split_and!; [done.. |]. repeat constructor. unfold event_ok. cbn. lia.
  - cbn. by repeat constructor.
Qed.

Lemma about_app m a b : about m (a ++ b) = about m a ++ about m b.
Proof. apply filter_app. Qed.
Lemma about_none m evs : Forall (λ e, ev_mac e ≠ m) evs → about m evs = [].
Proof. intros H. induction H as [|e evs He _ IH]; [done |]. unfold about. by rewrite filter_cons_False. Qed.
Lemma about_all m evs : Forall (λ e, ev_mac e = m) evs → about m evs = evs.
Proof. intros H. induction H as [|e evs He _ IH]; [done |]. unfold about. rewrite filter_cons_True by done. f_equal. exact IH. Qed.

Lemma transitions_macs away seen now st : Forall (λ e, ev_mac e ∈ st.*1) (transitions away seen now st).2.
Proof.
  induction st as [|[m d] st IH]; cbn [transitions]; [constructor |].
  pose proof (transition_spec away seen now m d) as H1. destruct (transition away seen now m d) as [d' evs].
  destruct H1 as (_ & _ & Hf). destruct (transitions away seen now st) as [st' rest]. cbn [snd] in *.
  apply Forall_app. rewrite fmap_cons. cbn [fst]. split; (eapply Forall_impl; [done |]).
  - intros e [-> _]. by left.
  - intros e He. by right.
Qed.

Lemma transitions_about away seen now st m d : map_ok st → map_get st m = Some d →
  let '(st', evs) := transitions away seen now st in
  ∃ d', map_get st' m = Some d' ∧ dv_since d' = dv_since d ∧
    alternating (dv_online d) (about m evs) (dv_online d') ∧ Forall (event_ok away d) (about m evs).
Proof.
  unfold map_ok. induction st as [|[m1 d1] st IH]; intros Hok Hm; [done |]. rewrite fmap_cons in Hok.
  apply NoDup_cons in Hok as [Hn Hok]. cbn [transitions map_get fst] in *.
  pose proof (transition_spec away seen now m1 d1) as H1. destruct (transition away seen now m1 d1) as [d1' evs1].
  destruct H1 as (Hs1 & Ha1 & Hf1). pose proof (transitions_keys away seen now st) as Hk.
  pose proof (transitions_macs away seen now st) as Hmacs.
  destruct (transitions away seen now st) as [st' rest] eqn:Htr. cbn [fst snd] in Hk, Hmacs. rewrite about_app. cbn [map_get].
  destruct (decide (m = m1)) as [->|Hne].
  - injection Hm as <-. exists d1'. rewrite (about_all m1 evs1) by (eapply Forall_impl; [done | by intros ? []]).
    rewrite (about_none m1 rest), app_nil_r; [split_and!; [done.. |]; eapply Forall_impl; [done | by intros ? []] |].
    eapply Forall_impl; [done |]. intros e He Heq. cbn in He, Heq. by rewrite Heq in He.
  - rewrite (about_none m evs1) by (eapply Forall_impl; [done | intros e [-> _]; congruence]). by apply IH.
Qed.

Lemma event_ok_since away d d' e : dv_since d' = dv_since d → event_ok away d' e → event_ok away d e.
Proof. unfold event_ok. by intros ->. Qed.

(** Over any sequence of checks the events of a tracked device alternate:
    the first differs from the state the device had, no two that follow each
    other say the same, and the last one is the state it has; "at home" is
    dated with a sign of life, and "away" only comes when the time allowed has
    passed since the last one. *)
Theorem events_alternate away st m d l : map_ok st → map_get st m = Some d →
  let '(st', evs) := checks away st l in
  ∃ d', map_get st' m = Some d' ∧ alternating (dv_online d) (about m evs) (dv_online d') ∧
    Forall (event_ok away d) (about m evs).
Proof.
  revert st d. induction l as [|[seen now] l IH]; intros st d Hok Hm; cbn [checks].
  { exists d. by split_and!. }
  pose proof (transitions_about away seen now st m d Hok Hm) as Ht.
  pose proof (transitions_keys away seen now st) as Hk.
  destruct (transitions away seen now st) as [st1 evs]. destruct Ht as (d1 & Hd1 & Hs1 & Ha1 & Hf1). cbn [fst] in Hk.
  assert (map_ok st1) as Hok1 by (unfold map_ok; by rewrite Hk).
  specialize (IH st1 d1 Hok1 Hd1). destruct (checks away st1 l) as [st2 rest].
  destruct IH as (d2 & Hd2 & Ha2 & Hf2). exists d2. rewrite about_app. split_and!; [done | |].
  - by eapply alternating_app.
  - apply Forall_app. split; [done |]. eapply Forall_impl; [done |]. intros e. by apply event_ok_since.
Qed.

Lemma events_alternate_witness :
  let st := [(js "aa", Device None None 0)] in
  let '(st', evs) := checks 600000 st [([js "aa"], 1000); ([], 2000); ([], 700000)] in
  about (js "aa") evs = [Event (js "aa") true 1000 (Some 1000); Event (js "aa") false 700000 (Some 1000)] ∧
  ∃ d', map_get st' (js "aa") = Some d' ∧ alternating None (about (js "aa") evs) (dv_online d') ∧
    Forall (event_ok 600000 (Device None None 0)) (about (js "aa") evs).
Proof.
  pose proof (events_alternate 600000 [(js "aa", Device None None 0)] (js "aa") (Device None None 0)
    [([js "aa"], 1000); ([], 2000); ([], 700000)]) as Hw.
  split; [by vm_compute | apply Hw; [apply NoDup_singleton | done]].
Defined.
