(* ===== verification/Inetq.v ===== *)
(** * src/inetq/aggregate.js, with the sums of probe.js

    The quality of the internet connection: the mean of round trip times, a
    measurement out of the answers to its pings, the five-minute values and
    the outages. *)

From S2P Require Import Prelude JsFloat.

Local Open Scope Z_scope.

Definition BUCKET_MS : Z := 300000.
Definition CONFIRM_MS : Z := 60000.
Definition GAP_MS : Z := 600000.

(** ** Measurements *)

(** [Math.round(x * 10) / 10] *)
Definition tenth (x : f64) : f64 := fl_div (fl_round (fl_mul x (fl_of_Z 10))) (fl_of_Z 10).

Definition mean (arr : list f64) : option f64 :=
  match arr with
  | [] => None
  | _ => Some (tenth (fl_div (fold_left fl_add arr (fl_of_Z 0)) (fl_of_Z (Z.of_nat (length arr)))))
  end.

(** The answer of a pinger. *)
Record ping := Ping { pi_sent : Z; pi_received : Z; pi_rttMs : option f64 }.

Record measurement := Measurement {
  me_at : Z; me_routerOk : option bool; me_rttRouterMs : option f64; me_inetOk : bool; me_rttInetMs : option f64;
  me_sent : Z; me_received : Z; me_rttServerMs : option f64 }.

(** [measure] with the answers: of the router, of the server, of the targets. *)
Definition measure (at_ : Z) (router : option ping) (srv : option f64) (pubs : list ping) : measurement :=
  let sent := fold_left (λ a p, a + pi_sent p) pubs 0 in
  let received := fold_left (λ a p, a + pi_received p) pubs 0 in
  Measurement at_
    ((λ r, 0 <? pi_received r) <$> router)
    (r ← router; if 0 <? pi_received r then pi_rttMs r else None)
    (0 <? received)
    (mean (omap (λ p, if 0 <? pi_received p then pi_rttMs p else None) pubs))
    sent received srv.

(** ** Five-minute values *)

Record bucket := Bucket {
  bu_t : Z; bu_router : list f64; bu_inet : list f64; bu_server : list f64; bu_sent : Z; bu_received : Z; bu_n : Z }.

Record interval := Interval {
  in_t : Z; in_rttRouterMs : option f64; in_rttInetMs : option f64; in_lossInetPct : option f64;
  in_rttServerMs : option f64; in_n : Z }.

Definition _finish (b : bucket) : interval :=
  Interval (bu_t b) (mean (bu_router b)) (mean (bu_inet b))
    (if 0 <? bu_sent b
     then Some (fl_div (fl_round (fl_mul (fl_div (fl_of_Z (bu_sent b - bu_received b)) (fl_of_Z (bu_sent b)))
                                         (fl_of_Z 1000))) (fl_of_Z 10))
     else None)
    (mean (bu_server b)) (bu_n b).

Definition push_opt (l : list f64) (o : option f64) : list f64 := match o with Some x => l ++ [x] | None => l end.

(** The measurement in the open interval [b]. *)
Definition add_to (b : bucket) (m : measurement) : bucket :=
  Bucket (bu_t b) (push_opt (bu_router b) (me_rttRouterMs m)) (push_opt (bu_inet b) (me_rttInetMs m))
    (push_opt (bu_server b) (me_rttServerMs m)) (bu_sent b + me_sent m) (bu_received b + me_received m) (bu_n b + 1).

(** [Math.floor(m.at / bucketMs) * bucketMs] *)
Definition start_of (bucketMs at_ : Z) : Z := at_ / bucketMs * bucketMs.

(** [add(m)]: the new open interval and the one that closes. *)
Definition add (bucketMs : Z) (cur : option bucket) (m : measurement) : option bucket * option interval :=
  let t := start_of bucketMs (me_at m) in
  match cur with
  | Some b =>
      if bu_t b =? t then (Some (add_to b m), None)
      else (Some (add_to (Bucket t [] [] [] 0 0 0) m), Some (_finish b))
  | None => (Some (add_to (Bucket t [] [] [] 0 0 0) m), None)
  end.

Definition flush (bucketMs : Z) (cur : option bucket) (now : Z) : option bucket * option interval :=
  match cur with
  | Some b => if bu_t b + bucketMs <=? now then (None, Some (_finish b)) else (cur, None)
  | None => (None, None)
  end.

(** ** Outages *)

Inductive cause := Router | Isp.
Record suspicion := Suspicion { su_at : Z; su_routerDown : bool }.
Record open_outage := OpenOutage { oo_start : Z; oo_cause : cause; oo_lastDownAt : Z }.
Record detector := Detector { de_suspect : option suspicion; de_open : option open_outage }.
Record outage := Outage { ou_start : Z; ou_end : option Z; ou_cause : cause }.

(** The detector of a start: with the outage that was open before it, if any. *)
Definition detector_new : detector := Detector None None.
Definition detector_of (start : Z) (router : bool) (lastDownAt : option Z) : detector :=
  Detector None (Some (OpenOutage start (if router then Router else Isp)
    (match lastDownAt with Some (Z.pos p) => Z.pos p | Some (Z.neg p) => Z.neg p | _ => start end))).

Definition active (d : detector) : bool := bool_decide (is_Some (de_suspect d)) || bool_decide (is_Some (de_open d)).

Definition is_router (c : cause) : bool := match c with Router => true | Isp => false end.

Definition observe (confirmMs gapMs : Z) (d : detector) (at_ : Z) (inetOk : bool) (routerOk : option bool)
    : detector * option outage :=
  if inetOk then
    match de_open d with
    | None => (Detector None None, None)
    | Some o =>
        (Detector None None,
         Some (Outage (oo_start o)
                 (Some (if gapMs <? at_ - oo_lastDownAt o then oo_lastDownAt o else at_)) (oo_cause o)))
    end
  else
    let routerDown := bool_decide (routerOk = Some false) in
    match de_open d with
    | Some o =>
        if routerDown && negb (is_router (oo_cause o)) then
          (Detector (de_suspect d) (Some (OpenOutage (oo_start o) Router at_)), Some (Outage (oo_start o) None Router))
        else (Detector (de_suspect d) (Some (OpenOutage (oo_start o) (oo_cause o) at_)), None)
    | None =>
        match de_suspect d with
        | None => (Detector (Some (Suspicion at_ routerDown)) None, None)
        | Some s =>
            let down := routerDown || su_routerDown s in
            if confirmMs <=? at_ - su_at s then
              let c := if down then Router else Isp in
              (Detector None (Some (OpenOutage (su_at s) c at_)), Some (Outage (su_at s) None c))
            else (Detector (Some (Suspicion (su_at s) down)) None, None)
        end
    end.

(** A sequence of observations and what it reports. *)
Definition obs : Type := Z * bool * option bool.
Fixpoint observe_all (confirmMs gapMs : Z) (d : detector) (l : list obs) : detector * list outage :=
  match l with
  | [] => (d, [])
  | (at_, inetOk, routerOk) :: l =>
      let '(d', o) := observe confirmMs gapMs d at_ inetOk routerOk in
      let '(d'', os) := observe_all confirmMs gapMs d' l in
      (d'', match o with Some o => o :: os | None => os end)
  end.

(** * Properties of the connection quality

    The outages of any history against a reference definition; no measurement
    is lost between the five-minute values. *)

(** ** The reference: one run of failed measurements and the one that ends it *)

Definition down : Type := Z * option bool.
Definition as_down (d : down) : obs := (d.1, false, d.2).
Definition router_down (d : down) : bool := bool_decide (d.2 = Some false).

(** A history: runs of failures, each ended by a measurement that got through. *)
Record run := Run { ru_downs : list down; ru_up : Z; ru_router : option bool }.
Definition observations (r : run) : list obs := (as_down <$> ru_downs r) ++ [(ru_up r, true, ru_router r)].

Definition last_at (first : Z) (ds : list down) : Z := fold_left (λ _ d, d.1) ds first.

(** An outage is a run whose failures reach a minute or more; it began with the
    first of them, the router is the cause if it was down during any of them,
    and it ended when the internet answered, or with the last failure when
    nobody measured for ten minutes. *)
Definition outage_of (confirmMs gapMs : Z) (r : run) : option outage :=
  match ru_downs r with
  | [] => None
  | d :: ds =>
      if existsb (λ e, confirmMs <=? e.1 - d.1) ds then
        let last := last_at d.1 ds in
        Some (Outage d.1 (Some (if gapMs <? ru_up r - last then last else ru_up r))
                (if existsb router_down (d :: ds) then Router else Isp))
      else None
  end.

Definition closed (os : list outage) : list outage := filter (λ o, is_Some (ou_end o)) os.

(** ** Runs *)

Section Runs.
Context (confirmMs gapMs : Z).
Abbreviation all := (observe_all confirmMs gapMs).

Lemma observe_all_app d l1 l2 :
  all d (l1 ++ l2) = let '(d1, o1) := all d l1 in let '(d2, o2) := all d1 l2 in (d2, o1 ++ o2).
Proof.
  revert d. induction l1 as [|[[a i] r] l1 IH]; intros d; cbn [app observe_all].
  { by destruct (all d l2). }
  destruct (observe confirmMs gapMs d a i r) as [d1 o]. rewrite IH. destruct (all d1 l1) as [d2 o1].
  destruct (all d2 l2) as [d3 o2]. by destruct o.
Qed.

(** The reports of an outage that goes on. *)
Definition opening (t0 : Z) (os : list outage) : Prop := Forall (λ o, ou_start o = t0 ∧ ou_end o = None) os.

Lemma closed_opening t0 os : opening t0 os → closed os = [].
Proof.
  intros H. induction H as [|o os [_ Ho] _ IH]; [done |]. unfold closed. rewrite filter_cons_False; [exact IH |].
  rewrite Ho. by intros [].
Qed.
Lemma closed_app a b : closed (a ++ b) = closed a ++ closed b.
Proof. apply filter_app. Qed.

Definition cause_of (b : bool) : cause := if b then Router else Isp.

Lemma open_run t0 b last ds : ∃ os,
  all (Detector None (Some (OpenOutage t0 (cause_of b) last))) (as_down <$> ds) =
    (Detector None (Some (OpenOutage t0 (cause_of (b || existsb router_down ds)) (last_at last ds))), os) ∧ opening t0 os.
Proof.
  revert b last. induction ds as [|[a r] ds IH]; intros b last.
  { exists []. rewrite orb_false_r. split; [done | constructor]. }
  rewrite fmap_cons. unfold as_down at 1. cbn [fst snd observe_all observe de_open de_suspect oo_cause oo_start].
  cbn [existsb last_at fold_left fst]. unfold router_down at 1. cbn [snd].
  destruct (bool_decide (r = Some false)), b; cbn [andb negb is_router cause_of orb];
    [ destruct (IH true a) as (os & Hrun & Hos) | destruct (IH true a) as (os & Hrun & Hos)
    | destruct (IH true a) as (os & Hrun & Hos) | destruct (IH false a) as (os & Hrun & Hos) ];
    cbn [cause_of orb] in Hrun; rewrite Hrun; eexists; (split; [reflexivity |]); try exact Hos.
  by constructor.
Qed.

Lemma suspect_run t0 b ds : ∃ os,
  all (Detector (Some (Suspicion t0 b)) None) (as_down <$> ds) =
    (if existsb (λ e, confirmMs <=? e.1 - t0) ds
     then Detector None (Some (OpenOutage t0 (cause_of (b || existsb router_down ds)) (last_at t0 ds)))
     else Detector (Some (Suspicion t0 (b || existsb router_down ds))) None, os) ∧ opening t0 os.
Proof.
  revert b. induction ds as [|[a r] ds IH]; intros b.
  { exists []. rewrite orb_false_r. split; [done | constructor]. }
  rewrite fmap_cons. unfold as_down at 1.
  cbn [fst snd observe_all observe de_open de_suspect su_at su_routerDown existsb].
  unfold router_down at 1 3. cbn [snd]. set (rd := bool_decide (r = Some false)).
  rewrite (orb_assoc b), (orb_comm b rd).
  destruct (confirmMs <=? a - t0); cbn [orb].
  - destruct (open_run t0 (rd || b) a ds) as (os & Hrun & Hos). unfold cause_of at 1 in Hrun. rewrite Hrun.
    eexists. split; [reflexivity |]. constructor; [done | exact Hos].
  - destruct (IH (rd || b)) as (os & Hrun & Hos). rewrite Hrun. eexists. split; [|exact Hos].
    f_equal. match goal with |- context [if ?c then _ else _] => destruct c eqn:Hex end; [|done].
    assert (last_at t0 ds = last_at t0 ((a, r) :: ds)) as ->; [|done].
    destruct ds; [by cbn in Hex | done].
Qed.

Lemma run_once r : ∃ os, all detector_new (observations r) = (detector_new, os) ∧ closed os = option_list (outage_of confirmMs gapMs r).
Proof.
  destruct r as [ds up rt]. unfold observations, outage_of. cbn [ru_downs ru_up ru_router].
  rewrite observe_all_app. destruct ds as [|[t0 r0] ds]; [by exists [] |].
  rewrite fmap_cons. unfold as_down at 1.
  cbn [observe_all observe detector_new de_open de_suspect fst snd].
  destruct (suspect_run t0 (router_down (t0, r0)) ds) as (os & Hrun & Hos). unfold router_down at 1 in Hrun. cbn [snd] in Hrun.
  rewrite Hrun. cbn [existsb]. match goal with |- context [if existsb ?f ds then _ else _] => destruct (existsb f ds) eqn:Hex end;
    cbn [observe_all observe de_open de_suspect oo_start oo_cause oo_lastDownAt].
  - eexists. split; [reflexivity |]. rewrite closed_app, (closed_opening t0) by exact Hos. reflexivity.
  - eexists. split; [reflexivity |]. rewrite app_nil_r. by apply (closed_opening t0).
Qed.
End Runs.


(** ** Five-minute values *)

(** The intervals that close over a sequence of measurements, and the open one. *)
Fixpoint add_all (bucketMs : Z) (cur : option bucket) (ms : list measurement) : option bucket * list interval :=
  match ms with
  | [] => (cur, [])
  | m :: ms =>
      let '(cur, i) := add bucketMs cur m in
      let '(cur, ivs) := add_all bucketMs cur ms in
      (cur, match i with Some i => i :: ivs | None => ivs end)
  end.

(** The measurements in runs that fall into the same five minutes. *)
Fixpoint grouped (bucketMs : Z) (ms : list measurement) : list (Z * list measurement) :=
  match ms with
  | [] => []
  | m :: ms =>
      let t := start_of bucketMs (me_at m) in
      match grouped bucketMs ms with
      | (t', l) :: gs => if t =? t' then (t, m :: l) :: gs else (t, [m]) :: (t', l) :: gs
      | [] => [(t, [m])]
      end
  end.

(** The interval of a group: its start, its number of measurements, the loss
    over all its pings and the means over all its round trip times. *)
Definition bucket_of (g : Z * list measurement) : bucket := fold_left add_to g.2 (Bucket g.1 [] [] [] 0 0 0).

Lemma bu_t_add b m : bu_t (add_to b m) = bu_t b.
Proof. done. Qed.

Lemma add_all_from bucketMs b ms : let '(cur, ivs) := add_all bucketMs (Some b) ms in
  ivs ++ (_finish <$> option_list cur) =
    _finish <$> match grouped bucketMs ms with
                | (t', l) :: gs => if bu_t b =? t' then fold_left add_to l b :: (bucket_of <$> gs)
                                   else b :: (bucket_of <$> (t', l) :: gs)
                | [] => [b]
                end.
Proof.
  revert b. induction ms as [|m ms IH]; intros b; [done |]. cbn [add_all add grouped].
  set (t := start_of bucketMs (me_at m)). destruct (Z.eqb_spec (bu_t b) t) as [Ht|Ht].
  - specialize (IH (add_to b m)). destruct (add_all bucketMs (Some (add_to b m)) ms) as [cur ivs]. rewrite IH, bu_t_add.
    destruct (grouped bucketMs ms) as [|[t' l] gs]; [by rewrite Ht, Z.eqb_refl |].
    rewrite Ht. destruct (Z.eqb_spec t t'); by rewrite Z.eqb_refl.
  - specialize (IH (add_to (Bucket t [] [] [] 0 0 0) m)).
    destruct (add_all bucketMs (Some (add_to (Bucket t [] [] [] 0 0 0) m)) ms) as [cur ivs].
    cbn [app]. rewrite IH, bu_t_add. cbn [bu_t].
    apply Z.eqb_neq in Ht. destruct (grouped bucketMs ms) as [|[t' l] gs]; [by rewrite Ht |].
    destruct (Z.eqb_spec t t') as [<-|]; by rewrite Ht.
Qed.

(** No measurement is lost or counted twice by the five-minute values:
    what has closed over any sequence of measurements, and the interval still
    open, are the values of the runs of measurements that fall into the same
    five minutes, in order. *)
Theorem intervals_reference bucketMs ms :
  let '(cur, ivs) := add_all bucketMs None ms in
  ivs ++ (_finish <$> option_list cur) = _finish ∘ bucket_of <$> grouped bucketMs ms.
Proof.
  destruct ms as [|m ms]; [done |]. cbn [add_all add grouped]. set (t := start_of bucketMs (me_at m)).
  pose proof (add_all_from bucketMs (add_to (Bucket t [] [] [] 0 0 0) m) ms) as H.
  destruct (add_all bucketMs (Some (add_to (Bucket t [] [] [] 0 0 0) m)) ms) as [cur ivs].
  rewrite H, list_fmap_compose, bu_t_add. cbn [bu_t]. destruct (grouped bucketMs ms) as [|[t' l] gs]; [done |].
  by destruct (Z.eqb_spec t t') as [<-|].
Qed.
