(* ===== verification/Nut.v ===== *)
(** * src/ups/nut.js

    The state of a UPS over a NUT server: the words of a line, the rows of an
    answer, the lines of a session out of the pieces the socket gives, the
    query and the monitor. *)

From S2P Require Import Prelude JsBuffer JsMap JsFloat LanInterfaces FeatureStatus.

Local Open Scope Z_scope.

Definition MAX_BYTES : Z := 65536.
Definition MAX_LINES : Z := 1000.

(** An error is its code; the codes the server names are text. *)
Inductive nut_error := ENut (code : jstr) | ETimeout | EConnect | EProtocol | ENoUps | ENotPrivate.

Definition space : Z := 32.
Definition quote : Z := 34.
Definition backslash : Z := 92.

(** ** Words *)

(** The word in quotes and what comes after its end. *)
Fixpoint quoted (s : jstr) : jstr * jstr :=
  match s with
  | [] => ([], [])
  | c :: r =>
      if c =? quote then ([], r)
      else if c =? backslash then
        match r with
        | d :: r => let '(w, rest) := quoted r in (d :: w, rest)
        | [] => ([c], [])
        end
      else let '(w, rest) := quoted r in (c :: w, rest)
  end.

(** The word up to a space. *)
Fixpoint bare (s : jstr) : jstr * jstr :=
  match s with
  | [] => ([], [])
  | c :: r => if c =? space then ([], s) else let '(w, rest) := bare r in (c :: w, rest)
  end.

Fixpoint words (fuel : nat) (s : jstr) : res (list jstr) :=
  match s with
  | [] => Ok []
  | c :: r =>
      match fuel with
      | O => NoFuel
      | S fuel =>
          if c =? space then words fuel r
          else
            let '(w, rest) := if c =? quote then quoted r else bare s in
            l ← words fuel rest; Ok (w :: l)
      end
  end.
Definition splitNutLine (line : jstr) : res (list jstr) := words (length line) line.

(** ** Answers *)

Definition word (w : list jstr) (i : nat) (s : string) : bool := bool_decide (w !! i = Some (js s)).
Definition word_is (w : list jstr) (i : nat) (s : jstr) : bool := bool_decide (w !! i = Some s).

Definition nut_code (w : list jstr) : jstr :=
  js "nut_error:" ++ take 32 (match w !! 1%nat with Some (c :: r) => c :: r | _ => js "UNKNOWN" end).

(** A result, or the error that was thrown. *)
Abbreviation outcome A := (A + nut_error)%type.

Fixpoint parse_rows (lines : list jstr) (what : jstr) (inside : bool) : res (outcome (list (list jstr))) :=
  match lines with
  | [] => Ok (inr EProtocol)
  | l :: lines =>
      w ← splitNutLine l;
      if word w 0 "ERR" then Ok (inr (ENut (nut_code w)))
      else if word w 0 "BEGIN" && word w 1 "LIST" && word_is w 2 what then parse_rows lines what true
      else if word w 0 "END" && word w 1 "LIST" && word_is w 2 what then Ok (inl [])
      else
        rest ← parse_rows lines what inside;
        Ok (match rest with inl rows => inl (if inside then w :: rows else rows) | inr e => inr e end)
  end.
Definition parseList (lines : list jstr) (what : jstr) : res (outcome (list (list jstr))) := parse_rows lines what false.

(** ** A session *)

(** The text not yet ended by a newline, the bytes so far, the prefix of the
    line the request waits for, the lines since it. *)
Record session := Session { se_buf : jstr; se_total : Z; se_waiter : option jstr; se_lines : list jstr }.

(** What came of the request. *)
Inductive answer := Waiting | Resolved (lines : list jstr) | Failed (e : nut_error).

Definition newline : Z := 10.
Definition drop_cr (l : jstr) : jstr := match reverse l with 13 :: r => reverse r | _ => l end.

(** The lines a text holds, and what is left of it. *)
Fixpoint cut_lines (s : jstr) (cur : jstr) : list jstr * jstr :=
  match s with
  | [] => ([], cur)
  | c :: s => if c =? newline then let '(ls, rest) := cut_lines s [] in (cur :: ls, rest) else cut_lines s (cur ++ [c])
  end.

(** The loop over the lines; after a failure nothing is read any more. *)
Fixpoint take_lines (ls : list jstr) (waiter : option jstr) (lines : list jstr) : option jstr * list jstr * answer :=
  match ls with
  | [] => (waiter, lines, Waiting)
  | l :: ls =>
      match waiter with
      | None => take_lines ls None lines
      | Some end_ =>
          let line := drop_cr l in
          let lines := lines ++ [line] in
          if MAX_LINES <? Z.of_nat (length lines) then (None, lines, Failed EProtocol)
          else if starts_with (js "ERR ") line || starts_with end_ line then
            let '(w, rest, _) := take_lines ls None [] in (w, rest, Resolved lines)
          else take_lines ls waiter lines
      end
  end.

(** [sock.on('data')]; a failure without a request ends the session too. *)
Definition on_data (s : session) (chunk : list Z) : session * answer :=
  let total := se_total s + blen chunk in
  if MAX_BYTES <? total then (Session (se_buf s) total None (se_lines s), Failed EProtocol)
  else
    let '(ls, rest) := cut_lines (se_buf s ++ utf8_decode chunk) [] in
    let '(w, lines, a) := take_lines ls (se_waiter s) (se_lines s) in
    (Session rest total w lines, a).

Definition session_new : session := Session [] 0 None [].
Definition request (s : session) (end_ : jstr) : session := Session (se_buf s) (se_total s) (Some end_) (se_lines s).

(** The pieces up to the answer. *)
Fixpoint on_chunks (s : session) (chunks : list (list Z)) : session * answer :=
  match chunks with
  | [] => (s, Waiting)
  | c :: chunks => match on_data s c with (s', Waiting) => on_chunks s' chunks | r => r end
  end.

(** ** The query *)

Definition name_char (c : Z) : bool :=
  is_digit c || is_upper c || is_lower c || (c =? 95) || (c =? 46) || (c =? 45).
(** [NAME_RE.test(s)] *)
Definition name_ok (s : jstr) : bool :=
  forallb name_char s && (1 <=? Z.of_nat (length s)) && (Z.of_nat (length s) <=? 64).

Definition str (v : option jstr) : option jstr := match v with Some (c :: r) => Some (take 64 (c :: r)) | _ => None end.
(** [a || b] for texts *)
Definition or_text (a b : option jstr) : option jstr := match a with Some (_ :: _) => a | _ => b end.

Record ups := Ups {
  up_name : jstr; up_status : option jstr; up_charge : option f64; up_runtimeSec : option f64;
  up_model : option jstr; up_mfr : option jstr }.

(** [vars.set(w[2], w[3])] for the rows of this UPS *)
Definition vars_of (name : jstr) (rows : list (list jstr)) : list (jstr * jstr) :=
  fold_left (λ m w,
    match w with
    | v :: u :: k :: x :: _ => if bool_decide (v = js "VAR" ∧ u = name) then map_set m k x else m
    | _ => m
    end) rows [].

Definition first_ups (rows : list (list jstr)) : option jstr :=
  match filter (λ w, word w 0 "UPS" && name_ok (default [] (w !! 1%nat)) = true) rows with
  | (_ :: u :: _) :: _ => Some u
  | _ => None
  end.

Definition num (v : option jstr) : option f64 :=
  match v with
  | None | Some [] => None
  | Some s => match to_number s with Some n => if fl_finite n then Some n else None | None => None end
  end.

Section Query.
(** The name service, the connection, and the server's answer to a command:
    its lines, or how the request failed. *)
Context (lookup : jstr → option jstr) (connect : jstr → option nut_error).
Context (ask : jstr → outcome (list jstr)).

Definition resolvePrivate (host : jstr) : outcome jstr :=
  match (if isIPv4 host then Some host else lookup host) with
  | None => inr EConnect
  | Some ip => if _isPrivateIpv4 ip then inl ip else inr ENotPrivate
  end.

Definition list_of (cmd what : jstr) : res (outcome (list (list jstr))) :=
  match ask cmd with inl lines => parseList lines what | inr e => Ok (inr e) end.

(** The UPS asked for, or the first of the server's list. *)
Definition choose (name : option jstr) : res (outcome jstr) :=
  match name with
  | Some (c :: r) => Ok (inl (c :: r))
  | _ =>
      rows ← list_of (js "LIST UPS") (js "UPS");
      Ok (match rows with
          | inl rows => match first_ups rows with Some u => inl u | None => inr ENoUps end
          | inr e => inr e
          end)
  end.

Definition query_session (name : option jstr) : res (outcome ups) :=
  u ← choose name;
  match u with
  | inr e => Ok (inr e)
  | inl u =>
      if negb (name_ok u) then Ok (inr ENoUps)
      else
        rows ← list_of (js "LIST VAR " ++ u) (js "VAR");
        Ok (match rows with
            | inr e => inr e
            | inl rows =>
                let get k := map_get (vars_of u rows) (js k) in
                inl (Ups u (str (get "ups.status"%string)) (num (get "battery.charge"%string))
                       (num (get "battery.runtime"%string))
                       (str (or_text (get "device.model"%string) (get "ups.model"%string)))
                       (str (or_text (get "device.mfr"%string) (get "ups.mfr"%string))))
            end)
  end.

Definition queryUps (host : jstr) (name : option jstr) : res (outcome ups) :=
  match resolvePrivate host with
  | inr e => Ok (inr e)
  | inl ip => match connect ip with Some e => Ok (inr e) | None => query_session name end
  end.
End Query.

(** ** The monitor *)

Record ups_config := UpsConfig { uc_enabled : bool; uc_host : jstr; uc_port : Z; uc_name : option jstr }.
Record result := Result { rs_value : ups + jstr; rs_at : Z }.
Record monitor := Monitor {
  mo_cfg : ups_config; mo_result : option result; mo_status : feature_status; mo_loop : task }.

Definition monitor_new : monitor := Monitor (UpsConfig false [] 3493 None) None status_new task_new.

Definition same_target (a b : ups_config) : bool :=
  bool_decide (uc_host a = uc_host b ∧ uc_port a = uc_port b ∧ uc_name a = uc_name b).

Definition apply (m : monitor) (c : ups_config) : monitor :=
  let prev := mo_cfg m in
  let status := setEnabled (mo_status m) (uc_enabled c) in
  if negb (uc_enabled c) then Monitor c None status (task_stop (mo_loop m))
  else if negb (uc_enabled prev) || negb (same_target prev c)
  then Monitor c None status (task_start (mo_loop m) 1000)
  else Monitor c (mo_result m) status (mo_loop m).

Definition error_code (e : nut_error) : jstr :=
  match e with
  | ENut code => code | ETimeout => js "timeout" | EConnect => js "connect" | EProtocol => js "protocol"
  | ENoUps => js "no_ups" | ENotPrivate => js "not_private"
  end.

(** [tick]: its beginning, and what it does with the answer. *)
Definition tick_begin (m : monitor) (now : Z) : monitor :=
  if negb (uc_enabled (mo_cfg m)) then m
  else Monitor (mo_cfg m) (mo_result m) (start (mo_status m) now) (mo_loop m).

Definition tick_end (m : monitor) (r : outcome ups) (now : Z) : monitor :=
  match r with
  | inl u => Monitor (mo_cfg m) (Some (Result (inl u) now)) (ok (mo_status m) now) (mo_loop m)
  | inr e => Monitor (mo_cfg m) (Some (Result (inr (error_code e)) now))
               (fail (mo_status m) now (error_code e)) (mo_loop m)
  end.

Definition telemetry (m : monitor) : option result := if uc_enabled (mo_cfg m) then mo_result m else None.

(** * Properties of the UPS query

    A list of rows is read back from the lines it is sent as, however the
    socket cuts them. *)

(** ** Words *)

(** The quoted form of a word. *)
Fixpoint escape (w : jstr) : jstr :=
  match w with
  | [] => []
  | c :: w => if (c =? quote) || (c =? backslash) then backslash :: c :: escape w else c :: escape w
  end.
Definition quote_word (w : jstr) : jstr := quote :: escape w ++ [quote].

Lemma quoted_escape w r : quoted (escape w ++ quote :: r) = (w, r).
Proof.
  induction w as [|c w IH]; [done |]. cbn [escape].
  destruct (Z.eqb_spec c quote) as [->|Hq]; [cbn -[quote]; by rewrite IH |].
  destruct (Z.eqb_spec c backslash) as [->|Hb]; [cbn -[quote]; by rewrite IH |].
  cbn [orb app quoted]. rewrite (proj2 (Z.eqb_neq _ _) Hq), (proj2 (Z.eqb_neq _ _) Hb). by rewrite IH.
Qed.

(** A word in quotes or, when it has no space and no leading quote, as it is. *)
Abbreviation spelled := (bool * jstr)%type.
Definition bare_ok (w : jstr) : bool :=
  match w with c :: _ => negb (c =? quote) && forallb (λ c, negb (c =? space)) w | [] => false end.
Definition spelled_ok (w : spelled) : bool := w.1 || bare_ok w.2.
Definition spell (w : spelled) : jstr := if w.1 then quote_word w.2 else w.2.
Definition render (ws : list spelled) : jstr := join space (spell <$> ws).

Lemma bare_word w r : forallb (λ c, negb (c =? space)) w = true → bare (w ++ space :: r) = (w, space :: r).
Proof.
  induction w as [|c w IH]; [done |]. cbn [forallb]. intros [Hc Hw]%andb_true_iff.
  apply negb_true_iff in Hc. cbn [app bare]. rewrite Hc. by rewrite IH.
Qed.
Lemma bare_word_end w : forallb (λ c, negb (c =? space)) w = true → bare w = (w, []).
Proof.
  induction w as [|c w IH]; [done |]. cbn [forallb]. intros [Hc Hw]%andb_true_iff.
  apply negb_true_iff in Hc. cbn [bare]. rewrite Hc. by rewrite IH.
Qed.

(** The first word of a line and what follows it. *)
Lemma words_spell fuel w r rest : spelled_ok w = true → r = [] ∨ r = space :: rest →
  words (S fuel) (spell w ++ r) = (l ← words fuel r; Ok (w.2 :: l)).
Proof.
  destruct w as [[] w]; unfold spelled_ok, spell; cbn [fst snd orb]; intros Hok Hr.
  - unfold quote_word. cbn [app words]. change (quote =? space) with false. change (quote =? quote) with true.
    cbn iota. rewrite <- app_assoc. cbn [app]. by rewrite quoted_escape.
  - destruct w as [|c w]; [done |]. unfold bare_ok in Hok. apply andb_true_iff in Hok as [Hq Hw].
    pose proof Hw as Hc. cbn [forallb] in Hc. apply andb_true_iff in Hc as [Hc _]. apply negb_true_iff in Hq, Hc.
    cbn [app words]. rewrite Hc, Hq. change (c :: w ++ r) with ((c :: w) ++ r).
    destruct Hr as [-> | ->]; [rewrite app_nil_r, bare_word_end by done | rewrite bare_word by done]; done.
Qed.

Lemma spell_length w : spelled_ok w = true → (1 <= length (spell w))%nat.
Proof. destruct w as [[] [|c w]]; cbn; try done; lia. Qed.

Lemma words_render fuel ws : (length (render ws) <= fuel)%nat → Forall (λ w, spelled_ok w = true) ws →
  words fuel (render ws) = Ok ws.*2.
Proof.
  intros Hf Hok. revert fuel Hf. induction Hok as [|w ws Hw Hws IH]; intros fuel Hf; [by destruct fuel |].
  pose proof (spell_length w Hw). unfold render in *. destruct ws as [|w' ws].
  - cbn [fmap list_fmap join] in *. destruct fuel as [|fuel]; [lia |].
    rewrite <- (app_nil_r (spell w)), words_spell with (rest := []) by auto. by destruct fuel.
  - change (join space (spell <$> w :: w' :: ws)) with (spell w ++ space :: join space (spell <$> w' :: ws)) in *.
    set (rest := join space _) in *. rewrite length_app, length_cons in Hf.
    destruct fuel as [|fuel]; [lia |]. rewrite (words_spell _ _ _ rest) by auto.
    destruct fuel as [|fuel]; [lia |]. cbn [words]. change (space =? space) with true. cbn iota.
    rewrite IH by lia. done.
Qed.

Lemma splitNutLine_render ws : Forall (λ w, spelled_ok w = true) ws → splitNutLine (render ws) = Ok ws.*2.
Proof. intros. by apply words_render. Qed.

Lemma words_fueled fuel s : (length s <= fuel)%nat → fueled (words fuel s).
Proof.
  revert s. induction fuel as [|fuel IH]; intros [|c r] Hf; cbn [words]; [done | cbn in Hf; lia | done |].
  cbn in Hf. destruct (Z.eqb_spec c space) as [->|Hc]; [apply IH; lia |].
  assert (∀ w rest, (if c =? quote then quoted r else bare (c :: r)) = (w, rest) → (length rest <= length r)%nat) as Hlen.
  { intros w rest. destruct (c =? quote).
    - assert (∀ n r, (length r <= n)%nat → (length (quoted r).2 <= length r)%nat) as Hq.
      { clear. induction n as [|n IHn]; intros [|d r] Hn; cbn [quoted]; [cbn; lia | cbn in Hn; lia | cbn; lia |].
        cbn in Hn. case_match; [cbn; lia |]. case_match.
        - destruct r as [|e r]; [cbn; lia |]. specialize (IHn r). destruct (quoted r). cbn in *. lia.
        - specialize (IHn r). destruct (quoted r). cbn in *. lia. }
      intros Hw. specialize (Hq (length r) r). rewrite Hw in Hq. cbn in Hq. lia.
    - cbn [bare]. rewrite (proj2 (Z.eqb_neq _ _) Hc). assert (length (bare r).2 <= length r)%nat as Hb.
      { clear. induction r as [|d r IHr]; cbn [bare]; [done |]. case_match; [done |]. destruct (bare r). cbn in *. lia. }
      destruct (bare r). cbn in *. intros [= <- <-]. done. }
  destruct (if c =? quote then quoted r else bare (c :: r)) as [w rest]. specialize (Hlen w rest eq_refl).
  apply fueled_bind; [apply IH; lia | done].
Qed.

(** ** Answers *)

(** A row that is not one of the words that steer the reading. *)
Definition plain_row (what : jstr) (w : list jstr) : bool :=
  negb (word w 0 "ERR") && negb (word w 0 "BEGIN" && word w 1 "LIST" && word_is w 2 what)
  && negb (word w 0 "END" && word w 1 "LIST" && word_is w 2 what).

(** The lines around a list. *)
Definition edge (word what : string) (args : list jstr) : list spelled :=
  (λ w, (false, w)) <$> js word :: js "LIST" :: js what :: args.

(** A list as the server sends it. *)
Definition sent (what : string) (args : list jstr) (rows : list (list spelled)) : list jstr :=
  render (edge "BEGIN" what args) :: (render <$> rows) ++ [render (edge "END" what args)].

Definition row_ok (what : string) (r : list spelled) : bool :=
  forallb spelled_ok r && plain_row (js what) r.*2.

Lemma edge_words w what args : (edge w what args).*2 = js w :: js "LIST" :: js what :: args.
Proof. unfold edge. rewrite <- list_fmap_compose. apply list_fmap_id. Qed.

Lemma edge_ok w what args : bare_ok (js w) = true → bare_ok (js what) = true → Forall (λ a, bare_ok a = true) args →
  Forall (λ w, spelled_ok w = true) (edge w what args).
Proof. intros Hw Hwhat Hargs. unfold edge. apply Forall_fmap. by repeat constructor. Qed.

Lemma word_is_third a b w l : word_is (a :: b :: w :: l) 2 w = true.
Proof. by apply bool_decide_eq_true_2. Qed.

Lemma row_words what r : row_ok what r = true →
  splitNutLine (render r) = Ok r.*2 ∧ plain_row (js what) r.*2 = true.
Proof.
  intros [Hr Hp]%andb_true_iff. split; [|done]. apply splitNutLine_render, Forall_forall.
  rewrite forallb_forall in Hr. intros x Hx. apply Hr. by apply list_elem_of_In.
Qed.

Definition words_of (rows : list (list spelled)) : list (list jstr) := (λ r : list spelled, r.*2) <$> rows.

Lemma parse_rows_sent what args rows : bare_ok (js what) = true → Forall (λ a, bare_ok a = true) args →
  Forall (λ r, row_ok what r = true) rows →
  parse_rows ((render <$> rows) ++ [render (edge "END" what args)]) (js what) true = Ok (inl (words_of rows)).
Proof.
  intros Hwhat Hargs H. induction H as [|r rows Hr _ IH]; cbn [fmap list_fmap app parse_rows].
  - rewrite splitNutLine_render, edge_words by by apply edge_ok. cbn [mbind res_bind].
    change (word _ 0 "ERR") with false. change (word _ 0 "BEGIN") with false. change (word _ 0 "END") with true.
    change (word _ 1 "LIST") with true. by rewrite word_is_third.
  - destruct (row_words _ _ Hr) as [-> Hp]. cbn [mbind res_bind].
    unfold plain_row in Hp. apply andb_true_iff in Hp as [[He Hb]%andb_true_iff Hd].
    apply negb_true_iff in He, Hb, Hd. rewrite He, Hb, Hd. fold (render <$> rows). by rewrite IH.
Qed.

Lemma parseList_sent what args rows : bare_ok (js what) = true → Forall (λ a, bare_ok a = true) args →
  Forall (λ r, row_ok what r = true) rows →
  parseList (sent what args rows) (js what) = Ok (inl (words_of rows)).
Proof.
  intros Hwhat Hargs H. unfold parseList, sent. cbn [parse_rows].
  rewrite splitNutLine_render, edge_words by by apply edge_ok. cbn [mbind res_bind].
  change (word _ 0 "ERR") with false. change (word _ 0 "BEGIN") with true. change (word _ 1 "LIST") with true.
  rewrite word_is_third. by apply parse_rows_sent.
Qed.

(** ** Sessions *)

Lemma cut_lines_app a b cur : cut_lines (a ++ b) cur =
  let '(l1, r1) := cut_lines a cur in let '(l2, r2) := cut_lines b r1 in (l1 ++ l2, r2).
Proof.
  revert cur. induction a as [|c a IH]; intros cur; cbn [app cut_lines]; [by destruct (cut_lines b cur) |].
  case_match; rewrite IH; [|done]. destruct (cut_lines a []) as [l1 r1]. by destruct (cut_lines b r1).
Qed.

(** A text without a newline only grows the line. *)
Lemma cut_lines_none a cur : newline ∉ a → cut_lines a cur = ([], cur ++ a).
Proof.
  revert cur. induction a as [|c a IH]; intros cur Ha; cbn [cut_lines]; [by rewrite app_nil_r |].
  apply not_elem_of_cons in Ha as [Hc Ha]. rewrite (proj2 (Z.eqb_neq _ _)) by congruence.
  rewrite IH by done. by rewrite <- app_assoc.
Qed.

Lemma cut_lines_rest a cur : newline ∉ cur → newline ∉ (cut_lines a cur).2.
Proof.
  revert cur. induction a as [|c a IH]; intros cur Hcur; cbn [cut_lines]; [done |].
  destruct (Z.eqb_spec c newline); [|apply IH; set_solver].
  assert (newline ∉ ([] : jstr)) as Hn by set_solver.
  specialize (IH [] Hn). by destruct (cut_lines a []).
Qed.

(** The text kept from the last piece counts like the beginning of this one. *)
Lemma cut_lines_keep buf a : newline ∉ buf → cut_lines (buf ++ a) [] = cut_lines a buf.
Proof. intros Hb. rewrite cut_lines_app, (cut_lines_none buf []) by done. cbn [app]. by destruct (cut_lines a buf). Qed.

Lemma take_lines_app l1 l2 w ls : take_lines (l1 ++ l2) w ls =
  match take_lines l1 w ls with
  | (w', ls', Waiting) => take_lines l2 w' ls'
  | (w', ls', a) => let '(w'', ls'', _) := take_lines (l1 ++ l2) w ls in (w'', ls'', a)
  end.
Proof.
  revert w ls. induction l1 as [|l l1 IH]; intros w ls; cbn [app take_lines]; [done |].
  destruct w as [e|]; [|apply IH]. case_match; [done |]. case_match; [|apply IH].
  destruct (take_lines l1 None []) as [[w1 k1] a1]. by destruct (take_lines (l1 ++ l2) None []) as [[w2 k2] a2].
Qed.

Lemma utf8_decode_app a b : is_ascii a → is_ascii b → utf8_decode (a ++ b) = utf8_decode a ++ utf8_decode b.
Proof. intros Ha Hb. rewrite !utf8_decode_ascii; [done | done | done | by apply Forall_app]. Qed.

Lemma on_chunks_equiv chunks s : newline ∉ se_buf s → Forall is_ascii chunks →
  se_total s + blen (mjoin chunks) ≤ MAX_BYTES →
  (on_chunks s chunks).2 = (on_data s (mjoin chunks)).2.
Proof.
  revert s. induction chunks as [|c chunks IH]; intros s Hbuf Hasc Htot.
  { unfold on_data. cbn in *. rewrite app_nil_r. rewrite (proj2 (Z.ltb_ge _ _)) by (cbn in *; lia).
    by rewrite cut_lines_none by done. }
  apply Forall_cons in Hasc as [Hc Hasc]. change (mjoin (c :: chunks)) with (c ++ mjoin chunks) in *.
  rewrite blen_app in Htot. pose proof (blen_nonneg (mjoin chunks)). pose proof (blen_nonneg c).
  assert (is_ascii (mjoin chunks)) as Hrest by (clear -Hasc; induction Hasc; cbn; [constructor | by apply Forall_app]).
  cbn [on_chunks]. unfold on_data at 1 2. rewrite blen_app, !(proj2 (Z.ltb_ge _ _)) by lia.
  rewrite utf8_decode_app, !cut_lines_keep, cut_lines_app by done.
  pose proof (cut_lines_rest (utf8_decode c) (se_buf s) Hbuf) as Hr.
  destruct (cut_lines (utf8_decode c) (se_buf s)) as [l1 r1]. cbn [snd] in Hr.
  destruct (cut_lines (utf8_decode (mjoin chunks)) r1) as [l2 r2] eqn:Hl2. rewrite take_lines_app.
  destruct (take_lines l1 (se_waiter s) (se_lines s)) as [[w ls] a] eqn:Ht1. destruct a as [| |]; cbn [snd].
  - rewrite IH; [|done..| cbn; lia]. unfold on_data. cbn [se_total se_buf se_waiter se_lines].
    rewrite (proj2 (Z.ltb_ge _ _)) by lia. rewrite cut_lines_keep by done. rewrite Hl2.
    by destruct (take_lines l2 w ls) as [[? ?] ?].
  - by destruct (take_lines (l1 ++ l2) _ _) as [[? ?] ?].
  - by destruct (take_lines (l1 ++ l2) _ _) as [[? ?] ?].
Qed.

(** ** A list over the wire *)

(** The bytes of lines, each with its newline. *)
Definition wire (lines : list jstr) : list Z := mjoin ((λ l, l ++ [newline]) <$> lines).

(** A line as it may be sent: ASCII, no newline, no carriage return at its end. *)
Definition line_ok (l : jstr) : bool :=
  forallb (λ c, (0 <=? c) && (c <? 128) && negb (c =? newline)) l && negb (bool_decide (last l = Some 13)).

(** The line of a row does not look like the end of the answer. *)
Definition goes_on (end_ l : jstr) : bool := negb (starts_with (js "ERR ") l || starts_with end_ l).

Lemma drop_cr_id l : last l ≠ Some 13 → drop_cr l = l.
Proof.
  unfold drop_cr. destruct l as [|c l] using rev_ind; [done |]. rewrite last_snoc, reverse_snoc. intros Hc.
  repeat case_match; subst; try done.
Qed.

Lemma line_ok_spec l : line_ok l = true → is_ascii l ∧ newline ∉ l ∧ drop_cr l = l.
Proof.
  intros [Hl Hcr]%andb_true_iff. apply negb_true_iff, bool_decide_eq_false in Hcr. rewrite forallb_forall in Hl.
  split_and!; [| | by apply drop_cr_id].
  - apply Forall_forall. intros c Hc%list_elem_of_In%Hl. lia.
  - intros Hn%list_elem_of_In%Hl. by rewrite Z.eqb_refl, andb_false_r in Hn.
Qed.

Lemma wire_ascii lines : Forall (λ l, line_ok l = true) lines → is_ascii (wire lines).
Proof.
  intros H. induction H as [|l lines Hl _ IH]; [constructor |].
  change (wire (l :: lines)) with ((l ++ [newline]) ++ wire lines).
  destruct (line_ok_spec l Hl) as [Ha _]. apply Forall_app. split; [|exact IH]. apply Forall_app.
  split; [done |]. repeat constructor; unfold newline; lia.
Qed.

Lemma cut_lines_wire lines : Forall (λ l, line_ok l = true) lines → cut_lines (wire lines) [] = (lines, []).
Proof.
  intros H. induction H as [|l lines Hl _ IH]; [done |].
  change (wire (l :: lines)) with ((l ++ [newline]) ++ wire lines). rewrite <- app_assoc, cut_lines_app.
  destruct (line_ok_spec l Hl) as (_ & Hn & _). rewrite cut_lines_none by done. cbn [app cut_lines].
  rewrite Z.eqb_refl. by rewrite IH.
Qed.

Lemma take_lines_to_end end_ ls l acc :
  Forall (λ l, line_ok l = true) (ls ++ [l]) → Forall (λ l, goes_on end_ l = true) ls → starts_with end_ l = true →
  Z.of_nat (length (acc ++ ls ++ [l])) ≤ MAX_LINES →
  (take_lines (ls ++ [l]) (Some end_) acc).2 = Resolved (acc ++ ls ++ [l]).
Proof.
  revert acc. induction ls as [|x ls IH]; intros acc Hok Hgo Hend Hlen; cbn [app take_lines].
  - apply Forall_cons in Hok as [Hl _]. destruct (line_ok_spec l Hl) as (_ & _ & ->).
    rewrite (proj2 (Z.ltb_ge _ _)) by (cbn [app] in Hlen; lia). by rewrite Hend, orb_true_r.
  - cbn [app] in Hok, Hlen. apply Forall_cons in Hok as [Hx Hok]. apply Forall_cons in Hgo as [Hg Hgo].
    destruct (line_ok_spec x Hx) as (_ & _ & ->). rewrite !length_app, !length_cons in Hlen.
    rewrite (proj2 (Z.ltb_ge _ _)) by (rewrite length_app; cbn [length]; lia).
    unfold goes_on in Hg. apply negb_true_iff in Hg. rewrite Hg.
    rewrite IH; [| done.. |]; [by rewrite <- app_assoc | rewrite !length_app; cbn [length] in *; rewrite length_app in Hlen; cbn [length] in *; lia].
Qed.

Lemma end_line what args : starts_with (js "END LIST " ++ js what) (render (edge "END" what args)) = true.
Proof.
  apply starts_with_app. unfold render, edge. rewrite <- list_fmap_compose. cbn [fmap list_fmap compose].
  destruct args as [|a args].
  - exists []. cbn [fmap list_fmap]. by rewrite app_nil_r.
  - exists (space :: join space ((λ x, spell (false, x)) <$> a :: args)). by rewrite <- app_assoc.
Qed.

Lemma pieces_ascii chunks : is_ascii (mjoin chunks) → Forall is_ascii chunks.
Proof.
  induction chunks as [|c chunks IH]; [constructor |]. change (mjoin (c :: chunks)) with (c ++ mjoin chunks).
  intros [Hc Hr]%Forall_app. constructor; [done | by apply IH].
Qed.

(** A list the server sends is read back, however the socket cuts its
    bytes: the request ends with the list's last line, and the rows are the
    words of its lines, quotes and backslashes undone. *)
Theorem list_read chunks what args rows :
  let end_ := js "END LIST " ++ js what in
  bare_ok (js what) = true → Forall (λ a, bare_ok a = true) args → Forall (λ r, row_ok what r = true) rows →
  Forall (λ l, line_ok l = true) (sent what args rows) → Forall (λ r, goes_on end_ (render r) = true) rows →
  (length rows <= 998)%nat → blen (wire (sent what args rows)) ≤ MAX_BYTES →
  mjoin chunks = wire (sent what args rows) →
  ∃ lines, (on_chunks (request session_new end_) chunks).2 = Resolved lines ∧
    parseList lines (js what) = Ok (inl (words_of rows)).
Proof.
  intros end_ Hwhat Hargs Hrows Hlines Hgo Hlen Hbytes Hchunks.
  exists (sent what args rows). split; [|by apply parseList_sent].
  pose proof (wire_ascii _ Hlines) as Hasc. rewrite on_chunks_equiv.
  - rewrite Hchunks. unfold on_data. cbn [request session_new se_total se_buf se_waiter se_lines app].
    rewrite (proj2 (Z.ltb_ge _ _)) by lia. rewrite utf8_decode_ascii, cut_lines_wire by done.
    pose proof (take_lines_to_end end_ (render (edge "BEGIN" what args) :: (render <$> rows))
      (render (edge "END" what args)) []) as Ht. cbn [app] in Ht.
    change (render (edge "BEGIN" what args) :: (render <$> rows) ++ [render (edge "END" what args)])
      with (sent what args rows) in Ht.
    destruct (take_lines (sent what args rows) (Some end_) []) as [[w ls] a]. cbn [snd] in *. apply Ht.
    + exact Hlines.
    + constructor; [done | by apply Forall_fmap].
    + apply end_line.
    + unfold sent, MAX_LINES. rewrite length_cons, length_app, length_fmap. cbn [length]. lia.
  - cbn. set_solver.
  - apply pieces_ascii. by rewrite Hchunks.
  - cbn [request session_new se_total]. rewrite Hchunks. lia.
Qed.

(** ** Examples *)

Definition sample_rows : list (list spelled) :=
  [[(false, js "VAR"); (false, js "ups"); (false, js "battery.charge"); (true, js "100")];
   [(false, js "VAR"); (false, js "ups"); (false, js "device.mfr"); (true, js "A \ B")]].
Definition sample_chunks : list (list Z) :=
  let bs := wire (sent "VAR" [js "ups"] sample_rows) in [take 20 bs; []; drop 20 bs].

Lemma list_read_witness : ∃ lines,
  (on_chunks (request session_new (js "END LIST VAR")) sample_chunks).2 = Resolved lines ∧
  parseList lines (js "VAR") = Ok (inl (words_of sample_rows)).
Proof.
  apply (list_read sample_chunks "VAR" [js "ups"] sample_rows); try (by vm_compute); try (by repeat constructor).
Defined.

(** A character of two bytes cut between them is lost: each piece is decoded
    on its own. *)
Lemma split_character_lost :
  (on_chunks (request session_new (js "OK")) [js "OK " ++ [195]; [164; 10]]).2 = Resolved [js "OK " ++ [65533; 65533]] ∧
  (on_chunks (request session_new (js "OK")) [js "OK " ++ [195; 164; 10]]).2 = Resolved [js "OK " ++ [228]].
Proof. by vm_compute. Qed.
