(* ===== verification/Channel.v ===== *)
(** * src/edge/channel.js

    The channel of the edge host to the server: the wait before the next
    attempt, the pinned addresses, and the channel itself as a machine whose
    inputs are the calls of the host, the events of the sockets and the
    timers. *)

From S2P Require Import Prelude JsBuffer JsValues JsFloat EdgeConstants.

Local Open Scope Z_scope.

Definition PROTOCOL : jstr := js "gc-edge.v1".
Definition WS_PATH : jstr := js "/api/v1/gateway/edge/ws".

(** [ws+unix://<socket>:<path>] *)
Definition unixWsUrl (socketPath reqPath : jstr) : res jstr :=
  if starts_with (js "/") socketPath then Ok (js "ws+unix://" ++ socketPath ++ 58 :: reqPath)
  else Throw "socketPath must be absolute".

(** An address with its family. *)
Definition pinned (addrs : list jstr) : list (jstr * Z) :=
  (λ a, (a, if includes 58 a then 6 else 4)) <$> addrs.

(** [pinnedLookup(getAddrs)]: every address, or the first; an error without one. *)
Inductive lookup_answer := NotFound | All (l : list (jstr * Z)) | One (a : jstr * Z).
Definition pinnedLookup (addrs : option (list jstr)) (all : bool) : lookup_answer :=
  match pinned (filter (λ a, nonempty a = true) (default [] addrs)) with
  | [] => NotFound
  | a :: l => if all then All (a :: l) else One a
  end.

(** ** The wait before the next attempt *)

(** [min * 2 ** attempt] is a whole number or too large for a double. *)
Definition backoff_base (min max attempt : Z) : Z := Z.min max (min * 2 ^ Z.max 0 attempt).

(** [Math.round(base * (0.8 + 0.4 * random()))] as an integer *)
Definition jitter (base : Z) (random : f64) : Z :=
  match fl_mul (fl_of_Z base) (fl_add (fl_quot 8 10) (fl_mul (fl_quot 4 10) random)) with
  | S754_finite neg m e => round_scaled neg m e 1
  | _ => 0
  end.

Definition backoffDelay (attempt min max : Z) (random : f64) : Z :=
  Z.max min (Z.min max (jitter (backoff_base min max attempt) random)).

(** ** The channel *)

Record timing := Timing {
  reconnectMinMs : Z; reconnectMaxMs : Z; pingMs : Z; pongTimeoutMs : Z; unsupportedRetryMs : Z; authRetryMs : Z }.

(** A socket: its number, and the wait its refusal asks for ([retryIn]). *)
Record socket := Socket { so_id : nat; so_retryIn : option Z }.

(** [ws] is the socket in use; [others] are sockets given up that have not
    closed yet; the delay of the pending
    retry, the socket the ping timer pings. *)
Record channel := Channel {
  ch_ws : option socket;
  ch_next : nat;
  ch_attempt : Z;
  ch_stopped : bool;
  ch_retryTimer : option Z;
  ch_ping : option nat;
  ch_lastSeen : Z;
  ch_connected : bool;
  ch_lastError : option jstr;
  ch_unsupported : bool }.

Definition channel_new : channel := Channel None 0 0 true None None 0 false None false.

(** What [credentials()] gives, and whether a socket could be made of it. *)
Inductive creds := NoCreds (error : jstr) | BadUrl (error : jstr) | SocketFails (error : jstr) | SocketMade.

(** What the channel does to the world. *)
Inductive effect :=
  | Terminate (id : nat) | CloseSocket (id : nat) (code : Z) | SendText (id : nat) (text : jstr) | SendPing (id : nat)
  | EmitOpen | EmitClose | EmitRetry (delay : Z) | EmitMessage (msg : json).
Abbreviation effects := (list effect).

Section Machine.
Context (timing_ : timing).

Definition set_error (c : channel) (e : option jstr) : channel :=
  Channel (ch_ws c) (ch_next c) (ch_attempt c) (ch_stopped c) (ch_retryTimer c) (ch_ping c) (ch_lastSeen c)
    (ch_connected c) e (ch_unsupported c).

(** [scheduleRetry(fixed)]; a wait of 0 counts as none given. *)
Definition scheduleRetry (c : channel) (fixed : option Z) (random : f64) : channel * effects :=
  if ch_stopped c then (c, [])
  else
    let with_timer attempt delay :=
      (Channel (ch_ws c) (ch_next c) attempt (ch_stopped c) (Some delay) (ch_ping c) (ch_lastSeen c)
         (ch_connected c) (ch_lastError c) (ch_unsupported c), [EmitRetry delay]) in
    let backoff := with_timer (ch_attempt c + 1)
                     (backoffDelay (ch_attempt c) (reconnectMinMs timing_) (reconnectMaxMs timing_) random) in
    match fixed with
    | Some d => if d =? 0 then backoff else with_timer (ch_attempt c) d
    | None => backoff
    end.

Definition connect (c : channel) (cr : creds) (random : f64) : channel * effects :=
  if ch_stopped c then (c, [])
  else
    match cr with
    | NoCreds e | BadUrl e => scheduleRetry (set_error c (Some e)) (Some (reconnectMaxMs timing_)) random
    | SocketFails e => scheduleRetry (set_error c (Some e)) None random
    | SocketMade =>
        (Channel (Some (Socket (ch_next c) None)) (S (ch_next c)) (ch_attempt c) (ch_stopped c) (ch_retryTimer c)
           (ch_ping c) (ch_lastSeen c) (ch_connected c) (ch_lastError c) (ch_unsupported c), [])
    end.

Definition clear_retry (c : channel) : channel :=
  Channel (ch_ws c) (ch_next c) (ch_attempt c) (ch_stopped c) None (ch_ping c) (ch_lastSeen c) (ch_connected c)
    (ch_lastError c) (ch_unsupported c).

Definition start (c : channel) (cr : creds) (random : f64) : channel * effects :=
  if negb (ch_stopped c) then (c, [])
  else
    connect (Channel (ch_ws c) (ch_next c) (ch_attempt c) false (ch_retryTimer c) (ch_ping c) (ch_lastSeen c)
               (ch_connected c) (ch_lastError c) (ch_unsupported c)) cr random.

Definition stop (c : channel) : channel * effects :=
  (Channel None (ch_next c) (ch_attempt c) true None None (ch_lastSeen c) false (ch_lastError c) (ch_unsupported c),
   match ch_ws c with Some w => [CloseSocket (so_id w) 1000; Terminate (so_id w)] | None => [] end).

Definition reconnect (c : channel) (cr : creds) (random : f64) : channel * effects :=
  if ch_stopped c then (c, [])
  else
    match ch_ws c with
    | Some w => (c, [Terminate (so_id w)])
    | None => connect (clear_retry c) cr random
    end.

(** The retry timer fires. *)
Definition retry (c : channel) (cr : creds) (random : f64) : channel * effects :=
  match ch_retryTimer c with
  | Some _ => connect (clear_retry c) cr random
  | None => (c, [])
  end.

(** The handlers of a socket; those of a socket given up still run. *)
Definition with_ws (c : channel) (id : nat) (f : socket → socket) : option socket :=
  match ch_ws c with
  | Some w => if (so_id w =? id)%nat then Some (f w) else Some w
  | None => None
  end.
Definition set_retryIn (r : Z) (w : socket) : socket := Socket (so_id w) (Some r).

Definition on_unexpected (c : channel) (id : nat) (code : Z) : channel * effects :=
  let gone := (code =? 404) || (code =? 426) || (code =? 501) in
  let denied := (code =? 401) || (code =? 403) in
  (Channel
     (if gone then with_ws c id (set_retryIn (unsupportedRetryMs timing_))
      else if denied then with_ws c id (set_retryIn (authRetryMs timing_)) else ch_ws c)
     (ch_next c) (ch_attempt c) (ch_stopped c) (ch_retryTimer c) (ch_ping c) (ch_lastSeen c) (ch_connected c)
     (Some (js "http_" ++ show_Z code)) (if gone then true else ch_unsupported c),
   [Terminate id]).

Definition on_open (c : channel) (id : nat) (protocol : jstr) (now : Z) : channel * effects :=
  if negb (bool_decide (protocol = PROTOCOL)) then
    (Channel (with_ws c id (set_retryIn (unsupportedRetryMs timing_))) (ch_next c) (ch_attempt c) (ch_stopped c)
       (ch_retryTimer c) (ch_ping c) (ch_lastSeen c) (ch_connected c) (Some (js "wrong_subprotocol")) (ch_unsupported c),
     [CloseSocket id 1002])
  else
    (Channel (ch_ws c) (ch_next c) 0 (ch_stopped c) (ch_retryTimer c) (Some id) now true None false, [EmitOpen]).

Definition seen (c : channel) (now : Z) : channel :=
  Channel (ch_ws c) (ch_next c) (ch_attempt c) (ch_stopped c) (ch_retryTimer c) (ch_ping c) now (ch_connected c)
    (ch_lastError c) (ch_unsupported c).

(** A frame; [msg] is what [JSON.parse] gives for a text frame. *)
Definition on_message (c : channel) (isBinary : bool) (msg : option json) (now : Z) : channel * effects :=
  (seen c now,
   if isBinary then []
   else match msg with
        | Some (JObj fields as m) => match field fields (js "t") with Some (JStr _) => [EmitMessage m] | _ => [] end
        | _ => []
        end).

(** An error of a socket; a refusal of the server stays the reason. *)
Definition on_error (c : channel) (retryIn : option Z) (message : jstr) : channel :=
  match retryIn with None => set_error c (Some message) | Some _ => c end.

Definition on_close (c : channel) (id : nat) (random : f64) : channel * effects :=
  match ch_ws c with
  | Some w =>
      if (so_id w =? id)%nat then
        let '(c', es) :=
          scheduleRetry (Channel None (ch_next c) (ch_attempt c) (ch_stopped c) (ch_retryTimer c) None
                           (ch_lastSeen c) false (ch_lastError c) (ch_unsupported c)) (so_retryIn w) random in
        (c', (if ch_connected c then [EmitClose] else []) ++ es)
      else (c, [])
  | None => (c, [])
  end.

(** The ping timer fires. *)
Definition ping_timer (c : channel) (now : Z) : effects :=
  match ch_ping c with
  | None => []
  | Some id => if pongTimeoutMs timing_ <? now - ch_lastSeen c then [Terminate id] else [SendPing id]
  end.

(** [send(msg)] with the text of the message; whether it was sent. *)
Definition send (c : channel) (open : bool) (text : jstr) : bool * effects :=
  match ch_ws c with
  | Some w =>
      if negb (ch_connected c) || negb open then (false, [])
      else if LIMITS.frameBytes <? blen (utf8_encode text) then (false, [])
      else (true, [SendText (so_id w) text])
  | None => (false, [])
  end.

(** ** What can happen *)

Inductive input :=
  | Start (cr : creds) (random : f64) | Stop | Reconnect (cr : creds) (random : f64)
  | Retry (cr : creds) (random : f64)
  | Unexpected (id : nat) (code : Z) | Opened (id : nat) (protocol : jstr) (now : Z)
  | Message (isBinary : bool) (msg : option json) (now : Z) | Pong (now : Z)
  | SocketError (retryIn : option Z) (message : jstr) | Closed (id : nat) (random : f64)
  | PingTimer (now : Z) | Send (open : bool) (text : jstr).

Definition step (c : channel) (i : input) : channel * effects :=
  match i with
  | Start cr r => start c cr r
  | Stop => stop c
  | Reconnect cr r => reconnect c cr r
  | Retry cr r => retry c cr r
  | Unexpected id code => on_unexpected c id code
  | Opened id p now => on_open c id p now
  | Message b m now => on_message c b m now
  | Pong now => (seen c now, [])
  | SocketError r m => (on_error c r m, [])
  | Closed id r => on_close c id r
  | PingTimer now => (c, ping_timer c now)
  | Send o t => (c, (send c o t).2)
  end.

Fixpoint run (c : channel) (l : list input) : channel * effects :=
  match l with
  | [] => (c, [])
  | i :: l => let '(c, es) := step c i in let '(c, es') := run c l in (c, es ++ es')
  end.
End Machine.

(** * Properties of the channel

    The channel in every state the host, its sockets and its timers can bring
    it to: never stuck, never two sockets, and what it sends and waits. *)

Lemma backoffDelay_range attempt min max random : min ≤ max → min ≤ backoffDelay attempt min max random ≤ max.
Proof. unfold backoffDelay. lia. Qed.

Section Reach.
Context (t : timing).

(** A socket that was given up opens no more: [terminate] was called on it. *)
Definition possible (c : channel) (i : input) : Prop :=
  match i with Opened id _ _ => ∃ w, ch_ws c = Some w ∧ so_id w = id | _ => True end.

(** The states of a channel, each with all it has done so far. *)
Inductive reachable : channel → effects → Prop :=
  | reach_new : reachable channel_new []
  | reach_step c es i : reachable c es → possible c i →
      reachable (step t c i).1 (es ++ (step t c i).2).

(** A wait of [retryIn] is one of the two long ones. *)
Definition retry_ok (w : option socket) : Prop :=
  ∀ s d, w = Some s → so_retryIn s = Some d → d = unsupportedRetryMs t ∨ d = authRetryMs t.

(** Stopped, nothing is left; otherwise there is a socket or a pending retry. *)
Definition shape (c : channel) : Prop :=
  if ch_stopped c
  then ch_ws c = None ∧ ch_retryTimer c = None ∧ ch_ping c = None ∧ ch_connected c = false
  else (is_Some (ch_ws c) ∧ ch_retryTimer c = None) ∨
       (ch_ws c = None ∧ is_Some (ch_retryTimer c) ∧ ch_ping c = None ∧ ch_connected c = false).

Definition effect_ok (e : effect) : Prop :=
  match e with
  | EmitRetry d => reconnectMinMs t ≤ d ≤ reconnectMaxMs t ∨ d = unsupportedRetryMs t ∨ d = authRetryMs t
  | SendText _ text => blen (utf8_encode text) ≤ 65536
  | _ => True
  end.

Hypothesis Hmin : reconnectMinMs t ≤ reconnectMaxMs t.

Definition good (r : channel * effects) : Prop := shape r.1 ∧ retry_ok (ch_ws r.1) ∧ Forall effect_ok r.2.

Lemma retry_ok_None : retry_ok None.
Proof. done. Qed.

(** A retry is scheduled when there is neither a socket nor a connection. *)
Lemma scheduleRetry_good c fixed random : ch_stopped c = false → ch_ws c = None → ch_ping c = None → ch_connected c = false →
  (∀ d, fixed = Some d → effect_ok (EmitRetry d)) → good (scheduleRetry t c fixed random).
Proof.
  intros Hs Hw Hp Hc Hf. unfold scheduleRetry. rewrite Hs at 1.
  assert (∀ a d, effect_ok (EmitRetry d) →
    good (Channel (ch_ws c) (ch_next c) a (ch_stopped c) (Some d) (ch_ping c) (ch_lastSeen c) (ch_connected c) (ch_lastError c)
            (ch_unsupported c), [EmitRetry d])) as Hg.
  { intros a d Hd. split_and!; cbn; [unfold shape; cbn; rewrite Hs; right; eauto | rewrite Hw; apply retry_ok_None | by constructor]. }
  pose proof (backoffDelay_range (ch_attempt c) _ _ random Hmin).
  destruct fixed as [d|]; [destruct (d =? 0)|]; apply Hg; try (by left). by apply Hf.
Qed.

Lemma connect_good c cr random : ch_stopped c = false → ch_ws c = None → ch_retryTimer c = None → ch_ping c = None →
  ch_connected c = false → good (connect t c cr random).
Proof.
  intros Hs Hw Hr Hp Hc. unfold connect. rewrite Hs. destruct cr as [e|e|e|].
  - apply scheduleRetry_good; [done.. |]. intros d [= <-]. left. lia.
  - apply scheduleRetry_good; [done.. |]. intros d [= <-]. left. lia.
  - by apply scheduleRetry_good.
  - split_and!; cbn; [left; eauto | by intros s d [= <-] | constructor].
Qed.

(** Changes that leave the socket, the timers and the connection as they are. *)
Lemma same_shape c c' : shape c → ch_stopped c' = ch_stopped c → ch_ws c' = ch_ws c → ch_retryTimer c' = ch_retryTimer c →
  ch_ping c' = ch_ping c → ch_connected c' = ch_connected c → shape c'.
Proof. unfold shape. by intros ? -> -> -> -> ->. Qed.

Lemma with_ws_retry c id d : retry_ok (ch_ws c) → d = unsupportedRetryMs t ∨ d = authRetryMs t →
  retry_ok (with_ws c id (set_retryIn d)) ∧ (is_Some (with_ws c id (set_retryIn d)) ↔ is_Some (ch_ws c)).
Proof.
  intros Hr Hd. unfold with_ws. destruct (ch_ws c) as [w|]; [|done]. case_match; split; try done.
  intros s d' [= <-] [= <-]. done.
Qed.

(** A new waiting time for the socket in use. *)
Lemma retry_shape c ws err uns : shape c → (is_Some ws ↔ is_Some (ch_ws c)) →
  shape (Channel ws (ch_next c) (ch_attempt c) (ch_stopped c) (ch_retryTimer c) (ch_ping c) (ch_lastSeen c)
           (ch_connected c) err uns).
Proof.
  assert (∀ {A} (o : option A), o = None ↔ ¬ is_Some o) as Hnone by (intros A []; naive_solver).
  unfold shape. cbn. intros Hs Hw. case_match; rewrite !(Hnone _ ws), Hw, <- Hnone; [by rewrite Hnone in * |].
  destruct Hs as [? | ?]; [left; tauto | right; tauto].
Qed.

Lemma step_good c i : shape c → retry_ok (ch_ws c) → possible c i → good (step t c i).
Proof.
  intros Hs Hr Hp. destruct i as [cr r| |cr r|cr r|id code|id p now|b m now|now|ri m|id r|now|o text]; cbn [step].
  - unfold start, shape in *. destruct (ch_stopped c) eqn:Hst; cbn [negb]; [|by split_and!; cbn; [unfold shape; rewrite Hst | | constructor]].
    destruct Hs as (Hw & Ht & Hpi & Hc). by apply connect_good.
  - split_and!; cbn; [done | apply retry_ok_None |]. case_match; by repeat constructor.
  - unfold reconnect. destruct (ch_stopped c) eqn:Hst; [split_and!; cbn; [done | done | constructor] |].
    destruct (ch_ws c) as [w|] eqn:Hw; [split_and!; cbn; [done | by rewrite Hw | by repeat constructor] |].
    unfold shape in Hs. rewrite Hst, Hw in Hs. destruct Hs as [[[? ?] _]|(_ & _ & ? & ?)]; [done |]. by apply connect_good.
  - unfold retry. destruct (ch_retryTimer c) as [d|] eqn:Ht; [|split_and!; cbn; [done | done | constructor]].
    unfold shape in Hs. rewrite Ht in Hs. destruct (ch_stopped c) eqn:Hst; [naive_solver |].
    destruct Hs as [[_ ?]|(? & _ & ? & ?)]; [done |]. by apply connect_good.
  - unfold on_unexpected.
    set (gone := (_ || _ || _)). set (denied := (_ || _)).
    assert (∀ d, d = unsupportedRetryMs t ∨ d = authRetryMs t → ∀ err uns,
      good (Channel (with_ws c id (set_retryIn d)) (ch_next c) (ch_attempt c) (ch_stopped c) (ch_retryTimer c) (ch_ping c)
              (ch_lastSeen c) (ch_connected c) err uns, [Terminate id])) as Hg.
    { intros d Hd err uns. destruct (with_ws_retry c id d Hr Hd). split_and!; cbn; [by apply retry_shape | done | by repeat constructor]. }
    destruct gone; [by apply Hg; left |]. destruct denied; [by apply Hg; right |].
    split_and!; cbn; [by apply retry_shape | done | by repeat constructor].
  - destruct Hp as (w & Hw & Hid). unfold on_open. case_match.
    + destruct (with_ws_retry c id (unsupportedRetryMs t) Hr) as [? ?]; [by left |].
      split_and!; cbn; [by apply retry_shape | done | by repeat constructor].
    + split_and!; cbn; [| done | by repeat constructor]. unfold shape in *. cbn. rewrite Hw in *.
      destruct (ch_stopped c); [naive_solver |]. destruct Hs as [[? ?]|[? _]]; [by left; eauto | done].
  - unfold on_message, seen. split_and!; cbn; [by eapply same_shape | done |]. repeat case_match; by repeat constructor.
  - split_and!; cbn; [by eapply same_shape | done | constructor].
  - unfold on_error. case_match; (split_and!; cbn; [by eapply same_shape | done | constructor]).
  - unfold on_close. destruct (ch_ws c) as [w|] eqn:Hw; [|split_and!; cbn; [done | by rewrite Hw | constructor]].
    case_match; [|split_and!; cbn; [done | by rewrite Hw | constructor]].
    unfold shape in Hs. rewrite Hw in Hs. destruct (ch_stopped c) eqn:Hst; [naive_solver |].
    match goal with |- context [scheduleRetry t ?c' ?f r] => pose proof (scheduleRetry_good c' f r) as Hg end.
    cbn [ch_stopped ch_ws ch_ping ch_connected] in Hg. specialize (Hg eq_refl eq_refl eq_refl eq_refl).
    destruct (scheduleRetry _ _ _ _) as [c' es]. destruct Hg as (? & ? & ?).
    { intros d Hd. right. by apply (Hr w d). }
    split_and!; cbn; [done | done |]. apply Forall_app. split; [case_match; by repeat constructor | done].
  - unfold ping_timer. split_and!; cbn; [done | done |]. repeat case_match; by repeat constructor.
  - unfold send. split_and!; cbn; [done | done |]. destruct (ch_ws c); [|constructor]. case_match; [constructor |].
    destruct (Z.ltb_spec LIMITS.frameBytes (blen (utf8_encode text))) as [|Hle]; [constructor |].
    constructor; [|constructor]. cbn. unfold LIMITS.frameBytes in Hle. lia.
Qed.

End Reach.

Definition sample_timing : timing := Timing 1000 60000 20000 60000 600000 300000.
Definition half : f64 := fl_quot 1 2.

