(* ===== verification/DnsConfig.v ===== *)
(** * src/dns/config.js, with features/macs.js

    The DNS settings the server sends, checked and shortened: patterns, MAC
    addresses, lists, categories, schedules, profiles, pauses; and the part of
    them the policy is built from. *)

From S2P Require Import Prelude JsBuffer JsValues JsSet JsMap DomainSet Policy.

Local Open Scope Z_scope.

(** What the source takes from the runtime: [Date.parse], the URL parser, and
    the text of a number that is not an integer of at most 2^53. *)
Record url := Url { ur_protocol : jstr; ur_hostname : jstr; ur_username : jstr; ur_password : jstr; ur_href : jstr }.
Class Runtime := {
  Date_parse : jstr → option num;
  parse_URL : jstr → option url;
  fraction_text : num → jstr
}.

Module LIMITS.
Definition lists : nat := 32.
Definition categories : nat := 16.
Definition categoryDomains : nat := 20 * 1000.
Definition alwaysAllow : nat := 1000.
Definition profiles : nat := 32.
Definition patterns : nat := 2000.
Definition schedules : nat := 16.
Definition macsPerProfile : nat := 256.
Definition macsTotal : nat := 2048.
Definition pauses : nat := 512.
Definition name : nat := 64.
End LIMITS.

Definition PROVIDERS : list jstr := [js "quad9"; js "cloudflare"; js "dns0"; js "custom"].
Definition FORMATS : list jstr := [js "domains"; js "hosts"; js "adblock"].

Definition is_alnum (c : Z) : bool := is_digit c || is_lower c || is_upper c.
(** A first unit and at most [max] more. *)
Definition name_of (first rest : Z → bool) (max : nat) (s : jstr) : bool :=
  match s with c :: r => first c && forallb rest r && (length r <=? max)%nat | [] => false end.

Definition LIST_ID_RE : jstr → bool := name_of is_alnum (λ c, is_alnum c || (c =? 95) || (c =? 45)) 63.
Definition KEY_RE : jstr → bool :=
  name_of (λ c, is_lower c || is_digit c) (λ c, is_lower c || is_digit c || (c =? 95) || (c =? 45)) 31.
Definition profile_unit (c : Z) : bool := is_alnum c || (c =? 95) || (c =? 46) || (c =? 58) || (c =? 45).
Definition PROFILE_ID_RE : jstr → bool := name_of profile_unit profile_unit 63.

(** ** Fields *)

Definition obj_of (v : option json) : list (jstr * json) := match v with Some (JObj f) => f | _ => [] end.
Definition get (f : list (jstr * json)) (k : string) : option json := field f (js k).

(** [Array.isArray(v) ? v.slice(0, max) : []] *)
Definition arr (v : option json) (max : nat) : list json := match v with Some (JArr l) => take max l | _ => [] end.

Definition hex_unit (c : Z) : bool := is_digit c || ((97 <=? c) && (c <=? 102)).

Fixpoint pairs (s : jstr) : list jstr := match s with a :: b :: r => [a; b] :: pairs r | _ => [] end.

Section Normalize.
Context `{Unicode}.

Definition normalizeMac (v : json) : option jstr :=
  match v with
  | JStr mac =>
      let hex := toLowerCase (filter (λ c, (c =? 58) || (c =? 45) || (c =? 46) || js_space c = false) mac) in
      if forallb hex_unit hex && (length hex =? 12)%nat then Some (join 58 (pairs hex)) else None
  | _ => None
  end.

Definition cleanPattern (v : json) : option jstr :=
  match v with
  | JStr p =>
      let t := trim p in
      let wild := starts_with (js "*.") t in
      (λ d, if wild then js "*." ++ d else d) <$> cleanDomain false (if wild then drop 2 t else t)
  | _ => None
  end.

Definition patterns (v : option json) (max : nat) : list jstr :=
  take max (uniq (omap cleanPattern (arr v (max * 2)))).
Definition macs (v : option json) (max : nat) : list jstr :=
  take max (uniq (omap normalizeMac (arr v (max * 2)))).

Context `{Runtime}.

Definition httpsUrl (v : option json) : option jstr :=
  match v with
  | Some (JStr u) =>
      if (2048 <? length u)%nat then None
      else
        x ← parse_URL u;
        if bool_decide (ur_protocol x = js "https:") && nonempty (ur_hostname x)
           && negb (nonempty (ur_username x)) && negb (nonempty (ur_password x))
        then Some (ur_href x) else None
  | _ => None
  end.

(** ** Times *)

(** [/^([01]\d|2[0-3]):([0-5]\d)$/] *)
Definition TIME_RE (s : jstr) : option (Z * Z) :=
  match s with
  | [a; b; c; d; e] =>
      if (((a =? 48) || (a =? 49)) && is_digit b || (a =? 50) && (48 <=? b) && (b <=? 51))
         && (c =? 58) && (48 <=? d) && (d <=? 53) && is_digit e
      then Some ((a - 48) * 10 + (b - 48), (d - 48) * 10 + (e - 48)) else None
  | _ => None
  end.

Definition minutes (v : option json) (allow24 : bool) : option Z :=
  match v with
  | Some (JStr s) =>
      if allow24 && bool_decide (s = js "24:00") then Some 1440
      else (λ hm : Z * Z, hm.1 * 60 + hm.2) <$> TIME_RE s
  | _ => None
  end.

(** [p / 2 ^ e] with the twos cancelled *)
Fixpoint cancel (fuel : nat) (p : Z) (e : Z) : num :=
  match fuel with
  | S fuel => if (0 <? e) && Z.even p then cancel fuel (p / 2) (e - 1)
              else match e with Zpos k => NFrac p k | _ => NInt p end
  | O => NInt p
  end.
(** [v * 1000] as a double *)
Definition times1000 (v : num) : num :=
  match v with
  | NInt z => let r := round53 (z * 1000) in if 1024 <=? Z.log2 (Z.abs r) then NInf (r <? 0) else NInt r
  | NFrac m e => cancel (S (Pos.to_nat e)) (round53 (m * 1000)) (Z.pos e)
  | NInf neg => NInf neg
  end.

Definition timeMs (v : option json) : option num :=
  match v with
  | Some (JNum n) =>
      if is_finite n then Some (if num_lt n (NInt 1000000000000) then times1000 n else n) else None
  | Some (JStr s) =>
      if (64 <? length s)%nat then None
      else t ← Date_parse s; if is_finite t then Some t else None
  | _ => None
  end.

(** ** Schedules and pauses *)

Definition day_of (v : json) : option Z :=
  match v with JNum (NInt d) => if (1 <=? d) && (d <=? 7) then Some d else None | _ => None end.
(** The texts of a list that [ok] lets pass *)
Definition texts (ok : jstr → bool) (l : list json) : list jstr :=
  omap (λ v, match v with JStr s => if ok s then Some s else None | _ => None end) l.

Definition normalizeSchedule (catKeys : list jstr) (v : json) : option schedule :=
  match v with
  | JObj s =>
      let days := sort_by show_Z (uniq (omap day_of (arr (get s "days") 7))) in
      match minutes (get s "from") false, minutes (get s "to") true with
      | Some from, Some to =>
          if match days with [] => true | _ => false end then None
          else
            let block := if is_str (get s "block") (js "all") then js "all" else js "categories" in
            let categories := uniq (texts (λ c, bool_decide (c ∈ catKeys)) (arr (get s "categories") LIMITS.categories)) in
            if bool_decide (block = js "categories") && match categories with [] => true | _ => false end then None
            else Some (Schedule days from to block categories (patterns (get s "allowAlways") LIMITS.patterns))
      | _, _ => None
      end
  | _ => None
  end.

Record pause := Pause { pa_macs : list jstr; pa_until : num }.

Definition normalizePauses (v : option json) : list pause :=
  omap (λ p, match p with
             | JObj f =>
                 match timeMs (get f "until"), macs (get f "macs") LIMITS.macsPerProfile with
                 | Some until, c :: m => Some (Pause (c :: m) until)
                 | _, _ => None
                 end
             | _ => None
             end) (arr v LIMITS.pauses).

(** ** Lists, categories, profiles *)

Record list_cfg := ListCfg { lc_url : jstr; lc_format : jstr; lc_sha256 : option jstr }.

Definition sha_of (v : option json) : option jstr :=
  match v with
  | Some (JStr s) =>
      if forallb (λ c, hex_unit (lower_unit c)) s && (length s =? 64)%nat then Some (toLowerCase s) else None
  | _ => None
  end.

Definition list_entry (v : json) : option list_cfg :=
  match v with
  | JObj l =>
      u ← httpsUrl (get l "url");
      f ← match get l "format" with Some (JStr f) => if bool_decide (f ∈ FORMATS) then Some f else None | _ => None end;
      Some (ListCfg u f (sha_of (get l "sha256")))
  | _ => None
  end.

(** Entries up to the limit; the loop ends when it is reached. *)
Fixpoint lists_of (entries : list (jstr * json)) (out : list (jstr * list_cfg)) : list (jstr * list_cfg) :=
  match entries with
  | [] => out
  | (id, l) :: entries =>
      if (LIMITS.lists <=? length out)%nat then out
      else lists_of entries
             (if LIST_ID_RE id then match list_entry l with Some c => map_set out id c | None => out end else out)
  end.

Definition categories_of (entries : list (jstr * json)) : list (jstr * list jstr) :=
  fold_left (λ out e, if KEY_RE e.1 then map_set out e.1 (patterns (Some e.2) LIMITS.categoryDomains) else out) entries [].

(** Names every object has: [lists[name]] is not [undefined] for them. *)
Definition inherited : list jstr :=
  js <$> ["constructor"; "__defineGetter__"; "__defineSetter__"; "hasOwnProperty"; "__lookupGetter__";
          "__lookupSetter__"; "isPrototypeOf"; "propertyIsEnumerable"; "toString"; "valueOf"; "__proto__";
          "toLocaleString"]%string.

(** [String(n)]: exact for integers that doubles hold exactly *)
Definition number_text (n : num) : jstr :=
  match n with
  | NInt z => if Z.abs z <=? 9007199254740992 then show_Z z else fraction_text n
  | _ => fraction_text n
  end.

Record profile_cfg := ProfileCfg { pc_name : jstr; pc_profile : profile }.

Definition profile_id (v : option json) : option jstr :=
  match v with
  | Some (JNum (NInt z)) => Some (number_text (NInt z))
  | Some (JStr s) => Some s
  | _ => None
  end.

Fixpoint profiles_of (lists : list (jstr * list_cfg)) (catKeys : list jstr) (l : list json) (seen : list jstr)
    (budget : nat) : list profile_cfg :=
  match l with
  | [] => []
  | JObj p :: l =>
      match profile_id (get p "id") with
      | Some id =>
          if negb (PROFILE_ID_RE id) || bool_decide (id ∈ seen) then profiles_of lists catKeys l seen budget
          else
            let m := macs (get p "macs") (Nat.min LIMITS.macsPerProfile budget) in
            ProfileCfg (match get p "name" with Some (JStr n) => take LIMITS.name n | _ => id end)
              (Profile id m (patterns (get p "allow") LIMITS.patterns) (patterns (get p "deny") LIMITS.patterns)
                 (uniq (texts (λ n, map_has lists n || bool_decide (n ∈ inherited)) (arr (get p "lists") LIMITS.lists)))
                 (omap (normalizeSchedule catKeys) (arr (get p "schedules") LIMITS.schedules))
                 (is_true (get p "safeSearch")))
            :: profiles_of lists catKeys l (id :: seen) (budget - length m)
      | None => profiles_of lists catKeys l seen budget
      end
  | _ :: l => profiles_of lists catKeys l seen budget
  end.

(** ** The settings *)

Record dns_config := DnsConfig {
  dc_enabled : bool; dc_provider : jstr; dc_url : option jstr; dc_fallbackRouter : bool; dc_logQueries : bool;
  dc_alwaysAllow : list jstr; dc_lists : list (jstr * list_cfg); dc_categories : list (jstr * list jstr);
  dc_profiles : list profile_cfg; dc_defaultProfile : option jstr; dc_pauses : list pause; dc_extensions : list pause;
  dc_blockResponse : jstr }.

Definition default_profile (v : option json) (profiles : list profile_cfg) : option jstr :=
  let ids := (λ p, pr_id (pc_profile p)) <$> profiles in
  let wanted := match v with Some (JNum n) => Some (number_text n) | Some (JStr s) => Some s | _ => None end in
  match wanted with
  | Some id => if bool_decide (id ∈ ids) then Some id else head ids
  | None => head ids
  end.

Definition normalizeDns (raw : option json) : dns_config :=
  let d := obj_of raw in
  let up := obj_of (get d "upstream") in
  let provider := match get up "provider" with
                  | Some (JStr p) => if bool_decide (p ∈ PROVIDERS) then p else js "quad9" | _ => js "quad9" end in
  let url := if bool_decide (provider = js "custom") then httpsUrl (get up "url") else None in
  let provider := if bool_decide (provider = js "custom") && match url with Some u => negb (nonempty u) | None => true end
                  then js "quad9" else provider in
  let lists := lists_of (take (LIMITS.lists * 2) (obj_of (get d "lists"))) [] in
  let categories := categories_of (take LIMITS.categories (obj_of (get d "categories"))) in
  let profiles := profiles_of lists categories.*1 (arr (get d "profiles") LIMITS.profiles) [] LIMITS.macsTotal in
  DnsConfig (is_true (get d "enabled")) provider url (negb (is_false (get up "fallbackRouter"))) (is_true (get d "logQueries"))
    (patterns (get d "alwaysAllow") LIMITS.alwaysAllow) lists categories profiles
    (default_profile (get d "defaultProfile") profiles)
    (normalizePauses (get d "pauses")) (normalizePauses (get d "extensions"))
    (if is_str (get d "blockResponse") (js "nxdomain") then js "nxdomain" else js "zero").

End Normalize.

(** ** What the policy is built from *)

(** The first whole millisecond that is not before [n]. *)
Definition ceiling (n : num) : Z :=
  match n with NInt z => z | NFrac m e => - ((- m) / 2 ^ Z.pos e) | NInf _ => 0 end.
Definition until_of (p : pause) : until := Until (pa_macs p) (ceiling (pa_until p)).
Definition policy_cfg (c : dns_config) : dns_cfg :=
  DnsCfg (dc_alwaysAllow c) (dc_categories c) (pc_profile <$> dc_profiles c) (dc_defaultProfile c)
    (until_of <$> dc_pauses c) (until_of <$> dc_extensions c).

(** * Properties of the DNS settings

    Whatever the server sends, the settings are within their limits and fit
    what the policy is proved to do with them. *)

(** A list of at most [max] different elements *)
Definition short {A} (max : nat) (l : list A) : Prop := NoDup l ∧ (length l <= max)%nat.

Lemma short_uniq {A} `{EqDecision A} max (l : list A) : short max (take max (uniq l)).
Proof. split; [apply take_NoDup, uniq_NoDup | rewrite length_take; lia]. Qed.

Lemma omap_length {A B} (f : A → option B) l : (length (omap f l) <= length l)%nat.
Proof. induction l as [|x l IH]; csimpl; [done |]. destruct (f x); cbn [length]; lia. Qed.

Lemma arr_length v max : (length (arr v max) <= max)%nat.
Proof. unfold arr. repeat case_match; try (cbn; lia). rewrite length_take. lia. Qed.

Lemma short_omap {A} `{EqDecision A} (f : json → option A) v max : short max (uniq (omap f (arr v max))).
Proof.
  split; [apply uniq_NoDup |]. pose proof (uniq_length (omap f (arr v max))). pose proof (omap_length f (arr v max)).
  pose proof (arr_length v max). lia.
Qed.

Section Facts.
Context `{Unicode} `{Runtime}.

Record schedule_fine (catKeys : list jstr) (s : schedule) : Prop := {
  sf_ok : schedule_ok s;
  sf_days : short 7 (s_days s) ∧ s_days s ≠ [];
  sf_categories : short LIMITS.categories (s_categories s) ∧ ∀ c, c ∈ s_categories s → c ∈ catKeys;
  sf_blocks : s_block s = js "all" ∨ s_categories s ≠ [];
  sf_allow : short LIMITS.patterns (s_allowAlways s) }.

Record profile_fine (catKeys : list jstr) (p : profile) : Prop := {
  pf_id : PROFILE_ID_RE (pr_id p) = true;
  pf_macs : short LIMITS.macsPerProfile (pr_macs p);
  pf_allow : short LIMITS.patterns (pr_allow p);
  pf_deny : short LIMITS.patterns (pr_deny p);
  pf_lists : short LIMITS.lists (pr_lists p);
  pf_schedules : Forall (schedule_fine catKeys) (pr_schedules p) ∧ (length (pr_schedules p) <= LIMITS.schedules)%nat }.

Definition total_macs (l : list profile_cfg) : nat := foldr (λ p n, (length (pr_macs (pc_profile p)) + n)%nat) 0%nat l.
Definition ids (l : list profile_cfg) : list jstr := (λ p, pr_id (pc_profile p)) <$> l.

Definition pause_fine (p : pause) : Prop := short LIMITS.macsPerProfile (pa_macs p) ∧ pa_macs p ≠ [].

Record config_fine (c : dns_config) : Prop := {
  cf_always : short LIMITS.alwaysAllow (dc_alwaysAllow c);
  cf_lists_ok : map_ok (dc_lists c) ∧ (length (dc_lists c) <= LIMITS.lists)%nat;
  cf_categories_ok : map_ok (dc_categories c) ∧ (length (dc_categories c) <= LIMITS.categories)%nat ∧
    Forall (λ e, KEY_RE e.1 = true ∧ short LIMITS.categoryDomains e.2) (dc_categories c);
  cf_profiles_ok : Forall (λ p, profile_fine (dc_categories c).*1 (pc_profile p)) (dc_profiles c);
  cf_ids : short LIMITS.profiles (ids (dc_profiles c));
  cf_macs : (total_macs (dc_profiles c) <= LIMITS.macsTotal)%nat;
  cf_default : match dc_defaultProfile c with Some id => id ∈ ids (dc_profiles c) | None => dc_profiles c = [] end;
  cf_pauses_ok : Forall pause_fine (dc_pauses c) ∧ Forall pause_fine (dc_extensions c) ;
  cf_https : dc_provider c ∈ PROVIDERS ∧ (dc_provider c = js "custom" → is_Some (dc_url c)) }.

(** ** Schedules *)

Lemma patterns_short v max : short max (patterns v max).
Proof. apply short_uniq. Qed.
Lemma macs_short v max : short max (macs v max).
Proof. apply short_uniq. Qed.

Lemma TIME_RE_range s h m : TIME_RE s = Some (h, m) → 0 ≤ h < 24 ∧ 0 ≤ m < 60.
Proof.
  unfold TIME_RE, is_digit. intros Ht. destruct s as [|a [|b [|c [|d [|e [|]]]]]]; try done.
  case_match eqn:Hc; [|done]. injection Ht as <- <-. lia.
Qed.

Lemma minutes_range v allow24 n : minutes v allow24 = Some n → 0 ≤ n < 1440 ∨ (allow24 = true ∧ n = 1440).
Proof.
  unfold minutes. destruct v as [[| | |s| |]|]; try done. case_match eqn:Ha.
  - intros [= <-]. right. by apply andb_true_iff in Ha as [-> _].
  - destruct (TIME_RE s) as [[h m]|] eqn:Ht; [|done]. intros [= <-]. apply TIME_RE_range in Ht. left. cbn. lia.
Qed.

Lemma texts_ok ok l s : s ∈ texts ok l → ok s = true.
Proof.
  unfold texts. intros (v & _ & Hv)%list_elem_of_omap. destruct v as [| | |t| |]; try done.
  destruct (ok t) eqn:Hok; [by injection Hv as -> | done].
Qed.

Lemma normalizeSchedule_fine catKeys v s : normalizeSchedule catKeys v = Some s → schedule_fine catKeys s.
Proof.
  unfold normalizeSchedule. destruct v as [| | | | |f]; try done.
  pose proof (short_omap day_of (get f "days") 7) as Hdays.
  set (days := sort_by show_Z _). assert (days ≡ₚ uniq (omap day_of (arr (get f "days") 7))) as Hperm by apply sort_by_perm.
  assert (short 7 days) as Hsh by (destruct Hdays; split; by rewrite Hperm).
  assert (Forall (λ d, 1 ≤ d ≤ 7) days) as Hin.
  { rewrite Hperm. apply Forall_forall. intros d Hd. rewrite elem_of_uniq in Hd.
    apply list_elem_of_omap in Hd as (v & _ & Hv). destruct v as [| |[z| |]| | |]; try done. cbn in Hv.
    case_match eqn:Hr; [|done]. injection Hv as <-. lia. }
  destruct (minutes (get f "from") false) as [from|] eqn:Hfrom; [|done].
  destruct (minutes (get f "to") true) as [to_|] eqn:Hto; [|done].
  apply minutes_range in Hfrom as [Hfrom|[? _]]; [|done]. apply minutes_range in Hto.
  clearbody days. clear Hperm Hdays. destruct days as [|d days]; [done |].
  set (block := if is_str _ _ then _ else _). set (cats := uniq (texts _ _)).
  case_match eqn:Hb; [done |]. intros [= <-]. split; cbn [s_days s_from s_to s_block s_categories s_allowAlways].
  - split_and!; cbn [s_days s_from s_to]; [done | lia | lia | lia | lia].
  - by split.
  - split; [apply short_omap |]. intros c Hc. unfold cats in Hc. rewrite elem_of_uniq in Hc.
    by apply texts_ok, bool_decide_eq_true in Hc.
  - destruct cats; [|by right]. left. rewrite andb_true_r in Hb. apply bool_decide_eq_false in Hb.
    unfold block in *. by destruct (is_str _ _).
  - apply patterns_short.
Qed.

Lemma normalizePauses_fine v : Forall pause_fine (normalizePauses v).
Proof.
  unfold normalizePauses. apply Forall_forall. intros p (x & _ & Hx)%list_elem_of_omap.
  destruct x as [| | | | |f]; try done. destruct (timeMs (get f "until")) as [u|]; [|done].
  pose proof (macs_short (get f "macs") LIMITS.macsPerProfile) as Hm.
  destruct (macs (get f "macs") LIMITS.macsPerProfile) as [|c m]; [done |]. injection Hx as <-. by split.
Qed.

(** ** Lists and categories *)

Lemma lists_of_fine entries out : map_ok out → (length out <= LIMITS.lists)%nat →
  map_ok (lists_of entries out) ∧ (length (lists_of entries out) <= LIMITS.lists)%nat.
Proof.
  revert out. induction entries as [|[id l] entries IH]; intros out Hok Hlen; cbn [lists_of]; [done |].
  destruct (Nat.leb_spec LIMITS.lists (length out)); [done |].
  case_match; [|by apply IH]. destruct (list_entry l) as [c|]; [|by apply IH].
  apply IH; [by apply map_set_ok |]. pose proof (map_set_length out id c). lia.
Qed.

Definition category_fine (e : jstr * list jstr) : Prop := KEY_RE e.1 = true ∧ short LIMITS.categoryDomains e.2.

Lemma categories_of_fine entries :
  map_ok (categories_of entries) ∧ (length (categories_of entries) <= length entries)%nat ∧
  Forall category_fine (categories_of entries).
Proof.
  unfold categories_of.
  assert (∀ out : list (jstr * list jstr), map_ok out → Forall category_fine out →
    let r := fold_left (λ out (e : jstr * json), if KEY_RE e.1 then map_set out e.1 (patterns (Some e.2) LIMITS.categoryDomains) else out) entries out in
    map_ok r ∧ (length r <= length out + length entries)%nat ∧ Forall category_fine r) as Hgen.
  { induction entries as [|[k v] entries IH]; intros out Hok Hf; cbn [fold_left fst snd]; [split_and!; [done | lia | done] |].
    destruct (KEY_RE k) eqn:Hk.
    - destruct (IH (map_set out k (patterns (Some v) LIMITS.categoryDomains))) as (H1 & H2 & H3);
        [by apply map_set_ok | apply map_set_Forall; [done | split; [done | apply patterns_short]] |].
      pose proof (map_set_length out k (patterns (Some v) LIMITS.categoryDomains)).
      split_and!; [done | cbn [length]; lia | done].
    - destruct (IH out Hok Hf) as (H1 & H2 & H3). split_and!; [done | cbn [length]; lia | done]. }
  apply (Hgen []); constructor.
Qed.

(** ** Profiles *)

Lemma profiles_of_fine lists catKeys l seen budget :
  let r := profiles_of lists catKeys l seen budget in
  Forall (λ p, profile_fine catKeys (pc_profile p)) r ∧ NoDup (ids r) ∧ (∀ id, id ∈ ids r → id ∉ seen) ∧
  (length r <= length l)%nat ∧ (total_macs r <= budget)%nat.
Proof.
  revert seen budget. induction l as [|v l IH]; intros seen budget; cbn [profiles_of length].
  { split_and!; [constructor | constructor | set_solver | lia | cbn; lia]. }
  assert (∀ seen budget, let r := profiles_of lists catKeys l seen budget in
    Forall (λ p, profile_fine catKeys (pc_profile p)) r ∧ NoDup (ids r) ∧ (∀ id, id ∈ ids r → id ∉ seen) ∧
    (length r <= S (length l))%nat ∧ (total_macs r <= budget)%nat) as Hskip.
  { intros s b. destruct (IH s b) as (? & ? & ? & ? & ?). split_and!; [done.. | lia | done]. }
  destruct v as [| | | | |f]; try apply Hskip. destruct (profile_id (get f "id")) as [id|]; [|apply Hskip].
  destruct (negb (PROFILE_ID_RE id) || bool_decide (id ∈ seen)) eqn:Hid; [apply Hskip |].
  apply orb_false_iff in Hid as [Hre%negb_false_iff Hseen%bool_decide_eq_false].
  set (m := macs (get f "macs") (Nat.min LIMITS.macsPerProfile budget)).
  assert (short (Nat.min LIMITS.macsPerProfile budget) m) as [Hnd Hlen] by apply macs_short.
  destruct (IH (id :: seen) (budget - length m)%nat) as (Hf & Hids & Hnew & Hl & Hm).
  set (r := profiles_of lists catKeys l (id :: seen) (budget - length m)) in *.
  split_and!.
  - constructor; [|done]. split; cbn [pc_profile pr_id pr_macs pr_allow pr_deny pr_lists pr_schedules]; [done | split; [done | lia] | apply patterns_short.. | apply short_omap |].
    pose proof (omap_length (normalizeSchedule catKeys) (arr (get f "schedules") LIMITS.schedules)).
    pose proof (arr_length (get f "schedules") LIMITS.schedules). split; [|lia].
    apply Forall_forall. intros s (x & _ & Hx)%list_elem_of_omap. by apply normalizeSchedule_fine in Hx.
  - unfold ids in *. cbn [fmap list_fmap pc_profile pr_id]. apply NoDup_cons. split; [|done].
    intros Hin. apply (Hnew id Hin). by left.
  - unfold ids in *. cbn [fmap list_fmap pc_profile pr_id]. intros x [->|Hx]%elem_of_cons; [done |].
    apply Hnew in Hx. set_solver.
  - cbn [length]. lia.
  - cbn [total_macs foldr pc_profile pr_macs]. fold (total_macs r). lia.
Qed.

End Facts.
