(* ===== verification/PrintConfig.v ===== *)
(** * src/print/config.js

    The print settings of the server, private addresses and plain texts. *)

From S2P Require Import Prelude JsBuffer JsValues JsSet NetwatchDnsWire LanInterfaces.

Local Open Scope Z_scope.

Definition MAX_MANUAL : nat := 16.

Definition isRfc1918 (ip : jstr) : bool :=
  match octets ip with
  | Some (a, b, _, _) => (a =? 10) || ((a =? 172) && (16 <=? b) && (b <=? 31)) || ((a =? 192) && (b =? 168))
  | None => false
  end.

(** Control characters become spaces; no half of a pair is one. *)
Definition cleanText (v : option json) (n : nat) : jstr :=
  match v with
  | Some (JStr s) => take n (trim ((λ c, if (c <? 32) || (c =? 127) then 32 else c) <$> s))
  | _ => []
  end.

Record print_config := PrintConfig { pn_enabled : bool; pn_manual : list jstr; pn_convert : bool }.

Definition manual_of (v : option json) : list jstr :=
  match v with
  | Some (JArr l) =>
      take MAX_MANUAL (uniq (omap (λ x, match x with
        | JStr s => if isRfc1918 (trim s) then Some (trim s) else None | _ => None end) l))
  | _ => []
  end.

Definition normalizePrint (raw : option json) : print_config :=
  let p := match raw with Some (JObj f) => f | _ => [] end in
  PrintConfig (is_true (field p (js "enabled"))) (manual_of (field p (js "manual")))
    (negb (is_false (field p (js "convert")))).
