(* ===== verification/CameraConfig.v ===== *)
(** * src/cameras/config.js

    The camera settings of the server, the hosts the gateway may speak to,
    and when a camera may record. *)

From S2P Require Import Prelude JsBuffer JsValues JsSet NetwatchDnsWire LanInterfaces PrintConfig.

Local Open Scope Z_scope.

Definition MAX_CAMERAS : nat := 16.
Definition MAX_SUBNETS : nat := 8.

Definition hex_unit (c : Z) : bool := is_digit c || ((97 <=? c) && (c <=? 102)).
Definition alnum (c : Z) : bool := is_digit c || is_lower c || is_upper c.
Definition among (s : string) (c : Z) : bool := bool_decide (c ∈ js s).

(** [/^c[0-9a-f]{15}$/] and the same with another letter *)
Definition letter_hex (letter : Z) (s : jstr) : bool :=
  match s with c :: r => (c =? letter) && (length r =? 15)%nat && forallb hex_unit r | [] => false end.
Definition ID_RE : jstr → bool := letter_hex 99.
Definition EVENT_ID_RE : jstr → bool := letter_hex 101.

Definition path_of (unit_ : Z → bool) (max : nat) (s : jstr) : bool :=
  match s with c :: r => (c =? 47) && forallb unit_ r && (length r <=? max)%nat | [] => false end.
Definition ONVIF_PATH_RE : jstr → bool := path_of (λ c, alnum c || among "._~/-" c) 127.
Definition RTSP_PATH_RE : jstr → bool := path_of (λ c, alnum c || among "._~/%&=?+:;,-" c) 255.

Definition sized (min max : nat) (unit_ : Z → bool) (s : jstr) : bool :=
  forallb unit_ s && (min <=? length s)%nat && (length s <=? max)%nat.
Definition PROFILE_RE : jstr → bool := sized 1 64 (λ c, alnum c || among "._:-" c).
Definition REV_RE : jstr → bool := sized 8 64 hex_unit.

Definition RECORD : list jstr := [js "motion"; js "away"; js "never"].
Definition KINDS : list jstr := [js "person"; js "vehicle"; js "animal"; js "motion"].
Definition RETENTION_min : Z := 1.
Definition RETENTION_max : Z := 90.
Definition RETENTION_dflt : Z := 14.

Definition port (v : option json) : option Z :=
  match v with Some (JNum (NInt n)) => if (1 <=? n) && (n <=? 65535) then Some n else None | _ => None end.

(** ** Subnets *)

Definition ipToInt : jstr → Z := _ipToInt.

(** [/^(\d{1,3}(?:\.\d{1,3}){3})\/(\d{1,2})$/]: the address and the prefix *)
Definition cidr_re (s : jstr) : option (jstr * Z) :=
  match split_on 47 s with
  | [a; p] =>
      let quad := split_on dot a in
      if (length quad =? 4)%nat && forallb (sized 1 3 is_digit) quad && sized 1 2 is_digit p
      then Some (a, digits_value p) else None
  | _ => None
  end.

(** [(~(0xffffffff >>> prefix)) >>> 0] and [(ipToInt(ip) & mask) >>> 0] *)
Definition mask_of (prefix : Z) : Z := uint32 (Z.lnot (int32 (Z.shiftr 4294967295 prefix))).
Definition masked (ip prefix : Z) : Z := uint32 (Z.land ip (mask_of prefix)).

Record cidr := Cidr { ci_net : Z; ci_prefix : Z; ci_cidr : jstr }.

Definition quad_text (n : Z) : jstr :=
  join dot ((λ s, show_Z (Z.land (Z.shiftr n s) 255)) <$> [24; 16; 8; 0]).

Definition parseCidr (v : jstr) : option cidr :=
  match cidr_re (trim v) with
  | Some (a, prefix) =>
      if negb (isRfc1918 a) || (prefix <? 16) || (30 <? prefix) then None
      else let net := masked (ipToInt a) prefix in
           Some (Cidr net prefix (quad_text net ++ 47 :: show_Z prefix))
  | None => None
  end.

Definition inCidr (ip c : jstr) : bool :=
  match parseCidr c with
  | Some c => isRfc1918 ip && (masked (ipToInt ip) (ci_prefix c) =? ci_net c)
  | None => false
  end.

Definition hostAllowed (host : jstr) (ownSubnets extra : list jstr) : bool :=
  isRfc1918 host &&
  (existsb (λ s,
     match cidr_re s with
     | Some (a, prefix) =>
         negb (prefix <? 8) && negb (30 <? prefix) && (masked (ipToInt host) prefix =? masked (ipToInt a) prefix)
     | None => false
     end) ownSubnets
   || existsb (inCidr host) extra).

(** ** Cameras *)

Record onvif := Onvif { on_port : Z; on_path : jstr; on_tls : bool }.
Record rtsp := Rtsp { rt_port : Z; rt_path : jstr }.
Record camera := Camera {
  cm_id : jstr; cm_name : jstr; cm_host : jstr; cm_onvif : option onvif; cm_rtsp : option rtsp;
  cm_profile : option jstr; cm_stream : jstr; cm_record : jstr; cm_events : list jstr; cm_retentionDays : Z;
  cm_audio : bool; cm_tlsInsecure : bool; cm_codec : option jstr }.

(** A text that [ok] lets pass *)
Definition text_such (ok : jstr → bool) (v : option json) : option jstr :=
  match v with Some (JStr s) => if ok s then Some s else None | _ => None end.
Definition object (v : option json) : option (list (jstr * json)) := match v with Some (JObj f) => Some f | _ => None end.

Definition onvif_of (v : option json) : option onvif :=
  f ← object v; p ← port (field f (js "port")); path ← text_such ONVIF_PATH_RE (field f (js "path"));
  Some (Onvif p path (is_true (field f (js "tls")))).
Definition rtsp_of (v : option json) : option rtsp :=
  f ← object v; p ← port (field f (js "port")); path ← text_such RTSP_PATH_RE (field f (js "path"));
  Some (Rtsp p path).

Definition events_of (v : option json) : list jstr :=
  match v with
  | Some (JArr l) => filter (λ k, existsb (λ x, is_str (Some x) k) l = true) KINDS
  | _ => [js "person"; js "vehicle"; js "animal"]
  end.
Definition retention_of (v : option json) : Z :=
  match v with
  | Some (JNum (NInt n)) => Z.min RETENTION_max (Z.max RETENTION_min n)
  | _ => RETENTION_dflt
  end.

Definition normCamera (v : json) : option camera :=
  c ← object (Some v);
  id ← text_such ID_RE (field c (js "id"));
  let host := match field c (js "host") with Some (JStr s) => trim s | _ => [] end in
  let onvif := onvif_of (field c (js "onvif")) in
  let rtsp := rtsp_of (field c (js "rtsp")) in
  if negb (isRfc1918 host) || match onvif, rtsp with None, None => true | _, _ => false end then None
  else
    Some (Camera id (match cleanText (field c (js "name")) 60 with [] => id | n => n end) host onvif rtsp
            (text_such PROFILE_RE (field c (js "profile")))
            (if is_str (field c (js "stream")) (js "sub") then js "sub" else js "main")
            (default (js "never") (text_such (λ s, bool_decide (s ∈ RECORD)) (field c (js "record"))))
            (events_of (field c (js "events"))) (retention_of (field c (js "retentionDays")))
            (is_true (field c (js "audio"))) (is_true (field c (js "tlsInsecure")))
            (text_such (λ s, bool_decide (s = js "h265") || bool_decide (s = js "h264")) (field c (js "codec")))).

(** The loop over the cameras; it ends with the sixteenth. *)
Fixpoint cameras_of (l : list json) (cameras : list camera) : list camera :=
  match l with
  | [] => cameras
  | x :: l =>
      match normCamera x with
      | Some n =>
          if bool_decide (cm_id n ∈ cm_id <$> cameras) then cameras_of l cameras
          else
            let cameras := cameras ++ [n] in
            if (MAX_CAMERAS <=? length cameras)%nat then cameras else cameras_of l cameras
      | None => cameras_of l cameras
      end
  end.

Record cameras_config := CamerasConfig {
  cc_enabled : bool; cc_nobodyHome : option bool; cc_credRev : option jstr; cc_subnets : list jstr;
  cc_cameras : list camera }.

Definition subnets_of (v : option json) : list jstr :=
  match v with
  | Some (JArr l) =>
      take MAX_SUBNETS (uniq (omap (λ x, match x with JStr s => ci_cidr <$> parseCidr s | _ => None end) l))
  | _ => []
  end.

Definition normalizeCameras (raw : option json) : cameras_config :=
  let c := match raw with Some (JObj f) => f | _ => [] end in
  let cameras := cameras_of (match field c (js "cameras") with Some (JArr l) => l | _ => [] end) [] in
  CamerasConfig (is_true (field c (js "enabled")))
    (match field c (js "nobodyHome") with Some (JBool b) => Some b | _ => None end)
    (text_such REV_RE (field c (js "credRev"))) (subnets_of (field c (js "subnets"))) cameras.

Definition mayRecord (cam : option camera) (nobodyHome : option bool) : bool :=
  match cam with
  | None => false
  | Some cam =>
      if bool_decide (cm_record cam = js "never") then false
      else if bool_decide (cm_record cam = js "away") then bool_decide (nobodyHome = Some true)
      else true
  end.

(** * Properties of the camera settings

    The settings are within their limits whatever the server sends, and the
    gateway speaks to a host exactly if its address is private and in a
    network that is its own or that the administrator named. *)

(** ** Addresses *)

(** The number that four decimal parts denote, each modulo 256 *)
Definition address (s : jstr) : option Z :=
  match operand <$> split_on dot s with
  | [a; b; c; d] => Some (quad_value (a mod 256) (b mod 256) (c mod 256) (d mod 256))
  | _ => None
  end.

(** 10/8, 172.16/12 and 192.168/16 as numbers *)
Definition private (n : Z) : Prop :=
  n / 2 ^ 24 = 10 ∨ n / 2 ^ 20 = 172 * 16 + 1 ∨ n / 2 ^ 16 = 192 * 256 + 168.

Lemma land_255_mod n : Z.land n 255 = n mod 256.
Proof. change 255 with (Z.ones 8). by rewrite Z.land_ones by lia. Qed.

Lemma mod_byte4 a b c d : byte4 (a mod 256) (b mod 256) (c mod 256) (d mod 256).
Proof. unfold byte4. Z.div_mod_to_equations. lia. Qed.

Lemma address_Some s n : address s = Some n → _ipToInt s = n ∧ 0 ≤ n < 4294967296.
Proof.
  unfold address. destruct (operand <$> split_on dot s) as [|a [|b [|c [|d [|]]]]] eqn:Hs; try done.
  intros [= <-]. split; [|apply quad_value_range, mod_byte4]. unfold _ipToInt.
  assert (∀ l acc, fold_left (λ a o, uint32 (int32 (a * 256) + Z.land (operand o) 255)) l acc =
          fold_left (λ a o, uint32 (int32 (a * 256) + o mod 256)) (operand <$> l) acc) as ->.
  { clear. induction l as [|x l IH]; intros acc; [done |]. rewrite fmap_cons. cbn [fold_left]. by rewrite IH, land_255_mod. }
  rewrite Hs. cbn [fold_left]. destruct (mod_byte4 a b c d) as (?&?&?&?).
  generalize dependent (a mod 256). generalize dependent (b mod 256).
  generalize dependent (c mod 256). generalize dependent (d mod 256).
  intros. unfold quad_value, uint32, int32. Z.div_mod_to_equations. lia.
Qed.

Lemma octets_address s a b c d :
  octets s = Some (a, b, c, d) → byte4 a b c d ∧ address s = Some (quad_value a b c d).
Proof.
  intros [Hb Hs]%octets_Some. split; [done |]. unfold address. rewrite Hs.
  destruct Hb as (?&?&?&?). by rewrite !Z.mod_small.
Qed.

Lemma isRfc1918_spec s :
  isRfc1918 s = true ↔ isIPv4 s = true ∧ ∃ n, address s = Some n ∧ private n.
Proof.
  unfold isRfc1918, isIPv4. rewrite bool_decide_eq_true.
  destruct (octets s) as [[[[a b] c] d]|] eqn:Ho; [|split; [done | intros [[? [=]] _]]].
  apply octets_address in Ho as [Hb ->]. unfold byte4 in Hb.
  assert ((a =? 10) || ((a =? 172) && (16 <=? b) && (b <=? 31)) || ((a =? 192) && (b =? 168)) = true
          ↔ private (quad_value a b c d)) as ->.
  { unfold private, quad_value. change (2 ^ 24) with 16777216. change (2 ^ 20) with 1048576. change (2 ^ 16) with 65536.
    Z.div_mod_to_equations. lia. }
  split; [intros; split; [done | by eexists] | by intros (_ & n & [= <-] & ?)].
Qed.

(** A text that [cidr_re] accepts holds an address. *)
Lemma cidr_re_address s a p : cidr_re s = Some (a, p) → is_Some (address a).
Proof.
  unfold cidr_re, address. destruct (split_on 47 s) as [|a' [|p' [|]]]; try done.
  case_match eqn:Hc; [|done]. intros [= <- <-].
  apply andb_prop in Hc as [[Hl%Nat.eqb_eq _]%andb_prop _].
  destruct (split_on dot a') as [|? [|? [|? [|? [|]]]]]; done.
Qed.

(** Two addresses agree in their leading [p] bits. *)
Definition same_net (p n m : Z) : Prop := n / 2 ^ (32 - p) = m / 2 ^ (32 - p).

Lemma masked_spec a b n m p : address a = Some n → address b = Some m → 0 < p < 32 →
  masked (ipToInt a) p = masked (ipToInt b) p ↔ same_net p n m.
Proof.
  intros [Ha ?]%address_Some [Hb ?]%address_Some Hp. unfold masked, ipToInt, same_net. rewrite Ha, Hb.
  assert (mask_of p = cidr_mask p) as -> by (unfold cidr_mask; destruct (Z.leb_spec 32 p); [lia | done]).
  rewrite !cidr_mask_land by lia. pose proof (Z.pow_pos_nonneg 2 (32 - p) ltac:(lia) ltac:(lia)).
  split; [intros; by apply (Z.mul_reg_r _ _ (2 ^ (32 - p))); [lia |] | by intros ->].
Qed.

Lemma parseCidr_spec v c : parseCidr v = Some c ↔
  ∃ a, cidr_re (trim v) = Some (a, ci_prefix c) ∧ isRfc1918 a = true ∧ 16 ≤ ci_prefix c ≤ 30 ∧
       ci_net c = masked (ipToInt a) (ci_prefix c) ∧ ci_cidr c = quad_text (ci_net c) ++ 47 :: show_Z (ci_prefix c).
Proof.
  unfold parseCidr. destruct (cidr_re (trim v)) as [[a p]|]; [|split; [done | by intros (? & [=] & _)]].
  destruct (negb (isRfc1918 a) || (p <? 16) || (30 <? p)) eqn:Hc; split.
  - done.
  - intros (a' & [= <- ->] & Ha & Hp & _). rewrite Ha in Hc. lia.
  - intros <-%(inj Some). exists a. cbn [ci_prefix ci_net ci_cidr]. destruct (isRfc1918 a); [|done].
    split_and!; [reflexivity | reflexivity | lia | lia | reflexivity | reflexivity].
  - intros (a' & [= <- ->] & Ha & Hp & Hn & Hs). destruct c as [net q txt]. cbn [ci_prefix ci_net ci_cidr] in *. subst. reflexivity.
Qed.

(** The gateway speaks to a camera host exactly if the host is an IPv4
    address in 10/8, 172.16/12 or 192.168/16 that agrees in the leading prefix
    bits with an own LAN subnet of prefix 8 to 30, or with a private network
    of prefix 16 to 30 that the settings name. *)
Theorem hostAllowed_spec host own extra :
  hostAllowed host own extra = true ↔
  isIPv4 host = true ∧ ∃ h, address host = Some h ∧ private h ∧
    ((∃ s a p n, s ∈ own ∧ cidr_re s = Some (a, p) ∧ 8 ≤ p ≤ 30 ∧ address a = Some n ∧ same_net p h n) ∨
     (∃ s a p n, s ∈ extra ∧ cidr_re (trim s) = Some (a, p) ∧ isIPv4 a = true ∧ 16 ≤ p ≤ 30 ∧
                 address a = Some n ∧ private n ∧ same_net p h n)).
Proof.
  unfold hostAllowed. rewrite andb_true_iff, orb_true_iff, !existsb_exists. split.
  - intros [Hr Hin]. pose proof Hr as (Hv & h & Hh & Hpr)%isRfc1918_spec.
    split; [done |]. exists h. split_and!; [done.. |]. destruct Hin as [(s & Hs%list_elem_of_In & Hx)|(s & Hs%list_elem_of_In & Hx)].
    + left. destruct (cidr_re s) as [[a p]|] eqn:Ha; [|done].
      apply andb_prop in Hx as [Hp Heq%Z.eqb_eq]. destruct (cidr_re_address _ _ _ Ha) as [n Hn].
      exists s, a, p, n. split_and!; try done; try lia. by apply (masked_spec _ _ _ _ _ Hh Hn); [lia |].
    + right. unfold inCidr in Hx. destruct (parseCidr s) as [c|] eqn:Hc; [|done].
      apply parseCidr_spec in Hc as (a & Ha & Hra & Hp & Hnet & _). apply andb_prop in Hx as [_ Heq%Z.eqb_eq].
      apply isRfc1918_spec in Hra as (Hva & n & Hn & Hpn). rewrite Hnet in Heq.
      exists s, a, (ci_prefix c), n. split_and!; try done; try lia. by apply (masked_spec _ _ _ _ _ Hh Hn); [lia |].
  - intros (Hv & h & Hh & Hpr & Hin). assert (isRfc1918 host = true) as Hr by (apply isRfc1918_spec; eauto).
    split; [done |]. destruct Hin as [(s & a & p & n & Hs%list_elem_of_In & Ha & Hp & Hn & Heq)|(s & a & p & n & Hs%list_elem_of_In & Ha & Hva & Hp & Hn & Hpn & Heq)];
      [left | right]; exists s; (split; [done |]).
    + rewrite Ha. apply (masked_spec _ _ _ _ p Hh Hn) in Heq; [|lia]. lia.
    + apply (masked_spec _ _ _ _ p Hh Hn) in Heq; [|lia]. unfold inCidr.
      assert (parseCidr s = Some (Cidr (masked (ipToInt a) p) p (quad_text (masked (ipToInt a) p) ++ 47 :: show_Z p))) as ->.
      { apply parseCidr_spec. exists a. split_and!; try done; try (cbn; lia). apply isRfc1918_spec. eauto. }
      cbn [ci_prefix ci_net]. rewrite Hr. lia.
Qed.

(** ** The text of a network *)

Lemma octet_show n : 0 ≤ n < 256 →
  octet (show_Z n) = Some n ∧ forallb is_digit (show_Z n) = true ∧ (1 <= length (show_Z n) <= 3)%nat ∧
  (n < 100 → (length (show_Z n) <= 2)%nat).
Proof.
  intros Hn.
  assert (forallb (λ n, bool_decide (octet (show_Z n) = Some n) && forallb is_digit (show_Z n) &&
    (1 <=? length (show_Z n))%nat && (length (show_Z n) <=? 3)%nat && ((100 <=? n) || (length (show_Z n) <=? 2)%nat))
    (seqZ 0 256) = true) as Hall by (by vm_compute).
  pose proof (byte_ind_bool _ Hall n Hn) as Hb. cbv beta in Hb.
  apply andb_prop in Hb as [[[[?%bool_decide_eq_true ?]%andb_prop ?%Nat.leb_le]%andb_prop ?%Nat.leb_le]%andb_prop Hs].
  split_and!; [assumption.. |]. intros Hlt. apply orb_prop in Hs as [?%Z.leb_le|?%Nat.leb_le]; [lia | done].
Qed.

Lemma digit_unit c s x : forallb is_digit s = true → is_digit c = false → x ∈ s → x ≠ c.
Proof. intros Hs Hc Hx ->. rewrite forallb_forall in Hs. apply list_elem_of_In, Hs in Hx. congruence. Qed.

Lemma quad_text_octets n : 0 ≤ n < 4294967296 →
  let b s := Z.land (Z.shiftr n s) 255 in
  split_on dot (quad_text n) = [show_Z (b 24); show_Z (b 16); show_Z (b 8); show_Z (b 0)] ∧
  octets (quad_text n) = Some (b 24, b 16, b 8, b 0) ∧ quad_value (b 24) (b 16) (b 8) (b 0) = n.
Proof.
  intros Hn b. assert (∀ s, 0 ≤ b s < 256) as Hb.
  { intros s. unfold b. rewrite land_255_mod. apply Z.mod_pos_bound. lia. }
  assert (split_on dot (quad_text n) = [show_Z (b 24); show_Z (b 16); show_Z (b 8); show_Z (b 0)]) as Hs.
  { unfold quad_text. rewrite split_on_join; [done | done |]. apply Forall_fmap, Forall_forall. intros s _ Hin.
    destruct (octet_show _ (Hb s)) as (_ & Hd & _). by eapply (digit_unit dot) in Hd. }
  split_and!; [done | |].
  - unfold octets. rewrite Hs. by rewrite !(proj1 (octet_show _ (Hb _))).
  - unfold b, quad_value. rewrite !land_255_mod, !Z.shiftr_div_pow2 by lia.
    change (2 ^ 24) with 16777216. change (2 ^ 16) with 65536. change (2 ^ 8) with 256. change (2 ^ 0) with 1.
    Z.div_mod_to_equations. lia.
Qed.

(** The number of a network of prefix [p] around [n] *)
Definition base (p n : Z) : Z := n / 2 ^ (32 - p) * 2 ^ (32 - p).

Lemma masked_base s n p : address s = Some n → 0 < p < 32 → masked (ipToInt s) p = base p n ∧ 0 ≤ base p n < 4294967296.
Proof.
  intros [Ha ?]%address_Some Hp. unfold masked, ipToInt. rewrite Ha.
  assert (mask_of p = cidr_mask p) as -> by (unfold cidr_mask; destruct (Z.leb_spec 32 p); [lia | done]).
  rewrite cidr_mask_land by lia. split; [done |]. unfold base.
  pose proof (Z.pow_pos_nonneg 2 (32 - p) ltac:(lia) ltac:(lia)).
  pose proof (Z.mul_div_le n (2 ^ (32 - p)) ltac:(lia)). pose proof (Z.div_pos n (2 ^ (32 - p)) ltac:(lia) ltac:(lia)). nia.
Qed.

(** A network of prefix [p] keeps the leading bits up to [p]. *)
Lemma base_div p n k : 0 ≤ p ≤ 32 → 32 - p ≤ k → base p n / 2 ^ k = n / 2 ^ k.
Proof.
  intros Hp Hk. unfold base. replace k with (32 - p + (k - (32 - p))) by lia.
  rewrite Z.pow_add_r by lia. rewrite <- !Z.div_div by (try apply Z.pow_nonzero; try apply Z.pow_pos_nonneg; lia).
  by rewrite Z.div_mul by (apply Z.pow_nonzero; lia).
Qed.
Lemma base_base p n : 0 ≤ p ≤ 32 → base p (base p n) = base p n.
Proof. intros Hp. unfold base at 1. by rewrite base_div by lia. Qed.
Lemma base_private p n : 16 ≤ p ≤ 32 → private n → private (base p n).
Proof. intros Hp. unfold private. by rewrite !base_div by lia. Qed.

Lemma cidr_text_re n p : 0 ≤ n < 4294967296 → 0 ≤ p < 100 →
  let t := quad_text n ++ 47 :: show_Z p in trim t = t ∧ cidr_re t = Some (quad_text n, p).
Proof.
  intros Hn Hp t. destruct (quad_text_octets n Hn) as (Hs & _ & _).
  assert (∀ s, 0 ≤ Z.land (Z.shiftr n s) 255 < 256) as Hb.
  { intros s. rewrite land_255_mod. apply Z.mod_pos_bound. lia. }
  assert (Forall (λ c, is_digit c = true ∨ c = dot) (quad_text n)) as Hq.
  { rewrite <- (join_split_on dot (quad_text n)), Hs. cbn [join].
    assert (∀ s, Forall (λ c, is_digit c = true ∨ c = dot) (show_Z (Z.land (Z.shiftr n s) 255))) as Hd.
    { intros s. destruct (octet_show _ (Hb s)) as (_ & Hd & _). rewrite forallb_forall in Hd.
      apply Forall_forall. intros c Hc%list_elem_of_In. left. by apply Hd. }
    repeat (apply Forall_app_2; [apply Hd | apply Forall_cons; split; [by right |]]). apply Hd. }
  destruct (octet_show p ltac:(lia)) as (Ho & Hpd & _ & _). split.
  - apply trim_id. unfold t. rewrite forallb_app. apply andb_true_iff. rewrite !forallb_forall. split.
    + intros c Hc%list_elem_of_In. rewrite Forall_forall in Hq. apply Hq in Hc as [Hc| ->]; [|done].
      unfold is_digit in Hc. unfold js_space. lia.
    + intros c [<-|Hc]; [done |]. rewrite forallb_forall in Hpd. apply Hpd in Hc.
      unfold is_digit in Hc. unfold js_space. lia.
  - unfold cidr_re, t. rewrite split_on_app_sep, split_on_nosep.
    + rewrite Hs. cbn [length Nat.eqb forallb andb]. unfold sized.
      destruct (octet_show _ (Hb 24)) as (_ & -> & ?), (octet_show _ (Hb 16)) as (_ & -> & ?),
        (octet_show _ (Hb 8)) as (_ & -> & ?), (octet_show _ (Hb 0)) as (_ & -> & ?). rewrite Hpd.
      rewrite (proj2 (show_Z_spec p ltac:(lia))).
      pose proof (octet_show p ltac:(lia)) as (_ & _ & ? & Hl2). specialize (Hl2 ltac:(lia)).
      repeat match goal with |- context [(?a <=? ?b)%nat] => destruct (Nat.leb_spec a b); [|lia] end. done.
    + intros Hin. by eapply (digit_unit 47) in Hin.
    + intros Hin. rewrite Forall_forall in Hq. apply Hq in Hin as [|]; done.
Qed.

(** A network the code read, written the canonical way, is read as the same network. *)
Lemma parseCidr_text t c : parseCidr t = Some c → parseCidr (ci_cidr c) = Some c.
Proof.
  intros (a & _ & Ha & Hp & Hnet & Htxt)%parseCidr_spec.
  apply isRfc1918_spec in Ha as (_ & n & Hn & Hpriv).
  destruct (masked_base a n (ci_prefix c) Hn ltac:(lia)) as [Hm Hr]. rewrite Hm in Hnet.
  set (m := base (ci_prefix c) n) in *. destruct (quad_text_octets m Hr) as (_ & Ho & Hv).
  destruct (octets_address _ _ _ _ _ Ho) as [_ Had]. rewrite Hv in Had.
  destruct (cidr_text_re m (ci_prefix c) Hr ltac:(lia)) as [Htr Hre].
  assert (ci_cidr c = quad_text m ++ 47 :: show_Z (ci_prefix c)) as Htxt' by by rewrite Htxt, Hnet.
  apply parseCidr_spec. exists (quad_text m). rewrite Htxt', Htr. split_and!; try done; try lia.
  - apply isRfc1918_spec. split; [unfold isIPv4; by rewrite Ho |]. exists m. split; [done |]. apply base_private; [lia | done].
  - rewrite Hnet. destruct (masked_base _ _ (ci_prefix c) Had ltac:(lia)) as [-> _]. unfold m. by rewrite base_base by lia.
  - by rewrite Hnet.
Qed.

(** ** Settings *)

Record camera_fine (c : camera) : Prop := {
  ca_id : ID_RE (cm_id c) = true;
  ca_name : cm_name c ≠ [] ∧ (length (cm_name c) <= 60)%nat;
  ca_host : isRfc1918 (cm_host c) = true;
  ca_way : is_Some (cm_onvif c) ∨ is_Some (cm_rtsp c);
  ca_onvif : ∀ o, cm_onvif c = Some o → 1 ≤ on_port o ≤ 65535 ∧ ONVIF_PATH_RE (on_path o) = true;
  ca_rtsp : ∀ r, cm_rtsp c = Some r → 1 ≤ rt_port r ≤ 65535 ∧ RTSP_PATH_RE (rt_path r) = true;
  ca_record : cm_record c ∈ RECORD;
  ca_events : NoDup (cm_events c) ∧ ∀ k, k ∈ cm_events c → k ∈ KINDS;
  ca_retention : RETENTION_min ≤ cm_retentionDays c ≤ RETENTION_max }.

Lemma port_range v n : port v = Some n → 1 ≤ n ≤ 65535.
Proof. unfold port. repeat case_match; try done. intros [= <-]. lia. Qed.

Lemma text_such_ok ok v s : text_such ok v = Some s → ok s = true.
Proof. unfold text_such. destruct v as [[| | |t| |]|]; try done. destruct (ok t) eqn:E; [|done]. by intros [= <-]. Qed.

Lemma default_such (P : jstr → Prop) `{∀ s, Decision (P s)} d v :
  P d → P (default d (text_such (λ s, bool_decide (P s)) v)).
Proof.
  intros Hd. destruct (text_such _ v) as [s|] eqn:Hs; [|done]. by apply text_such_ok, bool_decide_eq_true in Hs.
Qed.

Lemma cleanText_length v n : (length (cleanText v n) <= n)%nat.
Proof. unfold cleanText. destruct v as [[| | |s| |]|]; try (cbn; lia). rewrite length_take. lia. Qed.

Lemma letter_hex_length c s : letter_hex c s = true → length s = 16%nat.
Proof. destruct s as [|x s]; [done |]. cbn [letter_hex length]. intros [[_ ?%Nat.eqb_eq]%andb_prop _]%andb_prop. lia. Qed.

Lemma onvif_of_fine v o : onvif_of v = Some o → 1 ≤ on_port o ≤ 65535 ∧ ONVIF_PATH_RE (on_path o) = true.
Proof.
  unfold onvif_of. intros (f & _ & (p & Hp & (t & Ht & [= <-])%bind_Some)%bind_Some)%bind_Some.
  by apply port_range in Hp; apply text_such_ok in Ht.
Qed.
Lemma rtsp_of_fine v o : rtsp_of v = Some o → 1 ≤ rt_port o ≤ 65535 ∧ RTSP_PATH_RE (rt_path o) = true.
Proof.
  unfold rtsp_of. intros (f & _ & (p & Hp & (t & Ht & [= <-])%bind_Some)%bind_Some)%bind_Some.
  by apply port_range in Hp; apply text_such_ok in Ht.
Qed.

Lemma events_of_fine v : NoDup (events_of v) ∧ ∀ k, k ∈ events_of v → k ∈ KINDS.
Proof.
  assert (NoDup KINDS) as Hk by (apply (bool_decide_unpack _); by vm_compute).
  assert (∀ k, k ∈ [js "person"; js "vehicle"; js "animal"] → k ∈ KINDS) as Hd by (unfold KINDS; set_solver).
  assert (NoDup [js "person"; js "vehicle"; js "animal"]) as Hn by (apply (bool_decide_unpack _); by vm_compute).
  unfold events_of. destruct v as [[| | | |l|]|]; try done. split; [by apply NoDup_filter |].
  intros k. by intros [_ ?]%list_elem_of_filter.
Qed.

Lemma normCamera_fine v c : normCamera v = Some c → camera_fine c.
Proof.
  unfold normCamera. intros (f & _ & (id & Hid & H)%bind_Some)%bind_Some. apply text_such_ok in Hid.
  set (host := match field f (js "host") with Some (JStr s) => trim s | _ => [] end) in H. clearbody host.
  destruct (negb (isRfc1918 host) || _) eqn:Hg; [done |]. injection H as <-.
  apply orb_false_iff in Hg as [Hh%negb_false_iff Hway].
  split; cbn [cm_id cm_name cm_host cm_onvif cm_rtsp cm_record cm_events cm_retentionDays].
  - done.
  - pose proof (cleanText_length (field f (js "name")) 60). pose proof (letter_hex_length _ _ Hid).
    destruct (cleanText _ 60); [|done]. destruct id; [done |]. split; [done | lia].
  - done.
  - destruct (onvif_of _), (rtsp_of _); [by left; eexists | by left; eexists | by right; eexists | done].
  - intros o. apply onvif_of_fine.
  - intros o. apply rtsp_of_fine.
  - apply default_such. unfold RECORD. by right; right; left.
  - apply events_of_fine.
  - unfold retention_of, RETENTION_min, RETENTION_max, RETENTION_dflt. repeat case_match; lia.
Qed.

Definition cameras_fine (l : list camera) : Prop :=
  Forall camera_fine l ∧ NoDup (cm_id <$> l) ∧ (length l <= MAX_CAMERAS)%nat.

Lemma cameras_of_fine l cameras : cameras_fine cameras → (length cameras < MAX_CAMERAS)%nat →
  cameras_fine (cameras_of l cameras).
Proof.
  revert cameras. induction l as [|x l IH]; intros cams Hc Hlt; cbn [cameras_of]; [done |].
  destruct (normCamera x) as [n|] eqn:Hn; [|by apply IH]. case_bool_decide as Hin; [by apply IH |].
  destruct Hc as (Hf & Hd & Hl).
  assert (cameras_fine (cams ++ [n])) as Hc.
  { split_and!.
    - apply Forall_app. split; [done |]. constructor; [by eapply normCamera_fine | done].
    - rewrite fmap_app. apply NoDup_app. split_and!; [done | set_solver | apply NoDup_singleton].
    - rewrite length_app. cbn [length]. lia. }
  destruct (Nat.leb_spec MAX_CAMERAS (length (cams ++ [n]))); [done |]. by apply IH.
Qed.

(** Whatever JSON the server sends as camera settings, the gateway works
    with at most 16 cameras of different, well-formed ids, each at a private
    IPv4 address and reachable by ONVIF or RTSP with a port and a path of the
    right form, known kinds of events, a known recording mode and a retention
    of 1 to 90 days, and with at most 8 different subnets, each the text of a
    private network that is read back as that network; and it records only
    cameras of these that are not set to never. *)
Theorem normalizeCameras_fine raw :
  let c := normalizeCameras raw in
  cameras_fine (cc_cameras c) ∧
  NoDup (cc_subnets c) ∧ (length (cc_subnets c) <= MAX_SUBNETS)%nat ∧
  (∀ s, s ∈ cc_subnets c → ∃ d, parseCidr s = Some d ∧ ci_cidr d = s) ∧
  (∀ r, cc_credRev c = Some r → REV_RE r = true) ∧
  (∀ cam, cam ∈ cc_cameras c → mayRecord (Some cam) (cc_nobodyHome c) = true →
     cm_record cam = js "motion" ∨ (cm_record cam = js "away" ∧ cc_nobodyHome c = Some true)).
Proof.
  cbv zeta. assert (cameras_fine (cc_cameras (normalizeCameras raw))) as Hc.
  { unfold normalizeCameras. cbn [cc_cameras]. apply cameras_of_fine; [|unfold MAX_CAMERAS; cbn; lia].
    split_and!; [constructor | constructor | cbn; lia]. }
  split; [done |]. unfold normalizeCameras in *. cbn [cc_cameras cc_subnets cc_credRev cc_nobodyHome] in *.
  set (f := match raw with Some (JObj f) => f | _ => [] end) in *. clearbody f.
  assert (let l := subnets_of (field f (js "subnets")) in NoDup l ∧ (length l <= MAX_SUBNETS)%nat ∧
    ∀ s, s ∈ l → ∃ d, parseCidr s = Some d ∧ ci_cidr d = s) as (H1 & H2 & H3).
  { unfold subnets_of. destruct (field f (js "subnets")) as [[| | | |l|]|];
      try (split_and!; [constructor | cbn; lia | set_solver]).
    split_and!; [apply take_NoDup, uniq_NoDup | rewrite length_take; lia |].
    intros s Hs. apply elem_of_take in Hs as (i & Hi%list_elem_of_lookup_2 & _).
    rewrite elem_of_uniq in Hi. apply list_elem_of_omap in Hi as (x & _ & Hx). destruct x as [| | |t| |]; try done.
    apply fmap_Some in Hx as (d & Hd & ->). exists d. split; [|done].
    by apply (parseCidr_text t). }
  split_and!; [done.. | intros r; apply text_such_ok |].
  intros cam Hcam Hm. destruct Hc as (Hf & _). rewrite Forall_forall in Hf. apply Hf in Hcam as [_ _ _ _ _ _ Hr _ _].
  unfold mayRecord in Hm. case_bool_decide as Hne; [done |]. case_bool_decide as Ha.
  - right. split; [done |]. by apply bool_decide_eq_true in Hm.
  - left. unfold RECORD in Hr. set_solver.
Qed.
