(* ===== verification/Crypto.v ===== *)
(** * What the program takes from node:crypto, and hexadecimal text

    The hash functions and the check of a signature are functions of the
    runtime, [Buffer.from(text, 'base64')] and [JSON.parse] as well: a class
    that the files using them are generic in.  A call of [crypto.verify] that
    throws is one that does not verify. *)

From S2P Require Import Prelude JsBuffer JsValues.

Local Open Scope Z_scope.

Class Node := {
  sha256 : list Z → list Z;
  hmac_sha256 : list Z → list Z → list Z;
  ed25519_verify : list Z → list Z → list Z → bool;
  from_base64 : jstr → list Z;
  JSON_parse : jstr → option json;
  sha256_length b : length (sha256 b) = 32%nat;
  sha256_bytes b : is_bytes (sha256 b)
}.

(** ** [buf.toString('hex')] *)

Definition hex_digit (n : Z) : Z := if n <? 10 then 48 + n else 87 + n.
Definition hex (b : list Z) : jstr := b ≫= λ x, [hex_digit (x / 16); hex_digit (x mod 16)].

(** [[0-9a-f]] *)
Definition hex_unit (c : Z) : bool := is_digit c || ((97 <=? c) && (c <=? 102)).

Lemma hex_length b : length (hex b) = (2 * length b)%nat.
Proof. unfold hex. induction b as [|x b IH]; [done |]. cbn [mbind list_bind length app]. lia. Qed.

Lemma hex_digit_unit n : 0 ≤ n < 16 → hex_unit (hex_digit n) = true ∧ 0 ≤ hex_digit n < 128.
Proof. unfold hex_unit, is_digit, hex_digit. destruct (Z.ltb_spec n 10); lia. Qed.

Lemma byte_nibbles x : is_byte x → 0 ≤ x / 16 < 16 ∧ 0 ≤ x mod 16 < 16.
Proof. unfold is_byte. intros. Z.div_mod_to_equations. lia. Qed.

Lemma hex_units b : is_bytes b → forallb hex_unit (hex b) = true ∧ is_ascii (hex b).
Proof.
  unfold hex. induction 1 as [|x b [Hh Hl]%byte_nibbles _ [IH1 IH2]]; [split; [done | constructor] |]. cbn [mbind list_bind forallb app].
  destruct (hex_digit_unit _ Hh) as [-> ?], (hex_digit_unit _ Hl) as [-> ?].
  split; [done |]. constructor; [done |]. constructor; [done | exact IH2].
Qed.

Lemma hex_inj a b : is_bytes a → is_bytes b → hex a = hex b → a = b.
Proof.
  unfold hex. intros Ha. revert b. induction Ha as [|x a Hx Ha IH]; intros b Hb; destruct Hb as [|y b Hy Hb];
    cbn [mbind list_bind app]; [done | done | done |].
  intros [= E1 E2 E]. rewrite (IH b Hb E). f_equal.
  assert (∀ n m, 0 ≤ n < 16 → 0 ≤ m < 16 → hex_digit n = hex_digit m → n = m) as Hinj.
  { intros n m. unfold hex_digit. destruct (Z.ltb_spec n 10), (Z.ltb_spec m 10); lia. }
  apply byte_nibbles in Hx as [? ?], Hy as [? ?].
  apply Hinj in E1, E2; [|lia..]. rewrite (Z.div_mod x 16), (Z.div_mod y 16) by lia. by rewrite E1, E2.
Qed.

(** ** An instance that witnesses can compute with *)

(** The first 32 bytes, padded, in the place of the hash. *)
Definition pad32 (b : list Z) : list Z := (λ x, x mod 256) <$> take 32 (b ++ replicate 32 0).

Definition toy_node (parse : jstr → option json) : Node.
Proof.
  refine {| sha256 := pad32; hmac_sha256 := λ k m, pad32 (k ++ m);
            ed25519_verify := λ k m s, bool_decide (s = take 64 (k ++ m ++ replicate 64 0));
            from_base64 := λ s, take 32 s ++ drop 43 s; JSON_parse := parse |}.
  - intros b. unfold pad32. rewrite length_fmap, length_take, length_app, length_replicate. lia.
  - intros b. unfold pad32. apply Forall_fmap, Forall_true. intros x. apply Z.mod_pos_bound. lia.
Defined.
