(* ===== verification/Signature.v ===== *)
(** * src/edge/signature.js

    The signature of a plugin package: the text that is signed, the trusted
    keys, the check and what may run.  [sign] (used by tests and tools) is
    not modelled. *)

From stdpp Require Import sorting.
From S2P Require Import Prelude Gcplugin JsBuffer JsMap JsValues JsSet Crypto EdgeConstants.

Local Open Scope Z_scope.

Definition SIGNATURE_FILE : jstr := js "signature".
Definition HEADER : jstr := js "GCPLUGIN-MANIFEST-V1" ++ [10].

(** [/^[A-Za-z0-9+/]{43}=$/] *)
Definition B64_32 (s : jstr) : bool :=
  (str_len s =? 44) && forallb (λ c, is_alnum c || (c =? 43) || (c =? 47)) (take 43 s)
  && bool_decide (drop 43 s = [61]).

(** [s.replace(/#.*$/, '')]: from the first hash sign that no line end follows. *)
Definition line_end (c : Z) : bool := (c =? 10) || (c =? 13) || (c =? 8232) || (c =? 8233).
Fixpoint strip_comment (s : jstr) : jstr :=
  match s with
  | [] => []
  | c :: r => if (c =? 35) && negb (existsb line_end r) then [] else c :: strip_comment r
  end.

Fixpoint key_lines (lines : list jstr) : res (list jstr) :=
  match lines with
  | [] => Ok []
  | l :: lines =>
      match trim (strip_comment l) with
      | [] => key_lines lines
      | s => if B64_32 s then r ← key_lines lines; Ok (s :: r) else Throw "invalid key line in trusted-keys.txt"
      end
  end.
Definition parseKeyFile (text : jstr) : res (list jstr) := key_lines (split_on 10 text).

(** The four results; a key with its id for the two that verify. *)
Inductive sig_status := Unsigned | Trusted | Untrusted | Invalid.
#[export] Instance sig_status_eq_dec : EqDecision sig_status.
Proof. solve_decision. Defined.
Record verdict := Verdict { vd_status : sig_status; vd_publicKey : option jstr; vd_keyId : option jstr }.

Definition acceptable (status : sig_status) (allowUnsigned : bool) : bool :=
  if decide (status = Trusted) then true
  else if decide (status = Invalid) then false
  else allowUnsigned && (bool_decide (status = Unsigned) || bool_decide (status = Untrusted)).

Section Signature.
Context `{Node}.

(** A line of the signed text: the digest of a file and its path. *)
Definition manifest_line (files : list file) (p : jstr) : jstr :=
  hex (sha256 (default [] (map_get files p))) ++ 32 :: p ++ [10].

Definition signed_paths (files : list file) : list jstr :=
  sort_by id (filter (λ p, p ≠ SIGNATURE_FILE) files.*1).

Definition canonicalManifest (files : list file) : list Z :=
  utf8_encode (HEADER ++ (signed_paths files ≫= manifest_line files)).

Definition publicKeyFromRaw (b64 : jstr) : res (list Z) :=
  if negb (B64_32 b64) then Throw "invalid public key"
  else let raw := from_base64 b64 in
       if negb (blen raw =? 32) then Throw "invalid public key" else Ok raw.

(** [builtin]: the keys of the key file; [extra]: GC_EDGE_PUBKEYS. *)
Definition extra_keys (extra : option jstr) : list jstr :=
  match extra with
  | Some e =>
      if nonempty (trim e) then
        match JSON_parse e with
        | Some (JArr list) =>
            omap (λ k, match k with JStr k => if B64_32 (trim k) then Some (trim k) else None | _ => None end) list
        | _ => []
        end
      else []
  | None => []
  end.
Definition trustedKeys (builtin : list jstr) (extra : option jstr) : list jstr := uniq (builtin ++ extra_keys extra).

Definition keyId (b64 : jstr) : jstr := take 16 (hex (sha256 (from_base64 b64))).

(** The key and the signature of a document in the right format. *)
Definition signature_doc (doc : option json) : option (jstr * jstr) :=
  match doc with
  | Some (JObj d) =>
      match field d (js "v"), field d (js "sig"), field d (js "publicKey") with
      | Some (JNum (NInt 1)), Some (JStr s), Some (JStr k) =>
          if is_str (field d (js "alg")) (js "Ed25519") then Some (k, s) else None
      | _, _, _ => None
      end
  | _ => None
  end.

Definition verify (files : list file) (keys : list jstr) : verdict :=
  match map_get files SIGNATURE_FILE with
  | None => Verdict Unsigned None None
  | Some sf =>
      match signature_doc (JSON_parse (utf8_decode sf)) with
      | None => Verdict Invalid None None
      | Some (publicKey, s) =>
          match publicKeyFromRaw publicKey with
          | Ok key =>
              let sig := from_base64 s in
              if (blen sig =? 64) && ed25519_verify key (canonicalManifest files) sig then
                Verdict (if bool_decide (publicKey ∈ keys) then Trusted else Untrusted)
                  (Some publicKey) (Some (keyId publicKey))
              else Verdict Invalid None None
          | _ => Verdict Invalid None None
          end
      end
  end.
End Signature.

(** * Properties of the signature check

    The text that is signed says exactly which paths a package has and what
    their digests are, and a package counts as trusted only when a trusted
    key signed that text. *)

(** ** The order of paths *)

Definition str_le (a b : jstr) : Prop := str_lt b a = false.

#[export] Instance str_le_trans : Transitive str_le.
Proof.
  unfold str_le. intros a b c Hab Hbc. destruct (str_lt c a) eqn:E; [|done].
  destruct (str_lt_total a b) as [->|[H|H]]; [congruence | | congruence].
  pose proof (str_lt_trans c a b E H). congruence.
Qed.
#[export] Instance str_le_antisymm : AntiSymm (=) str_le.
Proof. intros a b Hab Hba. unfold str_le in *. destruct (str_lt_total a b) as [->|[?|?]]; congruence. Qed.

Lemma insert_by_sorted x l : Sorted str_le l → Sorted str_le (insert_by id x l).
Proof.
  induction 1 as [|y l Hs IH Hd]; cbn [insert_by]; [by repeat constructor |].
  destruct (str_lt (id y) (id x)) eqn:E; cbn [id] in *.
  - constructor; [done |]. destruct l as [|z l]; cbn [insert_by]; [constructor; by apply str_lt_asymm |].
    apply HdRel_inv in Hd. destruct (str_lt (id z) (id x)); constructor; [done | by apply str_lt_asymm].
  - constructor; [by constructor | by constructor].
Qed.
Lemma sort_by_sorted l : Sorted str_le (sort_by id l).
Proof. induction l as [|x l IH]; [constructor | by apply insert_by_sorted]. Qed.
Lemma sort_by_unique l k : l ≡ₚ k → sort_by id l = sort_by id k.
Proof.
  intros Hp. apply (Sorted_unique str_le); [apply sort_by_sorted.. |]. by rewrite !sort_by_perm.
Qed.

Section Facts.
Context `{Node}.

(** The digests of a package, by path. *)
Definition digest (files : list file) (p : jstr) : option (list Z) := sha256 <$> map_get files p.

Lemma elem_of_signed_paths files p : p ∈ signed_paths files ↔ p ∈ files.*1 ∧ p ≠ SIGNATURE_FILE.
Proof. unfold signed_paths. rewrite sort_by_perm, list_elem_of_filter. naive_solver. Qed.

(** A path of a package holds neither a line end nor anything outside ASCII. *)
Lemma path_no_newline p : path_ok p → 10 ∉ p.
Proof.
  intros Hp Hin. unfold path_ok, checkPath in Hp. destruct (_ || _); [done |]. destruct (_ || _ || _); [done |].
  destruct (_ <? _); [done |]. destruct (existsb _ _) eqn:He; [done |]. apply not_true_iff_false in He. apply He.
  assert (∃ s, s ∈ split_on path_sep p ∧ 10 ∈ s) as (s & Hs & Hins).
  { clear -Hin. induction p as [|c p IH]; [by apply elem_of_nil in Hin |]. cbn [split_on].
    apply elem_of_cons in Hin as [<-|Hin].
    - cbn. destruct (split_on path_sep p); eexists; (split; [by left | by left]).
    - destruct (IH Hin) as (s & Hs & H10). destruct (c =? path_sep); [exists s; split; [by right | done] |].
      destruct (split_on path_sep p) as [|h t]; [by apply elem_of_nil in Hs |].
      apply elem_of_cons in Hs as [->|Hs]; [exists (c :: h) | exists s]; (split; [|by (done || right)]); [by left | by right]. }
  apply existsb_exists. exists s. split; [by apply list_elem_of_In |]. rewrite orb_true_iff. right.
  apply negb_true_iff, not_true_iff_false. destruct s as [|c s]; [by apply elem_of_nil in Hins |]. cbn [SEGMENT_RE].
  intros [[Hc Hr]%andb_true_iff _]%andb_true_iff. unfold segment_unit, is_alnum, is_digit, is_lower, is_upper in *.
  apply elem_of_cons in Hins as [<-|Hins]; [lia |]. rewrite forallb_forall in Hr.
  apply list_elem_of_In in Hins. specialize (Hr _ Hins). lia.
Qed.

Lemma hex_no_newline b : is_bytes b → 10 ∉ hex b.
Proof.
  intros [Hu _]%hex_units Hin%list_elem_of_In. rewrite forallb_forall in Hu. specialize (Hu _ Hin). done.
Qed.

(** Lines can be told apart. *)
Lemma manifest_lines_inj f g ps qs :
  Forall path_ok ps → Forall path_ok qs →
  ps ≫= manifest_line f = qs ≫= manifest_line g →
  ps = qs ∧ Forall (λ p, sha256 (default [] (map_get f p)) = sha256 (default [] (map_get g p))) ps.
Proof.
  intros Hp. revert qs. induction Hp as [|p ps Hp Hps IH]; intros qs Hq; destruct Hq as [|q qs Hq Hqs];
    cbn [mbind list_bind]; [done | | |].
  - unfold manifest_line. destruct (hex _) eqn:E; [done | done].
  - unfold manifest_line. destruct (hex _) eqn:E; [done | done].
  - unfold manifest_line at 1 3. intros E. set (x := sha256 _) in E. set (y := sha256 _) in E.
    assert (is_bytes x ∧ is_bytes y ∧ length (hex x) = length (hex y)) as (Hx & Hy & Hlen).
    { split_and!; [apply sha256_bytes.. |]. unfold x, y. by rewrite !hex_length, !sha256_length. }
    assert ((hex x ++ 32 :: p) ++ 10 :: (ps ≫= manifest_line f) = (hex y ++ 32 :: q) ++ 10 :: (qs ≫= manifest_line g)) as E'.
    { rewrite <- !app_assoc in *. cbn [app] in *. rewrite <- !app_assoc in E. exact E. }
    apply app_sep_inj in E' as [E1 E2].
    + apply app_inj_1 in E1 as [Ehex [= ->]]; [|done]. destruct (IH _ Hqs E2) as [-> Hall].
      split; [done |]. constructor; [by apply hex_inj | done].
    + apply not_elem_of_app. split; [by apply hex_no_newline |]. apply not_elem_of_cons. split; [done | by apply path_no_newline].
    + apply not_elem_of_app. split; [by apply hex_no_newline |]. apply not_elem_of_cons. split; [done | by apply path_no_newline].
Qed.

Definition paths_ok (files : list file) : Prop := map_ok files ∧ Forall path_ok files.*1.

Lemma signed_paths_ok files : paths_ok files → Forall path_ok (signed_paths files).
Proof.
  intros [_ Hp]. apply Forall_forall. intros p [Hin _]%elem_of_signed_paths. rewrite Forall_forall in Hp. by apply Hp.
Qed.

Lemma manifest_text_ascii files : paths_ok files → is_ascii (HEADER ++ (signed_paths files ≫= manifest_line files)).
Proof.
  intros Hf. apply Forall_app_2; [apply (bool_decide_unpack _); by vm_compute |].
  apply Forall_bind. eapply Forall_impl; [by apply signed_paths_ok |]. intros p [Hp _]%path_ok_ascii.
  unfold manifest_line. apply Forall_app_2; [apply hex_units, sha256_bytes |].
  constructor; [lia |]. apply Forall_app_2; [done |]. by repeat constructor.
Qed.

Lemma digest_None files p : digest files p = None ↔ p ∉ files.*1.
Proof. unfold digest. rewrite fmap_None. apply map_get_None. Qed.

(** C34: two packages have the same signed text exactly when they have the
    same paths with the same digests, the file of the signature apart: a
    signature covers the whole package. *)
Theorem canonicalManifest_covers f g :
  paths_ok f → paths_ok g →
  canonicalManifest f = canonicalManifest g ↔ ∀ p, p ≠ SIGNATURE_FILE → digest f p = digest g p.
Proof.
  intros Hf Hg. unfold canonicalManifest. rewrite !utf8_encode_ascii by by apply manifest_text_ascii. split.
  - intros E%(inj (app HEADER)). apply manifest_lines_inj in E as [Ep Hd]; [|by apply signed_paths_ok..].
    intros p Hne. rewrite Forall_forall in Hd.
    assert (p ∈ f.*1 ↔ p ∈ g.*1) as Hin.
    { pose proof (elem_of_signed_paths f p). pose proof (elem_of_signed_paths g p). rewrite Ep in *. naive_solver. }
    unfold digest. destruct (map_get f p) as [x|] eqn:Ex, (map_get g p) as [y|] eqn:Ey; cbn; [| | |done].
    + f_equal. specialize (Hd p). rewrite Ex, Ey in Hd. apply Hd, elem_of_signed_paths. split; [|done].
      apply map_get_elem in Ex. apply list_elem_of_fmap. by exists (p, x).
    + apply map_get_None in Ey. apply map_get_elem in Ex. destruct Ey. apply Hin, list_elem_of_fmap. by exists (p, x).
    + apply map_get_None in Ex. apply map_get_elem in Ey. destruct Ex. apply Hin, list_elem_of_fmap. by exists (p, y).
  - intros Hd. f_equal. assert (signed_paths f = signed_paths g) as Ep.
    { apply sort_by_unique, NoDup_Permutation; [apply NoDup_filter, Hf | apply NoDup_filter, Hg |].
      intros p. rewrite !list_elem_of_filter.
      split; intros [Hne Hp]; (split; [done |]); apply dec_stable; intros Hn%digest_None;
        [rewrite <- Hd in Hn by done | rewrite Hd in Hn by done]; by apply digest_None in Hn. }
    rewrite Ep. assert (Forall (λ p, p ≠ SIGNATURE_FILE) (signed_paths g)) as Hne
      by (apply Forall_forall; intros p; by intros [_ ?]%elem_of_signed_paths).
    assert (Forall (λ p, p ∈ f.*1) (signed_paths g)) as Hin.
    { rewrite <- Ep. apply Forall_forall. by intros p [? _]%elem_of_signed_paths. }
    clear Ep. induction Hne as [|p ps Hne _ IH]; [done |]. apply Forall_cons in Hin as [Hp Hin]. cbn [mbind list_bind].
    rewrite (IH Hin). f_equal. unfold manifest_line. specialize (Hd p Hne). unfold digest in Hd.
    destruct (map_get f p) eqn:Ex; [|by apply map_get_None in Ex].
    destruct (map_get g p) eqn:Ey; [|done]. cbn in *. congruence.
Qed.

(** What the status of a package says. *)
Lemma verify_spec files keys v :
  verify files keys = v → vd_status v = Trusted ∨ vd_status v = Untrusted →
  ∃ sf k s key, map_get files SIGNATURE_FILE = Some sf ∧ signature_doc (JSON_parse (utf8_decode sf)) = Some (k, s) ∧
    publicKeyFromRaw k = Ok key ∧ blen (from_base64 s) = 64 ∧
    ed25519_verify key (canonicalManifest files) (from_base64 s) = true ∧
    vd_publicKey v = Some k ∧ vd_keyId v = Some (keyId k) ∧ (vd_status v = Trusted ↔ k ∈ keys).
Proof.
  intros <- Hst. unfold verify in *. destruct (map_get files SIGNATURE_FILE) as [sf|]; [|by destruct Hst].
  destruct (signature_doc _) as [[k s]|] eqn:Hdoc; [|by destruct Hst].
  destruct (publicKeyFromRaw k) as [key| |] eqn:Hk; [|by destruct Hst..].
  destruct (_ && _) eqn:Hv; [|by destruct Hst]. apply andb_true_iff in Hv as [?%Z.eqb_eq ?].
  exists sf, k, s, key. split_and!; try done. cbn. case_bool_decide; naive_solver.
Qed.
End Facts.

(** Two packages with the same content in another order, one with its signature. *)
Lemma canonicalManifest_covers_witness :
  let f : list file := [(js "b.js", [1]); (js "a.js", [2])] in
  let g : list file := [(js "signature", [7]); (js "a.js", [2]); (js "b.js", [1])] in
  @canonicalManifest (toy_node (λ _, None)) f = @canonicalManifest (toy_node (λ _, None)) g.
Proof.
  apply (canonicalManifest_covers (H := toy_node (λ _, None)) [(js "b.js", [1]); (js "a.js", [2])]
           [(js "signature", [7]); (js "a.js", [2]); (js "b.js", [1])]).
  - split; [apply (bool_decide_unpack (NoDup _)); by vm_compute | by repeat constructor].
  - split; [apply (bool_decide_unpack (NoDup _)); by vm_compute | by repeat constructor].
  - intros p Hne. unfold digest, map_get. repeat case_decide; subst; try done.
Defined.
