(* ===== verification/Packages.v ===== *)
(** * src/edge/packages.js

    Getting, checking and unpacking the packages of the edge parts.  The
    folder of the packages is a map from plugin and version to what was
    unpacked there; a folder is put in place by one rename. *)

From S2P Require Import Prelude ManifestFacts JsBuffer JsMap JsValues JsText JsSet Crypto EdgeConstants Gcplugin Signature Manifest.

Local Open Scope Z_scope.

Definition MANIFEST_FILE : jstr := js "plugin.json".
Definition READY_FILE : jstr := js ".ready.json".

(** ** The answer of the server *)

Inductive http_answer :=
  | Response (statusCode : Z) (chunks : list (list Z))
  | ResponseError (msg : string)
  | RequestTimeout
  | RequestError (msg : string).

(** The chunks of a body up to [max] bytes. *)
Fixpoint collect (max size : Z) (chunks : list (list Z)) : res (list Z) :=
  match chunks with
  | [] => Ok []
  | c :: r => if max <? size + blen c then Throw "too_large" else b ← collect max (size + blen c) r; Ok (c ++ b)
  end.

Definition download (a : http_answer) : res (list Z) :=
  match a with
  | Response s chunks =>
      if negb (s =? 200) then Throw (if s =? 404 then "not_found" else "download_failed")
      else collect LIMITS.packageBytes 0 chunks
  | ResponseError e => Throw e
  | RequestTimeout | RequestError _ => Throw "download_failed"
  end.

(** ** Checking *)

Record checked_package := CheckedPackage {
  ck_files : list file; ck_manifest : list (jstr * json); ck_edge : edge_manifest; ck_signature : verdict }.

(** [manifest[k] !== s] *)
Definition differs (m : json) (k s : jstr) : bool :=
  match m with JObj f => negb (is_str (field f k) s) | _ => true end.

Section Packages.
Context `{Unicode} `{Node} (gunzip : list Z → Z → gunzipped).

Definition inspect (buf : list Z) (id version sha256_ : jstr) (allowUnsigned : bool)
    (gatewayVersion : jstr) (keys : list jstr) : res checked_package :=
  if negb (bool_decide (hex (sha256 buf) = toLowerCase sha256_)) then Throw "sha256_mismatch"
  else
    files ← match decode gunzip buf with Throw _ => Throw "bad_package" | r => r end;
    let sig := verify files keys in
    if decide (vd_status sig = Invalid) then Throw "signature_invalid"
    else if negb (acceptable (vd_status sig) allowUnsigned) then Throw "unsigned"
    else
      match map_get files MANIFEST_FILE with
      | None => Throw "bad_manifest"
      | Some mf =>
          if LIMITS.manifestBytes <? blen mf then Throw "bad_manifest"
          else
            match JSON_parse (utf8_decode mf) with
            | None => Throw "bad_manifest"
            | Some JNull => Throw "TypeError"
            | Some manifest =>
                if differs manifest (js "id") id then Throw "bad_manifest"
                else if differs manifest (js "version") version then Throw "bad_manifest"
                else
                  edge ← match validateEdgeManifest manifest (Some gatewayVersion) with
                         | Throw e => Throw (if String.eqb e "gateway_too_old" then "gateway_too_old" else "bad_manifest")
                         | r => r
                         end;
                  if negb (map_has files (em_entry edge)) then Throw "bad_manifest"
                  else Ok (CheckedPackage files (match manifest with JObj f => f | _ => [] end) edge sig)
            end
      end.

(** ** The folder of the packages *)

(** What [.ready.json] says. *)
Record ready := Ready {
  ry_sha256 : jstr; ry_signature : sig_status; ry_keyId : option jstr; ry_edge : edge_manifest;
  ry_publisher : json; ry_name : json }.
Abbreviation store := (list ((jstr * jstr) * (ready * list file))).

(** [path.join] on the folders of a path: [.] and empty names vanish, [..]
    goes up. *)
Definition join_path (base : list jstr) (p : jstr) : list jstr :=
  fold_left (λ dirs s,
    if bool_decide (s = [] ∨ s = js ".") then dirs
    else if bool_decide (s = js "..") then take (length dirs - 1) dirs
    else dirs ++ [s]) (split_on path_sep p) base.

(** [target.startsWith(tmp + path.sep)] *)
Definition inside (base target : list jstr) : bool :=
  bool_decide (take (length base) target = base) && (length base <? length target)%nat.

(** The files that are unpacked: those beside the entry, and plugin.json. *)
Definition unpacked (c : checked_package) : list file :=
  filter (λ f, f.1 = MANIFEST_FILE ∨ starts_with (em_entryDir (ck_edge c) ++ [path_sep]) f.1 = true) (ck_files c).

Definition extract (st : store) (tmp : list jstr) (id version sha256_ : jstr) (c : checked_package) : res (store * ready) :=
  if forallb (λ f, inside tmp (join_path tmp f.1)) (unpacked c) then
    let info := Ready (toLowerCase sha256_) (vd_status (ck_signature c)) (vd_keyId (ck_signature c)) (ck_edge c)
                  (or_null (field (ck_manifest c) (js "publisher"))) (or_null (field (ck_manifest c) (js "name"))) in
    Ok (map_set st (id, version) (info, unpacked c), info)
  else Throw "bad_package".

Definition installed (st : store) (id version sha256_ : jstr) : option ready :=
  if validId id && validVersion version then
    match map_get st (id, version) with
    | Some (info, _) =>
        if bool_decide (ry_sha256 info = toLowerCase sha256_) && nonempty (em_entry (ry_edge info)) then Some info else None
    | None => None
    end
  else None.
End Packages.
Abbreviation store := (list ((jstr * jstr) * (ready * list file))).

(** [prune(id, keep)] and [pruneExcept(ids)] *)
Definition prune (st : store) (id : jstr) (keep : option jstr) : store :=
  filter (λ e, e.1.1 ≠ id ∨ Some e.1.2 = keep) st.
Definition pruneExcept (st : store) (ids : list jstr) : store := filter (λ e, e.1.1 ∈ ids) st.

(** * Properties of the packages

    A package that passes the check is the one the server named, is signed as
    the gateway demands, and unpacks only below its own folder; what was
    unpacked is found again under the same digest and no other. *)

(** ** Paths *)

Lemma join_snoc sep l s : l ≠ [] → join sep (l ++ [s]) = join sep l ++ sep :: s.
Proof.
  induction l as [|x l IH]; [done |]. intros _. destruct l as [|y l]; [done |].
  cbn [app join] in *. rewrite IH by done. by rewrite <- app_assoc.
Qed.

Lemma dirname_prefix p : dirname p ≠ js "." → starts_with (dirname p ++ [path_sep]) p = true.
Proof.
  unfold dirname. destruct (reverse (split_on path_sep p)) as [|s [|d dirs]] eqn:E; [done.. |]. intros _.
  apply starts_with_app. exists s. rewrite <- (join_split_on path_sep p) at 1.
  rewrite <- (reverse_involutive (split_on path_sep p)), E, reverse_cons, join_snoc.
  - by rewrite <- app_assoc.
  - intros Hn%(f_equal reverse). by rewrite reverse_involutive in Hn.
Qed.

Lemma path_ok_segments p : path_ok p → Forall (λ s, s ≠ [] ∧ s ≠ js "." ∧ s ≠ js "..") (split_on path_sep p).
Proof.
  unfold path_ok, checkPath. destruct (_ || _); [done |]. destruct (_ || _ || _); [done |].
  destruct (_ <? _); [done |]. destruct (existsb _ _) eqn:He; [done |]. intros _.
  apply Forall_forall. intros s Hs. apply not_true_iff_false in He.
  assert (∀ P : Prop, (bool_decide (s = js ".") || bool_decide (s = js "..") || negb (SEGMENT_RE s) = true) → P) as Hno.
  { intros P Hb. destruct He. apply existsb_exists. exists s. by split; [apply list_elem_of_In |]. }
  split_and!; intros ->; by apply Hno.
Qed.

Lemma join_path_ok base p : path_ok p → join_path base p = base ++ split_on path_sep p.
Proof.
  intros Hp%path_ok_segments. unfold join_path. revert base.
  induction Hp as [|s l (H1 & H2 & H3) _ IH]; intros base; cbn [fold_left]; [by rewrite app_nil_r |].
  rewrite !bool_decide_false by naive_solver. rewrite IH. by rewrite <- app_assoc.
Qed.

Lemma inside_path base p : path_ok p → inside base (join_path base p) = true.
Proof.
  intros Hp. rewrite join_path_ok by done. unfold inside. rewrite take_app_length, bool_decide_true by done.
  pose proof (split_on_nonempty path_sep p). destruct (split_on path_sep p); [done |].
  rewrite length_app. cbn [length andb]. apply Nat.ltb_lt. lia.
Qed.

(** ** Manifests are checked without fuel *)

Lemma list_of_fueled max v : fueled (list_of max v).
Proof. unfold list_of. fuel_auto. Qed.
Lemma checked_fueled {A} (ok : json → option A) l : fueled (checked ok l).
Proof. unfold checked. auto with fuel. Qed.
#[local] Hint Resolve list_of_fueled checked_fueled : fuel.
Lemma lan_part_fueled v : fueled (lan_part v).
Proof. unfold lan_part. fuel_auto. Qed.
#[local] Hint Resolve lan_part_fueled : fuel.

Lemma validateCaps_fueled v : fueled (validateCaps v).
Proof.
  unfold validateCaps, udp_part, names_part, http_part, serial_part. fuel_auto.
Qed.
#[local] Hint Resolve validateCaps_fueled : fuel.

Lemma validateEdgeManifest_fueled m g : fueled (validateEdgeManifest m g).
Proof. unfold validateEdgeManifest, memory_part, minGateway_part. fuel_auto. Qed.

(** ** The answer of the server *)

Lemma collect_spec max size chunks b : collect max size chunks = Ok b →
  b = concat chunks ∧ (chunks ≠ [] → size + blen b ≤ max).
Proof.
  revert size b. induction chunks as [|c r IH]; intros size b; cbn [collect]; [by intros [= <-] |].
  destruct (Z.ltb_spec max (size + blen c)); [done |]. intros Hr. res_inv.
  apply IH in Hm as [-> Hle]. split; [done |]. intros _. rewrite blen_app.
  destruct r as [|c' r]; [cbn; unfold blen in *; cbn; lia |]. specialize (Hle ltac:(done)). lia.
Qed.

Section Facts.
Context `{Unicode} `{Node} (gunzip : list Z → Z → gunzipped).
Context (gunzip_bytes : ∀ buf max raw, gunzip buf max = Gunzipped raw → is_bytes raw).

Lemma package_ok_map files : package_ok files → paths_ok files.
Proof.
  intros [Hp Hd _ _ _]. split; [|by apply Forall_fmap].
  unfold map_ok, lower_names in *. apply (NoDup_fmap_1 (λ p, toLowerCase p)). by rewrite <- list_fmap_compose.
Qed.

(** What [inspect] has checked. *)
Record inspected (buf : list Z) (id version sha256_ : jstr) (allowUnsigned : bool) (keys : list jstr)
    (c : checked_package) : Prop := {
  in_digest : hex (sha256 buf) = toLowerCase sha256_;
  in_files : package_ok (ck_files c);
  in_signature : ck_signature c = verify (ck_files c) keys;
  in_acceptable : acceptable (vd_status (ck_signature c)) allowUnsigned = true;
  in_id : field (ck_manifest c) (js "id") = Some (JStr id);
  in_version : field (ck_manifest c) (js "version") = Some (JStr version);
  in_caps : caps_ok (em_capabilities (ck_edge c));
  in_entry : path_ok (em_entry (ck_edge c)) ∧ em_entry (ck_edge c) ∈ (ck_files c).*1 ∧
             starts_with (em_entryDir (ck_edge c) ++ [path_sep]) (em_entry (ck_edge c)) = true }.

Lemma differs_false m k s : differs m k s = false → ∃ f, m = JObj f ∧ field f k = Some (JStr s).
Proof.
  destruct m as [| | | | |f]; try done. cbn. rewrite negb_false_iff. unfold is_str.
  destruct (field f k) as [[| | |t| |]|] eqn:E; try done. intros ->%bool_decide_eq_true. eauto.
Qed.

Lemma manifest_entry m g e : validateEdgeManifest m g = Ok e →
  path_ok (em_entry e) ∧ em_entryDir e = dirname (em_entry e) ∧ em_entryDir e ≠ js "." ∧ caps_ok (em_capabilities e).
Proof.
  destruct m as [| | | | |m]; try done. cbn [validateEdgeManifest].
  destruct (field m (js "edge")) as [[| | | | |ef]|]; try done.
  destruct (field ef (js "entry")) as [[| | |p| |]|]; try done.
  destruct (checkPath p) as [entry| |] eqn:Hp; try done. apply checkPath_Ok in Hp as [-> Hp].
  destruct (script_name p); [|done]. cbn [negb]. case_bool_decide; [done |]. intros Hr. res_inv.
  split_and!; try done. by eapply validateCaps_ok.
Qed.

Lemma inspect_ok buf id version sha256_ allowUnsigned gw keys c :
  inspect gunzip buf id version sha256_ allowUnsigned gw keys = Ok c →
  inspected buf id version sha256_ allowUnsigned keys c.
Proof using gunzip_bytes.
  unfold inspect. case_bool_decide as Hd; [|done]. cbn [negb]. intros Hr.
  apply res_bind_Ok in Hr as (files & Hf & Hr).
  assert (package_ok files) as Hpk.
  { destruct (decode_safe gunzip gunzip_bytes buf) as [_ Hok]. destruct (decode gunzip buf); [|done..]. apply Hok. congruence. }
  case_decide; [done |]. destruct (acceptable _ _) eqn:Hacc; [|done]. cbn [negb] in Hr.
  destruct (map_get files MANIFEST_FILE) as [mf|]; [|done]. destruct (_ <? _); [done |].
  destruct (JSON_parse _) as [m|]; [|done]. destruct m as [| | | | |m]; try done.
  destruct (differs _ (js "id") id) eqn:Hid; [done |]. destruct (differs _ (js "version") version) eqn:Hv; [done |].
  apply differs_false in Hid as (? & [= <-] & Hid), Hv as (? & [= <-] & Hv).
  apply res_bind_Ok in Hr as (edge & He & Hr).
  destruct (validateEdgeManifest _ _) as [e| |] eqn:Hm; [|done..]. injection He as <-.
  apply manifest_entry in Hm as (Hp & Hdir & Hne & Hcaps).
  destruct (map_has files (em_entry e)) eqn:Hhas; [|done]. injection Hr as <-.
  split; cbn [ck_files ck_signature ck_manifest ck_edge]; try done. split_and!; [done | |].
  - unfold map_has in Hhas. apply dec_stable. intros Hn%map_get_None. by rewrite Hn in Hhas.
  - rewrite Hdir in *. by apply dirname_prefix.
Qed.

Lemma unpacked_elem c f : f ∈ unpacked c ↔
  f ∈ ck_files c ∧ (f.1 = MANIFEST_FILE ∨ starts_with (em_entryDir (ck_edge c) ++ [path_sep]) f.1 = true).
Proof. unfold unpacked. rewrite list_elem_of_filter. tauto. Qed.

Lemma extract_ok st tmp id version sha256_ c : package_ok (ck_files c) →
  extract st tmp id version sha256_ c =
    Ok (map_set st (id, version)
          (Ready (toLowerCase sha256_) (vd_status (ck_signature c)) (vd_keyId (ck_signature c)) (ck_edge c)
             (or_null (field (ck_manifest c) (js "publisher"))) (or_null (field (ck_manifest c) (js "name"))), unpacked c),
        Ready (toLowerCase sha256_) (vd_status (ck_signature c)) (vd_keyId (ck_signature c)) (ck_edge c)
          (or_null (field (ck_manifest c) (js "publisher"))) (or_null (field (ck_manifest c) (js "name")))).
Proof.
  intros Hpk. unfold extract. assert (forallb (λ f, inside tmp (join_path tmp f.1)) (unpacked c) = true) as ->; [|done].
  apply forallb_forall. intros f [Hf _]%list_elem_of_In%unpacked_elem. apply inside_path.
  destruct Hpk as [Hp _ _ _ _]. rewrite Forall_forall in Hp. by apply Hp.
Qed.

End Facts.

(** A package of two files that nobody signed. *)
Definition sample_manifest : json :=
  JObj [(js "id", JStr (js "demo")); (js "version", JStr (js "1.0.0"));
        (js "edge", JObj [(js "entry", JStr (js "edge/index.js"))])].
Definition sample_node : Node := toy_node (λ _, Some sample_manifest).
Definition sample_raw : list Z :=
  match encode_raw [(js "edge/index.js", [59]); (js "plugin.json", [123; 125])] with Ok b => b | _ => [] end.
Definition sample_buf : list Z := store_gzip sample_raw.
Definition sample_sha : jstr := hex (@sha256 sample_node sample_buf).

