(* ===== verification/TlsPin.v ===== *)
(** * src/proxy/tlsPin.js

    The pin of a certificate: its normal form, the agent that hands a
    connection out only after the pin matched, and the cache of agents.  The
    summary of a certificate and the request that drives a probe are not
    modelled. *)

From S2P Require Import Prelude JsBuffer JsMap JsValues Crypto.

Local Open Scope Z_scope.

Definition MAX_CACHED_AGENTS : Z := 256.

(** [/^[0-9a-f]{64}$/] *)
Definition FINGERPRINT_RE (s : jstr) : bool := (length s =? 64)%nat && forallb hex_unit s.

Section TlsPin.
Context `{Unicode}.

(** [s.replace(/^sha256:/, '')] and [s.replace(/[\s:-]/g, '')] *)
Definition without_prefix (s : jstr) : jstr := if starts_with (js "sha256:") s then drop 7 s else s.
Definition without_marks (s : jstr) : jstr := filter (λ c, js_space c || (c =? 58) || (c =? 45) = false) s.

Definition normalizeFingerprint (raw : option json) : option jstr :=
  match raw with
  | Some (JStr s) =>
      let h := without_marks (without_prefix (toLowerCase (trim s))) in
      if FINGERPRINT_RE h then Some h else None
  | _ => None
  end.

(** ** The agent *)

(** [ag_pin = None]: no certificate matches. *)
Record agent := Agent { ag_host : jstr; ag_port : Z; ag_pin : option jstr; ag_timeoutMs : Z }.

(** [_verifyPeer]: whether the certificate matches; [fingerprint256] of the peer. *)
Definition verifyPeer (a : agent) (fingerprint256 : option json) : bool :=
  match normalizeFingerprint fingerprint256, ag_pin a with
  | Some seen, Some pin => bool_decide (seen = pin)
  | _, _ => false
  end.

(** What can happen to a connection, and what the agent does. *)
Inductive tls_event := SecureConnect (fingerprint256 : option json) | ConnectError | HandshakeTimeout.
Inductive tls_effect := DestroySocket | GiveError | HandOver.

(** [settle(err)]: only the first outcome counts. *)
Definition settle (settled err : bool) : bool * list tls_effect :=
  if settled then (true, []) else (true, if err then [DestroySocket; GiveError] else [HandOver]).

Definition on_tls (a : agent) (settled : bool) (e : tls_event) : bool * list tls_effect :=
  match e with
  | SecureConnect f => settle settled (negb (verifyPeer a f))
  | ConnectError => settle settled true
  | HandshakeTimeout => if 0 <? ag_timeoutMs a then settle settled true else (settled, [])
  end.

Fixpoint createConnection (a : agent) (settled : bool) (es : list tls_event) : list tls_effect :=
  match es with
  | [] => []
  | e :: es => let '(s, fx) := on_tls a settled e in fx ++ createConnection a s es
  end.

(** ** The cache of agents *)

Definition agent_key (host : jstr) (port : Z) (fingerprint : jstr) : jstr :=
  host ++ 124 :: show_Z port ++ 124 :: fingerprint.

Abbreviation agents := (list (jstr * agent)).

Definition getPinnedAgent (cache : agents) (host : jstr) (port : Z) (fingerprint : jstr) : agents * agent :=
  let key := agent_key host port fingerprint in
  match map_get cache key with
  | Some a => (cache, a)
  | None =>
      let cache := if MAX_CACHED_AGENTS <=? map_size cache then [] else cache in
      let a := Agent host port (Some fingerprint) 0 in
      (map_set cache key a, a)
  end.

(** Every agent of the cache stands under its own key. *)
Definition cache_ok (cache : agents) : Prop :=
  map_ok cache ∧ map_size cache ≤ MAX_CACHED_AGENTS ∧
  ∀ k a, map_get cache k = Some a → ∃ pin, ag_pin a = Some pin ∧ FINGERPRINT_RE pin = true ∧ 0 ≤ ag_port a ∧
    k = agent_key (ag_host a) (ag_port a) pin.

(** ** Facts *)

Lemma fingerprint_no_bar s : FINGERPRINT_RE s = true → 124 ∉ s.
Proof.
  intros [_ Hs]%andb_true_iff Hin%list_elem_of_In. rewrite forallb_forall in Hs. by apply Hs in Hin.
Qed.

Lemma show_Z_no_bar n : 0 ≤ n → 124 ∉ show_Z n.
Proof. intros [Hd _]%show_Z_spec Hin. rewrite Forall_forall in Hd. apply Hd in Hin. lia. Qed.

(** Read from its end, a key names one agent. *)
Lemma agent_key_inj h p f h' p' f' :
  FINGERPRINT_RE f = true → FINGERPRINT_RE f' = true → 0 ≤ p → 0 ≤ p' →
  agent_key h p f = agent_key h' p' f' → h = h' ∧ p = p' ∧ f = f'.
Proof.
  intros Hf%fingerprint_no_bar Hf'%fingerprint_no_bar Hp Hp' E. unfold agent_key in E.
  apply (f_equal reverse) in E. rewrite !reverse_app, !reverse_cons, !reverse_app, !reverse_cons, <- !app_assoc in E.
  cbn [app] in E. apply app_sep_inj in E as [Ef E]; [|by rewrite elem_of_reverse..].
  apply app_sep_inj in E as [Ep Eh]; [|rewrite elem_of_reverse; by apply show_Z_no_bar..].
  apply (inj reverse) in Ef, Ep, Eh. split_and!; [done | by apply show_Z_inj | done].
Qed.

Lemma normalizeFingerprint_form raw f : normalizeFingerprint raw = Some f → FINGERPRINT_RE f = true.
Proof.
  unfold normalizeFingerprint. destruct raw as [[| | |s| |]|]; try done. cbv zeta.
  destruct (FINGERPRINT_RE _) eqn:E; [|done]. by intros [= <-].
Qed.

Lemma settled_silent a es : createConnection a true es = [].
Proof. induction es as [|[f| |] es IH]; cbn; [done.. |]. by destruct (0 <? _). Qed.

(** The outcomes of a connection, and when it is handed out. *)
Definition outcome_ok (b : agent) (es : list tls_event) (fx : list tls_effect) : Prop :=
  (fx = [HandOver] ∨ fx = [DestroySocket; GiveError] ∨ fx = []) ∧
  (HandOver ∈ fx → ∃ pre f post pin, es = pre ++ SecureConnect f :: post ∧
     Forall (λ e, e = HandshakeTimeout ∧ ag_timeoutMs b ≤ 0) pre ∧ ag_pin b = Some pin ∧ normalizeFingerprint f = Some pin).

Lemma destroyed_ok b es : outcome_ok b es [DestroySocket; GiveError].
Proof. split; [by right; left |]. intros [?|[?|?%elem_of_nil]%elem_of_cons]%elem_of_cons; done. Qed.

Lemma createConnection_ok b es : outcome_ok b es (createConnection b false es).
Proof.
  induction es as [|e es IH]; cbn [createConnection]; [split; [by right; right | by intros ?%elem_of_nil] |].
  destruct e as [f| |]; cbn [on_tls settle].
  - rewrite settled_silent. unfold verifyPeer.
    destruct (normalizeFingerprint f) as [seen|] eqn:Hs; [|apply destroyed_ok].
    destruct (ag_pin b) as [pin|] eqn:Hpin; [|apply destroyed_ok].
    case_bool_decide; subst; [|apply destroyed_ok]. split; [by left |]. intros _. by exists [], f, es, pin.
  - rewrite settled_silent. apply destroyed_ok.
  - destruct (Z.ltb_spec 0 (ag_timeoutMs b)); cbn [settle app]; [rewrite settled_silent; apply destroyed_ok |].
    destruct IH as [IH1 IH2]; split; [done |]. intros (pre & f & post & pin & -> & Hpre & ?)%IH2.
    exists (HandshakeTimeout :: pre), f, post, pin. split; [done |]. split; [by constructor | done].
Qed.

Lemma cache_ok_set cache c host port fingerprint :
  cache_ok cache → 0 ≤ port → FINGERPRINT_RE fingerprint = true →
  map_ok c → map_size c < MAX_CACHED_AGENTS → map_get c (agent_key host port fingerprint) = None →
  (∀ k, map_get c k = map_get cache k ∨ map_get c k = None) →
  cache_ok (map_set c (agent_key host port fingerprint) (Agent host port (Some fingerprint) 0)).
Proof.
  intros (_ & _ & Hk) Hp Hf Hcm Hcs Hnew Hget. split_and!; [by apply map_set_ok | |].
  - apply map_get_None in Hnew. rewrite map_set_new by done. unfold map_size in *. rewrite length_app. cbn [length]. lia.
  - intros k a. rewrite map_get_set. case_decide as Hkk; [intros [= <-]; by exists fingerprint |].
    intros Ha. apply Hk. destruct (Hget k); congruence.
Qed.

Lemma getPinnedAgent_ok cache host port fingerprint :
  cache_ok cache → 0 ≤ port → FINGERPRINT_RE fingerprint = true →
  let '(cache', a) := getPinnedAgent cache host port fingerprint in
  cache_ok cache' ∧ ag_host a = host ∧ ag_port a = port ∧ ag_pin a = Some fingerprint.
Proof.
  intros Hc Hp Hf. unfold getPinnedAgent. pose proof Hc as (Hm & Hs & Hk).
  destruct (map_get cache _) as [a|] eqn:Hg.
  { destruct (Hk _ _ Hg) as (pin & Hap & Hfp & Hap' & E). by apply agent_key_inj in E as (-> & -> & ->). }
  split_and!; try done.
  destruct (Z.leb_spec MAX_CACHED_AGENTS (map_size cache)); apply (cache_ok_set cache); try done;
    [constructor | by right | by left].
Qed.

(** A pinned connection is handed out only after a handshake whose
    certificate has exactly the pinned fingerprint; otherwise it is destroyed,
    and the one who waits hears once; a probe without a pin never gets the
    connection; and the cache of agents never answers with an agent for
    another host, port or pin. *)
Theorem pinned_agent_safe cache host port fingerprint es :
  cache_ok cache → 0 ≤ port → FINGERPRINT_RE fingerprint = true →
  let '(cache', a) := getPinnedAgent cache host port fingerprint in
  let fx := createConnection a false es in
  cache_ok cache' ∧ ag_host a = host ∧ ag_port a = port ∧ ag_pin a = Some fingerprint ∧
  (fx = [HandOver] ∨ fx = [DestroySocket; GiveError] ∨ fx = []) ∧
  (HandOver ∈ fx → ∃ pre f post, es = pre ++ SecureConnect f :: post ∧
     Forall (λ e, e = HandshakeTimeout ∧ ag_timeoutMs a ≤ 0) pre ∧ normalizeFingerprint f = Some fingerprint) ∧
  (∀ t, HandOver ∉ createConnection (Agent host port None t) false es).
Proof.
  intros Hc Hp Hf. pose proof (getPinnedAgent_ok _ host port fingerprint Hc Hp Hf) as Hg.
  destruct (getPinnedAgent _ _ _ _) as [cache' a]. destruct Hg as (Hc' & Hh & Hport & Hpin).
  pose proof (createConnection_ok a es) as [H1 H2]. split_and!; try done.
  - intros (pre & f & post & pin & -> & ? & Hq & ?)%H2. exists pre, f, post. split_and!; congruence.
  - intros t (? & ? & ? & ? & _ & _ & [=] & _)%createConnection_ok.
Qed.
End TlsPin.

Lemma pinned_agent_safe_witness :
  let pin := replicate 64 97 in
  let '(cache, a) := getPinnedAgent [] (js "10.0.0.2") 443 pin in
  cache_ok cache ∧ @createConnection ascii_unicode a false [SecureConnect (Some (JStr pin))] = [HandOver].
Proof.
  cbv zeta. pose proof (@pinned_agent_safe ascii_unicode [] (js "10.0.0.2") 443 (replicate 64 97)
    [SecureConnect (Some (JStr (replicate 64 97)))]
    ltac:(split; [constructor | split; [vm_compute; discriminate | intros ? ? [=]]]) ltac:(lia) ltac:(vm_compute; reflexivity)) as Hs.
  destruct (getPinnedAgent _ _ _ _) as [cache a] eqn:E. cbv zeta in Hs |- *.
  split; [exact (proj1 Hs) |].
  vm_compute in E. injection E as <- <-. vm_compute. reflexivity.
Defined.
