(* ===== verification/NetProxy.v ===== *)
(** * src/edge/netProxy.js

    The network of the edge parts, run by the gateway: every call of [gc.lan]
    is checked against the capabilities of the plugin and the limits of the
    LAN.  A plugin's sockets and searches are a record; a call gives the new
    record, what it does to the network, and its answer, or it waits for an
    event. *)

From S2P Require Import Prelude JsBuffer JsMap JsValues JsText Crypto LanInterfaces LanGuard EdgeConstants Manifest Packages TlsPin.

Local Open Scope Z_scope.

Definition HTTP_METHODS : list jstr := js <$> ["GET"; "HEAD"; "POST"; "PUT"; "PATCH"; "DELETE"; "OPTIONS"].
Definition HOP_HEADERS : list jstr :=
  js <$> ["connection"; "keep-alive"; "proxy-connection"; "transfer-encoding"; "upgrade"; "te"; "trailer";
          "proxy-authorization"].
Definition TLS_PROBE_TIMEOUT_MS : Z := 10000.

(** What is a library here: [new URL(String(v))] and [s.toUpperCase()]. *)
Record url := Url { ur_protocol : jstr; ur_hostname : jstr; ur_username : jstr; ur_password : jstr; ur_port : option Z }.
Class Web := { url_of : option json → option url; toUpperCase : jstr → jstr }.

(** The guard at one moment: the nets it knows, the tunnel, the servers. *)
Record lan := Lan { ln_nets : list guard_net; ln_tunnel : option jstr; ln_servers : list jstr; ln_ifaces : list jstr }.

Definition denied : string := "denied".
Definition guard_check (l : lan) (multicast : list jstr) (host : option json) : res jstr :=
  match host with
  | Some (JStr h) =>
      match check_nets (ln_nets l) (ln_tunnel l) (ln_servers l) multicast h with Ok h => Ok h | _ => Throw denied end
  | _ => Throw denied
  end.
Definition guard_allowed (l : lan) (ip : jstr) : bool := allowed (guard_check l [] (Some (JStr ip))).

(** [checkPort(port)] of any value *)
Definition check_port (port : option json) : res Z :=
  match checkPort (port ≫= as_int) with Ok p => Ok p | _ => Throw denied end.

(** ** The state *)

Record udp_socket := UdpSocket { us_port : Z; us_groups : list jstr }.
Record net := Net {
  nt_udp : list (Z * udp_socket); nt_binding : list (Z * udp_socket);
  nt_tcp : list (Z * (jstr * Z)); nt_connecting : list (Z * (jstr * Z));
  nt_browses : list (Z * jstr); nt_ephemeral : bool; nt_nextId : Z }.
Definition newNet : net := Net [] [] [] [] [] false 0.

Inductive tls := NoTls | VerifyChain | Pinned (fingerprint : jstr).
Record http_call := HttpCall {
  hc_method : jstr; hc_protocol : jstr; hc_host : jstr; hc_port : Z; hc_headers : list (jstr * jstr);
  hc_body : list Z; hc_tls : tls; hc_timeout : num }.

(** What a plugin is told. *)
Inductive message :=
  | MUdp (id : Z) (bytes : list Z) (address : jstr) (port : Z)
  | MData (id : Z) (bytes : list Z) | MEnd (id : Z) | MError (id : Z) | MClose (id : Z)
  | MMdns (id : Z) (ip : jstr).

Inductive effect :=
  | BindUdp (id port : Z) (reuse : bool) | JoinGroup (id : Z) (group : jstr) (iface : option jstr) | CloseUdp (id : Z)
  | OpenEphemeral | CloseEphemeral
  | SendUdp (id : option Z) (bytes : list Z) (port : Z) (host : jstr)
  | Connect (id : Z) (host : jstr) (port : Z) | WriteTcp (id : Z) (bytes : list Z) | EndTcp (id : Z) | DestroyTcp (id : Z)
  | HttpRequest (c : http_call) | TlsProbe (host : jstr) (port : Z) (timeout : num)
  | Browse (id : Z) (service : jstr) | StopBrowse (id : Z)
  | ToChild (m : message).

(** The answer to a call: an error, a result, or a later one. *)
Inductive reply := REmpty | RId (id : Z) | RIdPort (id port : Z).
Inductive outcome := Done (r : res reply) | Wait.
Abbreviation step_result := (net * list effect * outcome)%type.

Definition refuse (n : net) (e : string) : step_result := (n, [], Done (Throw e)).

(** [args.k]; [k = default] in a pattern. *)
Definition arg (a : list (jstr * json)) (k : string) : option json := field a (js k).
Definition present (v : option json) : bool := match v with None | Some JNull => false | _ => true end.
Definition id_of (v : option json) : option Z := v ≫= as_int.

Section NetProxy.
Context `{Unicode} `{Node} `{Numbers} `{Web}.

Definition decodeB64 (b64 : option json) (max : Z) : res (list Z) :=
  match b64 with
  | None | Some JNull => Ok []
  | Some (JStr s) => let buf := from_base64 s in if max <? blen buf then Throw "too_large" else Ok buf
  | Some _ => Throw "bad_request"
  end.

(** ** UDP *)

(** [l.includes(v)] for a list of strings or numbers *)
Definition has_str (l : list jstr) (v : json) : bool := match v with JStr s => bool_decide (s ∈ l) | _ => false end.
Definition strings (l : list json) : list jstr := omap as_str l.

Definition udpBind (n : net) (c : caps) (a : list (jstr * json)) : step_result :=
  match c_udp c, id_of (arg a "port") with
  | Some u, Some port =>
      if negb (bool_decide (port ∈ u_ports u)) then refuse n denied
      else
        let groups := match arg a "multicast" with Some (JArr l) => l | _ => [] end in
        if negb (forallb (has_str (u_multicast u)) groups) then refuse n denied
        else if LIMITS.udpSocketsPerPlugin <=? map_size (nt_udp n) then refuse n "busy"
        else
          let id := nt_nextId n + 1 in
          (Net (nt_udp n) (nt_binding n ++ [(id, UdpSocket port (strings groups))]) (nt_tcp n) (nt_connecting n)
             (nt_browses n) (nt_ephemeral n) id,
           [BindUdp id port (0 <? Z.of_nat (length groups))], Wait)
  | _, _ => refuse n denied
  end.

(** The socket is bound: it joins its groups, on every LAN interface or, when
    there is none, without one. *)
Definition lanInterfaceAddrs (l : lan) : list jstr := filter (λ a, guard_allowed l a = true) (ln_ifaces l).
Definition udp_bound (n : net) (l : lan) (id : Z) (ok : bool) : step_result :=
  match map_get (nt_binding n) id with
  | None => (n, [], Wait)
  | Some s =>
      let n' udp := Net udp (map_delete (nt_binding n) id) (nt_tcp n) (nt_connecting n) (nt_browses n) (nt_ephemeral n) (nt_nextId n) in
      if negb ok then (n' (nt_udp n), [CloseUdp id], Done (Throw "net_error"))
      else
        let joins g := match lanInterfaceAddrs l with [] => [JoinGroup id g None] | ifs => (λ ip, JoinGroup id g (Some ip)) <$> ifs end in
        (n' (map_set (nt_udp n) id s), us_groups s ≫= joins, Done (Ok (RIdPort id (us_port s))))
  end.

(** A datagram arrives at a bound socket or, [id = 0], at the common one. *)
Definition datagram (l : lan) (id : Z) (bytes : list Z) (address : jstr) (port : Z) : list effect :=
  if guard_allowed l address then [ToChild (MUdp id (subarray bytes 0 LIMITS.udpDatagramBytes) address port)] else [].

Definition udpSend (n : net) (c : caps) (l : lan) (a : list (jstr * json)) : step_result :=
  match c_udp c with
  | None => refuse n denied
  | Some u =>
      match guard_check l (u_multicast u) (arg a "host") with
      | Ok host =>
          match check_port (arg a "port") with
          | Ok port =>
              match decodeB64 (arg a "b64") LIMITS.udpDatagramBytes with
              | Ok buf =>
                  if present (arg a "id") then
                    match id_of (arg a "id") ≫= λ id, (λ _, id) <$> map_get (nt_udp n) id with
                    | Some id => (n, [SendUdp (Some id) buf port host], Wait)
                    | None => refuse n "not_found"
                    end
                  else
                    (Net (nt_udp n) (nt_binding n) (nt_tcp n) (nt_connecting n) (nt_browses n) true (nt_nextId n),
                     (if nt_ephemeral n then [] else [OpenEphemeral]) ++ [SendUdp None buf port host], Wait)
              | Throw e => refuse n e
              | NoFuel => refuse n denied
              end
          | _ => refuse n denied
          end
      | _ => refuse n denied
      end
  end.

Definition udpClose (n : net) (a : list (jstr * json)) : step_result :=
  match id_of (arg a "id") ≫= λ id, (λ _, id) <$> map_get (nt_udp n) id with
  | Some id =>
      (Net (map_delete (nt_udp n) id) (nt_binding n) (nt_tcp n) (nt_connecting n) (nt_browses n) (nt_ephemeral n) (nt_nextId n),
       [CloseUdp id], Done (Ok REmpty))
  | None => (n, [], Done (Ok REmpty))
  end.

(** ** TCP *)

Definition tcpConnect (n : net) (c : caps) (l : lan) (a : list (jstr * json)) : step_result :=
  if negb (bool_decide (c_tcp c = Some true)) then refuse n denied
  else
    match guard_check l [] (arg a "host"), check_port (arg a "port") with
    | Ok host, Ok port =>
        if LIMITS.tcpSocketsPerPlugin <=? map_size (nt_tcp n) then refuse n "busy"
        else
          let id := nt_nextId n + 1 in
          (Net (nt_udp n) (nt_binding n) (nt_tcp n) (nt_connecting n ++ [(id, (host, port))]) (nt_browses n) (nt_ephemeral n) id,
           [Connect id host port], Wait)
    | _, _ => refuse n denied
    end.

(** The connection is there, failed or took too long ([timeout] destroys it). *)
Definition tcp_connected (n : net) (id : Z) : step_result :=
  match map_get (nt_connecting n) id with
  | None => (n, [], Wait)
  | Some t =>
      (Net (nt_udp n) (nt_binding n) (map_set (nt_tcp n) id t) (map_delete (nt_connecting n) id) (nt_browses n)
         (nt_ephemeral n) (nt_nextId n), [], Done (Ok (RId id)))
  end.
Definition tcp_failed (n : net) (id : Z) (timeout : bool) : step_result :=
  match map_get (nt_connecting n) id with
  | None => (n, [], Wait)
  | Some _ =>
      (Net (nt_udp n) (nt_binding n) (nt_tcp n) (map_delete (nt_connecting n) id) (nt_browses n) (nt_ephemeral n) (nt_nextId n),
       if timeout then [DestroyTcp id] else [], Done (Throw (if timeout then "timeout" else "net_error")))
  end.
(** [close] of a socket; only a known one is reported. *)
Definition tcp_closed (n : net) (id : Z) : step_result :=
  match map_get (nt_tcp n) id with
  | None => (n, [], Wait)
  | Some _ =>
      (Net (nt_udp n) (nt_binding n) (map_delete (nt_tcp n) id) (nt_connecting n) (nt_browses n) (nt_ephemeral n) (nt_nextId n),
       [ToChild (MClose id)], Wait)
  end.

(** [writableLength]: what the socket has not sent yet. *)
Definition tcpWrite (n : net) (writableLength : Z) (a : list (jstr * json)) : step_result :=
  match id_of (arg a "id") ≫= λ id, (λ _, id) <$> map_get (nt_tcp n) id with
  | None => refuse n "not_found"
  | Some id =>
      match decodeB64 (arg a "b64") LIMITS.tcpWriteBufferBytes with
      | Ok buf =>
          if LIMITS.tcpWriteBufferBytes <? writableLength + blen buf then refuse n "busy" else (n, [WriteTcp id buf], Wait)
      | Throw e => refuse n e
      | NoFuel => refuse n denied
      end
  end.

Definition tcpEnd (n : net) (a : list (jstr * json)) : step_result :=
  match id_of (arg a "id") ≫= λ id, (λ _, id) <$> map_get (nt_tcp n) id with
  | Some id => (n, [EndTcp id], Done (Ok REmpty))
  | None => (n, [], Done (Ok REmpty))
  end.
Definition tcpDestroy (n : net) (a : list (jstr * json)) : step_result :=
  match id_of (arg a "id") ≫= λ id, (λ _, id) <$> map_get (nt_tcp n) id with
  | Some id =>
      (Net (nt_udp n) (nt_binding n) (map_delete (nt_tcp n) id) (nt_connecting n) (nt_browses n) (nt_ephemeral n) (nt_nextId n),
       [DestroyTcp id], Done (Ok REmpty))
  | None => (n, [], Done (Ok REmpty))
  end.

(** ** HTTP *)

(** [Math.max(1000, Math.min(httpTimeoutMaxMs, v))], [dflt] without a finite number *)
Definition http_limit (v : option json) (dflt : Z) : num :=
  num_max (NInt 1000) (num_min (NInt LIMITS.httpTimeoutMaxMs)
    (match v with Some (JNum t) => if is_finite t then t else NInt dflt | _ => NInt dflt end)).

Definition tlsOptions (u : url) (pinSha256 : option json) : res tls :=
  if negb (bool_decide (ur_protocol u = js "https:")) then
    (if truthy pinSha256 then Throw "bad_request" else Ok NoTls)
  else if present pinSha256 then
    match normalizeFingerprint pinSha256 with Some fp => Ok (Pinned fp) | None => Throw "bad_request" end
  else Ok VerifyChain.

Definition tlsFingerprint (n : net) (c : caps) (l : lan) (a : list (jstr * json)) : step_result :=
  if negb (bool_decide (c_http c = Some true) || bool_decide (c_tcp c = Some true)) then refuse n denied
  else
    match guard_check l [] (arg a "host"), check_port (Some (default (JNum (NInt 443)) (arg a "port"))) with
    | Ok host, Ok port => (n, [TlsProbe host port (http_limit (arg a "timeoutMs") TLS_PROBE_TIMEOUT_MS)], Wait)
    | _, _ => refuse n denied
    end.

(** [[a-z0-9!#$%&'*+.^_`|~-]] *)
Definition header_unit (c : Z) : bool := is_digit c || is_lower c || bool_decide (c ∈ js "!#$%&'*+.^_`|~-").

Definition header_value (v : json) : option jstr :=
  match v with JStr s => Some s | JNum n => Some (number_text n) | _ => None end.

(** One entry of [headers]; a key [__proto__] sets nothing. *)
Definition add_header (h : list (jstr * jstr)) (e : jstr * json) : list (jstr * jstr) :=
  let key := toLowerCase e.1 in
  if negb (forallb header_unit key && (1 <=? str_len key) && (str_len key <=? 64)) || bool_decide (key ∈ HOP_HEADERS) then h
  else
    match header_value e.2 with
    | Some val =>
        if existsb (λ c, (c =? 13) || (c =? 10) || (c =? 0)) val || (4096 <? str_len val) || bool_decide (key = js "__proto__")
        then h else map_set h key val
    | None => h
    end.

(** [Object.entries(headers)] *)
Definition header_entries (v : option json) : list (jstr * json) :=
  match v with Some (JObj f) => f | Some (JArr l) => imap (λ i x, (show_Z (Z.of_nat i), x)) l | _ => [] end.

Definition httpRequest (n : net) (c : caps) (l : lan) (a : list (jstr * json)) : step_result :=
  if negb (bool_decide (c_http c = Some true)) then refuse n denied
  else if present (arg a "insecure") && negb (is_false (arg a "insecure")) then refuse n denied
  else
    match url_of (arg a "url") with
    | None => refuse n "bad_request"
    | Some u =>
        let https := bool_decide (ur_protocol u = js "https:") in
        if negb https && negb (bool_decide (ur_protocol u = js "http:")) then refuse n "bad_request"
        else if nonempty (ur_username u) || nonempty (ur_password u) then refuse n "bad_request"
        else
          match guard_check l [] (Some (JStr (ur_hostname u))),
                check_port (Some (JNum (NInt (default (if https then 443 else 80) (ur_port u))))) with
          | Ok host, Ok port =>
              match String_ (default (JStr (js "GET")) (arg a "method")) with
              | Ok method =>
                  let m := toUpperCase method in
                  if negb (bool_decide (m ∈ HTTP_METHODS)) then refuse n "bad_request"
                  else
                    match decodeB64 (arg a "b64") LIMITS.httpRequestBytes with
                    | Ok body =>
                        let h := fold_left add_header (header_entries (arg a "headers")) [] in
                        let h := if 0 <? blen body then map_set h (js "content-length") (show_Z (blen body)) else h in
                        match tlsOptions u (arg a "pinSha256") with
                        | Ok t =>
                            (n, [HttpRequest (HttpCall m (ur_protocol u) host port h body t
                                   (http_limit (arg a "timeoutMs") LIMITS.httpTimeoutMaxMs))], Wait)
                        | Throw e => refuse n e
                        | NoFuel => refuse n denied
                        end
                    | Throw e => refuse n e
                    | NoFuel => refuse n denied
                    end
              | _ => refuse n "edge_error"
              end
          | _, _ => refuse n denied
          end
    end.

(** The body of the answer. *)
Definition http_body (chunks : list (list Z)) : res (list Z) := collect LIMITS.httpResponseBytes 0 chunks.

(** ** mDNS and serial devices *)

(** [mdns]: whether the service starts; [None] without one. *)
Definition mdnsBrowse (n : net) (c : caps) (mdns : option bool) (a : list (jstr * json)) : step_result :=
  match c_mdns c, arg a "service" with
  | Some services, Some (JStr service) =>
      if negb (bool_decide (service ∈ services)) then refuse n denied
      else if bool_decide (mdns = None) then refuse n "not_available"
      else if LIMITS.mdnsBrowsesPerPlugin <=? map_size (nt_browses n) then refuse n "busy"
      else
        let id := nt_nextId n + 1 in
        let n' browses := Net (nt_udp n) (nt_binding n) (nt_tcp n) (nt_connecting n) browses (nt_ephemeral n) id in
        if bool_decide (mdns = Some true)
        then (n' (map_set (nt_browses n) id service), [Browse id service], Done (Ok (RId id)))
        else refuse (n' (nt_browses n)) "not_available"
  | _, _ => refuse n denied
  end.
Definition mdns_found (l : lan) (id : Z) (ip : jstr) : list effect :=
  if guard_allowed l ip then [ToChild (MMdns id ip)] else [].
Definition mdnsStop (n : net) (a : list (jstr * json)) : step_result :=
  match id_of (arg a "id") ≫= λ id, (λ _, id) <$> map_get (nt_browses n) id with
  | Some id =>
      (Net (nt_udp n) (nt_binding n) (nt_tcp n) (nt_connecting n) (map_delete (nt_browses n) id) (nt_ephemeral n) (nt_nextId n),
       [StopBrowse id], Done (Ok REmpty))
  | None => (n, [], Done (Ok REmpty))
  end.

Definition serialOpen (n : net) (c : caps) (a : list (jstr * json)) : step_result :=
  match c_serial c, arg a "name" with
  | Some s, Some (JStr name) => refuse n (if bool_decide (name ∈ s) then "not_available" else denied)
  | _, _ => refuse n denied
  end.

(** [closeAll()]: sockets that are still being bound or connected stay. *)
Definition closeAll (n : net) : net * list effect :=
  (Net [] (nt_binding n) [] (nt_connecting n) [] false (nt_nextId n),
   (CloseUdp <$> (nt_udp n).*1) ++ (if nt_ephemeral n then [CloseEphemeral] else [])
   ++ (DestroyTcp <$> (nt_tcp n).*1) ++ (StopBrowse <$> (nt_browses n).*1)).

(** ** The calls by name *)

Inductive api := UdpBind | UdpSend | UdpClose | TcpConnect | TcpWrite | TcpEnd | TcpDestroy | HttpReq | TlsFingerprint
  | MdnsBrowse | MdnsStop | SerialOpen.
Definition NET_APIS : list (jstr * api) :=
  [(js "udp.bind", UdpBind); (js "udp.send", UdpSend); (js "udp.close", UdpClose); (js "tcp.connect", TcpConnect);
   (js "tcp.write", TcpWrite); (js "tcp.end", TcpEnd); (js "tcp.destroy", TcpDestroy); (js "http.request", HttpReq);
   (js "tls.fingerprint", TlsFingerprint); (js "mdns.browse", MdnsBrowse); (js "mdns.stop", MdnsStop);
   (js "serial.open", SerialOpen)].

(** What a call sees of the gateway: the guard, whether there is mDNS, the
    bytes each connection still has to send. *)
Record world := World { wd_lan : lan; wd_mdns : option bool; wd_writableLength : Z }.

Definition net_call (n : net) (c : caps) (w : world) (f : api) (a : list (jstr * json)) : step_result :=
  match f with
  | UdpBind => udpBind n c a
  | UdpSend => udpSend n c (wd_lan w) a
  | UdpClose => udpClose n a
  | TcpConnect => tcpConnect n c (wd_lan w) a
  | TcpWrite => tcpWrite n (wd_writableLength w) a
  | TcpEnd => tcpEnd n a
  | TcpDestroy => tcpDestroy n a
  | HttpReq => httpRequest n c (wd_lan w) a
  | TlsFingerprint => tlsFingerprint n c (wd_lan w) a
  | MdnsBrowse => mdnsBrowse n c (wd_mdns w) a
  | MdnsStop => mdnsStop n a
  | SerialOpen => serialOpen n c a
  end.

(** ** What can happen *)

Inductive net_input :=
  | NCall (c : caps) (w : world) (f : api) (a : list (jstr * json))
  | NBound (l : lan) (id : Z) (ok : bool) | NDatagram (l : lan) (id : Z) (bytes : list Z) (address : jstr) (port : Z)
  | NConnected (id : Z) | NFailed (id : Z) (timeout : bool) | NClosed (id : Z)
  | NData (id : Z) (bytes : list Z) | NEnd (id : Z) | NError (id : Z)
  | NFound (l : lan) (id : Z) (ip : jstr) | NCloseAll.

Definition net_step (n : net) (i : net_input) : net * list effect :=
  match i with
  | NCall c w f a => (net_call n c w f a).1
  | NBound l id ok => (udp_bound n l id ok).1
  | NDatagram l id bytes address port => (n, datagram l id bytes address port)
  | NConnected id => (tcp_connected n id).1
  | NFailed id timeout => (tcp_failed n id timeout).1
  | NClosed id => (tcp_closed n id).1
  | NData id bytes => (n, [ToChild (MData id bytes)])
  | NEnd id => (n, [ToChild (MEnd id)])
  | NError id => (n, [ToChild (MError id)])
  | NFound l id ip => (n, mdns_found l id ip)
  | NCloseAll => closeAll n
  end.

Fixpoint net_run (n : net) (is_ : list net_input) : net * list (net_input * list effect) :=
  match is_ with
  | [] => (n, [])
  | i :: is_ => let '(n, fx) := net_step n i in let '(n', r) := net_run n is_ in (n', (i, fx) :: r)
  end.
End NetProxy.
