(* ===== verification/NetProxyFacts.v ===== *)
(** * Properties of the network of the edge parts

    Whatever a plugin asks for, in any order and with any arguments, and
    whatever the network answers, the gateway does only what the plugin's
    capabilities and the limits of the LAN permit. *)

From S2P Require Import Prelude JsBuffer JsMap JsValues JsText Crypto LanInterfaces LanGuard EdgeConstants Manifest Packages TlsPin NetProxy.

Local Open Scope Z_scope.

(** ** What is permitted *)

Definition lan_target (l : lan) (multicast : list jstr) (host : jstr) : Prop :=
  check_nets (ln_nets l) (ln_tunnel l) (ln_servers l) multicast host = Ok host.
Definition port_ok (p : Z) : Prop := 1 ≤ p ≤ 65535.
Definition within (t : num) (lo hi : Z) : Prop := num_lt t (NInt lo) = false ∧ num_lt (NInt hi) t = false.

(** A header can neither end the header block nor change how the message ends. *)
Definition header_ok (h : jstr * jstr) : Prop :=
  Forall (λ c, header_unit c = true) h.1 ∧ h.1 ≠ [] ∧ (h.1 ∉ HOP_HEADERS) ∧ Forall (λ c, c ≠ 13 ∧ c ≠ 10 ∧ c ≠ 0) h.2.

Definition tls_ok (protocol : jstr) (t : tls) : Prop :=
  match t with
  | NoTls => protocol = js "http:"
  | VerifyChain => protocol = js "https:"
  | Pinned fp => protocol = js "https:" ∧ FINGERPRINT_RE fp = true
  end.

Definition http_ok (l : lan) (c : http_call) : Prop :=
  lan_target l [] (hc_host c) ∧ port_ok (hc_port c) ∧ hc_method c ∈ HTTP_METHODS ∧ Forall header_ok (hc_headers c) ∧
  blen (hc_body c) ≤ LIMITS.httpRequestBytes ∧ tls_ok (hc_protocol c) (hc_tls c) ∧
  within (hc_timeout c) 1000 LIMITS.httpTimeoutMaxMs.

(** What a call may do to the network under the capabilities [c] on the LAN [l]. *)
Definition effect_ok (c : caps) (l : lan) (e : effect) : Prop :=
  match e with
  | BindUdp _ port _ => ∃ u, c_udp c = Some u ∧ port ∈ u_ports u
  | SendUdp _ bytes port host =>
      ∃ u, c_udp c = Some u ∧ lan_target l (u_multicast u) host ∧ port_ok port ∧ blen bytes ≤ LIMITS.udpDatagramBytes
  | Connect _ host port => c_tcp c = Some true ∧ lan_target l [] host ∧ port_ok port
  | WriteTcp _ bytes => blen bytes ≤ LIMITS.tcpWriteBufferBytes
  | HttpRequest h => c_http c = Some true ∧ http_ok l h
  | TlsProbe host port t =>
      (c_http c = Some true ∨ c_tcp c = Some true) ∧ lan_target l [] host ∧ port_ok port ∧ within t 1000 LIMITS.httpTimeoutMaxMs
  | Browse _ service => ∃ s, c_mdns c = Some s ∧ service ∈ s
  | OpenEphemeral | CloseUdp _ | EndTcp _ | DestroyTcp _ | StopBrowse _ => True
  | JoinGroup _ _ _ | CloseEphemeral | ToChild _ => False
  end.

(** ** The checks *)

Lemma guard_check_Ok l multicast host h : guard_check l multicast host = Ok h → lan_target l multicast h.
Proof.
  unfold guard_check, lan_target. destruct host as [[| | |s| |]|]; try done.
  destruct (check_nets _ _ _ _ s) as [h'| |] eqn:E; try done. intros [= <-].
  assert (h' = s) as ->; [|done]. unfold check_nets in E. repeat (case_match; try done); congruence.
Qed.

Lemma guard_allowed_target l ip : guard_allowed l ip = true → lan_target l [] ip.
Proof.
  unfold guard_allowed. destruct (guard_check l [] (Some (JStr ip))) as [h| |] eqn:E; [|done..]. intros _.
  pose proof (guard_check_Ok _ _ _ _ E) as Ht. assert (h = ip) as ->; [|done].
  unfold guard_check in E. destruct (check_nets _ _ _ _ ip) as [h'| |] eqn:E'; try done. injection E as <-.
  unfold check_nets in E'. repeat (case_match; try done); congruence.
Qed.

Lemma check_port_Ok p n : check_port p = Ok n → port_ok n.
Proof. unfold check_port, checkPort, port_ok. destruct (p ≫= as_int) as [z|]; [|done].
  destruct (_ || _) eqn:E; [done |]. intros [= <-]. lia. Qed.

Lemma http_limit_within v d : 1000 ≤ d ≤ 30000 → within (http_limit v d) 1000 LIMITS.httpTimeoutMaxMs.
Proof.
  intros Hd. unfold within, http_limit, LIMITS.httpTimeoutMaxMs.
  set (t := match v with Some (JNum t) => if is_finite t then t else NInt d | _ => NInt d end).
  assert (is_finite t = true) as Hf by (unfold t; repeat case_match; done). clearbody t.
  destruct t as [z|m e|]; [| |done]; unfold num_max, num_min; cbn [num_lt].
  - destruct (Z.ltb_spec z 30000); cbn [num_lt]; [destruct (Z.ltb_spec 1000 z) | done]; cbn [num_lt]; lia.
  - destruct (Z.ltb_spec m (30000 * 2 ^ Z.pos e)); cbn [num_lt]; [|done].
    destruct (Z.ltb_spec (1000 * 2 ^ Z.pos e) m); cbn [num_lt]; lia.
Qed.

Section Facts.
Context `{Unicode} `{Node} `{Numbers} `{Web}.

Lemma decodeB64_Ok b max buf : 0 ≤ max → decodeB64 b max = Ok buf → blen buf ≤ max.
Proof.
  intros Hm. assert (∀ buf : list Z, Ok [] = Ok buf → blen buf ≤ max) as Hnil by (by intros ? [= <-]).
  unfold decodeB64. destruct b as [[| | |s| |]|]; try done; try apply Hnil.
  destruct (Z.ltb_spec max (blen (from_base64 s))); [done |]. by intros [= <-].
Qed.

Lemma add_header_ok h e : Forall header_ok h → Forall header_ok (add_header h e).
Proof.
  intros Hh. unfold add_header. case_match eqn:Hk; [done |]. destruct (header_value e.2) as [val|]; [|done].
  case_match eqn:Hv; [done |]. apply orb_false_iff in Hk as [Hk Hhop%bool_decide_eq_false].
  rewrite negb_false_iff, !andb_true_iff, forallb_Forall in Hk. destruct Hk as [[Hu Hlen] _].
  rewrite !orb_false_iff, existsb_Forall in Hv. destruct Hv as [[Hc _] _].
  apply map_set_Forall; [done |]. split_and!; cbn [fst snd]; [done | | done |].
  - intros Hn. rewrite Hn in Hlen. done.
  - eapply Forall_impl; [exact Hc |]. cbn. intros c Hx. lia.
Qed.

Lemma headers_ok entries h : Forall header_ok h → Forall header_ok (fold_left add_header entries h).
Proof. revert h. induction entries as [|e l IH]; intros h Hh; [done |]. apply IH. by apply add_header_ok. Qed.

Lemma content_length_ok h n : 0 ≤ n → Forall header_ok h → Forall header_ok (map_set h (js "content-length") (show_Z n)).
Proof.
  intros Hn Hh. apply map_set_Forall; [done |]. split_and!; cbn [fst snd].
  - apply forallb_Forall. by vm_compute.
  - done.
  - apply (bool_decide_unpack _). by vm_compute.
  - eapply Forall_impl; [by apply show_Z_spec |]. cbn. lia.
Qed.

Lemma tlsOptions_ok u pin t : (ur_protocol u = js "https:" ∨ ur_protocol u = js "http:") →
  tlsOptions u pin = Ok t → tls_ok (ur_protocol u) t.
Proof.
  unfold tlsOptions. case_bool_decide as Hs; cbn [negb].
  - intros _. destruct (present pin); [|by intros [= <-]].
    destruct (normalizeFingerprint pin) as [fp|] eqn:Hf; [|done]. intros [= <-]. split; [done |].
    by eapply normalizeFingerprint_form.
  - intros [?|Hp]; [done |]. destruct (truthy pin); [done |]. by intros [= <-].
Qed.

(** The effects of one operation, and whatever the call is. *)
Ltac effects := repeat first [apply Forall_cons; split | apply Forall_nil | exact I].

Lemma httpRequest_ok n c l a : Forall (effect_ok c l) (httpRequest n c l a).1.2.
Proof.
  unfold httpRequest. case_bool_decide as Hc; [|constructor]. cbn [negb]. destruct (_ && _); [constructor |].
  destruct (url_of _) as [u|]; [|constructor]. destruct (negb _ && negb _) eqn:Hp; [constructor |].
  destruct (_ || _); [constructor |].
  destruct (guard_check _ _ _) as [host| |] eqn:Hh; [|constructor..]. destruct (check_port _) as [port| |] eqn:Hport; [|constructor..].
  destruct (String_ _) as [method| |]; [|constructor..].
  destruct (bool_decide (toUpperCase _ ∈ HTTP_METHODS)) eqn:Hm; [|constructor]. apply bool_decide_eq_true in Hm.
  cbn [negb]. destruct (decodeB64 _ _) as [body| |] eqn:Hb; [|constructor..].
  destruct (tlsOptions _ _) as [t| |] eqn:Ht; [|constructor..]. effects.
  split; [done |]. unfold http_ok. cbn. split_and!.
  - by eapply guard_check_Ok.
  - by eapply check_port_Ok.
  - done.
  - destruct (0 <? blen body); [apply content_length_ok; [apply blen_nonneg |] |]; apply headers_ok; constructor.
  - apply decodeB64_Ok in Hb; [done | by vm_compute].
  - eapply tlsOptions_ok; [|done]. rewrite andb_false_iff, !negb_false_iff, !bool_decide_eq_true in Hp. tauto.
  - by apply http_limit_within.
Qed.

Lemma udpSend_ok n c l a : Forall (effect_ok c l) (udpSend n c l a).1.2.
Proof.
  unfold udpSend. destruct (c_udp c) as [u|] eqn:Hu; [|constructor].
  destruct (guard_check _ _ _) as [host| |] eqn:Hh; [|constructor..]. destruct (check_port _) as [port| |] eqn:Hport; [|constructor..].
  destruct (decodeB64 _ _) as [buf| |] eqn:Hb; [|constructor..].
  assert (∀ id, effect_ok c l (SendUdp id buf port host)) as Hs.
  { intros id. exists u. split_and!; [done | by eapply guard_check_Ok | by eapply check_port_Ok |].
    apply decodeB64_Ok in Hb; [done | by vm_compute]. }
  destruct (present _); [destruct (_ ≫= _); [|constructor] | destruct (nt_ephemeral n)]; effects; apply Hs.
Qed.

(** Whatever a call asks for, what it does is permitted. *)
Lemma net_call_ok n c w f a : Forall (effect_ok c (wd_lan w)) (net_call n c w f a).1.2.
Proof.
  destruct f; cbn [net_call]; [| apply udpSend_ok | | | | | | apply httpRequest_ok | | | |].
  - unfold udpBind. destruct (c_udp c) as [u|] eqn:Hu; [|constructor]. destruct (id_of _) as [port|]; [|constructor].
    case_bool_decide; [|constructor]. cbn [negb]. destruct (negb _); [constructor |].
    destruct (_ <=? _); [constructor |]. effects. by exists u.
  - unfold udpClose. destruct (_ ≫= _); effects.
  - unfold tcpConnect. case_bool_decide; [|constructor]. cbn [negb].
    destruct (guard_check _ _ _) as [host| |] eqn:Hh; [|constructor..]. destruct (check_port _) as [port| |] eqn:Hport; [|constructor..].
    destruct (_ <=? _); [constructor |]. effects. split_and!; [done | by eapply guard_check_Ok | by eapply check_port_Ok].
  - unfold tcpWrite. destruct (_ ≫= _); [|constructor]. destruct (decodeB64 _ _) as [buf| |] eqn:Hb; [|constructor..].
    destruct (_ <? _); [constructor |]. effects. cbn. apply decodeB64_Ok in Hb; [done | by vm_compute].
  - unfold tcpEnd. destruct (_ ≫= _); effects.
  - unfold tcpDestroy. destruct (_ ≫= _); effects.
  - unfold tlsFingerprint. destruct (negb _) eqn:Hc; [constructor |]. rewrite negb_false_iff, orb_true_iff, !bool_decide_eq_true in Hc.
    destruct (guard_check _ _ _) as [host| |] eqn:Hh; [|constructor..]. destruct (check_port _) as [port| |] eqn:Hport; [|constructor..].
    effects. split_and!; [done | by eapply guard_check_Ok | by eapply check_port_Ok | by apply http_limit_within].
  - unfold mdnsBrowse. destruct (c_mdns c) as [s|] eqn:Hs; [|constructor]. destruct (arg a "service") as [[| | |v| |]|]; try constructor.
    case_bool_decide; [|constructor]. cbn [negb]. destruct (bool_decide (_ = None)); [constructor |].
    destruct (_ <=? _); [constructor |]. destruct (bool_decide _); [|constructor]. effects. by exists s.
  - unfold mdnsStop. destruct (_ ≫= _); effects.
  - unfold serialOpen. repeat case_match; constructor.
Qed.

(** ** Runs *)

Definition approved_socket (hist : list net_input) (s : udp_socket) : Prop :=
  ∃ c w a u, NCall c w UdpBind a ∈ hist ∧ c_udp c = Some u ∧ us_port s ∈ u_ports u ∧ us_groups s ⊆ u_multicast u.
Definition approved_connection (hist : list net_input) (t : jstr * Z) : Prop :=
  ∃ c w a, NCall c w TcpConnect a ∈ hist ∧ c_tcp c = Some true ∧ lan_target (wd_lan w) [] t.1 ∧ port_ok t.2.
Definition approved_browse (hist : list net_input) (service : jstr) : Prop :=
  ∃ c w a l, NCall c w MdnsBrowse a ∈ hist ∧ c_mdns c = Some l ∧ service ∈ l.

(** Every socket and search of a plugin was approved when it was asked for. *)
Record net_inv (hist : list net_input) (n : net) : Prop := {
  ni_udp : Forall (λ e, approved_socket hist e.2) (nt_udp n);
  ni_binding : Forall (λ e, approved_socket hist e.2) (nt_binding n);
  ni_tcp : Forall (λ e, approved_connection hist e.2) (nt_tcp n);
  ni_connecting : Forall (λ e, approved_connection hist e.2) (nt_connecting n);
  ni_browses : Forall (λ e, approved_browse hist e.2) (nt_browses n) }.

(** What a step may do, given the calls before it. *)
Definition step_ok (hist : list net_input) (i : net_input) (fx : list effect) : Prop :=
  match i with
  | NCall c w f a => Forall (effect_ok c (wd_lan w)) fx
  | NBound l id ok => ∀ e, e ∈ fx → e = CloseUdp id ∨ ∃ g iface s, e = JoinGroup id g iface ∧ approved_socket hist s ∧
      g ∈ us_groups s ∧ ∀ ip, iface = Some ip → lan_target l [] ip
  | NDatagram l id bytes address port => ∀ e, e ∈ fx → ∃ b, e = ToChild (MUdp id b address port) ∧
      lan_target l [] address ∧ blen b ≤ LIMITS.udpDatagramBytes
  | NFound l id ip => ∀ e, e ∈ fx → e = ToChild (MMdns id ip) ∧ lan_target l [] ip
  | NConnected id => fx = []
  | NFailed id _ => ∀ e, e ∈ fx → e = DestroyTcp id
  | NClosed id => ∀ e, e ∈ fx → e = ToChild (MClose id)
  | NData id b => fx = [ToChild (MData id b)]
  | NEnd id => fx = [ToChild (MEnd id)]
  | NError id => fx = [ToChild (MError id)]
  | NCloseAll => ∀ e, e ∈ fx → e = CloseEphemeral ∨ ∃ id, e = CloseUdp id ∨ e = DestroyTcp id ∨ e = StopBrowse id
  end.

Fixpoint trace_ok (hist : list net_input) (tr : list (net_input * list effect)) : Prop :=
  match tr with [] => True | (i, fx) :: tr => step_ok hist i fx ∧ trace_ok (hist ++ [i]) tr end.

Lemma approved_mono hist i :
  (∀ s, approved_socket hist s → approved_socket (hist ++ [i]) s) ∧
  (∀ t, approved_connection hist t → approved_connection (hist ++ [i]) t) ∧
  (∀ s, approved_browse hist s → approved_browse (hist ++ [i]) s).
Proof.
  assert (∀ x, x ∈ hist → x ∈ hist ++ [i]) as Hin by (intros; apply elem_of_app; by left).
  split_and!.
  - intros s (c & w & a & u & ?%Hin & ?). by exists c, w, a, u.
  - intros s (c & w & a & ?%Hin & ?). by exists c, w, a.
  - intros s (c & w & a & l & ?%Hin & ?). by exists c, w, a, l.
Qed.

Lemma net_inv_mono hist i n : net_inv hist n → net_inv (hist ++ [i]) n.
Proof.
  destruct (approved_mono hist i) as (Hs & Ht & Hb).
  intros []. split; (eapply Forall_impl; [eassumption |]); intros x; cbv beta; auto.
Qed.

Lemma strings_has l groups : forallb (has_str l) groups = true → strings groups ⊆ l.
Proof.
  intros Hf g Hg. apply list_elem_of_omap in Hg as (v & Hv & Hs). apply list_elem_of_In in Hv.
  rewrite forallb_forall in Hf. apply Hf in Hv. destruct v as [| | |x| |]; try done. injection Hs as <-.
  by apply bool_decide_eq_true in Hv.
Qed.

(** A step that only takes away or lets be keeps the invariant. *)
Ltac keep Hn := destruct Hn; split; cbn [nt_udp nt_binding nt_tcp nt_connecting nt_browses];
  repeat first [assumption | by constructor | by apply map_delete_Forall].

Lemma net_call_inv hist n c w f a : net_inv hist n → net_inv (hist ++ [NCall c w f a]) (net_call n c w f a).1.1.
Proof.
  intros Hn%(net_inv_mono hist (NCall c w f a)).
  assert (NCall c w f a ∈ hist ++ [NCall c w f a]) as Hin by (apply elem_of_app; right; by left).
  revert Hn Hin. generalize (hist ++ [NCall c w f a]). clear hist. intros hist Hn Hin.
  destruct f; cbn [net_call].
  - unfold udpBind. destruct (c_udp c) as [u|] eqn:Hu; [|done]. destruct (id_of _) as [port|]; [|done].
    case_bool_decide; [|done]. cbn [negb]. destruct (forallb _ _) eqn:Hg; [|done]. cbn [negb].
    destruct (_ <=? _); [done |]. keep Hn. apply Forall_app. split; [done |]. constructor; [|done].
    exists c, w, a, u. split_and!; try done. by apply strings_has.
  - unfold udpSend. repeat (case_match; try done); keep Hn.
  - unfold udpClose. destruct (_ ≫= _); [keep Hn | done].
  - unfold tcpConnect. case_bool_decide as Hc; [|done]. cbn [negb].
    destruct (guard_check _ _ _) as [host| |] eqn:Hh; [|done..]. destruct (check_port _) as [port| |] eqn:Hp; [|done..].
    destruct (_ <=? _); [done |]. keep Hn. apply Forall_app. split; [done |]. constructor; [|done].
    exists c, w, a. split_and!; [done | done | by eapply guard_check_Ok | by eapply check_port_Ok].
  - unfold tcpWrite. repeat (case_match; try done).
  - unfold tcpEnd. destruct (_ ≫= _); done.
  - unfold tcpDestroy. destruct (_ ≫= _); [keep Hn | done].
  - unfold httpRequest. repeat (case_match; try done).
  - unfold tlsFingerprint. repeat (case_match; try done).
  - unfold mdnsBrowse. destruct (c_mdns c) as [l|] eqn:Hl; [|done].
    destruct (arg a "service") as [[| | |v| |]|]; try done. case_bool_decide; [|done]. cbn [negb].
    destruct (bool_decide (_ = None)); [done |]. destruct (_ <=? _); [done |]. destruct (bool_decide _); [|keep Hn].
    keep Hn. apply map_set_Forall; [done |]. by exists c, w, a, l.
  - unfold mdnsStop. destruct (_ ≫= _); [keep Hn | done].
  - unfold serialOpen. repeat case_match; done.
Qed.

Lemma net_step_ok hist n i : net_inv hist n →
  net_inv (hist ++ [i]) (net_step n i).1 ∧ step_ok hist i (net_step n i).2.
Proof.
  intros Hn. destruct i as [c w f a|l id ok|l id b addr port|id|id t|id|id b|id|id|l id ip|]; cbn [net_step step_ok].
  - split; [by apply net_call_inv | apply net_call_ok].
  - unfold udp_bound. destruct (map_get (nt_binding n) id) as [s|] eqn:Hs;
      [|split; [by apply net_inv_mono | by intros ? ?%elem_of_nil]].
    pose proof (map_get_Forall _ _ _ _ (ni_binding _ _ Hn) Hs) as Happ. apply (net_inv_mono _ (NBound l id ok)) in Hn.
    destruct ok; cbn [negb fst snd].
    + split.
      * keep Hn. apply map_set_Forall; [done |]. by apply approved_mono.
      * intros e (g & He & Hg)%list_elem_of_bind. right.
        assert (∃ iface, e = JoinGroup id g iface ∧ ∀ ip, iface = Some ip → lan_target l [] ip) as (iface & -> & Hif); [|by exists g, iface, s].
        assert (∀ ip, ip ∈ lanInterfaceAddrs l → lan_target l [] ip) as Hif
          by (intros ip [Ha _]%list_elem_of_filter; by apply guard_allowed_target).
        destruct (lanInterfaceAddrs l) as [|i0 ifs]; [apply list_elem_of_singleton in He as ->; by exists None |].
        apply list_elem_of_fmap in He as (ip & -> & Hip). exists (Some ip). split; [done |]. intros ? [= <-]. by apply Hif.
    + split; [keep Hn |]. intros e ->%list_elem_of_singleton. by left.
  - split; [by apply net_inv_mono |]. unfold datagram. destruct (guard_allowed l addr) eqn:Hg; [|by intros ? ?%elem_of_nil].
    intros e ->%list_elem_of_singleton. eexists. split_and!; [done | by apply guard_allowed_target |].
    pose proof (blen_subarray_bound b 0 LIMITS.udpDatagramBytes). unfold LIMITS.udpDatagramBytes in *. lia.
  - unfold tcp_connected. destruct (map_get _ _) as [t|] eqn:Ht; [|split; [by apply net_inv_mono | done]].
    pose proof (map_get_Forall _ _ _ _ (ni_connecting _ _ Hn) Ht) as Happ. apply (net_inv_mono _ (NConnected id)) in Hn.
    split; [|done]. keep Hn. apply map_set_Forall; [done |]. by apply approved_mono.
  - apply (net_inv_mono _ (NFailed id t)) in Hn. unfold tcp_failed.
    destruct (map_get _ _); [|split; [done | by intros ? ?%elem_of_nil]]. split; [keep Hn |].
    destruct t; [by intros e ->%list_elem_of_singleton | by intros ? ?%elem_of_nil].
  - apply (net_inv_mono _ (NClosed id)) in Hn. unfold tcp_closed.
    destruct (map_get _ _); [|split; [done | by intros ? ?%elem_of_nil]]. split; [keep Hn |].
    by intros e ->%list_elem_of_singleton.
  - split; [by apply net_inv_mono | done].
  - split; [by apply net_inv_mono | done].
  - split; [by apply net_inv_mono | done].
  - split; [by apply net_inv_mono |]. unfold mdns_found. destruct (guard_allowed l ip) eqn:Hg; [|by intros ? ?%elem_of_nil].
    intros e ->%list_elem_of_singleton. split; [done | by apply guard_allowed_target].
  - apply (net_inv_mono _ NCloseAll) in Hn. split; [keep Hn |]. intros e He.
    unfold closeAll in He. cbn [snd] in He. rewrite !elem_of_app, !list_elem_of_fmap in He. destruct (nt_ephemeral n);
      destruct He as [(id & -> & _)|[He|[(id & -> & _)|(id & -> & _)]]];
      try (right; exists id; tauto); [apply list_elem_of_singleton in He as ->; by left | by apply elem_of_nil in He].
Qed.

Lemma net_run_ok inputs hist n : net_inv hist n →
  net_inv (hist ++ inputs) (net_run n inputs).1 ∧ trace_ok hist (net_run n inputs).2.
Proof.
  revert hist n. induction inputs as [|i inputs IH]; intros hist n Hn; cbn [net_run]; [by rewrite app_nil_r |].
  destruct (net_step_ok hist n i Hn) as [Hi Hs]. destruct (net_step n i) as [n1 fx]. cbn [fst snd] in *.
  destruct (IH _ _ Hi) as [Hr Ht]. destruct (net_run n1 inputs) as [n2 tr]. cbn [fst snd] in *. rewrite <- app_assoc in Hr.
  split; [exact Hr | split; [exact Hs | exact Ht]].
Qed.


(** ** How many sockets *)

Fixpoint net_states (n : net) (inputs : list net_input) : list net :=
  n :: match inputs with [] => [] | i :: inputs => net_states (net_step n i).1 inputs end.

(** At most [k] sockets are being bound and at most [k] are connecting. *)
Definition waiting_at_most (k : Z) (n : net) : Prop := map_size (nt_binding n) ≤ k ∧ map_size (nt_connecting n) ≤ k.

Definition counts_ok (k : Z) (n : net) : Prop :=
  map_size (nt_udp n) + map_size (nt_binding n) ≤ LIMITS.udpSocketsPerPlugin - 1 + k ∧
  map_size (nt_tcp n) + map_size (nt_connecting n) ≤ LIMITS.tcpSocketsPerPlugin - 1 + k ∧
  map_size (nt_browses n) ≤ LIMITS.mdnsBrowsesPerPlugin.

Lemma map_size_set {K V} `{EqDecision K} (m : list (K * V)) k v : map_size (map_set m k v) ≤ map_size m + 1.
Proof. unfold map_size. pose proof (map_set_length m k v). lia. Qed.
Lemma map_size_less {K V} `{EqDecision K} (m : list (K * V)) k v : map_get m k = Some v → map_size (map_delete m k) ≤ map_size m - 1.
Proof. unfold map_size. intros Hg. pose proof (map_delete_length m k v Hg). lia. Qed.
Lemma map_size_nonneg {K V} (m : list (K * V)) : 0 ≤ map_size m.
Proof. unfold map_size. lia. Qed.

Lemma known_id {V} (m : list (Z * V)) v id : v ≫= (λ id, (λ _ : V, id) <$> map_get m id) = Some id → is_Some (map_get m id).
Proof. intros (x & _ & (y & Hy & ->)%fmap_Some)%bind_Some. eauto. Qed.

Lemma net_call_counts k n c w f a : counts_ok k n → waiting_at_most k (net_call n c w f a).1.1 →
  counts_ok k (net_call n c w f a).1.1.
Proof.
  unfold counts_ok, waiting_at_most, LIMITS.udpSocketsPerPlugin, LIMITS.tcpSocketsPerPlugin, LIMITS.mdnsBrowsesPerPlugin.
  intros (Hu & Ht & Hb). destruct f; cbn [net_call].
  - unfold udpBind. destruct (c_udp c); [|done]. destruct (id_of _); [|done]. do 2 (destruct (negb _); [done |]).
    destruct (Z.leb_spec LIMITS.udpSocketsPerPlugin (map_size (nt_udp n))); [done |]. unfold LIMITS.udpSocketsPerPlugin in *.
    cbn [fst nt_udp nt_binding nt_tcp nt_connecting nt_browses]. rewrite map_size_snoc. lia.
  - unfold udpSend. repeat (case_match; try done).
  - unfold udpClose. destruct (_ ≫= _) as [id|] eqn:E; [|done]. apply known_id in E as [s Hs].
    cbn [fst nt_udp nt_binding nt_tcp nt_connecting nt_browses]. pose proof (map_size_less _ _ _ Hs). lia.
  - unfold tcpConnect. destruct (negb _); [done |]. destruct (guard_check _ _ _); [|done..]. destruct (check_port _); [|done..].
    destruct (Z.leb_spec LIMITS.tcpSocketsPerPlugin (map_size (nt_tcp n))); [done |]. unfold LIMITS.tcpSocketsPerPlugin in *.
    cbn [fst nt_udp nt_binding nt_tcp nt_connecting nt_browses]. rewrite map_size_snoc. lia.
  - unfold tcpWrite. repeat (case_match; try done).
  - unfold tcpEnd. destruct (_ ≫= _); done.
  - unfold tcpDestroy. destruct (_ ≫= _) as [id|] eqn:E; [|done]. apply known_id in E as [s Hs].
    cbn [fst nt_udp nt_binding nt_tcp nt_connecting nt_browses]. pose proof (map_size_less _ _ _ Hs). lia.
  - unfold httpRequest. repeat (case_match; try done).
  - unfold tlsFingerprint. repeat (case_match; try done).
  - unfold mdnsBrowse. destruct (c_mdns c) as [l|]; [|done]. destruct (arg a "service") as [[| | |v| |]|]; try done.
    do 2 (destruct (_ : bool); [done |]).
    destruct (Z.leb_spec LIMITS.mdnsBrowsesPerPlugin (map_size (nt_browses n))); [done |]. unfold LIMITS.mdnsBrowsesPerPlugin in *.
    destruct (bool_decide _); cbn [refuse fst nt_udp nt_binding nt_tcp nt_connecting nt_browses]; [|done].
    pose proof (map_size_set (nt_browses n) (nt_nextId n + 1) v). lia.
  - unfold mdnsStop. destruct (_ ≫= _) as [id|] eqn:E; [|done]. apply known_id in E as [s Hs].
    cbn [fst nt_udp nt_binding nt_tcp nt_connecting nt_browses]. pose proof (map_size_less _ _ _ Hs). lia.
  - unfold serialOpen. repeat case_match; done.
Qed.

Lemma net_step_counts k n i : 0 ≤ k → counts_ok k n → waiting_at_most k (net_step n i).1 → counts_ok k (net_step n i).1.
Proof.
  intros Hk Hn Hw. destruct i as [c w f a|l id ok|l id b addr port|id|id t|id|id b|id|id|l id ip|]; cbn [net_step] in *; try done.
  - by apply net_call_counts.
  - unfold udp_bound, counts_ok in *. destruct (map_get (nt_binding n) id) as [s|] eqn:Hs; [|done].
    pose proof (map_size_less _ _ _ Hs). pose proof (map_size_set (nt_udp n) id s).
    destruct ok; cbn [negb fst nt_udp nt_binding nt_tcp nt_connecting nt_browses]; lia.
  - unfold tcp_connected, counts_ok in *. destruct (map_get _ _) as [t|] eqn:Hs; [|done].
    pose proof (map_size_less _ _ _ Hs). pose proof (map_size_set (nt_tcp n) id t).
    cbn [fst nt_udp nt_binding nt_tcp nt_connecting nt_browses]; lia.
  - unfold tcp_failed, counts_ok in *. destruct (map_get _ _) as [x|] eqn:Hs; [|done]. pose proof (map_size_less _ _ _ Hs).
    cbn [fst nt_udp nt_binding nt_tcp nt_connecting nt_browses]; lia.
  - unfold tcp_closed, counts_ok in *. destruct (map_get _ _) as [x|] eqn:Hs; [|done]. pose proof (map_size_less _ _ _ Hs).
    cbn [fst nt_udp nt_binding nt_tcp nt_connecting nt_browses]; lia.
  - unfold counts_ok, waiting_at_most, LIMITS.udpSocketsPerPlugin, LIMITS.tcpSocketsPerPlugin, LIMITS.mdnsBrowsesPerPlugin in *.
    cbn [closeAll fst nt_udp nt_binding nt_tcp nt_connecting nt_browses] in *. change (map_size []) with 0. lia.
Qed.

(** C35: a plugin never searches for more than 8 services at once, and if at
    most k of its sockets are being bound or connected at any time, it never
    has more than 15 + k UDP sockets and 31 + k connections, those under way
    counted. *)
Theorem net_run_bounds k inputs :
  0 ≤ k → Forall (waiting_at_most k) (net_states newNet inputs) → counts_ok k (net_run newNet inputs).1.
Proof.
  intros Hk. assert (counts_ok k newNet) as Hn.
  { unfold counts_ok, newNet, LIMITS.udpSocketsPerPlugin, LIMITS.tcpSocketsPerPlugin, LIMITS.mdnsBrowsesPerPlugin.
    cbn. change (map_size []) with 0. lia. }
  generalize dependent newNet. induction inputs as [|i inputs IH]; intros n Hn Hw; cbn [net_run net_states] in *; [done |].
  apply Forall_cons in Hw as [_ Hw]. assert (waiting_at_most k (net_step n i).1) as Hi by (destruct inputs; by apply Forall_cons in Hw as [? _]).
  pose proof (net_step_counts k n i Hk Hn Hi) as Hs. specialize (IH _ Hs Hw).
  destruct (net_step n i) as [n1 fx]. cbn [fst] in *. by destruct (net_run n1 inputs).
Qed.
End Facts.

(** ** What the limits do not hold *)

Definition sample_web : Web := {| url_of := λ _, None; toUpperCase := λ s, s |}.
Definition sample_numbers : Numbers := {| number_text := λ _, [] |}.
Definition sample_caps : caps := Caps (Some (UdpCaps [5000] [])) None (Some true) None None None.
Definition sample_world : world := World (Lan [parse_net (js "192.168.1.0/24")] None [] []) None 0.
Definition bind_call : net_input := NCall sample_caps sample_world UdpBind [(js "port", JNum (NInt 5000))].
Definition connect_call : net_input :=
  NCall sample_caps sample_world TcpConnect [(js "host", JStr (js "192.168.1.9")); (js "port", JNum (NInt 80))].

Lemma net_run_bounds_witness :
  counts_ok 1 (@net_run ascii_unicode (toy_node (λ _, None)) sample_numbers sample_web newNet [bind_call; NBound (wd_lan sample_world) 1 true]).1.
Proof.
  apply (net_run_bounds (H := ascii_unicode) (H0 := toy_node (λ _, None)) (H1 := sample_numbers) (H2 := sample_web) 1); [lia |].
  repeat constructor; vm_compute; discriminate.
Defined.

(** The limit is looked at before the socket is bound and counted after: 20
    calls at once bind 20 sockets, where 16 are allowed. *)
Lemma udp_limit_overrun :
  map_size (nt_udp (@net_run ascii_unicode (toy_node (λ _, None)) sample_numbers sample_web newNet
    (replicate 20 bind_call ++ ((λ i, NBound (wd_lan sample_world) i true) <$> seqZ 1 20))).1) = 20.
Proof. by vm_compute. Qed.

(** A connection that is under way survives [closeAll] and is open afterwards. *)
Lemma closeAll_misses_connecting :
  nt_tcp (@net_run ascii_unicode (toy_node (λ _, None)) sample_numbers sample_web newNet [connect_call; NCloseAll; NConnected 1]).1
  = [(1, (js "192.168.1.9", 80))].
Proof. by vm_compute. Qed.

(** A connection opened before a capability was withdrawn can be written to afterwards. *)
Lemma write_after_withdrawal :
  (@net_run ascii_unicode (toy_node (λ _, None)) sample_numbers sample_web newNet
    [connect_call; NConnected 1; NCall no_caps sample_world TcpWrite [(js "id", JNum (NInt 1)); (js "b64", JStr [65])]]).2.*2
  = [[Connect 1 (js "192.168.1.9") 80]; []; [WriteTcp 1 [65]]].
Proof. by vm_compute. Qed.
