(* ===== verification/Bridge.v ===== *)
(** * src/edge/bridge.js

    The gateway's end of the edge: the relay of the channel, from which the
    gateway reads the wanted state, and the calls of the edge host, which are
    checked here against that state.  The entries of [plugins] are objects that
    outlive the map - their sockets call back into them -, so the state keeps
    every entry made and the map holds numbers. *)

From S2P Require Import Prelude JsBuffer JsMap JsValues JsText Crypto LanInterfaces LanGuard EdgeConstants Channel Manifest Protocol Packages TlsPin NetProxy.

Local Open Scope Z_scope.

Definition MQTT_APIS : list jstr := js <$> ["mqtt.subscribe"; "mqtt.unsubscribe"; "mqtt.publish"].
Definition MAX_INFLIGHT : Z := 128.
Definition PUSH_BUFFER_MAX : Z := 16 * 1024 * 1024.
Definition RPC_MAX_BYTES : Z := 8 * 1024 * 1024.
Definition SENDABLE_CLOSE : list Z := [1000; 1001; 1002; 1003; 1007; 1008; 1009; 1010; 1011; 1012; 1013; 1014].
Definition MQTT_OFF : mqtt := Mqtt false false [] [].

Definition closeCode (c : Z) : Z :=
  if ((3000 <=? c) && (c <=? 4999)) || bool_decide (c ∈ SENDABLE_CLOSE) then c else 1011.

(** ** The state *)

(** An entry: whose it is, its capabilities, its network. *)
Record part := Part { pt_plugin : jstr; pt_caps : caps; pt_net : net }.

(** A call that is not answered yet: where it came from, and its result when
    there is one already. *)
Record rpc_call := RpcCall { rc_ws : nat; rc_id : Z; rc_result : option (res json) }.

Record bridge := Bridge {
  br_desired : option state;
  br_plugins : list (jstr * nat); br_parts : list part;
  br_rpc : option nat; br_relay : option nat; br_pairs : list (nat * Z); br_sockets : nat;
  br_calls : list (nat * rpc_call); br_ncalls : nat; br_inflight : Z }.
Definition newBridge : bridge := Bridge None [] [] None None [] 0 [] 0 0.

(** What the gateway sends to the edge host. *)
Inductive frame := FResult (id : Z) (r : res json) | FPush (plugin : jstr) (m : message) | FMqtt (plugin : jstr) (m : json)
  | FInfo (available : bool).
Class Wire := { frame_bytes : frame → Z }.

Inductive bridge_effect :=
  | Lan_ (k : nat) (e : effect)
  | MqttCall (k : nat) (plugin : jstr) (c : caps) (api : jstr) (args : list (jstr * json)) | MqttDrop (plugin : jstr) | MqttApply (m : mqtt)
  | ToEdge (ws : nat) (f : frame) | CloseRpc (ws : nat)
  | RelayToEdge (p : nat) (text : jstr) | RelayToServer (p : nat) (text : jstr)
  | CloseLocal (p : nat) (code : Z) | CloseUpstream (p : nat) | TerminateUpstream (p : nat) | TerminateLocal (p : nat) | PingUpstream (p : nat).

(** What a step sees of the gateway: the LAN, whether there is a broker and it
    is available, the socket of the edge host. *)
Record gateway := Gateway { gw_world : world; gw_mqtt : option bool; gw_open : bool; gw_bufferedAmount : Z }.

Definition set_plugins (b : bridge) (plugins : list (jstr * nat)) (parts : list part) : bridge :=
  Bridge (br_desired b) plugins parts (br_rpc b) (br_relay b) (br_pairs b) (br_sockets b) (br_calls b) (br_ncalls b) (br_inflight b).
Definition set_calls (b : bridge) (calls : list (nat * rpc_call)) (n : nat) (inflight : Z) : bridge :=
  Bridge (br_desired b) (br_plugins b) (br_parts b) (br_rpc b) (br_relay b) (br_pairs b) (br_sockets b) calls n inflight.
Definition set_rpc (b : bridge) (rpc : option nat) (sockets : nat) : bridge :=
  Bridge (br_desired b) (br_plugins b) (br_parts b) rpc (br_relay b) (br_pairs b) sockets (br_calls b) (br_ncalls b) (br_inflight b).
Definition set_relay (b : bridge) (relay : option nat) (pairs : list (nat * Z)) (sockets : nat) : bridge :=
  Bridge (br_desired b) (br_plugins b) (br_parts b) (br_rpc b) relay pairs sockets (br_calls b) (br_ncalls b) (br_inflight b).
Definition set_desired (b : bridge) (st : state) : bridge :=
  Bridge (Some st) (br_plugins b) (br_parts b) (br_rpc b) (br_relay b) (br_pairs b) (br_sockets b) (br_calls b) (br_ncalls b) (br_inflight b).

(** ** The wanted state *)

(** The entry of the wanted state, when the edge part may run. *)
Definition wanted (b : bridge) (id : jstr) : option plugin :=
  match br_desired b with
  | Some st =>
      if negb (st_edgeEnabled st) then None
      else
        match List.find (λ x, bool_decide (p_id x = id)) (st_plugins st) with
        | Some p => if p_enabled p && bool_decide (p_capsError p = None) then Some p else None
        | None => None
        end
  | None => None
  end.

Section Bridge.
Context `{Unicode} `{Node} `{Numbers} `{Web} `{Wire}.

(** The effects of a part's network, the messages for its plugin as frames. *)
Definition rpcSend (g : gateway) (ws : option nat) (f : frame) : list bridge_effect :=
  match ws with
  | Some ws => if gw_open g && (frame_bytes f <=? RPC_MAX_BYTES) then [ToEdge ws f] else []
  | None => []
  end.
Definition push (b : bridge) (g : gateway) (f : frame) : list bridge_effect :=
  if bool_decide (br_rpc b = None) || (PUSH_BUFFER_MAX <? gw_bufferedAmount g) then [] else rpcSend g (br_rpc b) f.
Definition lan_effect (b : bridge) (g : gateway) (k : nat) (plugin : jstr) (e : effect) : list bridge_effect :=
  match e with ToChild m => push b g (FPush plugin m) | _ => [Lan_ k e] end.

(** [e.net.closeAll()] tells the plugin nothing. *)
Definition close_part (parts : list part) (k : nat) : list part * list bridge_effect :=
  match parts !! k with
  | Some e => let '(n, fx) := NetProxy.closeAll (pt_net e) in (<[k := Part (pt_plugin e) (pt_caps e) n]> parts, Lan_ k <$> fx)
  | None => (parts, [])
  end.

Definition mqtt_drop (g : gateway) (id : jstr) : list bridge_effect :=
  match gw_mqtt g with Some _ => [MqttDrop id] | None => [] end.

Definition closePlugin (b : bridge) (g : gateway) (id : jstr) : bridge * list bridge_effect :=
  match map_get (br_plugins b) id with
  | Some k =>
      let '(parts, fx) := close_part (br_parts b) k in
      (set_plugins b (map_delete (br_plugins b) id) parts, fx ++ mqtt_drop g id)
  | None => (b, mqtt_drop g id)
  end.

Fixpoint close_ids (b : bridge) (g : gateway) (ids : list jstr) : bridge * list bridge_effect :=
  match ids with
  | [] => (b, [])
  | id :: ids => let '(b, fx) := closePlugin b g id in let '(b, fx') := close_ids b g ids in (b, fx ++ fx')
  end.

Definition closeAllPlugins (b : bridge) (g : gateway) : bridge * list bridge_effect := close_ids b g (br_plugins b).*1.

Definition setDesired (b : bridge) (g : gateway) (st : state) : bridge * list bridge_effect :=
  let b := set_desired b st in
  let '(b, fx) := close_ids b g (filter (λ id, wanted b id = None) (br_plugins b).*1) in
  (b, fx ++ if bool_decide (gw_mqtt g = Some true) then [MqttApply (if st_edgeEnabled st then st_mqtt st else MQTT_OFF)] else []).

(** The state in a text of the server, if it is one. *)
Definition state_in (text : jstr) : option state :=
  if negb (has_text (34 :: js "state" ++ [34]) text) then None
  else
    match JSON_parse text with
    | Some (JObj m) =>
        if is_str (field m (js "t")) (js "state") then match parseState (JObj m) with Ok st => Some st | _ => None end else None
    | _ => None
    end.
Definition observe (b : bridge) (g : gateway) (text : jstr) : bridge * list bridge_effect :=
  match state_in text with Some st => setDesired b g st | None => (b, []) end.

(** ** Calls *)

Definition entry (b : bridge) (id : jstr) : bridge * nat :=
  match map_get (br_plugins b) id with
  | Some k => (b, k)
  | None =>
      let k := length (br_parts b) in
      (set_plugins b (map_set (br_plugins b) id k) (br_parts b ++ [Part id no_caps newNet]), k)
  end.

Definition reply_json (r : reply) : json :=
  match r with
  | REmpty => JObj []
  | RId id => JObj [(js "id", JNum (NInt id))]
  | RIdPort id port => JObj [(js "id", JNum (NInt id)); (js "port", JNum (NInt port))]
  end.

(** The result of a call when it is there at once. *)
Definition result_of (o : outcome) : option (res json) := match o with Done r => Some (reply_json <$> r) | Wait => None end.

Definition handleCall (b : bridge) (g : gateway) (m : list (jstr * json)) : bridge * list bridge_effect * option (res json) :=
  let fails e := (b, [], Some (Throw e)) in
  match field m (js "plugin"), field m (js "api") with
  | Some (JStr id), a =>
      if negb (validId id) then fails "bad_request"
      else
        match a with
        | Some (JStr api) =>
            if bool_decide (map_get NET_APIS api = None) && negb (bool_decide (api ∈ MQTT_APIS)) then fails "unknown_api"
            else
              match wanted b id with
              | None => fails "not_enabled"
              | Some p =>
                  match validateCaps (field m (js "caps")) with
                  | Ok claimed =>
                      let '(b, k) := entry b id in
                      let c := intersectCaps claimed (p_caps p) in
                      let args := match field m (js "args") with Some (JObj a) => a | _ => [] end in
                      match br_parts b !! k with
                      | None => (b, [], None)
                      | Some e =>
                          let b := set_plugins b (br_plugins b) (<[k := Part (pt_plugin e) c (pt_net e)]> (br_parts b)) in
                          match map_get NET_APIS api with
                          | Some f =>
                              let '(n, fx, o) := net_call (pt_net e) c (gw_world g) f args in
                              (set_plugins b (br_plugins b) (<[k := Part (pt_plugin e) c n]> (br_parts b)),
                               fx ≫= lan_effect b g k (pt_plugin e), result_of o)
                          | None =>
                              if negb (bool_decide (gw_mqtt g = Some true)) then (b, [], Some (Throw "not_available"))
                              else (b, [MqttCall k id c api args], None)
                          end
                      end
                  | _ => fails "bad_request"
                  end
              end
        | _ => fails "unknown_api"
        end
  | _, _ => fails "bad_request"
  end.

Definition reply_to (g : gateway) (ws : nat) (id : Z) (r : res json) : list bridge_effect :=
  match rpcSend g (Some ws) (FResult id r), r with
  | [], Ok _ => rpcSend g (Some ws) (FResult id (Throw "too_large"))
  | fx, _ => fx
  end.

Definition onRpc (b : bridge) (g : gateway) (ws : nat) (m : list (jstr * json)) : bridge * list bridge_effect :=
  if is_str (field m (js "t")) (js "close") then
    match field m (js "plugin") with
    | Some (JStr id) => if validId id then closePlugin b g id else (b, [])
    | _ => (b, [])
    end
  else
    match is_str (field m (js "t")) (js "call"), id_of (field m (js "id")) with
    | true, Some id =>
        if MAX_INFLIGHT <=? br_inflight b then (b, reply_to g ws id (Throw "busy"))
        else
          let '(b, fx, r) := handleCall b g m in
          (set_calls b (br_calls b ++ [(br_ncalls b, RpcCall ws id r)]) (S (br_ncalls b)) (br_inflight b + 1), fx)
    | _, _ => (b, [])
    end.

(** The promise of a call is settled: with its result, or with [r]. *)
Definition settled (b : bridge) (g : gateway) (n : nat) (r : res json) : bridge * list bridge_effect :=
  match map_get (br_calls b) n with
  | Some c =>
      (set_calls b (map_delete (br_calls b) n) (br_ncalls b) (br_inflight b - 1),
       reply_to g (rc_ws c) (rc_id c) (default r (rc_result c)))
  | None => (b, [])
  end.

(** ** The sockets of the edge host *)

Definition sendInfo (b : bridge) (g : gateway) : list bridge_effect :=
  rpcSend g (br_rpc b) (FInfo (bool_decide (gw_mqtt g = Some true))).

Definition bindRpc (b : bridge) (g : gateway) : bridge * list bridge_effect :=
  let ws := br_sockets b in
  let '(b, fx) :=
    match br_rpc b with
    | Some old => let '(b, fx) := closeAllPlugins (set_rpc b None (br_sockets b)) g in (b, CloseRpc old :: fx)
    | None => (b, [])
    end in
  let b := set_rpc b (Some ws) (S ws) in (b, fx ++ sendInfo b g).

Definition rpc_text (b : bridge) (g : gateway) (ws : nat) (text : jstr) : bridge * list bridge_effect :=
  match JSON_parse text with Some (JObj m) => onRpc b g ws m | _ => (b, []) end.

Definition rpc_closed (b : bridge) (g : gateway) (ws : nat) : bridge * list bridge_effect :=
  if bool_decide (br_rpc b = Some ws) then closeAllPlugins (set_rpc b None (br_sockets b)) g else (b, []).

(** ** The relay *)

Definition closeRelay (b : bridge) (code : Z) : bridge * list bridge_effect :=
  match br_relay b with
  | Some p => (set_relay b None (map_delete (br_pairs b) p) (br_sockets b), [CloseLocal p code; TerminateUpstream p])
  | None => (b, [])
  end.
Definition bindRelay (b : bridge) (now : Z) : bridge * list bridge_effect :=
  let '(b, fx) := closeRelay b 4000 in
  let p := br_sockets b in (set_relay b (Some p) (map_set (br_pairs b) p now) (S p), fx).

(** A text of the server: read, and passed on while the edge host is there. *)
Definition server_text (b : bridge) (g : gateway) (p : nat) (now : Z) (local_open : bool) (text : jstr) : bridge * list bridge_effect :=
  let alive := if map_has (br_pairs b) p then map_set (br_pairs b) p now else br_pairs b in
  let '(b, fx) := observe (set_relay b (br_relay b) alive (br_sockets b)) g text in
  (b, fx ++ if local_open then [RelayToEdge p text] else []).
Definition edge_text (p : nat) (upstream_open : bool) (text : jstr) : list bridge_effect :=
  if upstream_open then [RelayToServer p text] else [].

Definition relay_gone (b : bridge) (p : nat) : bridge :=
  set_relay b (if bool_decide (br_relay b = Some p) then None else br_relay b) (map_delete (br_pairs b) p) (br_sockets b).
Definition upstream_closed (b : bridge) (p : nat) (code : Z) (local_open : bool) : bridge * list bridge_effect :=
  (relay_gone b p, if local_open then [CloseLocal p (closeCode code)] else []).
Definition local_closed (b : bridge) (p : nat) (upstream_open : bool) : bridge * list bridge_effect :=
  (relay_gone b p, if upstream_open then [CloseUpstream p] else []).
(** The timer of a pair. *)
Definition relay_tick (b : bridge) (p : nat) (now pongTimeoutMs : Z) : list bridge_effect :=
  match map_get (br_pairs b) p with
  | Some lastSeen => if pongTimeoutMs <? now - lastSeen then [TerminateUpstream p; TerminateLocal p] else [PingUpstream p]
  | None => []
  end.

Definition stop (b : bridge) (g : gateway) : bridge * list bridge_effect :=
  let '(b, fx) := closeRelay b 1001 in
  let rpc := br_rpc b in
  let '(b, fx') := closeAllPlugins (set_rpc b None (br_sockets b)) g in
  (b, fx ++ match rpc with Some ws => [CloseRpc ws] | None => [] end ++ fx').

(** ** What can happen *)

Inductive input :=
  | ServerText (g : gateway) (p : nat) (now : Z) (local_open : bool) (text : jstr) | EdgeText (p : nat) (upstream_open : bool) (text : jstr)
  | RelayOpens (now : Z) | UpstreamClosed (p : nat) (code : Z) (local_open : bool) | LocalClosed (p : nat) (upstream_open : bool)
  | RelayTick (p : nat) (now pongTimeoutMs : Z)
  | RpcOpens (g : gateway) | RpcText (g : gateway) (ws : nat) (text : jstr) | RpcClosed (g : gateway) (ws : nat)
  | Event (g : gateway) (k : nat) (i : net_input) | MqttMessage (g : gateway) (plugin : jstr) (m : json)
  | Settled (g : gateway) (n : nat) (r : res json) | Stop (g : gateway).

(** The network of a part reports something. *)
Definition is_event (i : net_input) : bool := match i with NCall _ _ _ _ | NCloseAll => false | _ => true end.
Definition part_event (b : bridge) (g : gateway) (k : nat) (i : net_input) : bridge * list bridge_effect :=
  match br_parts b !! k with
  | Some e =>
      if is_event i then
        let '(n, fx) := net_step (pt_net e) i in
        (set_plugins b (br_plugins b) (<[k := Part (pt_plugin e) (pt_caps e) n]> (br_parts b)), fx ≫= lan_effect b g k (pt_plugin e))
      else (b, [])
  | None => (b, [])
  end.

Definition bridge_step (b : bridge) (i : input) : bridge * list bridge_effect :=
  match i with
  | ServerText g p now o text => server_text b g p now o text
  | EdgeText p o text => (b, edge_text p o text)
  | RelayOpens now => bindRelay b now
  | UpstreamClosed p code o => upstream_closed b p code o
  | LocalClosed p o => local_closed b p o
  | RelayTick p now t => (b, relay_tick b p now t)
  | RpcOpens g => bindRpc b g
  | RpcText g ws text => rpc_text b g ws text
  | RpcClosed g ws => rpc_closed b g ws
  | Event g k i => part_event b g k i
  | MqttMessage g plugin m => (b, push b g (FMqtt plugin m))
  | Settled g n r => settled b g n r
  | Stop g => stop b g
  end.

Fixpoint bridge_run (b : bridge) (is_ : list input) : bridge * list (input * list bridge_effect) :=
  match is_ with
  | [] => (b, [])
  | i :: is_ => let '(b, fx) := bridge_step b i in let '(b', r) := bridge_run b is_ in (b', (i, fx) :: r)
  end.

(** ** Packages for the edge host *)

Inductive package_answer := Status (code : Z) | Fetch (id version : jstr).

(** [PACKAGE_RE]: [/^\/api\/v1\/gateway\/edge\/packages\/([^/?]+)\/([^/?]+)$/] *)
Definition PACKAGES_PATH : jstr := js "/api/v1/gateway/edge/packages".
Definition PACKAGE_RE (url : jstr) : option (jstr * jstr) :=
  if starts_with (PACKAGES_PATH ++ [47]) url then
    match split_on 47 (drop (S (length PACKAGES_PATH)) url) with
    | [a; v] => if nonempty a && nonempty v && negb (includes 63 a) && negb (includes 63 v) then Some (a, v) else None
    | _ => None
    end
  else None.

(** [decodeURIComponent]: the bytes of a run of [%XX] must be UTF-8. *)
Definition hex_value (c : Z) : option Z :=
  if is_digit c then Some (c - 48)
  else if (97 <=? c) && (c <=? 102) then Some (c - 87) else if (65 <=? c) && (c <=? 70) then Some (c - 55) else None.
Definition utf8_text (bytes : list Z) : option jstr :=
  let s := utf8_decode bytes in if bool_decide (utf8_encode s = bytes) then Some s else None.
Fixpoint decode_go (run : list Z) (s : jstr) : option jstr :=
  match s with
  | 37 :: h :: l :: s =>
      match hex_value h, hex_value l with Some h, Some l => decode_go (run ++ [h * 16 + l]) s | _, _ => None end
  | 37 :: _ => None
  | c :: s =>
      match utf8_text run, decode_go [] s with Some a, Some r => Some (a ++ c :: r) | _, _ => None end
  | [] => utf8_text run
  end.
Definition decodeURIComponent (s : jstr) : option jstr := decode_go [] s.

Definition listed (b : bridge) (id version : jstr) : bool :=
  match br_desired b with
  | Some st => existsb (λ p, bool_decide (p_id p = id) && bool_decide (p_version p = version)) (st_plugins st)
  | None => false
  end.

(** [upstream]: whether the gateway has its access to the server. *)
Definition onRequest (b : bridge) (method url : jstr) (upstream : bool) : package_answer :=
  match (if bool_decide (method = js "GET") then PACKAGE_RE url else None) with
  | None => Status 404
  | Some (a, v) =>
      match decodeURIComponent a, decodeURIComponent v with
      | Some id, Some version =>
          if validId id && VERSION_RE version && listed b id version then
            if upstream then Fetch id version else Status 503
          else Status 404
      | _, _ => Status 404
      end
  end.
(** The download is there or failed. *)
Definition download_status (r : res (list Z)) : Z :=
  match r with Ok _ => 200 | Throw e => if bool_decide (e = "not_found") then 404 else 502 | NoFuel => 502 end.

(** ** New connections *)

Inductive upgraded := Refused (status : Z) | ToRelay | ToRpc.

(** [req.url.split('?')[0]] *)
Definition url_path (url : jstr) : jstr := hd [] (split_on 63 url).
Definition RPC_PATH : jstr := js "/edge/rpc".
Definition onUpgrade (method url : jstr) : upgraded :=
  if negb (bool_decide (method = js "GET")) then Refused 405
  else if bool_decide (url_path url = WS_PATH) then ToRelay
  else if bool_decide (url_path url = RPC_PATH) then ToRpc
  else Refused 404.

(** [relayUpgrade] before the server is asked: the offered subprotocols, the
    access of the gateway, whether its URL and the socket can be made. *)
Record access := Access { ac_serverUrl : jstr; ac_apiToken : jstr; ac_url_ok : bool; ac_socket_ok : bool }.
Definition relayUpgrade (protocols : jstr) (up : option access) : option Z :=
  if negb (bool_decide (PROTOCOL ∈ trim <$> split_on 44 protocols)) then Some 400
  else
    match up with
    | None => Some 503
    | Some a =>
        if negb (nonempty (ac_serverUrl a)) || negb (nonempty (ac_apiToken a)) || negb (ac_url_ok a) then Some 503
        else if negb (ac_socket_ok a) then Some 502 else None
    end.
(** The server's answer to the upgrade: another status, an error, or open
    with a subprotocol. *)
Inductive server_answer := Unexpected (status : Z) | ServerError | ServerOpen (protocol : jstr).
Definition relay_status (a : server_answer) : option Z :=
  match a with
  | Unexpected c => Some (if (400 <=? c) && (c <=? 599) then c else 502)
  | ServerError => Some 502
  | ServerOpen p => if bool_decide (p = PROTOCOL) then None else Some 501
  end.
End Bridge.
