(* ===== verification/BridgeFacts.v ===== *)
(** * Properties of the gateway's end of the edge

    Whatever the edge host sends, in any order, and whatever the network
    answers: every part's network does only what the server approved for an
    enabled plugin. *)

From S2P Require Import Prelude JsBuffer JsMap JsValues JsText Crypto LanInterfaces LanGuard EdgeConstants Channel Manifest ManifestFacts Protocol Packages TlsPin NetProxy NetProxyFacts Bridge.

Local Open Scope Z_scope.

(** ** More capabilities permit more *)

Lemma lan_target_mono l m m' host : m ⊆ m' → lan_target l m host → lan_target l m' host.
Proof.
  unfold lan_target, check_nets. intros Hm. destruct (negb _); [done |]. destruct (isMulticast host); [|done].
  case_bool_decide as Hin; [|done]. intros _. rewrite bool_decide_true; [done | by apply Hm].
Qed.

Lemma flag_le x y : part_le implb x y → x = Some true → y = Some true.
Proof. intros Hle ->. destruct (Hle true eq_refl) as ([] & -> & Hb); [done | by destruct Hb]. Qed.

Lemma effect_ok_mono c c' l e : caps_le c c' → effect_ok c l e → effect_ok c' l e.
Proof.
  intros [Hu Hm Ht Hh _ _]. destruct e; cbn [effect_ok]; try done.
  - intros (u & Hc & Hp). destruct (Hu u Hc) as (u' & Hc' & Hps & _). exists u'. split; [done | by apply Hps].
  - intros (u & Hc & Hp & Hrest). destruct (Hu u Hc) as (u' & Hc' & _ & Hms). exists u'.
    split_and!; [done | by eapply lan_target_mono | apply Hrest..].
  - intros (Hc & Hrest). split; [by eapply flag_le | done].
  - intros (Hc & Hrest). split; [by eapply flag_le | done].
  - intros ([Hc|Hc] & Hrest); (split; [|done]); [left | right]; by eapply flag_le.
  - intros (s & Hc & Hin). destruct (Hm s Hc) as (s' & Hc' & Hs). exists s'. split; [done | by apply Hs].
Qed.

Section Facts.
Context `{Unicode} `{Node} `{Numbers} `{Web} `{Wire}.

(** ** What the server approved *)

(** The states the server sent. *)
Definition state_of (i : input) : option state := match i with ServerText _ _ _ _ text => state_in text | _ => None end.
Definition states_of (hist : list input) : list state := omap state_of hist.

(** [st] lets the edge part [plugin] run, as [p]. *)
Definition approves (st : state) (plugin : jstr) (p : Protocol.plugin) : Prop :=
  st_edgeEnabled st = true ∧ p ∈ st_plugins st ∧ p_id p = plugin ∧ p_enabled p = true ∧ p_capsError p = None.

Lemma wanted_approves b plugin p : wanted b plugin = Some p →
  ∃ st, br_desired b = Some st ∧ approves st plugin p.
Proof.
  unfold wanted, approves. destruct (br_desired b) as [st|]; [|done]. destruct (st_edgeEnabled st) eqn:Ee; [|done]. cbn [negb].
  destruct (List.find _ _) as [q|] eqn:Ef; [|done]. apply List.find_some in Ef as [Hin Hid%bool_decide_eq_true].
  destruct (p_enabled q && _) eqn:Ec; [|done]. intros [= <-]. apply andb_true_iff in Ec as [? ?%bool_decide_eq_true].
  exists st. split_and!; try done. by apply list_elem_of_In.
Qed.

(** A call of a part, with at most what some state approved for its plugin. *)
Definition approved (hist : list input) (plugin : jstr) (i : net_input) : Prop :=
  match i with
  | NCall c w f a => ∃ st p, st ∈ states_of hist ∧ approves st plugin p ∧ caps_le c (p_caps p)
  | _ => True
  end.
Lemma states_of_snoc hist i : states_of (hist ++ [i]) = states_of hist ++ option_list (state_of i).
Proof. unfold states_of. rewrite omap_app. cbn. by destruct (state_of i). Qed.

Lemma approved_more hist i plugin x : approved hist plugin x → approved (hist ++ [i]) plugin x.
Proof.
  destruct x; cbn [approved]; try done. intros (st & p & Hin & Hp). exists st, p. split; [|done].
  rewrite states_of_snoc. apply elem_of_app. by left.
Qed.

(** ** The invariant *)

(** The network of a part is one that calls with approved capabilities made. *)
Definition part_inv (hist : list input) (e : part) : Prop :=
  ∃ nh, pt_net e = (net_run newNet nh).1 ∧ Forall (approved hist (pt_plugin e)) nh.

Record core_inv (hist : list input) (b : bridge) : Prop := {
  ci_parts : Forall (part_inv hist) (br_parts b);
  ci_plugins : ∀ id k, map_get (br_plugins b) id = Some k → ∃ e, br_parts b !! k = Some e ∧ pt_plugin e = id;
  ci_keys : map_ok (br_plugins b);
  ci_calls : br_inflight b = map_size (br_calls b) ∧ br_inflight b ≤ MAX_INFLIGHT;
  ci_numbers : map_ok (br_calls b) ∧ Forall (λ c, (c.1 < br_ncalls b)%nat) (br_calls b) }.

(** Only plugins that the last state of the server lets run are in the map. *)
Record bridge_inv (hist : list input) (b : bridge) : Prop := {
  bi_core : core_inv hist b;
  bi_desired : br_desired b = last (states_of hist);
  bi_wanted : ∀ id, map_get (br_plugins b) id ≠ None → wanted b id ≠ None }.

(** ** What a step may do *)

Definition is_close (e : effect) : Prop :=
  match e with CloseUdp _ | CloseEphemeral | DestroyTcp _ | StopBrowse _ => True | _ => False end.

(** Only closing, and nothing said to a broker but to forget a plugin or the state's setting. *)
Definition quiet (x : bridge_effect) : Prop := match x with Lan_ _ e => is_close e | MqttCall _ _ _ _ _ => False | _ => True end.

Definition call_ok (hist : list input) (g : gateway) (x : bridge_effect) : Prop :=
  match x with
  | Lan_ _ e => is_close e ∨ ∃ st plugin p, last (states_of hist) = Some st ∧ approves st plugin p ∧
      effect_ok (p_caps p) (wd_lan (gw_world g)) e
  | MqttCall _ plugin c _ _ => ∃ st p, last (states_of hist) = Some st ∧ approves st plugin p ∧ caps_le c (p_caps p)
  | _ => True
  end.

(** An event of the network joins approved groups and closes; what it tells a plugin comes from the LAN. *)
Definition event_ok (hist : list input) (i : net_input) (x : bridge_effect) : Prop :=
  match x with
  | Lan_ _ e => is_close e ∨ ∃ id g iface st plugin p u, e = JoinGroup id g iface ∧ st ∈ states_of hist ∧ approves st plugin p ∧
      c_udp (p_caps p) = Some u ∧ g ∈ u_multicast u
  | ToEdge _ f => ∃ plugin m, f = FPush plugin m ∧
      match m with
      | MUdp _ b address _ => blen b ≤ LIMITS.udpDatagramBytes ∧ ∃ l, lan_target l [] address
      | MMdns _ ip => ∃ l, lan_target l [] ip
      | _ => True
      end
  | _ => False
  end.

Definition input_ok (hist : list input) (i : input) (fx : list bridge_effect) : Prop :=
  match i with
  | RpcText g _ _ => Forall (call_ok hist g) fx
  | Event _ _ i => Forall (event_ok hist i) fx
  | _ => Forall quiet fx
  end.

Fixpoint trace_ok (hist : list input) (tr : list (input * list bridge_effect)) : Prop :=
  match tr with [] => True | (i, fx) :: tr => input_ok hist i fx ∧ trace_ok (hist ++ [i]) tr end.

(** ** Parts *)

Lemma net_run_snoc n nh i : (net_run n (nh ++ [i])).1 = (net_step (net_run n nh).1 i).1.
Proof.
  revert n. induction nh as [|x nh IH]; intros n; cbn [net_run app].
  - cbn [fst]. by destruct (net_step n i).
  - destruct (net_step n x) as [n1 fx]. specialize (IH n1).
    destruct (net_run n1 (nh ++ [i])), (net_run n1 nh). exact IH.
Qed.

Lemma part_step hist plugin c n i c' : part_inv hist (Part plugin c n) → approved hist plugin i →
  part_inv hist (Part plugin c' (net_step n i).1).
Proof.
  intros (nh & Hn & Hf) Hi. cbn in *. subst n. exists (nh ++ [i]). cbn. rewrite net_run_snoc.
  split; [done |]. apply Forall_app. split; [done | by constructor].
Qed.

Lemma part_inv_more hist i e : part_inv hist e → part_inv (hist ++ [i]) e.
Proof. intros (nh & ? & Hf). exists nh. split; [done |]. eapply Forall_impl; [exact Hf |]. cbn. intros. by apply approved_more. Qed.

Lemma core_inv_more hist i b : core_inv hist b → core_inv (hist ++ [i]) b.
Proof. intros []. split; try done. eapply Forall_impl; [eassumption |]. intros. by apply part_inv_more. Qed.

(** Another network or other capabilities of one entry. *)
Lemma core_inv_part hist b k e c n : core_inv hist b → br_parts b !! k = Some e → part_inv hist (Part (pt_plugin e) c n) →
  core_inv hist (set_plugins b (br_plugins b) (<[k := Part (pt_plugin e) c n]> (br_parts b))).
Proof.
  intros [Hp Hr Hk Hc Hn] He Hi. split; cbn [br_parts br_plugins br_inflight br_calls br_ncalls set_plugins]; try done.
  - by apply Forall_insert.
  - intros id j Hj. destruct (Hr id j Hj) as (e' & He' & Hid). destruct (decide (j = k)) as [->|Hjk].
    + rewrite list_lookup_insert_eq by (by eapply lookup_lt_Some). eexists. split; [done |]. cbn. congruence.
    + rewrite list_lookup_insert_ne by done. by exists e'.
Qed.

Lemma lookup_part hist b k e : core_inv hist b → br_parts b !! k = Some e → part_inv hist e.
Proof. intros Hb He. pose proof (ci_parts _ _ Hb) as Hp. rewrite Forall_lookup in Hp. by eapply Hp. Qed.

(** ** Closing *)

Definition calls_same (b b' : bridge) : Prop := br_desired b' = br_desired b ∧ br_calls b' = br_calls b ∧
  br_ncalls b' = br_ncalls b ∧ br_inflight b' = br_inflight b ∧ br_rpc b' = br_rpc b ∧ br_sockets b' = br_sockets b.
Lemma calls_same_trans a b c : calls_same a b → calls_same b c → calls_same a c.
Proof. unfold calls_same. intuition congruence. Qed.

Lemma mqtt_drop_quiet g id : Forall quiet (mqtt_drop g id).
Proof. unfold mqtt_drop. destruct (gw_mqtt g); repeat constructor. Qed.

Lemma closeAll_closes n : Forall is_close (NetProxy.closeAll n).2.
Proof.
  unfold NetProxy.closeAll. cbn [snd]. rewrite !Forall_app, !Forall_fmap. split_and!; try (by apply Forall_true).
  destruct (nt_ephemeral n); repeat constructor.
Qed.

Lemma closePlugin_spec hist b g id : core_inv hist b →
  core_inv hist (closePlugin b g id).1 ∧ Forall quiet (closePlugin b g id).2 ∧ calls_same b (closePlugin b g id).1 ∧
  br_plugins (closePlugin b g id).1 = map_delete (br_plugins b) id.
Proof.
  intros Hb. unfold closePlugin. destruct (map_get (br_plugins b) id) as [k|] eqn:Hk.
  - destruct (ci_plugins _ _ Hb id k Hk) as (e & He & _). unfold close_part. rewrite He.
    destruct (NetProxy.closeAll (pt_net e)) as [n fx] eqn:Hc. cbn [fst snd]. split_and!; [| | by repeat split | done].
    + assert (core_inv hist (set_plugins b (br_plugins b) (<[k:=Part (pt_plugin e) (pt_caps e) n]> (br_parts b)))) as [Hp Hr Hm ? ?].
      { apply core_inv_part; [done.. |]. pose proof (lookup_part _ _ _ _ Hb He) as Hi.
        pose proof (part_step hist (pt_plugin e) (pt_caps e) (pt_net e) NCloseAll (pt_caps e)) as Hs.
        cbn [net_step] in Hs. rewrite Hc in Hs. apply Hs; [by destruct e | done]. }
      split; try done; cbn [br_plugins set_plugins br_parts] in *.
      * intros id' k' Hg. rewrite map_get_delete in Hg by done. case_decide; [done |]. by apply Hr.
      * by apply map_delete_ok.
    + apply Forall_app. split; [|apply mqtt_drop_quiet]. apply Forall_fmap.
      pose proof (closeAll_closes (pt_net e)) as Hf. rewrite Hc in Hf. exact Hf.
  - cbn [fst snd]. split_and!; [done | apply mqtt_drop_quiet | by repeat split |].
    rewrite map_delete_notin; [done |]. by apply map_get_None.
Qed.

Lemma close_ids_spec hist g ids b : core_inv hist b →
  core_inv hist (close_ids b g ids).1 ∧ Forall quiet (close_ids b g ids).2 ∧ calls_same b (close_ids b g ids).1 ∧
  ∀ id, map_get (br_plugins (close_ids b g ids).1) id = if bool_decide (id ∈ ids) then None else map_get (br_plugins b) id.
Proof.
  revert b. induction ids as [|x ids IH]; intros b Hb; cbn [close_ids].
  { cbn. split_and!; [done | constructor | by repeat split |]. intros id. rewrite bool_decide_false; [done |]. by intros ?%elem_of_nil. }
  destruct (closePlugin_spec hist b g x Hb) as (Hc & Hq & Hs & Hd). destruct (closePlugin b g x) as [b1 fx]. cbn [fst snd] in *.
  destruct (IH b1 Hc) as (Hc' & Hq' & Hs' & Hd'). destruct (close_ids b1 g ids) as [b2 fx']. cbn [fst snd] in *.
  split_and!; [done | by apply Forall_app | by eapply calls_same_trans |]. intros id. rewrite Hd', Hd.
  rewrite map_get_delete by (by eapply ci_keys). repeat case_bool_decide; try case_decide; set_solver.
Qed.

Lemma wanted_same b b' id : br_desired b' = br_desired b → wanted b' id = wanted b id.
Proof. unfold wanted. by intros ->. Qed.

Lemma close_ids_inv hist g ids b : bridge_inv hist b →
  bridge_inv hist (close_ids b g ids).1 ∧ Forall quiet (close_ids b g ids).2 ∧ calls_same b (close_ids b g ids).1.
Proof.
  intros [Hc Hd Hw]. destruct (close_ids_spec hist g ids b Hc) as (Hc' & Hq & Hs & Hg). split_and!; [|done..].
  pose proof Hs as (Hde & _). split; [done | congruence |]. intros id. rewrite Hg, (wanted_same _ _ _ Hde).
  case_bool_decide; [done | apply Hw].
Qed.

Lemma bridge_inv_more hist i b : state_of i = None → bridge_inv hist b → bridge_inv (hist ++ [i]) b.
Proof.
  intros Hi [Hc Hd Hw]. split; [by apply core_inv_more | | done]. by rewrite states_of_snoc, Hi, app_nil_r.
Qed.

(** What the invariant does not look at. *)
Lemma bridge_inv_frame hist b rpc relay pairs sockets : bridge_inv hist b →
  bridge_inv hist (Bridge (br_desired b) (br_plugins b) (br_parts b) rpc relay pairs sockets (br_calls b) (br_ncalls b) (br_inflight b)).
Proof. intros [[] ? ?]. by split; [split | |]. Qed.

(** ** A new state *)

Lemma server_state hist g p now o text b : core_inv hist b → br_desired b = last (states_of hist) →
  (∀ id, map_get (br_plugins b) id ≠ None → wanted b id ≠ None) →
  bridge_inv (hist ++ [ServerText g p now o text]) (observe b g text).1 ∧ Forall quiet (observe b g text).2.
Proof.
  intros Hc Hd Hw. set (i := ServerText g p now o text). unfold observe. destruct (state_in text) as [st|] eqn:Hst.
  - unfold setDesired. set (b1 := set_desired b st). set (ids := filter _ _).
    assert (core_inv (hist ++ [i]) b1) as Hc1 by (apply core_inv_more; destruct Hc; by split).
    destruct (close_ids_spec _ g ids b1 Hc1) as (Hc' & Hq & Hs & Hg). destruct (close_ids b1 g ids) as [b2 fx]. cbn [fst snd] in *.
    pose proof Hs as (Hde & _). split.
    + split; [done | |].
      * rewrite Hde, states_of_snoc. cbn [state_of i]. rewrite Hst. cbn. by rewrite last_snoc.
      * intros id. rewrite Hg, (wanted_same _ _ _ Hde). case_bool_decide as Hin; [done |]. intros Hm Hn. apply Hin.
        unfold ids. rewrite list_elem_of_filter. split; [done |]. destruct (decide (id ∈ (br_plugins b).*1)); [done |].
        by apply map_get_None in n.
    + apply Forall_app. split; [done |]. case_bool_decide; repeat constructor.
  - cbn. split; [|constructor]. split; [by apply core_inv_more | | done].
    rewrite states_of_snoc. cbn [state_of i]. by rewrite Hst, app_nil_r.
Qed.

(** ** A call of the edge host *)

Lemma entry_spec hist b id : bridge_inv hist b → wanted b id ≠ None →
  bridge_inv hist (entry b id).1 ∧ calls_same b (entry b id).1 ∧
  ∃ e, br_parts (entry b id).1 !! (entry b id).2 = Some e ∧ pt_plugin e = id.
Proof.
  intros [Hc Hd Hw] Hid. unfold entry. destruct (map_get (br_plugins b) id) as [k|] eqn:Hk; cbn [fst snd].
  - split_and!; [done | by repeat split | by apply (ci_plugins _ _ Hc)].
  - destruct Hc as [Hp Hr Hm Hcs Hn]. split_and!; [| by repeat split |].
    + split; [split; try done; cbn [br_plugins br_parts set_plugins] | done |].
      * apply Forall_app. split; [done |]. constructor; [|done]. by exists [].
      * intros id' k'. rewrite map_get_set. case_decide as He.
        -- intros [= <-]. subst. eexists. split; [by apply list_lookup_middle | done].
        -- intros Hg. destruct (Hr _ _ Hg) as (e & He' & ?). exists e. split; [|done]. by apply lookup_app_l_Some.
      * by apply map_set_ok.
      * cbn [br_plugins set_plugins]. intros id'. rewrite map_get_set. case_decide as He; [by intros _; subst | apply Hw].
    + cbn [br_parts set_plugins]. eexists. split; [by apply list_lookup_middle | done].
Qed.

Lemma call_effects hist g b k plugin st p c fx : last (states_of hist) = Some st → approves st plugin p → caps_le c (p_caps p) →
  Forall (effect_ok c (wd_lan (gw_world g))) fx → Forall (call_ok hist g) (fx ≫= lan_effect b g k plugin).
Proof.
  intros Hst Ha Hle Hfx. apply Forall_bind. eapply Forall_impl; [exact Hfx |]. intros e He.
  change (Forall (call_ok hist g) (lan_effect b g k plugin e)).
  assert (lan_effect b g k plugin e = [Lan_ k e]) as -> by (destruct e; try done).
  constructor; [|constructor]. right. exists st, plugin, p. split_and!; [done | done |]. by eapply effect_ok_mono.
Qed.

Lemma handleCall_ok hist b g m : bridge_inv hist b →
  bridge_inv hist (handleCall b g m).1.1 ∧ Forall (call_ok hist g) (handleCall b g m).1.2 ∧ calls_same b (handleCall b g m).1.1.
Proof.
  intros Hb.
  assert (∀ e, bridge_inv hist (b, @nil bridge_effect, Some (@Throw json e)).1.1 ∧ Forall (call_ok hist g) [] ∧ calls_same b b) as Hfail
    by (intros; split_and!; [done | constructor | by repeat split]).
  unfold handleCall. destruct (field m (js "plugin")) as [[| | |id| |]|]; try apply (Hfail "").
  destruct (negb (validId id)); [apply (Hfail "") |]. destruct (field m (js "api")) as [[| | |api| |]|]; try apply (Hfail "").
  destruct (_ && _); [apply (Hfail "") |]. destruct (wanted b id) as [p|] eqn:Hp; [|apply (Hfail "")].
  destruct (validateCaps _) as [claimed| |]; [|apply (Hfail "")..].
  destruct (wanted_approves _ _ _ Hp) as (st & Hst & Ha).
  destruct (entry_spec hist b id Hb) as (Hb' & Hs & e & He & Hid); [congruence |].
  destruct (entry b id) as [b1 k]. cbn [fst snd] in *. rewrite He.
  pose proof Hs as (Hd & _). rewrite (bi_desired _ _ Hb) in Hst.
  destruct (intersectCaps_greatest claimed (p_caps p)) as (_ & Hle & _). set (c := intersectCaps claimed (p_caps p)) in *.
  set (args := match field m (js "args") with Some (JObj a) => a | _ => [] end).
  assert (∀ n, part_inv hist (Part (pt_plugin e) c n) →
    bridge_inv hist (set_plugins b1 (br_plugins b1) (<[k:=Part (pt_plugin e) c n]> (br_parts b1)))) as Hset.
  { intros n Hn. destruct Hb' as [Hc Hde Hw]. split; [by apply core_inv_part | done | done]. }
  pose proof (lookup_part _ _ _ _ (bi_core _ _ Hb') He) as Hpart.
  destruct (map_get NET_APIS api) as [f|].
  - pose proof (net_call_ok (pt_net e) c (gw_world g) f args) as Hok.
    pose proof (part_step hist (pt_plugin e) (pt_caps e) (pt_net e) (NCall c (gw_world g) f args) c) as Hn. cbn [net_step] in Hn.
    cbn [br_plugins br_parts set_plugins]. rewrite <- Hid in *.
    destruct (net_call (pt_net e) c (gw_world g) f args) as [[n fx] o]. cbn [fst snd] in *.
    split_and!; [| by eapply call_effects | done]. rewrite list_insert_insert_eq. apply Hset, Hn; [by destruct e |].
    exists st, p. split_and!; [|done..]. apply last_Some in Hst as [l ->]. apply elem_of_app. right. by left.
  - assert (part_inv hist (Part (pt_plugin e) c (pt_net e))) as Hsame by (destruct Hpart as (nh & ? & ?); by exists nh).
    destruct (negb _); cbn [fst snd]; (split_and!; [by apply Hset | | done]); [constructor |].
    constructor; [|constructor]. by exists st, p.
Qed.

(** ** An event of the network *)

Lemma part_net_inv hist e : part_inv hist e → ∃ nh, net_inv nh (pt_net e) ∧ Forall (approved hist (pt_plugin e)) nh.
Proof.
  intros (nh & -> & Hf). exists nh. split; [|done]. apply (net_run_ok nh []). by split; constructor.
Qed.

Lemma approved_group hist plugin nh s g : Forall (approved hist plugin) nh → approved_socket nh s → g ∈ us_groups s →
  ∃ st p u, st ∈ states_of hist ∧ approves st plugin p ∧ c_udp (p_caps p) = Some u ∧ g ∈ u_multicast u.
Proof.
  intros Hf (c & w & a & u & Hin & Hc & _ & Hg) Hgs. rewrite Forall_forall in Hf. destruct (Hf _ Hin) as (st & p & Hst & Ha & Hle).
  destruct (le_udp _ _ Hle u Hc) as (u' & Hu' & _ & Hm). exists st, p, u'. split_and!; [done..|]. by apply Hm, Hg.
Qed.

Lemma push_ok hist i b g plugin m :
  match m with
  | MUdp _ bytes address _ => blen bytes ≤ LIMITS.udpDatagramBytes ∧ ∃ l, lan_target l [] address
  | MMdns _ ip => ∃ l, lan_target l [] ip
  | _ => True
  end → Forall (event_ok hist i) (push b g (FPush plugin m)).
Proof.
  intros Hm. unfold push, rpcSend. destruct (_ || _); [constructor |]. destruct (br_rpc b); [|constructor].
  destruct (_ && _); [|constructor]. constructor; [|constructor]. by exists plugin, m.
Qed.

Lemma event_effects hist b g k e i nh fx : is_event i = true → Forall (approved hist (pt_plugin e)) nh → step_ok nh i fx →
  Forall (event_ok hist i) (fx ≫= lan_effect b g k (pt_plugin e)).
Proof.
  intros Hi Hf Hs. apply Forall_bind. apply Forall_forall. intros x Hx.
  change (Forall (event_ok hist i) (lan_effect b g k (pt_plugin e) x)).
  assert (∀ c, is_close c → Forall (event_ok hist i) (lan_effect b g k (pt_plugin e) c)) as Hclose.
  { intros c Hc. destruct c; try done; (constructor; [by left | constructor]). }
  destruct i; try done; cbn [step_ok] in Hs.
  - apply Hs in Hx as [-> | (gr & iface & s & -> & Hap & Hg & _)]; [by apply Hclose |].
    constructor; [|constructor]. right. destruct (approved_group _ _ _ _ _ Hf Hap Hg) as (st & p & u & ?).
    exists id, gr, iface, st, (pt_plugin e), p, u. tauto.
  - apply Hs in Hx as (bs & -> & Hl & Hb). apply push_ok. split; [done | by exists l].
  - subst. by apply elem_of_nil in Hx.
  - apply Hs in Hx as ->. by apply Hclose.
  - apply Hs in Hx as ->. by apply push_ok.
  - subst. apply list_elem_of_singleton in Hx as ->. by apply push_ok.
  - subst. apply list_elem_of_singleton in Hx as ->. by apply push_ok.
  - subst. apply list_elem_of_singleton in Hx as ->. by apply push_ok.
  - apply Hs in Hx as [-> Hl]. apply push_ok. by exists l.
Qed.

Lemma part_event_ok hist b g k i : bridge_inv hist b →
  bridge_inv hist (part_event b g k i).1 ∧ Forall (event_ok hist i) (part_event b g k i).2.
Proof.
  intros Hb. unfold part_event. destruct (br_parts b !! k) as [e|] eqn:He; [|by split; [|constructor]].
  destruct (is_event i) eqn:Hi; [|by split; [|constructor]].
  pose proof (lookup_part _ _ _ _ (bi_core _ _ Hb) He) as Hp. destruct (part_net_inv _ _ Hp) as (nh & Hn & Hf).
  destruct (net_step_ok nh (pt_net e) i Hn) as [_ Hs].
  pose proof (part_step hist (pt_plugin e) (pt_caps e) (pt_net e) i (pt_caps e)) as Hpi.
  destruct (net_step (pt_net e) i) as [n fx]. cbn [fst snd] in *. split; [|by eapply event_effects].
  destruct Hb as [Hc Hd Hw]. split; [|done|done]. apply core_inv_part; [done..|]. apply Hpi; [by destruct e | by destruct i].
Qed.

(** ** Calls that wait and calls that are answered *)

Lemma rpcSend_quiet g ws f : Forall quiet (rpcSend g ws f).
Proof. unfold rpcSend. destruct ws; [|constructor]. destruct (_ && _); repeat constructor. Qed.
Lemma reply_quiet g ws id r : Forall quiet (reply_to g ws id r).
Proof.
  unfold reply_to. pose proof (rpcSend_quiet g (Some ws) (FResult id r)) as Hq.
  pose proof (rpcSend_quiet g (Some ws) (FResult id (Throw "too_large"))).
  by destruct (rpcSend g (Some ws) (FResult id r)), r.
Qed.
Lemma quiet_call hist g fx : Forall quiet fx → Forall (call_ok hist g) fx.
Proof. intros Hf. eapply Forall_impl; [exact Hf |]. intros [] Hx; try done. by left. Qed.

Lemma settled_ok hist b g n r : bridge_inv hist b → bridge_inv hist (settled b g n r).1 ∧ Forall quiet (settled b g n r).2.
Proof.
  intros [[Hp Hr Hm [Hi Hmax] [Hk Hn]] Hd Hw]. unfold settled. destruct (map_get (br_calls b) n) as [c|] eqn:Hc; [|by repeat split].
  cbn [fst snd]. split.
  - split; [split; try done|done|done]; cbn [br_inflight br_calls br_ncalls set_calls].
    + rewrite (map_size_delete _ _ _ Hk Hc). lia.
    + split; [by apply map_delete_ok | by apply map_delete_Forall].
  - apply reply_quiet.
Qed.

Lemma calls_pushed hist b ws id r : bridge_inv hist b → br_inflight b < MAX_INFLIGHT →
  bridge_inv hist (set_calls b (br_calls b ++ [(br_ncalls b, RpcCall ws id r)]) (S (br_ncalls b)) (br_inflight b + 1)).
Proof.
  intros [[Hp Hr Hm [Hi Hmax] [Hk Hn]] Hd Hw] Hlt.
  split; [split; try done|done|done]; cbn [br_inflight br_calls br_ncalls set_calls].
  - rewrite map_size_snoc. lia.
  - split.
    + unfold map_ok in *. rewrite fmap_app. apply NoDup_app. split_and!; [done | | by apply NoDup_singleton].
      intros x ((y & z) & Hx & Hy)%list_elem_of_fmap Hs%list_elem_of_singleton. cbn in Hx, Hs. rewrite Forall_forall in Hn.
      specialize (Hn _ Hy). cbn in Hn. lia.
    + apply Forall_app. split; [|by repeat constructor]. eapply Forall_impl; [exact Hn |]. cbn. lia.
Qed.

Lemma onRpc_ok hist b g ws m : bridge_inv hist b →
  bridge_inv hist (onRpc b g ws m).1 ∧ Forall (call_ok hist g) (onRpc b g ws m).2.
Proof.
  intros Hb. assert (bridge_inv hist (b, @nil bridge_effect).1 ∧ Forall (call_ok hist g) []) as Hnone by (split; [done | constructor]).
  unfold onRpc. destruct (is_str _ (js "close")).
  - destruct (field _ _) as [[| | |id| |]|]; try exact Hnone. destruct (validId id); [|exact Hnone].
    destruct (close_ids_inv hist g [id] b Hb) as (Hc & Hq & _). cbn [close_ids] in *.
    destruct (closePlugin b g id) as [b1 fx]. cbn [fst snd] in *. rewrite app_nil_r in Hq. split; [done | by apply quiet_call].
  - destruct (is_str _ _); [|exact Hnone]. destruct (id_of _) as [id|]; [|exact Hnone].
    destruct (Z.leb_spec MAX_INFLIGHT (br_inflight b)) as [|Hlt]; [split; [done | apply quiet_call, reply_quiet] |].
    destruct (handleCall_ok hist b g m Hb) as (Hb' & Hf & Hs). destruct (handleCall b g m) as [[b1 fx] r].
    cbn [fst snd] in *. split; [|done]. apply calls_pushed; [done |]. destruct Hs as (_ & _ & _ & -> & _). done.
Qed.

Lemma closeAll_ok hist b g : bridge_inv hist b →
  bridge_inv hist (closeAllPlugins b g).1 ∧ Forall quiet (closeAllPlugins b g).2.
Proof. intros Hb. destruct (close_ids_inv hist g (br_plugins b).*1 b Hb) as (? & ? & _). done. Qed.

Lemma closeRelay_ok hist b code : bridge_inv hist b →
  bridge_inv hist (closeRelay b code).1 ∧ Forall quiet (closeRelay b code).2.
Proof.
  intros Hb. unfold closeRelay. destruct (br_relay b); [|by split; [|constructor]].
  split; [by apply bridge_inv_frame | by repeat constructor].
Qed.

(** ** Every step *)

Lemma bridge_step_ok hist b i : bridge_inv hist b →
  bridge_inv (hist ++ [i]) (bridge_step b i).1 ∧ input_ok hist i (bridge_step b i).2.
Proof.
  intros Hb. destruct i as [g p now o text|p o text|now|p code o|p o|p now t|g|g ws text|g ws|g k e|g plugin m|g n r|g]; cbn [bridge_step input_ok].
  1: { unfold server_text. set (b0 := set_relay _ _ _ _). destruct Hb as [Hc Hd Hw].
    destruct (server_state hist g p now o text b0) as [Hi Hq]; [by destruct Hc | done | done |].
    destruct (observe b0 g text) as [b1 fx]. cbn [fst snd] in *. split; [done |]. apply Forall_app. split; [done |].
    destruct o; repeat constructor. }
  all: match goal with |- bridge_inv (_ ++ [?x]) _ ∧ _ => apply (bridge_inv_more _ x _ eq_refl) in Hb as Hb' end.
  - split; [done |]. unfold edge_text. destruct o; repeat constructor.
  - unfold bindRelay. pose proof (closeRelay_ok _ b 4000 Hb') as [Hi Hq]. destruct (closeRelay b 4000) as [b1 fx]. cbn [fst snd] in *.
    split; [by apply bridge_inv_frame | done].
  - split; [by apply bridge_inv_frame |]. destruct o; repeat constructor.
  - split; [by apply bridge_inv_frame |]. destruct o; repeat constructor.
  - split; [done |]. unfold relay_tick. destruct (map_get _ _); [|constructor]. destruct (_ <? _); repeat constructor.
  - unfold bindRpc.
    assert (bridge_inv (hist ++ [RpcOpens g]) (set_rpc b None (br_sockets b))) as Hn by by apply bridge_inv_frame.
    destruct (closeAll_ok _ _ g Hn) as [Hi Hq]. destruct (br_rpc b) as [old|].
    + destruct (closeAllPlugins _ g) as [b1 fx]. cbn [fst snd] in *. split; [by apply bridge_inv_frame |].
      constructor; [done |]. apply Forall_app. split; [done | apply rpcSend_quiet].
    + split; [by apply bridge_inv_frame | apply rpcSend_quiet].
  - unfold rpc_text. destruct (JSON_parse text) as [[| | | | |m]|]; try (by split; [|constructor]).
    split; [exact (proj1 (onRpc_ok _ b g ws m Hb')) | by apply onRpc_ok].
  - unfold rpc_closed. case_bool_decide; [|by split; [|constructor]]. apply closeAll_ok. by apply bridge_inv_frame.
  - split; [exact (proj1 (part_event_ok _ b g k e Hb')) | by apply part_event_ok].
  - split; [done |]. unfold push. destruct (_ || _); [constructor | apply rpcSend_quiet].
  - by apply settled_ok.
  - unfold stop. destruct (closeRelay_ok _ b 1001 Hb') as [Hi Hq]. destruct (closeRelay b 1001) as [b1 fx]. cbn [fst snd] in *.
    destruct (closeAll_ok (hist ++ [Stop g]) (set_rpc b1 None (br_sockets b1)) g) as [Hi' Hq']; [by apply bridge_inv_frame |].
    destruct (closeAllPlugins _ g) as [b2 fx']. cbn [fst snd] in *. split; [done |]. rewrite !Forall_app. split_and!; [done | | done].
    destruct (br_rpc b1); repeat constructor.
Qed.

Lemma bridge_run_ok inputs hist b : bridge_inv hist b →
  bridge_inv (hist ++ inputs) (bridge_run b inputs).1 ∧ trace_ok hist (bridge_run b inputs).2.
Proof.
  revert hist b. induction inputs as [|i inputs IH]; intros hist b Hb; cbn [bridge_run]; [by rewrite app_nil_r |].
  destruct (bridge_step_ok hist b i Hb) as [Hi Hs]. destruct (bridge_step b i) as [b1 fx]. cbn [fst snd] in *.
  destruct (IH _ _ Hi) as [Hr Ht]. destruct (bridge_run b1 inputs) as [b2 tr]. cbn [fst snd] in *. rewrite <- app_assoc in Hr.
  split; [exact Hr | split; [exact Hs | exact Ht]].
Qed.

End Facts.

(** ** Packages for the edge host *)

(** Only packages of the last state are fetched from the server, with the gateway's access. *)
Lemma onRequest_Fetch b method url upstream id version : onRequest b method url upstream = Fetch id version →
  upstream = true ∧ validId id = true ∧ ∃ st p, br_desired b = Some st ∧ p ∈ st_plugins st ∧ p_id p = id ∧ p_version p = version.
Proof.
  unfold onRequest, listed. destruct (if bool_decide _ then _ else _) as [[a v]|]; [|done].
  destruct (decodeURIComponent a) as [id'|]; [|done]. destruct (decodeURIComponent v) as [v'|]; [|done].
  destruct (_ && _ && _) eqn:Hc; [|done]. destruct upstream; [|done]. intros [= -> ->].
  rewrite !andb_true_iff in Hc. destruct Hc as [[Hid _] Hl]. destruct (br_desired b) as [st|]; [|done].
  apply existsb_exists in Hl as (p & Hp & [?%bool_decide_eq_true ?%bool_decide_eq_true]%andb_true_iff).
  split_and!; [done..|]. exists st, p. split_and!; try done. by apply list_elem_of_In.
Qed.

(** ** What withdrawing a plugin does not reach *)

Definition sample_udp : json := JObj [(js "udp", JObj [(js "ports", JArr [JNum (NInt 5000)])])].
Definition state_text (n : Z) : jstr := 34 :: js "state" ++ [34; n].
Definition sample_message (plugins : list json) : json := JObj [(js "t", JStr (js "state")); (js "edgeEnabled", JBool true);
  (js "plugins", JArr plugins)].
Definition sample_plugin : json := JObj [(js "id", JStr (js "abc")); (js "version", JStr (js "1.0.0"));
  (js "sha256", JStr (replicate 64 48)); (js "caps", sample_udp)].
Definition sample_call : json := JObj [(js "t", JStr (js "call")); (js "id", JNum (NInt 7)); (js "plugin", JStr (js "abc"));
  (js "api", JStr (js "udp.bind")); (js "caps", sample_udp); (js "args", JObj [(js "port", JNum (NInt 5000))])].
Definition sample_parse (text : jstr) : option json :=
  if bool_decide (text = state_text 1) then Some (sample_message [sample_plugin])
  else if bool_decide (text = state_text 0) then Some (sample_message [])
  else if bool_decide (text = js "call") then Some sample_call else None.
Definition sample_gateway : gateway := Gateway sample_world None true 0.
#[local] Instance sample_wire : Wire := {| frame_bytes := λ _, 100 |}.

(** A plugin whose socket is being bound when the server withdraws it: the
    socket is bound afterwards, belongs to no entry, and what it receives is
    still pushed to the edge host. *)
Lemma push_after_withdrawal :
  let inputs := [RpcOpens sample_gateway; ServerText sample_gateway 0 0 true (state_text 1); RpcText sample_gateway 0 (js "call");
    ServerText sample_gateway 0 0 true (state_text 0); Event sample_gateway 0 (NBound (wd_lan sample_world) 1 true);
    Event sample_gateway 0 (NDatagram (wd_lan sample_world) 1 [65] (js "192.168.1.9") 5000)] in
  let r := @bridge_run ascii_unicode (toy_node sample_parse) sample_numbers sample_web sample_wire newBridge inputs in
  br_plugins r.1 = [] ∧ option_map (map_size ∘ nt_udp ∘ pt_net) (br_parts r.1 !! 0%nat) = Some 1 ∧
  option_map snd (last r.2) = Some [ToEdge 0 (FPush (js "abc") (MUdp 1 [65] (js "192.168.1.9") 5000))].
Proof. vm_compute. split_and!; reflexivity. Qed.
