(* ===== verification/PluginProcess.v ===== *)
(** * src/edge/pluginProcess.js

    The process of one edge part, as a machine: its inputs are the calls of
    the edge host, the messages, output and end of the child, and the timers.
    A promise is a number; an operation gives the new process and what it
    does. *)

From S2P Require Import Prelude JsBuffer JsMap JsValues JsText Limits EdgeConstants Manifest Protocol Packages.

Local Open Scope Z_scope.

Record spec := Spec { sp_id : jstr; sp_version : jstr; sp_dir : list jstr; sp_entry : jstr; sp_memoryMb : Z }.
Record timing := Timing {
  startTimeoutMs : Z; childPingMs : Z; childDeadMs : Z; stableAfterMs : Z; stopGraceMs : Z }.

Inductive pstate := Stopped | Starting | Running | Crashed | Stopping.
#[export] Instance pstate_eq_dec : EqDecision pstate.
Proof. solve_decision. Defined.

(** ** The state *)

(** [lf_child]: the child and its number; children are numbered as they are forked. *)
Record life := Life {
  lf_state : pstate; lf_wanted : bool; lf_child : option nat; lf_children : nat;
  lf_restarts : Z; lf_backoffIdx : nat; lf_restartTimer : option Z; lf_restartAt : option Z;
  lf_readyTimer : option nat; lf_pingTimer : bool; lf_lastPong : Z; lf_startedAt : Z; lf_lastError : option jstr }.

Record process := Process {
  ps_life : life;
  ps_seq : Z; ps_pending : list (Z * nat); ps_promises : nat;
  ps_hostCalls : Z; ps_host : list (nat * option json); ps_hostNext : nat;
  ps_events : RateWindow; ps_logs : RateWindow;
  ps_buffers : list ((nat * bool) * jstr);
  ps_stopResolve : option nat; ps_stops : nat }.

Definition newLife : life := Life Stopped false None 0 0 0 None None None false 0 0 None.
Definition newProcess : process :=
  Process newLife 0 [] 0 0 [] 0 (newRateWindow LIMITS.eventsPerSec 1000) (newRateWindow LIMITS.logsPerSec 1000) [] None 0.

(** ** What it does *)

(** [Throws]: the operation throws to its caller; [Uncaught]: the handler of
    an event throws, which ends the edge host. *)
Inductive to_child :=
  | CInit (version : jstr) (config : json) | CPing (id : Z) | CStop | CCall (id : Z) (method : jstr) (params : json)
  | CConfigure (data : json) | CHostResult (id : option json) (r : res json) | CPush (m : json).
Inductive effect :=
  | EmitState (s : pstate) | EmitStarted | EmitExit | EmitLog (level line : jstr) | EmitEvent (name : jstr) (data : json)
  | Fork (child : nat) | Kill (child : nat) | ToChild (child : nat) (m : to_child)
  | Resolve (promise : nat) (v : option json) | Reject (promise : nat) (code message : jstr) | StopDone (stop : nat)
  | HostCall (n : nat) (api : jstr) (args : json)
  | Throws (e : string) | Uncaught (e : string).

(** An operation, and one after another. *)
Definition op := process → process * list effect.
Definition then_ (f g : op) : op := λ p, let '(p, fx) := f p in let '(p, fx') := g p in (p, fx ++ fx').
Definition nothing : op := λ p, (p, []).
Definition emit (fx : list effect) : op := λ p, (p, fx).
Definition on_life (f : life → life) : op := λ p,
  (Process (f (ps_life p)) (ps_seq p) (ps_pending p) (ps_promises p) (ps_hostCalls p) (ps_host p) (ps_hostNext p)
     (ps_events p) (ps_logs p) (ps_buffers p) (ps_stopResolve p) (ps_stops p), []).
Declare Scope op_scope.
Infix "▷" := then_ (at level 65, right associativity) : op_scope.
Open Scope op_scope.

(** What an operation sees: the clock, the channel of the child, whether
    [fork] gives a child (or an error), the plugin's settings. *)
Record env := Env { ev_now : Z; ev_connected : bool; ev_fork : option jstr; ev_config : json }.

Section Process.
Context `{Numbers} (timing_ : timing) (backoff : list Z) (sp : spec).

Definition set_state (s : pstate) (l : life) : life :=
  Life s (lf_wanted l) (lf_child l) (lf_children l) (lf_restarts l) (lf_backoffIdx l) (lf_restartTimer l) (lf_restartAt l)
    (lf_readyTimer l) (lf_pingTimer l) (lf_lastPong l) (lf_startedAt l) (lf_lastError l).
Definition set_wanted (b : bool) (l : life) : life :=
  Life (lf_state l) b (lf_child l) (lf_children l) (lf_restarts l) (lf_backoffIdx l) (lf_restartTimer l) (lf_restartAt l)
    (lf_readyTimer l) (lf_pingTimer l) (lf_lastPong l) (lf_startedAt l) (lf_lastError l).
Definition set_error (e : option jstr) (l : life) : life :=
  Life (lf_state l) (lf_wanted l) (lf_child l) (lf_children l) (lf_restarts l) (lf_backoffIdx l) (lf_restartTimer l) (lf_restartAt l)
    (lf_readyTimer l) (lf_pingTimer l) (lf_lastPong l) (lf_startedAt l) e.
Definition set_pong (now : Z) (l : life) : life :=
  Life (lf_state l) (lf_wanted l) (lf_child l) (lf_children l) (lf_restarts l) (lf_backoffIdx l) (lf_restartTimer l) (lf_restartAt l)
    (lf_readyTimer l) (lf_pingTimer l) now (lf_startedAt l) (lf_lastError l).
Definition set_started (now : Z) (l : life) : life :=
  Life (lf_state l) (lf_wanted l) (lf_child l) (lf_children l) (lf_restarts l) (lf_backoffIdx l) (lf_restartTimer l) (lf_restartAt l)
    (lf_readyTimer l) (lf_pingTimer l) now now (lf_lastError l).
Definition set_timers (ready : option nat) (ping : bool) (l : life) : life :=
  Life (lf_state l) (lf_wanted l) (lf_child l) (lf_children l) (lf_restarts l) (lf_backoffIdx l) (lf_restartTimer l) (lf_restartAt l)
    ready ping (lf_lastPong l) (lf_startedAt l) (lf_lastError l).
Definition set_restart (delay at_ : option Z) (l : life) : life :=
  Life (lf_state l) (lf_wanted l) (lf_child l) (lf_children l) (lf_restarts l) (lf_backoffIdx l) delay at_
    (lf_readyTimer l) (lf_pingTimer l) (lf_lastPong l) (lf_startedAt l) (lf_lastError l).
Definition set_backoff (restarts : Z) (idx : nat) (l : life) : life :=
  Life (lf_state l) (lf_wanted l) (lf_child l) (lf_children l) restarts idx (lf_restartTimer l) (lf_restartAt l)
    (lf_readyTimer l) (lf_pingTimer l) (lf_lastPong l) (lf_startedAt l) (lf_lastError l).
(** A child is forked; it is gone. *)
Definition set_child (l : life) : life :=
  Life (lf_state l) (lf_wanted l) (Some (lf_children l)) (S (lf_children l)) (lf_restarts l) (lf_backoffIdx l) (lf_restartTimer l)
    (lf_restartAt l) (Some (lf_children l)) (lf_pingTimer l) (lf_lastPong l) (lf_startedAt l) (lf_lastError l).
Definition no_child (l : life) : life :=
  Life (lf_state l) (lf_wanted l) None (lf_children l) (lf_restarts l) (lf_backoffIdx l) (lf_restartTimer l)
    (lf_restartAt l) None false (lf_lastPong l) (lf_startedAt l) (lf_lastError l).

Definition setState (s : pstate) : op := λ p,
  if bool_decide (lf_state (ps_life p) = s) then (p, []) else (on_life (set_state s) ▷ emit [EmitState s]) p.

Definition with_logs (p : process) (w : RateWindow) : process :=
  Process (ps_life p) (ps_seq p) (ps_pending p) (ps_promises p) (ps_hostCalls p) (ps_host p) (ps_hostNext p)
    (ps_events p) w (ps_buffers p) (ps_stopResolve p) (ps_stops p).
Definition log (now : Z) (level line : jstr) : op := λ p,
  let '(w, ok) := rw_take (ps_logs p) now in
  (with_logs p w, if ok then [EmitLog level (truncateUtf8 line LIMITS.logLineBytes)] else []).

(** [toChild(msg)]: whether it was sent. *)
Definition sends (ev : env) (p : process) (m : to_child) : list effect :=
  match lf_child (ps_life p) with Some c => if ev_connected ev then [ToChild c m] else [] | None => [] end.
Definition toChild (ev : env) (m : to_child) : op := λ p, (p, sends ev p m).

(** ** The end of a child *)

Definition unstable (now : Z) (l : life) : bool :=
  (lf_startedAt l =? 0) || negb (stableAfterMs timing_ <? now - lf_startedAt l).
Definition nextBackoff (now : Z) (l : life) : Z * nat :=
  let i := if unstable now l then lf_backoffIdx l else 0%nat in
  (nth (Nat.min i (length backoff - 1)) backoff 0, S i).

Definition set_calls (p : process) (seq : Z) (pending : list (Z * nat)) (promises : nat) : process :=
  Process (ps_life p) seq pending promises (ps_hostCalls p) (ps_host p) (ps_hostNext p)
    (ps_events p) (ps_logs p) (ps_buffers p) (ps_stopResolve p) (ps_stops p).
Definition set_stop (p : process) (r : option nat) (n : nat) : process :=
  Process (ps_life p) (ps_seq p) (ps_pending p) (ps_promises p) (ps_hostCalls p) (ps_host p) (ps_hostNext p)
    (ps_events p) (ps_logs p) (ps_buffers p) r n.

(** Every open call ends, and a [stop()] that waits. *)
Definition end_calls : op := λ p,
  (set_calls p (ps_seq p) [] (ps_promises p), (λ e, Reject e.2 (js "not_running") (js "edge part ended")) <$> ps_pending p).
Definition end_stop : op := λ p,
  (set_stop p None (ps_stops p), match ps_stopResolve p with Some s => [StopDone s] | None => [] end).

(** [e1 || e2] of error texts *)
Definition text_or (a : option jstr) (b : jstr) : jstr := match a with Some (c :: s) => c :: s | _ => b end.

(** [how]: the signal or the exit code, as a text; [err] the message of an
    error when there was no child. *)
Definition restart_later (now : Z) (how : jstr) (err : option jstr) : op := λ p,
  let l := ps_life p in
  let '(delay, idx) := nextBackoff now l in
  (on_life (λ l, set_error (Some (text_or (lf_lastError l) (default (js "exited (" ++ how ++ js ")") err)))
                   (set_backoff (lf_restarts l + 1) idx l))
   ▷ log now (js "error") (js "process ended (" ++ how ++ js ") " ++ 8212 :: js " restart in " ++ show_Z ((delay + 500) / 1000) ++ js " s")
   ▷ setState Crashed ▷ on_life (set_restart (Some delay) (Some (now + delay)))) p.

Definition onExit (now : Z) (how : jstr) (err : option jstr) (child : option nat) : op := λ p,
  if match child with Some c => negb (bool_decide (lf_child (ps_life p) = Some c)) | None => false end then (p, [])
  else
    (on_life no_child ▷ emit [EmitExit] ▷ end_calls ▷ end_stop
     ▷ λ p, if lf_wanted (ps_life p) then restart_later now how err p else setState Stopped p) p.

(** ** Starting *)

(** [entryPath.startsWith(dir + sep)] *)
Definition entry_ok : bool := inside (sp_dir sp) (join_path (sp_dir sp) (sp_entry sp)).

(** [spawn()]; it throws when the entry lies outside. *)
Definition entry_error : jstr := js "entry outside the plugin folder".
Definition spawn (ev : env) : op := λ p,
  match lf_child (ps_life p) with
  | Some _ => (p, [])
  | None =>
      (on_life (set_started (ev_now ev)) ▷ setState Starting
       ▷ match ev_fork ev with
          | Some e => onExit (ev_now ev) (js "null") (Some e) None
          | None => (λ p, (on_life set_child ▷ emit [Fork (lf_children (ps_life p))]) p) ▷ toChild ev (CInit (sp_version sp) (ev_config ev))
          end) p
  end.

Definition start (ev : env) : op := λ p,
  let p := (on_life (set_wanted true) p).1 in
  if bool_decide (lf_child (ps_life p) ≠ None) || bool_decide (lf_restartTimer (ps_life p) ≠ None) then (p, [])
  else
    (on_life (λ l, set_error None (set_backoff (lf_restarts l) 0 l))
     ▷ if entry_ok then spawn ev else emit [Throws "entry outside the plugin folder"]) p.

(** The restart timer fires. *)
Definition on_restart (ev : env) : op := λ p,
  match lf_restartTimer (ps_life p) with
  | None => (p, [])
  | Some _ =>
      (on_life (set_restart None None)
       ▷ λ p, if lf_wanted (ps_life p) then
                 if bool_decide (lf_child (ps_life p) ≠ None) then (p, [])
                 else if entry_ok then spawn ev p else onExit (ev_now ev) (js "null") (Some entry_error) None p
               else (p, [])) p
  end.

(** [stop()]: the number of its promise is [ps_stops]. *)
Definition stop (ev : env) : op := λ p,
  (on_life (λ l, set_restart None None (set_wanted false l))
   ▷ λ p, match lf_child (ps_life p) with
           | None => (setState Stopped ▷ λ p, (set_stop p (ps_stopResolve p) (S (ps_stops p)), [StopDone (ps_stops p)])) p
           | Some _ =>
               (setState Stopping ▷ (λ p, (set_stop p (Some (ps_stops p)) (S (ps_stops p)), [])) ▷ toChild ev CStop) p
           end) p.
(** The grace after [stop()] is over; the start took too long. *)
Definition stop_grace (child : nat) : op := emit [Kill child].
Definition start_timeout (now : Z) (child : nat) : op := λ p,
  if negb (bool_decide (lf_readyTimer (ps_life p) = Some child)) then (p, [])
  else if negb (bool_decide (lf_child (ps_life p) = Some child)) || negb (bool_decide (lf_state (ps_life p) = Starting))
  then on_life (set_timers None (lf_pingTimer (ps_life p))) p
  else
    (on_life (λ l, set_error (Some (js "start timeout")) (set_timers None (lf_pingTimer l) l))
     ▷ log now (js "error") (js "edge part did not start in time") ▷ emit [Kill child]) p.

(** ** Pings *)

Definition on_ping (ev : env) : op := λ p,
  let l := ps_life p in
  match lf_pingTimer l, lf_child l with
  | true, Some c =>
      if negb (bool_decide (lf_state l = Running)) then (p, [])
      else if childDeadMs timing_ <? ev_now ev - lf_lastPong l
      then (log (ev_now ev) (js "error") (js "edge part stopped answering " ++ 8212 :: js " restarting") ▷ emit [Kill c]) p
      else
        let id := ps_seq p + 1 in
        ((λ p, (set_calls p id (ps_pending p) (ps_promises p), [])) ▷ toChild ev (CPing id)) p
  | _, _ => (p, [])
  end.

(** ** Calls of the edge part *)

Definition reject_now (code message : string) : op := λ p,
  (set_calls p (ps_seq p) (ps_pending p) (S (ps_promises p)), [Reject (ps_promises p) (js code) (js message)]).

Definition call (ev : env) (method : jstr) (params : option json) : op := λ p,
  let l := ps_life p in
  if negb (bool_decide (lf_state l = Running)) || bool_decide (lf_child l = None) then reject_now "not_running" "edge part is not running" p
  else if LIMITS.openCallsPerPlugin <=? map_size (ps_pending p) then reject_now "busy" "too many open calls" p
  else
    let id := ps_seq p + 1 in
    let n := ps_promises p in
    match sends ev p (CCall id method (default JNull params)) with
    | [] => (set_calls p id (ps_pending p) (S n), [Reject n (js "not_running") (js "edge part is not running")])
    | fx => (set_calls p id (map_set (ps_pending p) id n) (S n), fx)
    end.
(** How long a call waits. *)
Definition call_limit (timeoutMs : num) : num :=
  num_max (NInt 1) (num_min (NInt LIMITS.callTimeoutMaxMs)
    (if is_finite timeoutMs then timeoutMs else NInt LIMITS.callTimeoutDefaultMs)).
Definition call_timeout (id : Z) : op := λ p,
  match map_get (ps_pending p) id with
  | Some n => (set_calls p (ps_seq p) (map_delete (ps_pending p) id) (ps_promises p),
               [Reject n (js "timeout") (js "edge part did not answer in time")])
  | None => (p, [])
  end.

Definition configure (ev : env) (data : json) : op := toChild ev (CConfigure data).

(** ** Calls of the plugin *)

Definition set_host (p : process) (n : Z) (calls : list (nat * option json)) (next : nat) : process :=
  Process (ps_life p) (ps_seq p) (ps_pending p) (ps_promises p) n calls next
    (ps_events p) (ps_logs p) (ps_buffers p) (ps_stopResolve p) (ps_stops p).

(** [typeof v === 'object'], lists too. *)
Definition object_or_empty (v : option json) : json :=
  match v with Some (JObj m) => JObj m | Some (JArr l) => JArr l | _ => JObj [] end.

(** A call whose name has no text fails: its promise is settled like any other. *)
Definition onHostCall (ev : env) (m : list (jstr * json)) : op := λ p,
  if LIMITS.hostCallsPerPlugin <=? ps_hostCalls p then (p, sends ev p (CHostResult (field m (js "id")) (Throw "busy")))
  else
    (set_host p (ps_hostCalls p + 1) (map_set (ps_host p) (ps_hostNext p) (field m (js "id"))) (S (ps_hostNext p)),
     match String_ (or_text (field m (js "api")) []) with
     | Ok api => [HostCall (ps_hostNext p) api (object_or_empty (field m (js "args")))]
     | _ => []
     end).
Definition host_settled (ev : env) (n : nat) (r : res json) : op := λ p,
  match map_get (ps_host p) n with
  | Some id => (set_host p (ps_hostCalls p - 1) (map_delete (ps_host p) n) (ps_hostNext p), sends ev p (CHostResult id r))
  | None => (p, [])
  end.

(** ** Messages *)

Definition with_events (p : process) (w : RateWindow) : process :=
  Process (ps_life p) (ps_seq p) (ps_pending p) (ps_promises p) (ps_hostCalls p) (ps_host p) (ps_hostNext p)
    w (ps_logs p) (ps_buffers p) (ps_stopResolve p) (ps_stops p).

(** [String(v)] that throws in a handler ends the edge host. *)
Definition text_then (v : json) (f : jstr → op) : op :=
  match String_ v with Ok s => f s | _ => emit [Uncaught type_error] end.

Definition LEVELS : list jstr := js <$> ["info"; "warn"; "error"].
Definition on_fatal (now : Z) (error : option json) : op :=
  text_then (or_text error (js "start failed")) (λ s,
    on_life (set_error (Some (cut 300 (hd [] (split_on 10 s)))))
    ▷ text_then (or_text error []) (λ s, log now (js "error") (js "start failed: " ++ cut 1800 s))).
Definition on_log (now : Z) (level line : option json) : op :=
  text_then (or_text line []) (λ s,
    log now (match level with Some (JStr l) => if bool_decide (l ∈ LEVELS) then l else js "info" | _ => js "info" end) s).
Definition on_event (now : Z) (name data : option json) : op := λ p,
  match name with
  | Some (JStr name) =>
      if negb (METHOD_RE name) then (p, [])
      else
        let '(w, ok) := rw_take (ps_events p) now in
        (with_events p w, if ok then [EmitEvent name (default JNull data)] else [])
  | _ => (p, [])
  end.
(** The promise is forgotten before its error is read. *)
Definition on_result (m : list (jstr * json)) : op := λ p,
  match (field m (js "id") ≫= as_int) ≫= λ id, (λ n, (id, n)) <$> map_get (ps_pending p) id with
  | Some (id, n) =>
      let p := set_calls p (ps_seq p) (map_delete (ps_pending p) id) (ps_promises p) in
      if truthy (field m (js "ok")) then (p, [Resolve n (field m (js "value"))])
      else
        text_then (or_text (field m (js "error")) (js "edge error")) (λ s,
          emit [Reject n (match field m (js "code") with Some (JStr c) => cut 32 c | _ => js "edge_error" end) (cut 500 s)]) p
  | None => (p, [])
  end.

Definition onMessage (ev : env) (m : json) : op :=
  match m with
  | JObj m =>
      let typ t := is_str (field m (js "t")) (js t) in
      if typ "ready" then
        on_life (λ l, set_error None (set_timers None true l)) ▷ setState Running ▷ emit [EmitStarted]
      else if typ "fatal" then on_fatal (ev_now ev) (field m (js "error"))
      else if typ "log" then on_log (ev_now ev) (field m (js "level")) (field m (js "line"))
      else if typ "event" then on_event (ev_now ev) (field m (js "name")) (field m (js "data"))
      else if typ "pong" then on_life (set_pong (ev_now ev))
      else if typ "result" then on_result m
      else if typ "host" then onHostCall ev m
      else nothing
  | _ => nothing
  end.

(** ** Output *)

(** [/ExperimentalWarning|--trace-warnings/] *)
Definition noise (line : jstr) : bool := has_text (js "ExperimentalWarning") line || has_text (js "--trace-warnings") line.
Definition OUTPUT_MAX : Z := 64 * 1024.
Definition cut_lines (buf : jstr) : list jstr * jstr :=
  let parts := split_on 10 (if OUTPUT_MAX <? str_len buf then keep_last OUTPUT_MAX buf else buf) in
  (trim <$> removelast parts, List.last parts []).
Fixpoint log_all (now : Z) (level : jstr) (lines : list jstr) : op :=
  match lines with
  | [] => nothing
  | l :: lines => (if nonempty l && negb (noise l) then log now level l else nothing) ▷ log_all now level lines
  end.
(** Output of a child; [err] for its error stream. *)
Definition on_output (now : Z) (child : nat) (err : bool) (chunk : list Z) : op := λ p,
  let '(lines, rest) := cut_lines (default [] (map_get (ps_buffers p) (child, err)) ++ utf8_decode chunk) in
  let p := Process (ps_life p) (ps_seq p) (ps_pending p) (ps_promises p) (ps_hostCalls p) (ps_host p) (ps_hostNext p)
             (ps_events p) (ps_logs p) (map_set (ps_buffers p) (child, err) rest) (ps_stopResolve p) (ps_stops p) in
  log_all now (if err then js "error" else js "info") lines p.

(** ** What can happen *)

Inductive input :=
  | Start (ev : env) | Stop (ev : env) | Call (ev : env) (method : jstr) (params : option json) | Configure (ev : env) (data : json)
  | Push (ev : env) (m : json)
  | Message (ev : env) (m : json) | Output (now : Z) (child : nat) (err : bool) (chunk : list Z)
  | ChildError (message : jstr) | Exit (now : Z) (how : jstr) (child : nat)
  | HostSettled (ev : env) (n : nat) (r : res json)
  | RestartTimer (ev : env) | PingTimer (ev : env) | CallTimeout (id : Z) | StopGrace (child : nat) | StartTimeout (now : Z) (child : nat).

Definition step (i : input) : op :=
  match i with
  | Start ev => start ev
  | Stop ev => stop ev
  | Call ev method params => call ev method params
  | Configure ev data => configure ev data
  | Push ev m => toChild ev (CPush m)
  | Message ev m => onMessage ev m
  | Output now c err chunk => on_output now c err chunk
  | ChildError e => on_life (set_error (Some e))
  | Exit now how c => onExit now how None (Some c)
  | HostSettled ev n r => host_settled ev n r
  | RestartTimer ev => on_restart ev
  | PingTimer ev => on_ping ev
  | CallTimeout id => call_timeout id
  | StopGrace c => stop_grace c
  | StartTimeout now c => start_timeout now c
  end.

Fixpoint run (is_ : list input) : op :=
  match is_ with [] => nothing | i :: is_ => step i ▷ run is_ end.
End Process.
