(* ===== verification/PluginProcessFacts.v ===== *)
(** * Properties of the process of an edge part

    Whatever the child sends, whenever it ends and whenever a timer fires. *)

From S2P Require Import Prelude JsBuffer JsMap JsValues JsText Limits EdgeConstants Manifest Protocol Packages PluginProcess.

Local Open Scope Z_scope.

Lemma then_eq f g p : (f ▷ g) p = ((g (f p).1).1, (f p).2 ++ (g (f p).1).2).
Proof. unfold then_. destruct (f p) as [q fx]. cbn. by destruct (g q). Qed.

(** ** What must hold *)

(** The promises that are settled, and those that are open. *)
Definition settles (e : effect) : option nat := match e with Resolve n _ | Reject n _ _ => Some n | _ => None end.
Definition settled (fx : list effect) : list nat := omap settles fx.
Definition open_ (p : process) : list nat := (ps_pending p).*2.
Definition crashed (fx : list effect) : Prop := ∃ e, Uncaught e ∈ fx.

(** Every promise is settled once or still open, unless the host ended. *)
Definition ledger (p : process) (fx : list effect) (p' : process) : Prop :=
  crashed fx ∨ (ps_promises p <= ps_promises p')%nat ∧
    open_ p' ++ settled fx ≡ₚ open_ p ++ seq (ps_promises p) (ps_promises p' - ps_promises p).

Section Facts.
Context `{Numbers} (timing_ : timing) (backoff : list Z) (sp : spec).
Abbreviation stepx := (step timing_ backoff sp).
Abbreviation runx := (run timing_ backoff sp).

Record process_inv (p : process) : Prop := {
  pi_keys : map_ok (ps_pending p) ∧ Forall (λ e, e.1 ≤ ps_seq p) (ps_pending p);
  pi_size : map_size (ps_pending p) ≤ LIMITS.openCallsPerPlugin;
  pi_child : lf_child (ps_life p) = None → ps_pending p = [];
  pi_timer : lf_restartTimer (ps_life p) ≠ None → lf_wanted (ps_life p) = true ∧ lf_child (ps_life p) = None;
  pi_wanted : entry_ok sp = true → lf_wanted (ps_life p) = true → lf_child (ps_life p) ≠ None ∨ lf_restartTimer (ps_life p) ≠ None;
  pi_numbers : ∀ c, lf_child (ps_life p) = Some c → (c < lf_children (ps_life p))%nat;
  pi_host : ps_hostCalls p = map_size (ps_host p) ∧ ps_hostCalls p ≤ LIMITS.hostCallsPerPlugin ∧
    map_ok (ps_host p) ∧ Forall (λ e, (e.1 < ps_hostNext p)%nat) (ps_host p) }.

(** ** Operations that leave the calls, the child and the restart alone *)

Definition core (p : process) :=
  (lf_wanted (ps_life p), lf_child (ps_life p), lf_children (ps_life p), lf_restartTimer (ps_life p),
   (ps_seq p, ps_pending p, ps_promises p), (ps_hostCalls p, ps_host p, ps_hostNext p)).
Definition quiet (fx : list effect) : Prop := settled fx = [] ∧ ∀ c, Fork c ∉ fx.
Definition light (f : op) : Prop := ∀ p, core (f p).1 = core p ∧ quiet (f p).2.

Lemma quiet_app a b : quiet (a ++ b) ↔ quiet a ∧ quiet b.
Proof.
  unfold quiet, settled. rewrite omap_app. setoid_rewrite elem_of_app. split.
  - intros [[-> ->]%app_eq_nil Hf]. naive_solver.
  - intros [[-> Ha] [-> Hb]]. naive_solver.
Qed.

Lemma light_then f g : light f → light g → light (f ▷ g).
Proof.
  intros Hf Hg p. rewrite then_eq. cbn. destruct (Hf p) as [Hc Hq], (Hg (f p).1) as [Hc' Hq'].
  split; [congruence | by apply quiet_app].
Qed.

Lemma quiet_nil : quiet [].
Proof. split; [done |]. by intros c ?%elem_of_nil. Qed.
Lemma quiet_one e : settles e = None → (∀ c, e ≠ Fork c) → quiet [e].
Proof. intros Hs Hf. split; [unfold settled; cbn; by rewrite Hs |]. intros c Hc%list_elem_of_singleton. by apply (Hf c). Qed.

Lemma process_inv_core p p' : core p' = core p → process_inv p → process_inv p'.
Proof.
  unfold core. intros [= Hw Hc Hn Ht Hs Hp Hpr Hh Hl Hx] []. split; rewrite ?Hw, ?Hc, ?Hn, ?Ht, ?Hs, ?Hp, ?Hh, ?Hl, ?Hx; done.
Qed.

Lemma light_life f : (∀ l, (lf_wanted (f l), lf_child (f l), lf_children (f l), lf_restartTimer (f l)) =
  (lf_wanted l, lf_child l, lf_children l, lf_restartTimer l)) → light (on_life f).
Proof. intros Hf p. specialize (Hf (ps_life p)). injection Hf as Hw Hc Hn Ht. unfold core. cbn. rewrite Hw, Hc, Hn, Ht. split; [done | apply quiet_nil]. Qed.
Lemma light_emit fx : quiet fx → light (emit fx).
Proof. by intros Hq p. Qed.
Lemma light_setState s : light (setState s).
Proof. intros p. unfold setState. case_bool_decide; (split; [done |]); [apply quiet_nil | by apply quiet_one]. Qed.
Lemma light_log now level line : light (log now level line).
Proof. intros p. unfold log. destruct (rw_take _ _) as [w []]; (split; [done |]); [by apply quiet_one | apply quiet_nil]. Qed.
Lemma sends_quiet ev p m : quiet (sends ev p m).
Proof. unfold sends. destruct (lf_child _); [destruct (ev_connected ev) |]; first [by apply quiet_one | apply quiet_nil]. Qed.
Lemma light_toChild ev m : light (toChild ev m).
Proof. intros p. split; [done | apply sends_quiet]. Qed.
Lemma light_nothing : light nothing.
Proof. intros p. split; [done | apply quiet_nil]. Qed.
Lemma light_text v f : (∀ s, light (f s)) → light (text_then v f).
Proof. intros Hf. unfold text_then. destruct (String_ v); [apply Hf | by apply light_emit, quiet_one..]. Qed.
End Facts.

Create HintDb light.
#[export] Hint Resolve light_then light_emit light_setState light_log light_toChild light_nothing quiet_nil sends_quiet : light.
#[export] Hint Extern 1 (quiet [_]) => by apply quiet_one : light.
#[export] Hint Extern 1 (light (on_life _)) => by apply light_life : light.

Section Steps.
Context `{Numbers} (timing_ : timing) (backoff : list Z) (sp : spec).
Abbreviation stepx := (step timing_ backoff sp).
Abbreviation runx := (run timing_ backoff sp).
Abbreviation inv := (process_inv sp).

Lemma light_fatal now e : light (on_fatal now e).
Proof. unfold on_fatal. apply light_text. intros s. apply light_then; [by apply light_life |]. apply light_text. auto with light. Qed.
Lemma light_on_log now l line : light (on_log now l line).
Proof. unfold on_log. apply light_text. auto with light. Qed.
Lemma light_event now n d : light (on_event now n d).
Proof.
  intros p. unfold on_event. destruct n as [[| | |n| |]|]; try (split; [done | apply quiet_nil]).
  destruct (negb _); [split; [done | apply quiet_nil] |]. destruct (rw_take _ _) as [w []]; (split; [done |]); [by apply quiet_one | apply quiet_nil].
Qed.
Lemma light_log_all now level lines : light (log_all now level lines).
Proof. induction lines as [|l lines IH]; cbn [log_all]; [auto with light |]. apply light_then; [|done]. destruct (_ && _); auto with light. Qed.
Lemma light_output now c e chunk : light (on_output now c e chunk).
Proof. intros p. unfold on_output. destruct (cut_lines _) as [lines rest]. eapply (light_log_all _ _ _ (Process _ _ _ _ _ _ _ _ _ _ _ _)). Qed.
Lemma light_start_timeout now c : light (start_timeout now c).
Proof.
  intros p. unfold start_timeout. destruct (negb _); [by split; [|apply quiet_nil] |].
  destruct (_ || _); [by apply (light_life (set_timers None (lf_pingTimer (ps_life p)))) |].
  match goal with |- core (?f p).1 = _ ∧ _ => assert (light f) as Hf by auto with light; apply (Hf p) end.
Qed.

(** ** What an operation keeps *)

Definition forks_ok (p : process) (r : process * list effect) : Prop := ∀ c, Fork c ∈ r.2 →
  lf_child (ps_life p) = None ∧ lf_child (ps_life r.1) = Some c ∧ lf_wanted (ps_life r.1) = true.
Definition keeps (f : op) : Prop := ∀ p, inv p → inv (f p).1 ∧ ledger p (f p).2 (f p).1 ∧ forks_ok p (f p).

Lemma ledger_quiet p p' fx : open_ p' = open_ p → ps_promises p' = ps_promises p → quiet fx → ledger p fx p'.
Proof. intros Ho Hp [Hs _]. right. rewrite Ho, Hp, Hs, Nat.sub_diag. split; [lia | done]. Qed.

Lemma forks_quiet p r : quiet r.2 → forks_ok p r.
Proof. intros [_ Hf] c Hc. by apply Hf in Hc. Qed.

Lemma light_keeps f : light f → keeps f.
Proof.
  intros Hf p Hp. destruct (Hf p) as [Hc Hq]. split_and!; [by eapply process_inv_core | | by apply forks_quiet].
  unfold core in Hc. injection Hc as _ _ _ _ _ Ho Hn _ _ _. apply ledger_quiet; [unfold open_; by rewrite Ho | done | done].
Qed.

(** ** The end of a child *)

Definition ended (now : Z) (how : jstr) (err : option jstr) : op :=
  on_life no_child ▷ emit [EmitExit] ▷ end_calls ▷ end_stop
  ▷ λ p, if lf_wanted (ps_life p) then restart_later timing_ backoff now how err p else setState Stopped p.

Lemma settled_app a b : settled (a ++ b) = settled a ++ settled b.
Proof. apply omap_app. Qed.
Lemma settled_rejects (l : list (Z * nat)) c m : settled ((λ e, Reject e.2 c m) <$> l) = l.*2.
Proof. unfold settled. induction l as [|e l IH]; [done |]. cbn. by f_equal. Qed.

Lemma restart_later_spec now how err p : let r := restart_later timing_ backoff now how err p in
  (∃ d, core r.1 = (lf_wanted (ps_life p), lf_child (ps_life p), lf_children (ps_life p), Some d,
     (ps_seq p, ps_pending p, ps_promises p), (ps_hostCalls p, ps_host p, ps_hostNext p))) ∧ quiet r.2.
Proof.
  cbv zeta. unfold restart_later. destruct (nextBackoff _ _ _ _) as [delay idx]. rewrite !then_eq. cbn [fst snd].
  match goal with |- context[setState Crashed ?q] => destruct (light_setState Crashed q) as [Hc Hq]; set (q2 := setState Crashed q) in *; set (q1 := q) in * end.
  match type of q1 with _ => match goal with q1 := (log ?n ?l ?m ?q).1 |- _ => destruct (light_log n l m q) as [Hc' Hq'] end end.
  split.
  - exists delay. change (core q1 = core p) in Hc'. rewrite Hc' in Hc. unfold core in *. cbn in *. by injection Hc as -> -> -> _ -> -> -> -> -> ->.
  - rewrite !quiet_app. split_and!; [apply quiet_nil | done | done | apply quiet_nil].
Qed.

(** The fields of the invariant that do not speak of the child. *)
Definition base (p : process) : Prop :=
  (map_ok (ps_pending p) ∧ Forall (λ e, e.1 ≤ ps_seq p) (ps_pending p)) ∧
  ps_hostCalls p = map_size (ps_host p) ∧ ps_hostCalls p ≤ LIMITS.hostCallsPerPlugin ∧
    map_ok (ps_host p) ∧ Forall (λ e, (e.1 < ps_hostNext p)%nat) (ps_host p).

Lemma ended_core now how err p : lf_restartTimer (ps_life p) = None → ∃ d,
  core (ended now how err p).1 = (lf_wanted (ps_life p), None, lf_children (ps_life p), d, (ps_seq p, [], ps_promises p),
    (ps_hostCalls p, ps_host p, ps_hostNext p)) ∧ (lf_wanted (ps_life p) = true ↔ d ≠ None) ∧
  settled (ended now how err p).2 = open_ p ∧ ∀ c, Fork c ∉ (ended now how err p).2.
Proof.
  intros Ht. unfold ended. rewrite !then_eq. cbn [fst snd on_life emit end_calls end_stop set_calls ps_stopResolve ps_pending].
  set (q := set_stop _ None _).
  match goal with |- ∃ d, core (?r).1 = _ ∧ _ => set (b := r) end.
  assert ((∃ d, core b.1 = (lf_wanted (ps_life p), None, lf_children (ps_life p), d, (ps_seq p, [], ps_promises p),
            (ps_hostCalls p, ps_host p, ps_hostNext p)) ∧ (lf_wanted (ps_life p) = true ↔ d ≠ None)) ∧ quiet b.2) as [(d & Hc & Hd) Hq].
  { unfold b. change (lf_wanted (ps_life q)) with (lf_wanted (ps_life p)). destruct (lf_wanted (ps_life p)) eqn:Hw.
    - destruct (restart_later_spec now how err q) as [[d Hc] Hq]. split; [|done]. exists (Some d). split; [|done].
      rewrite Hc. unfold q. cbn. by rewrite Hw.
    - destruct (light_setState Stopped q) as [Hc Hq]. split; [|done]. exists None. split; [|done].
      rewrite Hc. unfold core, q. cbn. by rewrite Hw, Ht. }
  exists d. split_and!; [done | done | |].
  - destruct Hq as [Hq _].
    assert (settled (match ps_stopResolve p with Some s => [StopDone s] | None => [] end) = []) as Hstop by by destruct (ps_stopResolve p).
    cbn [app]. change (settled (EmitExit :: ?x)) with (settled x).
    rewrite !settled_app, Hq, settled_rejects, Hstop. by rewrite !app_nil_r.
  - intros c. cbn [app]. rewrite !elem_of_cons, !elem_of_app. destruct Hq as [_ Hf].
    intros [?|[(e & ? & _)%list_elem_of_fmap|[?|?]]]; [done | done | | by apply (Hf c)].
    destruct (ps_stopResolve p); set_solver.
Qed.

Lemma ended_ok now how err p : base p → lf_restartTimer (ps_life p) = None →
  inv (ended now how err p).1 ∧ ledger p (ended now how err p).2 (ended now how err p).1 ∧
  (∀ c, Fork c ∉ (ended now how err p).2).
Proof.
  intros [_ Hh] Ht. destruct (ended_core now how err p Ht) as (d & Hc & Hd & Hs & Hf).
  unfold core in Hc. injection Hc as Hw Hch Hn Htm Hsq Hp Hpr Hhc Hl Hx. split_and!; [| |done].
  - split; rewrite ?Hw, ?Hch, ?Hn, ?Htm, ?Hsq, ?Hp, ?Hhc, ?Hl, ?Hx; try done.
    + split; [constructor | done].
    + intros Hne. split; [by apply Hd | done].
    + intros _ Hwt. right. by apply Hd.
  - right. rewrite Hpr, Nat.sub_diag. split; [lia |]. rewrite Hs. unfold open_. rewrite Hp. by rewrite app_nil_r.
Qed.

Lemma inv_base p : inv p → base p.
Proof. by intros []. Qed.
Lemma base_core p q : core q = core p → base p → base q.
Proof. unfold core, base. by intros [= _ _ _ _ -> -> _ -> -> ->]. Qed.

Lemma onExit_none now how err p : onExit timing_ backoff now how err None p = ended now how err p.
Proof. done. Qed.

Lemma exit_keeps now how c : keeps (onExit timing_ backoff now how None (Some c)).
Proof.
  intros p Hp. unfold onExit. case_bool_decide as Hc; cbn [negb].
  - assert (lf_restartTimer (ps_life p) = None) as Ht.
    { destruct (lf_restartTimer (ps_life p)) as [d|] eqn:Hd; [|done]. destruct (pi_timer _ _ Hp) as [_ ?]; [by rewrite Hd | congruence]. }
    destruct (ended_ok now how None p (inv_base _ Hp) Ht) as (Hi & Hl & Hf). split_and!; [done | done |]. intros x Hx. by apply Hf in Hx.
  - split_and!; [done | by apply ledger_quiet, quiet_nil | apply forks_quiet, quiet_nil].
Qed.

(** A child is forked only where there is none. *)
Lemma spawn_ok ev p : base p → lf_child (ps_life p) = None → ps_pending p = [] → lf_restartTimer (ps_life p) = None →
  lf_wanted (ps_life p) = true →
  inv (spawn timing_ backoff sp ev p).1 ∧ ledger p (spawn timing_ backoff sp ev p).2 (spawn timing_ backoff sp ev p).1 ∧
  forks_ok p (spawn timing_ backoff sp ev p).
Proof.
  intros Hb Hc Hp Ht Hw. unfold spawn. rewrite Hc, !then_eq. set (q := (setState Starting (on_life (set_started (ev_now ev)) p).1).1).
  destruct (light_setState Starting (on_life (set_started (ev_now ev)) p).1) as [Hcore Hq]. fold q in Hcore.
  change (core (on_life (set_started (ev_now ev)) p).1) with (core p) in Hcore.
  assert (quiet ((on_life (set_started (ev_now ev)) p).2 ++ (setState Starting (on_life (set_started (ev_now ev)) p).1).2)) as Hq'
    by (apply quiet_app; split; [apply quiet_nil | done]).
  pose proof (base_core _ _ Hcore Hb) as Hbq. pose proof Hcore as Hcq. unfold core in Hcq.
  injection Hcq as Hwq Hchq Hnq Htq Hsq Hpq Hprq _ _ _. destruct (ev_fork ev) as [e|].
  - destruct (ended_ok (ev_now ev) (js "null") (Some e) q Hbq) as (Hi & Hl & Hf); [congruence |].
    rewrite onExit_none. cbn [fst snd]. split_and!; [done | |].
    + destruct Hl as [[x Hx]|[Hle Hl]].
      * left. exists x. rewrite app_assoc. apply elem_of_app. by right.
      * right. destruct Hq' as [Hq' _]. rewrite Hprq in *. split; [done |]. rewrite app_assoc, settled_app, Hq'. cbn [app].
        rewrite Hl. unfold open_. by rewrite Hpq.
    + intros c. cbn [fst snd]. rewrite app_assoc, elem_of_app. intros [Hx|Hx]; [by apply Hq' in Hx | by apply Hf in Hx].
  - cbn [fst snd]. rewrite then_eq. cbn [fst snd].
    set (r := (on_life set_child ▷ emit [Fork (lf_children (ps_life q))]) q).
    assert (r.1 = (on_life set_child q).1 ∧ r.2 = [Fork (lf_children (ps_life q))]) as [Hr1 Hr2] by (unfold r; by rewrite then_eq).
    rewrite Hr1, Hr2. cbn [toChild fst snd]. split_and!.
    + destruct Hbq as ((Hk1 & Hk2) & Hh). split; cbn; try done.
      * unfold map_size, LIMITS.openCallsPerPlugin. rewrite Hpq, Hp. cbn. lia.
      * rewrite Htq, Ht. done.
      * by left.
      * intros c [= <-]. lia.
    + right. change (ps_promises (on_life set_child q).1) with (ps_promises q). change (open_ (on_life set_child q).1) with (ps_pending q).*2.
      rewrite Hprq, Nat.sub_diag. split; [lia |]. rewrite app_assoc, settled_app. destruct Hq' as [-> _]. cbn [app].
      destruct (sends_quiet ev (on_life set_child q).1 (CInit (sp_version sp) (ev_config ev))) as [Hs _].
      change (settled (Fork (lf_children (ps_life q)) :: ?x)) with (settled x). rewrite Hs. unfold open_. by rewrite Hpq.
    + intros c. cbn [fst snd]. rewrite app_assoc, elem_of_app. intros [Hx|Hx]; [by apply Hq' in Hx |].
      apply elem_of_cons in Hx as [[= ->]|Hx]; [|by apply sends_quiet in Hx]. cbn. split_and!; [done | done | congruence].
Qed.

(** After operations that change nothing of what [forks_ok] and [ledger] see. *)
Lemma after_quiet p q fx r : open_ q = open_ p → ps_promises q = ps_promises p → lf_child (ps_life q) = lf_child (ps_life p) →
  quiet fx → ledger q r.2 r.1 → forks_ok q r → ledger p (fx ++ r.2) r.1 ∧ forks_ok p (r.1, fx ++ r.2).
Proof.
  intros Ho Hp Hc [Hs Hn] Hl Hf. split.
  - destruct Hl as [[x Hx]|[Hle Hl]]; [left; exists x; apply elem_of_app; by right | right].
    rewrite <- Hp. split; [done |]. by rewrite settled_app, Hs, <- Ho.
  - intros c. cbn [snd fst]. rewrite elem_of_app, <- Hc. intros [Hx|Hx]; [by apply Hn in Hx | by apply Hf].
Qed.

Lemma start_keeps ev : keeps (start timing_ backoff sp ev).
Proof.
  intros p Hp. unfold start. set (q := (on_life (set_wanted true) p).1).
  assert (base q) as Hb by (by apply (inv_base _ Hp)). pose proof Hp as [Hk Hs Hch Ht _ Hn Hh].
  destruct (_ || _) eqn:Hor.
  - split_and!; [| by apply ledger_quiet, quiet_nil | apply forks_quiet, quiet_nil]. split; cbn; try done.
    + intros Hx. split; [done |]. by apply Ht.
    + intros _ _. apply orb_true_iff in Hor as [?%bool_decide_eq_true|?%bool_decide_eq_true]; [by left | by right].
  - apply orb_false_iff in Hor as [Hc%bool_decide_eq_false%dec_stable Htm%bool_decide_eq_false%dec_stable].
    rewrite then_eq. set (q1 := (on_life _ q).1). destruct (entry_ok sp) eqn:He.
    + destruct (spawn_ok ev q1) as (Hi & Hl & Hf); [done | done | by apply Hch | done | done |]. cbn [fst snd].
      split; [done |]. apply (after_quiet p q1); first [done | apply quiet_nil].
    + cbn [fst snd emit on_life app]. split_and!; [| by apply ledger_quiet; [| |apply quiet_one] | by apply forks_quiet, quiet_one].
      split; cbn; try done; congruence.
Qed.

Lemma restart_keeps ev : keeps (on_restart timing_ backoff sp ev).
Proof.
  intros p Hp. unfold on_restart. destruct (lf_restartTimer (ps_life p)) as [d|] eqn:Hd.
  2: { split_and!; [done | by apply ledger_quiet, quiet_nil | apply forks_quiet, quiet_nil]. }
  destruct (pi_timer _ _ Hp) as [Hw Hc]; [by rewrite Hd |]. rewrite then_eq. set (q := (on_life (set_restart None None) p).1).
  change (lf_wanted (ps_life q)) with (lf_wanted (ps_life p)). change (lf_child (ps_life q)) with (lf_child (ps_life p)).
  rewrite Hw, Hc. rewrite bool_decide_false by tauto. assert (base q) as Hb by (by apply (inv_base _ Hp)).
  destruct (entry_ok sp) eqn:He; cbn [fst snd].
  - destruct (spawn_ok ev q) as (Hi & Hl & Hf); [done | done | by apply (pi_child _ _ Hp) | done | done |].
    split; [done |]. apply (after_quiet p q); first [done | apply quiet_nil].
  - rewrite onExit_none. destruct (ended_ok (ev_now ev) (js "null") (Some entry_error) q Hb eq_refl) as (Hi & Hl & Hf).
    split; [done |]. apply (after_quiet p q); first [done | apply quiet_nil | intros c Hx; by apply Hf in Hx].
Qed.

(** ** Stopping and calling *)

Lemma stop_keeps ev : keeps (stop ev).
Proof.
  intros p Hp. unfold stop. rewrite then_eq. set (q := (on_life _ p).1). pose proof Hp as [Hk Hs Hch Ht Hw Hn Hh].
  assert (inv q) as Hq by (split; cbn; done).
  change (lf_child (ps_life q)) with (lf_child (ps_life p)). destruct (lf_child (ps_life p)) as [c|] eqn:Hc.
  - destruct (light_setState Stopping q) as [Hcore Hqu]. rewrite !then_eq. cbn [fst snd on_life app].
    set (q1 := (setState Stopping q).1) in *. set (fx := (setState Stopping q).2 ++ _).
    assert (quiet fx) as Hfx by (apply quiet_app; split; [done | apply sends_quiet]). pose proof Hcore as Hcq. unfold core in Hcq.
    injection Hcq as _ _ _ _ _ Hpq Hprq _ _ _.
    split_and!; [| by apply ledger_quiet; [unfold open_; cbn; rewrite Hpq| | ] | by apply forks_quiet].
    eapply (process_inv_core _ q); [|done]. exact Hcore.
  - destruct (light_setState Stopped q) as [Hcore Hqu]. rewrite !then_eq. cbn [fst snd on_life app].
    set (q1 := (setState Stopped q).1) in *.
    assert (quiet ((setState Stopped q).2 ++ [StopDone (ps_stops q1)])) as Hfx by (apply quiet_app; split; [done | by apply quiet_one]).
    pose proof Hcore as Hcq. unfold core in Hcq. injection Hcq as _ _ _ _ _ Hpq Hprq _ _ _.
    split_and!; [| by apply ledger_quiet; [unfold open_; cbn; rewrite Hpq| | ] | by apply forks_quiet].
    eapply (process_inv_core _ q); [|done]. exact Hcore.
Qed.

(** The invariant when only the calls change. *)
Lemma inv_calls p seq pending promises : inv p → map_ok pending → Forall (λ e, e.1 ≤ seq) pending →
  map_size pending ≤ LIMITS.openCallsPerPlugin → (lf_child (ps_life p) = None → pending = []) → inv (set_calls p seq pending promises).
Proof. intros []. by split. Qed.

Lemma ledger_new p n pending : pending.*2 = open_ p ++ n → n = [ps_promises p] →
  ∀ seq fx, settled fx = [] → ledger p fx (set_calls p seq pending (S (ps_promises p))).
Proof.
  intros Hn -> seq fx Hs. right. cbn [ps_promises set_calls]. rewrite Nat.sub_succ_l, Nat.sub_diag by done. split; [lia |].
  unfold open_ at 1. cbn [ps_pending set_calls]. by rewrite Hn, Hs, app_nil_r.
Qed.

Lemma reject_ledger p c m seq : ledger p [Reject (ps_promises p) c m] (set_calls p seq (ps_pending p) (S (ps_promises p))).
Proof.
  right. cbn [ps_promises set_calls]. rewrite Nat.sub_succ_l, Nat.sub_diag by done. split; [lia | done].
Qed.

Lemma fresh_id p : inv p → ps_seq p + 1 ∉ (ps_pending p).*1.
Proof.
  intros Hp (e & He & Hin)%list_elem_of_fmap. destruct (pi_keys _ _ Hp) as [_ Hf]. rewrite Forall_forall in Hf.
  specialize (Hf _ Hin). lia.
Qed.

Lemma keys_later p n : inv p → ps_seq p ≤ n → Forall (λ e, e.1 ≤ n) (ps_pending p).
Proof. intros Hp Hn. destruct (pi_keys _ _ Hp) as [_ Hf]. eapply Forall_impl; [exact Hf |]. cbn. lia. Qed.

Lemma no_forks p q (fx : list effect) : (∀ c, Fork c ∉ fx) → forks_ok p (q, fx).
Proof. intros Hf c Hc. by apply Hf in Hc. Qed.

Lemma call_keeps ev method params : keeps (call ev method params).
Proof.
  intros p Hp. pose proof Hp as [[Hk Hle] Hs Hch Ht Hw Hn Hh].
  assert (∀ c m, keeps (reject_now c m)) as Hrej.
  { intros c m q [[? ?] ? ? ? ? ? ?]. split_and!; [by split | apply reject_ledger |]. apply no_forks. set_solver. }
  unfold call. destruct (_ || _) eqn:Hor; [by apply Hrej |]. apply orb_false_iff in Hor as [_ Hc%bool_decide_eq_false].
  destruct (Z.leb_spec LIMITS.openCallsPerPlugin (map_size (ps_pending p))); [by apply Hrej |].
  destruct (sends ev p _) as [|x fx] eqn:Hfx; cbn [fst snd].
  - split_and!; [apply inv_calls; try done; apply keys_later; [done | lia] | apply reject_ledger | apply no_forks; set_solver].
  - pose proof (sends_quiet ev p (CCall (ps_seq p + 1) method (default JNull params))) as Hq. rewrite Hfx in Hq.
    rewrite (map_set_new _ _ _ (fresh_id p Hp)). split_and!.
    + apply inv_calls; [done | | | rewrite map_size_snoc; lia | done].
      * rewrite <- (map_set_new _ _ _ (fresh_id p Hp)). by apply map_set_ok.
      * apply Forall_app. split; [apply keys_later; [done | lia] |]. repeat constructor; cbn; lia.
    + eapply (ledger_new p [ps_promises p]); [|done|apply Hq]. unfold open_. by rewrite fmap_app.
    + by apply forks_quiet.
Qed.

(** One open promise is settled. *)
Lemma settle_keeps p id n fx : inv p → map_get (ps_pending p) id = Some n → settled fx = [n] ∨ crashed fx → (∀ c, Fork c ∉ fx) →
  let q := set_calls p (ps_seq p) (map_delete (ps_pending p) id) (ps_promises p) in inv q ∧ ledger p fx q ∧ forks_ok p (q, fx).
Proof.
  intros Hp Hg Hs Hf. pose proof Hp as [[Hk Hle] Hsz Hch Ht Hw Hn Hh]. cbv zeta. split_and!; [| | by apply no_forks].
  - apply inv_calls; [done | by apply map_delete_ok | by apply map_delete_Forall | rewrite (map_size_delete _ _ _ Hk Hg); lia |].
    intros Hc. rewrite (Hch Hc) in Hg. done.
  - destruct Hs as [Hs|Hs]; [right | by left]. rewrite Hs. cbn [ps_promises set_calls]. rewrite Nat.sub_diag. split; [lia |].
    unfold open_. cbn [ps_pending set_calls]. rewrite (map_delete_values _ _ _ Hk Hg). by rewrite app_nil_r.
Qed.

Lemma timeout_keeps id : keeps (call_timeout id).
Proof.
  intros p Hp. unfold call_timeout. destruct (map_get (ps_pending p) id) as [n|] eqn:Hg.
  - apply (settle_keeps p id n); [done | done | by left | set_solver].
  - split_and!; [done | by apply ledger_quiet, quiet_nil | apply forks_quiet, quiet_nil].
Qed.

Lemma result_keeps m : keeps (on_result m).
Proof.
  intros p Hp. unfold on_result. destruct ((field m (js "id") ≫= as_int) ≫= _) as [[id n]|] eqn:Hm.
  2: { split_and!; [done | by apply ledger_quiet, quiet_nil | apply forks_quiet, quiet_nil]. }
  apply bind_Some in Hm as (i & _ & Hm). apply fmap_Some in Hm as (n' & Hg & Heq). injection Heq as -> ->. destruct (truthy _).
  - apply (settle_keeps p i n'); [done | done | by left | set_solver].
  - assert (∀ e c, crashed [Uncaught e] ∧ Fork c ∉ [Uncaught e]) as Hcr by (intros e c; split; [exists e; by left | set_solver]).
    unfold text_then. destruct (String_ _) as [s| |]; cbn [emit].
    + apply (settle_keeps p i n'); [done | done | by left | set_solver].
    + apply (settle_keeps p i n'); [done | done | right; by apply (Hcr _ 0%nat) | apply Hcr].
    + apply (settle_keeps p i n'); [done | done | right; by apply (Hcr _ 0%nat) | apply Hcr].
Qed.

(** ** Calls of the plugin *)

Lemma inv_host p n calls next : inv p → n = map_size calls → n ≤ LIMITS.hostCallsPerPlugin → map_ok calls →
  Forall (λ e, (e.1 < next)%nat) calls → inv (set_host p n calls next).
Proof. intros [] ? ? ? ?. by split. Qed.

Lemma hostCall_keeps ev m : keeps (onHostCall ev m).
Proof.
  intros p Hp. pose proof (pi_host _ _ Hp) as (Hc & Hmax & Hk & Hn). unfold onHostCall.
  destruct (Z.leb_spec LIMITS.hostCallsPerPlugin (ps_hostCalls p)).
  { split_and!; [done | apply ledger_quiet; [done..| apply sends_quiet] | apply forks_quiet, sends_quiet]. }
  assert (ps_hostNext p ∉ (ps_host p).*1) as Hnew.
  { intros (e & He & Hin)%list_elem_of_fmap. rewrite Forall_forall in Hn. specialize (Hn _ Hin). lia. }
  set (fx := match String_ _ with Ok _ => _ | _ => _ end).
  assert (quiet fx) as Hq by (unfold fx; destruct (String_ _); first [by apply quiet_one | apply quiet_nil]).
  split_and!; [|by apply ledger_quiet | by apply forks_quiet]. apply inv_host; [done | | lia | by apply map_set_ok |].
  - rewrite map_set_new by done. rewrite map_size_snoc. lia.
  - apply map_set_Forall; [|cbn; lia]. eapply Forall_impl; [exact Hn |]. cbn. lia.
Qed.

Lemma hostSettled_keeps ev n r : keeps (host_settled ev n r).
Proof.
  intros p Hp. pose proof (pi_host _ _ Hp) as (Hc & Hmax & Hk & Hn). unfold host_settled.
  destruct (map_get (ps_host p) n) as [id|] eqn:Hg.
  - split_and!; [| apply ledger_quiet; [done..| apply sends_quiet] | apply forks_quiet, sends_quiet].
    apply inv_host; [done | rewrite (map_size_delete _ _ _ Hk Hg); lia | lia | by apply map_delete_ok | by apply map_delete_Forall].
  - split_and!; [done | by apply ledger_quiet, quiet_nil | apply forks_quiet, quiet_nil].
Qed.

Lemma ping_keeps ev : keeps (on_ping timing_ ev).
Proof.
  intros p Hp. assert (inv p ∧ ledger p [] p ∧ forks_ok p (p, [])) as Hnone
    by (split_and!; [done | by apply ledger_quiet, quiet_nil | apply forks_quiet, quiet_nil]).
  unfold on_ping. destruct (lf_pingTimer _); [|done]. destruct (lf_child _) as [c|] eqn:Hc; [|done].
  destruct (negb _); [done |]. destruct (_ <? _).
  - match goal with |- inv (?f p).1 ∧ _ => assert (light f) as Hf by auto with light; by apply (light_keeps f Hf) end.
  - rewrite then_eq. cbn [fst snd app toChild]. set (q := set_calls p (ps_seq p + 1) (ps_pending p) (ps_promises p)).
    pose proof (sends_quiet ev q (CPing (ps_seq p + 1))). split_and!; [| by apply ledger_quiet | by apply forks_quiet].
    destruct (pi_keys _ _ Hp). apply inv_calls; [done | done | apply keys_later; [done | lia] | apply (pi_size _ _ Hp) | apply (pi_child _ _ Hp)].
Qed.

Lemma message_keeps ev m : keeps (onMessage ev m).
Proof.
  unfold onMessage. destruct m as [| | | | |m]; try (apply light_keeps, light_nothing).
  destruct (is_str _ (js "ready")); [apply light_keeps, light_then; [by apply light_life | auto with light] |].
  destruct (is_str _ (js "fatal")); [apply light_keeps, light_fatal |].
  destruct (is_str _ (js "log")); [apply light_keeps, light_on_log |].
  destruct (is_str _ (js "event")); [apply light_keeps, light_event |].
  destruct (is_str _ (js "pong")); [apply light_keeps; by apply light_life |].
  destruct (is_str _ (js "result")); [apply result_keeps |].
  destruct (is_str _ (js "host")); [apply hostCall_keeps | apply light_keeps, light_nothing].
Qed.

Lemma step_keeps i : keeps (stepx i).
Proof.
  destruct i; cbn [step].
  - apply start_keeps.
  - apply stop_keeps.
  - apply call_keeps.
  - apply light_keeps, light_toChild.
  - apply light_keeps, light_toChild.
  - apply message_keeps.
  - apply light_keeps, light_output.
  - by apply light_keeps, light_life.
  - apply exit_keeps.
  - apply hostSettled_keeps.
  - apply restart_keeps.
  - apply ping_keeps.
  - apply timeout_keeps.
  - apply light_keeps. unfold stop_grace. auto with light.
  - apply light_keeps, light_start_timeout.
Qed.

(** Only [start()] makes a process wanted, only [stop()] ends that. *)
Definition commands (i : input) : bool := match i with Start _ | Stop _ => true | _ => false end.

Lemma light_wanted f p : light f → lf_wanted (ps_life (f p).1) = lf_wanted (ps_life p).
Proof. intros Hf. destruct (Hf p) as [Hc _]. unfold core in Hc. congruence. Qed.
Lemma ended_wanted now how err p : lf_restartTimer (ps_life p) = None →
  lf_wanted (ps_life (ended now how err p).1) = lf_wanted (ps_life p).
Proof. intros Ht. destruct (ended_core now how err p Ht) as (d & Hc & _). unfold core in Hc. congruence. Qed.

Lemma spawn_wanted ev p : lf_restartTimer (ps_life p) = None →
  lf_wanted (ps_life (spawn timing_ backoff sp ev p).1) = lf_wanted (ps_life p).
Proof.
  intros Ht. unfold spawn. destruct (lf_child (ps_life p)); [done |]. rewrite !then_eq. cbn [fst snd].
  set (q := (setState Starting (on_life (set_started (ev_now ev)) p).1).1).
  destruct (light_setState Starting (on_life (set_started (ev_now ev)) p).1) as [Hcore _]. fold q in Hcore.
  unfold core in Hcore. cbn in Hcore. injection Hcore as Hw _ _ Htq _ _ _ _ _ _. destruct (ev_fork ev) as [e|].
  - rewrite onExit_none, ended_wanted; [done | congruence].
  - rewrite !then_eq. cbn. done.
Qed.

Lemma step_wanted i p : inv p → commands i = false → lf_wanted (ps_life (stepx i p).1) = lf_wanted (ps_life p).
Proof.
  intros Hp Hi. destruct i; cbn [step]; try done.
  - unfold call, reject_now. repeat case_match; done.
  - unfold onMessage. destruct m as [| | | | |m]; try done.
    destruct (is_str _ (js "ready")); [apply light_wanted, light_then; [by apply light_life | auto with light] |].
    destruct (is_str _ (js "fatal")); [apply light_wanted, light_fatal |].
    destruct (is_str _ (js "log")); [apply light_wanted, light_on_log |].
    destruct (is_str _ (js "event")); [apply light_wanted, light_event |].
    destruct (is_str _ (js "pong")); [done |].
    destruct (is_str _ (js "result")); [unfold on_result, text_then, emit; repeat case_match; done |].
    destruct (is_str _ (js "host")); [unfold onHostCall; case_match; done | done].
  - apply light_wanted, light_output.
  - unfold onExit. case_bool_decide as Hc; cbn [negb]; [|done]. apply ended_wanted.
    destruct (lf_restartTimer (ps_life p)) as [d|] eqn:Hd; [|done]. destruct (pi_timer _ _ Hp) as [_ ?]; [by rewrite Hd | congruence].
  - unfold host_settled. case_match; done.
  - unfold on_restart. destruct (lf_restartTimer (ps_life p)) as [d|] eqn:Hd; [|done].
    destruct (pi_timer _ _ Hp) as [Hw Hc]; [by rewrite Hd |]. rewrite then_eq. cbn [fst snd on_life ps_life lf_wanted lf_child set_restart].
    rewrite Hw, Hc, bool_decide_false by tauto. destruct (entry_ok sp).
    + rewrite spawn_wanted; [exact Hw | done].
    + rewrite onExit_none, ended_wanted; [exact Hw | done].
  - unfold on_ping. repeat (case_match; try done).
    + match goal with |- context[(?f p).1] => assert (light f) as Hf by auto with light; by apply (light_wanted f) end.
  - unfold call_timeout. case_match; done.
  - apply light_wanted, light_start_timeout.
Qed.

Lemma stop_not_wanted ev p : lf_wanted (ps_life (stop ev p).1) = false.
Proof.
  unfold stop. rewrite then_eq. set (q := (on_life _ p).1). cbn [fst]. destruct (lf_child (ps_life q)).
  - rewrite !then_eq. cbn [fst]. exact (light_wanted _ q (light_setState Stopping)).
  - rewrite !then_eq. cbn [fst]. exact (light_wanted _ q (light_setState Stopped)).
Qed.

Lemma ledger_trans p fx q fx' r : ledger p fx q → ledger q fx' r → ledger p (fx ++ fx') r.
Proof.
  intros [[e He]|[Hle Hl]] [[e' He']|[Hle' Hl']]; try (left; eexists; apply elem_of_app; eauto; fail).
  right. split; [lia |]. rewrite settled_app. rewrite (Permutation_app_comm (settled fx)), app_assoc, Hl'.
  rewrite <- app_assoc, (Permutation_app_comm (seq _ _)), app_assoc, Hl, <- app_assoc. f_equiv.
  replace (ps_promises r - ps_promises p)%nat with ((ps_promises q - ps_promises p) + (ps_promises r - ps_promises q))%nat by lia.
  rewrite seq_app. f_equiv. f_equiv. lia.
Qed.

Lemma run_keeps inputs p : inv p → inv (runx inputs p).1 ∧ ledger p (runx inputs p).2 (runx inputs p).1.
Proof.
  revert p. induction inputs as [|i inputs IH]; intros p Hp; cbn [run]; [by split; [|apply ledger_quiet, quiet_nil] |].
  rewrite then_eq. destruct (step_keeps i p Hp) as (Hi & Hl & _). destruct (IH _ Hi) as [Hi' Hl']. cbn [fst snd].
  split; [done | by eapply ledger_trans].
Qed.

Lemma newProcess_inv : inv newProcess.
Proof.
  assert (∀ V K : Type, map_ok (@nil (K * V))) as Hnil by (intros; apply NoDup_nil_2).
  split; cbn; try done; repeat split; first [done | constructor | apply Hnil].
Qed.

(** The timer of a crashed process starts it again. *)
Lemma restart_forks ev p : inv p → lf_restartTimer (ps_life p) ≠ None → entry_ok sp = true → ev_fork ev = None →
  Fork (lf_children (ps_life p)) ∈ (stepx (RestartTimer ev) p).2.
Proof.
  intros Hp Ht He Hf. destruct (pi_timer _ _ Hp Ht) as [Hw Hc]. cbn [step]. unfold on_restart.
  destruct (lf_restartTimer (ps_life p)) as [d|]; [|done]. rewrite then_eq. cbn [fst snd on_life app].
  cbn [ps_life lf_wanted set_restart lf_child]. rewrite Hw, Hc, bool_decide_false, He by tauto. unfold spawn.
  cbn [ps_life lf_child set_restart]. rewrite Hc, !then_eq, Hf. cbn [fst snd on_life app]. rewrite then_eq. cbn [fst snd].
  rewrite then_eq. cbn [fst snd on_life app]. apply elem_of_app. right. apply elem_of_app. left.
  match goal with |- context[setState Starting ?q] => destruct (light_setState Starting q) as [Hcore _] end.
  unfold core in Hcore. injection Hcore as _ _ Hn _ _ _ _ _ _ _.
  apply list_elem_of_singleton. f_equal. symmetry. exact Hn.
Qed.

(** C8: whatever the child of a plugin sends, prints and does, and whenever it
    ends and timers fire: at most 32 calls are open, only while there is a
    child, and every call is answered exactly once or still open, unless a
    message ended the host; at most 64 calls of the plugin are open; a child
    is forked only if wanted and only when there is none; and a wanted process
    has a child, or a timer that will fork one. *)
Theorem process_run_safe inputs i :
  let p := (runx inputs newProcess).1 in
  inv p ∧ ledger newProcess (runx inputs newProcess).2 p ∧ forks_ok p (stepx i p) ∧
  (entry_ok sp = true → lf_wanted (ps_life p) = true → lf_child (ps_life p) = None →
    ∀ ev, ev_fork ev = None → Fork (lf_children (ps_life p)) ∈ (stepx (RestartTimer ev) p).2).
Proof.
  cbv zeta. destruct (run_keeps inputs newProcess newProcess_inv) as [Hi Hl].
  destruct (step_keeps i _ Hi) as (_ & _ & Hf). split_and!; [done..|]. intros He Hw Hc ev Hev.
  apply restart_forks; [done | | done..]. destruct (pi_wanted _ _ Hi He Hw) as [?|?]; [congruence | done].
Qed.
End Steps.

(** ** Restarts *)

(** The waits after [n] crashes in a row, none of them after a stable run. *)
Fixpoint waits `{Numbers} (t : timing) (backoff : list Z) (n : nat) (now : Z) (l : life) : list Z :=
  match n with
  | O => []
  | S n => let '(d, idx) := nextBackoff t backoff now l in d :: waits t backoff n now (set_backoff (lf_restarts l + 1) idx l)
  end.

Lemma waits_spec `{Numbers} t n now l : unstable t now l = true →
  waits t RESTART_BACKOFF_MS n now l = (λ i, nth (Nat.min i 6) RESTART_BACKOFF_MS 0) <$> seq (lf_backoffIdx l) n.
Proof.
  revert l. induction n as [|n IH]; intros l Hl; [done |]. cbn [waits]. unfold nextBackoff. rewrite Hl. cbn [seq fmap list_fmap].
  f_equal. by rewrite IH.
Qed.

(** ** What a message and a second [stop()] do *)

#[local] Instance sample_numbers : Numbers := {| number_text := λ _, [] |}.
Definition sample_timing : timing := Timing 10000 5000 20000 60000 5000.
Definition sample_spec : spec := Spec (js "abc") (js "1.0.0") [js "x"] (js "edge/main.js") 48.
Definition sample_env : env := Env 1000 true None JNull.

(** A log line that has no text ends the whole edge host. *)
Lemma log_ends_host :
  (onMessage sample_env (JObj [(js "t", JStr (js "log")); (js "line", JObj [(js "toString", JNum (NInt 1))])]) newProcess).2
  = [Uncaught type_error].
Proof. by vm_compute. Qed.

(** A second [stop()] before the child ended: the promise of the first is never settled. *)
Lemma stop_twice_forgets :
  let r := run sample_timing RESTART_BACKOFF_MS sample_spec
    [Start sample_env; Stop sample_env; Stop sample_env; Exit 2000 (js "0") 0] newProcess in
  omap (λ e, match e with StopDone n => Some n | _ => None end) r.2 = [1%nat] ∧ lf_child (ps_life r.1) = None.
Proof. by vm_compute. Qed.
