(* ===== verification/Host.v ===== *)
(** * src/edge/host.js

    The edge host: it carries out the wanted state - which edge parts run,
    with which package and capabilities - and answers the calls of the parts.
    The async functions are cut at their awaits: a coroutine that waits is a
    value ([pc]) that says how it goes on, and an input resumes it.  Entries
    and processes are objects that closures keep, so the state numbers them. *)

From S2P Require Import Prelude JsBuffer JsMap JsValues JsText Limits Crypto EdgeConstants Gcplugin Signature Manifest Protocol Packages PluginProcess.

Local Open Scope Z_scope.

Definition DOWNLOAD_RETRY_MS : Z := 60000.

(** ** The state *)

(** What [status] says: a state of the process, or of the host. *)
Inductive estatus := OfProcess (s : pstate) | UpdatePending | DeniedStatus.
#[export] Instance estatus_eq_dec : EqDecision estatus.
Proof. solve_decision. Defined.
(** [lastError]: the code it starts with, or what the process says. *)
Inductive reason := Code (code : jstr) | OfProcessError (e : option jstr).

Record entry := Entry {
  en_id : jstr; en_version : option jstr; en_sha256 : option jstr; en_spec : option spec; en_proc : option nat;
  en_wanted : bool; en_denied : bool; en_status : estatus; en_lastError : option reason; en_retryAt : option Z;
  en_caps : caps; en_config : json; en_throttled : Z; en_restarts : Z }.
Definition newEntry (id : jstr) : entry :=
  Entry id None None None None false false (OfProcess Stopped) None None no_caps JNull 0 0.

(** A process, with what it was made with and for which entry. *)
Record running := Running { rn_entry : nat; rn_spec : spec; rn_proc : process }.

(** A [stop()] of a process that is waited for: the process and the number of
    the call; none when there was no process. *)
Abbreviation wait := (option (nat * nat)).

(** Where the coroutine of [reconcile] waits. *)
Inductive pc :=
  | AtMqtt (st : state)
  | AtUnwanted (st : state) (e : nat) (w : wait) (todo : list nat)
  | AtNext (st : state) (todo : list plugin)
  | AtDeny (st : state) (e : nat) (w : wait) (code : jstr) (sp : option spec) (todo : list plugin)
  | AtDownload (st : state) (p : plugin) (e : nat) (todo : list plugin)
  | AtChanged (st : state) (p : plugin) (e : nat) (w : wait) (sp : spec) (todo : list plugin)
  | AtEnd.

Inductive boundary := Isolated | Fenced.
#[export] Instance boundary_eq_dec : EqDecision boundary.
Proof. solve_decision. Defined.

Record host := Host {
  hs_plugins : list (jstr * nat); hs_entries : list entry; hs_procs : list running;
  hs_desired : option state; hs_store : store;
  hs_mode : option boundary; hs_fence : bool; hs_ticks : list bool;
  hs_again : bool; hs_task : option pc;
  hs_rpc : list (nat * wait * list nat); hs_ending : list (nat * wait);
  hs_done : list (nat * nat); hs_calls : list ((nat * nat) * jstr); hs_stopped : bool }.
Definition newHost (st : store) : host := Host [] [] [] None st None false [] false None [] [] [] [] false.

(** ** What it does *)

(** The answer to a call of the server. *)
Inductive answer := Result (v : option json) | Fault (code : jstr).

Inductive host_effect :=
  | Proc (k : nat) (e : effect)
  | NewProcess (k : nat) (e : nat) (sp : spec)
  | CloseNet (id : jstr) | DropMqtt (id : jstr) | ApplyMqtt (m : mqtt)
  | Download (id version : jstr)
  | Api (k n : nat) (id : jstr) (c : caps) (api : jstr) (args : json) | ApiDenied (k n : nat)
  | SendEvent (id name : jstr) (data : json) | SendLog (id level line : jstr)
  | SendResult (call : jstr) (r : answer) | ResendEvents
  | ReconcileFailed.

Definition hop := host → host * list host_effect.
Definition hthen (f g : hop) : hop := λ h, let '(h, fx) := f h in let '(h, fx') := g h in (h, fx ++ fx').
Declare Scope host_scope.
Infix "▶" := hthen (at level 65, right associativity) : host_scope.
Local Open Scope host_scope.
Definition hemit (fx : list host_effect) : hop := λ h, (h, fx).

Definition upd (f : host → host) : hop := λ h, (f h, []).
Definition with_entries (plugins : list (jstr * nat)) (entries : list entry) (h : host) : host :=
  Host plugins entries (hs_procs h) (hs_desired h) (hs_store h) (hs_mode h) (hs_fence h) (hs_ticks h) (hs_again h)
    (hs_task h) (hs_rpc h) (hs_ending h) (hs_done h) (hs_calls h) (hs_stopped h).
Definition with_procs (procs : list running) (done : list (nat * nat)) (calls : list ((nat * nat) * jstr)) (h : host) : host :=
  Host (hs_plugins h) (hs_entries h) procs (hs_desired h) (hs_store h) (hs_mode h) (hs_fence h) (hs_ticks h) (hs_again h)
    (hs_task h) (hs_rpc h) (hs_ending h) done calls (hs_stopped h).
Definition with_task (again : bool) (task : option pc) (h : host) : host :=
  Host (hs_plugins h) (hs_entries h) (hs_procs h) (hs_desired h) (hs_store h) (hs_mode h) (hs_fence h) (hs_ticks h) again
    task (hs_rpc h) (hs_ending h) (hs_done h) (hs_calls h) (hs_stopped h).
Definition with_waiting (rpc : list (nat * wait * list nat)) (ending : list (nat * wait)) (stopped : bool) (h : host) : host :=
  Host (hs_plugins h) (hs_entries h) (hs_procs h) (hs_desired h) (hs_store h) (hs_mode h) (hs_fence h) (hs_ticks h) (hs_again h)
    (hs_task h) rpc ending (hs_done h) (hs_calls h) stopped.
Definition with_fence (mode : option boundary) (fence : bool) (ticks : list bool) (h : host) : host :=
  Host (hs_plugins h) (hs_entries h) (hs_procs h) (hs_desired h) (hs_store h) mode fence ticks (hs_again h)
    (hs_task h) (hs_rpc h) (hs_ending h) (hs_done h) (hs_calls h) (hs_stopped h).
Definition with_desired (st : option state) (s : store) (h : host) : host :=
  Host (hs_plugins h) (hs_entries h) (hs_procs h) st s (hs_mode h) (hs_fence h) (hs_ticks h) (hs_again h)
    (hs_task h) (hs_rpc h) (hs_ending h) (hs_done h) (hs_calls h) (hs_stopped h).

Definition set_entry (e : nat) (f : entry → entry) (h : host) : host := with_entries (hs_plugins h) (alter f e (hs_entries h)) h.

(** Changes of an entry. *)
Definition en_life (proc : option nat) (throttled restarts : Z) (e : entry) : entry :=
  Entry (en_id e) (en_version e) (en_sha256 e) (en_spec e) proc (en_wanted e) (en_denied e) (en_status e) (en_lastError e)
    (en_retryAt e) (en_caps e) (en_config e) throttled restarts.
Definition en_flags (wanted denied : bool) (e : entry) : entry :=
  Entry (en_id e) (en_version e) (en_sha256 e) (en_spec e) (en_proc e) wanted denied (en_status e) (en_lastError e)
    (en_retryAt e) (en_caps e) (en_config e) (en_throttled e) (en_restarts e).
Definition en_report (status : estatus) (err : option reason) (e : entry) : entry :=
  Entry (en_id e) (en_version e) (en_sha256 e) (en_spec e) (en_proc e) (en_wanted e) (en_denied e) status err
    (en_retryAt e) (en_caps e) (en_config e) (en_throttled e) (en_restarts e).
Definition en_retry (at_ : option Z) (e : entry) : entry :=
  Entry (en_id e) (en_version e) (en_sha256 e) (en_spec e) (en_proc e) (en_wanted e) (en_denied e) (en_status e) (en_lastError e)
    at_ (en_caps e) (en_config e) (en_throttled e) (en_restarts e).
Definition en_package (version sha : jstr) (c : caps) (e : entry) : entry :=
  Entry (en_id e) (Some version) (Some sha) (en_spec e) (en_proc e) (en_wanted e) (en_denied e) (en_status e) (en_lastError e)
    (en_retryAt e) c (en_config e) (en_throttled e) (en_restarts e).
Definition en_setspec (sp : option spec) (e : entry) : entry :=
  Entry (en_id e) (en_version e) (en_sha256 e) sp (en_proc e) (en_wanted e) (en_denied e) (en_status e) (en_lastError e)
    (en_retryAt e) (en_caps e) (en_config e) (en_throttled e) (en_restarts e).
Definition en_setconfig (c : json) (e : entry) : entry :=
  Entry (en_id e) (en_version e) (en_sha256 e) (en_spec e) (en_proc e) (en_wanted e) (en_denied e) (en_status e) (en_lastError e)
    (en_retryAt e) (en_caps e) c (en_throttled e) (en_restarts e).

(** What an input brings: the clock, whether the child's channel is open, what [fork] says. *)
Record world := World { wd_now : Z; wd_connected : bool; wd_fork : option jstr }.

Section Host.
Context `{Unicode} `{Node} `{Numbers} (gunzip : list Z → Z → gunzipped) (timing_ : timing) (backoff : list Z)
  (gatewayVersion : jstr) (keys : list jstr) (root : list jstr).

Definition env_of (w : world) (config : json) : env := Env (wd_now w) (wd_connected w) (wd_fork w) config.

(** ** The processes *)

(** The listeners of a process, on one thing it does; [p] is the process then. *)
Definition ApiCall (h : host) (k e n : nat) (api : jstr) (args : json) : list host_effect :=
  match hs_entries h !! e with
  | Some en => if en_wanted en && negb (en_denied en) then [Api k n (en_id en) (en_caps en) api args] else [ApiDenied k n]
  | None => []
  end.
Definition listen (k e : nat) (p : process) (x : effect) : hop := λ h,
  let id := match hs_entries h !! e with Some en => en_id en | None => [] end in
  match x with
  | EmitState s =>
      (set_entry e (λ en, en_report (OfProcess (if bool_decide (s = Stopping) then Stopped else s))
                           (if bool_decide (s = Crashed) then Some (OfProcessError (lf_lastError (ps_life p))) else en_lastError en) en) h, [])
  | EmitStarted =>
      (match hs_entries h !! e with
       | Some en => with_desired (hs_desired h) (prune (hs_store h) id (sp_version <$> en_spec en)) h
       | None => h
       end, [])
  | EmitExit => (h, [CloseNet id; DropMqtt id])
  | EmitEvent name data => (h, [SendEvent id name data])
  | EmitLog level line => (h, [SendLog id level line])
  | HostCall n api args => (h, ApiCall h k e n api args)
  | StopDone n => (with_procs (hs_procs h) ((k, n) :: hs_done h) (hs_calls h) h, [])
  | Resolve n v =>
      match map_get (hs_calls h) (k, n) with
      | Some c => (with_procs (hs_procs h) (hs_done h) (map_delete (hs_calls h) (k, n)) h, [SendResult c (Result v)])
      | None => (h, [])
      end
  | Reject n code _ =>
      match map_get (hs_calls h) (k, n) with
      | Some c => (with_procs (hs_procs h) (hs_done h) (map_delete (hs_calls h) (k, n)) h, [SendResult c (Fault code)])
      | None => (h, [])
      end
  | Fork _ | Kill _ | ToChild _ _ | Throws _ | Uncaught _ => (h, [Proc k x])
  end.
Fixpoint listen_all (k e : nat) (p : process) (fx : list effect) : hop :=
  match fx with [] => hemit [] | x :: fx => listen k e p x ▶ listen_all k e p fx end.

(** An operation of process [k]. *)
Definition proc_op (k : nat) (f : op) : hop := λ h,
  match hs_procs h !! k with
  | Some r =>
      let '(p, fx) := f (rn_proc r) in
      listen_all k (rn_entry r) p fx (with_procs (<[k := Running (rn_entry r) (rn_spec r) p]> (hs_procs h)) (hs_done h) (hs_calls h) h)
  | None => (h, [])
  end.

Definition spec_of (h : host) (e : nat) : spec :=
  match hs_entries h !! e with
  | Some en => default (Spec (en_id en) [] [] [] 0) (en_spec en)
  | None => Spec [] [] [] [] 0
  end.

(** [startProcess(e)]: whether it throws. *)
Definition startProcess (w : world) (e : nat) : hop := λ h,
  match hs_entries h !! e with
  | Some en =>
      let k := length (hs_procs h) in
      let sp := spec_of h e in
      let h := with_procs (hs_procs h ++ [Running e sp newProcess]) (hs_done h) (hs_calls h) h in
      (upd (set_entry e (λ en, en_report (OfProcess Starting) None (en_life (Some k) (en_throttled en) (en_restarts en) en)))
       ▶ hemit [NewProcess k e sp] ▶ proc_op k (start timing_ backoff sp (env_of w (en_config en)))) h
  | None => (h, [])
  end.

(** [stopProcess(e)] up to its await, and after it. *)
Definition stop_begin (w : world) (e : nat) (h : host) : host * list host_effect * wait :=
  match hs_entries h !! e ≫= λ en, k ← en_proc en; r ← hs_procs h !! k; Some (en, k, r) with
  | Some (en, k, r) =>
      let p := rn_proc r in
      let '(ev, dropped) := drainDropped (ps_events p) in
      let h := with_procs (<[k := Running (rn_entry r) (rn_spec r) (with_events p ev)]> (hs_procs h)) (hs_done h) (hs_calls h) h in
      let '(h, fx) := (upd (set_entry e (en_life None (en_throttled en + dropped) (en_restarts en + lf_restarts (ps_life p))))
                       ▶ proc_op k (stop (env_of w JNull))) h in
      (h, fx, Some (k, ps_stops p))
  | None => (h, [], None)
  end.
Definition stop_end (e : nat) (w : wait) : hop := λ h,
  match w, hs_entries h !! e with
  | Some _, Some en => (h, [CloseNet (en_id en); DropMqtt (en_id en)])
  | _, _ => (h, [])
  end.
Definition stop_done (h : host) (w : wait) : bool := match w with Some d => bool_decide (d ∈ hs_done h) | None => true end.

(** ** [reconcile] *)

Definition deny (e : nat) (code : jstr) : hop :=
  upd (set_entry e (λ en, en_report DeniedStatus (Some (Code code)) (en_flags (en_wanted en) true en))).

(** The coroutine waits at [c]; it starts again, or ends. *)
Definition await (c : pc) : hop := λ h, (with_task (hs_again h) (Some c) h, []).
Definition reconcile : hop := λ h,
  match hs_desired h with
  | Some st => (hemit [ApplyMqtt (if st_edgeEnabled st then st_mqtt st else Mqtt false false [] [])] ▶ await (AtMqtt st)) h
  | None => await AtEnd h
  end.
Definition requestReconcile : hop := λ h,
  match hs_task h with
  | Some _ => (with_task true (hs_task h) h, [])
  | None => (upd (with_task false None) ▶ reconcile) h
  end.
Definition finish : hop := λ h,
  if hs_again h && negb (hs_stopped h) then (upd (with_task false (hs_task h)) ▶ reconcile) h
  else (with_task (hs_again h) None h, []).
(** An exception in [reconcile] ends the loop. *)
Definition reconcile_fails : hop := λ h, (with_task (hs_again h) None h, [ReconcileFailed]).

(** [await this.stopProcess(e)], then on. *)
Definition stop_then (w : world) (e : nat) (k : wait → pc) : hop := λ h,
  let '(h, fx, wt) := stop_begin w e h in let '(h, fx') := await (k wt) h in (h, fx ++ fx').
Definition stop_deny (w : world) (st : state) (e : nat) (code : jstr) (sp : option spec) (todo : list plugin) : hop :=
  stop_then w e (λ wt, AtDeny st e wt code sp todo).

Definition wants (st : state) (id : jstr) : bool :=
  st_edgeEnabled st && existsb (λ p, p_enabled p && bool_decide (p_id p = id)) (st_plugins st).
(** [want.values()] *)
Definition wanted_plugins (st : state) : list plugin := if st_edgeEnabled st then filter (λ p, p_enabled p = true) (st_plugins st) else [].

Definition entry_id (h : host) (e : nat) : jstr := match hs_entries h !! e with Some en => en_id en | None => [] end.

Definition prune_packages (st : state) : hop := λ h,
  (if st_edgeEnabled st then with_desired (hs_desired h) (pruneExcept (hs_store h) (p_id <$> st_plugins st)) h else h, []).
(** The parts that are not wanted are stopped, one after the other. *)
Fixpoint stop_unwanted (w : world) (st : state) (todo : list nat) : hop := λ h,
  match todo with
  | [] => (prune_packages st ▶ await (AtNext st (wanted_plugins st))) h
  | e :: todo =>
      if wants st (entry_id h e) then stop_unwanted w st todo h
      else
        (upd (set_entry e (λ en, en_flags false (en_denied en) en)) ▶ stop_then w e (λ wt, AtUnwanted st e wt todo)) h
  end.

(** The entries that nothing needs any more leave the map. *)
Definition needed (h : host) (st : state) (x : jstr * nat) : bool :=
  match hs_entries h !! x.2 with
  | Some en => en_wanted en || negb (bool_decide (en_proc en = None)) || existsb (λ p, bool_decide (p_id p = x.1)) (st_plugins st)
  | None => true
  end.
Definition cleanup (st : state) : hop := λ h,
  (with_entries (filter (λ x, needed h st x = true) (hs_plugins h)) (hs_entries h) h, []).

Definition entry_of (id : jstr) (h : host) : host * nat :=
  match map_get (hs_plugins h) id with
  | Some e => (h, e)
  | None =>
      let e := length (hs_entries h) in
      (with_entries (map_set (hs_plugins h) id e) (hs_entries h ++ [newEntry id]) h, e)
  end.

(** [ensurePlugin] once the package is there. *)
Definition spec_for (p : plugin) (r : ready) : spec :=
  Spec (p_id p) (p_version p) (root ++ [p_id p; p_version p]) (em_entry (ry_edge r))
    (match p_memoryMb p with Some m => if m =? 0 then em_memoryMb (ry_edge r) else m | None => em_memoryMb (ry_edge r) end).
Definition changed (en : entry) (p : plugin) (sp : spec) : bool :=
  match en_spec en with
  | None => true
  | Some old =>
      negb (bool_decide (sp_version old = sp_version sp)) || negb (bool_decide (en_sha256 en = Some (p_sha256 p)))
      || negb (sp_memoryMb old =? sp_memoryMb sp)
  end.
(** No await is left: the process starts unless there is one. *)
Definition ensure_started (w : world) (st : state) (e : nat) (sp : spec) (todo : list plugin) : hop :=
  upd (set_entry e (en_setspec (Some sp)))
  ▶ λ h, match hs_entries h !! e with
         | Some en =>
             match en_proc en with
             | None =>
                 let '(h, fx) := startProcess w e h in
                 if existsb (λ x, match x with Proc _ (Throws _) => true | _ => false end) fx
                 then let '(h, fx') := reconcile_fails h in (h, fx ++ fx')
                 else let '(h, fx') := await (AtNext st todo) h in (h, fx ++ fx')
             | Some k =>
                 let s := match hs_procs h !! k with Some r => OfProcess (lf_state (ps_life (rn_proc r))) | None => en_status en end in
                 (upd (set_entry e (λ en, if bool_decide (en_status en = DeniedStatus) then en_report s (en_lastError en) en else en))
                  ▶ await (AtNext st todo)) h
             end
         | None => (h, [])
         end.
Definition ensure_package (w : world) (st : state) (p : plugin) (e : nat) (r : ready) (todo : list plugin) : hop := λ h,
  if negb (acceptable (ry_signature r) (st_allowUnsigned st)) then stop_deny w st e (js "unsigned") None todo h
  else
    match hs_entries h !! e with
    | None => (h, [])
    | Some en =>
        let sp := spec_for p r in
        let change := changed en p sp in
        (upd (set_entry e (en_package (p_version p) (p_sha256 p) (intersectCaps (em_capabilities (ry_edge r)) (p_caps p))))
         ▶ λ h,
             if negb (hs_fence h) then
               stop_deny w st e (if bool_decide (hs_mode h = Some Isolated) then js "network_isolation_inactive" else js "network_fence_inactive")
                 (Some sp) todo h
             else if change && negb (bool_decide (en_proc en = None)) then stop_then w e (λ wt, AtChanged st p e wt sp todo) h
             else ensure_started w st e sp todo h) h
    end.

Definition ensurePlugin (w : world) (st : state) (p : plugin) (todo : list plugin) : hop := λ h,
  let '(h, e) := entry_of (p_id p) h in
  let h := set_entry e (en_flags true false) h in
  match p_capsError p with
  | Some _ => stop_deny w st e (js "bad_caps") None todo h
  | None =>
      match installed (hs_store h) (p_id p) (p_version p) (p_sha256 p), hs_entries h !! e with
      | Some r, _ => ensure_package w st p e r todo h
      | None, Some en =>
          if match en_retryAt en with
             | Some t => negb (t =? 0) && (wd_now w <? t) && bool_decide (en_version en = Some (p_version p)) && bool_decide (en_sha256 en = Some (p_sha256 p))
             | None => false
             end
          then await (AtNext st todo) h
          else
            (upd (set_entry e (λ en, en_report (if bool_decide (en_proc en = None) then OfProcess Starting else UpdatePending) (en_lastError en) en))
             ▶ hemit [Download (p_id p) (p_version p)] ▶ await (AtDownload st p e todo)) h
      | None, None => (h, [])
      end
  end.

(** The code of an error: those of another kind have none. *)
Definition code_of (e : string) : string := if String.eqb e "TypeError" then "edge_error" else e.
(** The package is downloaded, checked and unpacked, or not. *)
Definition downloaded (w : world) (st : state) (p : plugin) (e : nat) (todo : list plugin) (r : res (list Z)) : hop := λ h,
  let unpack :=
    buf ← r;
    c ← inspect gunzip buf (p_id p) (p_version p) (p_sha256 p) (st_allowUnsigned st) gatewayVersion keys;
    extract (hs_store h) (root ++ [p_id p; p_version p ++ js ".tmp"]) (p_id p) (p_version p) (p_sha256 p) c in
  match unpack with
  | Ok (s, r) => (upd (with_desired (hs_desired h) s) ▶ upd (set_entry e (en_retry None)) ▶ ensure_package w st p e r todo) h
  | Throw x =>
      let code := code_of x in
      let h := set_entry e (λ en, en_package (p_version p) (p_sha256 p) (en_caps en) en) h in
      if bool_decide (code = "download_failed") || bool_decide (code = "not_found") then
        (upd (set_entry e (λ en, en_retry (Some (wd_now w + DOWNLOAD_RETRY_MS))
               (if bool_decide (en_proc en = None) then en_report (OfProcess Stopped) (Some (Code (js code))) en else en)))
         ▶ await (AtNext st todo)) h
      else stop_deny w st e (js code) None todo h
  | NoFuel => await (AtNext st todo) h
  end.

(** [reconcile] goes on; [r] is what a download gave. *)
Definition resume (w : world) (r : res (list Z)) : hop := λ h,
  match hs_task h with
  | None => (h, [])
  | Some (AtMqtt st) => stop_unwanted w st (hs_plugins h).*2 h
  | Some (AtUnwanted st e wt todo) =>
      if stop_done h wt then
        (stop_end e wt ▶ upd (set_entry e (λ en, en_report (OfProcess Stopped) None (en_flags (en_wanted en) false en)))
         ▶ stop_unwanted w st todo) h
      else (h, [])
  | Some (AtNext st []) => (cleanup st ▶ finish) h
  | Some (AtNext st (p :: todo)) => if hs_stopped h then finish h else ensurePlugin w st p todo h
  | Some (AtDeny st e wt code sp todo) =>
      if stop_done h wt then
        (stop_end e wt ▶ deny e code
         ▶ upd (set_entry e (λ en, match sp with Some _ => en_setspec sp en | None => en end)) ▶ await (AtNext st todo)) h
      else (h, [])
  | Some (AtDownload st p e todo) => downloaded w st p e todo r h
  | Some (AtChanged st p e wt sp todo) => if stop_done h wt then (stop_end e wt ▶ ensure_started w st e sp todo) h else (h, [])
  | Some AtEnd => finish h
  end.

(** ** The boundary *)

Definition checkFence (isolated active : bool) (ticks : list bool) : hop := λ h,
  let mode := if isolated then Isolated else Fenced in
  match hs_mode h with
  | None => (with_fence (Some mode) active ticks h, [])
  | Some m => (with_fence (Some m) (active && bool_decide (mode = m)) ticks h, [])
  end.

Definition hasRetry (h : host) (now : Z) : bool :=
  existsb (λ x, match hs_entries h !! x.2 ≫= en_retryAt with Some t => negb (t =? 0) && (t <=? now) | None => false end) (hs_plugins h).
Fixpoint remove_one (b : bool) (l : list bool) : list bool :=
  match l with [] => [] | x :: l => if bool_decide (x = b) then l else x :: remove_one b l end.
(** [tick()] before and after the check; [was] is what it saw before. *)
Definition tick_begin : hop := upd (λ h, with_fence (hs_mode h) (hs_fence h) (hs_fence h :: hs_ticks h) h).
Definition tick_end (was isolated active : bool) (now : Z) : hop := λ h,
  if negb (bool_decide (was ∈ hs_ticks h)) then (h, [])
  else
    (checkFence isolated active (remove_one was (hs_ticks h))
     ▶ λ h, if negb (bool_decide (was = hs_fence h)) || hasRetry h now then requestReconcile h else (h, [])) h.

(** ** The channel and the gateway *)

Definition on_state (m : json) : hop := λ h,
  match parseState m with
  | Ok st => (upd (with_desired (Some st) (hs_store h)) ▶ requestReconcile) h
  | _ => (h, [])
  end.

Definition with_plugin (id : jstr) (f : nat → entry → hop) (dflt : hop) : hop := λ h,
  match map_get (hs_plugins h) id ≫= λ e, (λ en, (e, en)) <$> hs_entries h !! e with Some (e, en) => f e en h | None => dflt h end.

Definition on_call (w : world) (m : list (jstr * json)) : hop := λ h,
  match parseCall m with
  | Ok c =>
      with_plugin (cl_plugin c) (λ e en,
        if negb (en_wanted en) then hemit [SendResult (cl_id c) (Fault (js "not_enabled"))]
        else if en_denied en then hemit [SendResult (cl_id c) (Fault (js "denied"))]
        else
          match en_proc en with
          | None => hemit [SendResult (cl_id c) (Fault (js "not_running"))]
          | Some k => λ h,
              match hs_procs h !! k with
              | Some r =>
                  (upd (with_procs (hs_procs h) (hs_done h) (map_set (hs_calls h) (k, ps_promises (rn_proc r)) (cl_id c)))
                   ▶ proc_op k (call (env_of w JNull) (cl_method c) (Some (cl_params c)))) h
              | None => (h, [])
              end
          end) (hemit [SendResult (cl_id c) (Fault (js "not_enabled"))]) h
  | _ =>
      (h, match field m (js "id") with Some (JStr id) => if str_len id <=? 64 then [SendResult id (Fault (js "bad_request"))] else [] | _ => [] end)
  end.

Definition on_configure (w : world) (id : jstr) (data : option json) : hop :=
  with_plugin id (λ e en,
    let data := default JNull data in
    upd (set_entry e (en_setconfig data))
    ▶ match en_proc en with Some k => proc_op k (configure (env_of w JNull) data) | None => hemit [] end) (hemit []).
Definition on_push (w : world) (id : jstr) (m : json) : hop :=
  with_plugin id (λ e en, match en_proc en with Some k => proc_op k (toChild (env_of w JNull) (CPush m)) | None => hemit [] end) (hemit []).

(** The gateway is back: every part is stopped, one after the other. *)
Definition rpc_next (w : world) (todo : list nat) : hop := λ h,
  match todo with
  | [] => requestReconcile h
  | e :: todo =>
      let '(h, fx, wt) := stop_begin w e h in (with_waiting ((e, wt, todo) :: hs_rpc h) (hs_ending h) (hs_stopped h) h, fx)
  end.
Definition onRpcOpen (w : world) (session : Z) : hop := λ h,
  let running := filter (λ e, hs_entries h !! e ≫= en_proc ≠ None) (hs_plugins h).*2 in
  if session <=? 1 then (h, [])
  else match running with [] => (h, []) | _ => rpc_next w running h end.
Definition rpc_resume (w : world) (i : nat) : hop := λ h,
  match hs_rpc h !! i with
  | Some (e, wt, todo) =>
      if stop_done h wt then
        (upd (with_waiting (delete i (hs_rpc h)) (hs_ending h) (hs_stopped h)) ▶ stop_end e wt ▶ rpc_next w todo) h
      else (h, [])
  | None => (h, [])
  end.

(** [stop()]: every process at once. *)
Fixpoint stop_all (w : world) (es : list nat) : hop := λ h,
  match es with
  | [] => (h, [])
  | e :: es =>
      let '(h, fx, wt) := stop_begin w e h in
      let '(h, fx') := stop_all w es (with_waiting (hs_rpc h) ((e, wt) :: hs_ending h) (hs_stopped h) h) in (h, fx ++ fx')
  end.
Definition stop_host (w : world) : hop := λ h,
  (upd (with_waiting (hs_rpc h) (hs_ending h) true) ▶ stop_all w (hs_plugins h).*2) h.
Definition ending_resume (i : nat) : hop := λ h,
  match hs_ending h !! i with
  | Some (e, wt) =>
      if stop_done h wt then (upd (with_waiting (hs_rpc h) (delete i (hs_ending h)) (hs_stopped h)) ▶ stop_end e wt) h else (h, [])
  | None => (h, [])
  end.

(** ** What can happen *)

(** What only the host does to a process. *)
Definition from_outside (i : input) : bool :=
  match i with Start _ | Stop _ | Call _ _ _ | Configure _ _ | Push _ _ => false | _ => true end.
(** A restarted child is told the settings of then. *)
Definition with_config (c : json) (i : input) : input :=
  match i with RestartTimer ev => RestartTimer (Env (ev_now ev) (ev_connected ev) (ev_fork ev) c) | i => i end.

Inductive host_input :=
  | FirstCheck (isolated active : bool) | TickBegin | TickEnd (was isolated active : bool) (now : Z)
  | StateMessage (m : json) | CallMessage (w : world) (m : list (jstr * json)) | ConfigureMessage (w : world) (id : jstr) (data : option json)
  | PushMessage (w : world) (id : jstr) (m : json) | RpcOpen (w : world) (session : Z) | ChannelClosed
  | Resume (w : world) (r : res (list Z)) | RpcResume (w : world) (i : nat) | EndingResume (i : nat)
  | OfChild (k : nat) (i : input) | StopHost (w : world).

Definition host_step (i : host_input) : hop := λ h,
  match i with
  | FirstCheck isolated active => checkFence isolated active (hs_ticks h) h
  | TickBegin => tick_begin h
  | TickEnd was isolated active now => tick_end was isolated active now h
  | StateMessage m => on_state m h
  | CallMessage w m => on_call w m h
  | ConfigureMessage w id data => on_configure w id data h
  | PushMessage w id m => on_push w id m h
  | RpcOpen w session => onRpcOpen w session h
  | ChannelClosed => (h, [])
  | Resume w r => resume w r h
  | RpcResume w i => rpc_resume w i h
  | EndingResume i => ending_resume i h
  | OfChild k i =>
      match hs_procs h !! k with
      | Some r =>
          let config := match hs_entries h !! rn_entry r with Some en => en_config en | None => JNull end in
          if from_outside i then proc_op k (step timing_ backoff (rn_spec r) (with_config config i)) h else (h, [])
      | None => (h, [])
      end
  | StopHost w => stop_host w h
  end.

Fixpoint host_run (is_ : list host_input) : hop :=
  match is_ with [] => hemit [] | i :: is_ => host_step i ▶ host_run is_ end.
End Host.
