(* ===== verification/HostFacts.v ===== *)
(** * Properties of the edge host

    Which processes the host starts, with which package and capabilities, over
    every order of messages, timers and ends of processes. *)

From S2P Require Import Prelude JsBuffer JsMap JsValues JsText Limits Crypto EdgeConstants Gcplugin Signature Manifest ManifestFacts Protocol Packages PluginProcess PluginProcessFacts Host.

Local Open Scope Z_scope.
Local Open Scope host_scope.

Lemma hthen_eq f g h : (f ▶ g) h = ((g (f h).1).1, (f h).2 ++ (g (f h).1).2).
Proof. unfold hthen. destruct (f h) as [q fx]. cbn. by destruct (g q). Qed.

Section Facts.
Context `{Unicode} `{Node} `{Numbers} (gunzip : list Z → Z → gunzipped) (timing_ : timing) (backoff : list Z)
  (gatewayVersion : jstr) (keys : list jstr) (root : list jstr) (store0 : store).
Abbreviation hstep := (host_step gunzip timing_ backoff gatewayVersion keys root).
Abbreviation hrun := (host_run gunzip timing_ backoff gatewayVersion keys root).

(** ** What was ordered *)

Definition state_of (i : host_input) : option state :=
  match i with StateMessage m => match parseState m with Ok st => Some st | _ => None end | _ => None end.
Definition seen (hist : list host_input) : list state := omap state_of hist.

(** [st] orders the edge part [id], as [p]. *)
Definition orders (st : state) (id : jstr) (p : plugin) : Prop :=
  st_edgeEnabled st = true ∧ p ∈ st_plugins st ∧ p_id p = id ∧ p_enabled p = true.

(** The package [r] was there at the start, or it was downloaded, has the
    ordered digest and passed every check under a state of the server. *)
Definition checked (hist : list host_input) (id version : jstr) (r : ready) : Prop :=
  (∃ files, ((id, version), (r, files)) ∈ store0) ∨
  ∃ buf sha st c s tmp s', st ∈ seen hist ∧
    inspect gunzip buf id version sha (st_allowUnsigned st) gatewayVersion keys = Ok c ∧ extract s tmp id version sha c = Ok (s', r).

(** [r] is such a package, the one that [p] asks for. *)
Definition package_of (hist : list host_input) (p : plugin) (r : ready) : Prop :=
  checked hist (p_id p) (p_version p) r ∧ ry_sha256 r = toLowerCase (p_sha256 p).

Definition good_spec (hist : list host_input) (sp : spec) : Prop :=
  ∃ st p r, st ∈ seen hist ∧ orders st (sp_id sp) p ∧ p_capsError p = None ∧ package_of hist p r ∧
    acceptable (ry_signature r) (st_allowUnsigned st) = true ∧ sp = spec_for root p r.
Definition granted (hist : list host_input) (id : jstr) (c : caps) : Prop :=
  c = no_caps ∨ ∃ st p r, st ∈ seen hist ∧ orders st id p ∧ package_of hist p r ∧
    caps_le c (p_caps p) ∧ caps_le c (em_capabilities (ry_edge r)).

(** ** The invariant *)

Definition entry_inv (hist : list host_input) (en : entry) : Prop := granted hist (en_id en) (en_caps en).

Record base_inv (hist : list host_input) (h : host) : Prop := {
  bi_entries : Forall (entry_inv hist) (hs_entries h);
  bi_reg : ∀ e en k, hs_entries h !! e = Some en → en_proc en = Some k → ∃ r, hs_procs h !! k = Some r ∧ rn_entry r = e;
  bi_procs : ∀ k r, hs_procs h !! k = Some r → process_inv (rn_spec r) (rn_proc r) ∧ good_spec hist (rn_spec r) ∧
    ∃ en, hs_entries h !! rn_entry r = Some en ∧ en_id en = sp_id (rn_spec r) ∧
      (lf_wanted (ps_life (rn_proc r)) = true → en_proc en = Some k);
  bi_plugins : ∀ x, x ∈ hs_plugins h → ∃ en, hs_entries h !! x.2 = Some en ∧ en_id en = x.1;
  bi_desired : ∀ st, hs_desired h = Some st → st ∈ seen hist;
  bi_store : ∀ x, x ∈ hs_store h → checked hist x.1.1 x.1.2 x.2.1 }.

(** ** What listeners and stops leave alone *)

Definition en_static (en : entry) :=
  (en_id en, en_wanted en, en_denied en, en_caps en, en_spec en, (en_version en, en_sha256 en, en_config en, en_retryAt en)).
Definition entry_frame (en en' : entry) : Prop := en_static en' = en_static en ∧ (en_proc en' = en_proc en ∨ en_proc en' = None).
Record frame (h h' : host) : Prop := {
  fr_plugins : hs_plugins h' = hs_plugins h;
  fr_entries : Forall2 entry_frame (hs_entries h) (hs_entries h');
  fr_desired : hs_desired h' = hs_desired h;
  fr_fence : hs_mode h' = hs_mode h ∧ hs_fence h' = hs_fence h ∧ hs_ticks h' = hs_ticks h;
  fr_task : hs_task h' = hs_task h ∧ hs_again h' = hs_again h ∧ hs_stopped h' = hs_stopped h }.

Lemma entry_frame_refl en : entry_frame en en.
Proof. split; [done | by left]. Qed.
Lemma frame_refl h : frame h h.
Proof. split; try done. apply Forall_Forall2_diag, Forall_true, entry_frame_refl. Qed.
Lemma frame_trans h1 h2 h3 : frame h1 h2 → frame h2 h3 → frame h1 h3.
Proof.
  intros [Hp He Hd Hf Ht] [Hp' He' Hd' Hf' Ht']. split; [congruence | | congruence | intuition congruence | intuition congruence].
  rewrite Forall2_lookup in *. intros i. specialize (He i). specialize (He' i).
  destruct He as [a b [Hs Hq]|]; inversion He' as [b' c [Hs' Hq']|]; subst; constructor. split; [congruence |].
  destruct Hq' as [Hq'|Hq']; [rewrite Hq' | right]; done.
Qed.
Lemma frame_lookup h h' e en : frame h h' → hs_entries h !! e = Some en →
  ∃ en', hs_entries h' !! e = Some en' ∧ entry_frame en en'.
Proof. intros Hf He. eapply Forall2_lookup_l; [apply Hf | done]. Qed.
Lemma frame_lookup_r h h' e en' : frame h h' → hs_entries h' !! e = Some en' →
  ∃ en, hs_entries h !! e = Some en ∧ entry_frame en en'.
Proof. intros Hf He. eapply Forall2_lookup_r; [apply Hf | done]. Qed.

(** The entries: only what is reported changes. *)
Definition reports (f : entry → entry) : Prop := ∀ en, en_static (f en) = en_static en ∧ en_proc (f en) = en_proc en.

Lemma lookup_set_entry h e f i : hs_entries (set_entry e f h) !! i = if decide (i = e) then f <$> hs_entries h !! i else hs_entries h !! i.
Proof. unfold set_entry. cbn. case_decide as Hi; [subst; apply list_lookup_alter_eq | by apply list_lookup_alter_ne]. Qed.

Lemma set_entry_frame h e f : (∀ en, entry_frame en (f en)) → frame h (set_entry e f h).
Proof.
  intros Hf. split; try done. apply Forall2_same_length_lookup. split; [unfold set_entry; cbn; by rewrite length_alter |].
  intros i x y Hx Hy. rewrite lookup_set_entry, Hx in Hy. case_decide; simplify_eq/=; [apply Hf | apply entry_frame_refl].
Qed.

Lemma entry_frame_inv hist en en' : entry_frame en en' → entry_inv hist en → entry_inv hist en'.
Proof.
  intros [Hs Hp] Hg. unfold en_static in Hs. injection Hs as Hid _ _ Hc _ _ _ _ _. unfold entry_inv. by rewrite Hid, Hc.
Qed.

Lemma frame_entries hist h h' : frame h h' → Forall (entry_inv hist) (hs_entries h) → Forall (entry_inv hist) (hs_entries h').
Proof.
  intros Hf He. rewrite Forall_lookup in *. intros i x Hx. destruct (frame_lookup_r _ _ _ _ Hf Hx) as (en & Hen & Hfr).
  eapply entry_frame_inv; [done | by eapply He].
Qed.

(** The invariant, when processes, stops and packages stay and entries only report. *)
Lemma base_inv_reports hist h h' : base_inv hist h → frame h h' → hs_procs h' = hs_procs h →
  (∀ e en en', hs_entries h !! e = Some en → hs_entries h' !! e = Some en' → en_proc en' = en_proc en) →
  (∀ x, x ∈ hs_store h' → x ∈ hs_store h) → base_inv hist h'.
Proof.
  intros [He Hr Hp Hpl Hd Hs] Hf Hps Hpr Hst. split.
  - by eapply frame_entries.
  - intros e en k Hen Hk. destruct (frame_lookup_r _ _ _ _ Hf Hen) as (en0 & Hen0 & _). rewrite Hps.
    eapply Hr; [exact Hen0 |]. by rewrite <- (Hpr _ _ _ Hen0 Hen).
  - intros k r. rewrite Hps. intros Hk. destruct (Hp k r Hk) as (? & ? & en & Hen & Hid & Hw). split_and!; [done..|].
    destruct (frame_lookup _ _ _ _ Hf Hen) as (en' & Hen' & Hfr & _). exists en'. unfold en_static in Hfr. injection Hfr as Hid' _ _ _ _ _ _ _ _.
    split_and!; [done | congruence |]. intros ?. rewrite (Hpr _ _ _ Hen Hen'). by apply Hw.
  - intros x. rewrite (fr_plugins _ _ Hf). intros Hx. destruct (Hpl x Hx) as (en & Hen & Hid).
    destruct (frame_lookup _ _ _ _ Hf Hen) as (en' & Hen' & Hfr & _). exists en'. unfold en_static in Hfr. injection Hfr as Hid' _ _ _ _ _ _ _ _.
    split; [done | congruence].
  - intros st. rewrite (fr_desired _ _ Hf). apply Hd.
  - intros x Hx. by apply Hs, Hst.
Qed.

(** ** The effects of a step *)

(** What the steps may do; [starting]: the boundary permits a start. *)
Definition ok (hist : list host_input) (starting : Prop) (x : host_effect) : Prop :=
  match x with
  | Api _ _ id c _ _ => granted hist id c
  | NewProcess _ _ sp => good_spec hist sp ∧ starting
  | _ => True
  end.

Section Steps.
Context (hist : list host_input) (starting : Prop).
Abbreviation binv := (base_inv hist).
Abbreviation oks := (Forall (ok hist starting)).

Lemma listen_ok k e p x h : binv h →
  binv (listen k e p x h).1 ∧ frame h (listen k e p x h).1 ∧ hs_procs (listen k e p x h).1 = hs_procs h ∧ oks (listen k e p x h).2.
Proof.
  intros Hb. unfold listen. set (id := match hs_entries h !! e with Some en => en_id en | None => [] end).
  assert (∀ l, binv h ∧ frame h h ∧ hs_procs h = hs_procs h ∧ (oks l → oks l)) as Hsame by (intros; split_and!; [done | apply frame_refl | done | done]).
  assert (∀ d c, binv (with_procs (hs_procs h) d c h) ∧ frame h (with_procs (hs_procs h) d c h)) as Hbook.
  { intros d c. assert (frame h (with_procs (hs_procs h) d c h)) as Hf by (split; try done; apply Forall_Forall2_diag, Forall_true, entry_frame_refl).
    split; [|done]. eapply base_inv_reports; [exact Hb | done | done | cbn; congruence | done]. }
  destruct x as [s| | |level line|name data|c|c|c m|n v|n code m|n|n api args|t|u]; cbn [fst snd];
    try (split_and!; [done | apply frame_refl | done | by repeat constructor]).
  - assert (frame h (set_entry e (λ en, en_report (OfProcess (if bool_decide (s = Stopping) then Stopped else s))
      (if bool_decide (s = Crashed) then Some (OfProcessError (lf_lastError (ps_life p))) else en_lastError en) en) h)) as Hf
      by (apply set_entry_frame; intros en; split; [done | by left]).
    split_and!; [|done|done|constructor]. eapply base_inv_reports; [exact Hb | done | done | | done].
    intros i en en' Hen. rewrite lookup_set_entry, Hen. destruct (decide (i = e)); cbn; by intros [= <-].
  - destruct (hs_entries h !! e) as [en|]; [|split_and!; [done | apply frame_refl | done | constructor]].
    assert (frame h (with_desired (hs_desired h) (prune (hs_store h) id (sp_version <$> en_spec en)) h)) as Hf
      by (split; try done; apply Forall_Forall2_diag, Forall_true, entry_frame_refl).
    split_and!; [|done|done|constructor]. eapply base_inv_reports; [exact Hb | done | done | cbn; congruence |].
    cbn. intros x [_ Hx]%list_elem_of_filter. done.
  - destruct (map_get (hs_calls h) (k, n)); [|split_and!; [done | apply frame_refl | done | constructor]].
    destruct (Hbook (hs_done h) (map_delete (hs_calls h) (k, n))). split_and!; [done | done | done | by repeat constructor].
  - destruct (map_get (hs_calls h) (k, n)); [|split_and!; [done | apply frame_refl | done | constructor]].
    destruct (Hbook (hs_done h) (map_delete (hs_calls h) (k, n))). split_and!; [done | done | done | by repeat constructor].
  - destruct (Hbook ((k, n) :: hs_done h) (hs_calls h)). split_and!; [done | done | done | constructor].
  - split_and!; [done | apply frame_refl | done |]. unfold ApiCall. destruct (hs_entries h !! e) as [en|] eqn:He; [|constructor].
    destruct (_ && _); [|by repeat constructor]. constructor; [|constructor]. cbn.
    pose proof (bi_entries _ _ Hb) as Hf. rewrite Forall_lookup in Hf. by apply (Hf e en He).
Qed.

Lemma listen_all_ok k e p fx h : binv h →
  binv (listen_all k e p fx h).1 ∧ frame h (listen_all k e p fx h).1 ∧ hs_procs (listen_all k e p fx h).1 = hs_procs h ∧
  oks (listen_all k e p fx h).2.
Proof.
  revert h. induction fx as [|x fx IH]; intros h Hb; cbn [listen_all].
  - split_and!; [done | apply frame_refl | done | constructor].
  - rewrite hthen_eq. cbn [fst snd]. destruct (listen_ok k e p x h Hb) as (Hb1 & Hf1 & Hp1 & Ho1). destruct (IH _ Hb1) as (Hb2 & Hf2 & Hp2 & Ho2).
    split_and!; [done | by eapply frame_trans | congruence | by apply Forall_app].
Qed.

(** Another state of process [k]. *)
Lemma base_inv_proc h k r p : binv h → hs_procs h !! k = Some r → process_inv (rn_spec r) p →
  (lf_wanted (ps_life p) = true → ∃ en, hs_entries h !! rn_entry r = Some en ∧ en_proc en = Some k) →
  binv (with_procs (<[k := Running (rn_entry r) (rn_spec r) p]> (hs_procs h)) (hs_done h) (hs_calls h) h).
Proof.
  intros [He Hr Hp Hpl Hd Hs] Hk Hi Hw. split; try done; cbn [hs_procs with_procs].
  - intros e en j Hen Hj. destruct (Hr e en j Hen Hj) as (r' & Hr' & Hre). destruct (decide (j = k)) as [->|Hjk].
    + rewrite list_lookup_insert_eq by (by eapply lookup_lt_Some). eexists. split; [done |]. cbn. congruence.
    + rewrite list_lookup_insert_ne by done. by exists r'.
  - intros j r' Hj. destruct (decide (j = k)) as [->|Hjk].
    + rewrite list_lookup_insert_eq in Hj by (by eapply lookup_lt_Some). injection Hj as <-. cbn.
      destruct (Hp k r Hk) as (_ & ? & en & Hen & Hid & _). split_and!; [done..|]. exists en. split_and!; [done..|].
      intros Hwp. destruct (Hw Hwp) as (en' & Hen' & ?). congruence.
    + rewrite list_lookup_insert_ne in Hj by done. by apply Hp.
Qed.

Lemma with_procs_frame h ps d c : frame h (with_procs ps d c h).
Proof. split; try done. apply Forall_Forall2_diag, Forall_true, entry_frame_refl. Qed.

Lemma proc_op_ok k f h : binv h →
  (∀ r, hs_procs h !! k = Some r → process_inv (rn_spec r) (rn_proc r) → process_inv (rn_spec r) (f (rn_proc r)).1 ∧
    (lf_wanted (ps_life (f (rn_proc r)).1) = true → ∃ en, hs_entries h !! rn_entry r = Some en ∧ en_proc en = Some k)) →
  binv (proc_op k f h).1 ∧ frame h (proc_op k f h).1 ∧ oks (proc_op k f h).2.
Proof.
  intros Hb Hf. unfold proc_op. destruct (hs_procs h !! k) as [r|] eqn:Hk; [|split_and!; [done | apply frame_refl | constructor]].
  destruct (bi_procs _ _ Hb k r Hk) as (Hi & _). destruct (Hf r eq_refl Hi) as [Hi' Hw]. destruct (f (rn_proc r)) as [p fx]. cbn [fst] in *.
  destruct (listen_all_ok k (rn_entry r) p fx _ (base_inv_proc h k r p Hb Hk Hi' Hw)) as (? & Hfr & _ & ?).
  split_and!; [done | | done]. eapply frame_trans; [apply with_procs_frame | exact Hfr].
Qed.

(** ** Stopping *)

Definition noproc (e : nat) (h : host) : Prop := ∀ en, hs_entries h !! e = Some en → en_proc en = None.
Lemma noproc_frame e h h' : frame h h' → noproc e h → noproc e h'.
Proof.
  intros Hf Hn en' Hen'. destruct (frame_lookup_r _ _ _ _ Hf Hen') as (en & Hen & _ & Hp). specialize (Hn en Hen).
  destruct Hp; congruence.
Qed.

Lemma stop_begin_ok w e h : binv h → let r := stop_begin w e h in
  binv r.1.1 ∧ frame h r.1.1 ∧ noproc e r.1.1 ∧ oks r.1.2.
Proof.
  intros Hb. cbv zeta. unfold stop_begin.
  destruct (hs_entries h !! e ≫= _) as [[[en k] r]|] eqn:Hx.
  2: { split_and!; [done | apply frame_refl | | constructor]. intros en Hen. destruct (en_proc en) as [k|] eqn:Hk; [|done].
    cbn [fst] in Hen. destruct (bi_reg _ _ Hb e en k Hen Hk) as (r & Hr & _). rewrite Hen in Hx. cbn in Hx. rewrite Hk in Hx. cbn in Hx. by rewrite Hr in Hx. }
  apply bind_Some in Hx as (en' & Hen & (k' & Hk & (r' & Hr & [= -> -> ->])%bind_Some)%bind_Some).
  destruct (bi_reg _ _ Hb e en k Hen Hk) as (r1 & Hr1 & Hre). rewrite Hr in Hr1. injection Hr1 as <-.
  destruct (bi_procs _ _ Hb k r Hr) as (Hi & Hg & en1 & Hen1 & Hid & Hw). rewrite Hre, Hen in Hen1. injection Hen1 as <-.
  destruct (drainDropped (ps_events (rn_proc r))) as [ev dropped]. set (p1 := with_events (rn_proc r) ev).
  assert (process_inv (rn_spec r) p1) as Hi1 by (destruct Hi; by split).
  set (h1 := with_procs _ _ _ h). rewrite hthen_eq. cbn [fst snd app upd].
  set (h2 := set_entry e _ h1). set (f := stop (env_of w JNull)).
  assert (frame h1 h2) as Hf2 by (apply set_entry_frame; intros x; split; [done | by right]).
  assert (noproc e h2) as Hn2. { intros x. unfold h2. rewrite lookup_set_entry, decide_True by done. cbn. rewrite Hen. cbn. by intros [= <-]. }
  (* the process is stopped before anything listens *)
  assert (hs_procs h2 !! k = Some (Running (rn_entry r) (rn_spec r) p1)) as Hk2.
  { cbn. by rewrite list_lookup_insert_eq by (by eapply lookup_lt_Some). }
  destruct (stop_keeps (rn_spec r) (env_of w JNull) p1 Hi1) as (Hi3 & _ & _). pose proof (stop_not_wanted (env_of w JNull) p1) as Hw3.
  unfold proc_op. rewrite Hk2. fold f in Hi3, Hw3. cbn [rn_proc rn_entry rn_spec]. destruct (f p1) as [p3 fx]. cbn [fst snd] in *.
  set (h3 := with_procs _ _ _ h2).
  assert (binv h3) as Hb3.
  { destruct Hb as [He Hrg Hps Hpl Hd Hs]. split; try done.
    - cbn. apply Forall_alter; [done |]. by intros.
    - intros i x j. unfold h3. cbn [hs_entries with_procs hs_procs]. unfold h2. rewrite lookup_set_entry. case_decide as Hie; cbn.
      + subst i. rewrite Hen. cbn. by intros [= <-].
      + intros Hxx Hj. destruct (Hrg i x j Hxx Hj) as (rj & Hrj & Hrje). assert (j ≠ k) as Hjk by (intros ->; rewrite Hr in Hrj; congruence).
        exists rj. cbn. rewrite !list_lookup_insert_ne by done. done.
    - intros j rj. change (hs_entries h3) with (hs_entries h2). destruct (decide (j = k)) as [->|Hjk].
      + unfold h3. cbn [hs_procs with_procs]. rewrite list_lookup_insert_eq by (cbn; rewrite length_insert; by eapply lookup_lt_Some). intros [= <-]. cbn [rn_spec rn_proc rn_entry].
        split_and!; [done..|]. exists (en_life None (en_throttled en + dropped) (en_restarts en + lf_restarts (ps_life (rn_proc r))) en).
        unfold h2. rewrite lookup_set_entry, Hre, decide_True by done. cbn. rewrite Hen. split_and!; [done | done | congruence].
      + assert (hs_procs h3 !! j = hs_procs h !! j) as -> by (cbn; by rewrite !list_lookup_insert_ne). intros Hj. destruct (Hps j rj Hj) as (? & ? & x & Hxx & Hxid & Hxw). split_and!; [done..|].
        destruct (decide (rn_entry rj = e)) as [Heq|Hne].
        * rewrite Heq, Hen in Hxx. injection Hxx as <-. exists (en_life None (en_throttled en + dropped) (en_restarts en + lf_restarts (ps_life (rn_proc r))) en).
          unfold h2. rewrite (lookup_set_entry h1 e), Heq, decide_True by done. cbn. rewrite Hen. split_and!; [done | done |]. intros Hwj. specialize (Hxw Hwj). congruence.
        * exists x. unfold h2. rewrite (lookup_set_entry h1 e), decide_False by done. done.
    - intros x Hx. destruct (Hpl x Hx) as (y & Hy & Hyid). unfold h3. cbn [hs_entries with_procs]. unfold h2. rewrite lookup_set_entry.
      case_decide as Hxe; [|by exists y]. cbn. rewrite Hxe, Hen in *. eexists. split; [done |]. by simplify_eq/=. }
  destruct (listen_all_ok k (rn_entry r) p3 fx h3 Hb3) as (Hb4 & Hf4 & _ & Ho4).
  assert (frame h h3) as Hf3 by (eapply frame_trans; [apply with_procs_frame |]; eapply frame_trans; [exact Hf2 | apply with_procs_frame]).
  fold h3 in Hb4, Hf4, Ho4. split_and!.
  - destruct (listen_all k (rn_entry r) p3 fx h3). done.
  - destruct (listen_all k (rn_entry r) p3 fx h3). by eapply frame_trans.
  - assert (noproc e h3) as Hn3 by done. destruct (listen_all k (rn_entry r) p3 fx h3). by eapply noproc_frame.
  - destruct (listen_all k (rn_entry r) p3 fx h3). done.
Qed.

(** ** Entries *)

(** A process is registered only for an entry that is wanted and not denied. *)
Definition flags_but (P : nat → Prop) (h : host) : Prop := ∀ e en, ¬ P e → hs_entries h !! e = Some en →
  en_proc en ≠ None → en_wanted en = true ∧ en_denied en = false.
Abbreviation flags := (flags_but (λ _, False)).
Lemma flags_frame P h h' : frame h h' → flags_but P h → flags_but P h'.
Proof.
  intros Hf Hl e en' Hn Hen' Hp. destruct (frame_lookup_r _ _ _ _ Hf Hen') as (en & Hen & Hs & Hpr).
  unfold en_static in Hs. injection Hs as _ -> -> _ _ _ _ _ _. apply (Hl e en Hn Hen). destruct Hpr; congruence.
Qed.
Lemma flags_noproc e h : noproc e h → flags_but (λ i, i = e) h → flags h.
Proof.
  intros Hn Hl i en _ Hen Hp. destruct (decide (i = e)) as [->|Hne]; [by rewrite (Hn en Hen) in Hp | by eapply Hl].
Qed.

Lemma flags_weaken P h : flags h → flags_but P h.
Proof. intros Hl e en _ He. apply (Hl e en); tauto. Qed.

(** The entry [e] is that of the part [id], which may run. *)
Definition can_run (e : nat) (id : jstr) (h : host) : Prop :=
  ∃ en, hs_entries h !! e = Some en ∧ en_id en = id ∧ en_wanted en = true ∧ en_denied en = false.
Lemma can_run_frame e id h h' : frame h h' → can_run e id h → can_run e id h'.
Proof.
  intros Hf (en & Hen & Hid & Hw & Hd). destruct (frame_lookup _ _ _ _ Hf Hen) as (en' & Hen' & Hs & _). exists en'.
  unfold en_static in Hs. injection Hs as -> -> -> _ _ _ _ _ _. done.
Qed.

(** Changes of an entry that keep its name and process. *)
Lemma set_entry_binv e f h : binv h → (∀ en, en_id (f en) = en_id en ∧ en_proc (f en) = en_proc en) →
  (∀ en, hs_entries h !! e = Some en → granted hist (en_id en) (en_caps (f en))) → binv (set_entry e f h).
Proof.
  intros [He Hr Hp Hpl Hd Hs] Hf Hg. split; try done.
  - rewrite Forall_lookup in *. intros i x. rewrite lookup_set_entry. destruct (decide (i = e)) as [->|]; [|by apply He].
    destruct (hs_entries h !! e) as [en|] eqn:Hen; [|done]. cbn. intros [= <-]. unfold entry_inv. destruct (Hf en) as [-> _]. by apply Hg.
  - intros i x k. rewrite lookup_set_entry. destruct (decide (i = e)) as [->|]; [|by apply Hr].
    destruct (hs_entries h !! e) as [en|] eqn:Hen; [|done]. cbn. intros [= <-]. destruct (Hf en) as [_ ->]. by apply Hr.
  - intros k r Hk. destruct (Hp k r Hk) as (? & ? & en & Hen & Hid & Hw). split_and!; [done..|]. rewrite lookup_set_entry, Hen.
    destruct (decide _); [|by exists en]. exists (f en). destruct (Hf en) as [-> ->]. done.
  - intros x Hx. destruct (Hpl x Hx) as (en & Hen & Hid). rewrite lookup_set_entry, Hen. destruct (decide _); [|by exists en].
    exists (f en). destruct (Hf en) as [-> _]. done.
Qed.
(** ... and its capabilities. *)
Lemma set_entry_same e f h : binv h → (∀ en, en_id (f en) = en_id en ∧ en_proc (f en) = en_proc en ∧ en_caps (f en) = en_caps en) →
  binv (set_entry e f h).
Proof.
  intros Hb Hf. apply set_entry_binv; [done | intros en; by destruct (Hf en) as (? & ? & _) |].
  intros en Hen. destruct (Hf en) as (_ & _ & ->). pose proof (bi_entries _ _ Hb) as He. rewrite Forall_lookup in He. by apply (He e).
Qed.
Lemma set_entry_flags P e f h : flags_but P h →
  (∀ en, en_proc (f en) = en_proc en ∧ (P e ∨ en_proc en = None ∨ en_wanted (f en) = en_wanted en ∧ en_denied (f en) = en_denied en)) →
  flags_but P (set_entry e f h).
Proof.
  intros Hl Hf i x Hn. rewrite lookup_set_entry. destruct (decide (i = e)) as [->|]; [|by apply Hl].
  destruct (hs_entries h !! e) as [en|] eqn:Hen; [|done]. cbn. intros [= <-]. destruct (Hf en) as [-> [?|[->|[-> ->]]]]; [done | done |].
  by apply (Hl e).
Qed.
Lemma noproc_set e i f h : noproc e h → (∀ en, en_proc (f en) = en_proc en) → noproc e (set_entry i f h).
Proof.
  intros Hn Hf en. rewrite lookup_set_entry. destruct (decide (e = i)) as [->|]; [|by apply Hn].
  destruct (hs_entries h !! i) as [x|] eqn:Hx; [|done]. cbn. intros [= <-]. rewrite Hf. by apply Hn.
Qed.
Lemma can_run_set e i id f h : can_run e id h → (∀ en, en_id (f en) = en_id en ∧ en_wanted (f en) = en_wanted en ∧ en_denied (f en) = en_denied en) →
  can_run e id (set_entry i f h).
Proof.
  intros (en & Hen & ?) Hf. unfold can_run. rewrite lookup_set_entry, Hen. destruct (decide _); [|by exists en].
  exists (f en). destruct (Hf en) as (-> & -> & ->). done.
Qed.

(** ** Where the coroutine waits *)

Definition todo_ok (st : state) (todo : list plugin) : Prop := st ∈ seen hist ∧ ∀ p, p ∈ todo → orders st (p_id p) p.
Definition good_for (st : state) (p : plugin) (sp : spec) : Prop :=
  ∃ r, package_of hist p r ∧ acceptable (ry_signature r) (st_allowUnsigned st) = true ∧ sp = spec_for root p r.
Definition current (st : state) (p : plugin) : Prop := orders st (p_id p) p ∧ p_capsError p = None.

Definition pc_inv (c : pc) (h : host) : Prop :=
  match c with
  | AtMqtt st => st ∈ seen hist
  | AtUnwanted st e _ _ => st ∈ seen hist ∧ noproc e h
  | AtNext st todo => todo_ok st todo
  | AtDeny st e _ _ _ todo => todo_ok st todo ∧ noproc e h
  | AtDownload st p e todo => todo_ok st todo ∧ current st p ∧ can_run e (p_id p) h
  | AtChanged st p e _ sp todo => todo_ok st todo ∧ current st p ∧ noproc e h ∧ can_run e (p_id p) h ∧ good_for st p sp
  | AtEnd => True
  end.
Definition task_inv (h : host) : Prop := ∀ c, hs_task h = Some c → pc_inv c h.

Lemma pc_frame c h h' : frame h h' → pc_inv c h → pc_inv c h'.
Proof. intros Hf. destruct c; cbn; intuition eauto using noproc_frame, can_run_frame. Qed.
Lemma task_frame h h' : frame h h' → task_inv h → task_inv h'.
Proof. intros Hf Ht c. destruct (fr_task _ _ Hf) as (-> & _). intros Hc. eapply pc_frame; [done | by apply Ht]. Qed.

(** What holds after every step. *)
Record host_inv (h : host) : Prop := { hi_base : binv h; hi_flags : flags h; hi_task : task_inv h }.
Definition good (r : host * list host_effect) : Prop := host_inv r.1 ∧ oks r.2.

Lemma frame_good h r : host_inv h → binv r.1 → frame h r.1 → oks r.2 → good r.
Proof. intros [_ Hl Ht] Hb Hf Ho. split; [|done]. split; [done | by eapply flags_frame | by eapply task_frame]. Qed.

Lemma binv_task a t h : binv h → binv (with_task a t h).
Proof. intros []. by split. Qed.
Lemma flags_task P a t h : flags_but P h → flags_but P (with_task a t h).
Proof. done. Qed.

(** Effects before an operation. *)
Lemma good_app fx r : oks fx → good r → good (r.1, fx ++ r.2) .
Proof. intros Hf [? ?]. split; [done | by apply Forall_app]. Qed.

Lemma await_good c h : binv h → flags h → pc_inv c h → good (await c h).
Proof. intros Hb Hl Hc. split; [|constructor]. split; [by apply binv_task | done |]. intros c' [= <-]. by destruct c. Qed.

Lemma reconcile_good h : binv h → flags h → good (reconcile h).
Proof.
  intros Hb Hl. unfold reconcile. destruct (hs_desired h) as [st|] eqn:Hd; [|by apply await_good].
  rewrite hthen_eq. apply good_app; [by repeat constructor |]. apply await_good; [done | done |]. by apply (bi_desired _ _ Hb).
Qed.
Lemma requestReconcile_good h : host_inv h → good (requestReconcile h).
Proof.
  intros [Hb Hl Ht]. unfold requestReconcile. destruct (hs_task h) as [c|] eqn:Hc.
  - split; [|constructor]. split; [by apply binv_task | done |]. intros c' Hc'. cbn in Hc'. specialize (Ht c Hc). simplify_eq. by destruct c'.
  - rewrite hthen_eq. apply good_app; [constructor |]. by apply reconcile_good; [apply binv_task |].
Qed.
Lemma finish_good h : binv h → flags h → good (finish h).
Proof.
  intros Hb Hl. unfold finish. destruct (_ && _).
  - rewrite hthen_eq. apply good_app; [constructor |]. by apply reconcile_good; [apply binv_task |].
  - split; [|constructor]. split; [by apply binv_task | done |]. done.
Qed.
Lemma fails_good h : binv h → flags h → good (reconcile_fails h).
Proof. intros Hb Hl. split; [|by repeat constructor]. split; [by apply binv_task | done |]. done. Qed.

Lemma stop_then_good w e k h : binv h → flags_but (λ i, i = e) h →
  (∀ h' wt, frame h h' → noproc e h' → pc_inv (k wt) h') → good (stop_then w e k h).
Proof.
  intros Hb Hl Hk. unfold stop_then. destruct (stop_begin_ok w e h Hb) as (Hb' & Hf & Hn & Ho).
  destruct (stop_begin w e h) as [[h' fx] wt]. cbn [fst snd] in *.
  assert (flags h') as Hl' by (eapply flags_noproc; [done | by eapply flags_frame]).
  pose proof (await_good (k wt) h' Hb' Hl' (Hk h' wt Hf Hn)) as Hg. destruct (await (k wt) h') as [h2 fx2].
  by apply (good_app fx (h2, fx2)).
Qed.

Lemma stop_end_same e w h : (stop_end e w h).1 = h ∧ oks (stop_end e w h).2.
Proof. unfold stop_end. destruct w; [destruct (hs_entries h !! e) |]; split; try done; by repeat constructor. Qed.

(** ** Starting a process *)

Lemma startProcess_ok w e sp h : binv h → flags h → noproc e h → good_spec hist sp → starting →
  (∃ en, hs_entries h !! e = Some en ∧ en_id en = sp_id sp ∧ en_spec en = Some sp ∧ en_wanted en = true ∧ en_denied en = false) →
  let r := startProcess timing_ backoff w e h in binv r.1 ∧ flags r.1 ∧ oks r.2.
Proof.
  intros Hb Hl Hn Hg Hst (en & Hen & Hid & Hsp & Hw & Hd). cbv zeta. unfold startProcess. rewrite Hen.
  assert (spec_of h e = sp) as -> by (unfold spec_of; by rewrite Hen, Hsp). rewrite !hthen_eq. cbn [fst snd upd hemit app].
  set (k := length (hs_procs h)). set (h1 := with_procs _ _ _ h). set (f := λ x, en_report _ _ _). set (h2 := set_entry e f h1).
  assert (hs_procs h2 !! k = Some (Running e sp newProcess)) as Hk by (cbn; by apply list_lookup_middle).
  assert (hs_entries h2 !! e = Some (f en)) as Hen2 by (unfold h2; rewrite lookup_set_entry, decide_True by done; cbn; by rewrite Hen).
  assert (binv h2) as Hb2.
  { destruct Hb as [He Hr Hp Hpl Hds Hs]. split; try done.
    - cbn. apply Forall_alter; [done |]. by intros.
    - intros i x j. unfold h2 at 1. rewrite lookup_set_entry. destruct (decide (i = e)) as [->|Hne]; cbn [hs_entries h1 with_procs].
      + rewrite Hen. cbn. intros [= <-] [= <-]. by exists (Running e sp newProcess).
      + intros Hx Hj. destruct (Hr i x j Hx Hj) as (rj & Hrj & ?). exists rj. split; [by apply lookup_app_l_Some | done].
    - intros j rj Hj. cbn in Hj. apply lookup_app_Some in Hj as [Hj|[Hle Hj]].
      + destruct (Hp j rj Hj) as (? & ? & x & Hx & Hxid & Hxw). split_and!; [done..|]. destruct (decide (rn_entry rj = e)) as [He'|Hne].
        * rewrite He' in *. exists (f en). rewrite Hen in Hx. injection Hx as <-. split_and!; [done | done |]. intros Hwj.
          specialize (Hxw Hwj). rewrite (Hn en Hen) in Hxw. done.
        * exists x. unfold h2. rewrite lookup_set_entry, decide_False by done. done.
      + apply list_lookup_singleton_Some in Hj as [_ <-]. cbn [rn_entry rn_spec rn_proc]. split_and!; [apply newProcess_inv | done |].
        exists (f en). split_and!; [done | done | done].
    - intros x Hx. destruct (Hpl x Hx) as (y & Hy & Hyid). unfold h2. rewrite lookup_set_entry. destruct (decide _) as [Hxe|]; [|by exists y].
      cbn. rewrite Hxe, Hen in *. exists (f en). split; [done |]. by simplify_eq/=. }
  assert (flags h2) as Hl2.
  { intros i x Hi. unfold h2. rewrite lookup_set_entry. destruct (decide (i = e)) as [->|]; [|by apply Hl]. cbn [hs_entries h1 with_procs].
    rewrite Hen. cbn. intros [= <-] _. done. }
  destruct (proc_op_ok k (start timing_ backoff sp (env_of w (en_config en))) h2 Hb2) as (Hb3 & Hf3 & Ho3).
  { intros r Hr Hi. rewrite Hk in Hr. injection Hr as <-. cbn [rn_spec rn_proc rn_entry] in *.
    split; [by apply start_keeps | intros _; by exists (f en)]. }
  split_and!; [done | by eapply flags_frame |]. by constructor.
Qed.

Lemma ensure_started_good w st e p sp todo h : binv h → flags h → noproc e h ∨ (∃ en k, hs_entries h !! e = Some en ∧ en_proc en = Some k) →
  todo_ok st todo → current st p → can_run e (p_id p) h → good_for st p sp → starting →
  good (ensure_started timing_ backoff w st e sp todo h).
Proof.
  intros Hb Hl Hn Ht [Ho Hc] Hr (r & Hpk & Ha & Hs) Hst. unfold ensure_started. rewrite hthen_eq. cbn [fst snd upd app].
  set (h1 := set_entry e (en_setspec (Some sp)) h).
  assert (binv h1) as Hb1 by (by apply set_entry_same).
  assert (flags h1) as Hl1 by (apply set_entry_flags; [done |]; intros en; split; [done | right; by right]).
  destruct Hr as (en & Hen & Hid & Hw & Hd).
  assert (hs_entries h1 !! e = Some (en_setspec (Some sp) en)) as Hen1 by (unfold h1; rewrite lookup_set_entry, decide_True by done; by rewrite Hen).
  rewrite Hen1. cbn [en_proc en_setspec]. destruct (en_proc en) as [k|] eqn:Hk.
  - rewrite hthen_eq. apply good_app; [constructor |]. apply await_good; [| |done].
    + apply set_entry_same; [done |]. intros x. by destruct (bool_decide _).
    + apply set_entry_flags; [done |]. intros x. destruct (bool_decide _); (split; [done | right; by right]).
  - assert (noproc e h1) as Hn1 by (intros x; rewrite Hen1; by intros [= <-]).
    destruct (startProcess_ok w e sp h1) as (Hb2 & Hl2 & Ho2); [done | done | done | | done | |].
    + exists st, p, r. split_and!; try done; [apply Ht | by subst sp].
    + eexists. split; [exact Hen1 |]. cbn. split_and!; try done. by subst sp.
    + destruct (startProcess timing_ backoff w e h1) as [h2 fx]. cbn [fst snd] in *.
      destruct (existsb _ fx); [apply (good_app fx (reconcile_fails h2)) | apply (good_app fx (await (AtNext st todo) h2))]; try done;
        [by apply fails_good | by apply await_good].
Qed.

(** ** Making sure of a part *)

Lemma stop_deny_good w st e code sp todo h : binv h → flags h → todo_ok st todo → good (stop_deny w st e code sp todo h).
Proof.
  intros Hb Hl Ht. apply stop_then_good; [done | by apply flags_weaken |]. intros h' wt Hf Hn. by split.
Qed.

Lemma ensure_package_good w st e p r todo h : binv h → flags h → todo_ok st todo → current st p → can_run e (p_id p) h →
  package_of hist p r → (hs_fence h = true → starting) →
  good (ensure_package timing_ backoff root w st p e r todo h).
Proof.
  intros Hb Hl Ht Hc Hr Hp Hst. unfold ensure_package. destruct (acceptable _ _) eqn:Ha; cbn [negb]; [|by apply stop_deny_good].
  pose proof Hr as (en & Hen & Hid & Hw & Hd). rewrite Hen, hthen_eq. apply good_app; [constructor |]. cbn [upd fst].
  set (f := en_package _ _ _). set (h1 := set_entry e f h).
  assert (binv h1) as Hb1.
  { apply set_entry_binv; [done | done |]. intros x Hx. rewrite Hen in Hx. injection Hx as <-. right. exists st, p, r.
    destruct (intersectCaps_greatest (em_capabilities (ry_edge r)) (p_caps p)) as (? & ? & _). destruct Hc as [Ho _].
    rewrite Hid. split_and!; [apply Ht | done..]. }
  assert (flags h1) as Hl1 by (apply set_entry_flags; [done |]; intros x; split; [done | right; by right]).
  assert (can_run e (p_id p) h1) as Hr1 by (by apply can_run_set).
  assert (good_for st p (spec_for root p r)) as Hg by (by exists r).
  change (hs_fence h1) with (hs_fence h). destruct (hs_fence h); cbn [negb]; [|by apply stop_deny_good].
  destruct (changed en p (spec_for root p r) && negb (bool_decide (en_proc en = None))) eqn:Hch.
  - apply stop_then_good; [done | by apply flags_weaken |].
    intros h' wt Hf Hn. split_and!; [done | done | done | by eapply can_run_frame | done].
  - apply ensure_started_good with (p := p); try done; [|by apply Hst]. destruct (en_proc en) as [k|] eqn:Hk.
    + right. exists (f en), k. unfold h1. rewrite lookup_set_entry, decide_True by done. by rewrite Hen.
    + left. intros x. unfold h1. rewrite lookup_set_entry, decide_True, Hen by done. cbn. by intros [= <-].
Qed.

Lemma entry_of_ok id h : binv h → flags h → let r := entry_of id h in
  binv r.1 ∧ flags r.1 ∧ (∃ en, hs_entries r.1 !! r.2 = Some en ∧ en_id en = id) ∧ hs_fence r.1 = hs_fence h ∧ hs_store r.1 = hs_store h.
Proof.
  intros Hb Hl. cbv zeta. unfold entry_of. destruct (map_get (hs_plugins h) id) as [e|] eqn:Hg; cbn [fst snd].
  - split_and!; try done. apply map_get_elem in Hg. by destruct (bi_plugins _ _ Hb _ Hg) as (en & ? & ?); exists en.
  - destruct Hb as [He Hr Hp Hpl Hd Hs]. split_and!; try done.
    + split; try done; cbn.
      * apply Forall_app. split; [done |]. repeat constructor.
      * intros e en k [Hen|[_ Hen]]%lookup_app_Some Hk; [by eapply Hr |]. apply list_lookup_singleton_Some in Hen as [_ <-]. done.
      * intros k r Hk. destruct (Hp k r Hk) as (? & ? & en & Hen & ?). split_and!; [done..|]. exists en. split; [by apply lookup_app_l_Some | done].
      * intros x Hx. assert (x = (id, length (hs_entries h)) ∨ x ∈ hs_plugins h) as [->|Hx'].
        { rewrite map_set_new in Hx by (by apply map_get_None). apply elem_of_app in Hx as [?| ->%list_elem_of_singleton]; [by right | by left]. }
        -- cbn. eexists. split; [by apply list_lookup_middle | done].
        -- destruct (Hpl x Hx') as (en & Hen & ?). exists en. split; [by apply lookup_app_l_Some | done].
    + intros e en He'. cbn. intros [Hen|[_ Hen]]%lookup_app_Some; [by eapply Hl |]. apply list_lookup_singleton_Some in Hen as [_ <-]. done.
    + eexists. split; [by apply list_lookup_middle | done].
Qed.

Lemma installed_package h p r : binv h → installed (hs_store h) (p_id p) (p_version p) (p_sha256 p) = Some r → package_of hist p r.
Proof.
  intros Hb. unfold installed. destruct (_ && _); [|done]. destruct (map_get _ _) as [[info files]|] eqn:Hg; [|done].
  destruct (bool_decide _ && _) eqn:Hc; [|done]. intros [= <-]. apply andb_true_iff in Hc as [?%bool_decide_eq_true _].
  split; [|done]. apply map_get_elem in Hg. by apply (bi_store _ _ Hb) in Hg.
Qed.

Lemma ensurePlugin_good w st p todo h : binv h → flags h → todo_ok st todo → orders st (p_id p) p → (hs_fence h = true → starting) →
  good (ensurePlugin timing_ backoff root w st p todo h).
Proof.
  intros Hb Hl Ht Ho Hst. unfold ensurePlugin. destruct (entry_of_ok (p_id p) h Hb Hl) as (Hb1 & Hl1 & (en & Hen & Hid) & Hfe & Hsto).
  destruct (entry_of (p_id p) h) as [h1 e]. cbn [fst snd] in *. set (h2 := set_entry e (en_flags true false) h1).
  assert (binv h2) as Hb2 by (by apply set_entry_same).
  assert (hs_entries h2 !! e = Some (en_flags true false en)) as Hen2 by (unfold h2; rewrite lookup_set_entry, decide_True by done; by rewrite Hen).
  assert (flags h2) as Hl2.
  { intros i x Hi. unfold h2. rewrite lookup_set_entry. destruct (decide (i = e)) as [->|]; [|by apply Hl1]. rewrite Hen. cbn. by intros [= <-]. }
  assert (can_run e (p_id p) h2) as Hr2 by (by exists (en_flags true false en)).
  destruct (p_capsError p) eqn:Hce; [by apply stop_deny_good |]. destruct (installed _ _ _ _) as [r|] eqn:Hi.
  - apply ensure_package_good; try done; [by eapply installed_package |]. change (hs_fence h2) with (hs_fence h1). rewrite Hfe. done.
  - rewrite Hen2. destruct (match en_retryAt _ with Some _ => _ | None => _ end); [by apply await_good |].
    rewrite !hthen_eq. cbn [upd hemit fst snd app].
    match goal with |- good (?a.1, ?x :: ?b.2) => apply (good_app [x] a) end; [by repeat constructor |].
    apply await_good; [by apply set_entry_same | | split_and!; [done | done | by apply can_run_set]].
    apply set_entry_flags; [done |]. intros x. split; [done | right; by right].
Qed.

Lemma extract_Ok st tmp id version sha c st' r : extract st tmp id version sha c = Ok (st', r) →
  ry_sha256 r = toLowerCase sha ∧ Forall (λ x, x ∈ st ∨ x.1 = (id, version) ∧ x.2.1 = r) st'.
Proof.
  unfold extract. destruct (forallb _ _); [|done]. intros [= <- <-]. split; [done |].
  apply map_set_Forall; [|by right]. apply Forall_forall. by left.
Qed.

Lemma downloaded_good w st p e todo r h : binv h → flags h → pc_inv (AtDownload st p e todo) h → (hs_fence h = true → starting) →
  good (downloaded gunzip timing_ backoff gatewayVersion keys root w st p e todo r h).
Proof.
  intros Hb Hl (Ht & Hc & Hr) Hst. unfold downloaded. set (unpack := r ≫= _).
  destruct unpack as [[s rd]|x|] eqn:Hu; [| |by apply await_good].
  - unfold unpack in Hu. apply res_bind_Ok in Hu as (buf & -> & Hu). apply res_bind_Ok in Hu as (c & Hi & Hx).
    destruct (extract_Ok _ _ _ _ _ _ _ _ Hx) as [Hsha Hstore].
    assert (checked hist (p_id p) (p_version p) rd) as Hch.
    { right. exists buf, (p_sha256 p), st, c, (hs_store h), (root ++ [p_id p; p_version p ++ js ".tmp"]), s. split_and!; [apply Ht | done | done]. }
    rewrite !hthen_eq. cbn [upd fst snd app]. set (h1 := with_desired (hs_desired h) s h). set (h2 := set_entry e (en_retry None) h1).
    assert (binv h1) as Hb1.
    { destruct Hb as [He Hrg Hp Hpl Hd Hs]. split; try done. cbn. intros y Hy. rewrite Forall_forall in Hstore.
      destruct (Hstore y Hy) as [Hy'|[-> ->]]; [by apply Hs | done]. }
    apply (good_app []); [constructor |]. apply ensure_package_good; try done.
    + by apply set_entry_same.
    + apply set_entry_flags; [done |]. intros y. split; [done | right; by right].
    + by apply can_run_set.
  - set (h1 := set_entry e _ h). assert (binv h1) as Hb1 by (by apply set_entry_same).
    assert (flags h1) as Hl1 by (apply set_entry_flags; [done |]; intros y; split; [done | right; by right]).
    destruct (_ || _); [|by apply stop_deny_good]. rewrite hthen_eq. apply good_app; [constructor |]. apply await_good; [| | done].
    + apply set_entry_same; [done |]. intros y. by destruct (bool_decide _).
    + apply set_entry_flags; [done |]. intros y. destruct (bool_decide _); (split; [done | right; by right]).
Qed.

(** ** Stopping what is not wanted *)

Lemma wanted_ok st : st ∈ seen hist → todo_ok st (wanted_plugins st).
Proof.
  intros Hs. split; [done |]. intros p. unfold wanted_plugins. destruct (st_edgeEnabled st) eqn:He; [|by intros ?%elem_of_nil].
  intros [Hen Hin]%list_elem_of_filter. done.
Qed.

Lemma stop_unwanted_good w st todo h : binv h → flags h → st ∈ seen hist → good (stop_unwanted w st todo h).
Proof.
  revert h. induction todo as [|e todo IH]; intros h Hb Hl Hs; cbn [stop_unwanted].
  - rewrite hthen_eq. apply good_app; [by destruct (st_edgeEnabled st); constructor |].
    assert (binv (prune_packages st h).1 ∧ flags (prune_packages st h).1) as [Hb' Hl'].
    { unfold prune_packages. destruct (st_edgeEnabled st); [|done]. cbn. split; [|done]. destruct Hb as [He Hr Hp Hpl Hd Hst]. split; try done.
      cbn. intros x [_ Hx]%list_elem_of_filter. by apply Hst. }
    apply await_good; [done | done |]. by apply wanted_ok.
  - destruct (wants st (entry_id h e)); [by apply IH |]. rewrite hthen_eq. apply good_app; [constructor |]. apply stop_then_good.
    + by apply set_entry_same.
    + apply set_entry_flags; [by apply flags_weaken |]. intros x. split; [done | by left].
    + intros h' wt Hf Hn. by split.
Qed.

(** ** The coroutine goes on *)

Lemma cleanup_ok st h : binv h → flags h → binv (cleanup st h).1 ∧ flags (cleanup st h).1 ∧ oks (cleanup st h).2.
Proof.
  intros [He Hr Hp Hpl Hd Hs] Hl. split_and!; [|done|constructor]. split; try done. cbn. intros x [_ Hx]%list_elem_of_filter. by apply Hpl.
Qed.

Lemma stop_end_then e wt g h : good (g h) → good ((stop_end e wt ▶ g) h).
Proof.
  intros Hg. rewrite hthen_eq. destruct (stop_end_same e wt h) as [-> Ho]. by apply good_app.
Qed.

Lemma resume_good w r h : host_inv h →
  (hs_fence h = true ∨ (∃ st p e wt sp todo, hs_task h = Some (AtChanged st p e wt sp todo)) → starting) →
  good (resume gunzip timing_ backoff gatewayVersion keys root w r h).
Proof.
  intros Hh Hst. pose proof Hh as [Hb Hl Ht]. unfold resume. assert (good (h, [])) as Hsame by (by split; [|constructor]).
  destruct (hs_task h) as [c|] eqn:Hc; [|done]. pose proof (Ht c Hc) as Hpc.
  destruct c as [st|st e wt todo|st [|p todo]|st e wt code sp todo|st p e todo|st p e wt sp todo|]; cbn [pc_inv] in Hpc.
  - by apply stop_unwanted_good.
  - destruct (stop_done h wt); [|done]. destruct Hpc as [Hs Hn]. apply stop_end_then. rewrite hthen_eq. apply good_app; [constructor |].
    apply stop_unwanted_good; [| |done].
    + by apply set_entry_same.
    + intros i x Hi. cbn [upd fst]. rewrite lookup_set_entry. destruct (decide (i = e)) as [->|]; [|by apply Hl].
      destruct (hs_entries h !! e) as [en|] eqn:Hen; [|done]. cbn. intros [= <-]. cbn. by rewrite (Hn en Hen).
  - rewrite hthen_eq. destruct (cleanup_ok st h Hb Hl) as (Hb' & Hl' & Ho). apply good_app; [done |]. by apply finish_good.
  - destruct (hs_stopped h); [by apply finish_good |]. destruct Hpc as [Hs Hp]. apply ensurePlugin_good; try done.
    + split; [done |]. intros q Hq. apply Hp. by right.
    + apply Hp. by left.
    + intros. apply Hst. by left.
  - destruct (stop_done h wt); [|done]. destruct Hpc as [Hs Hn]. apply stop_end_then. rewrite !hthen_eq. cbn [upd deny fst snd app].
    match goal with |- good (?a.1, ?b.2) => apply (good_app [] a) end; [constructor |]. apply await_good; [| |done].
    + apply set_entry_same; [by apply set_entry_same |]. intros x. by destruct sp.
    + apply set_entry_flags; [|intros x; destruct sp; (split; [done | right; by right])]. intros i x Hi. rewrite lookup_set_entry.
      destruct (decide (i = e)) as [->|]; [|by apply Hl]. destruct (hs_entries h !! e) as [en|] eqn:Hen; [|done]. cbn. intros [= <-].
      cbn. by rewrite (Hn en Hen).
  - apply downloaded_good; try done. intros. apply Hst. by left.
  - destruct (stop_done h wt); [|done]. destruct Hpc as (Hs & Hcu & Hn & Hr & Hg). apply stop_end_then.
    apply ensure_started_good with (p := p); try done; [by left |]. apply Hst. right. by exists st, p, e, wt, sp, todo.
  - by apply finish_good.
Qed.

(** ** The other inputs *)

Lemma host_inv_same h h' : host_inv h → hs_plugins h' = hs_plugins h → hs_entries h' = hs_entries h → hs_procs h' = hs_procs h →
  (∀ st, hs_desired h' = Some st → st ∈ seen hist) → hs_store h' = hs_store h → hs_task h' = hs_task h → host_inv h'.
Proof.
  intros [[He Hr Hp Hpl Hd Hs] Hl Ht] Epl Ee Ep Ed Es Et. split.
  - split; rewrite ?Ee, ?Ep, ?Epl, ?Es; done.
  - unfold flags_but. by rewrite Ee.
  - intros c. rewrite Et. intros Hc. specialize (Ht c Hc). destruct c; cbn in *; unfold noproc, can_run in *; by rewrite ?Ee.
Qed.
Lemma waiting_inv a b c h : host_inv h → host_inv (with_waiting a b c h).
Proof. intros Hh. apply (host_inv_same h); try done. apply (bi_desired _ _ (hi_base _ Hh)). Qed.
Lemma fence_inv a b c h : host_inv h → host_inv (with_fence a b c h).
Proof. intros Hh. apply (host_inv_same h); try done. apply (bi_desired _ _ (hi_base _ Hh)). Qed.

Lemma stop_begin_good w e h : host_inv h → host_inv (stop_begin w e h).1.1 ∧ oks (stop_begin w e h).1.2.
Proof.
  intros Hh. destruct (stop_begin_ok w e h (hi_base _ Hh)) as (Hb & Hf & _ & Ho).
  destruct (frame_good h (stop_begin w e h).1 Hh Hb Hf Ho) as [? ?]. done.
Qed.

Lemma rpc_next_good w todo h : host_inv h → good (rpc_next w todo h).
Proof.
  intros Hh. destruct todo as [|e todo]; cbn [rpc_next]; [by apply requestReconcile_good |].
  destruct (stop_begin_good w e h Hh) as [Hi Ho]. destruct (stop_begin w e h) as [[h1 fx] wt]. split; [by apply waiting_inv | done].
Qed.

Lemma stop_all_good w es h : host_inv h → good (stop_all w es h).
Proof.
  revert h. induction es as [|e es IH]; intros h Hh; cbn [stop_all]; [by split; [|constructor] |].
  destruct (stop_begin_good w e h Hh) as [Hi Ho]. destruct (stop_begin w e h) as [[h1 fx] wt]. cbn [fst snd] in *.
  specialize (IH _ (waiting_inv (hs_rpc h1) ((e, wt) :: hs_ending h1) (hs_stopped h1) _ Hi)). destruct (stop_all w es _) as [h2 fx2].
  by apply (good_app fx (h2, fx2)).
Qed.

Lemma proc_op_good k f h : host_inv h → (∀ r, hs_procs h !! k = Some r → process_inv (rn_spec r) (rn_proc r) →
    process_inv (rn_spec r) (f (rn_proc r)).1 ∧
    (lf_wanted (ps_life (f (rn_proc r)).1) = true → lf_wanted (ps_life (rn_proc r)) = true)) → good (proc_op k f h).
Proof.
  intros Hh Hf. pose proof (hi_base _ Hh) as Hb. destruct (proc_op_ok k f h Hb) as (Hb' & Hfr & Ho).
  - intros r Hr Hi. destruct (Hf r Hr Hi) as [Hi' Hw]. split; [done |]. intros Hx. apply Hw in Hx.
    destruct (bi_procs _ _ Hb k r Hr) as (_ & _ & en & Hen & _ & Hp). exists en. split; [done | by apply Hp].
  - by apply (frame_good h).
Qed.
Lemma light_op_good k f h : host_inv h → light f → good (proc_op k f h).
Proof.
  intros Hh Hf. apply proc_op_good; [done |]. intros r _ Hi. split; [by apply (light_keeps (rn_spec r) f Hf) |].
  by rewrite (light_wanted f).
Qed.

Lemma with_plugin_good id f d h : host_inv h → (∀ e en, hs_entries h !! e = Some en → good (f e en h)) → good (d h) → good (with_plugin id f d h).
Proof.
  intros Hh Hf Hd. unfold with_plugin. destruct (map_get (hs_plugins h) id ≫= _) as [[e en]|] eqn:Hx; [|done].
  apply bind_Some in Hx as (e' & _ & Hx). destruct (hs_entries h !! e') as [en'|] eqn:He; [|done]. cbn in Hx. injection Hx as -> ->. by apply Hf.
Qed.
Lemma emit_good fx h : host_inv h → oks fx → good (hemit fx h).
Proof. by split. Qed.

Lemma call_good w m h : host_inv h → good (on_call w m h).
Proof.
  intros Hh. unfold on_call. destruct (parseCall m) as [c| |].
  - apply with_plugin_good; [done | | by apply emit_good; [|repeat constructor]]. intros e en Hen.
    destruct (negb _); [by apply emit_good; [|repeat constructor] |]. destruct (en_denied en); [by apply emit_good; [|repeat constructor] |].
    destruct (en_proc en) as [k|]; [|by apply emit_good; [|repeat constructor]]. destruct (hs_procs h !! k) as [r|]; [|by split; [|constructor]].
    rewrite hthen_eq. apply good_app; [constructor |]. apply proc_op_good.
    + apply (host_inv_same h); try done. apply (bi_desired _ _ (hi_base _ Hh)).
    + intros r' _ Hi. split; [by apply call_keeps |]. unfold call, reject_now. repeat (case_match; try done).
  - split; [done |]. destruct (field m (js "id")) as [[| | |s| |]|]; try constructor. by destruct (_ <=? _); repeat constructor.
  - split; [done |]. destruct (field m (js "id")) as [[| | |s| |]|]; try constructor. by destruct (_ <=? _); repeat constructor.
Qed.

Lemma pc_set c e f h : (∀ en, en_id (f en) = en_id en ∧ en_proc (f en) = en_proc en ∧ en_wanted (f en) = en_wanted en ∧ en_denied (f en) = en_denied en) →
  pc_inv c h → pc_inv c (set_entry e f h).
Proof.
  intros Hf. assert (∀ en, en_proc (f en) = en_proc en) as Hp by (intros x; apply Hf).
  assert (∀ en, en_id (f en) = en_id en ∧ en_wanted (f en) = en_wanted en ∧ en_denied (f en) = en_denied en) as Hw by (intros x; split_and!; apply Hf).
  destruct c; cbn [pc_inv]; intuition eauto using noproc_set, can_run_set.
Qed.

Lemma configure_good w id d h : host_inv h → good (on_configure w id d h).
Proof.
  intros Hh. apply with_plugin_good; [done | | by apply emit_good]. intros e en Hen. rewrite hthen_eq. apply good_app; [constructor |].
  cbn [upd fst]. set (h1 := set_entry e _ h).
  assert (host_inv h1) as Hh1.
  { destruct Hh as [Hb Hl Ht]. split; [by apply set_entry_same | |].
    - apply set_entry_flags; [done |]. intros x. split; [done | right; by right].
    - intros c Hc. apply pc_set; [done |]. by apply Ht. }
  destruct (en_proc en); [|by apply emit_good]. by apply light_op_good, light_toChild.
Qed.

Lemma push_good w id m h : host_inv h → good (on_push w id m h).
Proof.
  intros Hh. apply with_plugin_good; [done | | by apply emit_good]. intros e en Hen. destruct (en_proc en); [|by apply emit_good].
  by apply light_op_good, light_toChild.
Qed.

Lemma checkFence_good i a t h : host_inv h → good (checkFence i a t h).
Proof. intros Hh. unfold checkFence. destruct (hs_mode h); (split; [by apply fence_inv | constructor]). Qed.

Lemma tick_good was i a now h : host_inv h → good (tick_end was i a now h).
Proof.
  intros Hh. unfold tick_end. destruct (negb _); [by split; [|constructor] |]. rewrite hthen_eq.
  destruct (checkFence_good i a (remove_one was (hs_ticks h)) h Hh) as [Hi Ho]. apply good_app; [done |].
  destruct (_ || _); [by apply requestReconcile_good | by split; [|constructor]].
Qed.

Lemma child_good k i h : host_inv h → good (hstep (OfChild k i) h).
Proof.
  intros Hh. cbn [host_step]. destruct (hs_procs h !! k) as [r|] eqn:Hr; [|by split; [|constructor]].
  destruct (from_outside i) eqn:Ho; [|by split; [|constructor]]. set (c := match hs_entries h !! _ with Some _ => _ | None => _ end).
  apply proc_op_good; [done |]. intros r' Hr' Hi. rewrite Hr in Hr'. injection Hr' as <-. split; [by apply step_keeps |].
  rewrite step_wanted; [done | done |]. by destruct i.
Qed.
End Steps.

(** ** Every step *)

Lemma seen_mono hist i st : st ∈ seen hist → st ∈ seen (hist ++ [i]).
Proof. unfold seen. rewrite omap_app. intros Hs. apply elem_of_app. by left. Qed.
Lemma checked_mono hist i id v r : checked hist id v r → checked (hist ++ [i]) id v r.
Proof.
  intros [?|(buf & sha & st & c & s & tmp & s' & Hs & ?)]; [by left | right]. exists buf, sha, st, c, s, tmp, s'. split; [by apply seen_mono | done].
Qed.
Lemma package_mono hist i p r : package_of hist p r → package_of (hist ++ [i]) p r.
Proof. intros [? ?]. split; [by apply checked_mono | done]. Qed.
Lemma granted_mono hist i id c : granted hist id c → granted (hist ++ [i]) id c.
Proof.
  intros [?|(st & p & r & ? & ? & ? & ?)]; [by left | right]. exists st, p, r. split_and!; try tauto; [by apply seen_mono | by apply package_mono].
Qed.
Lemma good_spec_mono hist i sp : good_spec hist sp → good_spec (hist ++ [i]) sp.
Proof.
  intros (st & p & r & ? & ? & ? & ? & ?). exists st, p, r. split_and!; try tauto; [by apply seen_mono | by apply package_mono].
Qed.
Lemma todo_mono hist i st todo : todo_ok hist st todo → todo_ok (hist ++ [i]) st todo.
Proof. intros [? ?]. split; [by apply seen_mono | done]. Qed.
Lemma good_for_mono hist i st p sp : good_for hist st p sp → good_for (hist ++ [i]) st p sp.
Proof. intros (r & ? & ?). exists r. split; [by apply package_mono | done]. Qed.

Lemma host_inv_mono hist i h : host_inv hist h → host_inv (hist ++ [i]) h.
Proof.
  intros [[He Hr Hp Hpl Hd Hs] Hl Ht]. split; [split | done |]; try done.
  - eapply Forall_impl; [exact He |]. intros en. apply granted_mono.
  - intros k r Hk. destruct (Hp k r Hk) as (? & ? & ?). split_and!; [done | by apply good_spec_mono | done].
  - intros st Hst. by apply seen_mono, Hd.
  - intros x Hx. by apply checked_mono, Hs.
  - intros c Hc. specialize (Ht c Hc). destruct c; cbn in *; intuition eauto using seen_mono, todo_mono, good_for_mono.
Qed.

(** The boundary lets a process start: it is active, or was when the old process began to stop. *)
Definition may_start (h : host) : Prop :=
  hs_fence h = true ∨ ∃ st p e wt sp todo, hs_task h = Some (AtChanged st p e wt sp todo).

Lemma host_step_good hist i h : host_inv hist h → good (hist ++ [i]) (may_start h) (hstep i h).
Proof.
  intros Hh%(host_inv_mono _ i). destruct i; cbn [host_step].
  - by apply checkFence_good.
  - split; [|constructor]. by apply fence_inv.
  - by apply tick_good.
  - unfold on_state. destruct (parseState m) as [st| |] eqn:Hst; [|by split; [|constructor]..]. rewrite hthen_eq. apply good_app; [constructor |].
    apply requestReconcile_good. apply (host_inv_same _ h); try done. cbn. intros st' [= <-]. unfold seen. rewrite omap_app. apply elem_of_app. right.
    cbn. rewrite Hst. by left.
  - by apply call_good.
  - by apply configure_good.
  - by apply push_good.
  - unfold onRpcOpen. destruct (_ <=? _); [by split; [|constructor] |]. destruct (filter _ _) as [|e l] eqn:Hf; [by split; [|constructor] |].
    by apply rpc_next_good.
  - by split; [|constructor].
  - by apply resume_good.
  - unfold rpc_resume. destruct (hs_rpc h !! i) as [[[e wt] todo]|]; [|by split; [|constructor]]. destruct (stop_done h wt); [|by split; [|constructor]].
    rewrite hthen_eq. apply good_app; [constructor |]. apply stop_end_then. apply rpc_next_good. by apply waiting_inv.
  - unfold ending_resume. destruct (hs_ending h !! i) as [[e wt]|]; [|by split; [|constructor]]. destruct (stop_done h wt); [|by split; [|constructor]].
    rewrite hthen_eq. apply good_app; [constructor |]. set (h1 := (upd _ h).1). destruct (stop_end_same (hist ++ [EndingResume i]) (may_start h) e wt h1) as [Heq Ho].
    split; [|done]. rewrite Heq. by apply waiting_inv.
  - by apply child_good.
  - unfold stop_host. rewrite hthen_eq. apply good_app; [constructor |]. apply stop_all_good. by apply waiting_inv.
Qed.

Lemma newHost_inv : host_inv [] (newHost store0).
Proof.
  split; [|done|done]. split; cbn; try done; [by intros x ?%elem_of_nil |].
  intros [[id v] [r files]] Hx. left. by exists files.
Qed.

Lemma host_run_inv inputs hist h : host_inv hist h → host_inv (hist ++ inputs) (hrun inputs h).1.
Proof.
  revert hist h. induction inputs as [|i inputs IH]; intros hist h Hh; cbn [host_run]; [by rewrite app_nil_r |].
  rewrite hthen_eq. cbn [fst]. destruct (host_step_good hist i h Hh) as [Hi _]. specialize (IH _ _ Hi). by rewrite <- app_assoc in IH.
Qed.

(** C5: over every order of states, calls, timers, downloads, lost connections
    and ends of processes: a process is started only for a part that a state
    of the server orders, without an error in its capabilities, from a package
    with the ordered digest that passed every check and whose signature is
    acceptable, and only if the boundary is active or was when the process it
    replaces began to stop; every part calls with capabilities that are at
    most what such a state and the package grant; and a process that may run
    again is the one registered for its part, which is wanted and not denied.
    *)
Theorem host_run_safe inputs i :
  let h := (hrun inputs (newHost store0)).1 in
  host_inv inputs h ∧ Forall (ok (inputs ++ [i]) (may_start h)) (hstep i h).2.
Proof.
  cbv zeta. pose proof (host_run_inv inputs [] _ newHost_inv) as Hh. split; [exact Hh |]. by apply host_step_good.
Qed.
End Facts.

(** ** Samples *)

Definition sample_sha : jstr := replicate 64 48.
Definition sample_state (plugins : list json) : json :=
  JObj [(js "t", JStr (js "state")); (js "edgeEnabled", JBool true); (js "plugins", JArr plugins)].
Definition sample_part (version : string) : json :=
  JObj [(js "id", JStr (js "abc")); (js "version", JStr (js version)); (js "sha256", JStr sample_sha);
        (js "caps", JObj [(js "tcp", JObj [(js "lan", JBool true)])])].
Definition sample_ready (version : string) : Packages.ready :=
  Ready sample_sha Trusted None
    (EdgeManifest (Some (JStr (js "abc"))) (Some (JStr (js version))) (js "edge/main.js") (js "edge") None 48 (Caps None None (Some true) None None None)) JNull JNull.
Definition sample_store : store :=
  [((js "abc", js "1.0.0"), (sample_ready "1.0.0", [])); ((js "abc", js "1.1.0"), (sample_ready "1.1.0", []))].

Definition sample_world : world := World 1000 true None.
#[local] Instance sample_numbers : Numbers := {| number_text := λ _, [] |}.
Abbreviation sample_run is_ := (@host_run ascii_unicode (toy_node (λ _, None)) sample_numbers (λ _ _, GunzipFailed) (Timing 10000 5000 20000 60000 5000)
  RESTART_BACKOFF_MS (js "1.0.0") [] [js "packages"] is_ (newHost sample_store)).
Definition go : host_input := Resume sample_world (Throw "download_failed").
(** Version 1.0.0 runs. *)
Definition running_inputs : list host_input := [FirstCheck false true; StateMessage (sample_state [sample_part "1.0.0"]); go; go; go].
Definition exit0 : host_input := OfChild 0 (Exit 2000 (js "0") 0).
Definition starts (fx : list host_effect) : list nat := omap (λ x, match x with NewProcess k _ _ => Some k | _ => None end) fx.

Lemma sample_runs : let r := sample_run running_inputs in starts r.2 = [0%nat] ∧ hs_task r.1 = None ∧
  option_map (λ x, lf_child (ps_life (rn_proc x))) (hs_procs r.1 !! 0%nat) = Some (Some 0%nat).
Proof. by vm_compute. Qed.

(** The fence is lost while the old version stops: the new one starts without it. *)
Lemma start_without_fence :
  let r := sample_run (running_inputs ++ [StateMessage (sample_state [sample_part "1.1.0"]); go; go; TickBegin; TickEnd true false false 1500; exit0; go]) in
  starts r.2 = [0; 1]%nat ∧ hs_fence r.1 = false ∧
  option_map (λ x, lf_child (ps_life (rn_proc x))) (hs_procs r.1 !! 1%nat) = Some (Some 0%nat).
Proof. by vm_compute. Qed.

(** The gateway comes back while a state arrives: the part starts while its old
    process still stops, and the end of the old one closes the sockets of the new. *)
Lemma two_processes :
  let inputs := running_inputs ++ [RpcOpen sample_world 2; StateMessage (sample_state [sample_part "1.0.0"]); go; go] in
  let r := sample_run inputs in
  (λ x, lf_child (ps_life (rn_proc x))) <$> hs_procs r.1 = [Some 0%nat; Some 0%nat] ∧
  CloseNet (js "abc") ∈ drop (length r.2) (sample_run (inputs ++ [exit0])).2 ∧
  (λ x, lf_child (ps_life (rn_proc x))) <$> hs_procs (sample_run (inputs ++ [exit0])).1 = [None; Some 0%nat].
Proof. vm_compute. split_and!; [done | by left | done]. Qed.

(** The host stops while an old version stops: the new one starts afterwards. *)
Lemma start_after_stop :
  let r := sample_run (running_inputs ++ [StateMessage (sample_state [sample_part "1.1.0"]); go; go; StopHost sample_world; exit0; go]) in
  starts r.2 = [0; 1]%nat ∧ hs_stopped r.1 = true ∧
  option_map (λ x, lf_child (ps_life (rn_proc x))) (hs_procs r.1 !! 1%nat) = Some (Some 0%nat).
Proof. by vm_compute. Qed.
