(* ===== verification/HostEnds.v ===== *)
(** * A pass over the wanted state ends

    How often the coroutine of [reconcile] waits in one pass. *)

From S2P Require Import Prelude JsBuffer JsMap JsValues JsText Limits Crypto EdgeConstants Gcplugin Signature Manifest ManifestFacts Protocol Packages PluginProcess PluginProcessFacts Host HostFacts.

Local Open Scope host_scope.

Section Ends.
Context `{Unicode} `{Node} `{Numbers} (gunzip : list Z → Z → gunzipped) (timing_ : timing) (backoff : list Z)
  (gatewayVersion : jstr) (keys : list jstr) (root : list jstr) (store0 : store).
Abbreviation resumex := (resume gunzip timing_ backoff gatewayVersion keys root).

(** At most this many waits are left in the pass; [n]: how many entries there are. *)
Definition waits_left (n : nat) (c : pc) : nat :=
  match c with
  | AtMqtt st => 3 * length (wanted_plugins st) + 2 + n
  | AtUnwanted st _ _ todo => 3 * length (wanted_plugins st) + 1 + length todo
  | AtNext _ todo => 3 * length todo
  | AtDownload _ _ _ todo => 3 * length todo + 2
  | AtDeny _ _ _ _ _ todo | AtChanged _ _ _ _ _ todo => 3 * length todo + 1
  | AtEnd => 0
  end.

(** The coroutine is at its end, or waits with less than [m] waits left. *)
Definition moved (m : nat) (r : host * list host_effect) : Prop :=
  ∀ c, hs_task r.1 = Some c → (waits_left (length (hs_plugins r.1)) c < m)%nat.

Lemma moved_await c m h : (waits_left (length (hs_plugins h)) c < m)%nat → moved m (await c h).
Proof. by intros Hm c' [= <-]. Qed.
Lemma moved_then f g m h : moved m (g (f h).1) → moved m ((f ▶ g) h).
Proof. unfold hthen. destruct (f h) as [h1 fx]. cbn [fst]. by destruct (g h1). Qed.
Lemma moved_stop w e k m h : (∀ n wt, waits_left n (k wt) < m)%nat → moved m (stop_then w e k h).
Proof. intros Hm. unfold stop_then. destruct (stop_begin w e h) as [[h1 fx] wt]. by intros c' [= <-]. Qed.

Definition is_entry (e : nat) (h : host) : Prop := is_Some (hs_entries h !! e).
Lemma is_entry_set e i f h : is_entry e h → is_entry e (set_entry i f h).
Proof. unfold is_entry. intros [en Hen]. rewrite lookup_set_entry, Hen. destruct (decide _); by eexists. Qed.

Lemma moved_started w st e sp todo h : is_entry e h → moved (3 * length todo + 1) (ensure_started timing_ backoff w st e sp todo h).
Proof.
  intros He. unfold ensure_started. apply moved_then. cbn [upd fst].
  destruct (is_entry_set e e (en_setspec (Some sp)) h He) as [en ->]. destruct (en_proc en).
  - apply moved_then. apply moved_await. cbn. lia.
  - destruct (startProcess _ _ _ _ _) as [h2 fx]. destruct (existsb _ _); [done |]. intros c [= <-]. cbn. lia.
Qed.

Lemma moved_package w st e p r todo h : is_entry e h → moved (3 * length todo + 2) (ensure_package timing_ backoff root w st p e r todo h).
Proof.
  intros He. unfold ensure_package. destruct (negb _); [apply moved_stop; intros; cbn; lia |]. pose proof He as [en ->].
  apply moved_then. cbn [upd fst]. destruct (negb _); [apply moved_stop; intros; cbn; lia |].
  destruct (_ && _); [apply moved_stop; intros; cbn; lia |].
  assert (moved (3 * length todo + 1) (ensure_started timing_ backoff w st e (spec_for root p r) todo
    (set_entry e (en_package (p_version p) (p_sha256 p) (intersectCaps (em_capabilities (ry_edge r)) (p_caps p))) h))) as Hm
    by (apply moved_started; by apply is_entry_set).
  intros c Hc. specialize (Hm c Hc). lia.
Qed.

(** The map holds numbers of entries. *)
Definition map_entries (h : host) : Prop := ∀ x, x ∈ hs_plugins h → is_entry x.2 h.

Lemma moved_plugin w st p todo h : map_entries h → moved (3 * S (length todo)) (ensurePlugin timing_ backoff root w st p todo h).
Proof.
  intros Hm. unfold ensurePlugin.
  assert (is_entry (entry_of (p_id p) h).2 (entry_of (p_id p) h).1) as Hen.
  { unfold entry_of. destruct (map_get _ _) as [e|] eqn:Hg; cbn [fst snd]; [apply map_get_elem in Hg; by apply Hm in Hg |].
    eexists. by apply list_lookup_middle. }
  destruct (entry_of (p_id p) h) as [h1 e]. cbn [fst snd] in Hen. apply (is_entry_set e e (en_flags true false)) in Hen.
  set (h2 := set_entry e _ h1) in *. destruct (p_capsError p); [apply moved_stop; intros; cbn; lia |].
  destruct (installed _ _ _ _) as [r|].
  - pose proof (moved_package w st e p r todo h2 Hen) as Hp. intros c Hc. specialize (Hp c Hc). lia.
  - destruct Hen as [en ->]. destruct (match en_retryAt en with Some _ => _ | None => _ end); [apply moved_await; cbn; lia |].
    apply moved_then, moved_then, moved_await. cbn. lia.
Qed.

Lemma moved_downloaded w st p e todo r h : is_entry e h →
  moved (3 * length todo + 2) (downloaded gunzip timing_ backoff gatewayVersion keys root w st p e todo r h).
Proof.
  intros He. unfold downloaded. destruct (r ≫= _) as [[s rd]|x|].
  - apply moved_then, moved_then, moved_package. cbn [upd fst]. by apply is_entry_set.
  - destruct (_ || _); [apply moved_then, moved_await | apply moved_stop; intros]; cbn; lia.
  - apply moved_await. cbn. lia.
Qed.

Lemma moved_unwanted w st todo h : moved (3 * length (wanted_plugins st) + 1 + length todo) (stop_unwanted w st todo h).
Proof.
  revert h. induction todo as [|e todo IH]; intros h; cbn [stop_unwanted].
  - apply moved_then, moved_await. cbn. lia.
  - destruct (wants st (entry_id h e)).
    + intros c Hc. specialize (IH h c Hc). cbn [length]. lia.
    + apply moved_then, moved_stop. intros. cbn. lia.
Qed.

(** What the coroutine waits for has happened. *)
Definition wait_over (h : host) (c : pc) : bool :=
  match c with AtUnwanted _ _ w _ | AtDeny _ _ w _ _ _ | AtChanged _ _ _ w _ _ => stop_done h w | _ => true end.

(** A pass is over: another one begins, or none. *)
Definition next_pass (h : host) : option pc :=
  if hs_again h && negb (hs_stopped h) then Some (match hs_desired h with Some st => AtMqtt st | None => AtEnd end) else None.
Lemma finish_task h : hs_task (finish h).1 = next_pass h.
Proof.
  unfold finish, next_pass. destruct (hs_again h && negb (hs_stopped h)); [|done].
  unfold hthen, upd, reconcile. cbn [hs_desired with_task]. by destruct (hs_desired h).
Qed.

(** C25: every time the pass of the edge host over the wanted parts goes on,
    fewer waits are left - at most three for each part that is wanted, one for
    each that is there, and two -, or the pass ends; then another one begins
    exactly if one was asked for meanwhile and the host does not stop. *)
Theorem reconcile_ends hist w r h c :
  host_inv gunzip gatewayVersion keys root store0 hist h → hs_task h = Some c → wait_over h c = true →
  moved (waits_left (length (hs_plugins h)) c) (resumex w r h) ∨ hs_task (resumex w r h).1 = next_pass h.
Proof.
  intros [Hb _ Ht] Hc Hw. pose proof (Ht c Hc) as Hpc.
  assert (map_entries h) as Hm by (intros x Hx; destruct (bi_plugins _ _ _ _ _ _ _ Hb x Hx) as (en & ? & _); by exists en).
  unfold resume. rewrite Hc. destruct c as [st|st e wt todo|st [|p todo]|st e wt code sp todo|st p e todo|st p e wt sp todo|];
    cbn [wait_over pc_inv] in *; rewrite ?Hw.
  - left. intros c' Hc'. pose proof (moved_unwanted w st (hs_plugins h).*2 h c' Hc') as Hlt. rewrite length_fmap in Hlt. cbn. lia.
  - left. apply moved_then, moved_then. apply moved_unwanted.
  - right. unfold hthen, cleanup. rewrite <- (finish_task h). unfold finish. cbn [hs_again hs_stopped with_entries].
    destruct (hs_again h && negb (hs_stopped h)); [|done]. unfold hthen, upd, reconcile. cbn [hs_desired with_task with_entries].
    by destruct (hs_desired h).
  - destruct (hs_stopped h); [right; apply finish_task | left]. by apply moved_plugin.
  - left. apply moved_then, moved_then, moved_then, moved_await. cbn. lia.
  - left. destruct Hpc as (_ & _ & en & Hen & _). apply moved_downloaded. by exists en.
  - left. destruct Hpc as (_ & _ & _ & (en & Hen & _) & _). apply moved_then. apply moved_started. destruct (stop_end_same gunzip gatewayVersion keys root store0 hist True e wt h) as [-> _]. by exists en.
  - right. apply finish_task.
Qed.
End Ends.

Definition waiting_host : host := (sample_run [FirstCheck false true; StateMessage (sample_state [sample_part "1.0.0"])]).1.

Lemma reconcile_ends_witness : let c := default AtEnd (hs_task waiting_host) in
  waits_left (length (hs_plugins waiting_host)) c = 5%nat ∧
  (moved 5 (@resume ascii_unicode (toy_node (λ _, None)) (λ _ _, GunzipFailed) (Timing 10000 5000 20000 60000 5000)
      RESTART_BACKOFF_MS (js "1.0.0") [] [js "packages"] sample_world (Throw "download_failed") waiting_host) ∨
   hs_task (@resume ascii_unicode (toy_node (λ _, None)) (λ _ _, GunzipFailed) (Timing 10000 5000 20000 60000 5000)
      RESTART_BACKOFF_MS (js "1.0.0") [] [js "packages"] sample_world (Throw "download_failed") waiting_host).1 = next_pass waiting_host).
Proof.
  cbv zeta. split; [vm_compute; reflexivity |].
  exact (@reconcile_ends ascii_unicode (toy_node (λ _, None)) (λ _ _, GunzipFailed) (Timing 10000 5000 20000 60000 5000)
      RESTART_BACKOFF_MS (js "1.0.0") [] [js "packages"] sample_store
      [FirstCheck false true; StateMessage (sample_state [sample_part "1.0.0"])] sample_world (Throw "download_failed") waiting_host
      (default AtEnd (hs_task waiting_host))
      (@host_run_inv ascii_unicode (toy_node (λ _, None)) sample_numbers (λ _ _, GunzipFailed) (Timing 10000 5000 20000 60000 5000)
        RESTART_BACKOFF_MS (js "1.0.0") [] [js "packages"] sample_store
        [FirstCheck false true; StateMessage (sample_state [sample_part "1.0.0"])] [] (newHost sample_store) (newHost_inv _ _ _ _ _))
      ltac:(vm_compute; reflexivity) ltac:(vm_compute; reflexivity)).
Defined.
