(* ===== verification/Machine.v ===== *)
(** * Machines

    Objects that react to inputs: an operation takes the state to a new one
    and says what it does to the world; [a ⨾ b] does one after the other.  A
    run collects the effects with the input that caused them.  The lemmas turn
    facts of one step into facts of every run. *)

From S2P Require Import Prelude.

Definition mop (S E : Type) : Type := S → S * list E.

Section Operations.
Context {S E : Type}.
Implicit Types (f g : mop S E) (s : S).

Definition mthen f g : mop S E := λ s, let '(s, fx) := f s in let '(s, fx') := g s in (s, fx ++ fx').
Definition mskip : mop S E := λ s, (s, []).
Definition mdo (fx : list E) : mop S E := λ s, (s, fx).
Definition mset (h : S → S) : mop S E := λ s, (h s, []).

(** One after the other. *)
Definition mseq (fs : list (mop S E)) : mop S E := foldr mthen mskip fs.

Lemma mthen_fst f g s : (mthen f g s).1 = (g (f s).1).1.
Proof. unfold mthen. destruct (f s) as [t fx]. cbn. by destruct (g t). Qed.
Lemma mthen_snd f g s : (mthen f g s).2 = (f s).2 ++ (g (f s).1).2.
Proof. unfold mthen. destruct (f s) as [t fx]. cbn. by destruct (g t). Qed.

(** What an operation keeps, and what its effects are. *)
Definition keeps (I : S → Prop) (P : E → Prop) f : Prop := ∀ s, I s → I (f s).1 ∧ Forall P (f s).2.

Lemma keeps_then I P f g : keeps I P f → keeps I P g → keeps I P (mthen f g).
Proof.
  intros Hf Hg s Hs. rewrite mthen_fst, mthen_snd. destruct (Hf s Hs) as [Ht Hfx]. destruct (Hg _ Ht) as [Hu Hgx].
  split; [done |]. by apply Forall_app_2.
Qed.
Lemma keeps_skip I P : keeps I P mskip.
Proof. intros s Hs. split; [done | constructor]. Qed.
Lemma keeps_do I P fx : Forall P fx → keeps I P (mdo fx).
Proof. by intros H s Hs. Qed.
Lemma keeps_set (I : S → Prop) P h : (∀ s, I s → I (h s)) → keeps I P (mset h).
Proof. intros H s Hs. split; [by apply H | constructor]. Qed.
End Operations.

Declare Scope machine_scope.
Infix "⨾" := mthen (at level 65, right associativity) : machine_scope.
Open Scope machine_scope.

(** An operation of a part: its effects are handled one after the other. *)
Definition zoom {S T E F} (part : S → T) (put : T → S → S) (f : mop T E) (handle : E → mop S F) : mop S F := λ s,
  let '(t, fx) := f (part s) in (mset (put t) ⨾ mseq (handle <$> fx)) s.

Section Runs.
Context {S E I : Type} (step : I → mop S E).

Fixpoint mrun (is_ : list I) (s : S) : S * list (I * list E) :=
  match is_ with
  | [] => (s, [])
  | i :: is_ => let '(t, fx) := step i s in let '(u, tr) := mrun is_ t in (u, (i, fx) :: tr)
  end.

Lemma mrun_app is1 is2 s :
  mrun (is1 ++ is2) s = let '(t, tr) := mrun is1 s in let '(u, tr') := mrun is2 t in (u, tr ++ tr').
Proof.
  revert s. induction is1 as [|i is1 IH]; intros s; cbn [mrun app]; [by destruct (mrun is2 s) |].
  destruct (step i s) as [t fx]. rewrite IH. destruct (mrun is1 t) as [u tr]. by destruct (mrun is2 u).
Qed.

Lemma mrun_snoc is_ i s : (mrun (is_ ++ [i]) s).1 = (step i (mrun is_ s).1).1.
Proof. rewrite mrun_app. destruct (mrun is_ s) as [t tr]. cbn. by destruct (step i t). Qed.

(** A property of the inputs so far and the state that every step keeps, and
    what it says of the effects of each step. *)
Lemma mrun_history (Inv : list I → S → Prop) (Q : list I → E → Prop) s0 :
  Inv [] s0 →
  (∀ hist i s, Inv hist s → Inv (hist ++ [i]) (step i s).1 ∧ Forall (Q (hist ++ [i])) (step i s).2) →
  ∀ is_, Inv is_ (mrun is_ s0).1 ∧
    ∀ n i fx, (mrun is_ s0).2 !! n = Some (i, fx) → Forall (Q (take (Datatypes.S n) is_)) fx.
Proof.
  intros H0 Hstep is_.
  enough (∀ hist s, Inv hist s → Inv (hist ++ is_) (mrun is_ s).1 ∧
    ∀ n i fx, (mrun is_ s).2 !! n = Some (i, fx) → Forall (Q (hist ++ take (Datatypes.S n) is_)) fx) as H
    by apply (H [] s0 H0).
  induction is_ as [|i is_ IH]; intros hist s Hs; [cbn; by rewrite app_nil_r |].
  cbn [mrun]. destruct (Hstep hist i s Hs) as [Ht Hfx]. destruct (step i s) as [t fx]. cbn in Ht, Hfx.
  destruct (IH _ _ Ht) as [Hu Htr]. destruct (mrun is_ t) as [u tr]. cbn in *.
  rewrite <- app_assoc in Hu. split; [done |]. intros [|n] j gx Hn; cbn in Hn.
  - injection Hn as <- <-. done.
  - specialize (Htr n j gx Hn). rewrite <- app_assoc in Htr. done.
Qed.

Lemma mrun_invariant (Inv : S → Prop) s0 :
  Inv s0 → (∀ i s, Inv s → Inv (step i s).1) → ∀ is_, Inv (mrun is_ s0).1.
Proof.
  intros H0 Hstep is_. apply (mrun_history (λ _, Inv) (λ _ _, True)); [done |].
  intros hist i s Hs. split; [by apply Hstep |]. by apply Forall_true.
Qed.
End Runs.

(** ** Effects so far

    A property of the effects so far and the state. *)

Section Tracks.
Context {S E : Type} (Inv : list E → S → Prop).
Definition tracks (f : mop S E) : Prop := ∀ past s, Inv past s → Inv (past ++ (f s).2) (f s).1.

Lemma tracks_then f g : tracks f → tracks g → tracks (mthen f g).
Proof. intros Hf Hg past s Hs. rewrite mthen_fst, mthen_snd, app_assoc. by apply Hg, Hf. Qed.
Lemma tracks_run {I} (step : I → mop S E) s0 : Inv [] s0 → (∀ i, tracks (step i)) →
  ∀ is_, Inv (concat (mrun step is_ s0).2.*2) (mrun step is_ s0).1.
Proof.
  intros H0 Hstep is_. enough (∀ past s, Inv past s → Inv (past ++ concat (mrun step is_ s).2.*2) (mrun step is_ s).1) as H by apply (H [] s0 H0).
  clear H0 s0. induction is_ as [|i is_ IH]; intros past s Hs; [cbn; by rewrite app_nil_r |]. cbn [mrun].
  specialize (Hstep i past s Hs). destruct (step i s) as [t fx]. specialize (IH _ t Hstep).
  destruct (mrun step is_ t) as [u tr]. cbn in *. by rewrite app_assoc.
Qed.
End Tracks.

(** ** Promises

    Calls are numbered; each waits until an effect ends it.  What a step does
    is balanced when nothing that waits is lost and nothing ends that does
    not wait; then over a run every call waits or has ended, once. *)

Section Ledger.
Context {S E : Type} (ended : E → option nat) (waiting : S → list nat) (count : S → nat).

Definition ledger (s : S) (fx : list E) : Prop := omap ended fx ++ waiting s ≡ₚ seq 0 (count s).
Definition balanced (s : S) (t : S * list E) : Prop :=
  ∃ k, count t.1 = (count s + k)%nat ∧ omap ended t.2 ++ waiting t.1 ≡ₚ waiting s ++ seq (count s) k.

Lemma balanced_quiet s t : count t.1 = count s → waiting t.1 = waiting s → omap ended t.2 = [] → balanced s t.
Proof. intros Hn Hp He. exists 0%nat. rewrite He, Hp. cbn. by rewrite app_nil_r, Nat.add_0_r. Qed.

Lemma balanced_then s f g : balanced s (f s) → balanced (f s).1 (g (f s).1) → balanced s ((f ⨾ g) s).
Proof.
  intros (k & Hn & Hp) (l & Hm & Hq). exists (k + l)%nat. rewrite mthen_fst, mthen_snd. split; [lia |].
  rewrite omap_app, <- app_assoc, Hq, app_assoc, Hp, <- app_assoc, seq_app. by rewrite Hn.
Qed.

Lemma mrun_ledger {I} (step : I → mop S E) (Inv : S → Prop) s0 :
  Inv s0 → waiting s0 = [] → count s0 = 0%nat → (∀ i s, Inv s → Inv (step i s).1 ∧ balanced s (step i s)) →
  ∀ is_, Inv (mrun step is_ s0).1 ∧ ledger (mrun step is_ s0).1 (concat (mrun step is_ s0).2.*2).
Proof.
  intros H0 Hw Hc Hstep is_.
  enough (∀ s, Inv s → Inv (mrun step is_ s).1 ∧ balanced s ((mrun step is_ s).1, concat (mrun step is_ s).2.*2)) as H.
  { destruct (H s0 H0) as [Hok (k & Hn & Hp)]. split; [done |]. unfold ledger. cbn in Hn, Hp. rewrite Hp, Hw, Hn, Hc. done. }
  induction is_ as [|i is_ IH]; intros s Hs; [split; [done | by apply balanced_quiet] |]. cbn [mrun].
  destruct (Hstep i s Hs) as [Hok Hb]. destruct (step i s) as [t fx]. cbn in Hok. destruct (IH t Hok) as [Hu Hbu].
  destruct (mrun step is_ t) as [u tr]. cbn in *. split; [done |].
  apply (balanced_then s (λ _, (t, fx)) (λ _, (u, concat tr.*2))) in Hb; [|done]. done.
Qed.
End Ledger.
