(* ===== verification/Mqtt.v ===== *)
(** * src/edge/mqtt/client.js

    The small MQTT client of the internal account: packets, the parser of the
    byte stream, and the client as a machine over the events of its socket.
    Promises are numbers: that of [connect] is the client's own, the requests
    are counted. *)

From S2P Require Import Prelude JsBuffer JsMap Machine.

Local Open Scope Z_scope.

Definition MAX_PACKET : Z := 512 * 1024.
Module T.
Definition CONNECT : Z := 1.
Definition CONNACK : Z := 2.
Definition PUBLISH : Z := 3.
Definition PUBACK : Z := 4.
Definition SUBSCRIBE : Z := 8.
Definition SUBACK : Z := 9.
Definition UNSUBSCRIBE : Z := 10.
Definition UNSUBACK : Z := 11.
Definition PINGREQ : Z := 12.
Definition PINGRESP : Z := 13.
Definition DISCONNECT : Z := 14.
End T.

(** ** Packets *)

Fixpoint length_bytes (fuel : nat) (n : Z) : list Z :=
  match fuel with
  | O => []
  | S fuel =>
      let b := n mod 128 in
      let n := n / 128 in
      if 0 <? n then Z.lor b 128 :: length_bytes fuel n else [b]
  end.
Definition encodeLength (n : Z) : list Z := length_bytes (S (Z.to_nat (Z.log2 n))) n.

(** [writeUInt16BE] of a number that does not fit throws. *)
Definition str (s : jstr) : res (list Z) :=
  let b := utf8_encode s in if 65535 <? blen b then Throw out_of_range else Ok (u16 (blen b) ++ b).

Definition packet (type flags : Z) (body : list Z) : list Z :=
  Z.lor (Z.shiftl type 4) flags :: encodeLength (blen body) ++ body.

Record login := Login { lg_clientId : jstr; lg_username : jstr; lg_password : jstr; lg_keepalive : Z }.
Definition str_if (s : jstr) : res (list Z) := if nonempty s then str s else Ok [].
Definition connectPacket (l : login) : res (list Z) :=
  let flags := Z.lor (Z.lor 2 (if nonempty (lg_username l) then 128 else 0)) (if nonempty (lg_password l) then 64 else 0) in
  name ← str (js "MQTT");
  id ← str (lg_clientId l);
  user ← str_if (lg_username l);
  password ← str_if (lg_password l);
  Ok (packet T.CONNECT 0 (name ++ [4; flags] ++ u16 (lg_keepalive l) ++ id ++ user ++ password)).

Definition publishPacket (topic : jstr) (payload : list Z) (qos : Z) (retain : bool) (id : Z) : res (list Z) :=
  let flags := Z.lor (Z.shiftl qos 1) (if retain then 1 else 0) in
  t ← str topic;
  Ok (packet T.PUBLISH flags (t ++ (if qos =? 0 then [] else u16 id) ++ payload)).

(** ** The parser *)

Record pkt := Pkt { pk_type : Z; pk_flags : Z; pk_body : list Z }.

Inductive length_read := Malformed | Incomplete | Length (len : Z) (rest : list Z).
(** The loop over the bytes 1 to 4. *)
Fixpoint read_length (n : nat) (len mul : Z) (b : list Z) : length_read :=
  match n with
  | O => Malformed
  | S n =>
      match b with
      | [] => Incomplete
      | x :: r =>
          let len := len + Z.land x 127 * mul in
          if Z.land x 128 =? 0 then Length len r else read_length n len (mul * 128) r
      end
  end.

(** The loop of [push]: the bytes that stay and the packets, or the error. *)
Fixpoint parse_packets (fuel : nat) (buf : list Z) (out : list pkt) : list Z * res (list pkt) :=
  match fuel with
  | O => (buf, NoFuel)
  | S fuel =>
      match buf with
      | b0 :: (_ :: _) as tl =>
          match read_length 4 0 1 tl with
          | Malformed => (buf, Throw "malformed length")
          | Incomplete => (buf, Ok out)
          | Length len rest =>
              if MAX_PACKET <? len then (buf, Throw "packet too large")
              else if blen rest <? len then (buf, Ok out)
              else parse_packets fuel (drop (Z.to_nat len) rest)
                     (out ++ [Pkt (Z.shiftr b0 4) (Z.land b0 15) (take (Z.to_nat len) rest)])
          end
      | _ => (buf, Ok out)
      end
  end.
Definition push (buf chunk : list Z) : list Z * res (list pkt) :=
  let buf := buf ++ chunk in parse_packets (S (length buf)) buf [].

(** ** The client *)

(** [mc_sock]: [this.sock] is set; [mc_settled]: the promise of [connect] has
    its answer; [mc_timers]: requests whose timer runs, with their packet id. *)
Record mclient := MClient {
  mc_login : login; mc_sock : bool; mc_connected : bool; mc_settled : bool; mc_nextId : Z;
  mc_pending : list (Z * nat); mc_timers : list (nat * Z); mc_requests : nat;
  mc_buf : list Z; mc_lastIn : Z; mc_ping : bool }.
(** A client after [connect()]. *)
Definition newClient (l : login) : mclient := MClient l true false false 0 [] [] 0 [] 0 false.

(** The answer to a request: the codes of a SUBACK, nothing, or an error. *)
Inductive reply := Granted (codes : list Z) | Acked | Failed (code : string).
Inductive mqtt_effect :=
  | Write (bytes : list Z) | EndSock (bytes : list Z) | DestroySock
  | Connected | ConnectFailed (code : string) | Replied (request : nat) (r : reply)
  | EmitMessage (topic : jstr) (payload : list Z) (qos : Z) (retain : bool) | EmitClose | UncaughtError (e : string).

Definition cop := mop mclient mqtt_effect.

Definition c_link (sock connected settled ping : bool) (c : mclient) : mclient :=
  MClient (mc_login c) sock connected settled (mc_nextId c) (mc_pending c) (mc_timers c) (mc_requests c) (mc_buf c) (mc_lastIn c) ping.
Definition c_requests (nextId : Z) (pending : list (Z * nat)) (timers : list (nat * Z)) (n : nat) (c : mclient) : mclient :=
  MClient (mc_login c) (mc_sock c) (mc_connected c) (mc_settled c) nextId pending timers n (mc_buf c) (mc_lastIn c) (mc_ping c).
Definition c_input (buf : list Z) (lastIn : Z) (c : mclient) : mclient :=
  MClient (mc_login c) (mc_sock c) (mc_connected c) (mc_settled c) (mc_nextId c) (mc_pending c) (mc_timers c) (mc_requests c)
    buf lastIn (mc_ping c).

(** [fail(e)] of [connect]. *)
Definition fail (code : string) : cop := λ c,
  if mc_settled c then (c, [])
  else (c_link (mc_sock c) (mc_connected c) true (mc_ping c) c, [ConnectFailed code]).

(** A request that is answered or over: its timer is cleared. *)
Definition settle (id : Z) (r : reply) : cop := λ c,
  match map_get (mc_pending c) id with
  | Some n => (c_requests (mc_nextId c) (map_delete (mc_pending c) id) (map_delete (mc_timers c) n) (mc_requests c) c, [Replied n r])
  | None => (c, [])
  end.

Definition publish_body (flags : Z) (body : list Z) : res (list mqtt_effect) :=
  let qos := Z.land (Z.shiftr flags 1) 3 in
  tl ← readUInt16BE body 0;
  let topic := utf8_decode (subarray body 2 (2 + tl)) in
  let off := 2 + tl in
  if 0 <? qos then
    id ← readUInt16BE body off;
    Ok ((if qos =? 1 then [Write (packet T.PUBACK 0 (u16 id))] else [])
        ++ [EmitMessage topic (subarray body (off + 2) (blen body)) qos (Z.odd flags)])
  else Ok [EmitMessage topic (subarray body off (blen body)) qos (Z.odd flags)].

(** [onPacket]; a body that is too short throws in the handler of the data. *)
Definition onPacket (p : pkt) : cop := λ c,
  if pk_type p =? T.PUBLISH then
    match publish_body (pk_flags p) (pk_body p) with Ok fx => (c, fx) | Throw e => (c, [UncaughtError e]) | NoFuel => (c, []) end
  else if (pk_type p =? T.PUBACK) || (pk_type p =? T.SUBACK) || (pk_type p =? T.UNSUBACK) then
    match readUInt16BE (pk_body p) 0 with
    | Ok id => settle id (if pk_type p =? T.SUBACK then Granted (drop 2 (pk_body p)) else Acked) c
    | Throw e => (c, [UncaughtError e])
    | NoFuel => (c, [])
    end
  else (c, []).

Definition thrown (fx : list mqtt_effect) : bool := existsb (λ x, match x with UncaughtError _ => true | _ => false end) fx.

(** The loop over the packets of a chunk; it ends with a refusal or an exception. *)
Fixpoint on_packets (ps : list pkt) : cop := λ c,
  match ps with
  | [] => (c, [])
  | p :: ps =>
      if pk_type p =? T.CONNACK then
        match byte_at (pk_body p) 1 with
        | Some 0 => (mset (c_link (mc_sock c) true true true) ⨾ mdo (if mc_settled c then [] else [Connected]) ⨾ on_packets ps) c
        | rc => (fail (if bool_decide (rc = Some 4) || bool_decide (rc = Some 5) then "auth" else "refused") ⨾ mdo [DestroySock]) c
        end
      else
        let '(c, fx) := onPacket p c in
        if thrown fx then (c, fx) else let '(c, fx') := on_packets ps c in (c, fx ++ fx')
  end.

Definition on_data (now : Z) (chunk : list Z) : cop := λ c,
  let '(buf, r) := push (mc_buf c) chunk in
  (mset (c_input buf now) ⨾ match r with Ok ps => on_packets ps | _ => mdo [DestroySock] end) c.

Definition closed : string := "mqtt connection closed".
Definition on_sock_close : cop := λ c,
  (fail closed
   ⨾ mdo ((λ e, Replied e.2 (Failed closed)) <$> mc_pending c)
   ⨾ mset (c_requests (mc_nextId c) [] (filter (λ t, t.1 ∉ (mc_pending c).*2) (mc_timers c)) (mc_requests c))
   ⨾ mdo (if mc_connected c then [EmitClose] else [])
   ⨾ mset (c_link false false true false)) c.

(** ** Requests *)

Definition next_id (c : mclient) : Z := mc_nextId c mod 65535 + 1.

Definition request (build : Z → res (list Z)) : cop := λ c,
  let n := mc_requests c in
  if negb (mc_connected c) || negb (mc_sock c) then
    (c_requests (mc_nextId c) (mc_pending c) (mc_timers c) (S n) c, [Replied n (Failed "not_available")])
  else
    let id := next_id c in
    (mset (c_requests id (map_set (mc_pending c) id n) (mc_timers c ++ [(n, id)]) (S n))
     ⨾ mdo [match build id with Ok b => Write b | Throw e => Replied n (Failed e) | NoFuel => Replied n (Failed "") end]) c.
(** The timer of request [n]. *)
Definition request_timeout (n : nat) : cop := λ c,
  match map_get (mc_timers c) n with
  | Some id => (c_requests (mc_nextId c) (map_delete (mc_pending c) id) (map_delete (mc_timers c) n) (mc_requests c) c, [Replied n (Failed "timeout")])
  | None => (c, [])
  end.

Definition subscribe (filter : jstr) (qos : Z) : cop :=
  request (λ id, f ← str filter; Ok (packet T.SUBSCRIBE 2 (u16 id ++ f ++ [Z.min 1 qos]))).
(** What [subscribe] makes of the answer. *)
Definition subscribed (r : reply) : res unit :=
  match r with
  | Granted (128 :: _) | Acked => Throw "denied"
  | Granted _ => Ok tt
  | Failed e => Throw e
  end.
Definition unsubscribe (filter : jstr) : cop := request (λ id, f ← str filter; Ok (packet T.UNSUBSCRIBE 2 (u16 id ++ f))).
Definition publish (topic : jstr) (payload : list Z) (qos : Z) (retain : bool) : cop := λ c,
  if qos =? 1 then request (publishPacket topic payload 1 retain) c
  else
    let n := mc_requests c in
    (mset (c_requests (mc_nextId c) (mc_pending c) (mc_timers c) (S n))
     ⨾ mdo (if negb (mc_connected c) || negb (mc_sock c) then [Replied n (Failed "not_available")]
            else match publishPacket topic payload 0 retain 0 with
                 | Ok b => [Write b; Replied n Acked] | Throw e => [Replied n (Failed e)] | NoFuel => [] end)) c.

Definition end_ : cop := λ c,
  (mdo (if mc_sock c then [EndSock (packet T.DISCONNECT 0 [])] else []) ⨾ mset (c_link (mc_sock c) false (mc_settled c) false)) c.

(** ** The machine *)

Inductive client_input :=
  | SockConnect | SockData (now : Z) (chunk : list Z) | SockError | SockClose
  | ConnectTimeout | PingTick (now : Z) | RequestTimeout (n : nat) | EndTimeout.

Definition on_ping (now : Z) : cop := λ c,
  if mc_ping c && mc_sock c then
    (c, if lg_keepalive (mc_login c) * 1500 <? now - mc_lastIn c then [DestroySock] else [Write (packet T.PINGREQ 0 [])])
  else (c, []).

Definition client_step (i : client_input) : cop := λ c,
  match i with
  | SockConnect => (c, match connectPacket (mc_login c) with Ok b => [Write b] | Throw e => [UncaughtError e] | NoFuel => [] end)
  | SockData now chunk => on_data now chunk c
  | SockError => fail "ECONNREFUSED" c
  | SockClose => on_sock_close c
  | ConnectTimeout => if mc_settled c then (c, []) else (fail "mqtt connect timeout" ⨾ mdo [DestroySock]) c
  | PingTick now => on_ping now c
  | RequestTimeout n => request_timeout n c
  | EndTimeout => (c, [DestroySock])
  end.

(** * The packets of MQTT

    What a broker writes is read back however its bytes come, and whatever
    bytes come the parser ends and keeps at most one packet. *)

(** ** The parser *)

Definition encode_pkt (p : pkt) : list Z := packet (pk_type p) (pk_flags p) (pk_body p).
Definition pkt_ok (p : pkt) : Prop := 0 ≤ pk_type p < 16 ∧ 0 ≤ pk_flags p < 16 ∧ blen (pk_body p) ≤ MAX_PACKET.

(** The chunks of a stream one after the other, as the handler of the data feeds them. *)
Fixpoint push_all (buf : list Z) (chunks : list (list Z)) : list Z * res (list pkt) :=
  match chunks with
  | [] => (buf, Ok [])
  | c :: cs =>
      match push buf c with
      | (buf, Ok ps) => match push_all buf cs with (buf, Ok qs) => (buf, Ok (ps ++ qs)) | r => r end
      | r => r
      end
  end.

Lemma pkt_byte t f : 0 ≤ t < 16 → 0 ≤ f < 16 → Z.shiftr (Z.lor (Z.shiftl t 4) f) 4 = t ∧ Z.land (Z.lor (Z.shiftl t 4) f) 15 = f.
Proof.
  intros Ht Hf. rewrite Z.shiftr_lor, Z.land_lor_distr_l, Z.shiftr_shiftl_l, Z.shiftl_0_r by lia.
  replace 15 with (Z.ones 4) by done.
  rewrite (Z.shiftr_div_pow2 f), (Z.div_small f), Z.lor_0_r by (cbn; lia).
  rewrite !Z.land_ones, (Z.mod_small f), Z.shiftl_mul_pow2, Z.mod_mul by (cbn; lia). done.
Qed.

(** A byte of the length: its value and whether another one follows. *)
Lemma length_byte n : 0 ≤ n → Z.land (n mod 128) 128 = 0 ∧ Z.land (n mod 128) 127 = n mod 128 ∧
  Z.land (Z.lor (n mod 128) 128) 128 = 128 ∧ Z.land (Z.lor (n mod 128) 128) 127 = n mod 128.
Proof.
  intros Hn. assert (Z.land (n mod 128) 127 = n mod 128) as E.
  { replace 127 with (Z.ones 7) by done. rewrite Z.land_ones by lia. apply Z.mod_small. by apply Z.mod_pos_bound. }
  assert (Z.land (n mod 128) 128 = 0) as E0.
  { rewrite <- E, <- Z.land_assoc. apply Z.land_0_r. }
  rewrite !Z.land_lor_distr_l, E, E0. change (Z.land 128 127) with 0. by rewrite Z.lor_0_r.
Qed.

Lemma read_length_cons k len mul x b :
  read_length (S k) len mul (x :: b) =
  if Z.land x 128 =? 0 then Length (len + Z.land x 127 * mul) b else read_length k (len + Z.land x 127 * mul) (mul * 128) b.
Proof. done. Qed.

Lemma read_length_encoded k : ∀ fuel n len mul b r body,
  0 ≤ n < 128 * 128 ^ Z.of_nat k → n < 2 ^ Z.of_nat fuel → (1 ≤ fuel)%nat → b ++ r = length_bytes fuel n ++ body →
  (read_length (S k) len mul b = Incomplete ∧ (length b < length (length_bytes fuel n))%nat) ∨
  ∃ b', read_length (S k) len mul b = Length (len + n * mul) b' ∧ b' ++ r = body ∧ (length b' < length b)%nat.
Proof.
  induction k as [|k IH]; intros fuel n len mul b r body Hn Hf H1 Hb;
    (destruct fuel as [|fuel]; [lia |]); cbn [length_bytes] in Hb;
    destruct (length_byte n (proj1 Hn)) as (E0 & E1 & E2 & E3);
    (destruct b as [|x b]; [left; split; [done | cbn; destruct (_ <? _); cbn; lia] |]).
  - change (128 ^ Z.of_nat 0) with 1 in Hn. rewrite Z.div_small in Hb by lia. cbn in Hb. injection Hb as -> Hb.
    right. exists b. rewrite read_length_cons, E0, E1, Z.mod_small by lia. cbn. auto with lia.
  - destruct (0 <? n / 128) eqn:E; injection Hb as -> Hb.
    + rewrite Nat2Z.inj_succ, Z.pow_succ_r in Hn, Hf by lia.
      pose proof (Z.div_mod n 128). pose proof (Z.mod_pos_bound n 128).
      assert (n / 128 < 2 ^ Z.of_nat fuel) as Hd by (apply Z.div_lt_upper_bound; lia).
      destruct (IH fuel (n / 128) (len + n mod 128 * mul) (mul * 128) b r body) as [[HI Hl] | (b' & HI & Hr & Hl)];
        [split; [lia |]; apply Z.div_lt_upper_bound; lia | done | destruct fuel; [cbn in Hd; lia | lia] | done | |];
        rewrite read_length_cons, E2, E3;
        [left; split; [done | cbn [length_bytes]; rewrite E; cbn; lia] |].
      right. exists b'. rewrite HI. split_and!; [f_equal; lia | done | cbn; lia].
    + assert (n / 128 = 0) as Hz by (pose proof (Z.div_pos n 128); lia).
      right. exists b. rewrite read_length_cons, E0, E1. cbn.
      pose proof (Z.div_mod n 128). split_and!; [f_equal; lia | done | cbn; lia].
Qed.

Lemma log2_fuel n : 0 ≤ n → n < 2 ^ Z.of_nat (S (Z.to_nat (Z.log2 n))).
Proof.
  intros Hn. rewrite Nat2Z.inj_succ, Z2Nat.id by apply Z.log2_nonneg.
  destruct (decide (n = 0)) as [-> |]; [done |]. apply Z.log2_spec. lia.
Qed.

(** One turn of the loop over the beginning of a stream of packets. *)
Lemma parse_one p buf r rest fuel out :
  pkt_ok p → buf ++ r = encode_pkt p ++ rest →
  (parse_packets (S fuel) buf out = (buf, Ok out) ∧ (length buf < length (encode_pkt p))%nat) ∨
  ∃ buf', parse_packets (S fuel) buf out = parse_packets fuel buf' (out ++ [p]) ∧ buf' ++ r = rest ∧ (length buf' < length buf)%nat.
Proof.
  intros (Ht & Hf & Hl) Hb. destruct buf as [|b0 [|b1 tl]];
    [left; split; [done |]; unfold encode_pkt, packet; cbn [length]; unfold encodeLength; cbn [length_bytes];
     destruct (_ <? _); cbn; lia.. |].
  unfold encode_pkt, packet in Hb. injection Hb as -> Hb.
  assert (0 ≤ blen (pk_body p)) as Hp by apply blen_nonneg. unfold MAX_PACKET in Hl.
  rewrite <- app_assoc in Hb. destruct (read_length_encoded 3 _ (blen (pk_body p)) 0 1 (b1 :: tl) r _ ltac:(lia) (log2_fuel _ Hp) ltac:(lia) Hb)
    as [[HI Hlt] | (b' & HI & Hr & Hlt)]; cbn [parse_packets]; rewrite HI.
  { left. split; [done |]. unfold encode_pkt, packet. cbn [length]. rewrite length_app.
    change (length_bytes _ _) with (encodeLength (blen (pk_body p))) in Hlt. cbn [length] in Hlt. lia. }
  rewrite Z.add_0_l, Z.mul_1_r. destruct (_ <? _) eqn:E; [unfold MAX_PACKET in E; lia |]. clear E.
  destruct (blen b' <? _) eqn:E.
  { left. split; [done |]. apply (f_equal length) in Hb. rewrite <- Hr in Hb. cbn [length] in Hb. rewrite !length_app in Hb.
    unfold encode_pkt, packet. cbn [length]. rewrite length_app. unfold blen in *. cbn [length] in *. lia. }
  right. unfold blen in *. assert (length (pk_body p) ≤ length b')%nat as Hle by lia.
  rewrite Nat2Z.id. exists (drop (length (pk_body p)) b').
  assert (take (length (pk_body p)) b' = pk_body p) as Htk.
  { rewrite <- (take_app_le b' r) by done. rewrite Hr. apply take_app_length. }
  destruct (pkt_byte _ _ Ht Hf) as [-> ->]. rewrite Htk. split_and!.
  - by destruct p.
  - rewrite <- (drop_app_le b' r) by done. rewrite Hr. apply drop_app_length.
  - rewrite length_drop. cbn in *. lia.
Qed.

Lemma parse_stream ps : ∀ fuel buf r out, Forall pkt_ok ps → buf ++ r = ps ≫= encode_pkt → (length buf < fuel)%nat →
  ∃ k buf', parse_packets fuel buf out = (buf', Ok (out ++ take k ps)) ∧ buf' ++ r = drop k ps ≫= encode_pkt ∧
    (r = [] → (length ps <= k)%nat).
Proof.
  induction ps as [|p ps IH]; intros fuel buf r out Hok Hb Hf; (destruct fuel as [|fuel]; [lia |]).
  - cbn in Hb. apply app_nil in Hb as [-> ->]. exists 0%nat, []. cbn. by rewrite app_nil_r.
  - inversion_clear Hok. destruct (parse_one p buf r (ps ≫= encode_pkt) fuel out) as [[-> Hlt] | (buf' & -> & Hr & Hl)]; [done.. | |].
    + exists 0%nat, buf. rewrite take_0, app_nil_r. split_and!; [done.. |]. intros ->. exfalso.
      rewrite app_nil_r, bind_cons in Hb. apply (f_equal length) in Hb. rewrite length_app in Hb. lia.
    + destruct (IH fuel buf' r (out ++ [p])) as (k & buf2 & -> & Hr2 & He); [done.. | lia |].
      exists (S k), buf2. rewrite <- app_assoc. cbn. split_and!; [done.. |]. intros Hnil. apply He in Hnil. lia.
Qed.

Lemma push_all_stream chunks : ∀ buf ps, Forall pkt_ok ps → buf ++ concat chunks = ps ≫= encode_pkt →
  chunks ≠ [] → push_all buf chunks = ([], Ok ps).
Proof.
  induction chunks as [|c cs IH]; intros buf ps Hok Hb Hne; [done |]. cbn [push_all]. unfold push. cbn [concat] in Hb.
  rewrite app_assoc in Hb.
  destruct (parse_stream ps (S (length (buf ++ c))) (buf ++ c) (concat cs) [] Hok Hb ltac:(lia)) as (k & buf' & -> & Hr & He).
  cbn [app]. destruct cs as [|c' cs].
  - specialize (He eq_refl). rewrite (drop_ge ps k), (take_ge ps k) in * by done. cbn in Hr |- *.
    rewrite app_nil_r in Hr. subst. by rewrite app_nil_r.
  - rewrite (IH buf' (drop k ps)); [by rewrite take_drop | by apply Forall_drop | done | done].
Qed.

(** ** Any bytes *)

Lemma parse_packets_any fuel : ∀ buf out, (length buf < fuel)%nat →
  (parse_packets fuel buf out).2 ≠ NoFuel ∧
  ∀ ps, (parse_packets fuel buf out).2 = Ok ps → blen (parse_packets fuel buf out).1 < MAX_PACKET + 5.
Proof.
  induction fuel as [|fuel IH]; intros buf out Hf; [lia |]. cbn [parse_packets].
  destruct buf as [|b0 [|b1 tl]]; [by split.. |].
  assert (∀ k len mul b, match read_length k len mul b with
     | Incomplete => (length b < k)%nat | Length _ r => (length r < length b)%nat ∧ (length b <= length r + k)%nat | Malformed => True end) as HL.
  { clear. induction k as [|k IH]; intros len mul b; cbn [read_length]; [done |]. destruct b as [|x b]; [cbn; lia |].
    destruct (_ =? 0); [cbn; lia |]. specialize (IH (len + Z.land x 127 * mul) (mul * 128) b). destruct (read_length _ _ _ _); cbn; lia. }
  specialize (HL 4%nat 0 1 (b1 :: tl)). destruct (read_length _ _ _ _) as [| |len rest]; [by split | |].
  - split; [done |]. intros ps _. unfold blen, MAX_PACKET. cbn in *. lia.
  - destruct (MAX_PACKET <? len) eqn:E1; [by split |]. destruct (blen rest <? len) eqn:E2.
    + split; [done |]. intros ps _. unfold blen in *. cbn in *. lia.
    + apply IH. rewrite length_drop. cbn in *. lia.
Qed.

(** Whatever bytes come, the parser ends, and what waits for more is less than one packet. *)
Lemma push_any buf chunk :
  (push buf chunk).2 ≠ NoFuel ∧ ∀ ps, (push buf chunk).2 = Ok ps → blen (push buf chunk).1 < MAX_PACKET + 5.
Proof. apply parse_packets_any. lia. Qed.

(** C32: a stream of MQTT packets is read back as these packets, however the
    socket cuts it into pieces, and nothing of it stays behind. *)
Theorem mqtt_parser_stream ps chunks :
  Forall pkt_ok ps → concat chunks = ps ≫= encode_pkt → chunks ≠ [] → push_all [] chunks = ([], Ok ps).
Proof. intros. by apply push_all_stream. Qed.

Lemma mqtt_parser_stream_witness :
  push_all [] [[48]; [5; 0; 1; 97]; [1; 2; 208]; [0]] = ([], Ok [Pkt 3 0 [0; 1; 97; 1; 2]; Pkt 13 0 []]).
Proof. apply mqtt_parser_stream; [repeat constructor; vm_compute; discriminate | done | done]. Defined.
