(* ===== verification/Broker.v ===== *)
(** * src/edge/mqtt/broker.js

    The files of the MQTT broker: its configuration, the accounts and their
    topics, written only where they change.  The folder is a map from names to
    texts; PBKDF2 and the salt are arguments. *)

From S2P Require Import Prelude JsBuffer JsMap LanInterfaces Protocol.

Local Open Scope Z_scope.

Definition INTERNAL_USER : jstr := js "gc-edge".
Definition PORT : Z := 1883.
Definition TLS_PORT : Z := 8883.
Definition ITERATIONS : Z := 1000.

(** [buf.toString('base64')] *)
Definition base64_char (n : Z) : Z :=
  if n <? 26 then 65 + n else if n <? 52 then 71 + n else if n <? 62 then n - 4 else if n =? 62 then 43 else 47.
Fixpoint to_base64 (b : list Z) : jstr :=
  match b with
  | [] => []
  | [x] => [base64_char (x / 4); base64_char (x mod 4 * 16); 61; 61]
  | [x; y] => [base64_char (x / 4); base64_char (x mod 4 * 16 + y / 16); base64_char (y mod 16 * 4); 61]
  | x :: y :: z :: r =>
      base64_char (x / 4) :: base64_char (x mod 4 * 16 + y / 16) :: base64_char (y mod 16 * 4 + z / 64)
      :: base64_char (z mod 64) :: to_base64 r
  end.

Definition hashPassword (pbkdf2 : jstr → list Z → Z → list Z) (password : jstr) (iterations : Z) (salt : list Z) : jstr :=
  js "$7$" ++ show_Z iterations ++ js "$" ++ to_base64 salt ++ js "$" ++ to_base64 (pbkdf2 password salt iterations).

(** ** The texts *)

(** [lines.join('\n') + '\n'] *)
Definition file_text (lines : list jstr) : jstr := join 10 lines ++ [10].

Definition header (source : jstr) : jstr :=
  js "# Automatisch erzeugt vom GateControl-Edge-Host " ++ source ++ [8211; 32; 196] ++ js "nderungen gehen verloren.".

Definition listener (port : Z) (ip : jstr) : jstr := js "listener " ++ show_Z port ++ js " " ++ ip.
Definition buildConf (dir : jstr) (listenAddrs : list jstr) (tls : option (jstr * jstr)) : jstr :=
  let addrs := List.filter isIPv4 listenAddrs in
  file_text
    ([header (js "(docs/edge.md) "); js "allow_anonymous false"; js "password_file " ++ dir ++ js "/passwd";
      js "acl_file " ++ dir ++ js "/acl"; js "persistence true"; js "persistence_location " ++ dir ++ js "/data/";
      js "autosave_interval 300"; js "log_dest stdout"; js "log_dest topic"; js "log_type error"; js "log_type warning";
      js "log_type notice"; js "connection_messages true"; js "max_packet_size 262144"; js "max_queued_messages 1000"; [];
      listener PORT (js "127.0.0.1")]
     ++ (listener PORT <$> addrs)
     ++ match tls with
        | Some (certfile, keyfile) =>
            addrs ≫= λ ip, [listener TLS_PORT ip; js "certfile " ++ certfile; js "keyfile " ++ keyfile]
        | None => []
        end).

Definition buildPasswd (accounts : list account) (internalHash : jstr) : jstr :=
  file_text ((INTERNAL_USER ++ js ":" ++ internalHash) :: ((λ a, ac_user a ++ js ":" ++ ac_hash a) <$> accounts)).

Definition topic_line (access topic : jstr) : jstr := js "topic " ++ access ++ js " " ++ topic.
Definition account_lines (a : account) : list jstr :=
  [[]; js "user " ++ ac_user a] ++ ((λ r, topic_line (acl_access r) (acl_topic r)) <$> ac_acl a).
Definition buildAcl (accounts : list account) (internalTopics : list jstr) : jstr :=
  file_text
    ([header []; []; js "user " ++ INTERNAL_USER; topic_line (js "read") (js "$SYS/broker/clients/connected");
      topic_line (js "read") (js "$SYS/broker/log/N")]
     ++ (topic_line (js "readwrite") <$> internalTopics) ++ (accounts ≫= account_lines)).

(** ** The folder *)

Record broker := Broker { bk_files : list (jstr * jstr); bk_reloadSeq : Z }.

Definition writeIfChanged (files : list (jstr * jstr)) (file body : jstr) : list (jstr * jstr) * bool :=
  if bool_decide (map_get files file = Some body) then (files, false) else (map_set files file body, true).

Inductive tls_state := TlsOn | MissingCert | TlsOff.
Record written := Written { wr_confChanged : bool; wr_authChanged : bool; wr_tls : tls_state }.

(** [tlsFiles]: what [tlsFiles()] finds. *)
Definition write_files (brokerDir : jstr) (now : Z) (tlsFiles : option (jstr * jstr)) (accounts : list account)
    (internalHash : jstr) (internalTopics listenAddrs : list jstr) (tls : bool) (b : broker) : broker * written :=
  let t := if tls then tlsFiles else None in
  let '(f, conf) := writeIfChanged (bk_files b) (js "mosquitto.conf") (buildConf brokerDir listenAddrs t) in
  let '(f, a) := writeIfChanged f (js "passwd") (buildPasswd accounts internalHash) in
  let '(f, c) := writeIfChanged f (js "acl") (buildAcl accounts internalTopics) in
  let seq := if a || c then bk_reloadSeq b + 1 else bk_reloadSeq b in
  let f := if a || c then (writeIfChanged f (js "reload") (show_Z now ++ js "-" ++ show_Z seq ++ [10])).1 else f in
  let f := (writeIfChanged f (js "enabled") (js "1" ++ [10])).1 in
  (Broker f seq, Written conf (a || c) (if tls then match tlsFiles with Some _ => TlsOn | None => MissingCert end else TlsOff)).

Definition disable (b : broker) : broker := Broker (map_delete (bk_files b) (js "enabled")) (bk_reloadSeq b).
