(* ===== verification/MqttManager.v ===== *)
(** * src/edge/mqtt/manager.js

    The broker's side of the gateway: it writes the broker's files, keeps the
    internal account connected, counts which plugin wants which filter, and
    passes messages on.  A client is a number into the clients there ever
    were; a promise of a client that something waits for is noted with what
    goes on then ([cont]), and the answers of a step are worked off at its
    end, as the promises' callbacks run after the handler of an event. *)

From S2P Require Import Prelude JsBuffer JsMap JsSet JsValues JsFloat JsText Crypto EdgeConstants LanInterfaces Manifest Protocol Topics Machine Mqtt Broker.
From Stdlib Require Import SpecFloat.

Local Open Scope Z_scope.

(** [/[^\n\r\u2028\u2029]/] *)
Definition dot_unit (c : Z) : bool := negb ((c =? 10) || (c =? 13) || (c =? 8232) || (c =? 8233)).

Definition private_number (s : jstr) : bool :=
  match split_on 46 s with
  | x :: r =>
      let x := Number x in
      let y := match r with y :: _ => Number y | [] => None end in
      bool_decide (x = Some 10) || (bool_decide (x = Some 172) && match y with Some y => (16 <=? y) && (y <=? 31) | None => false end)
      || (bool_decide (x = Some 192) && bool_decide (y = Some 168))
  | [] => false
  end.
Definition lanAddresses (ifaces : list (jstr * list if_addr)) : list jstr :=
  sort_by id (uniq (ifaces ≫= λ '(name, addrs),
    if negb (isPhysicalLan name) then []
    else ia_address <$> List.filter (λ a, ia_ipv4 a && negb (ia_internal a) && private_number (ia_address a)) addrs)).

(** ** The log of the broker *)

(** [re.exec]: the first place where the expression fits. *)
Fixpoint search {A} (f : jstr → option A) (s : jstr) : option A :=
  match f s with
  | Some a => Some a
  | None => match s with _ :: r => search f r | [] => None end
  end.
Definition after (p s : jstr) : option jstr := if starts_with p s then Some (drop (length p) s) else None.
Definition word (s : jstr) : option (jstr * jstr) :=
  match span (λ c, negb (js_space c)) s with ([], _) => None | r => Some r end.

(** [u'([^']* )'\)], as [.*?] leads to it. *)
Definition quoted_user (s : jstr) : option jstr :=
  r ← after (js "u'") s;
  let '(user, r) := span (λ c, negb (c =? 39)) r in
  r ← after (js "')") r; Some user.
Fixpoint lazy_user (s : jstr) : option jstr :=
  match quoted_user s with
  | Some u => Some u
  | None => match s with c :: r => if dot_unit c then lazy_user r else None | [] => None end
  end.
Definition CONNECT_RE : jstr → option (jstr * jstr) := search (λ s,
  r ← after (js "New client connected from ") s;
  '(_, r) ← word r;
  r ← after (js " as ") r;
  '(client, r) ← word r;
  r ← after (js " (") r;
  user ← lazy_user r;
  Some (client, user)).

Definition gone (s : jstr) : bool :=
  starts_with (js " disconnected") s || starts_with (js " closed its connection") s || starts_with (js " has exceeded timeout") s.
Definition DISCONNECT_RE : jstr → option jstr := search (λ s,
  r ← after (js "Client ") s;
  '(client, r) ← word r;
  let bracket := match after (js " [") r with
                 | Some t => after (js "]") (span (λ c, negb (c =? 93)) t).2
                 | None => None
                 end in
  if match bracket with Some t => gone t | None => false end || gone r then Some client else None).

(** ** The state *)

Record sub := Sub { sb_plugin : jstr; sb_id : Z; sb_filter : jstr; sb_caps : caps }.

(** What waits for an answer of a client: the call of a plugin with its
    result, or the rest of what follows a connection of client [k]. *)
Inductive cont :=
  | AnswerCall (call : nat) (id : option Z)
  | AnswerAcked (call : nat)
  | SysLog (k : nat) | Resubscribe (k : nat) | Ignore.

Record manager := Manager {
  mm_cfg : mqtt; mm_files : broker; mm_client : option nat; mm_clients : list mclient; mm_retry : bool;
  mm_subs : list (jstr * sub); mm_refs : list (jstr * Z); mm_nextId : Z;
  mm_count : f64; mm_accounts : list (jstr * (bool * Z)); mm_users : list (jstr * jstr);
  mm_tls : tls_state; mm_addrs : list jstr;
  mm_conts : list ((nat * nat) * cont); mm_ready : list ((nat * nat) * reply) }.
Definition newManager : manager :=
  Manager (Mqtt false false [] []) (Broker [] 0) None [] false [] [] 0 (S754_zero false) [] [] TlsOff [] [] [].

Inductive manager_effect :=
  | OfClient (k : nat) (x : mqtt_effect) | NewClient (k : nat)
  | Answer (call : nat) (r : res (option Z)) | ToPlugin (plugin : jstr) (id : Z) (topic : jstr) (payload : list Z) (qos : Z) (retain : bool)
  | Announce (addrs : list jstr) | AnnounceNothing | OnChange.

Definition gop := mop manager manager_effect.

Definition g_cfg (cfg : mqtt) (m : manager) : manager :=
  Manager cfg (mm_files m) (mm_client m) (mm_clients m) (mm_retry m) (mm_subs m) (mm_refs m) (mm_nextId m) (mm_count m)
    (mm_accounts m) (mm_users m) (mm_tls m) (mm_addrs m) (mm_conts m) (mm_ready m).
Definition g_files (f : broker) (tls : tls_state) (addrs : list jstr) (m : manager) : manager :=
  Manager (mm_cfg m) f (mm_client m) (mm_clients m) (mm_retry m) (mm_subs m) (mm_refs m) (mm_nextId m) (mm_count m)
    (mm_accounts m) (mm_users m) tls addrs (mm_conts m) (mm_ready m).
Definition g_client (k : option nat) (retry : bool) (m : manager) : manager :=
  Manager (mm_cfg m) (mm_files m) k (mm_clients m) retry (mm_subs m) (mm_refs m) (mm_nextId m) (mm_count m)
    (mm_accounts m) (mm_users m) (mm_tls m) (mm_addrs m) (mm_conts m) (mm_ready m).
Definition g_clients (cs : list mclient) (m : manager) : manager :=
  Manager (mm_cfg m) (mm_files m) (mm_client m) cs (mm_retry m) (mm_subs m) (mm_refs m) (mm_nextId m) (mm_count m)
    (mm_accounts m) (mm_users m) (mm_tls m) (mm_addrs m) (mm_conts m) (mm_ready m).
Definition g_subs (subs : list (jstr * sub)) (refs : list (jstr * Z)) (next : Z) (m : manager) : manager :=
  Manager (mm_cfg m) (mm_files m) (mm_client m) (mm_clients m) (mm_retry m) subs refs next (mm_count m)
    (mm_accounts m) (mm_users m) (mm_tls m) (mm_addrs m) (mm_conts m) (mm_ready m).
Definition g_seen (count : f64) (accounts : list (jstr * (bool * Z))) (users : list (jstr * jstr)) (m : manager) : manager :=
  Manager (mm_cfg m) (mm_files m) (mm_client m) (mm_clients m) (mm_retry m) (mm_subs m) (mm_refs m) (mm_nextId m) count
    accounts users (mm_tls m) (mm_addrs m) (mm_conts m) (mm_ready m).
Definition g_wait (conts : list ((nat * nat) * cont)) (ready : list ((nat * nat) * reply)) (m : manager) : manager :=
  Manager (mm_cfg m) (mm_files m) (mm_client m) (mm_clients m) (mm_retry m) (mm_subs m) (mm_refs m) (mm_nextId m) (mm_count m)
    (mm_accounts m) (mm_users m) (mm_tls m) (mm_addrs m) conts ready.

(** What the manager sees of the world: the clock, whether the folder is
    there, the interfaces, the files of the certificate. *)
Record surroundings := Surroundings {
  sr_now : Z; sr_available : bool; sr_ifaces : list (jstr * list if_addr); sr_tlsFiles : option (jstr * jstr) }.

Definition connected (m : manager) : bool :=
  match mm_client m with
  | Some k => match mm_clients m !! k with Some c => mc_connected c | None => false end
  | None => false
  end.

Section Manager.
Context `{Node} `{Numbers} (account_ : login) (brokerDir internalHash : jstr).

Definition internalTopics (cfg : mqtt) : list jstr := uniq (concat (mq_pluginTopics cfg).*2).

(** ** Messages *)

Definition SYS_CLIENTS : jstr := js "$SYS/broker/clients/connected".
Definition SYS_LOG : jstr := js "$SYS/broker/log/N".

Definition onLog (now : Z) (line : jstr) : gop := λ m,
  match CONNECT_RE line with
  | Some (client, user) =>
      (mset (g_seen (mm_count m) (map_set (mm_accounts m) user (true, now)) (map_set (mm_users m) client user)) ⨾ mdo [OnChange]) m
  | None =>
      match DISCONNECT_RE line with
      | Some client =>
          let users := map_delete (mm_users m) client in
          match map_get (mm_users m) client with
          | Some ((_ :: _) as user) =>
              if bool_decide (user ∈ users.*2) then (g_seen (mm_count m) (mm_accounts m) users m, [])
              else (mset (g_seen (mm_count m) (map_set (mm_accounts m) user (false, now)) users) ⨾ mdo [OnChange]) m
          | _ => (g_seen (mm_count m) (mm_accounts m) users m, [])
          end
      | None => (m, [])
      end
  end.

(** [Number(text) || 0] *)
Definition count_of (text : jstr) : f64 :=
  match to_number text with Some (S754_zero _) | None => S754_zero false | Some x => x end.
Definition deliver (topic : jstr) (payload : list Z) (qos : Z) (retain : bool) (s : sub) : option manager_effect :=
  if matches (sb_filter s) topic then Some (ToPlugin (sb_plugin s) (sb_id s) topic payload qos retain) else None.
Definition onMessage (now : Z) (topic : jstr) (payload : list Z) (qos : Z) (retain : bool) : gop := λ m,
  if bool_decide (topic = SYS_CLIENTS) then (g_seen (count_of (utf8_decode payload)) (mm_accounts m) (mm_users m) m, [])
  else if bool_decide (topic = SYS_LOG) then onLog now (utf8_decode payload) m
  else (m, omap (deliver topic payload qos retain) (mm_subs m).*2).

(** ** The client *)

Definition scheduleRetry : gop := λ m,
  if negb (mq_enabled (mm_cfg m)) || mm_retry m then (m, []) else (g_client (mm_client m) true m, []).

(** An effect of client [k] as the manager hears it; answers wait for the end of the step. *)
Definition hear (now : Z) (k : nat) (x : mqtt_effect) : gop := λ m,
  match x with
  | EmitMessage topic payload qos retain => onMessage now topic payload qos retain m
  | EmitClose => if bool_decide (mm_client m = Some k) then (mset (g_client None (mm_retry m)) ⨾ mdo [OnChange] ⨾ scheduleRetry) m else (m, [])
  | Replied n r => (g_wait (mm_conts m) (mm_ready m ++ [((k, n), r)]) m, [])
  | _ => (m, [OfClient k x])
  end.
Fixpoint hear_all (now : Z) (k : nat) (fx : list mqtt_effect) : gop :=
  match fx with [] => mskip | x :: fx => hear now k x ⨾ hear_all now k fx end.

Definition on_client (now : Z) (k : nat) (f : cop) : gop := λ m,
  match mm_clients m !! k with
  | Some c => let '(c, fx) := f c in (mset (g_clients (<[k := c]> (mm_clients m))) ⨾ hear_all now k fx) m
  | None => (m, [])
  end.
(** A request of client [k] that [go] waits for. *)
Definition request_then (now : Z) (k : nat) (f : cop) (go : cont) : gop := λ m,
  match mm_clients m !! k with
  | Some c => (mset (g_wait (mm_conts m ++ [((k, mc_requests c), go)]) (mm_ready m)) ⨾ on_client now k f) m
  | None => (m, [])
  end.

Fixpoint resubscribe (now : Z) (k : nat) (filters : list jstr) : gop :=
  match filters with
  | [] => mskip
  | f :: fs => request_then now k (subscribe f 1) Ignore ⨾ resubscribe now k fs
  end.

(** The first part of what follows [connect()]. *)
Definition client_connected (now : Z) (k : nat) : gop :=
  mdo [OnChange] ⨾ request_then now k (subscribe SYS_CLIENTS 0) (SysLog k).
Definition client_failed (k : nat) : gop := λ m,
  (mset (g_client (if bool_decide (mm_client m = Some k) then None else mm_client m) (mm_retry m)) ⨾ scheduleRetry) m.

Definition goes_on (now : Z) (go : cont) (r : reply) : gop := λ m,
  match go with
  | AnswerCall n id => (m, [Answer n (match subscribed r with Ok _ => Ok id | Throw e => Throw e | NoFuel => NoFuel end)])
  | AnswerAcked n => (m, [Answer n (match r with Failed e => Throw e | _ => Ok None end)])
  | SysLog k =>
      match subscribed r with
      | Ok _ => request_then now k (subscribe SYS_LOG 0) (Resubscribe k) m
      | _ => resubscribe now k (mm_refs m).*1 m
      end
  | Resubscribe k => resubscribe now k (mm_refs m).*1 m
  | Ignore => (m, [])
  end.

(** The answers that are there are worked off, round by round; answers can
    only follow at once from a client that is not connected, at most three
    times one after the other. *)
Definition answered (now : Z) (e : (nat * nat) * reply) : gop := λ m,
  match map_get (mm_conts m) e.1 with
  | Some go => (mset (g_wait (map_delete (mm_conts m) e.1) (mm_ready m)) ⨾ goes_on now go e.2) m
  | None => (m, [])
  end.
Fixpoint answered_all (now : Z) (es : list ((nat * nat) * reply)) : gop :=
  match es with [] => mskip | e :: es => answered now e ⨾ answered_all now es end.
Fixpoint drain (rounds : nat) (now : Z) : gop := λ m,
  match rounds with
  | O => (m, [])
  | S rounds => (mset (g_wait (mm_conts m) []) ⨾ answered_all now (mm_ready m) ⨾ drain rounds now) m
  end.
Definition settle_all (now : Z) : gop := drain 4 now.

Definition ensureClient : gop := λ m,
  if bool_decide (mm_client m ≠ None) || mm_retry m then (m, [])
  else
    let k := length (mm_clients m) in
    (mset (g_clients (mm_clients m ++ [newClient account_])) ⨾ mset (g_client (Some k) (mm_retry m)) ⨾ mdo [NewClient k]) m.

Definition stopClient (now : Z) : gop := λ m,
  let k := mm_client m in
  (mset (g_client None false)
   ⨾ match k with Some k => on_client now k end_ | None => mskip end
   ⨾ mset (g_seen (S754_zero false) (mm_accounts m) (mm_users m))) m.

(** ** Subscriptions *)

Definition allowedFor (cfg : mqtt) (plugin : jstr) (c : caps) : list jstr :=
  let own := default [] (c_mqtt c) in
  let granted := default [] (map_get (mq_pluginTopics cfg) plugin) in
  List.filter (λ f, existsb (λ g, covers g f) granted) own.

Definition sub_key (plugin id : jstr) : jstr := plugin ++ js "#" ++ id.

Definition removeSub (now : Z) (key : jstr) : gop := λ m,
  match map_get (mm_subs m) key with
  | None => (m, [])
  | Some s =>
      let f := sb_filter s in
      let n := default 1 (map_get (mm_refs m) f) - 1 in
      let subs := map_delete (mm_subs m) key in
      if n <=? 0 then
        (mset (g_subs subs (map_delete (mm_refs m) f) (mm_nextId m))
         ⨾ λ m, match mm_client m with
                | Some k => if connected m then request_then now k (unsubscribe f) Ignore m else (m, [])
                | None => (m, [])
                end) m
      else (g_subs subs (map_set (mm_refs m) f n) (mm_nextId m) m, [])
  end.
Fixpoint remove_all (now : Z) (keys : list jstr) : gop :=
  match keys with [] => mskip | k :: ks => removeSub now k ⨾ remove_all now ks end.

Definition dropPlugin (now : Z) (plugin : jstr) : gop := λ m,
  remove_all now (List.filter (λ e, bool_decide (sb_plugin e.2 = plugin)) (mm_subs m)).*1 m.

(** Whether the filter of a subscription is still granted. *)
Definition granted (cfg : mqtt) (s : sub) : bool :=
  existsb (λ a, covers a (sb_filter s)) (allowedFor cfg (sb_plugin s) (sb_caps s)).

Definition refresh (w : surroundings) : gop := λ m,
  if negb (mq_enabled (mm_cfg m)) || negb (sr_available w) then (m, [])
  else
    let addrs := lanAddresses (sr_ifaces w) in
    let '(f, r) := write_files brokerDir (sr_now w) (sr_tlsFiles w) (mq_accounts (mm_cfg m)) internalHash
                     (internalTopics (mm_cfg m)) addrs (mq_tls (mm_cfg m)) (mm_files m) in
    (mdo (if wr_confChanged r || negb (bool_decide (join 44 addrs = join 44 (mm_addrs m)))
          then [match addrs with [] => AnnounceNothing | _ => Announce addrs end] else [])
     ⨾ mset (g_files f (wr_tls r) addrs)
     ⨾ remove_all (sr_now w) (List.filter (λ e, negb (granted (mm_cfg m) e.2)) (mm_subs m)).*1) m.

Definition apply (w : surroundings) (cfg : mqtt) : gop :=
  mset (g_cfg cfg)
  ⨾ λ m, if negb (mq_enabled cfg) || negb (sr_available w)
         then (mset (g_files (disable (mm_files m)) (mm_tls m) (mm_addrs m)) ⨾ stopClient (sr_now w) ⨾ mdo [AnnounceNothing]) m
         else (refresh w ⨾ ensureClient) m.

(** ** Calls of plugins *)

(** The code of the error that names the topic; making its text can throw. *)
Definition denied_code (topic : option json) : string :=
  match topic with Some v => match String_ v with Throw e => e | _ => "denied" end | None => "denied" end.

Definition mine (m : manager) (plugin : jstr) : Z :=
  Z.of_nat (length (List.filter (λ s, bool_decide (sb_plugin s = plugin)) (mm_subs m).*2)).

Definition call_subscribe (now : Z) (n : nat) (plugin : jstr) (c : caps) (topic : option json) : gop := λ m,
  let fails e := (m, [Answer n (Throw e)]) in
  match topic with
  | Some (JStr f) =>
      if negb (validFilter f) || negb (existsb (λ a, covers a f) (allowedFor (mm_cfg m) plugin c)) then fails "denied"
      else if LIMITS.mqttSubscriptionsPerPlugin <=? mine m plugin then fails "busy"
      else
        let id := mm_nextId m + 1 in
        let count := default 0 (map_get (mm_refs m) f) + 1 in
        (mset (g_subs (map_set (mm_subs m) (sub_key plugin (show_Z id)) (Sub plugin id f c)) (map_set (mm_refs m) f count) id)
         ⨾ match mm_client m with
           | Some k => if (count =? 1) && connected m then request_then now k (subscribe f 1) (AnswerCall n (Some id))
                       else mdo [Answer n (Ok (Some id))]
           | None => mdo [Answer n (Ok (Some id))]
           end) m
  | t => fails (denied_code t)
  end.

Definition call_publish (now : Z) (n : nat) (plugin : jstr) (c : caps) (args : list (jstr * json)) : gop := λ m,
  let fails e := (m, [Answer n (Throw e)]) in
  match field args (js "topic") with
  | Some (JStr t) =>
      if negb (validTopic t) || negb (existsb (λ a, matches a t) (allowedFor (mm_cfg m) plugin c)) then fails "denied"
      else
        let payload := from_base64 (match field args (js "b64") with Some (JStr s) => s | _ => [] end) in
        if LIMITS.mqttPayloadBytes <? blen payload then fails "too_large"
        else
          match mm_client m with
          | Some k =>
              if negb (connected m) then fails "not_available"
              else request_then now k (publish t payload (if bool_decide (field args (js "qos") ≫= as_int = Some 1) then 1 else 0)
                                         (is_true (field args (js "retain")))) (AnswerAcked n) m
          | None => fails "not_available"
          end
  | t => fails (denied_code t)
  end.

Definition pluginCall (now : Z) (n : nat) (plugin : jstr) (c : caps) (api : jstr) (args : list (jstr * json)) : gop := λ m,
  if negb (mq_enabled (mm_cfg m)) then (m, [Answer n (Throw "not_enabled")])
  else if bool_decide (api = js "mqtt.subscribe") then call_subscribe now n plugin c (field args (js "topic")) m
  else if bool_decide (api = js "mqtt.unsubscribe") then
    match match field args (js "id") with Some v => String_ v | None => Ok (js "undefined") end with
    | Ok id => (removeSub now (sub_key plugin id) ⨾ mdo [Answer n (Ok None)]) m
    | Throw e => (m, [Answer n (Throw e)])
    | NoFuel => (m, [])
    end
  else if bool_decide (api = js "mqtt.publish") then call_publish now n plugin c args m
  else (m, [Answer n (Throw "unknown_api")]).

(** ** The machine *)

Inductive manager_input :=
  | Apply (w : surroundings) (cfg : mqtt) | Refresh (w : surroundings) | RetryTimer
  | Call (now : Z) (n : nat) (plugin : jstr) (c : caps) (api : jstr) (args : list (jstr * json))
  | DropPlugin (now : Z) (plugin : jstr)
  | ClientEvent (now : Z) (k : nat) (i : client_input) | StopManager (now : Z).

(** What the promise of [connect] starts. *)
Definition after_connect (now : Z) (k : nat) (fx : list mqtt_effect) : gop :=
  match List.filter (λ x, match x with Connected | ConnectFailed _ => true | _ => false end) fx with
  | Connected :: _ => client_connected now k
  | ConnectFailed _ :: _ => client_failed k
  | _ => mskip
  end.

Definition client_event (now : Z) (k : nat) (i : client_input) : gop := λ m,
  match mm_clients m !! k with
  | Some c => (on_client now k (client_step i) ⨾ after_connect now k (client_step i c).2) m
  | None => (m, [])
  end.

Definition retry_timer : gop := λ m,
  if mm_retry m then (mset (g_client (mm_client m) false) ⨾ if mq_enabled (mm_cfg m) then ensureClient else mskip) m else (m, []).

Definition stop_manager (now : Z) : gop := λ m,
  let cfg := mm_cfg m in
  (mset (g_cfg (Mqtt false (mq_tls cfg) (mq_accounts cfg) (mq_pluginTopics cfg))) ⨾ stopClient now) m.

Definition manager_step (i : manager_input) : gop :=
  match i with
  | Apply w cfg => apply w cfg ⨾ settle_all (sr_now w)
  | Refresh w => refresh w ⨾ settle_all (sr_now w)
  | RetryTimer => retry_timer
  | Call now n plugin c api args => pluginCall now n plugin c api args ⨾ settle_all now
  | DropPlugin now plugin => dropPlugin now plugin ⨾ settle_all now
  | ClientEvent now k i => client_event now k i ⨾ settle_all now
  | StopManager now => stop_manager now ⨾ settle_all now
  end.

(** ** The status *)

Record account_status := AccountStatus { as_user : jstr; as_connected : bool; as_lastSeen : option Z }.
Record mqtt_status := MqttStatus { ms_running : bool; ms_clients : f64; ms_tls : tls_state; ms_accounts : list account_status }.
Definition fl_max0 (x : f64) : f64 := match x with S754_finite true _ _ | S754_infinity true | S754_zero _ => S754_zero false | _ => x end.
Definition status (m : manager) : mqtt_status :=
  MqttStatus (connected m) (fl_max0 (fl_sub (mm_count m) (fl_of_Z (if connected m then 1 else 0)))) (mm_tls m)
    ((λ a, let s := map_get (mm_accounts m) (ac_user a) in
           AccountStatus (ac_user a) (match s with Some (c, _) => c | None => false end) (snd <$> s)) <$> mq_accounts (mm_cfg m)).
End Manager.
