(* ===== verification/MqttManagerFacts.v ===== *)
(** * What plugins get from the broker, and what they send

    The books of the manager agree over every run, and messages only pass
    where the operator and the server approved them. *)

From S2P Require Import Prelude JsBuffer JsMap JsSet JsValues JsFloat JsText Crypto EdgeConstants LanInterfaces Manifest ManifestFacts Protocol Topics Machine Mqtt Broker MqttManager.

Local Open Scope Z_scope.

(** ** Numbers of subscriptions *)

Definition count_filter (f : jstr) (subs : list (jstr * sub)) : Z :=
  Z.of_nat (length (List.filter (λ e, bool_decide (sb_filter e.2 = f)) subs)).
Definition count_plugin (p : jstr) (subs : list (jstr * sub)) : Z :=
  Z.of_nat (length (List.filter (λ e, bool_decide (sb_plugin e.2 = p)) subs)).

Section Counting.
Context (P : sub → bool).
Abbreviation count := (λ subs : list (jstr * sub), Z.of_nat (length (List.filter (λ e, P e.2) subs))).

Lemma count_snoc subs k s : count (subs ++ [(k, s)]) = count subs + (if P s then 1 else 0).
Proof. cbv beta. rewrite List.filter_app, length_app. cbn. destruct (P s); cbn; lia. Qed.

Lemma count_delete subs k s : map_ok subs → map_get subs k = Some s →
  count (map_delete subs k) = count subs - (if P s then 1 else 0).
Proof.
  induction subs as [|[k1 s1] subs IH]; [done |]. intros Hm Hg. pose proof Hm as [_ Hm']%NoDup_cons.
  cbn [map_get] in Hg. destruct (decide (k = k1)) as [->|Hk].
  - injection Hg as ->. rewrite map_delete_first by done. cbn. destruct (P s); cbn; lia.
  - cbn [map_delete]. destruct (decide (k = k1)); [done |]. specialize (IH Hm' Hg). cbn. destruct (P s1); cbn in *; lia.
Qed.
End Counting.

(** ** The invariant *)

Definition entry_ok (next : Z) (e : jstr * sub) : Prop :=
  e.1 = sub_key (sb_plugin e.2) (show_Z (sb_id e.2)) ∧ 1 ≤ sb_id e.2 ≤ next ∧ validFilter (sb_filter e.2) = true.

(** The subscriptions have different keys and valid filters, no plugin more
    than it may; for each filter the number kept is the number of its
    subscriptions, and only those with any are kept. *)
Record books (m : manager) : Prop := {
  bo_next : 0 ≤ mm_nextId m;
  bo_subs : map_ok (mm_subs m);
  bo_entries : Forall (entry_ok (mm_nextId m)) (mm_subs m);
  bo_refs : map_ok (mm_refs m);
  bo_counts f : default 0 (map_get (mm_refs m) f) = count_filter f (mm_subs m);
  bo_positive f n : map_get (mm_refs m) f = Some n → 1 ≤ n;
  bo_limit p : count_plugin p (mm_subs m) ≤ LIMITS.mqttSubscriptionsPerPlugin }.

(** The grants the server ever gave, and whether the last configuration was
    written to the broker's folder. *)
Definition grants (hist : list manager_input) : list (list (jstr * list jstr)) :=
  [] :: omap (λ i, match i with Apply _ cfg => Some (mq_pluginTopics cfg) | _ => None end) hist.
Definition fresh (hist : list manager_input) : bool :=
  fold_left (λ b i, match i with Apply w cfg => mq_enabled cfg && sr_available w | _ => b end) hist true.

Definition with_topics (t : list (jstr * list jstr)) : mqtt := Mqtt true false [] t.
Definition subscribed_by (hist : list manager_input) (s : sub) : Prop :=
  ∃ now n args, Call now n (sb_plugin s) (sb_caps s) (js "mqtt.subscribe") args ∈ hist ∧
    field args (js "topic") = Some (JStr (sb_filter s)) ∧ ∃ t, t ∈ grants hist ∧ granted (with_topics t) s = true.

Record approved (hist : list manager_input) (m : manager) : Prop := {
  ap_cfg : mq_pluginTopics (mm_cfg m) ∈ grants hist;
  ap_subs : Forall (λ e, subscribed_by hist e.2) (mm_subs m);
  ap_fresh : fresh hist = true → Forall (λ e, granted (mm_cfg m) e.2 = true) (mm_subs m) }.

Lemma granted_topics cfg s : granted cfg s = granted (with_topics (mq_pluginTopics cfg)) s.
Proof. done. Qed.

(** ** What goes out *)

Definition kind (b : list Z) : Z := Z.shiftr (default 0 (head b)) 4.
Definition harmless (x : manager_effect) : Prop :=
  match x with
  | ToPlugin _ _ _ _ _ _ => False
  | OfClient _ (Write b) => kind b ≠ T.PUBLISH ∧ kind b ≠ T.SUBSCRIBE
  | _ => True
  end.
(** A SUBSCRIBE of a filter that a plugin has, or of the broker's own topics. *)
Definition subscribe_of (refs : list (jstr * Z)) (b : list Z) : Prop :=
  ∃ id f t q, (f ∈ refs.*1 ∨ f = SYS_CLIENTS ∨ f = SYS_LOG) ∧ str f = Ok t ∧ b = packet T.SUBSCRIBE 2 (u16 id ++ t ++ [q]).
Definition usual (subs : list (jstr * sub)) (refs : list (jstr * Z)) (x : manager_effect) : Prop :=
  match x with
  | ToPlugin p id topic _ _ _ => ∃ e, e ∈ subs ∧ sb_plugin e.2 = p ∧ sb_id e.2 = id ∧ matches (sb_filter e.2) topic = true
  | OfClient _ (Write b) => kind b ≠ T.PUBLISH ∧ (kind b = T.SUBSCRIBE → subscribe_of refs b)
  | _ => True
  end.

Lemma harmless_usual subs refs x : harmless x → usual subs refs x.
Proof. destruct x as [k []| | | | | |]; cbn; tauto. Qed.

Lemma kind_packet t f b : 0 ≤ t < 16 → 0 ≤ f < 16 → kind (packet t f b) = t.
Proof. intros. unfold kind, packet. cbn. by apply pkt_byte. Qed.

(** ** Operations that leave the subscriptions alone *)

Definition same (m m' : manager) : Prop :=
  mm_cfg m' = mm_cfg m ∧ mm_subs m' = mm_subs m ∧ mm_refs m' = mm_refs m ∧ mm_nextId m' = mm_nextId m.
Definition quiet (m : manager) (f : gop) : Prop := same m (f m).1 ∧ Forall (usual (mm_subs m) (mm_refs m)) (f m).2.

Lemma same_refl m : same m m. Proof. done. Qed.
Lemma same_trans a b c : same a b → same b c → same a c.
Proof. unfold same. intros (?&?&?&?) (?&?&?&?). split_and!; congruence. Qed.

Lemma quiet_then m f g : quiet m f → quiet (f m).1 g → quiet m (f ⨾ g).
Proof.
  intros [Hf Hfx] [Hg Hgx]. unfold quiet. rewrite mthen_fst, mthen_snd. split; [by eapply same_trans |].
  apply Forall_app_2; [done |]. destruct Hf as (_ & Hs & Hr & _). by rewrite Hs, Hr in Hgx.
Qed.
Lemma quiet_do m fx : Forall harmless fx → quiet m (mdo fx).
Proof. intros H. split; [done |]. cbn. eapply Forall_impl; [done |]. intros. by apply harmless_usual. Qed.
Lemma quiet_skip m : quiet m mskip. Proof. split; [done | constructor]. Qed.
Lemma quiet_set m h : same m (h m) → quiet m (mset h).
Proof. intros H. split; [done | constructor]. Qed.
Lemma quiet_stay m : quiet m (λ m, (m, [])). Proof. split; [done | constructor]. Qed.

(** *** What a client writes *)

Definition writes (P : list Z → Prop) (x : mqtt_effect) : Prop := match x with Write b => P b | _ => True end.
Definition control (b : list Z) : Prop := kind b ≠ T.PUBLISH ∧ kind b ≠ T.SUBSCRIBE.

Lemma control_packet t f b : 0 ≤ t < 16 → 0 ≤ f < 16 → t ≠ T.PUBLISH → t ≠ T.SUBSCRIBE → control (packet t f b).
Proof. intros. unfold control. by rewrite kind_packet. Qed.

Lemma request_writes (P : list Z → Prop) build c :
  (∀ id b, build id = Ok b → P b) → Forall (writes P) (request build c).2.
Proof.
  intros HP. unfold request. destruct (_ || _); [by repeat constructor |]. rewrite !mthen_snd. cbn.
  destruct (build (next_id c)) eqn:E; repeat constructor. cbn. by eapply HP.
Qed.

Lemma fail_writes P code c : Forall (writes P) (fail code c).2.
Proof. unfold fail. case_match; by repeat constructor. Qed.
Lemma settle_writes P id r c : Forall (writes P) (settle id r c).2.
Proof. unfold settle. case_match; by repeat constructor. Qed.

Lemma onPacket_writes p c : Forall (writes control) (onPacket p c).2.
Proof.
  unfold onPacket. destruct (pk_type p =? T.PUBLISH).
  - destruct (publish_body _ _) as [fx| |] eqn:E; [|by repeat constructor..]. cbn. unfold publish_body in E.
    apply res_bind_Ok in E as (tl & _ & E). destruct (0 <? _); [|by injection E as <-; repeat constructor].
    apply res_bind_Ok in E as (id & _ & E). injection E as <-. destruct (_ =? 1); repeat constructor; try done.
    all: rewrite kind_packet by done; done.
  - destruct (_ || _); [|constructor]. destruct (readUInt16BE _ _); [apply settle_writes | by repeat constructor..].
Qed.

Lemma on_packets_writes ps : ∀ c, Forall (writes control) (on_packets ps c).2.
Proof.
  induction ps as [|p ps IH]; intros c; cbn [on_packets]; [constructor |]. destruct (pk_type p =? T.CONNACK).
  - assert (∀ code, Forall (writes control) ((fail code ⨾ mdo [DestroySock]) c).2) as Hfail.
    { intros code. rewrite mthen_snd. apply Forall_app_2; [apply fail_writes | by repeat constructor]. }
    destruct (byte_at _ _) as [[]|]; try apply Hfail. rewrite !mthen_snd. cbn.
    apply Forall_app_2; [destruct (mc_settled c); by repeat constructor | apply IH].
  - pose proof (onPacket_writes p c) as Hp. destruct (onPacket p c) as [d fx]. destruct (thrown fx); [done |].
    specialize (IH d). destruct (on_packets ps d). by apply Forall_app_2.
Qed.

Lemma client_step_writes i c : Forall (writes control) (client_step i c).2.
Proof.
  destruct i; cbn [client_step].
  - destruct (connectPacket (mc_login c)) eqn:E; [|by repeat constructor..]. unfold connectPacket in E. res_inv.
    repeat constructor; rewrite kind_packet; done.
  - unfold on_data. destruct (push _ _) as [buf [ps| |]]; rewrite mthen_snd; [|by repeat constructor..].
    apply on_packets_writes.
  - apply fail_writes.
  - unfold on_sock_close. rewrite !mthen_snd. cbn. apply Forall_app_2; [apply fail_writes |].
    apply Forall_app_2; [by apply Forall_fmap, Forall_true |]. rewrite app_nil_r. destruct (mc_connected c); by repeat constructor.
  - destruct (mc_settled c); [constructor |]. rewrite mthen_snd. apply Forall_app_2; [apply fail_writes | by repeat constructor].
  - unfold on_ping. destruct (_ && _); [|constructor]. destruct (_ <? _); repeat constructor; cbn; rewrite kind_packet; done.
  - unfold request_timeout. case_match; by repeat constructor.
  - by repeat constructor.
Qed.

(** *** What the manager does with it *)

Definition sendable (refs : list (jstr * Z)) (b : list Z) : Prop := kind b ≠ T.PUBLISH ∧ (kind b = T.SUBSCRIBE → subscribe_of refs b).
Lemma control_sendable refs b : control b → sendable refs b.
Proof. unfold control, sendable. tauto. Qed.

Lemma onLog_quiet m now line : quiet m (onLog now line).
Proof. unfold onLog, quiet. repeat case_match; by repeat constructor. Qed.

Lemma onMessage_quiet m now topic payload qos retain : quiet m (onMessage now topic payload qos retain).
Proof.
  unfold onMessage. case_bool_decide; [by apply quiet_set |]. case_bool_decide; [apply onLog_quiet |]. split; [done |]. cbn. apply Forall_forall. intros x (s & Hs & Hx)%list_elem_of_omap.
  unfold deliver in Hx. destruct (matches _ _) eqn:E; [|done]. injection Hx as <-.
  apply list_elem_of_fmap in Hs as (e & -> & He). by exists e.
Qed.

Lemma scheduleRetry_quiet m : quiet m scheduleRetry.
Proof. unfold scheduleRetry, quiet. case_match; by repeat constructor. Qed.

Lemma hear_quiet m now k x : writes (sendable (mm_refs m)) x → quiet m (hear now k x).
Proof.
  intros Hx. destruct x; try (by split; [done | repeat constructor]); unfold hear.
  - split; [done |]. constructor; [exact Hx | constructor].
  - apply onMessage_quiet.
  - unfold quiet. destruct (decide (mm_client m = Some k)); [rewrite bool_decide_true by done | rewrite bool_decide_false by done; apply (quiet_stay m)].
    apply (quiet_then m); [by apply quiet_set |]. apply quiet_then; [by apply quiet_do; repeat constructor | apply scheduleRetry_quiet].
Qed.

Lemma hear_all_quiet fx : ∀ m now k, Forall (writes (sendable (mm_refs m))) fx → quiet m (hear_all now k fx).
Proof.
  induction fx as [|x fx IH]; intros m now k Hfx; cbn [hear_all]; [apply quiet_skip |]. inversion_clear Hfx.
  pose proof (hear_quiet m now k x ltac:(done)) as Hq. apply quiet_then; [done |]. apply IH.
  destruct Hq as [(_ & _ & Hr & _) _]. by rewrite Hr.
Qed.

Lemma on_client_quiet m now k (f : cop) : (∀ c, Forall (writes (sendable (mm_refs m))) (f c).2) → quiet m (on_client now k f).
Proof.
  intros Hf. unfold quiet, on_client. destruct (mm_clients m !! k) as [c|]; [|by repeat constructor].
  specialize (Hf c). destruct (f c) as [d fx]. change (quiet m (mset (g_clients (<[k:=d]> (mm_clients m))) ⨾ hear_all now k fx)).
  apply quiet_then; [by apply quiet_set |]. by apply hear_all_quiet.
Qed.

Lemma request_then_quiet m now k (f : cop) go :
  (∀ c, Forall (writes (sendable (mm_refs m))) (f c).2) → quiet m (request_then now k f go).
Proof.
  intros Hf. unfold quiet, request_then. destruct (mm_clients m !! k) as [c|]; [|by repeat constructor].
  change (quiet m (mset (g_wait (mm_conts m ++ [((k, mc_requests c), go)]) (mm_ready m)) ⨾ on_client now k f)).
  apply quiet_then; [by apply quiet_set |]. by apply on_client_quiet.
Qed.

Lemma subscribe_sends refs f q c :
  f ∈ refs.*1 ∨ f = SYS_CLIENTS ∨ f = SYS_LOG → Forall (writes (sendable refs)) (subscribe f q c).2.
Proof.
  intros Hf. apply request_writes. intros id b E. res_inv. split; [by rewrite kind_packet |].
  intros _. by exists id, f, v, (Z.min 1 q).
Qed.
Lemma unsubscribe_sends refs f c : Forall (writes (sendable refs)) (unsubscribe f c).2.
Proof.
  apply request_writes. intros id b E. res_inv. apply control_sendable. by apply control_packet.
Qed.

Lemma resubscribe_quiet fs : ∀ m now k, Forall (λ f, f ∈ (mm_refs m).*1) fs → quiet m (resubscribe now k fs).
Proof.
  induction fs as [|f fs IH]; intros m now k Hfs; cbn [resubscribe]; [apply quiet_skip |]. inversion_clear Hfs.
  assert (quiet m (request_then now k (subscribe f 1) Ignore)) as Hq.
  { apply request_then_quiet. intros c. apply subscribe_sends. by left. }
  apply quiet_then; [done |]. apply IH. destruct Hq as [(_ & _ & Hr & _) _]. by rewrite Hr.
Qed.

Lemma goes_on_quiet m now go r : quiet m (goes_on now go r).
Proof.
  assert (∀ k, quiet m (λ m, resubscribe now k (mm_refs m).*1 m)) as Hre.
  { intros k. apply (resubscribe_quiet (mm_refs m).*1). by apply Forall_forall. }
  destruct go; unfold goes_on; try (by split; [done | repeat constructor]).
  - destruct (subscribed r); [|apply Hre..]. apply (request_then_quiet m). intros c. apply subscribe_sends. auto.
  - apply Hre.
Qed.

Lemma answered_quiet m now e : quiet m (answered now e).
Proof.
  unfold quiet, answered. destruct (map_get (mm_conts m) e.1) as [go|]; [|by repeat constructor].
  change (quiet m (mset (g_wait (map_delete (mm_conts m) e.1) (mm_ready m)) ⨾ goes_on now go e.2)).
  apply quiet_then; [by apply quiet_set | apply goes_on_quiet].
Qed.

Lemma answered_all_quiet es : ∀ m now, quiet m (answered_all now es).
Proof.
  induction es as [|e es IH]; intros m now; cbn [answered_all]; [apply quiet_skip |].
  apply quiet_then; [apply answered_quiet | apply IH].
Qed.

Lemma drain_quiet n : ∀ m now, quiet m (drain n now).
Proof.
  induction n as [|n IH]; intros m now; cbn [drain]; [apply quiet_stay |].
  change (quiet m (mset (g_wait (mm_conts m) []) ⨾ answered_all now (mm_ready m) ⨾ drain n now)).
  apply quiet_then; [by apply quiet_set |]. apply quiet_then; [apply answered_all_quiet | apply IH].
Qed.

(** ** Requests *)

Definition asks (Q : list Z → Prop) (x : mqtt_effect) : Prop := match x with Write b => Q b | Replied _ _ => True | _ => False end.
Definition sent (k : nat) (Q : list Z → Prop) (x : manager_effect) : Prop := ∃ b, x = OfClient k (Write b) ∧ Q b.

Lemma request_asks (Q : list Z → Prop) build c : (∀ id b, build id = Ok b → Q b) → Forall (asks Q) (request build c).2.
Proof.
  intros HQ. unfold request. destruct (_ || _); [by repeat constructor |]. rewrite !mthen_snd. cbn.
  destruct (build (next_id c)) eqn:E; repeat constructor. cbn. by eapply HQ.
Qed.

Lemma hear_all_sent Q fx : ∀ m now k, Forall (asks Q) fx → Forall (sent k Q) (hear_all now k fx m).2.
Proof.
  induction fx as [|x fx IH]; intros m now k Hfx; cbn [hear_all]; [constructor |]. inversion_clear Hfx.
  rewrite mthen_snd. apply Forall_app_2; [|by apply IH]. destruct x; try done; cbn; repeat constructor. by eexists.
Qed.

Lemma request_then_sent Q m now k (f : cop) go : (∀ c, Forall (asks Q) (f c).2) → Forall (sent k Q) (request_then now k f go m).2.
Proof.
  intros Hf. unfold request_then. destruct (mm_clients m !! k) as [c|]; [|constructor]. rewrite mthen_snd. cbn [mset snd app].
  unfold on_client. destruct (mm_clients _ !! k) as [d|]; [|constructor]. specialize (Hf d). destruct (f d) as [e fx].
  rewrite mthen_snd. by apply hear_all_sent.
Qed.

Lemma sent_harmless k x : sent k control x → harmless x.
Proof. by intros (b & -> & Hb). Qed.

(** ** Removing subscriptions *)

Lemma books_same m m' : same m m' → books m → books m'.
Proof. intros (_ & Hs & Hr & Hn) []. split; rewrite ?Hs, ?Hr, ?Hn; done. Qed.

Lemma count_filter_pos f subs k s : map_get subs k = Some s → sb_filter s = f → 1 ≤ count_filter f subs.
Proof.
  intros Hg%map_get_elem Hf. unfold count_filter.
  assert ((k, s) ∈ List.filter (λ e, bool_decide (sb_filter e.2 = f)) subs) as Hin.
  { apply list_elem_of_In, List.filter_In. split; [by apply list_elem_of_In | by apply bool_decide_eq_true]. }
  destruct (List.filter _ _); [by apply elem_of_nil in Hin |]. cbn. lia.
Qed.

Lemma books_delete m key s m' :
  books m → map_get (mm_subs m) key = Some s → mm_subs m' = map_delete (mm_subs m) key → mm_nextId m' = mm_nextId m →
  (let n := default 1 (map_get (mm_refs m) (sb_filter s)) - 1 in
   mm_refs m' = if n <=? 0 then map_delete (mm_refs m) (sb_filter s) else map_set (mm_refs m) (sb_filter s) n) →
  books m'.
Proof.
  intros [Hnext Hsubs Hent Hrefs Hcounts Hpos Hlim] Hg Hs Hn Hr. cbv zeta in Hr.
  pose proof (count_filter_pos _ _ _ _ Hg eq_refl) as Hc. rewrite <- Hcounts in Hc.
  destruct (map_get (mm_refs m) (sb_filter s)) as [n|] eqn:En; [|cbn in Hc; lia]. change (default 1 (Some n)) with n in Hr. change (default 0 (Some n)) with n in Hc.
  pose proof (Hcounts (sb_filter s)) as Hcs. rewrite En in Hcs. cbn in Hcs.
  assert (∀ P, Z.of_nat (length (List.filter (λ e, P e.2) (mm_subs m'))) =
    Z.of_nat (length (List.filter (λ e, P e.2) (mm_subs m))) - (if P s then 1 else 0)) as HP.
  { intros P. rewrite Hs. by apply count_delete. }
  split; rewrite ?Hn; try done.
  - rewrite Hs. by apply map_delete_ok.
  - rewrite Hs. by apply map_delete_Forall.
  - rewrite Hr. destruct (_ <=? _); [by apply map_delete_ok | by apply map_set_ok].
  - intros f. unfold count_filter. pose proof (HP (λ s, bool_decide (sb_filter s = f))) as HPf. cbv beta in HPf. rewrite HPf. specialize (Hcounts f). unfold count_filter in Hcounts, Hcs.
    rewrite <- Hcounts. rewrite Hr. destruct (decide (sb_filter s = f)) as [<-|Hf].
    + rewrite bool_decide_true by done. rewrite En. destruct (n - 1 <=? 0) eqn:E; [rewrite map_get_delete | rewrite map_get_set];
        rewrite decide_True by done; cbn; lia.
    + rewrite bool_decide_false by done. destruct (n - 1 <=? 0); [rewrite map_get_delete | rewrite map_get_set]; rewrite decide_False by done; lia.
  - intros f x. rewrite Hr. destruct (n - 1 <=? 0) eqn:E; [rewrite map_get_delete | rewrite map_get_set].
    + destruct (decide _); [done | apply Hpos].
    + destruct (decide _); [intros [= <-]; lia | apply Hpos].
  - intros p. unfold count_plugin. pose proof (HP (λ s, bool_decide (sb_plugin s = p))) as HPp. cbv beta in HPp. rewrite HPp. specialize (Hlim p). unfold count_plugin in Hlim.
    destruct (bool_decide _); lia.
Qed.

Record removed (keys : list jstr) (m m' : manager) (fx : list manager_effect) : Prop := {
  re_books : books m';
  re_cfg : mm_cfg m' = mm_cfg m;
  re_subs e : e ∈ mm_subs m' ↔ e ∈ mm_subs m ∧ e.1 ∉ keys;
  re_harmless : Forall harmless fx }.

Lemma unsubscribe_control f c : Forall (asks control) (unsubscribe f c).2.
Proof. apply request_asks. intros id b E. res_inv. by apply control_packet. Qed.

Lemma removeSub_removed m now key : books m → removed [key] m (removeSub now key m).1 (removeSub now key m).2.
Proof.
  intros Hb. unfold removeSub. destruct (map_get (mm_subs m) key) as [s|] eqn:Hg.
  2:{ split; [done | done | | constructor]. intros e. cbn. split; [|tauto]. intros He. split; [done |].
      intros Ek%list_elem_of_singleton. apply map_get_None in Hg. apply Hg. rewrite <- Ek. apply list_elem_of_fmap. by exists e. }
  assert (∀ m' fx, same (g_subs (map_delete (mm_subs m) key)
     (let n := default 1 (map_get (mm_refs m) (sb_filter s)) - 1 in
      if n <=? 0 then map_delete (mm_refs m) (sb_filter s) else map_set (mm_refs m) (sb_filter s) n) (mm_nextId m) m) m' →
     Forall harmless fx → removed [key] m m' fx) as Hrem.
  { intros m' fx Hsame Hfx. destruct Hsame as (Hc & Hs & Hr & Hn). cbn in Hc, Hs, Hr, Hn. split; [|done| |done].
    - by eapply books_delete.
    - intros e. rewrite Hs, map_delete_elem. set_solver. }
  destruct (_ <=? 0) eqn:E; [|apply Hrem; [by unfold same; cbn; rewrite E | constructor]].
  rewrite mthen_fst, mthen_snd. cbn [mset fst snd app].
  set (m1 := g_subs _ _ _ m).
  assert (same (g_subs (map_delete (mm_subs m) key) (let n := default 1 (map_get (mm_refs m) (sb_filter s)) - 1 in
      if n <=? 0 then map_delete (mm_refs m) (sb_filter s) else map_set (mm_refs m) (sb_filter s) n) (mm_nextId m) m) m1) as H1.
  { unfold same, m1; cbn. by rewrite E. }
  destruct (mm_client m1) as [k|]; [|by apply Hrem]. destruct (connected m1); [|by apply Hrem].
  apply Hrem.
  - eapply same_trans; [done |]. apply (request_then_quiet m1). intros c. apply unsubscribe_sends.
  - eapply Forall_impl; [apply request_then_sent, unsubscribe_control |]. apply sent_harmless.
Qed.

Lemma remove_all_removed keys : ∀ m now, books m → removed keys m (remove_all now keys m).1 (remove_all now keys m).2.
Proof.
  induction keys as [|key keys IH]; intros m now Hb; cbn [remove_all].
  { split; [done | done | | constructor]. set_solver. }
  rewrite mthen_fst, mthen_snd. destruct (removeSub_removed m now key Hb) as [Hb1 Hc1 Hs1 Hh1].
  destruct (IH (removeSub now key m).1 now Hb1) as [Hb2 Hc2 Hs2 Hh2]. split; [done | congruence | | by apply Forall_app_2].
  intros e. rewrite Hs2, Hs1. set_solver.
Qed.

(** ** A new subscription *)

Lemma sub_key_id p q a b : 0 ≤ a → 0 ≤ b → sub_key p (show_Z a) = sub_key q (show_Z b) → a = b.
Proof.
  intros Ha Hb E. unfold sub_key in E. change (js "#") with [35] in E.
  assert (∀ n, 0 ≤ n → 35 ∉ reverse (show_Z n)) as Hn.
  { intros n Hn. destruct (show_Z_spec n Hn) as [Hd _]. rewrite elem_of_reverse. intros Hin.
    eapply Forall_forall in Hin; [|done]. cbn in Hin. lia. }
  apply (f_equal reverse) in E. rewrite !reverse_app in E. rewrite <- !app_assoc in E.
  apply app_sep_inj in E as [E _]; [|by apply Hn..]. apply (f_equal reverse) in E. rewrite !reverse_involutive in E.
  by apply show_Z_inj.
Qed.

Lemma new_key m p : books m → sub_key p (show_Z (mm_nextId m + 1)) ∉ (mm_subs m).*1.
Proof.
  intros [Hnext _ Hent _ _ _ _] ([key s] & Hk & He)%list_elem_of_fmap.
  eapply Forall_forall in He; [|done]. destruct He as (Hkey & Hid & _). cbn in Hk, Hkey, Hid. rewrite Hkey in Hk.
  apply sub_key_id in Hk; lia.
Qed.

Lemma mine_count m p : mine m p = count_plugin p (mm_subs m).
Proof.
  unfold mine, count_plugin. f_equal. induction (mm_subs m) as [|[k s] l IH]; [done |]. cbn.
  destruct (bool_decide _); cbn; by rewrite IH.
Qed.

Lemma books_insert m p f c m' :
  books m → validFilter f = true → mine m p < LIMITS.mqttSubscriptionsPerPlugin →
  (let id := mm_nextId m + 1 in
   mm_subs m' = mm_subs m ++ [(sub_key p (show_Z id), Sub p id f c)] ∧
   mm_refs m' = map_set (mm_refs m) f (default 0 (map_get (mm_refs m) f) + 1) ∧ mm_nextId m' = id) →
  books m'.
Proof.
  intros Hb Hf Hm (Hs & Hr & Hn). pose proof (new_key m p Hb) as Hnew. destruct Hb as [Hnext Hsubs Hent Hrefs Hcounts Hpos Hlim].
  rewrite mine_count in Hm.
  assert (∀ P, Z.of_nat (length (List.filter (λ e, P e.2) (mm_subs m'))) =
    Z.of_nat (length (List.filter (λ e, P e.2) (mm_subs m))) + (if P (Sub p (mm_nextId m + 1) f c) then 1 else 0)) as HP.
  { intros P. rewrite Hs. apply count_snoc. }
  split; rewrite ?Hn; [lia | | | | | |].
  - rewrite Hs. unfold map_ok. rewrite fmap_app. apply NoDup_app. split_and!; [done | set_solver | apply NoDup_singleton].
  - rewrite Hs. apply Forall_app_2.
    + eapply Forall_impl; [done |]. unfold entry_ok. intros e (? & ? & ?). split_and!; [done | lia.. | done].
    + repeat constructor; cbn; [lia.. | done].
  - rewrite Hr. by apply map_set_ok.
  - intros g. unfold count_filter. pose proof (HP (λ s, bool_decide (sb_filter s = g))) as HPg. cbv beta in HPg. rewrite HPg.
    specialize (Hcounts g) as Hg. unfold count_filter in Hg. rewrite <- Hg, Hr, map_get_set. cbn [sb_filter].
    destruct (decide (g = f)) as [->|Hfg]; [rewrite bool_decide_true by done; done |].
    rewrite bool_decide_false by done. lia.
  - intros g x. rewrite Hr, map_get_set. destruct (decide _); [|apply Hpos]. intros [= <-].
    specialize (Hcounts f). unfold count_filter in Hcounts. lia.
  - intros q. unfold count_plugin. pose proof (HP (λ s, bool_decide (sb_plugin s = q))) as HPq. cbv beta in HPq. rewrite HPq.
    specialize (Hlim q) as Hq. unfold count_plugin in Hq, Hm. cbn [sb_plugin].
    destruct (decide (p = q)) as [<-|Hpq]; [rewrite bool_decide_true by done; lia | rewrite bool_decide_false by done; lia].
Qed.

Lemma existsb_spec {A} (f : A → bool) l : existsb f l = true ↔ ∃ x, x ∈ l ∧ f x = true.
Proof.
  rewrite existsb_exists. split; intros (x & Hx & Hf); exists x; (split; [by apply list_elem_of_In | done]).
Qed.

Section Steps.
Context `{Node} `{Numbers} (account_ : login) (brokerDir internalHash : jstr).
Abbreviation step := (manager_step account_ brokerDir internalHash).

Lemma ensureClient_quiet m : quiet m (ensureClient account_).
Proof. unfold ensureClient, quiet. case_match; by repeat constructor. Qed.

Lemma client_event_quiet m now k i : quiet m (client_event now k i).
Proof.
  unfold quiet, client_event. destruct (mm_clients m !! k) as [c|]; [|by repeat constructor].
  change (quiet m (on_client now k (client_step i) ⨾ after_connect now k (client_step i c).2)).
  apply quiet_then.
  { apply on_client_quiet. intros d. eapply Forall_impl; [apply client_step_writes |]. intros []; cbn; auto using control_sendable. }
  generalize (on_client now k (client_step i) m).1. intros m'. unfold after_connect.
  destruct (List.filter _ _) as [|[] ?]; try apply quiet_skip.
  - unfold client_connected. apply quiet_then; [by apply quiet_do; repeat constructor |].
    apply request_then_quiet. intros d. apply subscribe_sends. auto.
  - apply (quiet_then m'); [by apply quiet_set | apply scheduleRetry_quiet].
Qed.

Lemma retry_timer_quiet m : quiet m (retry_timer account_).
Proof.
  unfold quiet, retry_timer. destruct (mm_retry m); [|by repeat constructor].
  apply (quiet_then m); [by apply quiet_set |]. destruct (mq_enabled _); [apply ensureClient_quiet | apply quiet_skip].
Qed.

Lemma end_sends refs c : Forall (writes (sendable refs)) (end_ c).2.
Proof. unfold end_. rewrite mthen_snd. cbn. destruct (mc_sock c); by repeat constructor. Qed.

Lemma stopClient_quiet m now : quiet m (stopClient now).
Proof.
  apply (quiet_then m (mset (g_client None false))); [by apply quiet_set |].
  apply (quiet_then _ (match mm_client m with Some k => on_client now k end_ | None => mskip end)).
  - destruct (mm_client m); [|apply quiet_skip]. apply on_client_quiet, end_sends.
  - by apply quiet_set.
Qed.

(** The plugin subscribes: it is refused, or it has a new subscription. *)
Lemma call_subscribe_cases m now n p c topic :
  quiet m (call_subscribe now n p c topic) ∨
  ∃ f, topic = Some (JStr f) ∧ validFilter f = true ∧ existsb (λ a, covers a f) (allowedFor (mm_cfg m) p c) = true ∧
    mine m p < LIMITS.mqttSubscriptionsPerPlugin ∧
    let r := call_subscribe now n p c topic m in
    same (g_subs (map_set (mm_subs m) (sub_key p (show_Z (mm_nextId m + 1))) (Sub p (mm_nextId m + 1) f c))
            (map_set (mm_refs m) f (default 0 (map_get (mm_refs m) f) + 1)) (mm_nextId m + 1) m) r.1 ∧
    Forall (usual (mm_subs r.1) (mm_refs r.1)) r.2.
Proof.
  unfold quiet, call_subscribe. destruct topic as [[| | |f| |]|]; try (by left; split; [done | repeat constructor]).
  destruct (negb (validFilter f) || _) eqn:E1; [by left; split; [done | repeat constructor] |].
  apply orb_false_iff in E1 as [Hf Ha]. apply negb_false_iff in Hf, Ha.
  destruct (_ <=? mine m p) eqn:E2; [by left; split; [done | repeat constructor] |].
  right. exists f. do 4 (split; [done || lia |]). cbv zeta. rewrite mthen_fst, mthen_snd. cbn [mset fst snd app].
  set (m1 := g_subs _ _ _ m).
  assert (∀ g, quiet m1 g → same m1 (g m1).1 ∧ Forall (usual (mm_subs (g m1).1) (mm_refs (g m1).1)) (g m1).2) as Hq.
  { intros g [Hs Hfx]. split; [done |]. by destruct Hs as (_ & -> & -> & _). }
  destruct (mm_client m) as [k|]; [destruct (_ && _)|]; apply Hq; try by apply quiet_do; repeat constructor.
  apply request_then_quiet. intros d. apply subscribe_sends. left. cbn. rewrite map_set_keys. case_decide; set_solver.
Qed.

(** ** Every step *)

(** A PUBLISH that a call asked for whose topic is valid and allowed. *)
Definition published (cfg : mqtt) (i : manager_input) (b : list Z) : Prop :=
  ∃ now n p c args t payload qos retain id, i = Call now n p c (js "mqtt.publish") args ∧
    field args (js "topic") = Some (JStr t) ∧ validTopic t = true ∧
    existsb (λ a, matches a t) (allowedFor cfg p c) = true ∧ publishPacket t payload qos retain id = Ok b.
Definition out (cfg : mqtt) (i : manager_input) (subs : list (jstr * sub)) (refs : list (jstr * Z)) (x : manager_effect) : Prop :=
  match x with
  | OfClient _ (Write b) => (kind b = T.PUBLISH → published cfg i b) ∧ (kind b = T.SUBSCRIBE → subscribe_of refs b)
  | _ => usual subs refs x
  end.
Lemma usual_out cfg i subs refs x : usual subs refs x → out cfg i subs refs x.
Proof. destruct x as [k []| | | | | |]; cbn; tauto. Qed.

Record good (hist : list manager_input) (i : manager_input) (m m' : manager) (fx : list manager_effect) : Prop := {
  gd_books : books m';
  gd_approved : approved (hist ++ [i]) m';
  gd_out : Forall (out (mm_cfg m) i (mm_subs m') (mm_refs m')) fx }.

Lemma approved_same hist m m' : same m m' → approved hist m → approved hist m'.
Proof. intros (Hc & Hs & _ & _) []. split; rewrite ?Hc, ?Hs; done. Qed.

Lemma good_quiet hist i m f : books m → approved (hist ++ [i]) m → quiet m f → good hist i m (f m).1 (f m).2.
Proof.
  intros Hb Ha [Hs Hfx]. split; [by eapply books_same | by eapply approved_same |].
  destruct Hs as (_ & -> & -> & _). eapply Forall_impl; [done |]. intros. by apply usual_out.
Qed.

Lemma good_then hist i m f g :
  good hist i m (f m).1 (f m).2 → quiet (f m).1 g → good hist i m ((f ⨾ g) m).1 ((f ⨾ g) m).2.
Proof.
  intros [Hb Ha Ho] Hq. rewrite mthen_fst, mthen_snd.
  destruct (good_quiet hist i (f m).1 g Hb Ha Hq) as [Hb2 Ha2 _]. destruct Hq as [(_ & Hs & Hr & _) Hfx].
  split; [done.. |]. rewrite Hs, Hr. apply Forall_app_2; [done |].
  eapply Forall_impl; [done |]. intros. by apply usual_out.
Qed.

Lemma grants_snoc hist i t : t ∈ grants hist → t ∈ grants (hist ++ [i]).
Proof. unfold grants. rewrite omap_app. set_solver. Qed.
Lemma subscribed_snoc hist i s : subscribed_by hist s → subscribed_by (hist ++ [i]) s.
Proof.
  intros (now & n & args & Hin & Ha & t & Ht & Hg). exists now, n, args. split_and!; [set_solver | done |].
  exists t. split; [by apply grants_snoc | done].
Qed.

Lemma approved_snoc hist i m : (∀ w cfg, i ≠ Apply w cfg) → approved hist m → approved (hist ++ [i]) m.
Proof.
  intros Hi [Hc Hs Hf]. split.
  - by apply grants_snoc.
  - eapply Forall_impl; [done |]. intros. by apply subscribed_snoc.
  - unfold fresh. rewrite fold_left_app. destruct i; try done. by edestruct Hi.
Qed.

Record refreshed (m m' : manager) (w : surroundings) (fx : list manager_effect) : Prop := {
  rf_books : books m';
  rf_cfg : mm_cfg m' = mm_cfg m;
  rf_subs e : e ∈ mm_subs m' → e ∈ mm_subs m;
  rf_granted : mq_enabled (mm_cfg m) = true → sr_available w = true → ∀ e, e ∈ mm_subs m' → granted (mm_cfg m) e.2 = true;
  rf_harmless : Forall harmless fx }.

Abbreviation refresh_ := (refresh brokerDir internalHash).
Lemma refresh_spec m w : books m → refreshed m (refresh_ w m).1 w (refresh_ w m).2.
Proof.
  intros Hb. unfold refresh. destruct (negb _ || negb _) eqn:E.
  { split; [done.. | | constructor]. intros He Hw. by rewrite He, Hw in E. }
  destruct (write_files _ _ _ _ _ _ _ _ _) as [f r]. rewrite !mthen_fst, !mthen_snd. cbn [mdo mset fst snd app].
  set (m1 := g_files _ _ _ m). set (keys := (List.filter _ _).*1).
  assert (books m1) as Hb1 by (by apply (books_same m)).
  destruct (remove_all_removed keys m1 (sr_now w) Hb1) as [Hb2 Hc2 Hs2 Hh2]. split; [done | done | | |].
  - intros e. rewrite Hs2. by intros [].
  - intros _ _ e He. apply Hs2 in He as [He Hk]. change (mm_subs m1) with (mm_subs m) in He.
    destruct (granted (mm_cfg m) e.2) eqn:Eg; [done |]. exfalso. apply Hk. unfold keys.
    apply list_elem_of_fmap. exists e. split; [done |].
    apply list_elem_of_In, List.filter_In. rewrite Eg. split; [by apply list_elem_of_In | done].
  - apply Forall_app_2; [|done]. destruct (wr_confChanged r || _); [|constructor]. destruct (lanAddresses _); by repeat constructor.
Qed.

Lemma harmless_out cfg i subs refs fx : Forall harmless fx → Forall (out cfg i subs refs) fx.
Proof. intros H'. eapply Forall_impl; [done |]. intros. by apply usual_out, harmless_usual. Qed.

Lemma refresh_good hist i m w :
  (∀ w cfg, i ≠ Apply w cfg) → books m → approved hist m → good hist i m (refresh_ w m).1 (refresh_ w m).2.
Proof.
  intros Hi Hb Ha%(approved_snoc hist i); [|done]. destruct (refresh_spec m w Hb) as [Hb2 Hc Hs _ Hh].
  split; [done | | by apply harmless_out]. destruct Ha as [Ac As Af].
  split; [by rewrite Hc | |].
  - apply Forall_forall. intros e He%Hs. by eapply Forall_forall in As.
  - intros Hf. apply Forall_forall. intros e He%Hs. rewrite Hc. specialize (Af Hf). by eapply Forall_forall in Af.
Qed.

Lemma apply_good hist m w cfg : books m → approved hist m →
  let r := apply account_ brokerDir internalHash w cfg m in good hist (Apply w cfg) m r.1 r.2.
Proof.
  intros Hb Ha. cbv zeta. unfold apply. rewrite mthen_fst, mthen_snd. cbn [mset fst snd app].
  set (m1 := g_cfg cfg m). assert (books m1) as Hb1 by (by destruct Hb; split).
  assert (∀ m2, mm_cfg m2 = cfg → (∀ e, e ∈ mm_subs m2 → e ∈ mm_subs m) →
    (mq_enabled cfg && sr_available w = true → ∀ e, e ∈ mm_subs m2 → granted cfg e.2 = true) →
    approved (hist ++ [Apply w cfg]) m2) as Hap.
  { intros m2 Hc Hs Hg. destruct Ha as [_ As _]. split.
    - rewrite Hc. unfold grants. rewrite omap_app. cbn. set_solver.
    - apply Forall_forall. intros e He%Hs. apply subscribed_snoc. by eapply Forall_forall in As.
    - unfold fresh. rewrite fold_left_app. cbn. intros Hf. apply Forall_forall. intros e He. rewrite Hc. by apply Hg. }
  assert (∀ f, quiet m1 f → mq_enabled cfg && sr_available w = false → good hist (Apply w cfg) m (f m1).1 (f m1).2) as Hq.
  { intros f Hf E. destruct (good_quiet hist (Apply w cfg) m1 f Hb1) as [? ? Ho]; [|done|].
    - apply Hap; [done.. | by rewrite E].
    - split; [done.. |]. eapply Forall_impl; [apply Ho |]. intros x. destruct x as [k []| | | | | |]; cbn; try done.
      intros [Hp ?]. split; [|done]. intros Hx. by destruct (Hp Hx) as (? & ? & ? & ? & ? & ? & ? & ? & ? & ? & ? & _). }
  destruct (negb _ || negb _) eqn:E.
  - apply Hq; [|by destruct (mq_enabled cfg), (sr_available w)].
    apply (quiet_then m1); [by apply quiet_set |]. apply quiet_then; [apply stopClient_quiet | by apply quiet_do; repeat constructor].
  - apply orb_false_iff in E as [He%negb_false_iff Hw%negb_false_iff].
    destruct (refresh_spec m1 w Hb1) as [Hb2 Hc Hs Hg Hh].
    apply (good_then hist (Apply w cfg) m (λ _, refresh_ w m1)); [|apply ensureClient_quiet].
    split; [done | | by apply harmless_out]. apply Hap; [done.. |]. intros _. by apply Hg.
Qed.

(** ** Calls *)

Lemma hear_all_same fx : ∀ m now k, same m (hear_all now k fx m).1.
Proof.
  induction fx as [|x fx IH]; intros m now k; cbn [hear_all]; [done |]. rewrite mthen_fst. eapply same_trans; [|apply IH].
  destruct x; [done | by apply hear_quiet..].
Qed.
Lemma request_then_same m now k f go : same m (request_then now k f go m).1.
Proof.
  unfold request_then. destruct (mm_clients m !! k); [|done]. rewrite mthen_fst. cbn [mset fst]. unfold on_client.
  destruct (mm_clients _ !! k) as [d|]; [|done]. destruct (f d) as [e fx]. rewrite mthen_fst.
  eapply same_trans; [|apply hear_all_same]. done.
Qed.

Definition publish_of (t : jstr) (b : list Z) : Prop :=
  kind b = T.PUBLISH ∧ ∃ payload qos retain id, publishPacket t payload qos retain id = Ok b.
Lemma publish_asks t payload qos retain c : Forall (asks (publish_of t)) (publish t payload (if qos : bool then 1 else 0) retain c).2.
Proof.
  assert (∀ q id b, 0 ≤ q ≤ 1 → publishPacket t payload q retain id = Ok b → publish_of t b) as Hp.
  { intros q id b Hq E. split; [|by exists payload, q, retain, id]. unfold publishPacket in E. res_inv. apply kind_packet; [done |].
    assert (q = 0 ∨ q = 1) as [-> | ->] by lia; by destruct retain. }
  unfold publish. destruct qos; cbn [Z.eqb Pos.eqb].
  - apply request_asks. intros id b. by apply Hp.
  - rewrite !mthen_snd. cbn [mset mdo snd app]. destruct (_ || _); [by repeat constructor |].
    destruct (publishPacket _ _ _ _ _) eqn:E; [constructor; [by eapply Hp | by repeat constructor] | by repeat constructor..].
Qed.

Lemma call_publish_good hist now n p c args m :
  let i := Call now n p c (js "mqtt.publish") args in
  books m → approved (hist ++ [i]) m → good hist i m (call_publish now n p c args m).1 (call_publish now n p c args m).2.
Proof.
  intros i Hb Ha.
  assert (∀ fx, Forall harmless fx → good hist i m m fx) as Hno by (intros; split; [done.. | by apply harmless_out]).
  unfold call_publish. destruct (field args (js "topic")) as [[| | |t| |]|] eqn:Et; try (by apply Hno; repeat constructor).
  destruct (negb (validTopic t) || _) eqn:E1; [by apply Hno; repeat constructor |].
  apply orb_false_iff in E1 as [Hv%negb_false_iff Hal%negb_false_iff].
  destruct (_ <? blen _); [by apply Hno; repeat constructor |].
  destruct (mm_client m) as [k|]; [|by apply Hno; repeat constructor].
  destruct (negb (connected m)); [by apply Hno; repeat constructor |].
  match goal with |- good _ _ _ (request_then _ _ ?f ?go _).1 _ => pose proof (request_then_same m now k f go) as Hs;
    assert (Forall (sent k (publish_of t)) (request_then now k f go m).2) as Hfx by (apply request_then_sent; intros; apply publish_asks) end.
  split; [by eapply books_same | by eapply approved_same |].
  eapply Forall_impl; [exact Hfx |]. intros x (b & -> & Hk & payload & qos & retain & id & Hpk). cbn. split.
  - intros _. by exists now, n, p, c, args, t, payload, qos, retain, id.
  - rewrite Hk. done.
Qed.

Lemma removed_good hist i m keys m' fx :
  approved (hist ++ [i]) m → removed keys m m' fx → good hist i m m' fx.
Proof.
  intros [Hc Hs Hf] [Hb Hcfg Hsub Hh]. split; [done | | by apply harmless_out]. split; rewrite ?Hcfg; [done | |].
  - apply Forall_forall. intros e [He _]%Hsub. by eapply Forall_forall in Hs.
  - intros Hfr. apply Forall_forall. intros e [He _]%Hsub. specialize (Hf Hfr). by eapply Forall_forall in Hf.
Qed.

Lemma call_subscribe_good hist now n p c args m :
  let i := Call now n p c (js "mqtt.subscribe") args in
  let r := call_subscribe now n p c (field args (js "topic")) m in
  books m → approved (hist ++ [i]) m → good hist i m r.1 r.2.
Proof.
  intros i r Hb Ha. destruct (call_subscribe_cases m now n p c (field args (js "topic"))) as [Hq | (f & Ht & Hf & Hal & Hm & Hs & Hfx)].
  { by apply good_quiet. }
  fold r in Hs, Hfx. rewrite map_set_new in Hs by (by apply new_key).
  split; [| |by eapply Forall_impl; [exact Hfx |]; intros; apply usual_out].
  - destruct Hs as (_ & Hs & Hr & Hn). cbn in Hs, Hr, Hn. by eapply books_insert.
  - eapply approved_same; [exact Hs |]. destruct Ha as [Ac As Af].
    assert (granted (mm_cfg m) (Sub p (mm_nextId m + 1) f c) = true) as Hg by exact Hal.
    split; cbn; [done | |].
    + apply Forall_app_2; [done |]. repeat constructor. cbn. exists now, n, args. split_and!; [set_solver | done |].
      exists (mq_pluginTopics (mm_cfg m)). split; [done | by rewrite <- granted_topics].
    + intros Hfr. apply Forall_app_2; [by apply Af |]. by repeat constructor.
Qed.

Lemma pluginCall_good hist now n p c api args m :
  let i := Call now n p c api args in
  books m → approved hist m → good hist i m (pluginCall now n p c api args m).1 (pluginCall now n p c api args m).2.
Proof.
  intros i Hb Ha%(approved_snoc hist i); [|done].
  assert (∀ fx, Forall harmless fx → good hist i m m fx) as Hno by (intros; split; [done.. | by apply harmless_out]).
  unfold pluginCall. destruct (negb _); [by apply Hno; repeat constructor |].
  destruct (bool_decide (api = js "mqtt.subscribe")) eqn:E1.
  { apply bool_decide_eq_true in E1 as ->. by apply call_subscribe_good. }
  destruct (bool_decide (api = js "mqtt.unsubscribe")) eqn:E2.
  { destruct (match field args (js "id") with Some v => String_ v | None => Ok (js "undefined") end) as [id|e|];
      [|by apply Hno; repeat constructor..].
    rewrite mthen_fst, mthen_snd. cbn [mdo fst snd].
    destruct (removed_good hist i m [sub_key p id] _ _ Ha (removeSub_removed m now (sub_key p id) Hb)).
    split; [done.. |]. apply Forall_app_2; [done |]. by repeat constructor. }
  destruct (bool_decide (api = js "mqtt.publish")) eqn:E3; [|by apply Hno; repeat constructor].
  apply bool_decide_eq_true in E3 as ->. by apply call_publish_good.
Qed.

Lemma stop_manager_good hist now m : books m → approved hist m →
  good hist (StopManager now) m (stop_manager now m).1 (stop_manager now m).2.
Proof.
  intros Hb Ha%(approved_snoc hist (StopManager now)); [|done]. unfold stop_manager. rewrite mthen_fst, mthen_snd. cbn [mset fst snd app].
  set (m1 := g_cfg _ m). assert (books m1) as Hb1 by (by destruct Hb; split).
  assert (approved (hist ++ [StopManager now]) m1) as Ha1 by (by destruct Ha; split).
  destruct (good_quiet hist (StopManager now) m1 (stopClient now) Hb1 Ha1 (stopClient_quiet m1 now)) as [? ? Ho].
  split; [done.. |]. eapply Forall_impl; [exact Ho |]. intros x. destruct x as [k []| | | | | |]; done.
Qed.

Lemma manager_step_good hist i m : books m → approved hist m → good hist i m (step i m).1 (step i m).2.
Proof.
  intros Hb Ha. assert (∀ f now, good hist i m (f m).1 (f m).2 → good hist i m ((f ⨾ settle_all now) m).1 ((f ⨾ settle_all now) m).2) as Hsettle.
  { intros f now Hf. apply good_then; [done | apply drain_quiet]. }
  assert (∀ f, (∀ w cfg, i ≠ Apply w cfg) → quiet m f → good hist i m (f m).1 (f m).2) as Hq.
  { intros f Hi Hf. apply good_quiet; [done | by apply approved_snoc | done]. }
  destruct i; cbn [manager_step].
  - by apply Hsettle, apply_good.
  - by apply Hsettle, refresh_good.
  - by apply Hq, retry_timer_quiet.
  - by apply Hsettle, pluginCall_good.
  - apply Hsettle. unfold dropPlugin. eapply removed_good; [by apply approved_snoc | by apply remove_all_removed].
  - apply Hsettle. by apply Hq, client_event_quiet.
  - by apply Hsettle, stop_manager_good.
Qed.

Lemma books_newManager : books newManager.
Proof. split; try done; constructor. Qed.

Lemma run_good inputs : let m := (mrun step inputs newManager).1 in books m ∧ approved inputs m.
Proof.
  apply (mrun_history step (λ hist m, books m ∧ approved hist m) (λ _ _, True)).
  - split; [apply books_newManager |]. split; [by left | constructor | constructor].
  - intros hist i m [Hb Ha]. destruct (manager_step_good hist i m Hb Ha). split; [done |]. by apply Forall_true.
Qed.

(** ** What a grant lets through *)

Definition input_ok (i : manager_input) : Prop :=
  match i with Call _ _ _ c _ _ => caps_ok c | Apply _ cfg => mqtt_ok cfg | _ => True end.

Definition by_caps (c : caps) (topic : jstr) : Prop := ∃ a, a ∈ default [] (c_mqtt c) ∧ matches a topic = true.
Definition by_grant (t : list (jstr * list jstr)) (p topic : jstr) : Prop := ∃ g, g ∈ default [] (map_get t p) ∧ matches g topic = true.

Lemma own_filters c a : caps_ok c → a ∈ default [] (c_mqtt c) → validPluginFilter a = true.
Proof.
  intros [_ _ Hm _] Ha. destruct (c_mqtt c) as [l|]; [|by apply elem_of_nil in Ha]. destruct (Hm l eq_refl) as (Hv & _ & _).
  by eapply Forall_forall in Hv.
Qed.
Lemma granted_filters t p g : Forall topics_ok t → g ∈ default [] (map_get t p) → validPluginFilter g = true.
Proof.
  intros Ht Hg. destruct (map_get t p) as [l|] eqn:E; [|by apply elem_of_nil in Hg].
  apply map_get_elem in E. eapply Forall_forall in Ht; [|done]. destruct Ht as [_ (Hv & _ & _)]. by eapply Forall_forall in Hv.
Qed.

Lemma allowed_spec cfg p c a :
  a ∈ allowedFor cfg p c → a ∈ default [] (c_mqtt c) ∧ ∃ g, g ∈ default [] (map_get (mq_pluginTopics cfg) p) ∧ covers g a = true.
Proof.
  intros [Ha Hg]%list_elem_of_In%List.filter_In. split; [by apply list_elem_of_In |]. by apply existsb_spec in Hg.
Qed.

Lemma allowed_matches cfg p c a topic :
  caps_ok c → Forall topics_ok (mq_pluginTopics cfg) → a ∈ allowedFor cfg p c → matches a topic = true →
  by_caps c topic ∧ by_grant (mq_pluginTopics cfg) p topic.
Proof.
  intros Hc Ht (Ha & g & Hg & Hcov)%allowed_spec Hm. split; [by exists a |].
  exists g. split; [done |]. eapply covers_matches; [by eapply granted_filters | done | done].
Qed.

Lemma granted_matches t s topic :
  caps_ok (sb_caps s) → Forall topics_ok t → granted (with_topics t) s = true → matches (sb_filter s) topic = true →
  by_caps (sb_caps s) topic ∧ by_grant t (sb_plugin s) topic.
Proof.
  intros Hc Ht (a & Ha & Hcov)%existsb_spec Hm. apply (allowed_matches (with_topics t) _ _ a); [done.. |].
  apply allowed_spec in Ha as [Ha _]. eapply covers_matches; [by eapply own_filters | done | done].
Qed.

Lemma grants_ok hist t : (∀ j, j ∈ hist → input_ok j) → t ∈ grants hist → Forall topics_ok t.
Proof.
  intros Hok [-> | (j & Hj & Ht)%list_elem_of_omap]%elem_of_cons; [constructor |]. specialize (Hok j Hj).
  destruct j; try done. injection Ht as <-. by destruct Hok.
Qed.

(** What an effect of input [i] may be, after the inputs [hist]. *)
Definition permitted (hist : list manager_input) (cfg : mqtt) (i : manager_input) (m : manager) (x : manager_effect) : Prop :=
  match x with
  | ToPlugin p _ topic _ _ _ =>
      ∃ now n c args f, Call now n p c (js "mqtt.subscribe") args ∈ hist ∧ field args (js "topic") = Some (JStr f) ∧
        matches f topic = true ∧ by_caps c topic ∧ (∃ t, t ∈ grants hist ∧ by_grant t p topic) ∧
        (fresh hist = true → by_grant (mq_pluginTopics (mm_cfg m)) p topic)
  | OfClient _ (Write b) =>
      (kind b = T.PUBLISH →
        ∃ now n p c args t payload qos retain id, i = Call now n p c (js "mqtt.publish") args ∧
          field args (js "topic") = Some (JStr t) ∧ validTopic t = true ∧ publishPacket t payload qos retain id = Ok b ∧
          by_caps c t ∧ by_grant (mq_pluginTopics cfg) p t) ∧
      (kind b = T.SUBSCRIBE → subscribe_of (mm_refs m) b)
  | _ => True
  end.

End Steps.

(** ** Runs *)

Definition sample_login : login := Login (js "gc") (js "gc-edge") (js "x") 30.
Definition sample_around : surroundings := Surroundings 1000 true [(js "eth0", [IfAddr true false (js "255.255.255.0") (js "192.168.1.2")])] None.
Definition sample_cfg : mqtt := Mqtt true false [] [(js "lamp", [js "home/#"]); (js "tv", [js "home/#"])].
Definition sample_topics : caps := Caps None None None None (Some [js "home/+/state"]) None.
Definition ask (n : nat) (p api : jstr) (topic : string) : manager_input :=
  Call 2000 n p sample_topics api [(js "topic", JStr (js topic))].
Definition ack (type id : Z) (codes : list Z) : manager_input := ClientEvent 1500 0 (SockData 1500 (packet type 0 (u16 id ++ codes))).
Definition connack : manager_input := ClientEvent 1500 0 (SockData 1500 (packet T.CONNACK 0 [0; 0])).
(** The broker is there and both of its own topics are subscribed to. *)
Definition started : list manager_input := [Apply sample_around sample_cfg; connack; ack T.SUBACK 1 [0]; ack T.SUBACK 2 [0]].
#[local] Instance sample_numbers : Numbers := {| number_text := λ _, [] |}.
Abbreviation sample_run is_ :=
  (@mrun _ _ _ (@manager_step (toy_node (λ _, None)) sample_numbers sample_login (js "/gc-mqtt") []) is_ newManager).
Definition message_of (topic : string) (payload : list Z) : manager_input :=
  match publishPacket (js topic) payload 0 false 0 with Ok b => ClientEvent 3000 0 (SockData 3000 b) | _ => RetryTimer end.
Definition heard (r : manager * list (manager_input * list manager_effect)) : list manager_effect :=
  match last r.2 with Some e => e.2 | None => [] end.

(** A plugin hears what it subscribed to. *)
Example sample_hears :
  heard (sample_run (started ++ [ask 1 (js "lamp") (js "mqtt.subscribe") "home/+/state"; ack T.SUBACK 3 [1]; message_of "home/kitchen/state" [1; 2]]))
  = [ToPlugin (js "lamp") 1 (js "home/kitchen/state") [1; 2] 0 false].
Proof. by vm_compute. Qed.

Lemma sample_cfg_ok : mqtt_ok sample_cfg.
Proof.
  split; cbn; [constructor | constructor | done |].
  repeat (constructor; [split; [by vm_compute | split; [repeat constructor | split; [apply NoDup_singleton | done]]] |]). constructor.
Qed.
Lemma sample_topics_ok : caps_ok sample_topics.
Proof.
  split; intros l E; cbn in E; try done. injection E as <-. split; [repeat constructor | split; [apply NoDup_singleton | done]].
Qed.


(** The broker refuses a subscription: the plugin gets an error and no number
    to end it with, yet the subscription stays; and the next plugin that wants
    the filter is told that it has it, while the broker is not asked again. *)
Lemma refused_subscription_stays :
  let refused := started ++ [ask 1 (js "lamp") (js "mqtt.subscribe") "home/+/state"; ack T.SUBACK 3 [128]] in
  heard (sample_run refused) = [Answer 1 (Throw "denied")] ∧ map_size (mm_subs (sample_run refused).1) = 1 ∧
  heard (sample_run (refused ++ [ask 2 (js "tv") (js "mqtt.subscribe") "home/+/state"])) = [Answer 2 (Ok (Some 2))].
Proof. by vm_compute. Qed.

(** A publication whose body is too short to hold the length of its topic is
    not caught where the bytes of the broker are read. *)
Lemma short_publication_uncaught :
  heard (sample_run (started ++ [ClientEvent 3000 0 (SockData 3000 (packet T.PUBLISH 0 [0]))])) = [OfClient 0 (UncaughtError out_of_range)].
Proof. by vm_compute. Qed.
