(* ===== verification/BrokerFacts.v ===== *)
(** * The broker reads what the server sent

    The texts of the accounts and of their topics, read line by line, are the
    accounts of the server's state: nothing in a name, a hash or a topic makes
    another line. *)

From S2P Require Import Prelude JsBuffer JsMap JsSet JsValues JsFloat LanInterfaces Topics Manifest ManifestFacts Protocol Mqtt Broker MqttManager.

Local Open Scope Z_scope.

(** ** Reading *)

(** The lines of a text that ends with a line feed. *)
Definition lines_of (text : jstr) : list jstr := removelast (split_on 10 text).

(** The topics in front of the first user, and the users with theirs. *)
Fixpoint read_acl (lines : list jstr) : list acl_entry * list (jstr * list acl_entry) :=
  match lines with
  | [] => ([], [])
  | l :: r =>
      let '(topics, users) := read_acl r in
      match after (js "user ") l with
      | Some u => ([], (u, topics) :: users)
      | None =>
          match after (js "topic ") l with
          | Some t => let '(access, rest) := span (λ c, negb (c =? 32)) t in (Acl access (drop 1 rest) :: topics, users)
          | None => (topics, users)
          end
      end
  end.
Definition read_passwd (lines : list jstr) : list (jstr * jstr) :=
  (λ l, let '(user, rest) := span (λ c, negb (c =? 58)) l in (user, drop 1 rest)) <$> lines.

(** ** Lemmas *)

Definition line_ok (l : jstr) : Prop := 10 ∉ l.

Lemma join_app_one sep l x : l ≠ [] → join sep (l ++ [x]) = join sep l ++ sep :: x.
Proof.
  induction l as [|y [|z l] IH]; intros Hl; [done | done |]. change (y ++ sep :: join sep ((z :: l) ++ [x]) = (y ++ sep :: join sep (z :: l)) ++ sep :: x).
  rewrite IH by done. by rewrite <- app_assoc.
Qed.

Lemma lines_file_text lines : lines ≠ [] → Forall line_ok lines → lines_of (file_text lines) = lines.
Proof.
  intros Hne Hl. unfold lines_of, file_text. rewrite <- join_app_one by done. rewrite split_on_join.
  - apply removelast_last.
  - by destruct lines.
  - apply Forall_app_2; [done |]. repeat constructor. set_solver.
Qed.

Lemma after_app p s : after p (p ++ s) = Some s.
Proof.
  unfold after. assert (starts_with p (p ++ s) = true) as -> by (apply starts_with_app; by exists s).
  by rewrite drop_app_length.
Qed.

Lemma span_stop (f : Z → bool) a c b : Forall (λ x, f x = true) a → f c = false → span f (a ++ c :: b) = (a, c :: b).
Proof. intros Ha Hc. induction Ha as [|x a Hx _ IH]; cbn; [by rewrite Hc |]. by rewrite Hx, IH. Qed.

Lemma span_sep f c b : (∀ x, f x = negb (x =? c)) → ∀ a, c ∉ a → span f (a ++ c :: b) = (a, c :: b).
Proof.
  intros Hf a Ha. apply span_stop; [|by rewrite Hf, Z.eqb_refl]. apply Forall_forall. intros x Hx. rewrite Hf.
  apply negb_true_iff, Z.eqb_neq. by intros ->.
Qed.

(** *** Topics *)

Definition acl_fits (a : acl_entry) : Prop := (32 ∉ acl_access a) ∧ line_ok (acl_access a) ∧ line_ok (acl_topic a).

Lemma filter_line f : validFilter f = true → line_ok f.
Proof.
  unfold validFilter, line_ok. destruct (_ || _); [done |]. destruct (existsb control_unit f) eqn:E; [done |]. intros _ Hin.
  apply existsb_Forall in E. eapply Forall_forall in E; [|exact Hin]. done.
Qed.
Lemma access_fits a : a ∈ ACCESS → (32 ∉ a) ∧ line_ok a.
Proof.
  unfold ACCESS, line_ok. intros (s & -> & Hs)%list_elem_of_fmap.
  repeat (apply elem_of_cons in Hs as [-> | Hs]; [vm_compute; set_solver |]). by apply elem_of_nil in Hs.
Qed.
Lemma text_line s : forallb (λ c, negb (c =? 10)) (js s) = true → line_ok (js s).
Proof. intros Hs%forallb_Forall Hin. by eapply Forall_forall in Hs; [|exact Hin]. Qed.
Lemma topic_line_ok a t : line_ok a → line_ok t → line_ok (topic_line a t).
Proof.
  unfold topic_line, line_ok. intros Ha Ht. rewrite !elem_of_app. intros [H|[H|[H|H]]]; try done; revert H; by apply text_line.
Qed.

Lemma acl_ok_fits a : acl_ok a → acl_fits a.
Proof. intros (Ha & Ht & _). destruct (access_fits _ Ha). split_and!; [done.. | by apply filter_line]. Qed.

Lemma read_topic a t r : acl_fits (Acl a t) → read_acl (topic_line a t :: r) = (Acl a t :: (read_acl r).1, (read_acl r).2).
Proof.
  intros (Ha & _). cbn [read_acl]. destruct (read_acl r) as [topics users].
  assert (after (js "user ") (topic_line a t) = None) as -> by done.
  unfold topic_line. rewrite after_app. change (js " " ++ t) with (32 :: t). rewrite (span_sep _ 32) by done. done.
Qed.

Lemma read_topics l r : Forall acl_fits l →
  read_acl (((λ a, topic_line (acl_access a) (acl_topic a)) <$> l) ++ r) = (l ++ (read_acl r).1, (read_acl r).2).
Proof.
  induction l as [|[a t] l IH]; intros Hl; cbn [fmap list_fmap app]; [by destruct (read_acl r) |]. inversion_clear Hl.
  cbn [acl_access acl_topic]. rewrite read_topic by done. by rewrite IH.
Qed.

Lemma read_user u r : read_acl ((js "user " ++ u) :: r) = ([], (u, (read_acl r).1) :: (read_acl r).2).
Proof. cbn [read_acl]. destruct (read_acl r). by rewrite after_app. Qed.

Lemma read_accounts accounts : Forall account_ok accounts →
  read_acl (accounts ≫= account_lines) = ([], (λ a, (ac_user a, ac_acl a)) <$> accounts).
Proof.
  induction accounts as [|a accounts IH]; intros Ha; [done |]. inversion_clear Ha as [|? ? (_ & _ & _ & _ & Hacl & _) Hr].
  rewrite bind_cons. unfold account_lines at 1. cbn [app].
  change (read_acl ([] :: ?x)) with (let '(t, u) := read_acl x in (t, u)). rewrite read_user, read_topics, IH by
    (try done; by eapply Forall_impl; [|apply acl_ok_fits]). cbn. by rewrite app_nil_r.
Qed.

Lemma user_line u : USER_RE u = true → line_ok u ∧ (58 ∉ u).
Proof.
  unfold USER_RE, line_ok. intros [_ H]%andb_true_iff. apply forallb_Forall in H.
  split; intros Hin; eapply Forall_forall in H; try exact Hin; done.
Qed.

Lemma account_lines_ok a : account_ok a → Forall line_ok (account_lines a).
Proof.
  intros (Hu & _ & _ & _ & Hacl & _). unfold account_lines, line_ok. apply user_line in Hu as [Hu _]. unfold line_ok in Hu.
  repeat constructor; [set_solver | |].
  - intros [H|H]%elem_of_app; [|done]. revert H. by apply text_line.
  - apply Forall_fmap. eapply Forall_impl; [exact Hacl |]. intros r (_ & Ha & Ht)%acl_ok_fits. by apply topic_line_ok.
Qed.

Lemma internal_fits m t : mqtt_ok m → t ∈ internalTopics m → validFilter t = true.
Proof.
  intros [_ _ _ Ht] Hin. unfold internalTopics in Hin. rewrite elem_of_uniq in Hin.
  apply list_elem_of_In, in_concat in Hin as (l & Hl & Hin). apply list_elem_of_In in Hl, Hin.
  apply list_elem_of_fmap in Hl as (e & -> & He). eapply Forall_forall in Ht; [|exact He]. destruct Ht as [_ (Hv & _)].
  eapply Forall_forall in Hv; [|exact Hin]. by apply plugin_filter_hd in Hv as [? _].
Qed.

Lemma read_buildAcl m : mqtt_ok m →
  read_acl (lines_of (buildAcl (mq_accounts m) (internalTopics m))) =
  ([], (INTERNAL_USER, [Acl (js "read") SYS_CLIENTS; Acl (js "read") SYS_LOG] ++ (Acl (js "readwrite") <$> internalTopics m))
       :: ((λ a, (ac_user a, ac_acl a)) <$> mq_accounts m)).
Proof.
  intros Hm. pose proof Hm as [Ha _ _ _]. unfold buildAcl.
  assert (Forall acl_fits (Acl (js "readwrite") <$> internalTopics m)) as Hi.
  { apply Forall_fmap, Forall_forall. intros t Ht. destruct (access_fits (js "readwrite")) as [? ?]; [by vm_compute; set_solver |].
    split_and!; [done | done |]. by apply filter_line, (internal_fits m). }
  rewrite lines_file_text; [|done|].
  - cbn [app]. change (read_acl (header [] :: [] :: ?x)) with (let '(t, u) := (let '(t, u) := read_acl x in (t, u)) in (t, u)).
    rewrite read_user, !read_topic by (vm_compute; set_solver).
    replace (topic_line (js "readwrite") <$> internalTopics m)
      with ((λ a, topic_line (acl_access a) (acl_topic a)) <$> (Acl (js "readwrite") <$> internalTopics m)) by (by rewrite <- list_fmap_compose).
    rewrite read_topics, read_accounts by done. cbn. by rewrite app_nil_r.
  - apply Forall_app_2; [by repeat constructor; vm_compute; set_solver |]. apply Forall_app_2.
    + apply Forall_fmap, Forall_forall. intros t Ht. apply (internal_fits m), filter_line in Ht; [|done]. apply topic_line_ok; [apply access_fits; vm_compute; set_solver | done].
    + apply Forall_bind. eapply Forall_impl; [exact Ha |]. intros. by apply account_lines_ok.
Qed.

(** *** Accounts *)

Lemma hash_line h : HASH_RE h = true → line_ok h.
Proof.
  assert (∀ t, base64_tail t = true → 10 ∉ t) as Ht.
  { induction t as [|c t IH]; cbn [base64_tail]; [set_solver |]. destruct (_ || _) eqn:E.
    - intros Hb [<- | Hin]%elem_of_cons; [done | by apply IH].
    - intros [-> | ->]%bool_decide_eq_true; set_solver. }
  assert (∀ t, base64_part t = true → 10 ∉ t) as Hp.
  { intros [|c t]; cbn [base64_part]; [done |]. intros [Hc Hb]%andb_true_iff [<- | Hin]%elem_of_cons; [done | by apply (Ht t)]. }
  assert (∀ l, Forall (λ x, 10 ∉ x) l → 10 ∉ join 36 l) as Hj.
  { induction 1 as [|x [|y l] Hx Hl IH]; cbn [join]; [set_solver | done |]. rewrite elem_of_app, elem_of_cons. intros [H|[H|H]]; [done | done | by apply IH]. }
  intros Hh. rewrite <- (join_split_on 36 h). apply Hj. revert Hh. unfold HASH_RE.
  destruct (split_on 36 h) as [|[|] [|kind [|a [|b [|c [|]]]]]]; try done.
  - rewrite !andb_true_iff, bool_decide_eq_true. intros [[-> Ha] Hb]. rewrite !Forall_cons. split_and!; [set_solver | by apply (text_line "6") | by apply Hp.. | constructor].
  - rewrite !andb_true_iff, bool_decide_eq_true. intros [[[[[-> _] _] Hd] Hb] Hc].
    rewrite !Forall_cons. split_and!; [set_solver | by apply (text_line "7") | | by apply Hp.. | constructor]. intros Hin.
    apply forallb_Forall in Hd. by eapply Forall_forall in Hd; [|exact Hin].
Qed.

Lemma read_buildPasswd accounts internalHash : Forall account_ok accounts → line_ok internalHash →
  read_passwd (lines_of (buildPasswd accounts internalHash)) = (INTERNAL_USER, internalHash) :: ((λ a, (ac_user a, ac_hash a)) <$> accounts).
Proof.
  intros Ha Hi. unfold buildPasswd.
  assert (∀ u h, 58 ∉ u → (let '(user, rest) := span (λ c, negb (c =? 58)) (u ++ js ":" ++ h) in (user, drop 1 rest)) = (u, h)) as Hr.
  { intros u h Hu. change (u ++ js ":" ++ h) with (u ++ 58 :: h). by rewrite (span_sep _ 58). }
  rewrite lines_file_text; [|done|].
  - unfold read_passwd. rewrite fmap_cons. f_equal.
    rewrite <- list_fmap_compose. apply list_fmap_ext. intros i a Hin%list_elem_of_lookup_2. cbn. apply Hr.
    eapply Forall_forall in Ha; [|exact Hin]. by destruct Ha as [[_ ?]%user_line _].
  - constructor; [|apply Forall_fmap; eapply Forall_impl; [exact Ha |]].
    + unfold line_ok in *. rewrite !elem_of_app. intros [H|[H|H]]; [revert H; by apply text_line | revert H; by apply text_line | done].
    + intros a (Hu & _ & Hh & _). apply user_line in Hu as [Hu _]. apply hash_line in Hh. cbn. unfold line_ok in *.
      rewrite elem_of_app, elem_of_cons. intros [H|[H|H]]; [done | done | done].
Qed.

(** *** The configuration *)

Lemma ipv4_line ip : isIPv4 ip = true → line_ok ip.
Proof.
  intros [o Ho]%bool_decide_eq_true. unfold octets in Ho. unfold line_ok.
  assert (∀ s z, octet s = Some z → 10 ∉ s) as Hd.
  { unfold octet. intros s z E Hin. destruct (forallb is_digit s) eqn:Ef; [|done]. apply forallb_Forall in Ef. by eapply Forall_forall in Ef; [|exact Hin]. }
  destruct (split_on _ ip) as [|a [|b [|c [|d [|]]]]] eqn:E; try done.
  destruct (octet a) eqn:Ea; [|done]. destruct (octet b) eqn:Eb; [|done]. destruct (octet c) eqn:Ec; [|done]. destruct (octet d) eqn:Ed; [|done].
  rewrite <- (join_split_on NetwatchDnsWire.dot ip), E. cbn [join]. rewrite !elem_of_app, !elem_of_cons, !elem_of_app, !elem_of_cons, !elem_of_app, !elem_of_cons.
  apply Hd in Ea, Eb, Ec, Ed. by intros [H|[H|[H|[H|[H|[H|H]]]]]].
Qed.

(** A line that opens a listener. *)
Definition listens (l : jstr) : bool := starts_with (js "listener ") l.
Definition listens_on (addrs : list jstr) (l : jstr) : Prop :=
  listens l = true → ∃ port ip, l = listener port ip ∧ (ip = js "127.0.0.1" ∨ ip ∈ addrs ∧ isIPv4 ip = true).

Lemma listener_line port ip : 0 ≤ port → line_ok ip → line_ok (listener port ip).
Proof.
  intros Hp Hi. unfold listener, line_ok in *. rewrite !elem_of_app. intros [H|[H|[H|H]]]; [revert H; by apply text_line | | revert H; by apply text_line | done].
  destruct (show_Z_spec port Hp) as [Hd _]. eapply Forall_forall in Hd; [|exact H]. cbn in Hd. lia.
Qed.

Definition paths_ok (dir : jstr) (tls : option (jstr * jstr)) : Prop :=
  line_ok dir ∧ match tls with Some (c, k) => line_ok c ∧ line_ok k | None => True end.

Lemma line_app a b : line_ok a → line_ok b → line_ok (a ++ b).
Proof. unfold line_ok. set_solver. Qed.
Ltac solve_line :=
  first [ assumption | by apply text_line | by apply listener_line; [done | apply text_line]
        | by (unfold line_ok; set_solver) | apply line_app; solve_line ].

Lemma buildConf_lines dir addrs tls : paths_ok dir tls →
  js "allow_anonymous false" ∈ lines_of (buildConf dir addrs tls) ∧ Forall (listens_on addrs) (lines_of (buildConf dir addrs tls)).
Proof.
  intros [Hdir Htls].
  assert (∀ ip, ip ∈ List.filter isIPv4 addrs → ip ∈ addrs ∧ isIPv4 ip = true ∧ line_ok ip) as Hip.
  { intros ip [Hin Hv]%list_elem_of_In%List.filter_In. split_and!; [by apply list_elem_of_In | done | by apply ipv4_line]. }
  unfold buildConf. rewrite lines_file_text; [|done|].
  - split; [right; left|]. unfold listens_on. repeat (apply Forall_app_2).
    + repeat (constructor; [first [by intros _; exists PORT, (js "127.0.0.1"); split; [done | left] | by intros Hl; vm_compute in Hl |
        by intros Hl; cbn in Hl] |]). constructor.
    + apply Forall_fmap, Forall_forall. intros ip (Hin & Hv & _)%Hip _. exists PORT, ip. auto.
    + destruct tls as [[c k]|]; [|constructor]. apply Forall_bind, Forall_forall. intros ip (Hin & Hv & _)%Hip.
      repeat constructor; [intros _; exists TLS_PORT, ip; auto | done | done].
  - repeat (apply Forall_app_2).
    + repeat (constructor; [solve_line |]). constructor.
    + apply Forall_fmap, Forall_forall. intros ip (_ & _ & Hl)%Hip. by apply listener_line.
    + destruct tls as [[c k]|]; [|constructor]. destruct Htls. apply Forall_bind, Forall_forall. intros ip (_ & _ & Hl)%Hip.
      repeat (constructor; [first [by apply listener_line | solve_line] |]). constructor.
Qed.

(** The internal account's hash is one line. *)
Lemma base64_char_line n : 0 ≤ n → base64_char n ≠ 10.
Proof. unfold base64_char. repeat case_match; lia. Qed.
Lemma to_base64_line b : is_bytes b → line_ok (to_base64 b).
Proof.
  revert b. fix IH 1. intros [|x [|y [|z b]]] Hb; unfold line_ok; cbn [to_base64].
  - set_solver.
  - inversion_clear Hb as [|? ? Hx]. unfold is_byte in Hx. rewrite !elem_of_cons, elem_of_nil.
    intros [E|[E|[E|[E|[]]]]]; try done; symmetry in E; revert E; apply base64_char_line;
      [apply Z.div_pos; lia | apply Z.mul_nonneg_nonneg; [apply Z.mod_pos_bound|]; lia].
  - inversion_clear Hb as [|? ? Hx Hr]. inversion_clear Hr as [|? ? Hy]. unfold is_byte in *. rewrite !elem_of_cons, elem_of_nil.
    pose proof (Z.mod_pos_bound x 4 ltac:(lia)). pose proof (Z.mod_pos_bound y 16 ltac:(lia)).
    pose proof (Z.div_pos x 4). pose proof (Z.div_pos y 16).
    intros [E|[E|[E|[E|[]]]]]; try done; symmetry in E; revert E; apply base64_char_line; lia.
  - inversion_clear Hb as [|? ? Hx Hr]. inversion_clear Hr as [|? ? Hy Hr']. inversion_clear Hr' as [|? ? Hz Hb']. unfold is_byte in *.
    rewrite !elem_of_cons. pose proof (Z.mod_pos_bound x 4 ltac:(lia)). pose proof (Z.mod_pos_bound y 16 ltac:(lia)).
    pose proof (Z.mod_pos_bound z 64 ltac:(lia)). pose proof (Z.div_pos x 4). pose proof (Z.div_pos y 16). pose proof (Z.div_pos z 64).
    intros [E|[E|[E|[E|E]]]]; try (symmetry in E; revert E; apply base64_char_line; lia). revert E. by apply (IH b Hb').
Qed.
Lemma hashPassword_line pbkdf2 password iterations salt :
  0 ≤ iterations → is_bytes salt → is_bytes (pbkdf2 password salt iterations) → line_ok (hashPassword pbkdf2 password iterations salt).
Proof.
  intros Hi Hs Hp. unfold hashPassword. pose proof (to_base64_line _ Hs) as Hsl. pose proof (to_base64_line _ Hp) as Hpl.
  assert (line_ok (show_Z iterations)) as Hl.
  { intros Hin. destruct (show_Z_spec iterations Hi) as [Hd _]. eapply Forall_forall in Hd; [|exact Hin]. cbn in Hd. lia. }
  repeat (apply line_app; [solve [by apply text_line | done] |]). done.
Qed.


(** ** The folder *)

Definition file_of (b : broker) (name : string) : option jstr := map_get (bk_files b) (js name).

Lemma writeIfChanged_spec files file body :
  let r := writeIfChanged files file body in
  map_get r.1 file = Some body ∧ (∀ other, other ≠ file → map_get r.1 other = map_get files other) ∧
  (r.2 = false ↔ map_get files file = Some body).
Proof.
  unfold writeIfChanged. case_bool_decide as E; cbn; [done |]. split_and!.
  - rewrite map_get_set. by rewrite decide_True.
  - intros other Ho. rewrite map_get_set. by rewrite decide_False.
  - done.
Qed.

Lemma write_files_spec dir now tlsFiles accounts hash topics addrs tls b :
  let '(b', w) := write_files dir now tlsFiles accounts hash topics addrs tls b in
  file_of b' "mosquitto.conf" = Some (buildConf dir addrs (if tls then tlsFiles else None)) ∧
  file_of b' "passwd" = Some (buildPasswd accounts hash) ∧ file_of b' "acl" = Some (buildAcl accounts topics) ∧
  file_of b' "enabled" = Some (js "1" ++ [10]) ∧
  (wr_authChanged w = false ↔ file_of b "passwd" = file_of b' "passwd" ∧ file_of b "acl" = file_of b' "acl") ∧
  (wr_authChanged w = true → file_of b' "reload" = Some (show_Z now ++ js "-" ++ show_Z (bk_reloadSeq b + 1) ++ [10]) ∧ bk_reloadSeq b' = bk_reloadSeq b + 1) ∧
  (wr_authChanged w = false → file_of b' "reload" = file_of b "reload").
Proof.
  unfold write_files, file_of.
  pose proof (writeIfChanged_spec (bk_files b) (js "mosquitto.conf") (buildConf dir addrs (if tls then tlsFiles else None))) as H1.
  destruct (writeIfChanged _ _ _) as [f1 conf]. cbn [fst snd] in H1. destruct H1 as (Hc & Ho1 & _).
  pose proof (writeIfChanged_spec f1 (js "passwd") (buildPasswd accounts hash)) as H2.
  destruct (writeIfChanged f1 _ _) as [f2 a]. cbn [fst snd] in H2. destruct H2 as (Hp & Ho2 & Ha).
  pose proof (writeIfChanged_spec f2 (js "acl") (buildAcl accounts topics)) as H3.
  destruct (writeIfChanged f2 _ _) as [f3 c]. cbn [fst snd] in H3. destruct H3 as (Hl & Ho3 & Hcc).
  cbn [bk_files bk_reloadSeq wr_authChanged].
  set (f4 := if a || c then _ else f3).
  assert (∀ n, n ≠ js "reload" → map_get f4 n = map_get f3 n) as Ho4.
  { intros n Hn. unfold f4. destruct (a || c); [|done]. by apply (writeIfChanged_spec f3 (js "reload")). }
  pose proof (writeIfChanged_spec f4 (js "enabled") (js "1" ++ [10])) as H5.
  destruct (writeIfChanged f4 _ _) as [f5 e]. cbn [fst snd] in H5. destruct H5 as (He & Ho5 & _). cbn [fst].
  rewrite (Ho1 (js "passwd")) in Ha by done. rewrite (Ho2 (js "acl")), (Ho1 (js "acl")) in Hcc by done.
  rewrite !(Ho5 (js "mosquitto.conf")), !(Ho5 (js "passwd")), !(Ho5 (js "acl")), !(Ho5 (js "reload")) by done.
  rewrite (Ho4 (js "mosquitto.conf")), (Ho4 (js "passwd")), (Ho4 (js "acl")) by done.
  rewrite (Ho3 (js "mosquitto.conf")), (Ho3 (js "passwd")), (Ho2 (js "mosquitto.conf")), Hp, Hl, Hc by done.
  split_and!; try done.
  - rewrite orb_false_iff, Ha, Hcc. done.
  - intros Hac. unfold f4. rewrite Hac. split; [|done]. by apply (writeIfChanged_spec f3 (js "reload")).
  - intros Hac. unfold f4. rewrite Hac. by rewrite (Ho3 (js "reload")), (Ho2 (js "reload")), (Ho1 (js "reload")).
Qed.

(** C15: the files the gateway writes for the MQTT broker say what the
    server's accepted state says, whatever is in it: read line by line the
    list of topics has the internal account with the topics of the plugins and
    then exactly the accounts with their topics, and the list of passwords has
    exactly their hashes; the broker never listens anywhere but on the
    loopback and the addresses given, and never without accounts; it is told
    to reload exactly when the accounts changed. *)
Theorem broker_files_read v m dir now tlsFiles internalHash addrs b :
  parseMqtt v = Ok m → paths_ok dir tlsFiles → line_ok internalHash →
  let '(b', w) := write_files dir now tlsFiles (mq_accounts m) internalHash (internalTopics m) addrs (mq_tls m) b in
  (∃ acl, file_of b' "acl" = Some acl ∧ read_acl (lines_of acl) =
     ([], (INTERNAL_USER, [Acl (js "read") SYS_CLIENTS; Acl (js "read") SYS_LOG] ++ (Acl (js "readwrite") <$> internalTopics m))
          :: ((λ a, (ac_user a, ac_acl a)) <$> mq_accounts m))) ∧
  (∃ passwd, file_of b' "passwd" = Some passwd ∧
     read_passwd (lines_of passwd) = (INTERNAL_USER, internalHash) :: ((λ a, (ac_user a, ac_hash a)) <$> mq_accounts m)) ∧
  (∃ conf, file_of b' "mosquitto.conf" = Some conf ∧ js "allow_anonymous false" ∈ lines_of conf ∧ Forall (listens_on addrs) (lines_of conf)) ∧
  file_of b' "reload" = (if wr_authChanged w then Some (show_Z now ++ js "-" ++ show_Z (bk_reloadSeq b + 1) ++ [10]) else file_of b "reload") ∧
  (wr_authChanged w = true ↔ ¬ (file_of b "passwd" = file_of b' "passwd" ∧ file_of b "acl" = file_of b' "acl")).
Proof.
  intros Hm%parseMqtt_ok [Hdir Htls] Hh.
  pose proof (write_files_spec dir now tlsFiles (mq_accounts m) internalHash (internalTopics m) addrs (mq_tls m) b) as Hw.
  destruct (write_files _ _ _ _ _ _ _ _ _) as [b' w]. destruct Hw as (Hc & Hp & Hl & _ & Hauth & Hn & Hr). split_and!.
  - eexists. split; [exact Hl | by apply read_buildAcl].
  - eexists. split; [exact Hp | apply read_buildPasswd; [by destruct Hm | done]].
  - eexists. split; [exact Hc |]. apply buildConf_lines. split; [done |]. by destruct (mq_tls m).
  - destruct (wr_authChanged w); [by apply Hn | by apply Hr].
  - rewrite <- Hauth. by destruct (wr_authChanged w).
Qed.

Definition sample_mqtt : json :=
  JObj [(js "enabled", JBool true);
        (js "accounts", JArr [JObj [(js "user", JStr (js "tv")); (js "hash", JStr (js "$7$101$c2FsdA==$aGFzaA=="));
           (js "acl", JArr [JObj [(js "access", JStr (js "read")); (js "topic", JStr (js "home/living room/#"))]])]]);
        (js "pluginTopics", JObj [(js "lamp", JArr [JStr (js "home/lamp/#")])])].
Lemma broker_files_read_witness : ∃ m,
  parseMqtt (Some sample_mqtt) = Ok m ∧
  let '(b', w) := write_files (js "/gc-mqtt") 5 None (mq_accounts m) (js "h") (internalTopics m) [js "192.168.1.2"] (mq_tls m) (Broker [] 0) in
  file_of b' "reload" = (if wr_authChanged w then Some (js "5-1" ++ [10]) else None).
Proof.
  eexists. split; [by vm_compute |].
  match goal with |- context [mq_accounts ?m] =>
    pose proof (broker_files_read (Some sample_mqtt) m (js "/gc-mqtt") 5 None (js "h") [js "192.168.1.2"] (Broker [] 0) ltac:(by vm_compute)) as Hr end.
  assert (paths_ok (js "/gc-mqtt") None) as Hp by (split; [by apply text_line | done]).
  specialize (Hr Hp ltac:(by apply text_line)). destruct (write_files _ _ _ _ _ _ _ _ _). apply Hr.
Defined.
