(* ===== verification/Remote.v ===== *)
(** * src/edge/remote.js

    The edge host's end of the gateway's socket: calls with their answers, what
    the gateway pushes, and the reconnecting.  A machine over the calls of the
    host, the events of the sockets and the timers; sockets and promises are
    numbered. *)

From S2P Require Import Prelude JsBuffer JsMap JsValues JsText JsFloat EdgeConstants Manifest Channel Machine.

Local Open Scope Z_scope.

Definition PUSH_TYPES : list jstr := js <$> ["udp"; "sock"; "mdns"; "mqtt"].

(** [rpcError(err)]: the code; [data] when it is an object. *)
Definition rpcError (err : option json) : jstr * option json :=
  match err with
  | Some (JObj e) =>
      (match field e (js "code") with
       | Some (JStr c) => if Z.of_nat (length c) <=? 32 then c else js "edge_error"
       | _ => js "edge_error"
       end,
       match field e (js "data") with Some (JObj d) => Some (JObj d) | Some (JArr d) => Some (JArr d) | _ => None end)
  | _ => (js "edge_error", None)
  end.

Record rpc_timing := RpcTiming { rpcReconnectMinMs : Z; rpcReconnectMaxMs : Z }.

Record info := Info { in_mqtt : bool; in_status : option json }.
(** [rp_ws]: the socket in use; the timer of a call runs while it is pending. *)
Record rpc := Rpc {
  rp_ws : option nat; rp_sockets : nat; rp_connected : bool; rp_stopped : bool; rp_attempt : Z; rp_retry : option Z;
  rp_pending : list (Z * nat); rp_nextId : Z; rp_promises : nat; rp_info : option info; rp_sessions : Z }.
Definition newRpc : rpc := Rpc None 0 false true 0 None [] 0 0 None 0.

(** How a call ends: with a value, with an error of its own, with the error of the gateway. *)
Inductive call_answer := Value (v : json) | Fails (code : string) | GatewayError (e : jstr * option json).
Inductive rpc_effect :=
  | OpenSocket (ws : nat) | CloseSock (ws : nat) (code : Z) | TerminateSock (ws : nat)
  | SendCall (ws : nat) (id : Z) (plugin api : jstr) (args : json) (c : caps) | SendClose (ws : nat) (plugin : jstr)
  | CallEnds (promise : nat) (a : call_answer)
  | EmitOpened (session : Z) | EmitClosed | EmitPush (plugin : jstr) (msg : json) | EmitInfo (i : info) | RetryIn (delay : Z).

Definition rop := mop rpc rpc_effect.

Definition r_socket (ws : option nat) (connected : bool) (r : rpc) : rpc :=
  Rpc ws (rp_sockets r) connected (rp_stopped r) (rp_attempt r) (rp_retry r) (rp_pending r) (rp_nextId r) (rp_promises r)
    (rp_info r) (rp_sessions r).
Definition r_opened (r : rpc) : rpc :=
  Rpc (rp_ws r) (rp_sockets r) true (rp_stopped r) 0 (rp_retry r) (rp_pending r) (rp_nextId r) (rp_promises r)
    (rp_info r) (rp_sessions r + 1).
Definition r_new (r : rpc) : rpc :=
  Rpc (Some (rp_sockets r)) (S (rp_sockets r)) (rp_connected r) (rp_stopped r) (rp_attempt r) (rp_retry r) (rp_pending r)
    (rp_nextId r) (rp_promises r) (rp_info r) (rp_sessions r).
Definition r_stopped (b : bool) (r : rpc) : rpc :=
  Rpc (rp_ws r) (rp_sockets r) (rp_connected r) b (rp_attempt r) (rp_retry r) (rp_pending r) (rp_nextId r) (rp_promises r)
    (rp_info r) (rp_sessions r).
Definition r_retry (attempt : Z) (retry : option Z) (r : rpc) : rpc :=
  Rpc (rp_ws r) (rp_sockets r) (rp_connected r) (rp_stopped r) attempt retry (rp_pending r) (rp_nextId r) (rp_promises r)
    (rp_info r) (rp_sessions r).
Definition r_calls (pending : list (Z * nat)) (nextId : Z) (promises : nat) (r : rpc) : rpc :=
  Rpc (rp_ws r) (rp_sockets r) (rp_connected r) (rp_stopped r) (rp_attempt r) (rp_retry r) pending nextId promises
    (rp_info r) (rp_sessions r).
Definition r_info (i : info) (r : rpc) : rpc :=
  Rpc (rp_ws r) (rp_sockets r) (rp_connected r) (rp_stopped r) (rp_attempt r) (rp_retry r) (rp_pending r) (rp_nextId r)
    (rp_promises r) (Some i) (rp_sessions r).

Section Remote.
Context (timing_ : rpc_timing).

Definition scheduleRetry (random : f64) : rop := λ r,
  if rp_stopped r then (r, [])
  else
    let delay := backoffDelay (rp_attempt r) (rpcReconnectMinMs timing_) (rpcReconnectMaxMs timing_) random in
    (mset (r_retry (rp_attempt r + 1) (Some delay)) ⨾ mdo [RetryIn delay]) r.

(** [usable]: whether a socket could be made. *)
Definition connect (usable : bool) (random : f64) : rop := λ r,
  if rp_stopped r then (r, [])
  else if usable then (mset r_new ⨾ mdo [OpenSocket (rp_sockets r)]) r
  else scheduleRetry random r.

Definition start (usable : bool) (random : f64) : rop := λ r,
  if rp_stopped r then (mset (r_stopped false) ⨾ connect usable random) r else (r, []).

Definition failAll (code : string) : rop := λ r,
  (r_calls [] (rp_nextId r) (rp_promises r) r, (λ e, CallEnds e.2 (Fails code)) <$> rp_pending r).

Definition stop : rop := λ r,
  (mset (r_stopped true) ⨾ mset (r_retry (rp_attempt r) None)
   ⨾ mdo (match rp_ws r with Some ws => [TerminateSock ws] | None => [] end)
   ⨾ mset (r_socket None false) ⨾ failAll "not_available") r.

(** [protocol]: whether the other side speaks the protocol. *)
Definition on_open (ws : nat) (protocol : bool) : rop := λ r,
  if protocol then (mset r_opened ⨾ mdo [EmitOpened (rp_sessions r + 1)]) r else (r, [CloseSock ws 1002]).

Definition on_close (ws : nat) (random : f64) : rop := λ r,
  if bool_decide (rp_ws r = Some ws) then
    (mset (r_socket None false) ⨾ failAll "not_available" ⨾ mdo (if rp_connected r then [EmitClosed] else []) ⨾ scheduleRetry random) r
  else (r, []).

Definition retry_fires (usable : bool) (random : f64) : rop := λ r,
  match rp_retry r with
  | Some _ => (mset (r_retry (rp_attempt r) None) ⨾ connect usable random) r
  | None => (r, [])
  end.

(** An object that is not null; lists count. *)
Definition objects (v : option json) : option json :=
  match v with Some (JObj m) => Some (JObj m) | Some (JArr l) => Some (JArr l) | _ => None end.

Definition on_result (m : list (jstr * json)) : rop := λ r,
  match field m (js "id") ≫= as_int with
  | Some id =>
      match map_get (rp_pending r) id with
      | Some n =>
          (mset (r_calls (map_delete (rp_pending r) id) (rp_nextId r) (rp_promises r))
           ⨾ mdo [CallEnds n (if is_true (field m (js "ok")) then Value (default JNull (field m (js "result")))
                              else GatewayError (rpcError (field m (js "error"))))]) r
      | None => (r, [])
      end
  | None => (r, [])
  end.

Definition on_push (m : list (jstr * json)) : rop :=
  match field m (js "plugin"), objects (field m (js "msg")) with
  | Some (JStr plugin), Some (JObj msg) =>
      match field msg (js "t") with
      | Some (JStr t) => if bool_decide (t ∈ PUSH_TYPES) then mdo [EmitPush plugin (JObj msg)] else mskip
      | _ => mskip
      end
  | _, _ => mskip
  end.

Definition available_of (v : option json) : bool := match v with Some (JObj m) => is_true (field m (js "available")) | _ => false end.
Definition on_info (m : list (jstr * json)) : rop :=
  let i := Info (available_of (field m (js "mqtt"))) (objects (field m (js "mqttStatus"))) in
  mset (r_info i) ⨾ mdo [EmitInfo i].

Definition onMessage (m : json) : rop :=
  match m with
  | JObj m =>
      match field m (js "t") with
      | Some (JStr t) =>
          if bool_decide (t = js "result") then on_result m
          else if bool_decide (t = js "push") then on_push m
          else if bool_decide (t = js "info") then on_info m
          else mskip
      | _ => mskip
      end
  | _ => mskip
  end.

(** [send(msg)]; [fits]: the frame is small enough and the socket takes it. *)
Definition send (open_ fits : bool) (f : nat → rpc_effect) (r : rpc) : option rpc_effect :=
  match rp_ws r with
  | Some ws => if rp_connected r && open_ && fits then Some (f ws) else None
  | None => None
  end.

Definition call (open_ fits : bool) (plugin api : jstr) (args : option json) (c : caps) : rop := λ r,
  let n := rp_promises r in
  if negb (rp_connected r) then (r_calls (rp_pending r) (rp_nextId r) (S n) r, [CallEnds n (Fails "not_available")])
  else
    let id := rp_nextId r + 1 in
    match send open_ fits (λ ws, SendCall ws id plugin api (default JNull args) c) r with
    | Some x => (r_calls (map_set (rp_pending r) id n) id (S n) r, [x])
    | None => (r_calls (map_delete (map_set (rp_pending r) id n) id) id (S n) r, [CallEnds n (Fails "too_large")])
    end.
(** The timer of a call. *)
Definition call_timeout (id : Z) : rop := λ r,
  match map_get (rp_pending r) id with
  | Some n => (r_calls (map_delete (rp_pending r) id) (rp_nextId r) (rp_promises r) r, [CallEnds n (Fails "timeout")])
  | None => (r, [])
  end.

Definition closePlugin (open_ fits : bool) (plugin : jstr) : rop := λ r,
  (r, match send open_ fits (λ ws, SendClose ws plugin) r with Some x => [x] | None => [] end).

(** ** What the parts see of it *)

(** [RemoteMqtt]: whether the gateway has a broker, and its status. *)
Definition remote_available (r : rpc) : bool := match rp_info r with Some i => in_mqtt i | None => false end.
Definition MQTT_STATUS_OFF : json :=
  JObj [(js "running", JBool false); (js "clients", JNum (NInt 0)); (js "accounts", JArr [])].
Definition remote_status (r : rpc) : json :=
  match rp_info r with Some i => default MQTT_STATUS_OFF (in_status i) | None => MQTT_STATUS_OFF end.

Inductive rpc_input :=
  | Start (usable : bool) (random : f64) | Stop
  | SockOpen (ws : nat) (protocol : bool) | SockMessage (ws : nat) (m : json) | SockClosed (ws : nat) (random : f64)
  | RetryFires (usable : bool) (random : f64)
  | CallIn (open_ fits : bool) (plugin api : jstr) (args : option json) (c : caps) | CallTimeout (id : Z)
  | ClosePlugin (open_ fits : bool) (plugin : jstr).
Definition rpc_step (i : rpc_input) : rop :=
  match i with
  | Start usable random => start usable random
  | Stop => stop
  | SockOpen ws protocol => on_open ws protocol
  | SockMessage _ m => onMessage m
  | SockClosed ws random => on_close ws random
  | RetryFires usable random => retry_fires usable random
  | CallIn o f plugin api args c => call o f plugin api args c
  | CallTimeout id => call_timeout id
  | ClosePlugin o f plugin => closePlugin o f plugin
  end.
End Remote.

(** * Calls to the gateway are answered

    Over every run: each call ends once, and a running connection always has a
    socket or a retry ahead. *)

(** The promises that an effect ends. *)
Definition ended (x : rpc_effect) : option nat := match x with CallEnds n _ => Some n | _ => None end.

(** Calls only wait while the connection is there; their ids are different
    and were given out; running, there is a socket or a retry, and never both
    at once; stopped, there is nothing. *)
Record rpc_ok (r : rpc) : Prop := {
  ro_pending : map_ok (rp_pending r);
  ro_ids : Forall (λ e, e.1 ≤ rp_nextId r) (rp_pending r);
  ro_waits : rp_pending r ≠ [] → rp_connected r = true;
  ro_running : rp_stopped r = false → (rp_ws r = None ∧ rp_retry r ≠ None) ∨ (rp_ws r ≠ None ∧ rp_retry r = None);
  ro_stopped : rp_stopped r = true → rp_ws r = None ∧ rp_retry r = None ∧ rp_pending r = [] }.

(** Every call made so far is waiting or has ended, once. *)
Abbreviation ledger := (Machine.ledger ended (λ r, (rp_pending r).*2) rp_promises).
Abbreviation balanced := (Machine.balanced ended (λ r, (rp_pending r).*2) rp_promises).

Section Facts.
Context (timing_ : rpc_timing).
Abbreviation step := (rpc_step timing_).

(** ** One step *)

Lemma failAll_ended (l : list (Z * nat)) code : omap ended ((λ e, CallEnds e.2 (Fails code)) <$> l) = l.*2.
Proof. induction l as [|e l IH]; [done |]. cbn. by f_equal. Qed.
Lemma failAll_balanced r code : balanced r (failAll code r).
Proof. exists 0%nat. unfold failAll. cbn [fst snd rp_pending r_calls]. rewrite failAll_ended. cbn. split; [lia | by rewrite !app_nil_r]. Qed.

Lemma scheduleRetry_balanced random r : balanced r (scheduleRetry timing_ random r).
Proof. unfold scheduleRetry. destruct (rp_stopped r); by apply balanced_quiet. Qed.
Lemma connect_balanced usable random r : balanced r (connect timing_ usable random r).
Proof.
  unfold connect. destruct (rp_stopped r); [by apply balanced_quiet |]. destruct usable; [by apply balanced_quiet | apply scheduleRetry_balanced].
Qed.

Lemma end_balanced r id n a (r' : rpc) : map_ok (rp_pending r) → map_get (rp_pending r) id = Some n →
  rp_pending r' = map_delete (rp_pending r) id → rp_promises r' = rp_promises r → balanced r (r', [CallEnds n a]).
Proof.
  intros Hm Hg Hp Hn. exists 0%nat. cbn. rewrite Hp, app_nil_r. split; [lia |]. rewrite <- (map_delete_values _ _ _ Hm Hg).
  by rewrite Permutation_app_comm.
Qed.

Lemma fresh_call r : rpc_ok r → (rp_nextId r + 1) ∉ (rp_pending r).*1.
Proof. intros [_ Hids _ _ _] (e & He & Hin)%list_elem_of_fmap. eapply Forall_forall in Hids; [|exact Hin]. lia. Qed.

Lemma send_calls o f g r x : send o f g r = Some x → ended (g 0%nat) = None → (∀ a b, ended (g a) = ended (g b)) → ended x = None.
Proof.
  unfold send. destruct (rp_ws r) as [ws|]; [|done]. destruct (_ && _); [|done]. intros [= <-] H0 Hg. by rewrite (Hg ws 0%nat).
Qed.

Lemma step_balanced i r : rpc_ok r → balanced r (step i r).
Proof.
  intros Hok. destruct i; cbn [rpc_step].
  - unfold start. destruct (rp_stopped r); [|by apply balanced_quiet]. apply balanced_then; [by apply balanced_quiet | apply connect_balanced].
  - unfold stop. do 4 (apply balanced_then; [apply balanced_quiet; [done | done | cbn; by destruct (rp_ws r)] |]). apply failAll_balanced.
  - unfold on_open. destruct protocol; by apply balanced_quiet.
  - unfold onMessage. destruct m as [| | | | |m]; try by apply balanced_quiet. destruct (field m (js "t")) as [[| | |t| |]|]; try by apply balanced_quiet.
    destruct (bool_decide (t = js "result")).
    { unfold on_result. destruct (_ ≫= as_int) as [id|]; [|by apply balanced_quiet].
      destruct (map_get (rp_pending r) id) as [n|] eqn:E; [|by apply balanced_quiet]. eapply end_balanced; [apply Hok | done..]. }
    destruct (bool_decide (t = js "push")).
    { unfold on_push. destruct (field m (js "plugin")) as [[]|]; try by apply balanced_quiet.
      destruct (objects _) as [[]|]; try by apply balanced_quiet. destruct (field fields (js "t")) as [[]|]; try by apply balanced_quiet.
      destruct (bool_decide _); by apply balanced_quiet. }
    destruct (bool_decide (t = js "info")); by apply balanced_quiet.
  - unfold on_close. destruct (bool_decide _); [|by apply balanced_quiet]. apply balanced_then; [by apply balanced_quiet |].
    apply balanced_then; [apply failAll_balanced |]. apply balanced_then; [|apply scheduleRetry_balanced].
    destruct (rp_connected r); by apply balanced_quiet.
  - unfold retry_fires. destruct (rp_retry r); [|by apply balanced_quiet]. apply balanced_then; [by apply balanced_quiet | apply connect_balanced].
  - unfold call. destruct (negb _).
    { exists 1%nat. cbn. split; [lia |]. by rewrite Permutation_app_comm. }
    pose proof (fresh_call r Hok) as Hf.
    destruct (send _ _ _ _) as [x|] eqn:E; exists 1%nat; cbn [fst snd rp_promises rp_pending r_calls omap list_omap].
    + apply send_calls in E as ->; [|done..]. split; [lia |]. cbn. by rewrite map_set_new, fmap_app.
    + split; [lia |]. cbn. rewrite map_set_new by done.
      assert (map_delete (rp_pending r ++ [(rp_nextId r + 1, rp_promises r)]) (rp_nextId r + 1) = rp_pending r) as ->.
      { clear -Hf. induction (rp_pending r) as [|[k v] l IH]; cbn; [by rewrite decide_True |].
        rewrite decide_False by set_solver. rewrite IH; [done | set_solver]. }
      by rewrite Permutation_app_comm.
  - unfold call_timeout. destruct (map_get (rp_pending r) id) as [n|] eqn:E; [|by apply balanced_quiet]. eapply end_balanced; [apply Hok | done..].
  - unfold closePlugin. apply balanced_quiet; [done.. |]. destruct (send _ _ _ _) as [x|] eqn:E; [|done]. cbn. by apply send_calls in E as ->.
Qed.

(** ** The invariant *)

Lemma rpc_ok_calls r pending next n : rpc_ok r → map_ok pending → Forall (λ e, e.1 ≤ next) pending →
  (pending ≠ [] → rp_connected r = true ∧ rp_stopped r = false) → rpc_ok (r_calls pending next n r).
Proof.
  intros [] Hm Hf Hp. split; cbn; [done | done | by intros [? _]%Hp | done |]. intros Hs. destruct (ro_stopped0 Hs) as (? & ? & _).
  split_and!; [done.. |]. destruct pending; [done |]. destruct Hp as [_ ?]; [done |]. congruence.
Qed.

Lemma rpc_ok_delete r id : rpc_ok r → rpc_ok (r_calls (map_delete (rp_pending r) id) (rp_nextId r) (rp_promises r) r).
Proof.
  intros Hok. pose proof Hok as [Hm Hf Hw _ Hs]. apply rpc_ok_calls; [done | by apply map_delete_ok | by apply map_delete_Forall |].
  intros Hd. assert (rp_pending r ≠ []) as Hne by (by intros E; rewrite E in Hd). split; [by apply Hw |].
  destruct (rp_stopped r) eqn:E; [|done]. by destruct (Hs eq_refl) as (_ & _ & ?).
Qed.

Lemma schedule_ok random r : rp_stopped r = false → rp_ws r = None → rp_pending r = [] → rp_connected r = false ∨ True →
  rpc_ok (scheduleRetry timing_ random r).1.
Proof.
  intros Hs Hw Hp _. unfold scheduleRetry. rewrite Hs. split; cbn; rewrite ?Hp, ?Hw, ?Hs; cbn; [constructor | constructor | done | by left | done].
Qed.

Lemma connect_ok usable random r : rp_stopped r = false → rp_ws r = None → rp_retry r = None → rp_pending r = [] →
  rpc_ok (connect timing_ usable random r).1.
Proof.
  intros Hs Hw Hr Hp. unfold connect. rewrite Hs. destruct usable; [|apply schedule_ok; auto].
  split; cbn; rewrite ?Hp, ?Hw, ?Hs, ?Hr; cbn; [constructor | constructor | done | by right | done].
Qed.

Lemma idle_pending r : rpc_ok r → rp_ws r = None → rp_connected r = false → rp_pending r = [].
Proof. intros [_ _ Hw _ _] _ Hc. destruct (rp_pending r); [done |]. rewrite Hw in Hc; done. Qed.

Lemma step_ok i r : rpc_ok r → rpc_ok (step i r).1.
Proof.
  intros Hok. pose proof Hok as [Hm Hf Hw Hr Hs]. destruct i; cbn [rpc_step].
  - unfold start. destruct (rp_stopped r) eqn:E; [|done]. destruct (Hs eq_refl) as (? & ? & ?).
    rewrite mthen_fst. by apply connect_ok.
  - unfold stop. split; cbn; [constructor | constructor | done | done | done].
  - unfold on_open. destruct protocol; [|done]. by split.
  - unfold onMessage. destruct m as [| | | | |m]; try done. destruct (field m (js "t")) as [[| | |t| |]|]; try done.
    destruct (bool_decide (t = js "result")).
    { unfold on_result. destruct (_ ≫= as_int) as [id|]; [|done]. destruct (map_get _ _); [|done]. rewrite mthen_fst. by apply rpc_ok_delete. }
    destruct (bool_decide (t = js "push")).
    { unfold on_push. destruct (field m (js "plugin")) as [[]|]; try done.
      destruct (objects _) as [[]|]; try done. destruct (field fields (js "t")) as [[]|]; try done. by destruct (bool_decide _). }
    destruct (bool_decide (t = js "info")); [|done]. by split.
  - unfold on_close. destruct (bool_decide _) eqn:E; [|done]. rewrite !mthen_fst.
    apply bool_decide_eq_true in E. assert (rp_stopped r = false) as Hst.
    { destruct (rp_stopped r); [|done]. destruct (Hs eq_refl) as (? & _). congruence. }
    apply schedule_ok; try done. by right.
  - unfold retry_fires. destruct (rp_retry r) eqn:E; [|done]. rewrite mthen_fst.
    destruct (rp_stopped r) eqn:Hst; [destruct (Hs eq_refl) as (? & ? & ?); congruence |].
    destruct (Hr eq_refl) as [[Hn _] | [_ ?]]; [|congruence].
    unfold connect. cbn. rewrite Hst. destruct usable.
    + split; cbn; rewrite ?Hst; try done. by right.
    + unfold scheduleRetry. cbn. rewrite Hst. split; cbn; rewrite ?Hst; try done. by left.
  - unfold call. destruct (rp_connected r) eqn:Hc; cbn [negb]; [|apply rpc_ok_calls; [done.. |]; intros Hp; specialize (Hw Hp); congruence].
    assert (rp_pending r ≠ [] → rp_connected r = true ∧ rp_stopped r = false) as Hp.
    { intros Hp. split; [done |]. destruct (rp_stopped r); [|done]. by destruct (Hs eq_refl) as (_ & _ & ?). }
    pose proof (fresh_call r Hok) as Hfr. destruct (send _ _ _ _) as [x|] eqn:E.
    + apply rpc_ok_calls; [done | by apply map_set_ok | |].
      * apply map_set_Forall; [eapply Forall_impl; [exact Hf |]; cbn; lia | cbn; lia].
      * intros _. split; [done |]. destruct (rp_stopped r); [|done]. destruct (Hs eq_refl) as (Hn & _). unfold send in E. by rewrite Hn in E.
    + apply rpc_ok_calls; [done | by apply map_delete_ok, map_set_ok | |].
      * apply map_delete_Forall, map_set_Forall; [eapply Forall_impl; [exact Hf |]; cbn; lia | cbn; lia].
      * intros Hd. apply Hp. intros Hnil. rewrite Hnil in Hd. cbn in Hd. by rewrite decide_True in Hd.
  - unfold call_timeout. destruct (map_get _ _); [|done]. by apply rpc_ok_delete.
  - done.
Qed.

(** C16: over every order of calls, messages of the gateway, timers and lost
    or refused connections: each call to the gateway is waiting or has been
    answered, exactly once - with the gateway's value or error, or because it
    took too long, was too large or the connection was lost -; calls only wait
    while the connection is there; and a running connection always has either
    a socket or a retry ahead, never both, and a stopped one neither. *)
Theorem rpc_run_answers inputs :
  let t := mrun step inputs newRpc in rpc_ok t.1 ∧ ledger t.1 (concat t.2.*2).
Proof.
  apply mrun_ledger; [split; cbn; try done; constructor | done | done |]. intros i r Hok.
  split; [by apply step_ok | by apply step_balanced].
Qed.
End Facts.
