(* ===== verification/Store.v ===== *)
(** * src/edge/store.js

    The key-value store of a plugin: one JSON object in a file, read once and
    kept, written whole on every change.  [JSON.stringify] is an argument; the
    file is its text, or none. *)

From S2P Require Import Prelude JsBuffer JsMap JsValues Crypto EdgeConstants.

Local Open Scope Z_scope.

(** [/^[A-Za-z0-9._:-]{1,128}$/] *)
Definition KEY_RE (k : jstr) : bool :=
  (1 <=? Z.of_nat (length k)) && (Z.of_nat (length k) <=? 128)
  && forallb (λ c, is_digit c || is_lower c || is_upper c || (c =? 46) || (c =? 95) || (c =? 58) || (c =? 45)) k.

Abbreviation object := (list (jstr * json)).
Record pstore := PStore { so_file : option jstr; so_data : option object }.

Definition bad_key : string := "bad_key".
Definition key (k : option json) : res jstr :=
  match k with Some (JStr s) => if KEY_RE s then Ok s else Throw bad_key | _ => Throw bad_key end.

Section Store.
Context `{Node} (stringify : json → jstr) (maxBytes : Z).

Definition load (s : pstore) : pstore * object :=
  match so_data s with
  | Some d => (s, d)
  | None =>
      let d := match so_file s with
               | Some raw => match JSON_parse raw with Some (JObj m) => m | _ => [] end
               | None => []
               end in
      (PStore (so_file s) (Some d), d)
  end.

Definition get (s : pstore) (k : option json) : pstore * res json :=
  let '(s, d) := load s in
  match key k with
  | Ok k => (s, Ok (default JNull (map_get d k)))
  | Throw e => (s, Throw e)
  | NoFuel => (s, NoFuel)
  end.

Definition write (s : pstore) (next : object) : pstore * res unit :=
  let body := stringify (JObj next) in
  if maxBytes <? blen (utf8_encode body) then (s, Throw "too_large") else (PStore (Some body) (Some next), Ok tt).

Definition delete (s : pstore) (k : option json) : pstore * res unit :=
  match key k with
  | Ok k => let '(s, d) := load s in if map_has d k then write s (map_delete d k) else (s, Ok tt)
  | Throw e => (s, Throw e)
  | NoFuel => (s, NoFuel)
  end.

(** [None] is [undefined]. *)
Definition set (s : pstore) (k : option json) (value : option json) : pstore * res unit :=
  match key k with
  | Ok k' =>
      match value with
      | None => delete s k
      | Some v => let '(s, d) := load s in write s (map_set d k' v)
      end
  | Throw e => (s, Throw e)
  | NoFuel => (s, NoFuel)
  end.

(** ** The file and what is kept in memory *)

(** A store on the same file, as after a restart of the edge host. *)
Definition reopened (s : pstore) : pstore := PStore (so_file s) None.

(** The text of an object is read back as the object. *)
Definition read_back (m : object) : Prop := JSON_parse (stringify (JObj m)) = Some (JObj m).

(** What is in memory is what the file holds, keys are different, and the file fits. *)
Record store_ok (s : pstore) : Prop := {
  sk_data d : so_data s = Some d → map_ok d ∧ (load (reopened s)).2 = d;
  sk_object : map_ok (load (reopened s)).2 }.

Lemma load_reopened s : store_ok s → (load s).2 = (load (reopened s)).2.
Proof. intros [Hd _]. unfold load at 1. destruct (so_data s) as [d|] eqn:E; [by destruct (Hd d eq_refl) | done]. Qed.

Lemma load_file s : so_file (load s).1 = so_file s.
Proof. unfold load. by destruct (so_data s). Qed.

Lemma load_ok s : store_ok s → store_ok (load s).1.
Proof.
  intros Hs. pose proof Hs as [Hd Ho]. unfold load. destruct (so_data s) eqn:E; [done |]. split; [|done].
  cbn. intros d [= <-]. split; [exact Ho | done].
Qed.

Lemma write_ok s next : read_back next → store_ok s → map_ok next →
  store_ok (write s next).1 ∧
  ((write s next).2 = Ok tt ∧ (load (reopened (write s next).1)).2 = next ∧ (∀ f, so_file (write s next).1 = Some f → blen (utf8_encode f) ≤ maxBytes)
   ∨ (write s next).2 = Throw "too_large" ∧ (write s next).1 = s).
Proof.
  intros Hj Hs Hn. unfold write. destruct (maxBytes <? _) eqn:E; [split; [done | by right] |].
  assert ((load (reopened (PStore (Some (stringify (JObj next))) (Some next)))).2 = next) as Hl.
  { unfold load, reopened. cbn. by rewrite Hj. }
  split; [split; cbn [fst]; [|by rewrite Hl] |].
  - cbn [so_data fst]. intros d [= <-]. done.
  - left. cbn. split_and!; [done | done |]. intros f [= <-]. lia.
Qed.

Definition plain (s : pstore) (k : jstr) : option json := map_get (load (reopened s)).2 k.

Lemma get_plain s k : store_ok s → KEY_RE k = true → (get s (Some (JStr k))).2 = Ok (default JNull (plain s k)).
Proof.
  intros Hs Hk. unfold get, key. rewrite Hk. pose proof (load_reopened s Hs) as Hl. destruct (load s) as [t d]. cbn in Hl.
  subst d. done.
Qed.

(** C33: a value that was stored is found, before and after a restart of the
    edge host, every other key keeps its value, and the file never exceeds its
    limit; a store that would be too large, or a key of the wrong form,
    changes nothing. *)
Theorem store_set_get s k v :
  (∀ k', k = Some (JStr k') → read_back (map_set (load s).2 k' v)) → store_ok s →
  let s' := (set s k (Some v)).1 in
  store_ok s' ∧
  ((∃ k', k = Some (JStr k') ∧ KEY_RE k' = true ∧ (set s k (Some v)).2 = Ok tt ∧
      (∀ f, so_file s' = Some f → blen (utf8_encode f) ≤ maxBytes) ∧
      ∀ t, t = s' ∨ t = reopened s' → (get t k).2 = Ok v ∧
        ∀ q, KEY_RE q = true → q ≠ k' → (get t (Some (JStr q))).2 = (get s (Some (JStr q))).2)
   ∨ (∃ e, (set s k (Some v)).2 = Throw e ∧ so_file s' = so_file s ∧ ∀ q, (get s' q).2 = (get s q).2)).
Proof.
  intros Hj Hs s'. subst s'. unfold set. destruct (key k) as [k'|e|] eqn:Ek.
  3:{ destruct k as [[]|]; cbn in Ek; try done. by destruct (KEY_RE s0). }
  2:{ split; [done |]. right. by exists e. }
  assert (k = Some (JStr k') ∧ KEY_RE k' = true) as [-> Hk].
  { destruct k as [[]|]; cbn in Ek; try done. destruct (KEY_RE s0) eqn:E; [|done]. by injection Ek as ->. }
  pose proof (load_ok s Hs) as Hs1. pose proof (load_reopened s Hs) as Hl. pose proof (load_file s) as Hlf.
  assert (∀ q, (get (load s).1 q).2 = (get s q).2) as Hget.
  { intros q. unfold get, load. destruct (so_data s) as [d|] eqn:E; cbn; rewrite ?E; by destruct (key q). }
  specialize (Hj k' eq_refl). destruct (load s) as [t d]. cbn in Hj, Hs1, Hl, Hlf, Hget.
  assert (map_ok d) as Hd by (rewrite Hl; apply (sk_object _ Hs)).
  destruct (write_ok t (map_set d k' v) Hj Hs1 (map_set_ok _ _ _ Hd)) as [Hok [(Hw & Hp & Hb) | [Hw Hp]]].
  - split; [done |]. left. exists k'. split_and!; [done.. |]. intros u Hu.
    assert (store_ok u ∧ plain u = map_get (map_set d k' v)) as [Hu1 Hu2].
    { destruct Hu as [-> | ->]; [split; [done | exact (f_equal map_get Hp)] |].
      split; [|exact (f_equal map_get Hp)]. split; [done | apply (sk_object _ Hok)]. }
    split.
    + rewrite get_plain, Hu2, map_get_set, decide_True by done. done.
    + intros q Hq Hqk. rewrite !get_plain, Hu2, map_get_set, decide_False by done. do 2 f_equal. unfold plain. f_equal. done.
  - split; [done |]. right. exists "too_large"%string. rewrite Hp. split_and!; [done | done |]. intros q. apply Hget.
Qed.
End Store.

(** A runtime whose text is that of [{"on":true}]. *)
Definition sample_node : Node := toy_node (λ _, Some (JObj [(js "on", JBool true)])).
Definition sample_stringify (v : json) : jstr := js "{on:true}".

Lemma store_set_get_witness :
  let s := PStore None None in
  let s' := (@set sample_node sample_stringify 1000 s (Some (JStr (js "on"))) (Some (JBool true))).1 in
  @store_ok sample_node s ∧ @store_ok sample_node s' ∧ (@get sample_node (reopened s') (Some (JStr (js "on")))).2 = Ok (JBool true).
Proof.
  assert (@store_ok sample_node (PStore None None)) as Hs by (split; [done | constructor]).
  destruct (store_set_get (H := sample_node) sample_stringify 1000 (PStore None None) (Some (JStr (js "on"))) (JBool true)
    ltac:(by intros k [= <-]) Hs) as [Hok [(k & [= <-] & _ & _ & _ & Hg) | (e & He & _)]]; [|by vm_compute in He].
  split_and!; [done | done |]. apply Hg. by right.
Defined.
