(* ===== verification/DnsStats.v ===== *)
(** * src/dns/stats.js

    The counts of a reporting period and those since the start.  A period that
    could not be delivered is put back into the running one.  The order of
    [localeCompare] is an argument; a device is the text of its address. *)

From stdpp Require Import sorting.
From S2P Require Import Prelude JsBuffer JsValues JsMap JsFloat.

Local Open Scope Z_scope.

Definition MAX_TOP_KEYS : Z := 4096.
Definition MAX_CLIENTS : Z := 1024.
Definition TOP_N : nat := 20.

(** [l.sort(cmp)], stable: [x] goes before the first [y] that does not have to stand before it. *)
Fixpoint insert_cmp {A} (cmp : A → A → Z) (x : A) (l : list A) : list A :=
  match l with
  | [] => [x]
  | y :: r => if 0 <? cmp x y then y :: insert_cmp cmp x r else x :: l
  end.
Definition sort_cmp {A} (cmp : A → A → Z) (l : list A) : list A := foldr (insert_cmp cmp) [] l.

Record top_entry := Top { t_domain : jstr; t_count : Z; t_profileId : option jstr }.
Record counted := Counted { n_queries : Z; n_blocked : Z }.

Record period := Period {
  p_from : Z; p_queries : Z; p_blocked : Z; p_cached : Z; p_msSum : f64;
  p_top : list (jstr * top_entry); p_byProfile : list (jstr * counted); p_clients : list jstr }.
Definition emptyPeriod (from : Z) : period := Period from 0 0 0 (fl_of_Z 0) [] [] [].

Record totals := Totals { to_queries : Z; to_blocked : Z; to_cached : Z; to_since : Z }.
Record stats := Stats { cur : period; total : totals }.
Definition newStats (now : Z) : stats := Stats (emptyPeriod now) (Totals 0 0 0 now).

(** What is recorded of a question. *)
Record asked := Asked {
  q_profileId : option jstr; q_mac : option jstr; q_blocked : bool; q_cached : bool; q_ms : f64; q_domain : option jstr }.

Definition one (b : bool) : Z := if b then 1 else 0.
(** [`${domain}\n${key}`] *)
Definition top_key (domain key : jstr) : jstr := domain ++ 10 :: key.

Definition _pruneTop (top : list (jstr * top_entry)) : list (jstr * top_entry) :=
  take (Z.to_nat (MAX_TOP_KEYS * 3 / 4)) (sort_cmp (λ a b, t_count b.2 - t_count a.2) top).
Definition pruned (top : list (jstr * top_entry)) : list (jstr * top_entry) :=
  if MAX_TOP_KEYS <? map_size top then _pruneTop top else top.

(** [if (mac) ...]: the empty text counts as none. *)
Definition given (s : option jstr) : option jstr := match s with Some [] => None | s => s end.

Definition count_profile (m : list (jstr * counted)) (key : jstr) (n : counted) : list (jstr * counted) :=
  let o := default (Counted 0 0) (map_get m key) in
  map_set m key (Counted (n_queries o + n_queries n) (n_blocked o + n_blocked n)).

Definition count_top (top : list (jstr * top_entry)) (q : asked) : list (jstr * top_entry) :=
  match given (q_domain q) with
  | Some domain =>
      let k := top_key domain (default [] (q_profileId q)) in
      match map_get top k with
      | Some e => map_set top k (Top (t_domain e) (t_count e + 1) (t_profileId e))
      | None => pruned (map_set top k (Top domain 1 (q_profileId q)))
      end
  | None => top
  end.

Definition add_client (l : list jstr) (mac : jstr) : list jstr :=
  if Z.of_nat (length l) <? MAX_CLIENTS then (if bool_decide (mac ∈ l) then l else l ++ [mac]) else l.

Definition record (s : stats) (q : asked) : stats :=
  let p := cur s in
  let t := total s in
  Stats
    (Period (p_from p) (p_queries p + 1) (p_blocked p + one (q_blocked q)) (p_cached p + one (q_cached q))
       (fl_add (p_msSum p) (q_ms q))
       (if q_blocked q then count_top (p_top p) q else p_top p)
       (count_profile (p_byProfile p) (default [] (q_profileId q)) (Counted 1 (one (q_blocked q))))
       (match given (q_mac q) with Some mac => add_client (p_clients p) mac | None => p_clients p end))
    (Totals (to_queries t + 1) (to_blocked t + one (q_blocked q)) (to_cached t + one (q_cached q)) (to_since t)).

(** The report: [bo_byProfile] without the questions of no profile. *)
Record body := Body {
  bo_from : Z; bo_to : Z; bo_queries : Z; bo_blocked : Z; bo_cached : Z; bo_avgMs : option f64;
  bo_topBlocked : list top_entry; bo_byProfile : list (jstr * counted); bo_clientsSeen : list jstr }.

Section Stats.
Context (localeCompare : jstr → jstr → Z).

Definition avgMs (p : period) : option f64 :=
  if p_queries p =? 0 then None
  else Some (fl_div (fl_round (fl_mul (fl_div (p_msSum p) (fl_of_Z (p_queries p))) (fl_of_Z 10))) (fl_of_Z 10)).

(** [b.count - a.count || a.domain.localeCompare(b.domain)] *)
Definition top_order (a b : top_entry) : Z :=
  if t_count b - t_count a =? 0 then localeCompare (t_domain a) (t_domain b) else t_count b - t_count a.

Definition body_of (p : period) (to : Z) : body :=
  Body (p_from p) to (p_queries p) (p_blocked p) (p_cached p) (avgMs p)
    (take TOP_N (sort_cmp top_order (p_top p).*2))
    (List.filter (λ e, nonempty e.1) (p_byProfile p))
    (sort_by id (p_clients p)).

Definition take_ (s : stats) (now : Z) : stats * (body * period) :=
  (Stats (emptyPeriod now) (total s), (body_of (cur s) now, cur s)).

(** One entry of the old period into the map of the running one. *)
Definition back_top (top : list (jstr * top_entry)) (e : jstr * top_entry) : list (jstr * top_entry) :=
  match map_get top e.1 with
  | Some o => map_set top e.1 (Top (t_domain o) (t_count o + t_count e.2) (t_profileId o))
  | None => map_set top e.1 e.2
  end.

Definition giveBack (s : stats) (old : period) : stats :=
  let c := cur s in
  Stats
    (Period (Z.min (p_from c) (p_from old)) (p_queries c + p_queries old) (p_blocked c + p_blocked old) (p_cached c + p_cached old)
       (fl_add (p_msSum c) (p_msSum old))
       (pruned (fold_left back_top (p_top old) (p_top c)))
       (fold_left (λ m e, count_profile m e.1 e.2) (p_byProfile old) (p_byProfile c))
       (fold_left add_client (p_clients old) (p_clients c)))
    (total s).
End Stats.

(** * The counts of the reports

    What is counted in a period and what is put back into one: quantities that
    add up, and the bounds that hold.  Each report holds what its period
    counted, and its list of blocked names the most frequent ones. *)

(** ** Quantities that add up *)

(** What a question adds to the quantity, and periods that are put together. *)
Record additive (μ : period → Z) (δ : asked → Z) : Prop := {
  ad_empty now : μ (emptyPeriod now) = 0;
  ad_record s q : μ (cur (record s q)) = μ (cur s) + δ q;
  ad_back s old : map_ok (p_byProfile old) → μ (cur (giveBack s old)) = μ (cur s) + μ old }.

Definition profile_counted (id : jstr) (m : list (jstr * counted)) : counted := default (Counted 0 0) (map_get m id).
Definition queries_of (id : jstr) (p : period) : Z := n_queries (profile_counted id (p_byProfile p)).
Definition blocked_of (id : jstr) (p : period) : Z := n_blocked (profile_counted id (p_byProfile p)).
Definition of_profile (id : jstr) (q : asked) : Z := one (bool_decide (default [] (q_profileId q) = id)).

Lemma count_profile_counted m key n id :
  profile_counted id (count_profile m key n) =
  (let c := profile_counted id m in
   if decide (id = key) then Counted (n_queries c + n_queries n) (n_blocked c + n_blocked n) else c).
Proof. unfold profile_counted, count_profile. rewrite map_get_set. destruct (decide (id = key)) as [-> |]; done. Qed.

(** Putting back the counts of the profiles; each profile stands once in them. *)
Lemma count_profiles_back old : ∀ m id, map_ok old →
  let r := profile_counted id (fold_left (λ m e, count_profile m e.1 e.2) old m) in
  n_queries r = n_queries (profile_counted id m) + n_queries (profile_counted id old) ∧
  n_blocked r = n_blocked (profile_counted id m) + n_blocked (profile_counted id old).
Proof.
  induction old as [|[k n] old IH]; intros m id Hok; cbn [fold_left fst snd]; [cbn; split; lia |].
  apply NoDup_cons in Hok as [Hk Hok]. destruct (IH (count_profile m k n) id Hok) as [-> ->].
  rewrite count_profile_counted.
  assert (profile_counted id ((k, n) :: old) = if decide (id = k) then n else profile_counted id old) as ->.
  { unfold profile_counted. cbn [map_get]. by destruct (decide (id = k)). }
  destruct (decide (id = k)) as [-> |]; [|done].
  assert (profile_counted k old = Counted 0 0) as -> by (unfold profile_counted; by rewrite (proj2 (map_get_None old k) Hk)).
  cbn. split; lia.
Qed.

Lemma count_profile_ok m key n : map_ok m → map_ok (count_profile m key n).
Proof. apply map_set_ok. Qed.
Lemma count_profiles_ok old : ∀ m, map_ok m → map_ok (fold_left (λ m e, count_profile m e.1 e.2) old m).
Proof. induction old as [|e old IH]; intros m Hm; [done |]. by apply IH, count_profile_ok. Qed.

Lemma additive_queries : additive p_queries (λ _, 1).
Proof. by split. Qed.
Lemma additive_blocked : additive p_blocked (λ q, one (q_blocked q)).
Proof. by split. Qed.
Lemma additive_cached : additive p_cached (λ q, one (q_cached q)).
Proof. by split. Qed.
Lemma additive_queries_of id : additive (queries_of id) (of_profile id).
Proof.
  unfold of_profile, queries_of, one. split; [done | | intros s old Hok; by apply count_profiles_back].
  intros s q. cbn [record cur p_byProfile]. rewrite count_profile_counted.
  destruct (decide _) as [-> | Hn]; cbn [n_queries n_blocked]; [by rewrite bool_decide_true |].
  rewrite bool_decide_false by done. lia.
Qed.
Lemma additive_blocked_of id : additive (blocked_of id) (λ q, if q_blocked q then of_profile id q else 0).
Proof.
  unfold of_profile, blocked_of, one. split; [done | | intros s old Hok; by apply count_profiles_back].
  intros s q. cbn [record cur p_byProfile]. rewrite count_profile_counted.
  destruct (decide _) as [-> | Hn]; cbn [n_queries n_blocked].
  - rewrite bool_decide_true by done. by destruct (q_blocked q).
  - rewrite bool_decide_false by done. destruct (q_blocked q); lia.
Qed.

(** ** The order of the report *)

Section Sort.
Context {A : Type} (cmp : A → A → Z).

Lemma insert_cmp_perm x l : insert_cmp cmp x l ≡ₚ x :: l.
Proof. induction l as [|y l IH]; [done |]. cbn [insert_cmp]. destruct (_ <? _); [|done]. rewrite IH. apply Permutation_swap. Qed.
Lemma sort_cmp_perm l : sort_cmp cmp l ≡ₚ l.
Proof. induction l as [|x l IH]; [done |]. cbn. by rewrite insert_cmp_perm, IH. Qed.

(** Sorted by a number that the comparison puts in descending order. *)
Context (key : A → Z) (Hcmp : ∀ x y, 0 < cmp x y → key x ≤ key y) (Hcmp2 : ∀ x y, cmp x y ≤ 0 → key y ≤ key x).

Lemma insert_cmp_sorted x l : StronglySorted (λ x y, key y ≤ key x) l → StronglySorted (λ x y, key y ≤ key x) (insert_cmp cmp x l).
Proof.
  induction 1 as [|y l Hl IH Hy]; cbn [insert_cmp]; [by repeat constructor |].
  destruct (Z.ltb_spec 0 (cmp x y)) as [Hc | Hc].
  - constructor; [done |]. rewrite insert_cmp_perm. constructor; [by apply Hcmp | done].
  - pose proof (Hcmp2 x y Hc) as Hyx. constructor; [by constructor |]. constructor; [done |].
    eapply Forall_impl; [exact Hy |]. cbn. lia.
Qed.
Lemma sort_cmp_sorted l : StronglySorted (λ x y, key y ≤ key x) (sort_cmp cmp l).
Proof. induction l as [|x l IH]; [constructor |]. by apply insert_cmp_sorted. Qed.

(** The first of a sorted list are the greatest of all. *)
Lemma sort_cmp_take n l : ∃ rest, take n (sort_cmp cmp l) ++ rest ≡ₚ l ∧
  ∀ x y, x ∈ take n (sort_cmp cmp l) → y ∈ rest → key y ≤ key x.
Proof.
  exists (drop n (sort_cmp cmp l)). rewrite take_drop. split; [apply sort_cmp_perm |].
  pose proof (sort_cmp_sorted l) as Hs. rewrite <- (take_drop n (sort_cmp cmp l)) in Hs.
  intros x y Hx Hy. exact (StronglySorted_app_1_elem_of _ _ _ _ _ Hs Hx Hy).
Qed.
End Sort.

(** ** Periods *)

Definition top_sum : list (jstr * top_entry) → Z := map_sum t_count.

Record period_ok (p : period) : Prop := {
  pk_profiles : map_ok (p_byProfile p);
  pk_top : map_ok (p_top p);
  pk_counts : Forall (λ e, 0 < t_count e.2) (p_top p);
  pk_topSize : map_size (p_top p) ≤ MAX_TOP_KEYS;
  pk_clients : NoDup (p_clients p) ∧ Z.of_nat (length (p_clients p)) ≤ MAX_CLIENTS;
  pk_blocked : top_sum (p_top p) ≤ p_blocked p ≤ p_queries p;
  pk_cached : 0 ≤ p_cached p ≤ p_queries p }.

Lemma top_sum_perm a b : a ≡ₚ b → top_sum a = top_sum b.
Proof. unfold top_sum, map_sum. induction 1; cbn in *; lia. Qed.
Lemma top_sum_nonneg l : Forall (λ e, 0 < t_count e.2) l → 0 ≤ top_sum l.
Proof. unfold top_sum, map_sum. induction 1; cbn in *; lia. Qed.
Lemma top_sum_set m k e : map_ok m →
  top_sum (map_set m k e) = top_sum m - match map_get m k with Some o => t_count o | None => 0 end + t_count e.
Proof.
  unfold map_ok, top_sum, map_sum. induction m as [|[k1 v1] m IH]; [cbn; lia |]. intros [Hn Hm]%NoDup_cons.
  cbn [map_set map_get]. destruct (decide (k = k1)) as [-> |]; cbn [foldr snd]; [lia |]. rewrite (IH Hm). lia.
Qed.

(** What makes a list of blocked names fine, whatever its size. *)
Definition top_fine (top : list (jstr * top_entry)) : Prop := map_ok top ∧ Forall (λ e, 0 < t_count e.2) top.

Lemma top_fine_set m k e : top_fine m → 0 < t_count e → top_fine (map_set m k e).
Proof. intros [Hm Hc] He. split; [by apply map_set_ok |]. by apply map_set_Forall. Qed.

Lemma pruned_fine top : top_fine top → top_fine (pruned top) ∧ map_size (pruned top) ≤ MAX_TOP_KEYS ∧ top_sum (pruned top) ≤ top_sum top.
Proof.
  intros [Hm Hc]. unfold pruned. destruct (Z.ltb_spec MAX_TOP_KEYS (map_size top)); [|split_and!; [by split | lia | lia]].
  unfold _pruneTop. set (l := sort_cmp _ top). assert (l ≡ₚ top) as Hp by apply sort_cmp_perm. set (n := Z.to_nat _).
  assert (map_ok l ∧ Forall (λ e, 0 < t_count e.2) l) as [Hlm Hlc] by (split; [unfold map_ok; by rewrite Hp | by rewrite Hp]).
  split_and!.
  - split; [unfold map_ok; rewrite fmap_take; by apply (sublist_NoDup _ _ Hlm), sublist_take | by apply Forall_take].
  - assert (Z.of_nat n = 3072) as Hn by (unfold n; by rewrite Z2Nat.id).
    unfold map_size. rewrite length_take. unfold MAX_TOP_KEYS. lia.
  - rewrite <- (top_sum_perm _ _ Hp). rewrite <- (take_drop n l) at 2. unfold top_sum. rewrite map_sum_app.
    pose proof (top_sum_nonneg (drop n l) (Forall_drop _ _ _ Hlc)). unfold top_sum in *. lia.
Qed.

Lemma count_top_fine top q : top_fine top → map_size top ≤ MAX_TOP_KEYS →
  top_fine (count_top top q) ∧ map_size (count_top top q) ≤ MAX_TOP_KEYS ∧ top_sum (count_top top q) ≤ top_sum top + 1.
Proof.
  intros Hf Hs. unfold count_top. destruct (given (q_domain q)) as [domain|]; [|split_and!; [done | done | lia]].
  set (k := top_key _ _). destruct (map_get top k) as [e|] eqn:Hg.
  - pose proof (map_get_Forall _ _ _ _ (proj2 Hf) Hg) as He. cbn in He. split_and!.
    + apply top_fine_set; [done |]. cbn. lia.
    + unfold map_size. rewrite <- (length_fmap fst), map_set_keys, decide_True, length_fmap; [done |].
      apply map_get_elem in Hg. by apply (list_elem_of_fmap_2 fst) in Hg.
    + rewrite top_sum_set, Hg by apply Hf. cbn. lia.
  - destruct (pruned_fine (map_set top k (Top domain 1 (q_profileId q)))) as (H1 & H2 & H3); [by apply top_fine_set |].
    split_and!; [done | done |]. rewrite top_sum_set, Hg in H3 by apply Hf. cbn in H3. lia.
Qed.

Lemma back_tops_fine old : ∀ top, top_fine old → top_fine top →
  let r := fold_left back_top old top in top_fine r ∧ top_sum r = top_sum top + top_sum old.
Proof.
  induction old as [|[k e] old IH]; intros top [Ho Hc] Hf; cbn [fold_left]; [split; [done | cbn; lia] |].
  apply NoDup_cons in Ho as [_ Ho]. apply Forall_cons in Hc as [He Hc]. cbn in He.
  destruct (IH (back_top top (k, e))) as [H1 H2]; [by split | |split; [done |]].
  - unfold back_top. cbn [fst snd]. destruct (map_get top k) as [o|] eqn:Hg; apply top_fine_set; try done.
    pose proof (map_get_Forall _ _ _ _ (proj2 Hf) Hg) as Hpo. cbn in *. lia.
  - rewrite H2. unfold back_top. cbn [fst snd].
    assert (top_sum ((k, e) :: old) = t_count e + top_sum old) as -> by done.
    destruct (map_get top k) as [o|] eqn:Hg; (rewrite top_sum_set by apply Hf); rewrite Hg; cbn; lia.
Qed.

Lemma add_client_ok l mac : NoDup l ∧ Z.of_nat (length l) ≤ MAX_CLIENTS →
  NoDup (add_client l mac) ∧ Z.of_nat (length (add_client l mac)) ≤ MAX_CLIENTS.
Proof.
  intros [Hd Hl]. unfold add_client. destruct (Z.ltb_spec (Z.of_nat (length l)) MAX_CLIENTS); [|done].
  case_bool_decide as Hm; [done |]. rewrite length_app. cbn [length]. split; [|lia].
  apply NoDup_app. split_and!; [done | set_solver | apply NoDup_singleton].
Qed.
Lemma add_clients_ok old : ∀ l, NoDup l ∧ Z.of_nat (length l) ≤ MAX_CLIENTS →
  NoDup (fold_left add_client old l) ∧ Z.of_nat (length (fold_left add_client old l)) ≤ MAX_CLIENTS.
Proof. induction old as [|m old IH]; intros l Hl; [done |]. by apply IH, add_client_ok. Qed.

Lemma emptyPeriod_ok now : period_ok (emptyPeriod now).
Proof. by repeat (split || constructor). Qed.

Lemma record_ok s q : period_ok (cur s) → period_ok (cur (record s q)).
Proof.
  intros Hp. destruct (count_top_fine (p_top (cur s)) q) as (Hf & Hs & Hsum); [split; apply Hp | apply Hp |].
  pose proof (pk_blocked _ Hp). pose proof (pk_cached _ Hp).
  unfold record, one. split; cbn [cur p_byProfile p_top p_clients p_blocked p_queries p_cached].
  - apply count_profile_ok, Hp.
  - destruct (q_blocked q); [apply Hf | apply Hp].
  - destruct (q_blocked q); [apply Hf | apply Hp].
  - destruct (q_blocked q); [done | apply Hp].
  - destruct (given (q_mac q)); [by apply add_client_ok, Hp | apply Hp].
  - destruct (q_blocked q); lia.
  - destruct (q_cached q); lia.
Qed.

Lemma giveBack_ok s old : period_ok (cur s) → period_ok old → period_ok (cur (giveBack s old)).
Proof.
  intros Hp Ho. destruct (back_tops_fine (p_top old) (p_top (cur s))) as [Hf Hsum]; [split; apply Ho | split; apply Hp |].
  destruct (pruned_fine _ Hf) as (Hf2 & Hs2 & Hsum2).
  pose proof (pk_blocked _ Hp). pose proof (pk_cached _ Hp). pose proof (pk_blocked _ Ho). pose proof (pk_cached _ Ho).
  unfold giveBack. split; cbn [cur p_byProfile p_top p_clients p_blocked p_queries p_cached].
  - apply count_profiles_ok, Hp.
  - apply Hf2.
  - apply Hf2.
  - done.
  - apply add_clients_ok, Hp.
  - lia.
  - lia.
Qed.

(** ** Reports *)

(** A report says what its period counted: its most frequent blocked names, its devices. *)
Lemma body_of_spec localeCompare p to : period_ok p →
  let b := body_of localeCompare p to in
  (∀ id, id ≠ [] → profile_counted id (bo_byProfile b) = profile_counted id (p_byProfile p)) ∧
  (length (bo_topBlocked b) <= TOP_N)%nat ∧
  (∃ rest, bo_topBlocked b ++ rest ≡ₚ (p_top p).*2 ∧ ∀ x y, x ∈ bo_topBlocked b → y ∈ rest → t_count y ≤ t_count x) ∧
  bo_clientsSeen b ≡ₚ p_clients p.
Proof.
  intros Hp b. unfold b, body_of. cbn [bo_byProfile bo_topBlocked bo_clientsSeen]. split_and!.
  - intros id Hid. unfold profile_counted. induction (p_byProfile p) as [|[k n] m IH]; [done |]. cbn [List.filter fst map_get].
    destruct (decide (id = k)) as [<- |].
    + destruct id; [done |]. cbn [nonempty map_get]. by rewrite decide_True.
    + destruct (nonempty k); [|done]. cbn [map_get]. by rewrite decide_False.
  - rewrite length_take. lia.
  - apply sort_cmp_take; unfold top_order; intros x y; destruct (Z.eqb_spec (t_count y - t_count x) 0); lia.
  - apply sort_by_perm.
Qed.
