(* ===== verification/Neighbors.v ===== *)
(** * src/dns/neighbors.js

    Which device has an address: the neighbour table of the kernel, its cache
    and when it is read again.  Reading the table is an effect, its text an
    input; the calls of [macFor] are numbered. *)

From S2P Require Import Prelude JsBuffer JsValues JsText JsMap Crypto DomainSet DnsConfig Machine.

Local Open Scope Z_scope.

Section Neighbors.
Context `{Unicode} `{Node}.

Definition neighbor (v : json) : option (jstr * jstr) :=
  match v with
  | JObj e =>
      match field e (js "dst"), normalizeMac (or_text (field e (js "lladdr")) []) with
      | Some (JStr dst), Some mac =>
          let states := match field e (js "state") with Some (JArr l) => l | Some v => [v] | None => [] end in
          if (64 <? length dst)%nat || existsb (λ s, is_str (Some s) (js "FAILED") || is_str (Some s) (js "INCOMPLETE")) states
          then None else Some (toLowerCase dst, mac)
      | _, _ => None
      end
  | _ => None
  end.

Definition parseNeighbors (text : jstr) : list (jstr * jstr) :=
  if nonempty (trim text) then
    match JSON_parse text with
    | Some (JArr arr) =>
        fold_left (λ m e, map_set m e.1 e.2) (omap neighbor (take (Z.to_nat 8192) arr)) []
    | _ => []
    end
  else [].

(** The text before the sign of the zone, and the IPv4 address behind [::ffff:]. *)
Definition plainIp (ip : jstr) : jstr :=
  let s := toLowerCase ip in
  let pct := index_of 37 s 0 in
  let s := if pct =? -1 then s else take (Z.to_nat pct) s in
  if starts_with (js "::ffff:") s && includes 46 s then drop 7 s else s.

(** ** The cache *)

Context (minRefreshMs maxAgeMs : Z).

(** [nb_waiting]: the calls that wait for the table being read, when it is. *)
Record neighbors := Neighbors {
  nb_map : list (jstr * jstr); nb_loadedAt : Z; nb_waiting : option (list (nat * jstr)); nb_calls : nat }.
Definition newNeighbors : neighbors := Neighbors [] 0 None 0.

Inductive nb_effect := ReadTable | MacIs (call : nat) (mac : option jstr).
Definition nbop := mop neighbors nb_effect.

(** [mac || null] *)
Definition mac_of (m : list (jstr * jstr)) (key : jstr) : option jstr :=
  match map_get m key with Some [] => None | mac => mac end.

Definition refresh (n : nat) (key : jstr) : nbop := λ s,
  match nb_waiting s with
  | Some ws => (Neighbors (nb_map s) (nb_loadedAt s) (Some (ws ++ [(n, key)])) (S n), [])
  | None => (Neighbors (nb_map s) (nb_loadedAt s) (Some [(n, key)]) (S n), [ReadTable])
  end.

Definition macFor (ip : jstr) (now : Z) : nbop := λ s,
  let n := nb_calls s in
  let key := plainIp ip in
  let age := now - nb_loadedAt s in
  let mac := mac_of (nb_map s) key in
  if (bool_decide (mac = None) && (minRefreshMs <=? age)) || (maxAgeMs <=? age) then refresh n key s
  else (Neighbors (nb_map s) (nb_loadedAt s) (nb_waiting s) (S n), [MacIs n mac]).

(** The table was read; [None]: the program failed. *)
Definition table_read (text : option jstr) (now : Z) : nbop := λ s,
  match nb_waiting s with
  | Some ws =>
      let m := match text with Some t => parseNeighbors t | None => nb_map s end in
      (Neighbors m now None (nb_calls s), (λ w, MacIs w.1 (mac_of m w.2)) <$> ws)
  | None => (s, [])
  end.

Inductive nb_input := AskMac (ip : jstr) (now : Z) | TableRead (text : option jstr) (now : Z).
Definition nb_step (i : nb_input) : nbop :=
  match i with AskMac ip now => macFor ip now | TableRead text now => table_read text now end.
End Neighbors.

(** ** Every call is answered *)

Definition nb_ended (x : nb_effect) : option nat := match x with MacIs n _ => Some n | ReadTable => None end.
Definition nb_waits (s : neighbors) : list nat := match nb_waiting s with Some ws => ws.*1 | None => [] end.

Section Facts.
Context `{Unicode} `{Node} (minRefreshMs maxAgeMs : Z).
Abbreviation step := (nb_step minRefreshMs maxAgeMs).

Lemma answers_ended m (ws : list (nat * jstr)) : omap nb_ended ((λ w, MacIs w.1 (mac_of m w.2)) <$> ws) = ws.*1.
Proof. induction ws as [|w ws IH]; [done |]. cbn. by f_equal. Qed.

Lemma nb_step_balanced i s : balanced nb_ended nb_waits nb_calls s (step i s).
Proof.
  destruct i as [ip now | text now]; cbn [nb_step].
  - unfold macFor. exists 1%nat. destruct (_ || _).
    + unfold refresh, nb_waits. destruct (nb_waiting s); cbn; (split; [lia |]); by rewrite ?fmap_app.
    + cbn. split; [lia |]. by rewrite Permutation_app_comm.
  - unfold table_read. exists 0%nat. unfold nb_waits. destruct (nb_waiting s) as [ws|] eqn:E; cbn [fst snd nb_calls nb_waiting].
    + rewrite answers_ended. cbn. split; [lia | by rewrite !app_nil_r].
    + rewrite E. cbn. split; [lia | done].
Qed.

(** Whatever the table reads, each call of [macFor] waits for it or was answered, once. *)
Lemma neighbors_answer inputs :
  let t := mrun step inputs newNeighbors in ledger nb_ended nb_waits nb_calls t.1 (concat t.2.*2).
Proof. cbv zeta. apply (mrun_ledger _ _ _ step (λ _, True)); [done.. |]. intros i s _. split; [done | apply nb_step_balanced]. Qed.

(** The table is read by one program at a time, and only when it is old enough. *)
Lemma read_when_old i s : ReadTable ∈ (step i s).2 →
  nb_waiting s = None ∧ ∃ ip now, i = AskMac ip now ∧ (minRefreshMs ≤ now - nb_loadedAt s ∨ maxAgeMs ≤ now - nb_loadedAt s).
Proof.
  destruct i as [ip now | text now]; cbn [nb_step].
  - unfold macFor. destruct (_ || _) eqn:E; [|by intros [? | ?%elem_of_nil]%elem_of_cons].
    unfold refresh. destruct (nb_waiting s); [by intros ?%elem_of_nil |]. intros _. split; [done |]. exists ip, now. split; [done |].
    apply orb_true_iff in E as [[_ E]%andb_true_iff | E]; lia.
  - unfold table_read. destruct (nb_waiting s); [|by intros ?%elem_of_nil]. cbn. by intros (? & ? & _)%list_elem_of_fmap.
Qed.
End Facts.
