(* ===== verification/Upstream.v ===== *)
(** * src/dns/upstream.js

    Allowed questions on their way out: over HTTPS on one HTTP/2 connection
    with fixed addresses (DohClient), to the router over UDP and TCP, and the
    fallback between them (Upstream).  Connections, requests and questions
    are numbered; what the network does is input. *)

From S2P Require Import Prelude JsBuffer JsMap DnsConfig Machine.

Local Open Scope Z_scope.

Record provider := Provider { pv_url : jstr; pv_ips : list jstr }.
Definition PROVIDERS : list (jstr * provider) :=
  [(js "quad9", Provider (js "https://dns.quad9.net/dns-query") (js <$> ["9.9.9.9"; "149.112.112.112"]%string));
   (js "cloudflare", Provider (js "https://cloudflare-dns.com/dns-query") (js <$> ["1.1.1.1"; "1.0.0.1"]%string));
   (js "dns0", Provider (js "https://dns0.eu/dns-query") (js <$> ["193.110.81.0"; "185.253.5.0"]%string))].
Definition MAX_RESPONSE : Z := 65535.
Definition DOWN_AFTER : Z := 3.
Definition DOWN_MS : Z := 60000.

(** ** DNS over HTTPS: the connection *)

(** An attempt over all addresses: those left with the current one first (no
    address: the name is looked up), how many were tried, who waits. *)
Record attempt := Attempt { at_conn : nat; at_ips : list (option jstr); at_tried : Z; at_waiting : list nat }.
(** [dh_conns]: connections made so far, which numbers them. *)
Record doh := Doh {
  dh_ips : list jstr; dh_session : option nat; dh_connecting : option attempt; dh_ipIndex : Z; dh_conns : nat }.
Definition newDoh (ips : list jstr) : doh := Doh ips None None 0 0.

Inductive doh_effect :=
  | ConnectTo (conn : nat) (ip : option jstr) | Destroy (conn : nat)
  | Request (conn question : nat) | NoSession (question : nat) (code : string).
Definition dop := mop doh doh_effect.

Definition d_set (session : option nat) (connecting : option attempt) (ipIndex : Z) (conns : nat) (d : doh) : doh :=
  Doh (dh_ips d) session connecting ipIndex conns.

(** [candidates]: from the address that worked last. *)
Definition rotated (d : doh) : list (option jstr) :=
  let n := length (dh_ips d) in
  match dh_ips d with
  | [] => [None]
  | _ => (λ i, dh_ips d !! Z.to_nat ((dh_ipIndex d + Z.of_nat i) mod Z.of_nat n)) <$> seq 0 n
  end.

Definition _drop (conn : nat) : dop := λ d,
  (mset (d_set (if bool_decide (dh_session d = Some conn) then None else dh_session d) (dh_connecting d) (dh_ipIndex d) (dh_conns d))
   ⨾ mdo [Destroy conn]) d.

(** The next address, or the end of the attempt. *)
Definition try_next (ips : list (option jstr)) (tried : Z) (waiting : list nat) (code : string) : dop := λ d,
  match ips with
  | ip :: _ => (d_set (dh_session d) (Some (Attempt (dh_conns d) ips tried waiting)) (dh_ipIndex d) (S (dh_conns d)) d, [ConnectTo (dh_conns d) ip])
  | [] => (d_set (dh_session d) None (dh_ipIndex d) (dh_conns d) d, (λ q, NoSession q code) <$> waiting)
  end.

(** [_session()] for a question; [alive]: the session is neither closed nor destroyed. *)
Definition _session (question : nat) (alive : bool) : dop := λ d,
  match (if alive then dh_session d else None), dh_connecting d with
  | Some s, _ => (d, [Request s question])
  | None, Some a =>
      (d_set (dh_session d) (Some (Attempt (at_conn a) (at_ips a) (at_tried a) (at_waiting a ++ [question]))) (dh_ipIndex d) (dh_conns d) d, [])
  | None, None => try_next (rotated d) 0 [question] "connect" d
  end.

Definition connected (conn : nat) : dop := λ d,
  match dh_connecting d with
  | Some a =>
      if bool_decide (at_conn a = conn) then
        (d_set (Some conn) None ((dh_ipIndex d + at_tried a) mod Z.max 1 (Z.of_nat (length (dh_ips d)))) (dh_conns d) d,
         Request conn <$> at_waiting a)
      else (d, [])
  | None => (d, [])
  end.

(** The connection failed or took too long. *)
Definition connect_failed (conn : nat) (code : string) : dop := λ d,
  match dh_connecting d with
  | Some a =>
      if bool_decide (at_conn a = conn)
      then (_drop conn ⨾ try_next (tail (at_ips a)) (at_tried a + 1) (at_waiting a) code) d
      else (d, [])
  | None => (d, [])
  end.

(** [close] of the session: forgotten; error, GOAWAY, idle: destroyed as well. *)
Definition session_closed (conn : nat) : dop := λ d,
  (d_set (if bool_decide (dh_session d = Some conn) then None else dh_session d) (dh_connecting d) (dh_ipIndex d) (dh_conns d) d, []).
Definition close : dop := λ d, match dh_session d with Some s => _drop s d | None => (d, []) end.

Inductive doh_input :=
  | Ask (question : nat) (alive : bool) | ConnectedTo (conn : nat) | ConnectFailed (conn : nat) (code : string)
  | SessionLost (conn : nat) | SessionClosed (conn : nat) | CloseDoh.
Definition doh_step (i : doh_input) : dop :=
  match i with
  | Ask q alive => _session q alive
  | ConnectedTo c => connected c
  | ConnectFailed c code => connect_failed c code
  | SessionLost c => _drop c
  | SessionClosed c => session_closed c
  | CloseDoh => close
  end.

(** ** One request *)

(** The body: the id is zero. *)
Definition doh_body (wire : list Z) : res (list Z) := writeUInt16BE wire 0 0.

(** [rq_done]: how the promise was settled, which happens once. *)
Record request := Req { rq_status : Z; rq_size : Z; rq_chunks : list Z; rq_done : option (res (list Z)) }.
Definition newRequest : request := Req 0 0 [] None.
Inductive request_event := Response (status : Z) | Data (c : list Z) | RequestEnd | RequestError | RequestTimeout.

Definition settled (r : request) (v : res (list Z)) : request :=
  Req (rq_status r) (rq_size r) (rq_chunks r) (Some (default v (rq_done r))).
Definition on_request (r : request) (e : request_event) : request :=
  match e with
  | Response status => Req status (rq_size r) (rq_chunks r) (rq_done r)
  | Data c =>
      let size := rq_size r + blen c in
      if MAX_RESPONSE <? size then settled (Req (rq_status r) size (rq_chunks r) (rq_done r)) (Throw "too_large")
      else Req (rq_status r) size (rq_chunks r ++ c) (rq_done r)
  | RequestEnd =>
      settled r (if negb (rq_status r =? 200) then Throw "http_status"
                 else if blen (rq_chunks r) <? 12 then Throw "short" else Ok (rq_chunks r))
  | RequestError => settled r (Throw "stream")
  | RequestTimeout => settled r (Throw "timeout")
  end.

(** ** The router *)

(** [q.writeUInt16BE(id, 0)] *)
Definition with_id (id : Z) (wire : list Z) : res (list Z) := writeUInt16BE wire id 0.

Inductive udp_event := Datagram (msg : list Z) (address : jstr) (port : Z) | UdpError | UdpTimeout.
(** A datagram that counts: of the router, long enough, with the id. *)
Definition udp_answer (ip : jstr) (port id : Z) (msg : list Z) (address : jstr) (from : Z) : bool :=
  bool_decide (address = ip) && (from =? port) && negb (blen msg <? 12)
  && match readUInt16BE msg 0 with Ok i => i =? id | _ => false end.
Fixpoint udpQuery (ip : jstr) (port id : Z) (es : list udp_event) : option (res (list Z)) :=
  match es with
  | [] => None
  | Datagram msg address from :: es => if udp_answer ip port id msg address from then Some (Ok msg) else udpQuery ip port id es
  | UdpError :: _ => Some (Throw "udp")
  | UdpTimeout :: _ => Some (Throw "timeout")
  end.

(** The question with its length before it. *)
Definition tcp_frame (q : list Z) : res (list Z) := len ← writeUInt16BE (alloc 2) (blen q) 0; Ok (len ++ q).

Inductive tcp_event := Chunk (c : list Z) | TcpError | TcpTimeout | TcpClosed.
(** What the bytes so far give: an error, the answer, or nothing yet. *)
Definition tcp_answer (id : Z) (buf : list Z) : option (res (list Z)) :=
  if MAX_RESPONSE + 2 <? blen buf then Some (Throw "too_large")
  else
    match readUInt16BE buf 0 with
    | Ok n =>
        if blen buf <? 2 + n then None
        else
          let msg := subarray buf 2 (2 + n) in
          Some (if (blen msg <? 12) || negb (match readUInt16BE msg 0 with Ok i => i =? id | _ => false end)
                then Throw "mismatch" else Ok msg)
    | _ => None
    end.
Fixpoint tcpQuery (id : Z) (buf : list Z) (es : list tcp_event) : option (res (list Z)) :=
  match es with
  | [] => None
  | Chunk c :: es => match tcp_answer id (buf ++ c) with Some r => Some r | None => tcpQuery id (buf ++ c) es end
  | TcpError :: _ => Some (Throw "tcp")
  | TcpTimeout :: _ => Some (Throw "timeout")
  | TcpClosed :: _ => Some (Throw "closed")
  end.

(** UDP first; a cut answer is asked for again over TCP.  [None]: still waiting. *)
Definition routerQuery (ip : jstr) (port id1 id2 : Z) (udp : list udp_event) (tcp : list tcp_event) : option (res (list Z)) :=
  match udpQuery ip port id1 udp with
  | Some (Ok r) =>
      match readUInt16BE r 2 with
      | Ok f => if Z.land f 512 =? 0 then Some (Ok r) else tcpQuery id2 [] tcp
      | Throw e => Some (Throw e)
      | NoFuel => Some NoFuel
      end
  | r => r
  end.

(** ** The fallback *)

(** Where a question is: at the provider, with its sender, or at the router,
    as a fallback or as a local name. *)
Inductive stage := AtDoh (wire : list Z) (fromIp : option jstr) | AtRouter (fallback : bool).
Record upstream := Upstream {
  us_fallbackRouter : bool; us_streak : Z; us_lastOkAt : option Z; us_lastError : option (Z * string);
  us_lastFallbackAt : option Z; us_dohFailures : Z; us_fallbacks : Z; us_dohDownUntil : Z;
  us_open : list (nat * stage); us_questions : nat }.
Definition newUpstream (fallbackRouter : bool) : upstream := Upstream fallbackRouter 0 None None None 0 0 0 [] 0.

Inductive via := ViaDoh | ViaRouter.
Inductive up_effect :=
  | AskDoh (question : nat) (wire : list Z) | AskRouter (question : nat) (ip : jstr) (wire : list Z)
  | Answered (question : nat) (wire : list Z) (v : via) | Failed (question : nat) (code : string).
Definition uop := mop upstream up_effect.

Definition u_open (open_ : list (nat * stage)) (n : nat) (u : upstream) : upstream :=
  Upstream (us_fallbackRouter u) (us_streak u) (us_lastOkAt u) (us_lastError u) (us_lastFallbackAt u) (us_dohFailures u)
    (us_fallbacks u) (us_dohDownUntil u) open_ n.
(** [lastOkAt], and the streak is over. *)
Definition u_ok (now : Z) (u : upstream) : upstream :=
  Upstream (us_fallbackRouter u) 0 (Some now) (us_lastError u) (us_lastFallbackAt u) (us_dohFailures u)
    (us_fallbacks u) (us_dohDownUntil u) (us_open u) (us_questions u).
Definition u_failure (now : Z) (code : string) (u : upstream) : upstream :=
  let streak := us_streak u + 1 in
  let down := DOWN_AFTER <=? streak in
  Upstream (us_fallbackRouter u) (if down then 0 else streak) (us_lastOkAt u) (Some (now, code)) (us_lastFallbackAt u) (us_dohFailures u + 1)
    (us_fallbacks u) (if down then now + DOWN_MS else us_dohDownUntil u) (us_open u) (us_questions u).
Definition u_fallback (now : Z) (u : upstream) : upstream :=
  Upstream (us_fallbackRouter u) (us_streak u) (us_lastOkAt u) (us_lastError u) (Some now) (us_dohFailures u)
    (us_fallbacks u + 1) (us_dohDownUntil u) (us_open u) (us_questions u).

(** A router that may be asked: known, and not the one that asks. *)
Definition usable (rip fromIp : option jstr) : option jstr :=
  match rip with
  | Some (_ :: _) => if bool_decide (rip = fromIp) then None else rip
  | _ => None
  end.

Definition close_question (n : nat) : uop := mset (λ u, u_open (map_delete (us_open u) n) (us_questions u) u).
Definition at_router (n : nat) (ip : jstr) (wire : list Z) (fallback : bool) : uop :=
  mset (λ u, u_open (map_set (us_open u) n (AtRouter fallback)) (us_questions u) u) ⨾ mdo [AskRouter n ip wire].

(** [_router(wire, fromIp, err)]; [rip] is what [routerIp()] gives. *)
Definition _router (n : nat) (wire : list Z) (fromIp rip : option jstr) (code : string) : uop := λ u,
  match us_fallbackRouter u, usable rip fromIp with
  | true, Some ip => at_router n ip wire true u
  | _, _ => (close_question n ⨾ mdo [Failed n code]) u
  end.

Definition new_question : uop := mset (λ u, u_open (us_open u) (S (us_questions u)) u).

Definition query (wire : list Z) (fromIp rip : option jstr) (now : Z) : uop := λ u,
  let n := us_questions u in
  if now <? us_dohDownUntil u then (new_question ⨾ _router n wire fromIp rip "doh_down") u
  else (new_question ⨾ mset (λ u, u_open (map_set (us_open u) n (AtDoh wire fromIp)) (us_questions u) u) ⨾ mdo [AskDoh n wire]) u.

Definition local (wire : list Z) (fromIp rip : option jstr) : uop := λ u,
  let n := us_questions u in
  match usable rip fromIp with
  | Some ip => (new_question ⨾ at_router n ip wire false) u
  | None => (new_question ⨾ mdo [Failed n "no_router"]) u
  end.

(** The provider answered or failed. *)
Definition doh_settled (n : nat) (r : res (list Z)) (rip : option jstr) (now : Z) : uop := λ u,
  match map_get (us_open u) n with
  | Some (AtDoh wire fromIp) =>
      match r with
      | Ok a => (mset (u_ok now) ⨾ close_question n ⨾ mdo [Answered n a ViaDoh]) u
      | Throw code => (mset (u_failure now code) ⨾ _router n wire fromIp rip code) u
      | NoFuel => (u, [])
      end
  | _ => (u, [])
  end.

(** The router answered or failed. *)
Definition router_settled (n : nat) (r : res (list Z)) (now : Z) : uop := λ u,
  match map_get (us_open u) n with
  | Some (AtRouter fallback) =>
      match r with
      | Ok a => (mset (if fallback then u_fallback now else id) ⨾ close_question n ⨾ mdo [Answered n a ViaRouter]) u
      | Throw code => (close_question n ⨾ mdo [Failed n code]) u
      | NoFuel => (u, [])
      end
  | _ => (u, [])
  end.

Inductive up_input :=
  | Query (wire : list Z) (fromIp rip : option jstr) (now : Z) | Local (wire : list Z) (fromIp rip : option jstr)
  | DohSettled (n : nat) (r : res (list Z)) (rip : option jstr) (now : Z) | RouterSettled (n : nat) (r : res (list Z)) (now : Z).
Definition up_step (i : up_input) : uop :=
  match i with
  | Query wire fromIp rip now => query wire fromIp rip now
  | Local wire fromIp rip => local wire fromIp rip
  | DohSettled n r rip now => doh_settled n r rip now
  | RouterSettled n r now => router_settled n r now
  end.

(** ** Which way a question goes

    Over any run of the fallback: who is asked, with what, and when. *)

Definition up_ended (x : up_effect) : option nat := match x with Answered n _ _ | Failed n _ => Some n | _ => None end.
Definition up_waits (u : upstream) : list nat := (us_open u).*1.

(** The questions of a run: their bytes, their sender, and whether they are local names. *)
Definition question_of (i : up_input) : option (list Z * option jstr * bool) :=
  match i with Query wire from _ _ => Some (wire, from, false) | Local wire from _ => Some (wire, from, true) | _ => None end.

(** The provider was given up for a minute, after a failure. *)
Definition down (hist : list up_input) (u : upstream) : Prop :=
  us_dohDownUntil u = 0 ∨ ∃ n code rip t, DohSettled n (Throw code) rip t ∈ hist ∧ us_dohDownUntil u = t + DOWN_MS ∧ DOWN_AFTER ≤ us_dohFailures u.

Record up_ok (fallback : bool) (hist : list up_input) (u : upstream) : Prop := {
  uk_fallback : us_fallbackRouter u = fallback;
  uk_open : map_ok (us_open u);
  uk_count : us_questions u = length (omap question_of hist);
  uk_asked : Forall (λ e, ∃ w f l, omap question_of hist !! e.1 = Some (w, f, l) ∧ ∀ w' f', e.2 = AtDoh w' f' → w' = w ∧ f' = f ∧ l = false) (us_open u);
  uk_streak : 0 ≤ us_streak u < DOWN_AFTER ∧ us_streak u ≤ us_dohFailures u;
  uk_down : down hist u }.

(** What an effect may be. *)
Definition up_fine (fallback : bool) (hist : list up_input) (x : up_effect) : Prop :=
  match x with
  | AskDoh n wire => ∃ from, omap question_of hist !! n = Some (wire, from, false)
  | AskRouter n ip wire => ip ≠ [] ∧ ∃ from l, omap question_of hist !! n = Some (wire, from, l) ∧ from ≠ Some ip ∧ (l = true ∨ fallback = true)
  | _ => True
  end.
(** A question that does not go to the provider: it was given up not long ago. *)
Definition skips_doh (hist : list up_input) (x : up_effect) : Prop :=
  ∀ w f r now, last hist = Some (Query w f r now) → 0 ≤ now → (∀ n w', x ≠ AskDoh n w') →
    ∃ n code rip t, DohSettled n (Throw code) rip t ∈ hist ∧ now < t + DOWN_MS.

Lemma usable_spec rip from ip : usable rip from = Some ip → ip ≠ [] ∧ from ≠ Some ip ∧ rip = Some ip.
Proof. unfold usable. destruct rip as [[|c r]|]; [done | | done]. case_bool_decide as H; [done |]. intros [= <-]. split_and!; [done | | done]. congruence. Qed.

Lemma asked_snoc hist i n v : omap question_of hist !! n = Some v → omap question_of (hist ++ [i]) !! n = Some v.
Proof. intros H. rewrite omap_app. by apply lookup_app_l_Some. Qed.
Lemma asked_last hist i v : question_of i = Some v → omap question_of (hist ++ [i]) !! length (omap question_of hist) = Some v.
Proof. intros H. rewrite omap_app. cbn. rewrite H, lookup_app_r, Nat.sub_diag by done. done. Qed.

Section Run.
Context (fallback : bool).

Definition entry_fine (hist : list up_input) (e : nat * stage) : Prop :=
  ∃ w f l, omap question_of hist !! e.1 = Some (w, f, l) ∧ ∀ w' f', e.2 = AtDoh w' f' → w' = w ∧ f' = f ∧ l = false.

Lemma entry_fine_snoc hist i e : entry_fine hist e → entry_fine (hist ++ [i]) e.
Proof. intros (w & f & l & Hl & He). exists w, f, l. split; [by apply asked_snoc | done]. Qed.

Lemma up_ok_next hist i u u' : up_ok fallback hist u →
  us_fallbackRouter u' = us_fallbackRouter u → map_ok (us_open u') → us_questions u' = length (omap question_of (hist ++ [i])) →
  Forall (λ e, e ∈ us_open u ∨ entry_fine (hist ++ [i]) e) (us_open u') →
  0 ≤ us_streak u' < DOWN_AFTER ∧ us_streak u' ≤ us_dohFailures u' → down (hist ++ [i]) u' → up_ok fallback (hist ++ [i]) u'.
Proof.
  intros Hu Hf Hm Hc Ho Hs Hd. split; [by rewrite Hf; apply Hu | done | done | | done | done].
  eapply Forall_impl; [exact Ho |]. intros e [He | He]; [|exact He]. apply entry_fine_snoc.
  pose proof (uk_asked _ _ _ Hu) as Ha. rewrite Forall_forall in Ha. by apply Ha.
Qed.

Lemma down_next hist i u u' : down hist u → us_dohDownUntil u' = us_dohDownUntil u → us_dohFailures u ≤ us_dohFailures u' → down (hist ++ [i]) u'.
Proof.
  intros [H | (n & c & r & t & Hin & Ht & Hf)] Hd Hm; [left; congruence |]. right. exists n, c, r, t. split_and!; [set_solver | congruence | lia].
Qed.

(** Going to the router, or not. *)
Lemma router_cases n wire from rip code u :
  (∃ ip, us_fallbackRouter u = true ∧ ip ≠ [] ∧ from ≠ Some ip ∧
     _router n wire from rip code u = (u_open (map_set (us_open u) n (AtRouter true)) (us_questions u) u, [AskRouter n ip wire])) ∨
  _router n wire from rip code u = (u_open (map_delete (us_open u) n) (us_questions u) u, [Failed n code]).
Proof.
  unfold _router. destruct (us_fallbackRouter u) eqn:Ef; [|by right]. destruct (usable rip from) as [ip|] eqn:E; [|by right].
  left. exists ip. destruct (usable_spec _ _ _ E) as (? & ? & _). done.
Qed.

Lemma open_entries hist u i : up_ok fallback hist u → Forall (λ e, e ∈ us_open u ∨ entry_fine (hist ++ [i]) e) (us_open u).
Proof. intros _. apply Forall_forall. auto. Qed.

Lemma new_number hist u : up_ok fallback hist u → us_questions u ∉ (us_open u).*1.
Proof.
  intros Hu (e & He & Hin)%list_elem_of_fmap. pose proof (uk_asked _ _ _ Hu) as Ha. rewrite Forall_forall in Ha.
  destruct (Ha e Hin) as (w & f & l & Hl & _). apply lookup_lt_Some in Hl. rewrite <- He, (uk_count _ _ _ Hu) in Hl. lia.
Qed.

Lemma map_set_keys_new {V} (m : list (nat * V)) n v : n ∉ m.*1 → (map_set m n v).*1 = m.*1 ++ [n].
Proof. intros H. by rewrite map_set_keys, decide_False. Qed.
Lemma map_set_keys_old {V} (m : list (nat * V)) n v w : map_get m n = Some w → (map_set m n v).*1 = m.*1.
Proof. intros H. rewrite map_set_keys, decide_True; [done |]. by apply map_get_elem, (list_elem_of_fmap_2 fst) in H. Qed.
Lemma map_delete_keys_perm {V} (m : list (nat * V)) n w : map_ok m → map_get m n = Some w → n :: (map_delete m n).*1 ≡ₚ m.*1.
Proof.
  unfold map_ok. induction m as [|[k v] m IH]; [done |]. intros Hm Hg. pose proof Hm as [Hn Hm']%NoDup_cons. cbn [map_get] in Hg.
  case_decide as Hk.
  - subst. by rewrite map_delete_first.
  - cbn [map_delete]. rewrite decide_False by done. rewrite !fmap_cons. cbn [fst]. rewrite Permutation_swap. by rewrite IH.
Qed.

Abbreviation balanced_ := (balanced up_ended up_waits us_questions).

(** A question that waits for its answer. *)
Lemma balanced_new u u' n x : us_questions u' = S (us_questions u) → (us_open u').*1 = (us_open u).*1 ++ [us_questions u] → up_ended x = None →
  n = us_questions u → balanced_ u (u', [x]).
Proof. intros Hc Ho Hx _. exists 1%nat. unfold up_waits. cbn. rewrite Hx, Hc, Ho. split; [lia | done]. Qed.
(** One that is over at once. *)
Lemma balanced_over u u' code : us_questions u' = S (us_questions u) → (us_open u').*1 = (us_open u).*1 → balanced_ u (u', [Failed (us_questions u) code]).
Proof. intros Hc Ho. exists 1%nat. unfold up_waits. cbn. rewrite Hc, Ho. split; [lia | by rewrite Permutation_app_comm]. Qed.
(** One that is settled, and one that goes on. *)
Lemma balanced_end u u' n st x : map_ok (us_open u) → map_get (us_open u) n = Some st → us_questions u' = us_questions u →
  us_open u' = map_delete (us_open u) n → up_ended x = Some n → balanced_ u (u', [x]).
Proof.
  intros Hm Hg Hc Ho Hx. exists 0%nat. unfold up_waits. cbn. rewrite Hx, Hc, Ho, app_nil_r. split; [lia |]. cbn. by eapply map_delete_keys_perm.
Qed.
Lemma balanced_on u u' x : us_questions u' = us_questions u → (us_open u').*1 = (us_open u).*1 → up_ended x = None → balanced_ u (u', [x]).
Proof. intros Hc Ho Hx. apply balanced_quiet; [done | done |]. cbn. by rewrite Hx. Qed.

(** What one step shows. *)
Definition step_fine (hist : list up_input) (u : upstream) (t : upstream * list up_effect) : Prop :=
  up_ok fallback hist t.1 ∧ Forall (λ x, up_fine fallback hist x ∧ skips_doh hist x) t.2 ∧ balanced_ u t.

Lemma no_skip hist i x : (∀ w f r now, i ≠ Query w f r now) → skips_doh (hist ++ [i]) x.
Proof. intros Hi w f r now. rewrite last_snoc. intros [= ->]. by destruct (Hi w f r now). Qed.

(** A state as it was, with other open questions. *)
Lemma ok_open hist i u o n : up_ok fallback hist u → map_ok o → n = length (omap question_of (hist ++ [i])) →
  Forall (λ e, e ∈ us_open u ∨ entry_fine (hist ++ [i]) e) o → up_ok fallback (hist ++ [i]) (u_open o n u).
Proof.
  intros Hu Hm Hn Ho. apply (up_ok_next hist i u); [done | done | done | done | done | apply Hu |].
  apply (down_next hist i u); [apply Hu | done | cbn; lia].
Qed.

Lemma entries_set hist i u n st : up_ok fallback hist u → entry_fine (hist ++ [i]) (n, st) →
  Forall (λ e, e ∈ us_open u ∨ entry_fine (hist ++ [i]) e) (map_set (us_open u) n st).
Proof. intros Hu He. apply map_set_Forall; [by eapply open_entries | by right]. Qed.
Lemma entries_delete hist i u n : up_ok fallback hist u → Forall (λ e, e ∈ us_open u ∨ entry_fine (hist ++ [i]) e) (map_delete (us_open u) n).
Proof. intros Hu. apply map_delete_Forall. by eapply open_entries. Qed.

Lemma query_fine hist u wire from rip now : up_ok fallback hist u →
  let i := Query wire from rip now in step_fine (hist ++ [i]) u (up_step i u).
Proof.
  intros Hu i. pose proof (uk_count _ _ _ Hu) as Hc. pose proof (new_number _ _ Hu) as Hnew.
  assert (omap question_of (hist ++ [i]) !! us_questions u = Some (wire, from, false)) as Hq by (rewrite Hc; by apply asked_last).
  assert (S (us_questions u) = length (omap question_of (hist ++ [i]))) as Hlen by (rewrite omap_app, length_app; cbn; lia).
  assert (entry_fine (hist ++ [i]) (us_questions u, AtDoh wire from)) as He1.
  { exists wire, from, false. split; [exact Hq |]. by intros ? ? [= -> ->]. }
  assert (entry_fine (hist ++ [i]) (us_questions u, AtRouter true)) as He2 by (by exists wire, from, false).
  cbn [up_step i]. unfold query. destruct (Z.ltb_spec now (us_dohDownUntil u)) as [Hd | Hd].
  - assert (∀ x, (∀ n w, x ≠ AskDoh n w) → skips_doh (hist ++ [i]) x) as Hskip.
    { intros x Hx w f r t. rewrite last_snoc. intros [= <- <- <- <-] Hnow _.
      destruct (uk_down _ _ _ Hu) as [H0 | (n & c & r & t & Hin & Ht & _)]; [lia |]. exists n, c, r, t. split; [set_solver | lia]. }
    unfold new_question, mthen, mset. cbn [app].
    destruct (router_cases (us_questions u) wire from rip "doh_down" (u_open (us_open u) (S (us_questions u)) u)) as [(ip & Hf & Hip & Hfrom & ->) | ->]; cbn [us_open us_questions u_open app].
    + split_and!; [| |apply (balanced_new u _ (us_questions u)); [done | by apply map_set_keys_new | done | done]].
      * apply (ok_open hist i u); [done | by apply map_set_ok, Hu | done | by apply entries_set].
      * repeat constructor; [done | | by apply Hskip]. exists from, false. split_and!; [done | done |]. right. rewrite <- (uk_fallback _ _ _ Hu). done.
    + split_and!; [| |apply balanced_over; [done |]; by rewrite map_delete_notin].
      * apply (ok_open hist i u); [done | by apply map_delete_ok, Hu | done | by apply entries_delete].
      * repeat constructor. by apply Hskip.
  - unfold new_question, mthen, mset, mdo. cbn [app us_open us_questions u_open].
    split_and!; [| |apply (balanced_new u _ (us_questions u)); [done | by apply map_set_keys_new | done | done]].
    + apply (ok_open hist i u); [done | by apply map_set_ok, Hu | done | by apply entries_set].
    + repeat constructor; [by exists from |]. intros w f r t _ _ Hx. by destruct (Hx (us_questions u) wire).
Qed.

Lemma local_fine hist u wire from rip : up_ok fallback hist u →
  let i := Local wire from rip in step_fine (hist ++ [i]) u (up_step i u).
Proof.
  intros Hu i. pose proof (uk_count _ _ _ Hu) as Hc. pose proof (new_number _ _ Hu) as Hnew.
  assert (omap question_of (hist ++ [i]) !! us_questions u = Some (wire, from, true)) as Hq by (rewrite Hc; by apply asked_last).
  assert (S (us_questions u) = length (omap question_of (hist ++ [i]))) as Hlen by (rewrite omap_app, length_app; cbn; lia).
  cbn [up_step i]. unfold local, new_question, at_router, mthen, mset, mdo. destruct (usable rip from) as [ip|] eqn:E; cbn [app us_open us_questions u_open].
  - destruct (usable_spec _ _ _ E) as (Hip & Hfrom & _).
    split_and!; [| |apply (balanced_new u _ (us_questions u)); [done | by apply map_set_keys_new | done | done]].
    + apply (ok_open hist i u); [done | by apply map_set_ok, Hu | done |]. apply entries_set; [done |]. by exists wire, from, true.
    + repeat constructor; [done | | by apply no_skip]. exists from, true. auto.
  - split_and!; [| |by apply balanced_over].
    + apply (ok_open hist i u); [done | apply Hu | done | by eapply open_entries].
    + repeat constructor. by apply no_skip.
Qed.

(** The two ways a question comes back. *)
Lemma settled_fine hist i u u' n st x : up_ok fallback hist u → question_of i = None → (∀ w f r now, i ≠ Query w f r now) →
  map_get (us_open u) n = Some st → up_ok fallback (hist ++ [i]) u' → us_open u' = map_delete (us_open u) n → us_questions u' = us_questions u →
  up_ended x = Some n → up_fine fallback (hist ++ [i]) x → step_fine (hist ++ [i]) u (u', [x]).
Proof.
  intros Hu Hi Hn Hg Hu' Ho Hc Hx Hf. split_and!; [done | by repeat constructor; [|apply no_skip] |].
  eapply balanced_end; [apply Hu | exact Hg | done..].
Qed.

Lemma same_length hist i : question_of i = None → length (omap question_of (hist ++ [i])) = length (omap question_of hist).
Proof. intros Hi. rewrite omap_app. cbn. rewrite Hi. by rewrite app_nil_r. Qed.

Lemma doh_fine hist u n r rip now : up_ok fallback hist u →
  let i := DohSettled n r rip now in step_fine (hist ++ [i]) u (up_step i u).
Proof.
  intros Hu i. pose proof (uk_count _ _ _ Hu) as Hc. pose proof (same_length hist i eq_refl) as Hlen.
  assert (step_fine (hist ++ [i]) u (u, [])) as Hskip.
  { split_and!; [|constructor | by apply balanced_quiet]. destruct u. apply (ok_open hist i _ _ _ Hu); [apply Hu | cbn in *; lia | by eapply open_entries]. }
  cbn [up_step i]. unfold doh_settled. destruct (map_get (us_open u) n) as [[wire from | fb]|] eqn:Hg; [|done | done].
  pose proof (map_get_Forall _ _ _ _ (uk_asked _ _ _ Hu) Hg) as (w & f & l & Hl & Ha). cbn in Hl, Ha.
  destruct (Ha wire from eq_refl) as (-> & -> & ->). clear Ha.
  destruct r as [a | code |]; [| |done].
  - eapply settled_fine; [done | done | done | exact Hg | | done | done | done | done].
    apply (up_ok_next hist i u); [done | done | by apply map_delete_ok, Hu | cbn; lia | exact (entries_delete hist i u n Hu) | |].
    + cbn. pose proof (uk_streak _ _ _ Hu). unfold DOWN_AFTER in *. lia.
    + apply (down_next hist i u); [apply Hu | done | cbn; lia].
  - pose proof (uk_streak _ _ _ Hu) as [Hs1 Hs2]. unfold mthen, mset. set (v := u_failure now code u).
    assert (∀ o, map_ok o → Forall (λ e, e ∈ us_open u ∨ entry_fine (hist ++ [i]) e) o → up_ok fallback (hist ++ [i]) (u_open o (us_questions v) v)) as Hv.
    { intros o Hm Ho. apply (up_ok_next hist i u); [done | done | done | cbn; lia | done | |];
        unfold v, u_failure; cbn; destruct (Z.leb_spec DOWN_AFTER (us_streak u + 1)); try (unfold DOWN_AFTER in *; lia).
      - right. exists n, code, rip, now. split_and!; [set_solver | done | cbn; lia].
      - apply (down_next hist i u); [apply Hu | done | cbn; lia]. }
    destruct (router_cases n w f rip code v) as [(ip & Hf & Hip & Hfrom & ->) | ->]; cbn [app].
    + assert (entry_fine (hist ++ [i]) (n, AtRouter true)) as He by (exists w, f, false; split; [by apply asked_snoc | done]).
      split_and!; [apply Hv; [by apply map_set_ok, Hu | exact (entries_set hist i u n _ Hu He)] | |].
      * repeat constructor; [done | | by apply no_skip]. exists f, false. split_and!; [by apply asked_snoc | done |]. right. by rewrite <- (uk_fallback _ _ _ Hu).
      * apply balanced_on; [done | by eapply map_set_keys_old | done].
    + eapply settled_fine; [done | done | done | exact Hg | apply Hv; [by apply map_delete_ok, Hu | exact (entries_delete hist i u n Hu)] | done | done | done | done].
Qed.

Lemma router_fine hist u n r now : up_ok fallback hist u →
  let i := RouterSettled n r now in step_fine (hist ++ [i]) u (up_step i u).
Proof.
  intros Hu i. pose proof (uk_count _ _ _ Hu) as Hc. pose proof (same_length hist i eq_refl) as Hlen.
  assert (step_fine (hist ++ [i]) u (u, [])) as Hskip.
  { split_and!; [|constructor | by apply balanced_quiet]. destruct u. apply (ok_open hist i _ _ _ Hu); [apply Hu | cbn in *; lia | by eapply open_entries]. }
  assert (∀ fb : bool, up_ok fallback (hist ++ [i]) (let u := (if fb then u_fallback now else id) u in u_open (map_delete (us_open u) n) (us_questions u) u)) as Hok.
  { intros fb. apply (up_ok_next hist i u); [done | by destruct fb | destruct fb; by apply map_delete_ok, Hu | destruct fb; cbn; lia |
      destruct fb; exact (entries_delete hist i u n Hu) | destruct fb; apply Hu |]. apply (down_next hist i u); [apply Hu | by destruct fb | destruct fb; cbn; lia]. }
  cbn [up_step i]. unfold router_settled. destruct (map_get (us_open u) n) as [[wire from | fb]|] eqn:Hg; [done | |done].
  destruct r as [a | code |]; [| |done].
  - eapply settled_fine; [done | done | done | exact Hg | exact (Hok fb) | by destruct fb.. | done | done].
  - eapply settled_fine; [done | done | done | exact Hg | exact (Hok false) | done | done | done | done].
Qed.

Lemma up_step_fine hist i u : up_ok fallback hist u → step_fine (hist ++ [i]) u (up_step i u).
Proof. intros Hu. destruct i; [by apply query_fine | by apply local_fine | by apply doh_fine | by apply router_fine]. Qed.

(** C13: over every order of questions, answers and failures: each question is
    answered or fails once, or still waits; the provider and the router are
    asked with the bytes of the question; the router is only asked when it is
    known, did not ask itself, and either the fallback is on or the name is
    local; and a question skips the provider only within a minute after a
    failure of it. *)
Theorem up_run_safe inputs :
  let t := mrun up_step inputs (newUpstream fallback) in
  ledger up_ended up_waits us_questions t.1 (concat t.2.*2) ∧
  ∀ n i fx, t.2 !! n = Some (i, fx) → Forall (λ x, up_fine fallback (take (S n) inputs) x ∧ skips_doh (take (S n) inputs) x) fx.
Proof.
  cbv zeta. assert (up_ok fallback [] (newUpstream fallback)) as H0 by (split; [done | apply NoDup_nil_2 | done | constructor | done | by left]).
  split.
  - apply (mrun_ledger _ _ _ up_step (λ u, ∃ hist, up_ok fallback hist u)); [by exists [] | done | done |].
    intros i u [hist Hu]. destruct (up_step_fine hist i u Hu) as (Hok & _ & Hb). split; [by exists (hist ++ [i]) | done].
  - apply (mrun_history up_step (up_ok fallback) (λ hist x, up_fine fallback hist x ∧ skips_doh hist x)); [done |].
    intros hist i u Hu. destruct (up_step_fine hist i u Hu) as (Hok & Hf & _). done.
Qed.
End Run.

(** ** The answer of the router *)

(** An answer over TCP is read however its bytes are cut. *)
Lemma tcpQuery_read id msg chunks : concat chunks = u16 (blen msg) ++ msg → 12 ≤ blen msg ≤ MAX_RESPONSE → readUInt16BE msg 0 = Ok id →
  tcpQuery id [] (Chunk <$> chunks) = Some (Ok msg).
Proof.
  intros Hc [Hlo Hhi] Hid. set (frame := u16 (blen msg) ++ msg) in *.
  assert (blen frame = 2 + blen msg) as Hfl by (unfold frame; by rewrite blen_app, blen_u16).
  enough (∀ buf, buf ++ concat chunks = frame → blen buf < blen frame → tcpQuery id buf (Chunk <$> chunks) = Some (Ok msg)) as H
    by (apply H; [done | rewrite blen_nil; lia]).
  clear Hc. induction chunks as [|c chunks IH]; intros buf Hb Hl.
  { cbn [concat] in Hb. rewrite app_nil_r in Hb. rewrite Hb in Hl. lia. }
  cbn [fmap list_fmap tcpQuery concat] in *. rewrite app_assoc in Hb.
  assert (blen (buf ++ c) ≤ blen frame) as Hle by (rewrite <- Hb, (blen_app (buf ++ c)); pose proof (blen_nonneg (concat chunks)); lia).
  unfold tcp_answer. unfold MAX_RESPONSE in *. destruct (Z.ltb_spec (65535 + 2) (blen (buf ++ c))); [lia |].
  destruct (decide (blen (buf ++ c) = blen frame)) as [He | Hne].
  - assert (buf ++ c = frame) as ->.
    { rewrite <- Hb. destruct (concat chunks) as [|x r]; [by rewrite app_nil_r |]. rewrite <- Hb, (blen_app (buf ++ c)), blen_cons in He.
      pose proof (blen_nonneg r). lia. }
    unfold frame at 1. rewrite readUInt16BE_u16. destruct (Z.ltb_spec (blen frame) (2 + blen msg)); [lia |].
    assert (subarray frame 2 (2 + blen msg) = msg) as ->.
    { unfold subarray, frame. replace (Z.to_nat (2 + blen msg - 2)) with (length msg) by (unfold blen; lia). apply take_ge. cbn. lia. }
    destruct (Z.ltb_spec (blen msg) 12); [lia |]. by rewrite Hid, Z.eqb_refl.
  - assert (blen (buf ++ c) < blen frame) as Hlt by lia.
    destruct (readUInt16BE (buf ++ c) 0) as [n | e |] eqn:Hr; [| by apply IH | by apply IH].
    pose proof (readUInt16BE_Ok _ _ _ Hr). rewrite <- (readUInt16BE_app_l _ (concat chunks)), Hb in Hr by lia.
    unfold frame in Hr. rewrite readUInt16BE_u16 in Hr. injection Hr as <-.
    destruct (Z.ltb_spec (blen (buf ++ c)) (2 + blen msg)); [by apply IH | lia].
Qed.

(** What is taken as an answer carries the id of the question. *)
Lemma udpQuery_id ip port id es msg : udpQuery ip port id es = Some (Ok msg) → readUInt16BE msg 0 = Ok id ∧ 12 ≤ blen msg.
Proof.
  induction es as [|[m a p | |] es IH]; cbn [udpQuery]; try done. unfold udp_answer. destruct (_ && _) eqn:E; [|done]. intros [= ->].
  repeat (apply andb_true_iff in E as [E ?]). destruct (readUInt16BE msg 0); [|done..]. split; [f_equal; lia | lia].
Qed.
