(* ===== verification/DnsServer.v ===== *)
(** * src/dns/server.js

    The addresses to listen on, the UDP side with its bound, a TCP connection
    as a machine over its chunks and the answers, and the reconciliation of
    the bound addresses split where it waits. *)

From S2P Require Import Prelude JsBuffer JsMap JsSet LanInterfaces Machine.

Local Open Scope Z_scope.

Definition MAX_UDP_INFLIGHT : Z := 512.
Definition MAX_TCP_PIPELINE : Z := 32.

(** ** Addresses *)

Definition hex_of (c : Z) : bool := is_digit c || ((97 <=? lower_unit c) && (lower_unit c <=? 102)).
(** [/^f[cd][0-9a-f]{2}:/i] and [/^fe[89ab][0-9a-f]:/i] *)
Definition isUla (ip : jstr) : bool :=
  match ip with
  | a :: b :: c :: d :: e :: _ =>
      (lower_unit a =? 102) && ((lower_unit b =? 99) || (lower_unit b =? 100)) && hex_of c && hex_of d && (e =? 58)
  | _ => false
  end.
Definition isLinkLocal6 (ip : jstr) : bool :=
  match ip with
  | a :: b :: c :: d :: e :: _ =>
      (lower_unit a =? 102) && (lower_unit b =? 101)
      && ((c =? 56) || (c =? 57) || (lower_unit c =? 97) || (lower_unit c =? 98)) && hex_of d && (e =? 58)
  | _ => false
  end.

Record listen_addr := ListenAddr { la_address : jstr; la_family : Z }.

(** The address one entry of an interface is listened on with. *)
Definition listen_address (linkLocal : bool) (name : jstr) (a : if_addr) : option jstr :=
  if ia_internal a || negb (nonempty (ia_address a)) then None
  else if ia_ipv4 a then (if _isPrivateIpv4 (ia_address a) then Some (ia_address a) else None)
  else if isUla (ia_address a) then Some (ia_address a)
  else if linkLocal && isLinkLocal6 (ia_address a) then Some (ia_address a ++ 37 :: name)
  else None.

(** All of them, in order; each once, without the excluded ones. *)
Definition lanListenAddresses (linkLocal : bool) (exclude : list jstr) (ifaces : list (jstr * list if_addr)) : list listen_addr :=
  let found := ifaces ≫= λ i, if isPhysicalLan i.1 then omap (listen_address linkLocal i.1) i.2 else [] in
  (λ a, ListenAddr a (if includes 58 a then 6 else 4))
    <$> uniq (List.filter (λ a, negb (bool_decide (a ∈ List.filter nonempty exclude))) found).

(** ** UDP *)

Record udp := Udp { ud_inflight : Z; ud_dropped : Z }.
(** A datagram: whether the handler is called. *)
Definition _onUdp (u : udp) : udp * bool :=
  if MAX_UDP_INFLIGHT <=? ud_inflight u then (Udp (ud_inflight u) (ud_dropped u + 1), false)
  else (Udp (ud_inflight u + 1) (ud_dropped u), true).
(** The handler is done; an answer is sent. *)
Definition udp_done (u : udp) : udp := Udp (ud_inflight u - 1) (ud_dropped u).

(** ** TCP *)

(** Messages are numbered; [tc_open] are those the handler has. *)
Record tcp := Tcp { tc_buf : list Z; tc_open : list nat; tc_count : nat; tc_ended : bool; tc_destroyed : bool }.
Definition newTcp : tcp := Tcp [] [] 0 false false.
Inductive tcp_effect := Handle (n : nat) (msg : list Z) | Write (bytes : list Z) | EndConn | DestroyConn.
Definition top := mop tcp tcp_effect.

Definition t_input (buf : list Z) (t : tcp) : tcp := Tcp buf (tc_open t) (tc_count t) (tc_ended t) (tc_destroyed t).
Definition pending (t : tcp) : Z := Z.of_nat (length (tc_open t)).
Definition destroy : top := λ t, (Tcp (tc_buf t) (tc_open t) (tc_count t) (tc_ended t) true, [DestroyConn]).

Definition maybeEnd : top := λ t,
  (t, if tc_ended t && (pending t =? 0) && negb (tc_destroyed t) then [EndConn] else []).
Definition on_end : top := λ t,
  let t := Tcp (tc_buf t) (tc_open t) (tc_count t) true (tc_destroyed t) in maybeEnd t.

(** [++pending]: the message gets its number. *)
Definition accept (t : tcp) : tcp := Tcp (tc_buf t) (tc_open t ++ [tc_count t]) (S (tc_count t)) (tc_ended t) (tc_destroyed t).

(** The loop over the complete messages of the buffer. *)
Fixpoint on_messages (fuel : nat) : top := λ t,
  match fuel with
  | O => (t, [])
  | S fuel =>
      match readUInt16BE (tc_buf t) 0 with
      | Ok len =>
          if len <? 12 then destroy t
          else if blen (tc_buf t) <? 2 + len then (if 65537 <? blen (tc_buf t) then destroy t else (t, []))
          else
            let msg := subarray (tc_buf t) 2 (2 + len) in
            let n := tc_count t in
            let t := accept (t_input (drop (Z.to_nat (2 + len)) (tc_buf t)) t) in
            if MAX_TCP_PIPELINE <? pending t then destroy t
            else let '(t, fx) := on_messages fuel t in (t, Handle n msg :: fx)
      | _ => if 65537 <? blen (tc_buf t) then destroy t else (t, [])
      end
  end.

(** A destroyed connection gives no more data. *)
Definition on_data (chunk : list Z) : top := λ t,
  if tc_destroyed t then (t, [])
  else let buf := tc_buf t ++ chunk in on_messages (S (length buf)) (t_input buf t).

(** The handler of message [n] is done: the answer, if any, with its length.
    One that is too long for the length throws, which ends like no answer. *)
Definition handled (n : nat) (out : option (list Z)) : top := λ t,
  if bool_decide (n ∈ tc_open t) then
    (mdo (match out with
          | Some o =>
              if tc_destroyed t then []
              else match writeUInt16BE (alloc 2) (blen o) 0 with Ok l => [Write (l ++ o)] | _ => [] end
          | None => []
          end)
     ⨾ mset (λ t, Tcp (tc_buf t) (filter (λ m, m ≠ n) (tc_open t)) (tc_count t) (tc_ended t) (tc_destroyed t))
     ⨾ maybeEnd) t
  else (t, []).

Inductive tcp_input := TcpData (chunk : list Z) | TcpEnd | TcpHandled (n : nat) (out : option (list Z)) | TcpIdle.
Definition tcp_step (i : tcp_input) : top :=
  match i with
  | TcpData chunk => on_data chunk
  | TcpEnd => on_end
  | TcpHandled n out => handled n out
  | TcpIdle => destroy
  end.

(** ** The bound addresses *)

(** What a run of [reconcile] is at: the address it binds, and the rest. *)
Inductive binding := BindUdp (a : listen_addr) (todo : list listen_addr) | BindTcp (a : listen_addr) (udp : nat) (todo : list listen_addr).
(** Sockets are numbered, and runs of [reconcile]; an address is bound with a UDP and a TCP socket. *)
Record listener := Listener {
  ln_bound : list (jstr * (nat * nat)); ln_busy : list jstr; ln_failed : list (jstr * jstr);
  ln_runs : list (nat * binding); ln_count : nat; ln_sockets : nat }.
Definition newListener : listener := Listener [] [] [] [] 0 0.

Inductive ln_effect := OpenUdp (run : nat) (a : listen_addr) | OpenTcp (run : nat) (a : jstr) | CloseSock (s : nat) | Reconciled (run : nat).
Definition lop := mop listener ln_effect.

Definition l_bound (bound : list (jstr * (nat * nat))) (busy : list jstr) (failed : list (jstr * jstr)) (l : listener) : listener :=
  Listener bound busy failed (ln_runs l) (ln_count l) (ln_sockets l).
Definition l_runs (runs : list (nat * binding)) (count sockets : nat) (l : listener) : listener :=
  Listener (ln_bound l) (ln_busy l) (ln_failed l) runs count sockets.

(** [_close(socks)] *)
Definition _close (socks : nat * nat) : list ln_effect := [CloseSock socks.1; CloseSock socks.2].

(** The loop over the wanted addresses up to its next wait or its end. *)
Fixpoint bind_next (run : nat) (todo : list listen_addr) : lop := λ l,
  match todo with
  | [] => (l_runs (map_delete (ln_runs l) run) (ln_count l) (ln_sockets l) l, [Reconciled run])
  | a :: todo =>
      if map_has (ln_bound l) (la_address a) then bind_next run todo l
      else (l_runs (map_set (ln_runs l) run (BindUdp a todo)) (ln_count l) (ln_sockets l) l, [OpenUdp run a])
  end.

(** [new Map(addresses.map(a => [a.address, a]))], addresses being different. *)
Definition reconcile (want : list listen_addr) : lop := λ l,
  let wanted (b : jstr * (nat * nat)) := bool_decide (b.1 ∈ la_address <$> want) in
  (mdo (List.filter (λ b, negb (wanted b)) (ln_bound l) ≫= λ b, _close b.2)
   ⨾ mset (l_bound (List.filter wanted (ln_bound l)) [] [])
   ⨾ mset (λ l, l_runs (ln_runs l) (S (ln_count l)) (ln_sockets l) l)
   ⨾ bind_next (ln_count l) want) l.

(** An address that could not be bound. *)
Definition failed (a code : jstr) (l : listener) : listener :=
  if bool_decide (code = js "EADDRINUSE")
  then l_bound (ln_bound l) (if bool_decide (a ∈ ln_busy l) then ln_busy l else ln_busy l ++ [a]) (ln_failed l) l
  else l_bound (ln_bound l) (ln_busy l) (map_set (ln_failed l) a (if nonempty code then code else js "error")) l.

(** The socket a run waits for was opened, or not. *)
Definition opened (run : nat) (error : option jstr) : lop := λ l,
  let s := ln_sockets l in
  match map_get (ln_runs l) run, error with
  | Some (BindUdp a todo), None => (l_runs (map_set (ln_runs l) run (BindTcp a s todo)) (ln_count l) (S s) l, [OpenTcp run (la_address a)])
  | Some (BindUdp a todo), Some code => (mset (failed (la_address a) code) ⨾ bind_next run todo) l
  | Some (BindTcp a u todo), None =>
      (mset (l_runs (ln_runs l) (ln_count l) (S s))
       ⨾ mset (λ l, l_bound (map_set (ln_bound l) (la_address a) (u, s)) (ln_busy l) (ln_failed l) l)
       ⨾ bind_next run todo) l
  | Some (BindTcp a u todo), Some code => (mdo [CloseSock u] ⨾ mset (failed (la_address a) code) ⨾ bind_next run todo) l
  | None, _ => (l, [])
  end.

Definition close : lop := λ l, (l_bound [] [] [] l, ln_bound l ≫= λ b, _close b.2).

Record listen_status := ListenStatus {
  li_state : jstr; li_listen : list jstr; li_busy : list jstr; li_failed : list (jstr * jstr); li_port : Z }.
Definition status (port : Z) (l : listener) : listen_status :=
  ListenStatus
    (if match ln_busy l with [] => false | _ => true end then js "port_busy"
     else match ln_bound l with
          | [] => match ln_failed l with [] => js "no_address" | _ => js "error" end
          | _ => js "running"
          end)
    (ln_bound l).*1 (ln_busy l) (ln_failed l) port.

(** * The DNS server of the home network

    A TCP connection hands over the messages of the client however their
    bytes are cut, and keeps a bounded number of bytes and of open questions
    whatever comes; the server listens on addresses of the home network only. *)

(** ** Messages *)

(** A message with its length before it. *)
Definition frames (ms : list (list Z)) : list Z := ms ≫= λ m, u16 (blen m) ++ m.
Definition msg_ok (m : list Z) : Prop := 12 ≤ blen m ≤ 65535.

(** The bytes that arrive, the messages that are handed over with their numbers. *)
Definition data_of (i : tcp_input) : list Z := match i with TcpData c => c | _ => [] end.
Definition messages_of (fx : list tcp_effect) : list (nat * list Z) :=
  omap (λ x, match x with Handle n m => Some (n, m) | _ => None end) fx.
Definition numbered (n : nat) (ms : list (list Z)) : list (nat * list Z) := imap (λ i m, ((n + i)%nat, m)) ms.

Lemma numbered_cons n m ms : numbered n (m :: ms) = (n, m) :: numbered (S n) ms.
Proof. unfold numbered. cbn [imap]. rewrite Nat.add_0_r. f_equal. apply imap_ext. intros. cbn. f_equal. lia. Qed.
Lemma numbered_app n a b : numbered n (a ++ b) = numbered n a ++ numbered (n + length a) b.
Proof. unfold numbered. rewrite imap_app. f_equal. apply imap_ext. intros. cbn. f_equal. lia. Qed.

(** One message at the beginning of the stream: it is complete, or nothing is there to do. *)
Lemma on_message_one fuel m ms r t :
  msg_ok m → tc_buf t ++ r = frames (m :: ms) →
  (on_messages (S fuel) t = (t, []) ∧ (length (tc_buf t) < 2 + length m)%nat) ∨
  ∃ u, u = accept (t_input (drop (2 + length m) (tc_buf t)) t) ∧ tc_buf u ++ r = frames ms ∧ (length (tc_buf u) < length (tc_buf t))%nat ∧
    on_messages (S fuel) t = if MAX_TCP_PIPELINE <? pending u then destroy u
                             else ((on_messages fuel u).1, Handle (tc_count t) m :: (on_messages fuel u).2).
Proof.
  intros [Hlo Hhi] Hb. unfold frames in Hb. rewrite bind_cons, <- app_assoc in Hb. cbn [on_messages].
  destruct (Z.ltb_spec (blen (tc_buf t)) (2 + blen m)) as [Hs | Hs].
  - left. split; [|unfold blen in *; lia]. destruct (readUInt16BE (tc_buf t) 0) as [len | e |] eqn:Hr.
    + assert (len = blen m) as ->.
      { pose proof (readUInt16BE_Ok _ _ _ Hr). rewrite <- (readUInt16BE_app_l _ r) in Hr by lia.
        rewrite Hb, readUInt16BE_u16 in Hr. by injection Hr. }
      destruct (Z.ltb_spec (blen m) 12); [lia |]. destruct (Z.ltb_spec (blen (tc_buf t)) (2 + blen m)); [|lia].
      by destruct (Z.ltb_spec 65537 (blen (tc_buf t))); [lia |].
    + destruct (Z.ltb_spec 65537 (blen (tc_buf t))); [lia | done].
    + destruct (Z.ltb_spec 65537 (blen (tc_buf t))); [lia | done].
  - right. assert (tc_buf t = u16 (blen m) ++ m ++ drop (2 + length m) (tc_buf t)) as Hcut.
    { rewrite <- (take_drop (2 + length m) (tc_buf t)) at 1.
      rewrite <- (take_app_le (tc_buf t) r) by (unfold blen in *; lia). rewrite Hb, app_assoc.
      by rewrite (take_app_length' (u16 (blen m) ++ m)) by done. }
    assert (readUInt16BE (tc_buf t) 0 = Ok (blen m)) as -> by (rewrite Hcut; apply readUInt16BE_u16).
    destruct (Z.ltb_spec (blen m) 12); [lia |]. destruct (Z.ltb_spec (blen (tc_buf t)) (2 + blen m)); [lia |].
    assert (subarray (tc_buf t) 2 (2 + blen m) = m) as ->.
    { rewrite Hcut. unfold subarray. replace (Z.to_nat (2 + blen m - 2)) with (length m) by (unfold blen; lia).
      change (drop (Z.to_nat 2) (u16 (blen m) ++ m ++ drop (2 + length m) (tc_buf t))) with (m ++ drop (2 + length m) (tc_buf t)).
      apply take_app_length. }
    replace (Z.to_nat (2 + blen m)) with (2 + length m)%nat by (unfold blen; lia).
    eexists. split_and!; [done | | |].
    + cbn [tc_buf accept t_input]. rewrite Hcut, <- !app_assoc in Hb. do 2 apply app_inv_head in Hb. done.
    + cbn [tc_buf accept t_input]. rewrite length_drop. unfold blen in *. lia.
    + destruct (_ <? _); [done |]. by destruct (on_messages fuel _).
Qed.

(** The loop over the beginning of a stream of messages. *)
Lemma on_messages_stream fuel : ∀ t ms r,
  Forall msg_ok ms → tc_buf t ++ r = frames ms → (length (tc_buf t) < fuel)%nat → tc_destroyed t = false →
  let u := (on_messages fuel t).1 in
  32 < pending u ∨
  ∃ k, messages_of (on_messages fuel t).2 = numbered (tc_count t) (take k ms) ∧ tc_buf u ++ r = frames (drop k ms) ∧
    tc_destroyed u = false ∧ tc_count u = (tc_count t + length (take k ms))%nat ∧ (r = [] → drop k ms = []).
Proof.
  induction fuel as [|fuel IH]; intros t ms r Hok Hb Hf Hd; [lia |].
  destruct ms as [|m ms].
  { apply app_nil in Hb as [Hb ->]. right. exists 0%nat.
    assert (on_messages (S fuel) t = (t, [])) as -> by (cbn [on_messages]; by rewrite Hb).
    cbn [fst snd]. split_and!; [done | by rewrite Hb | done | cbn; rewrite ?take_0; cbn; lia | done]. }
  inversion_clear Hok as [|?? Hm Hms].
  destruct (on_message_one fuel m ms r t Hm Hb) as [[-> Hlt] | (u & Hu & Hr & Hl & ->)].
  - right. exists 0%nat. split_and!; [by rewrite take_0 | done | done | rewrite take_0; cbn; lia |]. intros ->. exfalso.
    rewrite app_nil_r in Hb. apply (f_equal length) in Hb. unfold frames in Hb. rewrite bind_cons, !length_app in Hb. cbn in Hb. lia.
  - destruct (Z.ltb_spec MAX_TCP_PIPELINE (pending u)) as [Hp | Hp]; [by left |]. cbn [fst snd].
    destruct (IH u ms r Hms Hr ltac:(lia)) as [Hpe | (k & Hk & Hb2 & Hd2 & Hc & He)]; [by subst u | by left |].
    right. exists (S k). cbn [take drop messages_of omap list_omap]. change (omap _ _) with (messages_of (on_messages fuel u).2).
    assert (tc_count u = S (tc_count t)) as Hcu by (by subst u). rewrite Hk, Hcu. rewrite numbered_cons.
    split_and!; [done | done | done | cbn [length]; lia | done].
Qed.

(** C14: whatever way the bytes of a TCP connection are cut, and however
    answers come in between, the messages of the client are handed over one
    after the other, each once and as it was sent, and nothing is left over -
    or more than 32 of them were unanswered at some time. *)
Theorem tcp_messages ms is_ :
  Forall msg_ok ms → TcpIdle ∉ is_ → (is_ ≫= data_of) = frames ms →
  (∃ n, 32 < pending (mrun tcp_step (take n is_) newTcp).1) ∨
  (let '(t, tr) := mrun tcp_step is_ newTcp in
   (tr ≫= λ e, messages_of e.2) = numbered 0 ms ∧ tc_buf t = [] ∧ tc_destroyed t = false).
Proof.
  intros Hok Hidle Hdata.
  enough (∀ ms t, Forall msg_ok ms → tc_buf t ++ (is_ ≫= data_of) = frames ms → tc_destroyed t = false →
    ((is_ ≫= data_of) = [] → ms = []) →
    (∃ n, 32 < pending (mrun tcp_step (take n is_) t).1) ∨
    ((mrun tcp_step is_ t).2 ≫= λ e, messages_of e.2) = numbered (tc_count t) ms ∧ tc_buf (mrun tcp_step is_ t).1 = [] ∧
    tc_destroyed (mrun tcp_step is_ t).1 = false) as Hrun.
  { specialize (Hrun ms newTcp Hok Hdata eq_refl). destruct (mrun tcp_step is_ newTcp). apply Hrun.
    intros Hnil. rewrite Hnil in Hdata. destruct ms as [|m ms]; [done |]. discriminate Hdata. }
  clear ms Hok Hdata. induction is_ as [|i is_ IH]; intros ms t Hok Hb Hd Hnil.
  { right. rewrite (Hnil eq_refl) in *. cbn in *. by rewrite app_nil_r in Hb. }
  apply not_elem_of_cons in Hidle as [Hi Hidle]. rewrite bind_cons, app_assoc in Hb.
  assert (32 < pending (tcp_step i t).1 ∨ ∃ k, messages_of (tcp_step i t).2 = numbered (tc_count t) (take k ms) ∧
    tc_buf (tcp_step i t).1 ++ (is_ ≫= data_of) = frames (drop k ms) ∧ tc_destroyed (tcp_step i t).1 = false ∧
    tc_count (tcp_step i t).1 = (tc_count t + length (take k ms))%nat ∧ ((is_ ≫= data_of) = [] → drop k ms = [])) as Hstep.
  { destruct i as [c | | n out |]; cbn [tcp_step data_of] in *; [| | |done].
    - unfold on_data. rewrite Hd. apply (on_messages_stream _ (t_input (tc_buf t ++ c) t)); [done | done | cbn; rewrite ?take_0; cbn; lia | done].
    - right. exists 0%nat. cbn [on_end maybeEnd fst snd tc_buf tc_destroyed tc_count take drop]. rewrite app_nil_r in Hb.
      split_and!; [by destruct (_ && _) | done | done | cbn; rewrite ?take_0; cbn; lia | done].
    - right. exists 0%nat. unfold handled. rewrite app_nil_r in Hb. cbn [take drop].
      case_bool_decide; [|by split_and!; [.. | cbn; rewrite ?take_0; cbn; lia | done]]. rewrite !mthen_fst, !mthen_snd. cbn [mdo mset fst snd maybeEnd tc_buf tc_destroyed tc_count].
      split_and!; [|done | done | cbn; rewrite ?take_0; cbn; lia | done]. rewrite Hd. unfold messages_of. rewrite omap_app. cbn [app].
      destruct out as [o|]; [destruct (writeUInt16BE _ _ _)|]; by destruct (_ && _). }
  destruct Hstep as [Hp | (k & Hm & Hb2 & Hd2 & Hc & Hn2)].
  { left. exists 1%nat. cbn [take mrun]. destruct (tcp_step i t). by rewrite take_0. }
  destruct (IH Hidle (drop k ms) (tcp_step i t).1) as [[n Hn] | (Hms & Hbuf & Hdd)];
    [by apply Forall_drop | done | done | done | |].
  - left. exists (S n). cbn [take mrun]. destruct (tcp_step i t) as [u fx]. cbn in Hn. by destruct (mrun tcp_step (take n is_) u).
  - right. cbn [mrun]. destruct (tcp_step i t) as [u fx]. cbn in *. destruct (mrun tcp_step is_ u) as [v tr]. cbn in *.
    rewrite Hm, Hms, Hc. rewrite <- numbered_app, take_drop. done.
Qed.

Lemma tcp_messages_witness :
  let m := replicate 12 7 in
  let is_ := [TcpData [0]; TcpData (12 :: take 5 m); TcpData (drop 5 m ++ u16 12); TcpHandled 0 None; TcpData m] in
  Forall msg_ok [m; m] ∧
  (let '(t, tr) := mrun tcp_step is_ newTcp in (tr ≫= λ e, messages_of e.2) = [(0%nat, m); (1%nat, m)]).
Proof.
  cbv zeta.
  assert (Forall msg_ok [replicate 12 7; replicate 12 7]) as Hok by (repeat constructor; by vm_compute).
  split; [exact Hok |].
  destruct (tcp_messages [replicate 12 7; replicate 12 7]
    [TcpData [0]; TcpData (12 :: take 5 (replicate 12 7)); TcpData (drop 5 (replicate 12 7) ++ u16 12); TcpHandled 0 None; TcpData (replicate 12 7)]
    Hok ltac:(set_solver) eq_refl) as [[n Hn] | H].
  - exfalso. by do 6 (destruct n as [|n]; [by vm_compute in Hn |]); vm_compute in Hn.
  - vm_compute in H. by vm_compute.
Defined.

(** Whatever bytes come: what is kept and what is open. *)
Lemma on_messages_bounds fuel : ∀ t, tc_destroyed (on_messages fuel t).1 = true ∨
  (length (tc_buf t) < fuel)%nat → pending t ≤ MAX_TCP_PIPELINE →
  tc_destroyed (on_messages fuel t).1 = true ∨
  blen (tc_buf (on_messages fuel t).1) ≤ 65537 ∧ pending (on_messages fuel t).1 ≤ MAX_TCP_PIPELINE.
Proof.
  induction fuel as [|fuel IH]; intros t [Hd | Hf] Hp; [by left | lia | by left |]. cbn [on_messages].
  destruct (readUInt16BE (tc_buf t) 0) as [len | e |] eqn:Hr;
    [| destruct (Z.ltb_spec 65537 (blen (tc_buf t))); [by left | by right] ..].
  apply readUInt16BE_Ok in Hr as [_ Hr].
  destruct (Z.ltb_spec len 12); [by left |]. destruct (_ <? _) eqn:E.
  - destruct (Z.ltb_spec 65537 (blen (tc_buf t))); [by left | by right].
  - set (u := accept _). destruct (Z.ltb_spec MAX_TCP_PIPELINE (pending u)) as [Hq | Hq]; [by left |].
    specialize (IH u). destruct (on_messages fuel u) as [v fx]. apply IH; [|done]. right. subst u. cbn [tc_buf accept t_input].
    rewrite length_drop. unfold blen in *. lia.
Qed.

(** ** Addresses *)

(** What the server listens on: the private IPv4 addresses, the unique local
    ones and those of a link, of physical interfaces, without the excluded. *)
Lemma lanListenAddresses_spec linkLocal exclude ifaces a :
  NoDup (la_address <$> lanListenAddresses linkLocal exclude ifaces) ∧
  (a ∈ la_address <$> lanListenAddresses linkLocal exclude ifaces ↔
   ¬ (a ∈ exclude ∧ a ≠ []) ∧ ∃ name addrs x, (name, addrs) ∈ ifaces ∧ isPhysicalLan name = true ∧ x ∈ addrs ∧
     ia_internal x = false ∧ ia_address x ≠ [] ∧
     (ia_ipv4 x = true ∧ _isPrivateIpv4 (ia_address x) = true ∧ a = ia_address x ∨
      ia_ipv4 x = false ∧ isUla (ia_address x) = true ∧ a = ia_address x ∨
      ia_ipv4 x = false ∧ isUla (ia_address x) = false ∧ linkLocal = true ∧ isLinkLocal6 (ia_address x) = true ∧ a = ia_address x ++ 37 :: name)).
Proof.
  unfold lanListenAddresses. rewrite <- list_fmap_compose. unfold compose. cbn [la_address]. rewrite list_fmap_id. split; [apply uniq_NoDup |].
  rewrite elem_of_uniq, list_elem_of_In, filter_In, <- list_elem_of_In, negb_true_iff, bool_decide_eq_false, list_elem_of_bind.
  rewrite (list_elem_of_In (List.filter _ _)), filter_In, <- list_elem_of_In.
  assert (∀ name x, listen_address linkLocal name x = Some a ↔ ia_internal x = false ∧ ia_address x ≠ [] ∧
     (ia_ipv4 x = true ∧ _isPrivateIpv4 (ia_address x) = true ∧ a = ia_address x ∨
      ia_ipv4 x = false ∧ isUla (ia_address x) = true ∧ a = ia_address x ∨
      ia_ipv4 x = false ∧ isUla (ia_address x) = false ∧ linkLocal = true ∧ isLinkLocal6 (ia_address x) = true ∧ a = ia_address x ++ 37 :: name)) as Hx.
  { intros name x. unfold listen_address.
    destruct (ia_internal x); [by split; [|intros [? ?]] |]. assert (nonempty (ia_address x) = true ↔ ia_address x ≠ []) as Hne
      by (by destruct (ia_address x)).
    destruct (nonempty (ia_address x)); cbn [orb negb]; [|split; [done | intros (_ & H%Hne & _); done]].
    apply proj1 in Hne. specialize (Hne eq_refl). destruct (ia_ipv4 x).
    - destruct (_isPrivateIpv4 _); split; intros H; [split_and!; [done.. | left; split_and!; congruence] | | done |];
        destruct H as (_ & _ & [(_ & H & ->) | [[H _] | [H _]]]); done.
    - destruct (isUla _), linkLocal, (isLinkLocal6 _); cbn [andb]; split; intros H; try done;
        try (split_and!; [done.. |]; injection H as <-; tauto);
        destruct H as (_ & _ & [[H _] | [(_ & H & ->) | (_ & H & H1 & H2 & ->)]]); done. }
  assert (a ∈ exclude ∧ nonempty a = true ↔ a ∈ exclude ∧ a ≠ []) as -> by (destruct a; naive_solver).
  split.
  - intros [([name addrs] & Hin & Hi) Hn]. cbn [fst snd] in Hin. split; [done |].
    destruct (isPhysicalLan name) eqn:Hph; [|by apply elem_of_nil in Hin].
    apply list_elem_of_omap in Hin as (x & Hxi & Hxa). exists name, addrs, x. by apply Hx in Hxa.
  - intros (Hn & name & addrs & x & Hi & Hph & Hxi & Hxa). split; [|done]. exists (name, addrs). cbn [fst snd]. rewrite Hph.
    split; [|done]. apply list_elem_of_omap. exists x. split; [done |]. by apply Hx.
Qed.

(** ** Closing while an address is being bound *)

(** The server is switched off while it binds an address: the socket stays. *)
Definition lan_ip : listen_addr := ListenAddr (js "192.168.1.2") 4.
Lemma close_misses_binding :
  let l := (reconcile [lan_ip] newListener).1 in
  let l := (opened 0 None l).1 in
  let l := (close l).1 in
  let '(l, fx) := opened 0 None l in
  ln_bound l = [(js "192.168.1.2", (0%nat, 1%nat))] ∧ fx = [Reconciled 0].
Proof. by vm_compute. Qed.
