(* ===== verification/DnsLists.v ===== *)
(** * src/dns/lists.js

    Fetching a block list over HTTPS, and the manager of the lists: what is
    wanted, what is in memory, what is on disk, and one update at a time.  The
    manager is a machine split where it waits; a parse reads the bytes the
    file has when it begins.  Objects whose identity the code compares are
    numbered: the catalogue by [ls_gen], an entry of [meta] by [lm_id]. *)

From S2P Require Import Prelude JsBuffer JsMap JsSet JsValues Crypto DomainSet ListParser DnsConfig Machine.

Local Open Scope Z_scope.

Definition MAX_BYTES : Z := 64 * 1024 * 1024.
Definition MAX_ENTRIES_LIST : Z := 1500000.
Definition MAX_ENTRIES_TOTAL : Z := 3000000.
Definition REFRESH_MS : Z := 24 * 3600000.
Definition RETRY_MS : Z := 3600000.
Definition MAX_REDIRECTS : nat := 3.
Definition ID_RE : jstr → bool := LIST_ID_RE.

(** ** Fetching *)

(** An answer: [ha_length] is the content length when it is a finite number;
    [ha_broken]: the connection failed after the bytes of the body. *)
Record http_answer := HttpAnswer {
  ha_status : Z; ha_location : option jstr; ha_etag : option jstr; ha_lastModified : option jstr;
  ha_length : option Z; ha_body : list Z; ha_broken : bool }.
Inductive fetched := NotModified | Fetched (body : list Z) (etag lastModified : option jstr).

(** What is done with an answer that is no redirect. *)
Definition take_answer (maxBytes : Z) (a : http_answer) : res fetched :=
  if ha_status a =? 304 then Ok NotModified
  else if negb (ha_status a =? 200) then Throw "http_status"
  else if match ha_length a with Some n => maxBytes <? n | None => false end then Throw "too_large"
  else if maxBytes <? blen (ha_body a) then Throw "too_large"
  else if ha_broken a then Throw "network"
  else Ok (Fetched (ha_body a) (take 256 <$> ha_etag a) (take 64 <$> ha_lastModified a)).

Definition redirect (a : http_answer) : option jstr :=
  match ha_location a with
  | Some (_ :: _) => if bool_decide (ha_status a ∈ [301; 302; 303; 307; 308]) then ha_location a else None
  | _ => None
  end.

Section Fetch.
Context `{Runtime}.
(** [new URL(location, base).toString()], and what the server of a URL
    answers; [None] is a connection that failed. *)
Context (join_URL : jstr → jstr → option jstr) (http_get : jstr → option http_answer).

(** The URLs that are asked, and the result; [more]: redirects that may follow. *)
Fixpoint fetchList (more : nat) (u : jstr) (maxBytes : Z) : list jstr * res fetched :=
  match parse_URL u with
  | None => ([], Throw "bad_url")
  | Some x =>
      if negb (bool_decide (ur_protocol x = js "https:")) then ([], Throw "not_https")
      else
        match http_get u with
        | None => ([u], Throw "network")
        | Some a =>
            match redirect a with
            | Some location =>
                match more with
                | O => ([u], Throw "too_many_redirects")
                | S more =>
                    match join_URL location u with
                    | None => ([u], Throw "bad_redirect")
                    | Some next => let '(us, r) := fetchList more next maxBytes in (u :: us, r)
                    end
                end
            | None => ([u], take_answer maxBytes a)
            end
        end
  end.
End Fetch.

(** ** The manager *)

Record list_meta := ListMeta {
  lm_id : nat; lm_url : jstr; lm_format : jstr; lm_etag : option jstr; lm_lastModified : option jstr; lm_sha256 : option jstr;
  lm_entries : Z; lm_bytes : Z; lm_updatedAt : option Z; lm_checkedAt : option Z; lm_nextAt : Z; lm_error : option (Z * string) }.

(** [setWanted] waits for the file of [st_id]; the result it will get. *)
Record setting := Setting { st_id : jstr; st_result : res parsed; st_todo : list jstr; st_changed : bool }.
(** An update waits for the server or for the parser.  [rf_gen]: the
    catalogue it began with; [rf_meta]: the entry of [meta] it writes to. *)
Inductive refreshing :=
  | AtFetch (id : jstr) (c : list_cfg) (gen meta : nat) (jitter : Z) (todo : list jstr)
  | AtParse (id : jstr) (c : list_cfg) (gen meta : nat) (jitter : Z) (todo : list jstr)
      (body : list Z) (etag lastModified : option jstr) (r : res parsed).

Record lists := Lists {
  ls_catalog : list (jstr * list_cfg); ls_gen : nat; ls_used : list jstr; ls_lists : list (jstr * CompactList);
  ls_meta : list (jstr * list_meta); ls_metas : nat; ls_files : list (jstr * list Z);
  ls_setting : option setting; ls_refresh : option refreshing }.

Inductive ls_effect :=
  | Fetch (id url : jstr) (etag lastModified : option jstr) | SaveMeta | Changed | SettingDone | RefreshDone.
Definition lsop := mop lists ls_effect.

Definition s_maps (lists_ : list (jstr * CompactList)) (meta : list (jstr * list_meta)) (files : list (jstr * list Z)) (l : lists) : lists :=
  Lists (ls_catalog l) (ls_gen l) (ls_used l) lists_ meta (ls_metas l) files (ls_setting l) (ls_refresh l).
Definition s_setting (s : option setting) (l : lists) : lists :=
  Lists (ls_catalog l) (ls_gen l) (ls_used l) (ls_lists l) (ls_meta l) (ls_metas l) (ls_files l) s (ls_refresh l).
Definition s_refresh (r : option refreshing) (l : lists) : lists :=
  Lists (ls_catalog l) (ls_gen l) (ls_used l) (ls_lists l) (ls_meta l) (ls_metas l) (ls_files l) (ls_setting l) r.

(** A write to the entry of [meta] that is object [n]. *)
Definition meta_at (id : jstr) (n : nat) (f : list_meta → list_meta) (l : lists) : lists :=
  match map_get (ls_meta l) id with
  | Some m => if bool_decide (lm_id m = n) then s_maps (ls_lists l) (map_set (ls_meta l) id (f m)) (ls_files l) l else l
  | None => l
  end.

Definition m_checked (now : Z) (m : list_meta) : list_meta :=
  ListMeta (lm_id m) (lm_url m) (lm_format m) (lm_etag m) (lm_lastModified m) (lm_sha256 m) (lm_entries m) (lm_bytes m)
    (lm_updatedAt m) (Some now) (lm_nextAt m) (lm_error m).
Definition m_next (nextAt : Z) (error : option (Z * string)) (m : list_meta) : list_meta :=
  ListMeta (lm_id m) (lm_url m) (lm_format m) (lm_etag m) (lm_lastModified m) (lm_sha256 m) (lm_entries m) (lm_bytes m)
    (lm_updatedAt m) (lm_checkedAt m) nextAt error.
Definition m_entries (n : Z) (m : list_meta) : list_meta :=
  ListMeta (lm_id m) (lm_url m) (lm_format m) (lm_etag m) (lm_lastModified m) (lm_sha256 m) n (lm_bytes m)
    (lm_updatedAt m) (lm_checkedAt m) (lm_nextAt m) (lm_error m).
Definition m_updated (etag lastModified : option jstr) (sha : jstr) (entries bytes now nextAt : Z) (m : list_meta) : list_meta :=
  ListMeta (lm_id m) (lm_url m) (lm_format m) etag lastModified (Some sha) entries bytes (Some now) (lm_checkedAt m) nextAt None.
Definition newMeta (n : nat) (c : list_cfg) : list_meta :=
  ListMeta n (lc_url c) (lc_format c) None None None 0 0 None None 0 None.

Definition format_of (s : jstr) : list_format :=
  if bool_decide (s = js "hosts") then Hosts else if bool_decide (s = js "adblock") then Adblock else Domains.

(** [m.url === c.url && m.format === c.format && (!c.sha256 || c.sha256 === m.sha256)] *)
Definition same (m : list_meta) (c : list_cfg) : bool :=
  bool_decide (lm_url m = lc_url c) && bool_decide (lm_format m = lc_format c)
  && match lc_sha256 c with Some s => bool_decide (lm_sha256 m = Some s) | None => true end.

Definition totalEntries (except : jstr) (l : lists) : Z :=
  foldr Z.add 0 ((λ e : jstr * CompactList, cl_size e.2) <$> List.filter (λ e, negb (bool_decide (e.1 = except))) (ls_lists l)).

Section Manager.
Context `{Unicode} `{Node}.

Definition parseFile (body : option (list Z)) (format : jstr) (maxEntries : Z) : res parsed :=
  match body with
  | Some b => parseListStream [b] (format_of format) maxEntries (countLines [b])
  | None => Throw "ENOENT"
  end.

(** *** What is wanted *)

(** The loop over the used lists up to its next wait or its end. *)
Fixpoint want_next (todo : list jstr) (changed : bool) : lsop := λ l,
  match todo with
  | [] => (s_setting None l, SaveMeta :: (if changed then [Changed] else []) ++ [SettingDone])
  | id :: todo =>
      match map_get (ls_catalog l) id with
      | Some c =>
          if match map_get (ls_meta l) id with Some m => same m c | None => false end then
            if map_has (ls_lists l) id then want_next todo changed l
            else (s_setting (Some (Setting id (parseFile (map_get (ls_files l) id) (lc_format c) MAX_ENTRIES_LIST) todo changed)) l, [])
          else
            want_next todo (changed || map_has (ls_lists l) id)
              (Lists (ls_catalog l) (ls_gen l) (ls_used l) (map_delete (ls_lists l) id)
                 (map_set (ls_meta l) id (newMeta (ls_metas l) c)) (S (ls_metas l)) (ls_files l) (ls_setting l) (ls_refresh l))
      | None => want_next todo changed l
      end
  end.

Definition setWanted (catalog : list (jstr * list_cfg)) (usedIds : list jstr) : lsop := λ l,
  let used := List.filter (λ id, map_has catalog id) (uniq usedIds) in
  let kept := List.filter (λ e : jstr * CompactList, bool_decide (e.1 ∈ used)) (ls_lists l) in
  want_next used (length kept <? length (ls_lists l))%nat
    (Lists catalog (S (ls_gen l)) used kept
       (List.filter (λ e : jstr * list_meta, map_has catalog e.1) (ls_meta l)) (ls_metas l)
       (List.filter (λ e : jstr * list Z, negb (map_has (ls_meta l) e.1) || map_has catalog e.1) (ls_files l))
       (ls_setting l) (ls_refresh l)).

(** The file was parsed, or not. *)
Definition setting_parsed : lsop := λ l,
  match ls_setting l with
  | Some s =>
      let l := s_setting None l in
      match map_get (ls_meta l) (st_id s), st_result s with
      | Some m, Ok p =>
          want_next (st_todo s) true
            (s_maps (map_set (ls_lists l) (st_id s) (pl_list p)) (map_set (ls_meta l) (st_id s) (m_entries (pl_entries p) m)) (ls_files l) l)
      | Some m, _ =>
          want_next (st_todo s) (st_changed s)
            (s_maps (ls_lists l) (map_set (ls_meta l) (st_id s) (m_next 0 (lm_error m) m)) (ls_files l) l)
      | None, _ => want_next (st_todo s) (st_changed s) l
      end
  | None => (l, [])
  end.

(** *** Updates *)

(** The next list that is due; [dir_ok]: the folder is there or can be made. *)
Fixpoint refresh_next (todo : list jstr) (now jitter : Z) (dir_ok : bool) : lsop := λ l,
  match todo with
  | [] => (s_refresh None l, [RefreshDone])
  | id :: todo =>
      match map_get (ls_meta l) id, map_get (ls_catalog l) id with
      | Some m, Some c =>
          if (now <? lm_nextAt m) || negb dir_ok then refresh_next todo now jitter dir_ok l
          else
            let have := map_has (ls_lists l) id in
            (s_refresh (Some (AtFetch id c (ls_gen l) (lm_id m) jitter todo)) l,
             [Fetch id (lc_url c) (if have then lm_etag m else None) (if have then lm_lastModified m else None)])
      | _, _ => refresh_next todo now jitter dir_ok l
      end
  end.

Definition refreshDue (now jitter : Z) (dir_ok : bool) : lsop := λ l,
  match ls_refresh l with Some _ => (l, []) | None => refresh_next (ls_used l) now jitter dir_ok l end.

(** The [catch] of an update; the draw of the next one is [jitter']. *)
Definition update_failed (id : jstr) (meta : nat) (code : string) (now jitter jitter' : Z) (dir_ok : bool) (todo : list jstr) : lsop :=
  mset (meta_at id meta (λ m, m_next (now + RETRY_MS + jitter) (Some (now, code)) (m_checked now m)))
  ⨾ mdo [SaveMeta] ⨾ refresh_next todo now jitter' dir_ok.

Definition fetch_done (r : res fetched) (now jitter' : Z) (dir_ok : bool) : lsop := λ l,
  match ls_refresh l with
  | Some (AtFetch id c gen meta jitter todo) =>
      match r with
      | Ok NotModified =>
          (mset (meta_at id meta (λ m, m_next (now + REFRESH_MS + jitter) None (m_checked now m)))
           ⨾ mdo [SaveMeta] ⨾ refresh_next todo now jitter' dir_ok) l
      | Ok (Fetched body etag lastModified) =>
          if match lc_sha256 c with Some s => negb (bool_decide (hex (sha256 body) = s)) | None => false end
          then update_failed id meta "sha256_mismatch" now jitter jitter' dir_ok todo l
          else
            let room := Z.min MAX_ENTRIES_LIST (MAX_ENTRIES_TOTAL - totalEntries id l) in
            (mset (meta_at id meta (m_checked now))
             ⨾ mset (s_refresh (Some (AtParse id c gen meta jitter todo body etag lastModified
                                        (parseFile (Some body) (lc_format c) (Z.max 0 room)))))) l
      | Throw code => update_failed id meta code now jitter jitter' dir_ok todo l
      | NoFuel => (l, [])
      end
  | _ => (l, [])
  end.

Definition refresh_parsed (now jitter' : Z) (dir_ok : bool) : lsop := λ l,
  match ls_refresh l with
  | Some (AtParse id c gen meta jitter todo body etag lastModified r) =>
      match r with
      | Ok p =>
          if pl_entries p =? 0 then update_failed id meta "empty" now jitter jitter' dir_ok todo l
          else
            let l := s_maps (ls_lists l) (ls_meta l) (map_set (ls_files l) id body) l in
            if negb (bool_decide (ls_gen l = gen)) || negb (bool_decide (id ∈ ls_used l)) then refresh_next todo now jitter' dir_ok l
            else
              (mset (λ l, s_maps (map_set (ls_lists l) id (pl_list p)) (ls_meta l) (ls_files l) l)
               ⨾ mset (meta_at id meta (m_updated etag lastModified (hex (sha256 body)) (pl_entries p) (blen body) now (now + REFRESH_MS + jitter)))
               ⨾ mdo [SaveMeta; Changed] ⨾ refresh_next todo now jitter' dir_ok) l
      | Throw code => update_failed id meta code now jitter jitter' dir_ok todo l
      | NoFuel => (l, [])
      end
  | _ => (l, [])
  end.

(** [setWanted] is only called when the last call is done (features/manager.js). *)
Inductive ls_input :=
  | SetWanted (catalog : list (jstr * list_cfg)) (usedIds : list jstr) | SettingParsed
  | RefreshDue (now jitter : Z) (dir_ok : bool) | FetchDone (r : res fetched) (now jitter : Z) (dir_ok : bool)
  | RefreshParsed (now jitter : Z) (dir_ok : bool).
Definition ls_step (i : ls_input) : lsop := λ l,
  match i with
  | SetWanted catalog usedIds => match ls_setting l with None => setWanted catalog usedIds l | Some _ => (l, []) end
  | SettingParsed => setting_parsed l
  | RefreshDue now jitter ok => refreshDue now jitter ok l
  | FetchDone r now jitter ok => fetch_done r now jitter ok l
  | RefreshParsed now jitter ok => refresh_parsed now jitter ok l
  end.
End Manager.

Record list_telemetry := ListTelemetry { lt_loaded : bool; lt_entries : Z; lt_updatedAt : option Z; lt_checkedAt : option Z; lt_error : option (Z * string) }.
Definition telemetry (l : lists) : list (jstr * list_telemetry) :=
  (λ id, let m := map_get (ls_meta l) id in
         (id, ListTelemetry (map_has (ls_lists l) id) (match map_get (ls_lists l) id with Some x => cl_size x | None => 0 end)
                (m ≫= lm_updatedAt) (m ≫= lm_checkedAt) (m ≫= lm_error))) <$> ls_used l.
Definition memoryBytes (l : lists) : Z := foldr Z.add 0 ((λ e : jstr * CompactList, cl_bytes e.2) <$> ls_lists l).

(** ** What stays in memory

    Over any order of settings, downloads and parses: only wanted lists are in
    memory, an update that fails changes nothing, and one that succeeds puts
    in place what was downloaded, with the digest the settings ask for. *)

Section Facts.
Context `{Unicode} `{Node}.

(** The entry an update began with is that of the catalogue, unless this was replaced. *)
Definition began_with (l : lists) (id : jstr) (c : list_cfg) (gen : nat) : Prop :=
  (gen <= ls_gen l)%nat ∧ (gen = ls_gen l → map_get (ls_catalog l) id = Some c).
Definition downloaded (c : list_cfg) (body : list Z) (r : res parsed) : Prop :=
  (∀ s, lc_sha256 c = Some s → hex (sha256 body) = s) ∧
  ∃ max, 0 ≤ max ≤ MAX_ENTRIES_LIST ∧ r = parseFile (Some body) (lc_format c) max.

Record lists_ok (l : lists) : Prop := {
  lk_used : Forall (λ id, map_has (ls_catalog l) id = true) (ls_used l);
  lk_lists : ∀ id x, map_get (ls_lists l) id = Some x → id ∈ ls_used l;
  lk_setting s : ls_setting l = Some s → st_id s ∈ ls_used l ∧ st_todo s ⊆ ls_used l;
  lk_fetch id c gen m j todo : ls_refresh l = Some (AtFetch id c gen m j todo) → began_with l id c gen;
  lk_parse id c gen m j todo body e lm r : ls_refresh l = Some (AtParse id c gen m j todo body e lm r) → began_with l id c gen ∧ downloaded c body r }.

Lemma initial_ok meta n files : lists_ok (Lists [] 0 [] [] meta n files None None).
Proof. split; cbn; [constructor | done..]. Qed.

(** Changes of what the invariant does not speak of. *)
Lemma meta_at_frame id n f l : ∃ meta, meta_at id n f l = s_maps (ls_lists l) meta (ls_files l) l.
Proof.
  unfold meta_at. destruct (map_get (ls_meta l) id) as [m|]; [|exists (ls_meta l); by destruct l].
  case_bool_decide; [by eexists |]. exists (ls_meta l). by destruct l.
Qed.
Lemma maps_ok l lists_ meta files : lists_ok l → (∀ id x, map_get lists_ id = Some x → id ∈ ls_used l) → lists_ok (s_maps lists_ meta files l).
Proof. intros [] Hl. by split. Qed.

(** ** Settings *)

(** The loop over the wanted lists: what it may take out of memory. *)
Lemma want_next_ok todo : ∀ changed l, lists_ok l → ls_setting l = None → todo ⊆ ls_used l →
  let l' := (want_next todo changed l).1 in
  lists_ok l' ∧ ls_files l' = ls_files l ∧ ls_catalog l' = ls_catalog l ∧ ls_used l' = ls_used l ∧
  ∀ id, (∀ c, map_get (ls_catalog l) id = Some c → ∃ m, map_get (ls_meta l) id = Some m ∧ same m c = true) →
    map_get (ls_lists l') id = map_get (ls_lists l) id.
Proof.
  induction todo as [|id todo IH]; intros changed l Hl Hs Ht; cbn [want_next].
  { split_and!; [|done..]. cbn [fst]. destruct Hl. split; cbn; [done | done | done | done | done]. }
  assert (todo ⊆ ls_used l) as Ht' by set_solver.
  destruct (map_get (ls_catalog l) id) as [c|] eqn:Hc; [|by apply IH].
  destruct (match map_get (ls_meta l) id with Some m => same m c | None => false end) eqn:Hm.
  - destruct (map_has (ls_lists l) id); [by apply IH |]. cbn [fst]. split_and!; [|done..].
    pose proof Hl as []. split; cbn; [done | done | | done | done]. intros s [= <-]. cbn. set_solver.
  - set (l1 := Lists _ _ _ _ _ _ _ _ _).
    assert (lists_ok l1) as Hl1.
    { pose proof Hl as []. split; cbn; [done | | done | done | done]. intros q x Hq. rewrite map_get_delete in Hq. case_decide; [done | eauto]. }
    destruct (IH (changed || map_has (ls_lists l) id) l1 Hl1 Hs Ht') as (H1 & H2 & H3 & H4 & H5).
    split_and!; [done.. |]. intros q Hq. assert (q ≠ id) as Hqi.
    { intros ->. destruct (Hq c Hc) as (m & Hmm & Hsame). by rewrite Hmm, Hsame in Hm. }
    rewrite H5; cbn; rewrite ?map_get_delete, ?map_get_set, decide_False by done; [done | exact Hq].
Qed.

Lemma filter_get {V} (f : jstr → bool) (m : list (jstr * V)) k : map_get (List.filter (λ e, f e.1) m) k = if f k then map_get m k else None.
Proof.
  induction m as [|[k1 v] m IH]; cbn [List.filter fst map_get]; [by destruct (f k) |].
  destruct (f k1) eqn:E; cbn [map_get]; destruct (decide (k = k1)) as [-> |]; rewrite ?E; try done. by rewrite IH, E.
Qed.

Lemma setWanted_ok catalog used l : lists_ok l → ls_setting l = None →
  let l' := (setWanted catalog used l).1 in
  lists_ok l' ∧ ∀ id c m, id ∈ used → map_get catalog id = Some c → map_get (ls_meta l) id = Some m → same m c = true →
    map_get (ls_lists l') id = map_get (ls_lists l) id.
Proof.
  intros Hl Hs. unfold setWanted. set (u := List.filter _ (uniq used)). set (kept := List.filter _ (ls_lists l)). set (l1 := Lists _ _ _ _ _ _ _ _ _).
  assert (∀ q, map_get kept q = if bool_decide (q ∈ u) then map_get (ls_lists l) q else None) as Hk
    by (pose (f := λ q : jstr, bool_decide (q ∈ u)); intros q; exact (filter_get f (ls_lists l) q)).
  assert (lists_ok l1) as Hl1.
  { pose proof Hl as [Hu Hli Hse Hf Hp]. split; cbn.
    - apply Forall_forall. intros q Hq. apply list_elem_of_In, filter_In in Hq as [_ Hq]. exact Hq.
    - intros q x Hq. rewrite Hk in Hq. by case_bool_decide.
    - rewrite Hs. done.
    - intros q c g m j todo Hr. apply Hf in Hr as [Hr _]. split; cbn; [lia |]. intros ->. lia.
    - intros q c g m j todo b e lm r Hr. apply Hp in Hr as [[Hr _] Hd]. split; [|done]. split; cbn; [lia |]. intros ->. lia. }
  destruct (want_next_ok u (length kept <? length (ls_lists l))%nat l1 Hl1 Hs (λ x Hx, Hx)) as (H1 & _ & _ & _ & H5).
  split; [done |]. intros q c m Hq Hc Hm Hsame. rewrite H5.
  - cbn. rewrite Hk. rewrite bool_decide_true; [done |]. apply list_elem_of_In, filter_In. rewrite <- list_elem_of_In, elem_of_uniq.
    unfold map_has. by rewrite Hc.
  - cbn. intros c' Hc'. assert (c' = c) as -> by congruence. exists m. split; [|done].
    rewrite (filter_get (λ q, map_has catalog q)). unfold map_has. by rewrite Hc.
Qed.

Lemma setting_parsed_ok l : lists_ok l → lists_ok (setting_parsed l).1.
Proof.
  intros Hl. unfold setting_parsed. destruct (ls_setting l) as [s|] eqn:Es; [|done]. destruct (lk_setting _ Hl s Es) as [Hi Ht].
  assert (lists_ok (s_setting None l)) as Hl1 by (destruct Hl; by split).
  assert (∀ li meta ch, (∀ id x, map_get li id = Some x → id ∈ ls_used l) →
    lists_ok (want_next (st_todo s) ch (s_maps li meta (ls_files (s_setting None l)) (s_setting None l))).1) as Hgo.
  { intros li meta ch Hli. apply want_next_ok; [|done | done]. by apply maps_ok. }
  cbn [ls_meta s_setting]. destruct (map_get (ls_meta l) (st_id s)) as [m|]; [|apply want_next_ok; done].
  destruct (st_result s) as [p | e |]; apply Hgo; try apply Hl.
  intros q x. rewrite map_get_set. case_decide; [by subst | apply Hl].
Qed.

(** ** Updates *)

Definition kept (l l' : lists) (id : jstr) : Prop :=
  map_get (ls_lists l') id = map_get (ls_lists l) id ∧ map_get (ls_files l') id = map_get (ls_files l) id.
Definition replaced (l l' : lists) (id : jstr) : Prop :=
  ∃ c body p, map_get (ls_files l') id = Some body ∧ downloaded c body (Ok p) ∧ pl_entries p ≠ 0 ∧
    (map_get (ls_lists l') id = map_get (ls_lists l) id ∨
     map_get (ls_catalog l') id = Some c ∧ map_get (ls_lists l') id = Some (pl_list p)).

(** The next list that is due: the rest stays as it is. *)
Lemma refresh_next_ok todo now j ok : ∀ l, lists_ok l →
  let l' := (refresh_next todo now j ok l).1 in
  lists_ok l' ∧ ls_lists l' = ls_lists l ∧ ls_files l' = ls_files l ∧ ls_catalog l' = ls_catalog l.
Proof.
  induction todo as [|id todo IH]; intros l Hl; cbn [refresh_next]; [destruct Hl; by split_and!; [split |..] |].
  destruct (map_get (ls_meta l) id) as [m|]; [|by apply IH]. destruct (map_get (ls_catalog l) id) as [c|] eqn:Hc; [|by apply IH].
  destruct (_ || _); [by apply IH |]. cbn [fst]. split_and!; [|done..]. destruct Hl. split; try done. cbn. intros ? ? ? ? ? ? [= <- <- <- _ _ _]. by split.
Qed.

Lemma kept_same l l' id : ls_lists l' = ls_lists l → ls_files l' = ls_files l → kept l l' id.
Proof. intros H1 H2. unfold kept. by rewrite H1, H2. Qed.

Lemma update_failed_ok id m code now j j' ok todo l : lists_ok l →
  let l' := (update_failed id m code now j j' ok todo l).1 in lists_ok l' ∧ ∀ q, kept l l' q.
Proof.
  intros Hl. unfold update_failed. rewrite !mthen_fst. cbn [mset mdo fst]. set (f := λ m, m_next _ _ _).
  destruct (meta_at_frame id m f l) as [meta ->].
  destruct (refresh_next_ok todo now j' ok (s_maps (ls_lists l) meta (ls_files l) l)) as (H1 & H2 & H3 & _); [by apply maps_ok, Hl |].
  split; [done |]. intros q. by apply kept_same.
Qed.

Lemma fetch_done_ok r now j' ok l : lists_ok l → let l' := (fetch_done r now j' ok l).1 in lists_ok l' ∧ ∀ q, kept l l' q.
Proof.
  intros Hl. unfold fetch_done. destruct (ls_refresh l) as [[id c gen m j todo |]|] eqn:Er; [|done | done].
  destruct r as [[|body etag lm] | code |]; [| | by apply update_failed_ok | done].
  - rewrite !mthen_fst. cbn [mset mdo fst]. set (f := λ m, m_next _ _ _). destruct (meta_at_frame id m f l) as [meta ->].
    destruct (refresh_next_ok todo now j' ok (s_maps (ls_lists l) meta (ls_files l) l)) as (H1 & H2 & H3 & _); [by apply maps_ok, Hl |].
    split; [done |]. intros q. by apply kept_same.
  - destruct (match lc_sha256 c with Some s => _ | None => false end) eqn:Esha; [by apply update_failed_ok |].
    rewrite mthen_fst. cbn [mset fst]. destruct (meta_at_frame id m (m_checked now) l) as [meta ->]. split; [|done].
    pose proof (lk_fetch _ Hl _ _ _ _ _ _ Er) as Hb. destruct Hl. split; try done. cbn. intros ? ? ? ? ? ? ? ? ? ? [= <- <- <- _ _ _ <- _ _ <-].
    split; [done |]. split.
    + intros s Hs. rewrite Hs in Esha. apply negb_false_iff, bool_decide_eq_true in Esha. done.
    + eexists. split; [|done]. unfold MAX_ENTRIES_LIST. lia.
Qed.

Lemma refresh_parsed_ok now j' ok l : lists_ok l →
  let l' := (refresh_parsed now j' ok l).1 in lists_ok l' ∧ ∀ q, kept l l' q ∨ replaced l l' q.
Proof.
  intros Hl. unfold refresh_parsed. destruct (ls_refresh l) as [[|id c gen m j todo body etag lm r]|] eqn:Er; [by split; [|by left] | | by split; [|by left]].
  assert (∀ code, let l' := (update_failed id m code now j j' ok todo l).1 in lists_ok l' ∧ ∀ q, kept l l' q ∨ replaced l l' q) as Hfail.
  { intros code. destruct (update_failed_ok id m code now j j' ok todo l Hl) as [H1 H2]. auto. }
  destruct r as [p | code |]; [| apply Hfail | by split; [|by left]]. destruct (Z.eqb_spec (pl_entries p) 0) as [| Hp]; [apply Hfail |].
  destruct (lk_parse _ Hl _ _ _ _ _ _ _ _ _ _ Er) as [[_ Hcat] Hd]. set (l1 := s_maps _ _ _ l).
  assert (∀ q, map_get (ls_files l1) q = if decide (q = id) then Some body else map_get (ls_files l) q) as Hfiles by (intros q; apply map_get_set).
  destruct (negb _ || negb _) eqn:Eg.
  - destruct (refresh_next_ok todo now j' ok l1) as (H1 & H2 & H3 & _); [by apply maps_ok, Hl |]. split; [done |].
    intros q. destruct (decide (q = id)) as [-> | Hq].
    + right. exists c, body, p. rewrite H2, H3, Hfiles, decide_True by done. split_and!; [done | done | done | by left].
    + left. split; [by rewrite H2 |]. by rewrite H3, Hfiles, decide_False.
  - apply orb_false_iff in Eg as [Eg%negb_false_iff%bool_decide_eq_true Hu%negb_false_iff%bool_decide_eq_true].
    rewrite !mthen_fst. cbn [mset mdo fst]. set (l2 := s_maps _ _ _ _). set (f := m_updated _ _ _ _ _ _ _). destruct (meta_at_frame id m f l2) as [meta ->].
    assert (∀ q, map_get (ls_lists l2) q = if decide (q = id) then Some (pl_list p) else map_get (ls_lists l) q) as Hlists by (intros q; apply map_get_set).
    destruct (refresh_next_ok todo now j' ok (s_maps (ls_lists l2) meta (ls_files l2) l2)) as (H1 & H2 & H3 & H4).
    { apply maps_ok; [|cbn]; [apply maps_ok; [by apply maps_ok, Hl |]|]; intros q x; rewrite map_get_set; case_decide as Hq; try (by rewrite Hq); apply Hl. }
    split; [done |]. intros q. destruct (decide (q = id)) as [-> | Hq].
    + right. exists c, body, p. rewrite H2, H3, H4. cbn. rewrite !map_get_set, !decide_True by done. split_and!; [done | done | done |]. right. split; [|done].
      apply Hcat. symmetry. exact Eg.
    + left. split; rewrite ?H2, ?H3; cbn; by rewrite map_get_set, decide_False.
Qed.

Definition is_update (i : ls_input) : bool := match i with SetWanted _ _ | SettingParsed => false | _ => true end.

Lemma ls_step_ok i l : lists_ok l → lists_ok (ls_step i l).1 ∧ (is_update i = true → ∀ id, kept l (ls_step i l).1 id ∨ replaced l (ls_step i l).1 id).
Proof.
  intros Hl. destruct i as [catalog used | | now j ok | r now j ok | now j ok]; cbn [ls_step is_update].
  - destruct (ls_setting l) eqn:Es; [done |]. split; [|done]. by apply setWanted_ok.
  - split; [by apply setting_parsed_ok | done].
  - unfold refreshDue. destruct (ls_refresh l) eqn:Er; [split; [done | by left] |].
    destruct (refresh_next_ok (ls_used l) now j ok l Hl) as (H1 & H2 & H3 & _). split; [done |]. intros _ id. left. by apply kept_same.
  - destruct (fetch_done_ok r now j ok l Hl) as [H1 H2]. split; [done |]. intros _ id. left. apply H2.
  - destruct (refresh_parsed_ok now j ok l Hl) as [H1 H2]. split; [done |]. intros _ id. apply H2.
Qed.

End Facts.

(** ** A file without its digest

    The file is put in place before the code looks whether the settings
    changed meanwhile; then the digest in [meta] is that of the old bytes, and
    settings that ask for this digest get the list of the new ones. *)

Definition list_text (s : string) : list Z := js s ++ [10].
Definition old_text : list Z := list_text "ads-0123456789012345678901.example".
Definition new_text : list Z := list_text "new-0123456789012345678901.example".
Definition plain_cfg : list_cfg := ListCfg (js "https://lists.example/a") (js "domains") None.
Lemma pinned_list_of_other_bytes :
  let U := ascii_unicode in let N := toy_node (λ _, None) in
  let pinned := ListCfg (lc_url plain_cfg) (lc_format plain_cfg) (Some (hex (sha256 old_text))) in
  let a := js "a" in
  let day := 2 * REFRESH_MS in
  let l := (mrun ls_step
    [SetWanted [(a, plain_cfg)] [a]; RefreshDue 0 0 true; FetchDone (Ok (Fetched old_text None None)) 0 0 true; RefreshParsed 0 0 true;
     RefreshDue day 0 true; FetchDone (Ok (Fetched new_text None None)) day 0 true;
     SetWanted [(a, plain_cfg)] [a]; RefreshParsed day 0 true;
     SetWanted [(a, plain_cfg)] []; SetWanted [(a, pinned)] [a]; SettingParsed]
    (Lists [] 0 [] [] [] 0 [] None None)).1 in
  map_get (ls_catalog l) a = Some pinned ∧
  Ok <$> map_get (ls_lists l) a = Some (pl_list <$> parseFile (Some new_text) (js "domains") MAX_ENTRIES_LIST) ∧
  hex (sha256 new_text) ≠ hex (sha256 old_text).
Proof. vm_compute. split_and!; [done | done | done]. Qed.
