(* ===== verification/DnsFilter.v ===== *)
(** * src/dns/dns.js

    The DNS filter as a whole: the settings and what they start and stop, the
    policy over the lists in memory, the upstream in use, the bound
    addresses, the recurring tasks, the reports with their statistics, and
    what is shown of it.  Its parts are the machines of the files it requires;
    questions are answered by Resolver, of which the counts and the log entry
    arrive here. *)

From S2P Require Import ResponseCache.
From S2P Require Import Prelude JsBuffer JsValues JsMap JsSet JsText JsFloat Crypto DomainSet Policy LanInterfaces FeatureStatus Resolver DnsConfig Machine.
From S2P Require Import DnsStats DnsServer DnsLists Upstream.

Local Open Scope Z_scope.

Definition REPORT_MS : Z := 5 * 60000.
Definition LISTEN_MS : Z := 60000.
Definition LISTS_MS : Z := 10 * 60000.

(** ** Search domains *)

(** [split(/\s+/)] of a text without white space at its ends. *)
Fixpoint words_go (word : jstr) (s : jstr) : list jstr :=
  match s with
  | [] => if nonempty word then [word] else []
  | c :: s => if js_space c then (if nonempty word then word :: words_go [] s else words_go [] s) else words_go (word ++ [c]) s
  end.

(** The pattern of a line that begins with [search] or [domain]: what follows
    the word; the dot of the pattern does not match the ends of lines. *)
Definition SEARCH_RE (line : jstr) : option jstr :=
  let line := drop_space line in
  match (if starts_with (js "search") line || starts_with (js "domain") line then drop 6 line else []) with
  | c :: r =>
      let rest := drop_space (c :: r) in
      if js_space c && nonempty rest && forallb (λ c, negb ((c =? 13) || (c =? 8232) || (c =? 8233))) rest then Some rest else None
  | [] => None
  end.

Section Search.
Context `{Unicode}.
Definition searchDomains (text : jstr) : list jstr :=
  take 8 (omap (cleanDomain true)
            (omap SEARCH_RE (split_on 10 text) ≫= λ names, words_go [] (trim names))).
End Search.

(** ** The state *)

Definition up_key : Type := jstr * option jstr * bool.
Record post := Post { po_body : body; po_period : period; po_loop : bool }.
(** The timer of a task, and how many of its runs have not ended. *)
Record looped := Looped { lp_task : task; lp_running : nat }.

Record filter (E : Type) := DnsFilter {
  df_cfg : option dns_config; df_status : feature_status; df_stats : stats; df_cache : ResponseCache.cache; df_lists : lists;
  df_upstream : option upstream; df_upstreamKey : option up_key; df_policy : option dns_config; df_log : list E;
  df_listener : listener; df_listen : listen_status; df_lastReportAt : option Z; df_reportError : option (Z * option Z);
  df_listenLoop : looped; df_listsLoop : looped; df_reportLoop : looped;
  df_applying : option bool; df_posts : list (nat * post); df_reports : nat }.
Arguments DnsFilter {E}.
Arguments df_cfg {E}. Arguments df_status {E}. Arguments df_stats {E}. Arguments df_cache {E}. Arguments df_lists {E}.
Arguments df_upstream {E}. Arguments df_upstreamKey {E}. Arguments df_policy {E}. Arguments df_log {E}.
Arguments df_listener {E}. Arguments df_listen {E}. Arguments df_lastReportAt {E}. Arguments df_reportError {E}.
Arguments df_listenLoop {E}. Arguments df_listsLoop {E}. Arguments df_reportLoop {E}.
Arguments df_applying {E}. Arguments df_posts {E}. Arguments df_reports {E}.

Inductive dns_effect :=
  | ListsFx (x : ls_effect) | ListenerFx (x : ln_effect) | NewUpstream (k : up_key) | CloseUpstream | UpstreamFx (x : up_effect) | PostReport (n : nat) (b : body).

Section Filter.
Context {E : Type} `{Unicode} `{Node} (port : Z) (localeCompare : jstr → jstr → Z).
Abbreviation filter := (filter E).
Abbreviation fop := (mop filter dns_effect).

Definition off : listen_status := ListenStatus (js "off") [] [] [] port.
Definition idle : looped := Looped task_new 0.
Definition newFilter (maxEntries maxBytes now : Z) (lists_ : lists) : filter :=
  DnsFilter None status_new (newStats now) (newResponseCache maxEntries maxBytes) lists_ None None None [] newListener off None None
    idle idle idle None [] 0.

Definition enabled_of (c : option dns_config) : bool := match c with Some c => dc_enabled c | None => false end.
Definition enabled (s : filter) : bool := enabled_of (df_cfg s).

(** *** Updates of one part *)

Definition f_cfg (cfg : option dns_config) (st : feature_status) (s : filter) : filter :=
  DnsFilter cfg st (df_stats s) (df_cache s) (df_lists s) (df_upstream s) (df_upstreamKey s) (df_policy s) (df_log s) (df_listener s)
    (df_listen s) (df_lastReportAt s) (df_reportError s) (df_listenLoop s) (df_listsLoop s) (df_reportLoop s) (df_applying s) (df_posts s) (df_reports s).
Definition f_stats (st : stats) (log : list E) (s : filter) : filter :=
  DnsFilter (df_cfg s) (df_status s) st (df_cache s) (df_lists s) (df_upstream s) (df_upstreamKey s) (df_policy s) log (df_listener s)
    (df_listen s) (df_lastReportAt s) (df_reportError s) (df_listenLoop s) (df_listsLoop s) (df_reportLoop s) (df_applying s) (df_posts s) (df_reports s).
Definition f_lists (l : lists) (s : filter) : filter :=
  DnsFilter (df_cfg s) (df_status s) (df_stats s) (df_cache s) l (df_upstream s) (df_upstreamKey s) (df_policy s) (df_log s) (df_listener s)
    (df_listen s) (df_lastReportAt s) (df_reportError s) (df_listenLoop s) (df_listsLoop s) (df_reportLoop s) (df_applying s) (df_posts s) (df_reports s).
Definition f_upstream (u : option upstream) (k : option up_key) (c : ResponseCache.cache) (s : filter) : filter :=
  DnsFilter (df_cfg s) (df_status s) (df_stats s) c (df_lists s) u k (df_policy s) (df_log s) (df_listener s)
    (df_listen s) (df_lastReportAt s) (df_reportError s) (df_listenLoop s) (df_listsLoop s) (df_reportLoop s) (df_applying s) (df_posts s) (df_reports s).
Definition f_policy (p : option dns_config) (applying : option bool) (s : filter) : filter :=
  DnsFilter (df_cfg s) (df_status s) (df_stats s) (df_cache s) (df_lists s) (df_upstream s) (df_upstreamKey s) p (df_log s) (df_listener s)
    (df_listen s) (df_lastReportAt s) (df_reportError s) (df_listenLoop s) (df_listsLoop s) (df_reportLoop s) applying (df_posts s) (df_reports s).
Definition f_listener (l : listener) (s : filter) : filter :=
  DnsFilter (df_cfg s) (df_status s) (df_stats s) (df_cache s) (df_lists s) (df_upstream s) (df_upstreamKey s) (df_policy s) (df_log s) l
    (df_listen s) (df_lastReportAt s) (df_reportError s) (df_listenLoop s) (df_listsLoop s) (df_reportLoop s) (df_applying s) (df_posts s) (df_reports s).
Definition f_listen (l : listen_status) (s : filter) : filter :=
  DnsFilter (df_cfg s) (df_status s) (df_stats s) (df_cache s) (df_lists s) (df_upstream s) (df_upstreamKey s) (df_policy s) (df_log s) (df_listener s)
    l (df_lastReportAt s) (df_reportError s) (df_listenLoop s) (df_listsLoop s) (df_reportLoop s) (df_applying s) (df_posts s) (df_reports s).
Definition f_loops (a b c : looped) (s : filter) : filter :=
  DnsFilter (df_cfg s) (df_status s) (df_stats s) (df_cache s) (df_lists s) (df_upstream s) (df_upstreamKey s) (df_policy s) (df_log s) (df_listener s)
    (df_listen s) (df_lastReportAt s) (df_reportError s) a b c (df_applying s) (df_posts s) (df_reports s).
Definition f_reports (at_ : option Z) (error : option (Z * option Z)) (posts : list (nat * post)) (n : nat) (s : filter) : filter :=
  DnsFilter (df_cfg s) (df_status s) (df_stats s) (df_cache s) (df_lists s) (df_upstream s) (df_upstreamKey s) (df_policy s) (df_log s) (df_listener s)
    (df_listen s) at_ error (df_listenLoop s) (df_listsLoop s) (df_reportLoop s) (df_applying s) posts n.

(** *** Tasks *)

Definition lp_start (ms : Z) (l : looped) : looped := Looped (task_start (lp_task l) ms) (lp_running l).
Definition lp_stop (l : looped) : looped := Looped (task_stop (lp_task l)) (lp_running l).
(** The timer of a task fires; a run of it ends. *)
Definition lp_begin (l : looped) : looped * bool :=
  match ta_timer (lp_task l) with
  | Some _ => let '(t, go) := run_begin (lp_task l) in (Looped t (if go then S (lp_running l) else lp_running l), go)
  | None => (l, false)
  end.
Definition lp_end (ms : Z) (l : looped) : looped := Looped (run_end (lp_task l) ms) (pred (lp_running l)).

Definition on_listen (f : looped → looped) : fop := mset (λ s, f_loops (f (df_listenLoop s)) (df_listsLoop s) (df_reportLoop s) s).
Definition on_lists (f : looped → looped) : fop := mset (λ s, f_loops (df_listenLoop s) (f (df_listsLoop s)) (df_reportLoop s) s).
Definition on_report (f : looped → looped) : fop := mset (λ s, f_loops (df_listenLoop s) (df_listsLoop s) (f (df_reportLoop s)) s).

(** *** The policy, over the lists that are in memory when it decides *)

Definition _rebuildPolicy : fop := mset (λ s, if enabled s then f_policy (df_cfg s) (df_applying s) s else s).
Definition no_config : dns_cfg := DnsCfg [] [] [] None [] [].
Definition policy_of (serverHost : option jstr) (localSuffixes : list jstr) (s : filter) : policy :=
  match df_policy s with
  | Some c => newPolicy (policy_cfg c) (ls_lists (df_lists s)) (match serverHost with Some ((_ :: _) as h) => [h] | _ => [] end) localSuffixes
  | None => newPolicy no_config [] [] []
  end.

(** *** Reports *)

(** [report()] up to its wait; [in_loop]: the task called it. *)
Definition report (in_loop : bool) (now : Z) : fop := λ s,
  let '(st, (b, p)) := take_ localeCompare (df_stats s) now in
  (mset (f_stats st (df_log s))
   ⨾ (if (bo_queries b =? 0) && negb (enabled s) then (if in_loop then on_report (lp_end REPORT_MS) else mskip)
      else mset (f_reports (df_lastReportAt s) (df_reportError s) (df_posts s ++ [(df_reports s, Post b p in_loop)]) (S (df_reports s)))
           ⨾ mdo [PostReport (df_reports s) b])) s.

(** The answer of the server: [status] when there was one. *)
Definition report_done (n : nat) (ok : bool) (status_ : option Z) (now : Z) : fop := λ s,
  match map_get (df_posts s) n with
  | Some p =>
      ((if ok then mset (f_reports (Some now) None (map_delete (df_posts s) n) (df_reports s))
        else mset (f_reports (df_lastReportAt s) (Some (now, status_)) (map_delete (df_posts s) n) (df_reports s))
             ⨾ mset (λ s, f_stats (giveBack (df_stats s) (po_period p)) (df_log s) s))
       ⨾ (if po_loop p then on_report (lp_end REPORT_MS) else mskip)) s
  | None => (s, [])
  end.

(** *** Settings *)

Definition key_of (c : dns_config) : up_key := (dc_provider c, dc_url c, dc_fallbackRouter c).

Definition stop_loops : fop := on_listen lp_stop ⨾ on_lists lp_stop ⨾ on_report lp_stop.
Definition close_listener : fop := zoom df_listener f_listener DnsServer.close (λ x, mdo [ListenerFx x]).
Definition close_upstream : fop := λ s, (s, match df_upstream s with Some _ => [CloseUpstream] | None => [] end).

Definition _shutdown (now : Z) : fop :=
  stop_loops ⨾ close_listener ⨾ close_upstream
  ⨾ mset (λ s, f_upstream None None (ResponseCache.clear (df_cache s)) s)
  ⨾ mset (λ s, f_listen off (f_stats (df_stats s) [] s))
  ⨾ report false now.

Definition stop : fop := λ s, if enabled s then (stop_loops ⨾ close_listener ⨾ close_upstream) s else (s, []).

(** [apply] after its wait; [was]: the filter was on before. *)
Definition applied (was : bool) : fop :=
  mset (λ s, f_policy (df_policy s) None s) ⨾ _rebuildPolicy
  ⨾ (if was then on_lists (lp_start 1000)
     else mset (λ s, let l := df_listen s in f_listen (ListenStatus (js "starting") (li_listen l) (li_busy l) (li_failed l) (li_port l)) s)
          ⨾ on_listen (lp_start 0) ⨾ on_lists (lp_start 5000) ⨾ on_report (lp_start REPORT_MS)).

(** The runs of [_refreshLists] that wait for the update: status, timer. *)
Definition lists_failure (l : lists) : option jstr :=
  head (omap (λ e, match lt_error e.2 with
                   | Some x => if lt_loaded e.2 then None else Some (js "list " ++ e.1 ++ js ": " ++ js x.2)
                   | None => None end) (telemetry l)).
Definition refreshed (now : Z) : fop :=
  mset (λ s, f_cfg (df_cfg s) (match lists_failure (df_lists s) with
                               | Some e => FeatureStatus.fail (df_status s) now e
                               | None => FeatureStatus.ok (df_status s) now end) s)
  ⨾ on_lists (lp_end LISTS_MS).

(** What the manager of the lists tells. *)
Definition on_lists_fx (now : Z) (x : ls_effect) : fop :=
  match x with
  | Changed => _rebuildPolicy
  | SettingDone => λ s, match df_applying s with Some was => applied was s | None => (s, []) end
  | RefreshDone => λ s, mseq (replicate (lp_running (df_listsLoop s)) (refreshed now)) s
  | x => mdo [ListsFx x]
  end.
Definition lists_step (i : ls_input) (now : Z) : fop := zoom df_lists f_lists (ls_step i) (on_lists_fx now).

Definition apply (cfg : dns_config) (now : Z) : fop := λ s,
  let was := enabled s in
  (mset (f_cfg (Some cfg) (setEnabled (df_status s) (dc_enabled cfg)))
   ⨾ (if negb (dc_enabled cfg) then (if was then _shutdown now else mskip)
      else
        mset (λ s, if dc_logQueries cfg then s else f_stats (df_stats s) [] s)
        ⨾ (if bool_decide (df_upstreamKey s = Some (key_of cfg)) then mskip
           else close_upstream
                ⨾ mset (λ s, f_upstream (Some (newUpstream (dc_fallbackRouter cfg))) (Some (key_of cfg)) (ResponseCache.clear (df_cache s)) s)
                ⨾ mdo [NewUpstream (key_of cfg)])
        ⨾ _rebuildPolicy
        ⨾ mset (λ s, f_policy (df_policy s) (Some was) s)
        ⨾ lists_step (SetWanted (dc_lists cfg) (dc_profiles cfg ≫= λ p, pr_lists (pc_profile p))) now)) s.

(** *** The tasks *)

Definition on_listener_fx (x : ln_effect) : fop :=
  match x with
  | Reconciled _ => mset (λ s, f_listen (DnsServer.status port (df_listener s)) s) ⨾ on_listen (lp_end LISTEN_MS)
  | x => mdo [ListenerFx x]
  end.
Definition listener_step (f : lop) : fop := zoom df_listener f_listener f on_listener_fx.

Definition _reconcile (want : list listen_addr) : fop := λ s,
  if enabled s then listener_step (reconcile want) s else on_listen (lp_end LISTEN_MS) s.

Definition _refreshLists (now jitter : Z) (dir_ok : bool) : fop := λ s,
  if enabled s then
    (mset (λ s, f_cfg (df_cfg s) (FeatureStatus.start (df_status s) now) s) ⨾ lists_step (RefreshDue now jitter dir_ok) now) s
  else on_lists (lp_end LISTS_MS) s.

(** *** The machine *)

(** A question that was answered: its counts and its entry of the log. *)
Definition handled (q : asked) (e : E) : fop := mset (λ s,
  f_stats (record (df_stats s) q) (_log (match df_cfg s with Some c => dc_enabled c && dc_logQueries c | None => false end) (df_log s) e) s).

(** The upstream in use; one that was replaced ends on its own. *)
Definition upstream_step (i : up_input) : fop := λ s,
  match df_upstream s with
  | Some u =>
      zoom (λ _, u) (λ u s, f_upstream (Some u) (df_upstreamKey s) (df_cache s) s) (up_step i) (λ x, mdo [UpstreamFx x]) s
  | None => (s, [])
  end.

Inductive dns_input :=
  | Apply (cfg : dns_config) (now : Z) | Stop
  | Handled (q : asked) (e : E) | UpstreamIn (i : up_input)
  | ListenTimer (want : list listen_addr) | Opened (run : nat) (error : option jstr)
  | ListsTimer (now jitter : Z) (dir_ok : bool) | SettingParsedIn (now : Z)
  | FetchDoneIn (r : res fetched) (now jitter : Z) (dir_ok : bool) | RefreshParsedIn (now jitter : Z) (dir_ok : bool)
  | ReportTimer (now : Z) | ReportDone (n : nat) (ok : bool) (status : option Z) (now : Z).

(** A task runs when its timer fires and it was not stopped. *)
Definition fires (loop : filter → looped) (on : (looped → looped) → fop) (run : fop) : fop := λ s,
  let '(l, go) := lp_begin (loop s) in (on (λ _, l) ⨾ (if go then run else mskip)) s.

Definition dns_step (i : dns_input) : fop :=
  match i with
  | Apply cfg now => λ s, match df_applying s with None => apply cfg now s | Some _ => (s, []) end
  | Stop => stop
  | Handled q e => handled q e
  | UpstreamIn i => upstream_step i
  | ListenTimer want => fires df_listenLoop on_listen (_reconcile want)
  | Opened run error => listener_step (opened run error)
  | ListsTimer now jitter ok => fires df_listsLoop on_lists (_refreshLists now jitter ok)
  | SettingParsedIn now => lists_step SettingParsed now
  | FetchDoneIn r now jitter ok => lists_step (FetchDone r now jitter ok) now
  | RefreshParsedIn now jitter ok => lists_step (RefreshParsed now jitter ok) now
  | ReportTimer now => fires df_reportLoop on_report (report true now)
  | ReportDone n ok status now => report_done n ok status now
  end.

(** ** What is shown *)

Context `{LocalTime}.

(** [test(domain, mac)]; the domain is the text of the argument, the address [None] when there is none. *)
Definition test (serverHost : option jstr) (localSuffixes : list jstr) (domain : jstr) (mac : option json) (now : Z) (s : filter)
    : res (string + jstr * decision) :=
  match cleanDomain true domain with
  | None => Ok (inl "invalid_domain"%string)
  | Some d =>
      match mac with
      | Some (JStr []) | Some JNull | None => r ← decide_name (policy_of serverHost localSuffixes s) d None now; Ok (inr (d, r))
      | Some mac =>
          match normalizeMac mac with
          | None => Ok (inl "invalid_mac"%string)
          | Some m => r ← decide_name (policy_of serverHost localSuffixes s) d (Some m) now; Ok (inr (d, r))
          end
      end
  end.

(** The newest first, of one device or of all. *)
Definition queryLog (entry_mac : E → option jstr) (limit : option num) (mac : option jstr) (s : filter) : list E :=
  let n := Z.max 1 (Z.min MAX_LOG (match limit with Some (NInt z) => z | _ => 100 end)) in
  let want := match mac with Some ((_ :: _) as m) => normalizeMac (JStr m) | _ => None end in
  take (Z.to_nat n) (List.filter (λ e, match want with Some m => bool_decide (entry_mac e = Some m) | None => true end) (reverse (df_log s))).

Record up_telemetry := UpTelemetry {
  ut_provider : jstr; ut_fallbackRouter : bool; ut_lastOkAt : option Z; ut_lastError : option (Z * string);
  ut_lastFallbackAt : option Z; ut_fallbacks : Z; ut_dohDown : bool }.
Record dns_telemetry := DnsTelemetry {
  dt_listen : listen_status; dt_upstream : option up_telemetry; dt_lists : list (jstr * list_telemetry); dt_listsBytes : Z;
  dt_cacheEntries : Z; dt_totals : totals; dt_logQueries : bool; dt_lastReportAt : option Z; dt_reportError : option (Z * option Z) }.
Definition telemetry (now : Z) (s : filter) : option dns_telemetry :=
  match df_cfg s with
  | Some c =>
      if dc_enabled c then
        Some (DnsTelemetry (df_listen s)
          ((λ u, UpTelemetry (dc_provider c) (dc_fallbackRouter c) (us_lastOkAt u) (us_lastError u) (us_lastFallbackAt u) (us_fallbacks u)
                   (now <? us_dohDownUntil u)) <$> df_upstream s)
          (DnsLists.telemetry (df_lists s)) (memoryBytes (df_lists s)) (map_size (ResponseCache.c_map (df_cache s)))
          (total (df_stats s)) (dc_logQueries c) (df_lastReportAt s) (df_reportError s))
      else None
  | None => None
  end.
End Filter.

(** ** No question is lost or counted twice

    Whatever reports fail: what was counted of the questions is in a report
    that arrived, in one that is on its way, or in the running period. *)

Section Counts.
Context {E : Type} `{Unicode} `{Node} (port : Z) (localeCompare : jstr → jstr → Z).
Abbreviation filter := (filter E).
Abbreviation fop := (mop filter dns_effect).
Abbreviation step := (@dns_step E _ _ port localeCompare).

Definition periods (s : filter) : list period := cur (df_stats s) :: (po_period <$> (df_posts s).*2).
(** What is not delivered yet. *)
Definition held (μ : period → Z) (s : filter) : Z := μ (cur (df_stats s)) + map_sum (λ p, μ (po_period p)) (df_posts s).
(** What a report that arrives delivers. *)
Definition arrives (μ : period → Z) (s : filter) (i : dns_input (E := E)) : Z :=
  match i with
  | ReportDone n true _ _ => match map_get (df_posts s) n with Some p => μ (po_period p) | None => 0 end
  | _ => 0
  end.
Fixpoint delivered (μ : period → Z) (inputs : list (dns_input (E := E))) (s : filter) : Z :=
  match inputs with [] => 0 | i :: inputs => arrives μ s i + delivered μ inputs (step i s).1 end.
Definition asked_of (δ : asked → Z) (i : dns_input (E := E)) : Z := match i with Handled q _ => δ q | _ => 0 end.

(** Reports are numbered; a report says what its period counted; a period without questions counts nothing. *)
Record counts_ok (s : filter) : Prop := {
  ck_posts : map_ok (df_posts s) ∧ Forall (λ e, (e.1 < df_reports s)%nat) (df_posts s);
  ck_bodies : Forall (λ e, ∃ to, po_body e.2 = body_of localeCompare (po_period e.2) to) (df_posts s);
  ck_periods : Forall period_ok (periods s);
  ck_empty μ δ : additive μ δ → Forall (λ p, p_queries p = 0 → μ p = 0) (periods s) }.

(** Operations that lose nothing, and those that do not touch the counts. *)
Definition steady (f : fop) : Prop := ∀ s, counts_ok s → counts_ok (f s).1 ∧ ∀ μ δ, additive μ δ → held μ (f s).1 = held μ s.
Definition counts_of (s : filter) : period * list (nat * post) * nat := (cur (df_stats s), df_posts s, df_reports s).
Definition aside (f : fop) : Prop := ∀ s, counts_of (f s).1 = counts_of s.

Lemma counts_same s t : counts_of t = counts_of s → counts_ok s → counts_ok t ∧ ∀ μ, held μ t = held μ s.
Proof.
  unfold counts_of. intros [= E1 E2 E3] [H1 H2 H3 H4]. unfold held. rewrite E1, E2. split; [|done].
  unfold periods in *. split; unfold periods; by rewrite ?E1, ?E2, ?E3.
Qed.
Lemma aside_steady f : aside f → steady f.
Proof. intros Hf s Hs. destruct (counts_same s (f s).1 (Hf s) Hs) as [? Hh]. auto. Qed.

Lemma steady_then f g : steady f → steady g → steady (f ⨾ g).
Proof.
  intros Hf Hg s Hs. rewrite mthen_fst. destruct (Hf s Hs) as [H1 H2]. destruct (Hg _ H1) as [H3 H4]. split; [done |].
  intros μ δ Ha. by rewrite (H4 μ δ Ha), (H2 μ δ Ha).
Qed.
Lemma steady_if (b : bool) f g : steady f → steady g → steady (if b then f else g).
Proof. by destruct b. Qed.
Lemma steady_seq fs : Forall steady fs → steady (mseq fs).
Proof. induction 1 as [|f fs Hf _ IH]; [by apply aside_steady | by apply steady_then]. Qed.
Lemma steady_skip : steady mskip.
Proof. by apply aside_steady. Qed.
Lemma steady_do fx : steady (mdo fx).
Proof. by apply aside_steady. Qed.
Lemma steady_set (h : filter → filter) : (∀ s, counts_of (h s) = counts_of s) → steady (mset h).
Proof. intros Hh. by apply aside_steady. Qed.
Lemma steady_zoom {T X} (part : filter → T) (put : T → filter → filter) (f : mop T X) (handle : X → fop) :
  (∀ t s, counts_of (put t s) = counts_of s) → (∀ x, steady (handle x)) → steady (zoom part put f handle).
Proof.
  intros Hp Hh s. unfold zoom. destruct (f (part s)) as [t fx]. apply (steady_then (mset (put t)) (mseq (handle <$> fx))); [by apply steady_set |].
  apply steady_seq, Forall_fmap, Forall_true. exact Hh.
Qed.
Create HintDb steady.
Hint Resolve steady_then steady_if steady_skip steady_do steady_set steady_zoom : steady.

(** *** Reports *)

Lemma report_steady in_loop now : steady (report localeCompare in_loop now).
Proof.
  intros s Hs. unfold report, take_. set (p := cur (df_stats s)). set (b := body_of localeCompare p now).
  pose proof Hs as [[Hm Hn] Hb Hp He]. set (u := f_stats (Stats (emptyPeriod now) (total (df_stats s))) (df_log s) s).
  assert (counts_ok u ∧ ∀ μ δ, additive μ δ → held μ u = held μ s - μ p) as [Hu Hheld].
  { split.
    - split; [done | done | | intros μ δ Ha]; unfold periods; cbn [u f_stats df_stats df_posts cur].
      + apply Forall_cons_1 in Hp as [_ Hp]. constructor; [apply emptyPeriod_ok | done].
      + pose proof (He μ δ Ha) as Hx. apply Forall_cons_1 in Hx as [_ Hx]. constructor; [intros _; apply Ha | done].
    - intros μ δ Ha. unfold held. cbn [u f_stats df_stats df_posts cur]. rewrite (ad_empty _ _ Ha). subst p. lia. }
  rewrite mthen_fst. cbn [mset fst]. fold u. destruct ((bo_queries b =? 0) && negb (enabled s)) eqn:Ez.
  - apply andb_true_iff in Ez as [Ez%Z.eqb_eq _].
    assert (steady (if in_loop then on_report (lp_end REPORT_MS) else mskip)) as Hr by (destruct in_loop; [by apply steady_set | apply steady_skip]).
    destruct (Hr u Hu) as [H1 H2]. split; [done |]. intros μ δ Ha. rewrite (H2 μ δ Ha), (Hheld μ δ Ha).
    pose proof (He μ δ Ha) as Hx. apply Forall_cons_1 in Hx as [Hx _]. fold p in Hx. rewrite (Hx Ez). lia.
  - rewrite mthen_fst. cbn [mset mdo fst]. split.
    + assert ((periods (f_reports (df_lastReportAt s) (df_reportError s) (df_posts s ++ [(df_reports s, Post b p in_loop)]) (S (df_reports s)) u)) ≡ₚ emptyPeriod now :: periods s) as Hper.
      { unfold periods. cbn. rewrite !fmap_app. cbn. fold p. by rewrite Permutation_app_comm. }
      split.
      * split; cbn.
        -- unfold map_ok. rewrite fmap_app. apply NoDup_app. split_and!; [done | | apply NoDup_singleton].
           intros x (e & Hxe & Hx)%list_elem_of_fmap Hn2%list_elem_of_singleton. rewrite Forall_forall in Hn. apply Hn in Hx. cbn in Hx, Hn2. lia.
        -- apply Forall_app. split; [eapply Forall_impl; [exact Hn |]; cbn; lia | repeat constructor; cbn; lia].
      * cbn. apply Forall_app. split; [done |]. repeat constructor. by exists now.
      * rewrite Hper. constructor; [apply emptyPeriod_ok | done].
      * intros μ δ Ha. rewrite Hper. constructor; [intros _; apply Ha | by eapply He].
    + intros μ δ Ha. unfold held. cbn [u f_stats f_reports df_stats df_posts cur]. rewrite map_sum_app, (ad_empty _ _ Ha).
      unfold map_sum at 2. cbn [foldr snd po_period]. subst p. lia.
Qed.

(** A report that arrived, and one that comes back. *)
Lemma report_done_counts n ok status_ now s : counts_ok s →
  counts_ok (report_done n ok status_ now s).1 ∧
  ∀ μ δ, additive μ δ → arrives μ s (ReportDone n ok status_ now) + held μ (report_done n ok status_ now s).1 = held μ s.
Proof.
  intros Hs. unfold report_done, arrives. destruct (map_get (df_posts s) n) as [p|] eqn:Hg; [|split; [done |]; intros; by destruct ok].
  pose proof Hs as [[Hm Hn] Hb Hp He].
  assert (po_period p ∈ (po_period <$> (df_posts s).*2)) as Hin.
  { apply list_elem_of_fmap. exists p. split; [done |]. by apply map_get_elem, (list_elem_of_fmap_2 snd) in Hg. }
  assert (∀ (P : period → Prop), Forall P (periods s) → Forall P (cur (df_stats s) :: (po_period <$> (map_delete (df_posts s) n).*2)) ∧ P (po_period p)) as Hsub.
  { intros P HP. apply Forall_cons_1 in HP as [H1 H2]. split; [constructor; [done |] | by eapply Forall_forall in H2].
    apply Forall_forall. intros x (y & -> & (e & -> & He')%list_elem_of_fmap)%list_elem_of_fmap. apply map_delete_elem in He' as [He' _].
    rewrite Forall_forall in H2. apply H2. do 2 apply list_elem_of_fmap_2. done. }
  assert (steady (if po_loop p then on_report (lp_end REPORT_MS) else mskip)) as Hend by (apply steady_if; [by apply steady_set | apply steady_skip]).
  assert (∀ la er, counts_ok (f_reports la er (map_delete (df_posts s) n) (df_reports s) s) ∧
    ∀ μ, held μ (f_reports la er (map_delete (df_posts s) n) (df_reports s) s) = held μ s - μ (po_period p)) as Hdel.
  { intros la er. split.
    - split; cbn; [split; [by apply map_delete_ok | by apply map_delete_Forall] | by apply map_delete_Forall | by apply Hsub | intros μ δ Ha; apply (Hsub _ (He μ δ Ha))].
    - intros μ. unfold held. cbn [f_reports df_stats df_posts]. rewrite (map_sum_delete _ _ _ _ Hm Hg). lia. }
  rewrite mthen_fst. destruct ok.
  - destruct (Hdel (Some now) None) as [H1 H2]. destruct (Hend _ H1) as [H3 H4]. split; [done |]. intros μ δ Ha. cbn [mset fst]. rewrite (H4 μ δ Ha), H2. lia.
  - destruct (Hdel (df_lastReportAt s) (Some (now, status_))) as [H1 H2]. rewrite mthen_fst. cbn [mset fst].
    set (u := f_reports _ _ _ _ s) in *. set (v := f_stats (giveBack (df_stats u) (po_period p)) (df_log u) u).
    destruct (Hsub _ Hp) as [Hp1 Hp2].
    assert (counts_ok v ∧ ∀ μ δ, additive μ δ → held μ v = held μ u + μ (po_period p)) as [H3 H4].
    { pose proof H1 as [? ? Hpu Heu]. assert (period_ok (cur (giveBack (df_stats u) (po_period p)))) as Hgb
        by (apply giveBack_ok; [by apply Forall_cons_1 in Hpu as [? _] | done]). split.
      - split; [done | done | | intros μ δ Ha].
        + apply Forall_cons_1 in Hpu as [_ ?]. by constructor.
        + apply Forall_cons_1 in Hpu as [Hcu _]. pose proof (pk_blocked _ Hcu) as Hq1. pose proof (pk_cached _ Hcu). pose proof (pk_cached _ Hp2).
          pose proof (Heu μ δ Ha) as [Hx Hy]%Forall_cons_1. constructor; [|done].
          intros Hz. change (p_queries (cur (df_stats u)) + p_queries (po_period p) = 0) in Hz. change (cur (df_stats v)) with (cur (giveBack (df_stats u) (po_period p))). rewrite (ad_back _ _ Ha) by apply Hp2.
          pose proof (proj2 (Hsub _ (He μ δ Ha))) as Hzp. cbv beta in Hx, Hzp.
          assert (p_queries (cur (df_stats u)) = 0 ∧ p_queries (po_period p) = 0) as [Hz1 Hz2] by lia. by rewrite (Hx Hz1), (Hzp Hz2).
      - intros μ δ Ha. unfold held. cbn [v f_stats df_stats df_posts]. rewrite (ad_back _ _ Ha) by apply Hp2. lia. }
    destruct (Hend v H3) as [H5 H6]. split; [done |]. intros μ δ Ha. rewrite (H6 μ δ Ha), (H4 μ δ Ha), H2. lia.
Qed.

(** *** The other operations *)

Lemma steady_loops f : steady (on_listen f) ∧ steady (on_lists f) ∧ steady (on_report f).
Proof. split_and!; by apply steady_set. Qed.
Lemma steady_stop_loops : steady stop_loops.
Proof. unfold stop_loops. repeat apply steady_then; by apply steady_set. Qed.
Lemma steady_close_listener : steady close_listener.
Proof. apply steady_zoom; [done |]. intros x. apply steady_do. Qed.
Lemma steady_close_upstream : steady close_upstream.
Proof. by apply aside_steady. Qed.
Lemma steady_rebuild : steady _rebuildPolicy.
Proof. apply steady_set. intros s. by destruct (enabled s). Qed.
Hint Resolve steady_stop_loops steady_close_listener steady_close_upstream steady_rebuild report_steady : steady.

Lemma steady_shutdown now : steady (_shutdown port localeCompare now).
Proof. unfold _shutdown. auto 10 with steady. Qed.
Lemma steady_applied was : steady (applied was).
Proof.
  unfold applied. apply steady_then; [by apply steady_set |]. apply steady_then; [apply steady_rebuild |].
  destruct was; [apply steady_loops |]. repeat apply steady_then; try apply steady_loops. by apply steady_set.
Qed.
Lemma steady_lists_fx now x : steady (on_lists_fx now x).
Proof.
  destruct x; cbn [on_lists_fx]; try apply steady_do; [apply steady_rebuild | |].
  - intros s. destruct (df_applying s); [apply steady_applied | apply steady_skip].
  - intros s. apply steady_seq, Forall_replicate. unfold refreshed. apply steady_then; [by apply steady_set | apply steady_loops].
Qed.
Lemma steady_lists_step i now : steady (lists_step i now).
Proof. apply steady_zoom; [done |]. intros x. apply steady_lists_fx. Qed.
Lemma steady_listener_step f : steady (listener_step port f).
Proof.
  apply steady_zoom; [done |]. intros x. destruct x; cbn [on_listener_fx]; try apply steady_do.
  apply steady_then; [by apply steady_set | apply steady_loops].
Qed.
Hint Resolve steady_shutdown steady_applied steady_lists_step steady_listener_step : steady.

Lemma steady_apply cfg now : steady (apply port localeCompare cfg now).
Proof.
  intros t. unfold apply. cbv zeta. match goal with |- context [mthen ?f ?g t] => enough (steady (mthen f g)) as Hf by apply Hf end.
  apply steady_then; [by apply steady_set |]. apply steady_if; [apply steady_if; auto with steady |].
  apply steady_then; [apply steady_set; intros s; by destruct (dc_logQueries cfg) |].
  apply steady_then.
  - apply steady_if; [apply steady_skip |]. auto 10 with steady.
  - auto 10 with steady.
Qed.

Lemma steady_fires loop on run : (∀ f, steady (on f)) → steady run → steady (fires loop on run).
Proof. intros Ho Hr s. unfold fires. destruct (lp_begin (loop s)) as [l go]. apply (steady_then (on (λ _, l)) (if go then run else mskip)); [done |]. by destruct go; [|apply steady_skip]. Qed.

Lemma step_counts i s : counts_ok s →
  counts_ok (step i s).1 ∧ ∀ μ δ, additive μ δ → arrives μ s i + held μ (step i s).1 = held μ s + asked_of δ i.
Proof.
  intros Hs.
  assert (∀ f, steady f → step i = f → (∀ μ, arrives μ s i = 0) → (∀ δ, asked_of δ i = 0) →
    counts_ok (step i s).1 ∧ ∀ μ δ, additive μ δ → arrives μ s i + held μ (step i s).1 = held μ s + asked_of δ i) as Hst.
  { intros f Hf -> Ha Hq. destruct (Hf s Hs) as [H1 H2]. split; [done |]. intros μ δ Hadd. rewrite Ha, Hq, (H2 μ δ Hadd). lia. }
  destruct i; cbn [dns_step].
  - apply (Hst (λ s, match df_applying s with None => apply port localeCompare cfg now s | Some _ => (s, []) end)); [|done..].
    intros t. destruct (df_applying t); [apply steady_skip | apply steady_apply].
  - apply (Hst stop); [|done..]. intros t. unfold stop. destruct (enabled t); [|by apply steady_skip].
    apply (steady_then stop_loops (close_listener ⨾ close_upstream)); auto with steady.
  - pose proof Hs as [Hps Hb Hp He]. unfold handled. cbn [mset fst]. split.
    + apply Forall_cons_1 in Hp as [Hc Hp]. split; [done | done | constructor; [by apply record_ok | done] |].
      intros μ δ Ha. pose proof (He μ δ Ha) as [_ Hy]%Forall_cons_1. constructor; [|done]. cbn [df_stats f_stats record cur p_queries].
      pose proof (pk_cached _ Hc). lia.
    + intros μ δ Ha. unfold held, arrives, asked_of. cbn [df_stats df_posts f_stats]. rewrite (ad_record _ _ Ha). lia.
  - apply (Hst (upstream_step i)); [|done..]. intros t. unfold upstream_step. destruct (df_upstream t) as [u|]; [|by apply steady_skip].
    apply steady_zoom; [done |]. intros x. apply steady_do.
  - apply (Hst _ (steady_fires df_listenLoop on_listen (_reconcile port want) ltac:(intros; apply steady_loops)
      ltac:(intros t; unfold _reconcile; destruct (enabled t); [apply steady_listener_step | by apply steady_loops]))); done.
  - apply (Hst _ (steady_listener_step (opened run error))); done.
  - apply (Hst _ (steady_fires df_listsLoop on_lists (_refreshLists now jitter dir_ok) ltac:(intros; apply steady_loops)
      ltac:(intros t; unfold _refreshLists; destruct (enabled t); [|by apply steady_loops];
            apply (steady_then (mset (λ s, f_cfg (df_cfg s) (FeatureStatus.start (df_status s) now) s)) (lists_step (RefreshDue now jitter dir_ok) now));
              [by apply steady_set | apply steady_lists_step]))); done.
  - apply (Hst _ (steady_lists_step SettingParsed now)); done.
  - apply (Hst _ (steady_lists_step (FetchDone r now jitter dir_ok) now)); done.
  - apply (Hst _ (steady_lists_step (RefreshParsed now jitter dir_ok) now)); done.
  - apply (Hst _ (steady_fires df_reportLoop on_report (report localeCompare true now) ltac:(intros; apply steady_loops) (report_steady true now))); done.
  - destruct (report_done_counts n ok status now s Hs) as [H1 H2]. split; [done |]. intros μ δ Ha. rewrite (H2 μ δ Ha). cbn [asked_of]. lia.
Qed.

Lemma run_counts μ δ inputs : additive μ δ → ∀ s, counts_ok s →
  counts_ok (mrun step inputs s).1 ∧
  delivered μ inputs s + held μ (mrun step inputs s).1 = held μ s + foldr Z.add 0 (asked_of δ <$> inputs).
Proof.
  intros Ha. induction inputs as [|i inputs IH]; intros s Hs; [split; [done | cbn; lia] |]. cbn [mrun delivered fmap list_fmap foldr].
  destruct (step_counts i s Hs) as [H1 H2]. specialize (H2 μ δ Ha). destruct (step i s) as [t fx]. cbn [fst] in *.
  destruct (IH t H1) as [H3 H4]. destruct (mrun step inputs t) as [u tr]. cbn [fst] in *. split; [done | lia].
Qed.

(** C10: over every order of settings, questions, downloads and reports, of
    which any may fail: of all questions, of the blocked ones and of those of
    each profile, each is counted exactly once - in a report that arrived, in
    one on its way or in the running period; every report on its way says what
    its period counted; and every period keeps its bounds. *)
Theorem dns_run_counts maxEntries maxBytes now lists_ inputs :
  let s0 := newFilter port maxEntries maxBytes now lists_ in
  let s := (mrun step inputs s0).1 in
  (∀ id, delivered p_queries inputs s0 + held p_queries s = foldr Z.add 0 (asked_of (λ _, 1) <$> inputs) ∧
         delivered p_blocked inputs s0 + held p_blocked s = foldr Z.add 0 (asked_of (λ q, one (q_blocked q)) <$> inputs) ∧
         delivered (queries_of id) inputs s0 + held (queries_of id) s = foldr Z.add 0 (asked_of (of_profile id) <$> inputs)) ∧
  Forall (λ e, ∃ to, po_body e.2 = body_of localeCompare (po_period e.2) to) (df_posts s) ∧ Forall period_ok (periods s).
Proof.
  cbv zeta. set (s0 := newFilter _ _ _ _ _). assert (counts_ok s0) as Hs0.
  { split; cbn; [by split; [apply NoDup_nil_2 | constructor] | constructor | |]; unfold periods; cbn.
    - repeat constructor; apply emptyPeriod_ok.
    - intros μ δ Ha. repeat constructor. intros _. apply Ha. }
  assert (∀ μ δ, additive μ δ → delivered μ inputs s0 + held μ (mrun step inputs s0).1 = foldr Z.add 0 (asked_of δ <$> inputs)) as Hrun.
  { intros μ δ Ha. rewrite (proj2 (run_counts μ δ inputs Ha s0 Hs0)). unfold held. cbn. rewrite (ad_empty _ _ Ha). lia. }
  split_and!.
  - intros id. split_and!; apply Hrun; [apply additive_queries | apply additive_blocked | apply additive_queries_of].
  - apply (run_counts _ _ inputs additive_queries s0 Hs0).
  - apply (run_counts _ _ inputs additive_queries s0 Hs0).
Qed.
End Counts.

(** ** What runs

    On, the policy and the upstream are those of the last settings; off,
    nothing is left of them and no task is ahead. *)

Section State.
Context {E : Type} `{Unicode} `{Node} (port : Z) (localeCompare : jstr → jstr → Z).
Abbreviation filter := (filter E).
Abbreviation fop := (mop filter dns_effect).
Abbreviation step := (@dns_step E _ _ port localeCompare).

Definition halted (l : looped) : Prop := ta_stopped (lp_task l) = true ∧ ta_timer (lp_task l) = None.
Definition on_as_set (s : filter) : Prop :=
  df_policy s = df_cfg s ∧ is_Some (df_upstream s) ∧ ∀ c, df_cfg s = Some c → df_upstreamKey s = Some (key_of c).
Definition nothing_left (s : filter) : Prop := df_upstream s = None ∧ df_upstreamKey s = None ∧ df_log s = [] ∧ df_applying s = None.
Definition all_halted (s : filter) : Prop := halted (df_listenLoop s) ∧ halted (df_listsLoop s) ∧ halted (df_reportLoop s).

(** On or switched off; never on so far. *)
Definition live (s : filter) : Prop := (enabled s = true → on_as_set s) ∧ (enabled s = false → nothing_left s ∧ all_halted s).
Definition pristine (s : filter) : Prop :=
  enabled s = false ∧ nothing_left s ∧ (df_listenLoop s = idle ∧ df_listsLoop s = idle ∧ df_reportLoop s = idle) ∧
  ln_runs (df_listener s) = [] ∧ df_posts s = [].

Definition leaves (P : filter → Prop) (f : fop) : Prop := ∀ s, P s → P (f s).1.
Abbreviation lives := (leaves live).
Definition core (s : filter) :=
  (df_cfg s, df_policy s, df_upstream s, df_upstreamKey s, df_log s, df_applying s, df_listenLoop s, df_listsLoop s, df_reportLoop s).

Lemma live_same s t : core t = core s → live s → live t.
Proof.
  unfold core, live, enabled, on_as_set, nothing_left, all_halted. intros [= E1 E2 E3 E4 E5 E6 E7 E8 E9]. by rewrite E1, E2, E3, E4, E5, E6, E7, E8, E9.
Qed.
Lemma lives_aside f : (∀ s, core (f s).1 = core s) → lives f.
Proof. intros Hf s. by apply live_same. Qed.
Lemma leaves_then P f g : leaves P f → leaves P g → leaves P (f ⨾ g).
Proof. intros Hf Hg s Hs. rewrite mthen_fst. by apply Hg, Hf. Qed.
Lemma leaves_seq P fs : Forall (leaves P) fs → leaves P (mseq fs).
Proof. induction 1 as [|f fs Hf _ IH]; [by intros s Hs | by apply leaves_then]. Qed.
Lemma leaves_zoom P {T X} (part : filter → T) (put : T → filter → filter) (f : mop T X) (handle : X → fop) :
  (∀ t s, P s → P (put t s)) → (∀ x, leaves P (handle x)) → leaves P (zoom part put f handle).
Proof.
  intros Hp Hh s Hs. unfold zoom. destruct (f (part s)) as [t fx].
  apply (leaves_then P (mset (put t)) (mseq (handle <$> fx))); [by intros u; apply Hp | | done]. apply leaves_seq, Forall_fmap, Forall_true. exact Hh.
Qed.

Lemma halted_end ms l : halted l → halted (lp_end ms l).
Proof. intros [Hs Ht]. unfold lp_end, run_end, halted. cbn. by rewrite Hs. Qed.
Lemma halted_begin l : halted l → lp_begin l = (l, false).
Proof. intros [Hs Ht]. unfold lp_begin. by rewrite Ht. Qed.
Lemma halted_stop l : halted (lp_stop l).
Proof. done. Qed.

(** A change of the tasks that leaves halted ones halted. *)
Lemma loops_live f g h s : (∀ l, halted l → halted (f l)) → (∀ l, halted l → halted (g l)) → (∀ l, halted l → halted (h l)) →
  live s → live (f_loops (f (df_listenLoop s)) (g (df_listsLoop s)) (h (df_reportLoop s)) s).
Proof. intros Hf Hg Hh [Hon Hoff]. split; [exact Hon |]. intros He. destruct (Hoff He) as (? & ? & ? & ?). split; [done |]. split_and!; cbn; auto. Qed.
Lemma lives_end ms : lives (on_listen (lp_end ms)) ∧ lives (on_lists (lp_end ms)) ∧ lives (on_report (lp_end ms)).
Proof.
  split_and!; intros s; [apply (loops_live (lp_end ms) id id) | apply (loops_live id (lp_end ms) id) | apply (loops_live id id (lp_end ms))];
    auto using halted_end.
Qed.
Lemma lives_rebuild : lives _rebuildPolicy.
Proof.
  intros s Hs. cbn. destruct (enabled s) eqn:Ee; [|done]. destruct Hs as [Hon Hoff]. destruct (Hon Ee) as (Hp & Hu & Hk).
  split; [intros _; by split | intros Ef; change (enabled s = false) in Ef; congruence].
Qed.

(** Starting the tasks and taking back the waiting, when the filter is on. *)
Lemma applied_live was s : enabled s = true → live s → live (applied was s).1.
Proof.
  intros He Hs. unfold applied. rewrite mthen_fst. cbn [mset fst]. set (t := f_policy _ _ s).
  assert (live t ∧ enabled t = true) as [Ht Het].
  { split; [|done]. destruct Hs as [Hon _]. split; [intros _; exact (Hon He) | intros Ef; change (enabled s = false) in Ef; congruence]. }
  rewrite mthen_fst. pose proof (lives_rebuild t Ht) as Hr. assert (enabled (_rebuildPolicy t).1 = true) as Her by (cbn; by rewrite Het).
  set (u := (_rebuildPolicy t).1) in *. clearbody u.
  assert (∀ a b c l, live (f_loops a b c (f_listen l u)) ∧ live (f_loops a b c u)) as Hl.
  { intros a b c l. destruct Hr as [Hon _]. split; (split; [intros _; exact (Hon Her) | intros Ef; change (enabled u = false) in Ef; congruence]). }
  destruct was; [apply (proj2 (Hl _ _ _ (df_listen u))) |]. rewrite !mthen_fst. cbn [mset fst on_listen on_lists on_report]. apply (proj1 (Hl _ _ _ _)).
Qed.

Lemma lives_lists_fx now x : lives (on_lists_fx now x).
Proof.
  destruct x; cbn [on_lists_fx]; try (by apply lives_aside); [apply lives_rebuild | |].
  - intros s Hs. destruct (df_applying s) as [was|] eqn:Ea; [|done]. apply applied_live; [|done].
    destruct (enabled s) eqn:Ee; [done |]. destruct Hs as [_ Hoff]. destruct (Hoff Ee) as ((_ & _ & _ & Hn) & _). congruence.
  - intros s. apply leaves_seq, Forall_replicate. unfold refreshed. apply leaves_then; [|apply lives_end].
    intros t [Hon Hoff]. by split.
Qed.
Lemma lives_lists_step i now : lives (lists_step i now).
Proof. apply leaves_zoom; [intros t u; by apply live_same |]. intros x. apply lives_lists_fx. Qed.
Lemma lives_listener_step f : lives (listener_step port f).
Proof.
  apply leaves_zoom; [intros t u; by apply live_same |]. intros x. destruct x; cbn [on_listener_fx]; try (by apply lives_aside). apply leaves_then; [by apply lives_aside | apply lives_end].
Qed.
Lemma lives_report in_loop now : lives (report localeCompare in_loop now).
Proof.
  intros s Hs. unfold report, take_. rewrite mthen_fst. cbn [mset fst]. set (u := f_stats _ _ s).
  assert (live u) as Hu by (by apply (live_same s)). clearbody u. revert u Hu. change (lives (
    if (bo_queries (body_of localeCompare (cur (df_stats s)) now) =? 0) && negb (enabled s) then (if in_loop then on_report (lp_end REPORT_MS) else mskip)
    else mset (f_reports (df_lastReportAt s) (df_reportError s) (df_posts s ++ [(df_reports s, Post (body_of localeCompare (cur (df_stats s)) now) (cur (df_stats s)) in_loop)]) (S (df_reports s)))
         ⨾ mdo [PostReport (df_reports s) (body_of localeCompare (cur (df_stats s)) now)])).
  destruct (_ && _); [destruct in_loop; [apply lives_end | by apply lives_aside] |]. by apply leaves_then; apply lives_aside.
Qed.

(** Switching off. *)
Lemma shutdown_live now s : enabled s = false → df_applying s = None → live (_shutdown port localeCompare now s).1.
Proof.
  intros He Ha. unfold _shutdown.
  match goal with |- context [mthen stop_loops ?g] => set (rest := g) end.
  rewrite mthen_fst. set (t := (stop_loops s).1). assert (t = f_loops (lp_stop (df_listenLoop s)) (lp_stop (df_listsLoop s)) (lp_stop (df_reportLoop s)) s) as -> by done.
  unfold rest. rewrite mthen_fst. set (u := (close_listener _).1).
  assert (core u = core (f_loops (lp_stop (df_listenLoop s)) (lp_stop (df_listsLoop s)) (lp_stop (df_reportLoop s)) s) ∧ enabled u = false) as [Hu Heu].
  { unfold u, close_listener, zoom, DnsServer.close. set (fx := _ ≫= _). clearbody fx. rewrite mthen_fst. cbn [mset fst].
    set (v := f_listener _ _). assert (∀ w, (mseq ((λ x, mdo [ListenerFx x]) <$> fx) w).1 = w) as -> by (intros w; induction fx as [|x fx IH]; [done |]; cbn [fmap list_fmap mseq foldr]; by rewrite mthen_fst).
    by split. }
  rewrite mthen_fst. cbn [close_upstream fst]. rewrite mthen_fst. cbn [mset fst]. rewrite mthen_fst. cbn [mset fst].
  apply lives_report. unfold core in Hu. injection Hu as E1 E2 E3 E4 E5 E6 E7 E8 E9. split; [intros Hx; change (enabled u = true) in Hx; congruence |].
  intros _. unfold nothing_left, all_halted. cbn. rewrite E6, E7, E8, E9. done.
Qed.

Lemma loops_on a b c s : enabled s = true → live s → live (f_loops a b c s).
Proof. intros He [Hon _]. split; [intros _; exact (Hon He) | intros Ef; change (enabled s = false) in Ef; congruence]. Qed.

(** Settings that switch it on. *)
Lemma on_live cfg was now x u : df_cfg u = Some cfg → dc_enabled cfg = true → is_Some (df_upstream u) → df_upstreamKey u = Some (key_of cfg) →
  live ((_rebuildPolicy ⨾ mset (λ s, f_policy (df_policy s) (Some was) s) ⨾ lists_step x now) u).1.
Proof.
  intros Hc He Hu Hk. rewrite !mthen_fst. apply lives_lists_step. cbn [mset fst _rebuildPolicy]. unfold _rebuildPolicy, enabled. cbn. rewrite Hc. cbn. rewrite He.
  split; [intros _ | unfold enabled; cbn; rewrite Hc; cbn; congruence]. split_and!; cbn; [done | done |]. intros c Ec. congruence.
Qed.
Lemma apply_state cfg now s : live s ∨ pristine s → df_applying s = None → live (apply port localeCompare cfg now s).1 ∨ pristine (apply port localeCompare cfg now s).1.
Proof.
  intros Hs Ha. unfold apply. rewrite mthen_fst. cbn [mset fst]. set (t := f_cfg _ _ s).
  destruct (dc_enabled cfg) eqn:Ec; cbn [negb].
  - left. rewrite mthen_fst. set (u := (mset _ t).1). assert (df_cfg u = Some cfg ∧ df_upstream u = df_upstream s ∧ df_upstreamKey u = df_upstreamKey s) as (Hc & Hu & Hk)
      by (unfold u; cbn; by destruct (dc_logQueries cfg)). clearbody u.
    rewrite mthen_fst. destruct (bool_decide (df_upstreamKey s = Some (key_of cfg))) eqn:Eb.
    + apply bool_decide_eq_true in Eb. apply (on_live cfg); [done | done | | cbn; congruence]. cbn. rewrite Hu.
      destruct Hs as [[Hon Hoff]|Hp]; [|destruct Hp as (_ & (_ & ? & _) & _); congruence].
      destruct (enabled s) eqn:Ee; [apply (Hon eq_refl) |]. destruct (Hoff eq_refl) as ((_ & ? & _) & _). congruence.
    + rewrite !mthen_fst. rewrite <- mthen_fst, <- mthen_fst. by apply (on_live cfg).
  - destruct (enabled s) eqn:Ee; [left; by apply shutdown_live |]. cbn [mskip fst].
    destruct Hs as [[_ Hoff]|Hp]; [left | right].
    + split; [unfold enabled; cbn; congruence |]. intros _. exact (Hoff Ee).
    + destruct Hp as (_ & Hr). split; [done | exact Hr].
Qed.
Lemma fires_live loop on run : (∀ f s, ∃ a b c, (on f s).1 = f_loops a b c s) → (∀ s, all_halted s → halted (loop s)) →
  (∀ s, (on (λ _, loop s) s).1 = s) → lives run → lives (fires loop on run).
Proof.
  intros Hon Hh Hs Hr s Hl. unfold fires. destruct (lp_begin (loop s)) as [l go] eqn:Eb. rewrite mthen_fst.
  destruct (enabled s) eqn:Ee.
  - assert (live (on (λ _, l) s).1) as H1 by (destruct (Hon (λ _, l) s) as (a & b & c & ->); by apply loops_on). destruct go; [by apply Hr | done].
  - destruct (proj2 Hl Ee) as [_ Hall]. rewrite halted_begin in Eb by auto. injection Eb as <- <-. cbn [mskip fst]. by rewrite Hs.
Qed.

Lemma lives_fires :
  (∀ run, lives run → lives (fires df_listenLoop on_listen run)) ∧ (∀ run, lives run → lives (fires df_listsLoop on_lists run)) ∧
  (∀ run, lives run → lives (fires df_reportLoop on_report run)).
Proof.
  split_and!; intros run; (apply fires_live; [intros f s; do 3 eexists; done | by intros s (? & ? & ?) | by intros []]).
Qed.
Lemma lives_close_listener : lives close_listener.
Proof. apply leaves_zoom; [intros t u; by apply live_same |]. intros x. by apply lives_aside. Qed.
Lemma lives_stop : lives stop.
Proof.
  intros s Hs. unfold stop. destruct (enabled s); [|done]. rewrite !mthen_fst. cbn [close_upstream fst]. apply lives_close_listener. revert s Hs. change (lives stop_loops).
  intros t Ht. exact (loops_live lp_stop lp_stop lp_stop t (λ l _, halted_stop l) (λ l _, halted_stop l) (λ l _, halted_stop l) Ht).
Qed.
Lemma lives_handled q e : lives (handled q e).
Proof.
  intros s [Hon Hoff]. split; [exact Hon |]. intros Hd. change (enabled s = false) in Hd. destruct (Hoff Hd) as ((? & ? & Hlog & ?) & ?).
  split; [|done]. split_and!; [done | done | | done]. cbn. rewrite Hlog. unfold enabled, enabled_of in Hd. destruct (df_cfg s) as [c|]; [by rewrite Hd | done].
Qed.
Lemma lives_upstream i : lives (upstream_step i).
Proof.
  intros s Hs. unfold upstream_step. destruct (df_upstream s) as [u|] eqn:Eu; [|done].
  assert (enabled s = true) as He.
  { destruct (enabled s) eqn:Ee; [done |]. destruct (proj2 Hs Ee) as ((? & _) & _). congruence. }
  unfold zoom. destruct (up_step i u) as [t fx]. rewrite mthen_fst.
  apply (leaves_seq live); [apply Forall_fmap, Forall_true; intros x; by apply lives_aside |].
  destruct (proj1 Hs He) as (? & ? & ?). split; [by intros _ | intros Ef; change (enabled s = false) in Ef; congruence].
Qed.
Lemma lives_report_done n ok status_ now : lives (report_done n ok status_ now).
Proof.
  intros s Hs. unfold report_done. destruct (map_get (df_posts s) n) as [p|]; [|done].
  revert s Hs. (enough (∀ s0, lives ((if ok then mset (f_reports (Some now) None (map_delete (df_posts s0) n) (df_reports s0))
    else mset (f_reports (df_lastReportAt s0) (Some (now, status_)) (map_delete (df_posts s0) n) (df_reports s0))
         ⨾ mset (λ s, f_stats (giveBack (df_stats s) (po_period p)) (df_log s) s)) ⨾ (if po_loop p then on_report (lp_end REPORT_MS) else mskip))) as Hf by (intros s Hs; by apply Hf)).
  intros s0. apply leaves_then; [destruct ok; [|apply leaves_then]; by apply lives_aside |]. destruct (po_loop p); [apply lives_end | by apply lives_aside].
Qed.
Lemma lives_step i : (∀ c now, i ≠ Apply c now) → lives (step i).
Proof.
  destruct lives_fires as (Hli & Hls & Hre). intros Hi. destruct i; cbn [dns_step].
  - by destruct (Hi cfg now).
  - apply lives_stop.
  - apply lives_handled.
  - apply lives_upstream.
  - apply Hli. intros s Hs. unfold _reconcile. destruct (enabled s); [by apply lives_listener_step | by apply lives_end].
  - apply lives_listener_step.
  - apply Hls. intros s Hs. unfold _refreshLists. destruct (enabled s); [|by apply lives_end]. rewrite mthen_fst.
    apply lives_lists_step. by apply (live_same s).
  - apply lives_lists_step.
  - apply lives_lists_step.
  - apply lives_lists_step.
  - apply Hre, lives_report.
  - apply lives_report_done.
Qed.

(** Before the first settings that switch it on. *)
Lemma pristine_lists x now : leaves pristine (lists_step x now).
Proof.
  apply leaves_zoom; [by intros t u |]. intros y. destruct y; cbn [on_lists_fx]; try (by intros u Hu).
  - intros u Hu. cbn. destruct Hu as (He & Hu). rewrite He. by split.
  - intros u Hu. destruct Hu as (He & (? & ? & ? & Ha) & Hu). by rewrite Ha.
  - intros u Hu. pose proof Hu as (_ & _ & (_ & -> & _) & _). done.
Qed.
Lemma pristine_step i : (∀ c now, i ≠ Apply c now) → leaves pristine (step i).
Proof.
  intros Hi s Hs. pose proof Hs as (He & (Hu & Hk & Hlog & Ha) & (Hl1 & Hl2 & Hl3) & Hr & Hp). destruct i; cbn [dns_step].
  - by destruct (Hi cfg now).
  - unfold stop. by rewrite He.
  - unfold pristine, nothing_left. cbn. rewrite Hlog. split; [done |]. split_and!; try done.
    unfold enabled, enabled_of in He. destruct (df_cfg s) as [c|]; [by rewrite He | done].
  - unfold upstream_step. by rewrite Hu.
  - unfold fires. rewrite Hl1. cbn. unfold pristine, nothing_left. cbn. by rewrite Hl2, Hl3.
  - unfold listener_step, zoom, opened. rewrite Hr. cbn. unfold pristine, nothing_left. cbn. by rewrite Hr.
  - unfold fires. rewrite Hl2. cbn. unfold pristine, nothing_left. cbn. by rewrite Hl1, Hl3.
  - by apply pristine_lists.
  - by apply pristine_lists.
  - by apply pristine_lists.
  - unfold fires. rewrite Hl3. cbn. unfold pristine, nothing_left. cbn. by rewrite Hl1, Hl2.
  - unfold report_done. by rewrite Hp.
Qed.

(** C11: over every order of settings, questions, downloads, bindings and
    reports: switched on, the filter decides by the last settings and asks the
    provider of the last settings; switched off, it has no upstream, no log,
    no timer, and no settings under way. *)
Theorem dns_run_state maxEntries maxBytes now lists_ inputs :
  let s := (mrun step inputs (newFilter port maxEntries maxBytes now lists_)).1 in
  (enabled s = true → on_as_set s) ∧
  (enabled s = false → nothing_left s ∧ Forall (λ l, ta_timer (lp_task l) = None) [df_listenLoop s; df_listsLoop s; df_reportLoop s]).
Proof.
  cbv zeta. set (s := (mrun _ _ _).1). assert (live s ∨ pristine s) as Hs.
  { apply (mrun_invariant step (λ s, live s ∨ pristine s)); [right; by repeat split |]. intros i t Ht.
    destruct i as [cfg at_| | | | | | | | | | |]; try (destruct Ht as [Ht|Ht]; [left; by apply lives_step | right; by apply pristine_step]).
    cbn [dns_step]. destruct (df_applying t) as [was|] eqn:Ea; [done |]. by apply apply_state. }
  destruct Hs as [[Hon Hoff]|(He & Hn & (E1 & E2 & E3) & _)].
  - split; [done |]. intros He. destruct (Hoff He) as [? ([_ ?] & [_ ?] & [_ ?])]. split; [done |]. by repeat constructor.
  - split; [congruence |]. intros _. split; [done |]. rewrite E1, E2, E3. by repeat constructor.
Qed.
End State.
