(* ===== verification/HttpProxy.v ===== *)
(** * src/proxy/router.js, src/proxy/http.js

    The table of routes and the proxy of web requests and upgrades: which
    request is forwarded where, and over which agent.  The library http-proxy,
    which forwards, is outside: what it is asked to do is an effect, its errors
    are inputs.  The fields of a route have the types the server gives them;
    those the code tests as it finds them are values of JSON. *)

From S2P Require Import Prelude JsMap JsBuffer JsValues JsText Crypto TlsPin Machine.

Local Open Scope Z_scope.

(** ** Routes *)

Record http_route := HttpRoute {
  hr_id : option json; hr_domain : jstr; hr_target_lan_host : jstr; hr_target_lan_port : Z; hr_backend_https : option json;
  hr_backend_tls_fingerprint : option json; hr_wol_enabled : option json; hr_wol_mac : option json }.
Record target := Target {
  tg_host : jstr; tg_port : Z; tg_backendHttps : bool; tg_wolMac : json; tg_routeId : option json;
  tg_backendTlsFingerprint : option jstr; tg_backendTlsPinInvalid : bool }.

Definition configured (r : http_route) : bool :=
  match hr_backend_tls_fingerprint r with None | Some JNull | Some (JStr []) => false | _ => true end.

Section Proxy.
Context `{Unicode}.

Definition entry (r : http_route) : target :=
  let fingerprint := if configured r then normalizeFingerprint (hr_backend_tls_fingerprint r) else None in
  let backendHttps := truthy (hr_backend_https r) in
  Target (hr_target_lan_host r) (hr_target_lan_port r) backendHttps
    (if truthy (hr_wol_enabled r) then or_null (hr_wol_mac r) else JNull) (hr_id r) fingerprint
    (backendHttps && configured r && negb (bool_decide (is_Some fingerprint))).

Definition setRoutes (httpRoutes : list http_route) : list (jstr * target) :=
  foldl (λ next r, map_set next (hr_domain r) (entry r)) [] httpRoutes.
Definition resolve (routes : list (jstr * target)) (domain : jstr) : option target := map_get routes domain.

(** ** The proxy *)

Abbreviation agents := (list (jstr * agent)).
Abbreviation headers := (list (jstr * jstr)).
Definition TARGET : jstr := js "x-gateway-target".
Definition TARGET_DOMAIN : jstr := js "x-gateway-target-domain".
Definition stripGatewayHeaders (h : headers) : headers := map_delete (map_delete h TARGET) TARGET_DOMAIN.

(** [req.headers['x-gateway-target-domain'] || req.headers.host || ''] *)
Definition domain_of (h : headers) : jstr :=
  match map_get h TARGET_DOMAIN with
  | Some ((_ :: _) as d) => d
  | _ => default [] (map_get h (js "host"))
  end.

Record options := Options { op_target : jstr; op_agent : option agent; op_close : bool }.

(** Requests and upgrades are numbered; the proxy keeps the domain of each and whether it is an upgrade. *)
Record http_proxy := HttpProxy {
  hp_routes : list (jstr * target); hp_agents : agents; hp_requests : list (nat * (jstr * bool)); hp_count : nat }.
Definition newProxy : http_proxy := HttpProxy [] [] [] 0.
Inductive http_effect :=
  | Respond (n : nat) (status : Z) (body : jstr) | DestroyClient (n : nat)
  | Forward (n : nat) (upgrade : bool) (o : options) (h : headers) | Unreachable (domain : jstr) (t : target).
Abbreviation hop := (mop http_proxy http_effect).

Definition proxyOptionsFor (cache : agents) (t : target) (upgrade : bool) : agents * options :=
  let url := js (if tg_backendHttps t then "https" else "http") ++ js "://" ++ tg_host t ++ js ":" ++ show_Z (tg_port t) in
  match tg_backendHttps t, tg_backendTlsFingerprint t with
  | true, Some f => let '(cache, a) := getPinnedAgent cache (tg_host t) (tg_port t) f in (cache, Options url (Some a) (negb upgrade))
  | _, _ => (cache, Options url None false)
  end.

Definition PIN_CONFIG_CODE : jstr := js "ERR_TLS_PIN_CONFIG".
Definition PIN_MISMATCH_CODE : jstr := js "ERR_TLS_PIN_MISMATCH".
Definition refused (n : nat) (upgrade : bool) (body : jstr) : http_effect :=
  if upgrade then DestroyClient n else Respond n 502 body.

(** The handlers of requests and of upgrades. *)
Definition request (h : headers) (upgrade : bool) : hop := λ p,
  let n := hp_count p in
  let domain := domain_of h in
  let known cache := HttpProxy (hp_routes p) cache (map_set (hp_requests p) n (domain, upgrade)) (S n) in
  match resolve (hp_routes p) domain with
  | None => (known (hp_agents p), [refused n upgrade (js "No route for domain " ++ domain)])
  | Some t =>
      if tg_backendTlsPinInvalid t then (known (hp_agents p), [refused n upgrade (js "Gateway upstream error: " ++ PIN_CONFIG_CODE)])
      else
        let '(cache, o) := proxyOptionsFor (hp_agents p) t upgrade in
        (known cache, [Forward n upgrade o (stripGatewayHeaders h)])
  end.

(** An error of the library; [sent]: the head of the answer went out already. *)
Definition wakeIfRefused (code : option jstr) (domain : jstr) : hop := λ p,
  if bool_decide (code = Some (js "ECONNREFUSED")) then
    match resolve (hp_routes p) domain with
    | Some t => (p, match tg_wolMac t with JNull => [] | _ => [Unreachable domain t] end)
    | None => (p, [])
    end
  else (p, []).
Definition proxy_error (n : nat) (code : option jstr) (message : jstr) (sent : bool) : hop := λ p,
  match map_get (hp_requests p) n with
  | Some (domain, true) => (wakeIfRefused code domain ⨾ mdo [DestroyClient n]) p
  | Some (domain, false) =>
      if sent then (p, [])
      else
        let bad := bool_decide (code = Some (js "ECONNREFUSED")) || bool_decide (code = Some PIN_MISMATCH_CODE) in
        (wakeIfRefused code domain
         ⨾ mdo [Respond n (if bad then 502 else 504)
                  (js "Gateway upstream error: " ++ match code with Some ((_ :: _) as c) => c | _ => message end)]) p
  | None => (p, [])
  end.

Inductive http_input :=
  | SetRoutes (routes : list http_route) | Request (h : headers) (upgrade : bool)
  | ProxyError (n : nat) (code : option jstr) (message : jstr) (sent : bool).
Definition http_step (i : http_input) : hop :=
  match i with
  | SetRoutes routes => mset (λ p, HttpProxy (setRoutes routes) (hp_agents p) (hp_requests p) (hp_count p))
  | Request h upgrade => request h upgrade
  | ProxyError n code message sent => proxy_error n code message sent
  end.
End Proxy.

(** ** What is forwarded where *)

Section Facts.
Context `{Unicode}.

Lemma resolve_last routes d : resolve (setRoutes routes) d = entry <$> last (filter (λ r, hr_domain r = d) routes).
Proof.
  unfold resolve, setRoutes. induction routes as [|r routes IH] using rev_ind; [done |].
  rewrite foldl_app. cbn [foldl]. rewrite map_get_set, filter_app, IH, filter_cons, filter_nil.
  destruct (decide (d = hr_domain r)) as [->|]; [by rewrite decide_True, last_snoc | by rewrite decide_False, app_nil_r].
Qed.

(** The routes of the last table, and tables with ports. *)
Definition current (inputs : list http_input) : list http_route :=
  foldl (λ routes i, match i with SetRoutes r => r | _ => routes end) [] inputs.
Definition ports_ok (i : http_input) : Prop :=
  match i with SetRoutes r => Forall (λ r, 0 ≤ hr_target_lan_port r) r | _ => True end.

Lemma current_ports inputs : Forall ports_ok inputs → Forall (λ r, 0 ≤ hr_target_lan_port r) (current inputs).
Proof.
  induction inputs as [|i inputs IH] using rev_ind; [constructor |]. intros [Hi%IH Hx]%Forall_app. apply Forall_cons_1 in Hx as [Hx _].
  unfold current in *. rewrite foldl_app. by destruct i.
Qed.

Lemma wake_same code d p : (wakeIfRefused code d p).1 = p.
Proof. unfold wakeIfRefused. destruct (bool_decide _); [|done]. by destruct (resolve _ _). Qed.
Lemma proxy_error_same n code message sent p : (proxy_error n code message sent p).1 = p.
Proof.
  unfold proxy_error. destruct (map_get _ n) as [[d []]|]; [| |done].
  - rewrite mthen_fst. apply wake_same.
  - destruct sent; [done |]. rewrite mthen_fst. apply wake_same.
Qed.

Lemma options_ok agents r upgrade : cache_ok agents → 0 ≤ hr_target_lan_port r →
  cache_ok (proxyOptionsFor agents (entry r) upgrade).1 ∧
  let o := (proxyOptionsFor agents (entry r) upgrade).2 in
  match truthy (hr_backend_https r), tg_backendTlsFingerprint (entry r) with
  | true, Some f => ∃ a, op_agent o = Some a ∧ ag_host a = hr_target_lan_host r ∧ ag_port a = hr_target_lan_port r ∧ ag_pin a = Some f
  | _, _ => op_agent o = None
  end.
Proof.
  intros Hc Hp. unfold proxyOptionsFor. cbn [entry tg_backendHttps tg_host tg_port tg_backendTlsFingerprint].
  destruct (truthy (hr_backend_https r)); [|done].
  destruct (if configured r then _ else None) as [f|] eqn:Ef; [|done].
  assert (FINGERPRINT_RE f = true) as Hf by (destruct (configured r); [by eapply normalizeFingerprint_form | done]).
  pose proof (getPinnedAgent_ok _ (hr_target_lan_host r) _ f Hc Hp Hf) as Hg. destruct (getPinnedAgent _ _ _ _) as [agents' a].
  destruct Hg as (? & ? & ? & ?). split; [done |]. by exists a.
Qed.

Lemma proxy_reachable inputs : Forall ports_ok inputs →
  hp_routes (mrun http_step inputs newProxy).1 = setRoutes (current inputs) ∧ cache_ok (hp_agents (mrun http_step inputs newProxy).1).
Proof.
  induction inputs as [|i inputs IH] using rev_ind; intros Hi.
  { split; [done |]. split_and!; [apply NoDup_nil_2 | done | done]. }
  pose proof Hi as Hall. apply Forall_app in Hi as [Hi Hx]. destruct (IH Hi) as [Hr Hc]. rewrite mrun_snoc.
  set (p := (mrun http_step inputs newProxy).1) in *. clearbody p. pose proof (current_ports inputs Hi) as Hports.
  unfold current. rewrite foldl_app. fold (current inputs). destruct i; cbn [http_step foldl].
  - done.
  - unfold request. destruct (resolve (hp_routes p) (domain_of h)) as [t|] eqn:Et; [|done].
    destruct (tg_backendTlsPinInvalid t); [done |]. rewrite Hr, resolve_last in Et. apply fmap_Some in Et as (r & Hl & ->).
    apply last_Some_elem_of, list_elem_of_filter in Hl as [_ Hl]. eapply Forall_forall in Hports; [|exact Hl].
    destruct (options_ok (hp_agents p) r upgrade Hc Hports) as [Ho _]. by destruct (proxyOptionsFor _ _ _).
  - by rewrite proxy_error_same.
Qed.

Definition url_of (r : http_route) : jstr :=
  js (if truthy (hr_backend_https r) then "https" else "http") ++ js "://" ++ hr_target_lan_host r ++ js ":" ++ show_Z (hr_target_lan_port r).

End Facts.

(** A pinned route, asked for after another one. *)
Definition sample_route : http_route :=
  HttpRoute (Some (JNum (NInt 1))) (js "nas.example") (js "192.168.1.9") 5001 (Some (JBool true)) (Some (JStr (replicate 64 97))) None None.
