(* ===== verification/Egress.v ===== *)
(** * src/proxy/egress.js

    The doors of the LAN into the tunnel: which source may use one, and the
    listeners that come and go with the routes of the server.  [net] is
    outside: binding, closing and connections are effects and inputs.  Route
    objects are numbered, because the handlers of a listener keep the object
    they were made with while [setRoutes] changes it in place; several runs of
    [setRoutes] may be under way, as the program calls it from two places
    without waiting.  The fields of a route have the types the server gives
    them. *)

From Stdlib Require Import Sorted.
From S2P Require Import Prelude JsMap JsBuffer JsValues LanInterfaces Machine.

Local Open Scope Z_scope.

Definition DUAL_BIND_OVERLAP_MS : Z := 10000.

(** ** The source of a connection *)

Definition normalizeIp (addr : jstr) : jstr := if starts_with (js "::ffff:") addr then drop 7 addr else addr.

(** [/^(\d{1,3})\.(\d{1,3})\.(\d{1,3})\.(\d{1,3})$/] *)
Definition part (s : jstr) : option Z :=
  if forallb is_digit s && (1 <=? length s)%nat && (length s <=? 3)%nat then Some (digits_value s) else None.
Definition ipv4ToInt (ip : jstr) : option Z :=
  match mapM part (split_on 46 ip) with
  | Some [a; b; c; d] =>
      if existsb (λ n, 255 <? n) [a; b; c; d] then None
      else Some (uint32 (Z.lor (Z.lor (Z.lor (int32 (Z.shiftl a 24)) (Z.shiftl b 16)) (Z.shiftl c 8)) d))
  | _ => None
  end.

(** [parseInt(s, 10)]; [None] is [NaN]. *)
Fixpoint leading_digits (s : jstr) : jstr :=
  match s with c :: s => if is_digit c then c :: leading_digits s else [] | [] => [] end.
Definition parseInt (s : jstr) : option Z :=
  let '(neg, s) := match drop_space s with 45 :: s => (true, s) | 43 :: s => (false, s) | s => (false, s) end in
  match leading_digits s with
  | [] => None
  | ds => Some (if neg then - digits_value ds else digits_value ds)
  end.

Definition cidr_has (ip : Z) (cidr : jstr) : bool :=
  let '(base, prefix) := match split_on 47 cidr with
                         | [] => ([], Some 32)
                         | [b] => (b, Some 32)
                         | b :: p :: _ => (b, parseInt p) end in
  match ipv4ToInt base, prefix with
  | Some b, Some p =>
      if (0 <=? p) && (p <=? 32) then
        let mask := if p =? 0 then 0 else uint32 (Z.shiftl 4294967295 (32 - p)) in
        Z.land ip mask =? Z.land b mask
      else false
  | _, _ => false
  end.
(** [remoteAddr]: [undefined] when the socket is gone; [allowedCidrs]: [None] when it is no array. *)
Definition ipInAllowlist (remoteAddr : option jstr) (allowedCidrs : option (list jstr)) : bool :=
  match allowedCidrs with
  | Some ((_ :: _) as l) =>
      match ipv4ToInt (match remoteAddr with Some a => normalizeIp a | None => [] end) with
      | Some ip => existsb (cidr_has ip) l
      | None => false
      end
  | _ => false
  end.

(** ** Routes and listeners *)

(** [eg_allowed]: [None] when the field is missing, [Some None] when it is [null]. *)
Record egress_route := EgressRoute {
  eg_id : Z; eg_lan_bind_ip : jstr; eg_lan_listen_port : Z; eg_tunnel_target_host : jstr; eg_tunnel_target_port : Z;
  eg_allowed : option (option (list jstr)) }.
Definition allowed_of (r : egress_route) : list jstr := default [] (mjoin (eg_allowed r)).

Definition _bindChanged (a b : egress_route) : bool :=
  negb (bool_decide (eg_lan_bind_ip a = eg_lan_bind_ip b)) || negb (eg_lan_listen_port a =? eg_lan_listen_port b).
Definition _softChanged (a b : egress_route) : bool :=
  negb (bool_decide (eg_tunnel_target_host a = eg_tunnel_target_host b)) || negb (eg_tunnel_target_port a =? eg_tunnel_target_port b)
  || negb (bool_decide (sort_by id (allowed_of a) = sort_by id (allowed_of b))).
(** [Object.assign(a, b)] *)
Definition assign (a b : egress_route) : egress_route :=
  EgressRoute (eg_id b) (eg_lan_bind_ip b) (eg_lan_listen_port b) (eg_tunnel_target_host b) (eg_tunnel_target_port b)
    (match eg_allowed b with Some l => Some l | None => eg_allowed a end).

(** An entry of [_listeners]; [li_stamp]: when its key was inserted. *)
Record entry := Entry { li_server : nat; li_port : Z; li_route : nat; li_stamp : nat }.
Record bind_status := BindStatus { bs_bound : bool; bs_error : option jstr; bs_ip : jstr; bs_port : Z }.
Record server := Server { sv_route : nat; sv_open : bool }.

(** Where a run waits: for a listener to close, for a server to listen - the
    old one, when it replaces one -, or in [stopAll]. *)
Inductive point :=
  | AtClose (id : Z) (stamp : nat) (routes : list nat)
  | AtBind (srv route : nat) (old : option nat) (todo : list nat)
  | AtStopAll (id : Z) (todo : list (Z * entry)).

Record manager := Manager {
  em_objs : list egress_route; em_listeners : list (Z * entry); em_status : list (Z * bind_status); em_drops : list (Z * Z);
  em_servers : list server; em_overlaps : list nat; em_stamp : nat; em_runs : list (nat * point); em_count : nat }.
Definition newManager : manager := Manager [] [] [] [] [] [] 0 [] 0.

Inductive egress_effect :=
  | Listen (run srv : nat) (ip : jstr) (port : Z) | CloseServer (srv : nat) | StartOverlap (srv : nat) (ms : Z)
  | Connect (srv : nat) (host : jstr) (port : Z) | DestroySocket (srv : nat) | RunDone (run : nat).
Abbreviation eop := (mop manager egress_effect).

Definition e_objs (o : list egress_route) (m : manager) : manager :=
  Manager o (em_listeners m) (em_status m) (em_drops m) (em_servers m) (em_overlaps m) (em_stamp m) (em_runs m) (em_count m).
Definition e_listeners (l : list (Z * entry)) (stamp : nat) (m : manager) : manager :=
  Manager (em_objs m) l (em_status m) (em_drops m) (em_servers m) (em_overlaps m) stamp (em_runs m) (em_count m).
Definition e_status (s : list (Z * bind_status)) (d : list (Z * Z)) (m : manager) : manager :=
  Manager (em_objs m) (em_listeners m) s d (em_servers m) (em_overlaps m) (em_stamp m) (em_runs m) (em_count m).
Definition e_servers (s : list server) (o : list nat) (m : manager) : manager :=
  Manager (em_objs m) (em_listeners m) (em_status m) (em_drops m) s o (em_stamp m) (em_runs m) (em_count m).
Definition e_runs (r : list (nat * point)) (n : nat) (m : manager) : manager :=
  Manager (em_objs m) (em_listeners m) (em_status m) (em_drops m) (em_servers m) (em_overlaps m) (em_stamp m) r n.

Definition obj (m : manager) (ref : nat) : egress_route := nth ref (em_objs m) (EgressRoute 0 [] 0 [] 0 None).

(** What the management sees. *)
Definition listListenerPorts (m : manager) : list Z := List.filter (λ p, negb (p =? 0)) (li_port <$> (em_listeners m).*2).
Definition getStatus (m : manager) : list (Z * bind_status * Z) :=
  (λ e, (e.1, e.2, default 0 (map_get (em_drops m) e.1))) <$> em_status m.

(** [server.close()]: no new connections. *)
Definition close_server (srv : nat) : eop :=
  mset (λ m, e_servers (alter (λ s, Server (sv_route s) false) srv (em_servers m)) (em_overlaps m) m) ⨾ mdo [CloseServer srv].

Definition wait_at (run : nat) (p : point) : eop := mset (λ m, e_runs (map_set (em_runs m) run p) (em_count m) m).
Definition run_ends (run : nat) : eop := mset (λ m, e_runs (map_delete (em_runs m) run) (em_count m) m) ⨾ mdo [RunDone run].

(** [net.createServer] and [listen]. *)
Definition listen (run route : nat) (old : option nat) (todo : list nat) : eop := λ m,
  let srv := length (em_servers m) in
  (mset (e_servers (em_servers m ++ [Server route false]) (em_overlaps m)) ⨾ wait_at run (AtBind srv route old todo)
   ⨾ mdo [Listen run srv (eg_lan_bind_ip (obj m route)) (eg_lan_listen_port (obj m route))]) m.

(** The second loop of [setRoutes]; an object keeps its id. *)
Fixpoint apply_routes (run : nat) (todo : list nat) : eop := λ m,
  match todo with
  | [] => run_ends run m
  | ref :: todo =>
      let route := obj m ref in
      match map_get (em_listeners m) (eg_id route) with
      | None => listen run ref None todo m
      | Some e =>
          let existing := obj m (li_route e) in
          if _bindChanged existing route then listen run ref (Some (li_server e)) todo m
          else if _softChanged existing route then
            (mset (e_objs (<[li_route e := assign existing route]> (em_objs m))) ⨾ apply_routes run todo) m
          else apply_routes run todo m
      end
  end.

Definition wanted (m : manager) (routes : list nat) : list Z := eg_id ∘ obj m <$> routes.
(** Status and counters of routes that are gone. *)
Definition prune (ids : list Z) (m : manager) : manager :=
  e_status (List.filter (λ e, bool_decide (e.1 ∈ ids)) (em_status m))
    (foldl (λ d id, if bool_decide (id ∈ ids) then d else map_delete d id) (em_drops m) (em_status m).*1) m.

(** The first loop of [setRoutes], over the map as it is while the loop runs:
    the next entry is the one inserted after the last that was seen. *)
Definition remove_listeners (run : nat) (stamp : nat) (routes : list nat) : eop := λ m,
  let ids := wanted m routes in
  match List.find (λ e, (stamp <? li_stamp e.2)%nat && negb (bool_decide (e.1 ∈ ids))) (em_listeners m) with
  | Some (id, e) => (close_server (li_server e) ⨾ wait_at run (AtClose id (li_stamp e) routes)) m
  | None => (mset (prune ids) ⨾ apply_routes run routes) m
  end.

Definition setRoutes (routes : list nat) : eop := λ m,
  let run := em_count m in
  (mset (λ m, e_runs (em_runs m) (S run) m) ⨾ remove_listeners run 0 routes) m.

Definition drop_listener (id : Z) : eop := mset (λ m, e_listeners (map_delete (em_listeners m) id) (em_stamp m) m).

Definition stop_next (run : nat) (todo : list (Z * entry)) : eop :=
  match todo with
  | [] => run_ends run
  | (id, e) :: todo => close_server (li_server e) ⨾ wait_at run (AtStopAll id todo)
  end.
Definition stopAll : eop := λ m,
  let run := em_count m in
  (mset (λ m, e_runs (em_runs m) (S run) m) ⨾ stop_next run (em_listeners m)) m.

(** The listener has closed: its last connection ended. *)
Definition closed (run : nat) : eop := λ m,
  match map_get (em_runs m) run with
  | Some (AtClose id stamp routes) =>
      (drop_listener id ⨾ mset (λ m, e_status (map_delete (em_status m) id) (map_delete (em_drops m) id) m)
       ⨾ remove_listeners run stamp routes) m
  | Some (AtStopAll id todo) => (drop_listener id ⨾ stop_next run todo) m
  | _ => (m, [])
  end.

(** A server listens, on the port the kernel says, or does not. *)
Definition set_listener (id : Z) (srv : nat) (port : Z) (route : nat) (m : manager) : manager :=
  match map_get (em_listeners m) id with
  | Some e => e_listeners (map_set (em_listeners m) id (Entry srv port route (li_stamp e))) (em_stamp m) m
  | None => e_listeners (map_set (em_listeners m) id (Entry srv port route (S (em_stamp m)))) (S (em_stamp m)) m
  end.
Definition bound (run : nat) (r : Z + jstr) : eop := λ m,
  match map_get (em_runs m) run with
  | Some (AtBind srv ref old todo) =>
      let route := obj m ref in
      match r with
      | inl port =>
          (mset (λ m, e_servers (alter (λ s, Server (sv_route s) true) srv (em_servers m)) (em_overlaps m) m)
           ⨾ mset (set_listener (eg_id route) srv port ref)
           ⨾ mset (λ m, e_status (map_set (em_status m) (eg_id route) (BindStatus true None (eg_lan_bind_ip route) port)) (em_drops m) m)
           ⨾ match old with
             | Some o => mset (λ m, e_servers (em_servers m) (o :: em_overlaps m) m) ⨾ mdo [StartOverlap o DUAL_BIND_OVERLAP_MS]
             | None => mskip end
           ⨾ apply_routes run todo) m
      | inr code =>
          (mset (λ m, e_status (map_set (em_status m) (eg_id route)
                     (BindStatus false (Some code) (eg_lan_bind_ip route) (eg_lan_listen_port route))) (em_drops m) m)
           ⨾ apply_routes run todo) m
      end
  | _ => (m, [])
  end.
Definition overlap_ends (srv : nat) : eop := λ m,
  if bool_decide (srv ∈ em_overlaps m) then
    (mset (λ m, e_servers (em_servers m) (List.filter (λ s, negb (s =? srv)%nat) (em_overlaps m)) m) ⨾ close_server srv) m
  else (m, []).

Definition _handleConnection (srv : nat) (src : option jstr) (route : egress_route) : eop := λ m,
  if ipInAllowlist src (mjoin (eg_allowed route)) then (m, [Connect srv (eg_tunnel_target_host route) (eg_tunnel_target_port route)])
  else (mset (e_status (em_status m) (map_set (em_drops m) (eg_id route) (default 0 (map_get (em_drops m) (eg_id route)) + 1)))
        ⨾ mdo [DestroySocket srv]) m.
(** A connection; a server that does not listen gets none. *)
Definition incoming (srv : nat) (src : option jstr) : eop := λ m,
  match em_servers m !! srv with
  | Some s => if sv_open s then _handleConnection srv src (obj m (sv_route s)) m else (m, [])
  | None => (m, [])
  end.

(** ** The machine *)

Inductive egress_input :=
  | NewConfig (routes : list egress_route) | SetRoutes (routes : list nat) | StopAll
  | Closed (run : nat) | Bound (run : nat) (r : Z + jstr) | OverlapEnds (srv : nat) | Incoming (srv : nat) (src : option jstr).
(** [setRoutes] gets objects that there are. *)
Definition egress_step (i : egress_input) : eop :=
  match i with
  | NewConfig routes => mset (λ m, e_objs (em_objs m ++ routes) m)
  | SetRoutes routes => λ m, if forallb (λ ref, (ref <? length (em_objs m))%nat) routes then setRoutes routes m else (m, [])
  | StopAll => stopAll
  | Closed run => closed run
  | Bound run r => bound run r
  | OverlapEnds srv => overlap_ends srv
  | Incoming srv src => incoming srv src
  end.

(** ** The allowlist *)

(** An address as the number it stands for. *)
Definition ip_number (s : jstr) : option Z :=
  match mapM part (split_on 46 s) with
  | Some [a; b; c; d] => if bool_decide (Forall (λ n, n < 256) [a; b; c; d]) then Some (quad_value a b c d) else None
  | _ => None
  end.
Lemma digits_acc ds : ∀ a, forallb is_digit ds = true → 0 ≤ a → 0 ≤ fold_left (λ a d, a * 10 + (d - 48)) ds a.
Proof.
  induction ds as [|d ds IH]; intros a Hd Ha; [done |]. apply andb_true_iff in Hd as [Hd Hds]. cbn [fold_left]. apply IH; [done |].
  unfold is_digit in Hd. lia.
Qed.
Lemma part_range s n : part s = Some n → 0 ≤ n.
Proof.
  unfold part. destruct (forallb is_digit s) eqn:Hd; cbn [andb]; [|done]. destruct (_ && _); [|done]. intros [= <-]. by apply digits_acc.
Qed.
Lemma lor_shift x y k : 0 ≤ k → 0 ≤ y < 2 ^ k → Z.lor (Z.shiftl x k) y = x * 2 ^ k + y.
Proof.
  intros Hk Hy. rewrite <- Z.shiftl_mul_pow2 by done. symmetry. apply Z.add_nocarry_lor, Z.bits_inj_0. intros n.
  rewrite Z.land_spec. destruct (Z.ltb_spec n 0); [by rewrite !Z.testbit_neg_r by done |].
  rewrite Z.shiftl_spec by done. destruct (Z.ltb_spec n k); [by rewrite Z.testbit_neg_r by lia |].
  destruct (decide (y = 0)) as [->|]; [by rewrite Z.bits_0, andb_false_r |]. rewrite (Z.bits_above_log2 y n); [apply andb_false_r | lia |].
  apply Z.lt_le_trans with k; [|done]. apply Z.log2_lt_pow2; lia.
Qed.
Lemma ipv4_value a b c d : byte4 a b c d →
  uint32 (Z.lor (Z.lor (Z.lor (int32 (Z.shiftl a 24)) (Z.shiftl b 16)) (Z.shiftl c 8)) d) = quad_value a b c d.
Proof.
  intros (Ha & Hb & Hc & Hd). assert (∀ z, uint32 z = Z.land z (Z.ones 32)) as E by (intros z; by rewrite Z.land_ones).
  rewrite E, !Z.land_lor_distr_l, <- !E, int32_wrap. rewrite !Z.shiftl_mul_pow2 by lia.
  unfold uint32. rewrite !Z.mod_small by lia. rewrite <- !Z.shiftl_mul_pow2 by lia.
  assert (∀ x y k, 0 ≤ k → 0 ≤ y < 2 ^ k → Z.lor (x * 2 ^ k) y = x * 2 ^ k + y) as Hlor
    by (intros x y k Hk Hy; rewrite <- lor_shift by done; by rewrite Z.shiftl_mul_pow2).
  change (2 ^ 24) with 16777216 in *. change (2 ^ 16) with 65536 in *. change (2 ^ 8) with 256 in *.
  pose proof (Hlor a (b * 65536) 24 ltac:(lia)) as E1. pose proof (Hlor (a * 256 + b) (c * 256) 16 ltac:(lia)) as E2.
  pose proof (Hlor (a * 65536 + b * 256 + c) d 8 ltac:(lia)) as E3.
  change (2 ^ 24) with 16777216 in *. change (2 ^ 16) with 65536 in *. change (2 ^ 8) with 256 in *.
  rewrite !Z.shiftl_mul_pow2 by lia. change (2 ^ 24) with 16777216. change (2 ^ 16) with 65536. change (2 ^ 8) with 256.
  rewrite E1 by lia. replace (a * 16777216 + b * 65536) with ((a * 256 + b) * 65536) by lia. rewrite E2 by lia.
  replace ((a * 256 + b) * 65536 + c * 256) with ((a * 65536 + b * 256 + c) * 256) by lia. rewrite E3 by lia. unfold quad_value. lia.
Qed.
Lemma ipv4ToInt_number s : ipv4ToInt s = ip_number s.
Proof.
  unfold ipv4ToInt, ip_number. destruct (mapM part _) as [[|a [|b [|c [|d []]]]]|] eqn:Ep; try done.
  assert (Forall (λ n, 0 ≤ n) [a; b; c; d]) as Hn.
  { apply mapM_Some in Ep. eapply Forall2_Forall_r; [exact Ep |]. apply Forall_true. intros x y. apply part_range. }
  repeat (apply Forall_cons_1 in Hn as [? Hn]). case_bool_decide as Hlt.
  - repeat (apply Forall_cons_1 in Hlt as [? Hlt]). cbn [existsb]. rewrite !(proj2 (Z.ltb_ge _ _)) by lia. cbn [orb].
    by rewrite ipv4_value by (unfold byte4; lia).
  - destruct (existsb _ _) eqn:Ee; [done |]. destruct Hlt. cbn [existsb] in Ee. rewrite !orb_false_iff, !Z.ltb_ge in Ee.
    repeat constructor; lia.
Qed.

(** A net of the list: its first address and the length of its prefix. *)
Definition net_of (cidr : jstr) : option (Z * Z) :=
  match split_on 47 cidr with
  | [] => None
  | [b] => (λ n, (n, 32)) <$> ip_number b
  | b :: p :: _ => match ip_number b, parseInt p with Some n, Some p => if (0 <=? p) && (p <=? 32) then Some (n, p) else None | _, _ => None end
  end.

Lemma mask_land v p : 0 ≤ v < 4294967296 → 0 < p ≤ 32 →
  Z.land v (uint32 (Z.shiftl 4294967295 (32 - p))) = v / 2 ^ (32 - p) * 2 ^ (32 - p).
Proof.
  intros Hv Hp. rewrite <- cidr_mask_land by done.
  assert (forallb (λ p, (p <? 1) || (32 <? p) || (uint32 (Z.shiftl 4294967295 (32 - p)) =? cidr_mask p)) (seqZ 0 256) = true) as Hall by (by vm_compute).
  pose proof (byte_ind_bool _ Hall p ltac:(lia)) as H. cbv beta in H.
  destruct (Z.ltb_spec p 1), (Z.ltb_spec 32 p); cbn [orb] in H; [lia.. |]. apply Z.eqb_eq in H as ->.
  assert (∀ z, uint32 z = Z.land z (Z.ones 32)) as E by (intros z; by rewrite Z.land_ones).
  rewrite E, <- Z.land_assoc, <- E. unfold cidr_mask. destruct (32 <=? p); [done |].
  unfold uint32. by rewrite Z.mod_mod.
Qed.
Lemma ip_number_range s n : ip_number s = Some n → 0 ≤ n < 4294967296.
Proof.
  unfold ip_number. destruct (mapM part _) as [[|a [|b [|c [|d []]]]]|] eqn:Ep; try done.
  assert (Forall (λ n, 0 ≤ n) [a; b; c; d]) as Hn.
  { apply mapM_Some in Ep. eapply Forall2_Forall_r; [exact Ep |]. apply Forall_true. intros x y. apply part_range. }
  repeat (apply Forall_cons_1 in Hn as [? Hn]). case_bool_decide as Hlt; [|done].
  repeat (apply Forall_cons_1 in Hlt as [? Hlt]). intros [= <-]. apply quad_value_range. unfold byte4. lia.
Qed.

Definition in_net (ip : Z) (net : Z * Z) : Prop := ip / 2 ^ (32 - net.2) = net.1 / 2 ^ (32 - net.2).
Lemma cidr_has_spec ip cidr : 0 ≤ ip < 4294967296 → cidr_has ip cidr = true ↔ ∃ net, net_of cidr = Some net ∧ in_net ip net.
Proof.
  intros Hip.
  assert (∀ n p, 0 ≤ n < 4294967296 → 0 ≤ p ≤ 32 →
    (Z.land ip (if p =? 0 then 0 else uint32 (Z.shiftl 4294967295 (32 - p))) =? Z.land n (if p =? 0 then 0 else uint32 (Z.shiftl 4294967295 (32 - p)))) = true
    ↔ in_net ip (n, p)) as Hm.
  { intros n p Hn Hp. unfold in_net. cbn [fst snd]. destruct (Z.eqb_spec p 0) as [->|].
    - rewrite !Z.land_0_r. change (2 ^ (32 - 0)) with 4294967296. rewrite !Z.div_small by lia. done.
    - rewrite !mask_land by lia. rewrite Z.eqb_eq. pose proof (Z.pow_pos_nonneg 2 (32 - p) ltac:(lia) ltac:(lia)).
      split; [intros; by apply (Z.mul_reg_r _ _ (2 ^ (32 - p))); [lia |] | by intros ->]. }
  unfold cidr_has, net_of. destruct (split_on 47 cidr) as [|b [|p l]]; rewrite ?ipv4ToInt_number.
  - split; [vm_compute; done | by intros (? & [=] & _)].
  - destruct (ip_number b) as [n|] eqn:En; [|split; [done | by intros (? & [=] & _)]]. apply ip_number_range in En.
    cbn [fmap option_fmap option_map]. change ((0 <=? 32) && (32 <=? 32)) with true. cbv iota. rewrite Hm by lia.
    split; [by eexists | by intros (? & [= <-] & ?)].
  - destruct (ip_number b) as [n|] eqn:En; [|split; [done | by intros (? & [=] & _)]]. apply ip_number_range in En.
    destruct (parseInt p) as [k|]; [|split; [done | by intros (? & [=] & _)]].
    destruct ((0 <=? k) && (k <=? 32)) eqn:Ek; [|split; [done | by intros (? & [=] & _)]].
    rewrite Hm by lia. split; [by eexists | by intros (? & [= <-] & ?)].
Qed.

(** Who may use a door: an IPv4 source, mapped or not, inside a net of the list. *)
Definition allowed_source (src : option jstr) (l : list jstr) : Prop :=
  ∃ a ip cidr net, src = Some a ∧ ip_number (normalizeIp a) = Some ip ∧ cidr ∈ l ∧ net_of cidr = Some net ∧ in_net ip net.
Lemma ipInAllowlist_spec src l : ipInAllowlist src (Some l) = true ↔ allowed_source src l.
Proof.
  unfold ipInAllowlist, allowed_source. destruct l as [|c l]; [split; [done | by intros (? & ? & ? & ? & _ & _ & ?%elem_of_nil & _)] |].
  rewrite ipv4ToInt_number. destruct src as [a|]; [|change (ip_number []) with (@None Z); split; [done | by intros (? & ? & ? & ? & [=] & _)]].
  destruct (ip_number (normalizeIp a)) as [ip|] eqn:En; [|split; [done | intros (? & ? & ? & ? & [= <-] & ? & _); congruence]].
  rewrite existsb_exists. setoid_rewrite <- list_elem_of_In. pose proof (ip_number_range _ _ En) as Hr. split.
  - intros (cidr & Hin & Hh). apply cidr_has_spec in Hh as (net & Hn & Hi); [|done]. by exists a, ip, cidr, net.
  - intros (a' & ip' & cidr & net & [= <-] & E & Hin & Hn & Hi). rewrite En in E. injection E as <-.
    exists cidr. split; [done |]. apply cidr_has_spec; [done |]. by exists net.
Qed.

(** ** What the doors let through *)

Section Safe.
Implicit Types (m : manager) (conf : list egress_route).

Definition configured (inputs : list egress_input) : list egress_route :=
  inputs ≫= λ i, match i with NewConfig routes => routes | _ => [] end.

(** A route object has the fields of a configured route, and the list of one with the same id. *)
Definition made_of conf (o : egress_route) : Prop :=
  (∃ r, r ∈ conf ∧ eg_id o = eg_id r ∧ eg_lan_bind_ip o = eg_lan_bind_ip r ∧ eg_lan_listen_port o = eg_lan_listen_port r ∧
        eg_tunnel_target_host o = eg_tunnel_target_host r ∧ eg_tunnel_target_port o = eg_tunnel_target_port r) ∧
  (is_Some (eg_allowed o) → ∃ r, r ∈ conf ∧ eg_id o = eg_id r ∧ eg_allowed o = eg_allowed r).
Definition point_refs (p : point) : list nat :=
  match p with AtClose _ _ routes => routes | AtBind _ route _ todo => route :: todo | AtStopAll _ _ => [] end.
Abbreviation known m := (λ r, (r < length (em_objs m))%nat).

(** Everything points to objects made of configured routes. *)
Record from conf m : Prop := {
  fr_objs : Forall (made_of conf) (em_objs m);
  fr_listeners : Forall (λ x, known m (li_route x.2) ∧ eg_id (obj m (li_route x.2)) = x.1) (em_listeners m);
  fr_servers : Forall (λ s, known m (sv_route s)) (em_servers m);
  fr_runs : Forall (λ x, Forall (known m) (point_refs x.2)) (em_runs m) }.

Lemma obj_from conf m r : from conf m → known m r → made_of conf (obj m r).
Proof.
  intros Hf Hr. unfold obj. rewrite nth_lookup. destruct (lookup_lt_is_Some_2 _ _ Hr) as [o Hl]. rewrite Hl. cbn.
  eapply Forall_forall; [apply (fr_objs _ _ Hf) |]. by eapply list_elem_of_lookup_2.
Qed.

(** What an effect says of the configured routes. *)
Definition by_route conf (x : egress_effect) : Prop :=
  match x with
  | Listen _ _ ip port => ∃ r, r ∈ conf ∧ eg_lan_bind_ip r = ip ∧ eg_lan_listen_port r = port
  | Connect _ _ _ => False
  | _ => True
  end.
Definition fine conf (t : manager * list egress_effect) : Prop := from conf t.1 ∧ Forall (by_route conf) t.2.

Lemma fine_then conf f g m : fine conf (f m) → fine conf (g (f m).1) → fine conf ((f ⨾ g) m).
Proof. intros [H1 H2] [H3 H4]. split; [by rewrite mthen_fst |]. rewrite mthen_snd. by apply Forall_app. Qed.
Lemma fine_quiet conf m fx : from conf m → Forall (by_route conf) fx → fine conf (m, fx).
Proof. done. Qed.
Lemma fine_set conf (h : manager → manager) m : from conf (h m) → fine conf (mset h m).
Proof. by split. Qed.

Lemma wait_fine conf run p m : from conf m → Forall (known m) (point_refs p) → fine conf (wait_at run p m).
Proof. intros [Ho Hl Hs Hr] Hp. apply fine_set. split; try done. cbn. by apply map_set_Forall. Qed.
Lemma run_ends_fine conf run m : from conf m → fine conf (run_ends run m).
Proof. intros [Ho Hl Hs Hr]. split; [|by repeat constructor]. split; try done. cbn. by apply map_delete_Forall. Qed.
Lemma alter_routes (b : bool) srv (l : list server) : sv_route <$> alter (λ s, Server (sv_route s) b) srv l = sv_route <$> l.
Proof. revert srv. induction l as [|s l IH]; intros [|srv]; [done.. |]. cbn. f_equal. apply IH. Qed.
Lemma from_servers conf m b srv o : from conf m → from conf (e_servers (alter (λ s, Server (sv_route s) b) srv (em_servers m)) o m).
Proof.
  intros [Ho Hl Hs Hr]. split; try done. cbn. change (Forall (known m ∘ sv_route) (em_servers m)) in Hs.
  change (Forall (known m ∘ sv_route) (alter (λ s, Server (sv_route s) b) srv (em_servers m))). rewrite <- Forall_fmap in Hs |- *. by rewrite alter_routes.
Qed.
Lemma close_fine conf srv m : from conf m → fine conf (close_server srv m).
Proof. intros Hf. split; [by apply from_servers | by repeat constructor]. Qed.
Lemma listen_fine conf run route old todo m : from conf m → Forall (known m) (route :: todo) → fine conf (listen run route old todo m).
Proof.
  intros Hf Hk. pose proof Hf as [Ho Hl Hs Hr]. unfold listen. apply fine_then; [|apply fine_then].
  - apply fine_set. split; try done. cbn. apply Forall_app. split; [done |]. apply Forall_singleton. by inversion Hk.
  - apply wait_fine; [|done]. split; try done. cbn. apply Forall_app. split; [done |]. apply Forall_singleton. by inversion Hk.
  - split; [|repeat constructor].
    + split; try done; [cbn; apply Forall_app; split; [done |]; apply Forall_singleton; by inversion Hk | cbn; by apply map_set_Forall].
    + assert (known m route) as Hroute by (by inversion Hk). destruct (obj_from conf m route Hf Hroute) as [(r & Hin & _ & E1 & E2 & _) _]. by exists r.
Qed.

Lemma obj_insert m m' r o k : em_objs m' = <[r := o]> (em_objs m) → known m r → obj m' k = if decide (k = r) then o else obj m k.
Proof.
  intros Eo Hr. unfold obj. rewrite Eo. rewrite !nth_lookup. case_decide as E; [subst; by rewrite list_lookup_insert_eq | by rewrite list_lookup_insert_ne].
Qed.
Lemma assign_from conf m e id ref : from conf m → known m ref → (id, e) ∈ em_listeners m → eg_id (obj m ref) = id →
  from conf (e_objs (<[li_route e := assign (obj m (li_route e)) (obj m ref)]> (em_objs m)) m).
Proof.
  intros Hf Hk Hin Hid. pose proof Hf as [Ho Hl Hs Hr]. pose proof Hl as Hle. eapply Forall_forall in Hle; [|exact Hin]. destruct Hle as [Hke Hie]. cbn in Hke, Hie.
  destruct (obj_from conf m _ Hf Hke) as [_ He]. destruct (obj_from conf m _ Hf Hk) as [Hr1 Hr2].
  split; cbn; rewrite ?length_insert; try done.
  - apply Forall_insert; [done |]. split; [exact Hr1 |]. cbn. rewrite Hid, <- Hie. intros Hall. destruct (eg_allowed (obj m ref)) as [l|] eqn:El.
    + destruct Hr2 as (r & ? & ? & ?); [done |]. exists r. split_and!; congruence.
    + destruct He as (r & ? & ? & ?); [done |]. exists r. by split_and!.
  - eapply Forall_impl; [exact Hl |]. intros [id' e'] [H1 H2]. cbn in *. split; [done |].
    set (o := assign _ _). pose proof (obj_insert m (e_objs (<[li_route e := o]> (em_objs m)) m) _ o (li_route e') eq_refl Hke) as Eo.
    etrans; [exact (f_equal eg_id Eo) |]. case_decide as E; [|done]. cbn. rewrite Hid, <- Hie, <- H2. by rewrite E.
Qed.

Lemma apply_fine conf run todo : ∀ m, from conf m → Forall (known m) todo → fine conf (apply_routes run todo m).
Proof.
  induction todo as [|ref todo IH]; intros m Hf Hk; cbn [apply_routes]; [by apply run_ends_fine |].
  apply Forall_cons in Hk as [Hr Hk].
  destruct (map_get (em_listeners m) (eg_id (obj m ref))) as [e|] eqn:Eg; [|apply listen_fine; [done | by constructor]].
  destruct (_bindChanged _ _); [apply listen_fine; [done | by constructor] |].
  destruct (_softChanged _ _); [|by apply IH]. apply map_get_elem in Eg.
  apply fine_then; [by eapply fine_set, assign_from |]. apply IH; [by eapply assign_from |]. cbn. by rewrite length_insert.
Qed.
Lemma removal_fine conf run stamp routes m : from conf m → Forall (known m) routes → fine conf (remove_listeners run stamp routes m).
Proof.
  intros Hf Hk. unfold remove_listeners. destruct (List.find _ _) as [[id e]|].
  - apply fine_then; [by apply close_fine |]. apply wait_fine; [by apply close_fine | done].
  - apply fine_then; [by apply fine_set; destruct Hf | apply apply_fine; [by destruct Hf | done]].
Qed.
Lemma drop_from conf id m : from conf m → from conf (e_listeners (map_delete (em_listeners m) id) (em_stamp m) m).
Proof. intros [Ho Hl Hs Hr]. split; try done. cbn. by apply map_delete_Forall. Qed.
Lemma stop_next_fine conf run todo m : from conf m → fine conf (stop_next run todo m).
Proof.
  intros Hf. destruct todo as [|[id e] todo]; cbn [stop_next]; [by apply run_ends_fine |].
  apply fine_then; [by apply close_fine |]. by apply wait_fine; [apply close_fine | constructor].
Qed.
Lemma set_listener_from conf srv port ref m : from conf m → known m ref → from conf (set_listener (eg_id (obj m ref)) srv port ref m).
Proof.
  intros [Ho Hl Hs Hr] Hk. unfold set_listener. destruct (map_get _ _); split; try done; cbn; by apply map_set_Forall.
Qed.
Lemma run_point conf m run p : from conf m → map_get (em_runs m) run = Some p → Forall (known m) (point_refs p).
Proof. intros Hf Hg%map_get_elem. pose proof (fr_runs _ _ Hf) as Hr. eapply Forall_forall in Hr; [|exact Hg]. done. Qed.

Lemma closed_fine conf run m : from conf m → fine conf (closed run m).
Proof.
  intros Hf. unfold closed. destruct (map_get (em_runs m) run) as [p|] eqn:Eg; [|by apply fine_quiet].
  pose proof (run_point conf m run p Hf Eg) as Hp. destruct p as [id stamp routes|srv ref old todo|id todo]; [| by apply fine_quiet |].
  - apply fine_then; [by apply fine_set, drop_from |]. apply fine_then; [apply fine_set; by destruct (drop_from conf id m Hf) |].
    apply removal_fine; [by destruct (drop_from conf id m Hf) | done].
  - apply fine_then; [by apply fine_set, drop_from |]. by apply stop_next_fine, drop_from.
Qed.
Lemma bound_fine conf run r m : from conf m → fine conf (bound run r m).
Proof.
  intros Hf. unfold bound. destruct (map_get (em_runs m) run) as [p|] eqn:Eg; [|by apply fine_quiet].
  pose proof (run_point conf m run p Hf Eg) as Hp. destruct p as [id stamp routes|srv ref old todo|id todo]; [by apply fine_quiet | | by apply fine_quiet].
  cbn in Hp. apply Forall_cons in Hp as [Hr Hp]. destruct r as [port|code].
  - pose proof (from_servers conf m true srv (em_overlaps m) Hf) as H1. set (m1 := e_servers _ _ m) in *.
    apply fine_then; [by apply fine_set |]. change ((mset _ m).1) with m1. change (obj m ref) with (obj m1 ref).
    assert (known m1 ref) as Hr1 by done. assert (Forall (known m1) todo) as Hp1 by done. clearbody m1.
    pose proof (set_listener_from conf srv port ref m1 H1 Hr1) as H2. apply fine_then; [by apply fine_set |].
    cbn [mset fst]. assert (em_objs (set_listener (eg_id (obj m1 ref)) srv port ref m1) = em_objs m1) as Eo by (unfold set_listener; destruct (map_get (em_listeners m1) _); reflexivity).
    set (m2 := set_listener _ _ _ _ _) in *. clearbody m2. apply fine_then; [apply fine_set; by destruct H2 |].
    cbn [mset fst]. set (m3 := e_status _ _ m2). assert (from conf m3 ∧ em_objs m3 = em_objs m1) as [H3 Eo3] by (split; [by destruct H2 | exact Eo]).
    clearbody m3. destruct old as [o|].
    + apply fine_then; [apply fine_then; [apply fine_set; by destruct H3 | split; [by destruct H3 | by repeat constructor]] |].
      apply apply_fine; [by destruct H3 | cbn; by rewrite Eo3].
    + apply fine_then; [by apply fine_quiet |]. apply apply_fine; [done | cbn; by rewrite Eo3].
  - apply fine_then; [apply fine_set; by destruct Hf |]. apply apply_fine; [by destruct Hf | done].
Qed.

Lemma from_more conf routes m : from conf m → from (conf ++ routes) (e_objs (em_objs m ++ routes) m).
Proof.
  intros [Ho Hl Hs Hr]. split; cbn; rewrite ?length_app.
  - apply Forall_app. split.
    + eapply Forall_impl; [exact Ho |]. intros o [(r & Hin & Hrest) H2]. split; [exists r; split; [set_solver | done] |].
      intros Hx. destruct (H2 Hx) as (r' & ? & ? & ?). exists r'. split_and!; [set_solver | done..].
    + apply Forall_forall. intros o Ho'. split; [exists o; split_and!; set_solver | intros _; exists o; set_solver].
  - eapply Forall_impl; [exact Hl |]. intros x [H1 H2]. split; [lia |]. unfold obj in *. cbn. by rewrite app_nth1.
  - eapply Forall_impl; [exact Hs |]. cbn. lia.
  - eapply Forall_impl; [exact Hr |]. intros x Hx. eapply Forall_impl; [exact Hx |]. cbn. lia.
Qed.

(** What a step does, connections included. *)
Definition by_input (hist : list egress_input) (x : egress_effect) : Prop :=
  match x with
  | Connect srv host port => ∃ src r r' l, last hist = Some (Incoming srv src) ∧ r ∈ configured hist ∧ r' ∈ configured hist ∧
      eg_tunnel_target_host r = host ∧ eg_tunnel_target_port r = port ∧ eg_id r = eg_id r' ∧ eg_allowed r' = Some (Some l) ∧ allowed_source src l
  | x => by_route (configured hist) x
  end.
Lemma by_route_input hist fx : Forall (by_route (configured hist)) fx → Forall (by_input hist) fx.
Proof. intros Hfx. eapply Forall_impl; [exact Hfx |]. by intros []. Qed.

Lemma fine_step hist i t : configured [i] = [] → fine (configured hist) t →
  from (configured (hist ++ [i])) t.1 ∧ Forall (by_input (hist ++ [i])) t.2.
Proof.
  intros Hi [H1 H2]. assert (configured (hist ++ [i]) = configured hist) as Hc by (unfold configured in *; by rewrite bind_app, Hi, app_nil_r).
  rewrite Hc. split; [done |]. apply by_route_input. by rewrite Hc.
Qed.
Lemma egress_step_from hist i m : from (configured hist) m →
  from (configured (hist ++ [i])) (egress_step i m).1 ∧ Forall (by_input (hist ++ [i])) (egress_step i m).2.
Proof.
  intros Hf. destruct i as [routes|routes| |run|run r|srv|srv src]; cbn [egress_step].
  { unfold configured. rewrite bind_app. cbn [mbind list_bind]. rewrite app_nil_r. split; [by apply from_more | constructor]. }
  - apply fine_step; [done |]. destruct (forallb _ _) eqn:Ek; [|by apply fine_quiet]. apply fine_then; [by apply fine_set; destruct Hf |].
    apply removal_fine; [by destruct Hf |]. rewrite Forall_forall. rewrite forallb_forall in Ek. intros ref Hin%list_elem_of_In%Ek. by apply Nat.ltb_lt.
  - apply fine_step; [done |]. apply fine_then; [by apply fine_set; destruct Hf |]. apply stop_next_fine. by destruct Hf.
  - by apply fine_step, closed_fine.
  - by apply fine_step, bound_fine.
  - apply fine_step; [done |]. unfold overlap_ends. case_bool_decide; [|by apply fine_quiet].
    apply fine_then; [apply fine_set; by destruct Hf | apply close_fine; by destruct Hf].
  - assert (configured (hist ++ [Incoming srv src]) = configured hist) as Hc by (unfold configured; rewrite bind_app; apply app_nil_r).
    rewrite Hc. unfold incoming. destruct (em_servers m !! srv) as [s|] eqn:Es; [|by split]. destruct (sv_open s); [|by split].
    pose proof (fr_servers _ _ Hf) as Hk. eapply Forall_forall in Hk; [|by eapply list_elem_of_lookup_2].
    destruct (obj_from _ m _ Hf Hk) as [(r & Hr & Hid & _ & _ & Hh & Hp) Ha]. unfold _handleConnection.
    destruct (eg_allowed (obj m (sv_route s))) as [[l|]|] eqn:El; cbn [mjoin option_join].
    2,3: (change (ipInAllowlist src None) with false; split; [by destruct Hf | by repeat constructor]).
    destruct (ipInAllowlist src (Some l)) eqn:Ei; [|split; [by destruct Hf | by repeat constructor]].
    split; [done |]. constructor; [|constructor]. cbn. rewrite last_snoc, Hc. apply ipInAllowlist_spec in Ei.
    destruct Ha as (r' & Hr' & Hid' & Ha); [done |]. exists src, r, r', l. split_and!; congruence.
Qed.

End Safe.

(** ** What a run brings about

    When runs come one after the other: every open server belongs to a
    listener or to one that is being replaced, and after a run the listeners
    are those of the routes. *)

Section Settles.
Implicit Types (m : manager).

Abbreviation known m := (λ r, (r < length (em_objs m))%nat).
Definition live m : list nat := li_server <$> (em_listeners m).*2.
Definition stamps m : list nat := li_stamp <$> (em_listeners m).*2.
Definition open_if (b : bool) (e : entry) : server := Server (li_route e) b.

Record calm (pend : list nat) (closing : option Z) m : Prop := {
  ca_map : map_ok (em_listeners m);
  ca_once : NoDup (live m ++ em_overlaps m ++ pend);
  ca_known : Forall (λ s, (s < length (em_servers m))%nat) (live m ++ em_overlaps m ++ pend);
  ca_agree : Forall (λ x, em_servers m !! li_server x.2 = Some (open_if (negb (bool_decide (closing = Some x.1))) x.2)) (em_listeners m);
  ca_open srv s : em_servers m !! srv = Some s → sv_open s = true → srv ∈ live m ++ em_overlaps m;
  ca_stamps : StronglySorted lt (stamps m) ∧ Forall (λ s, (0 < s <= em_stamp m)%nat) (stamps m) }.

(** A route is served as it says; one that names no list keeps the list that was. *)
Definition serves (a b : egress_route) : Prop :=
  eg_lan_bind_ip a = eg_lan_bind_ip b ∧ eg_lan_listen_port a = eg_lan_listen_port b ∧
  eg_tunnel_target_host a = eg_tunnel_target_host b ∧ eg_tunnel_target_port a = eg_tunnel_target_port b ∧
  (is_Some (eg_allowed b) → allowed_of a ≡ₚ allowed_of b).
Definition served m (ref : nat) : Prop :=
  ∃ e, map_get (em_listeners m) (eg_id (obj m ref)) = Some e ∧ serves (obj m (li_route e)) (obj m ref).
Definition failed m (ref : nat) : Prop := ∃ st, map_get (em_status m) (eg_id (obj m ref)) = Some st ∧ bs_bound st = false.
Definition settled m (refs : list nat) : Prop := Forall (λ r, served m r ∨ failed m r) refs.
Definition within m (refs : list nat) : Prop := Forall (λ x, x.1 ∈ wanted m refs) (em_listeners m).

Definition state_ok (goal : option (list nat)) m : Prop :=
  match em_runs m with
  | [] => calm [] None m ∧ ∀ routes, goal = Some routes → Forall (known m) routes ∧ within m routes ∧ (NoDup (wanted m routes) → settled m routes)
  | [(_, AtClose id stamp routes)] =>
      calm [] (Some id) m ∧ goal = Some routes ∧ Forall (known m) routes ∧ id ∈ (em_listeners m).*1 ∧
      Forall (λ x, (li_stamp x.2 <= stamp)%nat → x.1 ∈ wanted m routes ∨ x.1 = id) (em_listeners m)
  | [(_, AtBind srv ref old todo)] =>
      calm [srv] None m ∧ em_servers m !! srv = Some (Server ref false) ∧ old = (li_server <$> map_get (em_listeners m) (eg_id (obj m ref))) ∧
      ∃ done, goal = Some (done ++ ref :: todo) ∧ Forall (known m) (done ++ ref :: todo) ∧ within m (done ++ ref :: todo) ∧
        (NoDup (wanted m (done ++ ref :: todo)) → settled m done)
  | [(_, AtStopAll id todo)] => calm [] (Some id) m ∧ goal = None ∧ ∃ e, em_listeners m = (id, e) :: todo
  | _ => False
  end.

(** *** Steps that touch one route *)

Lemma settled_same m m' refs : 
  Forall (λ r, map_get (em_listeners m') (eg_id (obj m r)) = map_get (em_listeners m) (eg_id (obj m r)) ∧
               map_get (em_status m') (eg_id (obj m r)) = map_get (em_status m) (eg_id (obj m r)) ∧ obj m' r = obj m r ∧
               ∀ e, map_get (em_listeners m) (eg_id (obj m r)) = Some e → obj m' (li_route e) = obj m (li_route e)) refs →
  settled m refs → settled m' refs.
Proof.
  unfold settled. rewrite !Forall_forall. intros Hs Hr r Hin. destruct (Hs r Hin) as (H1 & H2 & H3 & H4).
  destruct (Hr r Hin) as [(e & He & Hse)|(st & Hst & Hb)]; [left | right].
  - exists e. rewrite H3, H1, (H4 e He). done.
  - exists st. by rewrite H3, H2.
Qed.
Lemma listed_same m m' refs : Forall (λ r, eg_id (obj m' r) = eg_id (obj m r)) refs → wanted m' refs = wanted m refs.
Proof. induction 1 as [|r refs H _ IH]; [done |]. unfold wanted in *. cbn. by rewrite H, IH. Qed.

(** *** The servers *)

Lemma calm_weak pend closing m : calm pend closing m → calm [] closing m.
Proof.
  intros [H1 H2 H3 H4 H5 H6]. split; try done; rewrite app_nil_r.
  - rewrite app_assoc in H2. by apply NoDup_app in H2 as [? _].
  - rewrite app_assoc in H3. by apply Forall_app in H3 as [? _].
Qed.
Lemma alter_lookup (f : server → server) i j (l : list server) : alter f i l !! j = if decide (i = j) then f <$> l !! j else l !! j.
Proof. rewrite list_lookup_alter. case_decide; by subst. Qed.
Lemma live_of m id e : (id, e) ∈ em_listeners m → li_server e ∈ live m.
Proof. intros Hin. unfold live. apply list_elem_of_fmap. exists e. split; [done |]. apply list_elem_of_fmap. by exists (id, e). Qed.
Lemma live_inj pend closing m id e id' e' : calm pend closing m → (id, e) ∈ em_listeners m → (id', e') ∈ em_listeners m → li_server e = li_server e' → id = id'.
Proof.
  intros [_ Hn _ _ _ _] H1 H2 E. apply NoDup_app in Hn as (Hn & _ & _). unfold live in Hn. rewrite <- list_fmap_compose in Hn.
  apply list_elem_of_lookup in H1 as [i Hi], H2 as [j Hj].
  assert (i = j) as <-; [|congruence]. eapply NoDup_lookup; [exact Hn | |]; rewrite list_lookup_fmap, ?Hi, ?Hj; [done |]. cbn. by rewrite E.
Qed.

Lemma close_calm m id e : calm [] None m → (id, e) ∈ em_listeners m → calm [] (Some id) (close_server (li_server e) m).1.
Proof.
  intros Hc Hin. pose proof Hc as [H1 H2 H3 H4 H5 H6]. split; cbn; try done.
  - by rewrite length_alter.
  - apply Forall_forall. intros [id' e'] Hin'. rewrite alter_lookup. pose proof H4 as H4'. eapply Forall_forall in H4'; [|exact Hin']. cbn in H4' |- *.
    rewrite H4'. rewrite (bool_decide_false (None = _)) by done. destruct (decide (li_server e = li_server e')) as [E|E].
    + assert (id = id') as <- by (by eapply live_inj). by rewrite bool_decide_true.
    + rewrite bool_decide_false; [done |]. intros [= ->]. apply map_get_ok in Hin, Hin'; [|done..]. congruence.
  - intros srv s. rewrite alter_lookup. case_decide; [|apply H5]. destruct (em_servers m !! srv); [|done]. by intros [= <-].
Qed.
Lemma split_entry m id e : map_ok (em_listeners m) → (id, e) ∈ em_listeners m →
  ∃ l1 l2, em_listeners m = l1 ++ (id, e) :: l2 ∧ map_delete (em_listeners m) id = l1 ++ l2 ∧
    ∀ e', map_set (em_listeners m) id e' = l1 ++ (id, e') :: l2.
Proof.
  generalize (em_listeners m). intros l. induction l as [|[k v] l IH]; intros Hm Hin; [by apply elem_of_nil in Hin |].
  pose proof Hm as Hm2. unfold map_ok in Hm2. rewrite fmap_cons in Hm2. apply NoDup_cons in Hm2 as [Hk Hl].
  apply elem_of_cons in Hin as [[= -> ->]|Hin].
  - exists [], l. cbn [app map_set]. rewrite map_delete_first by done. split_and!; [done.. |]. intros e'. by rewrite decide_True.
  - destruct (IH Hl Hin) as (l1 & l2 & -> & Hd & Hs). exists ((k, v) :: l1), l2. cbn [app map_delete map_set].
    assert (id ≠ k) as Hne by (intros ->; apply Hk, list_elem_of_fmap; by exists (k, e)).
    rewrite decide_False, Hd by done. split_and!; [done.. |]. intros e'. by rewrite decide_False, Hs.
Qed.
Lemma sorted_app_iff (l1 l2 : list nat) : StronglySorted lt (l1 ++ l2) ↔
  StronglySorted lt l1 ∧ StronglySorted lt l2 ∧ Forall (λ x, Forall (lt x) l2) l1.
Proof.
  induction l1 as [|x l1 IH]; cbn [app].
  - split; [by repeat constructor | by intros (_ & ? & _)].
  - split.
    + intros Hs. inversion Hs as [|? ? H1 H2]; subst. apply IH in H1 as (? & ? & ?). apply Forall_app in H2 as [? ?]. by repeat constructor.
    + intros (H1 & H2 & H3). inversion H1; subst. apply Forall_cons in H3 as [? ?]. constructor; [by apply IH |]. by apply Forall_app.
Qed.
Lemma drop_calm m id e : calm [] (Some id) m → (id, e) ∈ em_listeners m → calm [] None (drop_listener id m).1.
Proof.
  intros [H1 H2 H3 H4 H5 H6] Hin. destruct (split_entry m id e H1 Hin) as (l1 & l2 & El & Ed & _).
  unfold live, stamps in *. rewrite El in H1, H2, H3, H4, H5, H6. unfold map_ok in H1. rewrite fmap_app, fmap_cons in H1.
  rewrite !fmap_app, !fmap_cons in H2, H3, H5, H6. cbn [fst snd] in *. rewrite app_nil_r in H2, H3.
  assert (em_servers m !! li_server e = Some (open_if false e)) as He.
  { apply Forall_app in H4 as [_ H4]. apply Forall_cons in H4 as [H4 _]. cbn in H4. by rewrite bool_decide_true in H4. }
  split; cbn; unfold live, stamps; cbn; rewrite Ed, ?fmap_app.
  - unfold map_ok. rewrite fmap_app. apply NoDup_app in H1 as (? & ? & [? ?]%NoDup_cons). apply NoDup_app. set_solver.
  - rewrite app_nil_r, <- app_assoc. rewrite <- app_assoc in H2. cbn [app] in H2. rewrite <- Permutation_middle in H2. by apply NoDup_cons in H2 as [_ ?].
  - rewrite app_nil_r. rewrite !Forall_app, Forall_cons in H3. rewrite !Forall_app. naive_solver.
  - apply Forall_app in H4 as [H4a H4b]. apply Forall_cons in H4b as [_ H4b].
    assert (∀ l, Forall (λ x, em_servers m !! li_server x.2 = Some (open_if (negb (bool_decide (Some id = Some x.1))) x.2)) l → id ∉ l.*1 →
      Forall (λ x, em_servers m !! li_server x.2 = Some (open_if true x.2)) l) as Hl.
    { intros l Hl Hid. rewrite Forall_forall in Hl |- *. intros [id' e'] Hx. specialize (Hl _ Hx). cbn in *. rewrite bool_decide_false in Hl; [done |].
      intros [= ->]. apply Hid, list_elem_of_fmap. by exists (id', e'). }
    apply NoDup_app in H1 as (_ & Hd & [? _]%NoDup_cons). apply Forall_app. split; apply Hl; [done | | done..].
    intros Hx. by apply (Hd id Hx), list_elem_of_here.
  - intros srv s Hs Ho. specialize (H5 srv s Hs Ho). assert (srv ≠ li_server e); [|set_solver]. intros ->. rewrite He in Hs. by injection Hs as <-.
  - destruct H6 as [Hs Hf]. rewrite sorted_app_iff in Hs |- *. destruct Hs as (? & Hb & Hab). inversion Hb; subst.
    rewrite !Forall_app, Forall_cons in Hf. rewrite !Forall_app. split_and!; try naive_solver.
    eapply Forall_impl; [exact Hab |]. intros x Hx. by inversion Hx.
Qed.

Lemma calm_same pend closing m m' : em_listeners m' = em_listeners m → em_servers m' = em_servers m → em_overlaps m' = em_overlaps m →
  em_stamp m' = em_stamp m → calm pend closing m → calm pend closing m'.
Proof. intros E1 E2 E3 E4 [H1 H2 H3 H4 H5 H6]. unfold live, stamps in *. split; unfold live, stamps; by rewrite ?E1, ?E2, ?E3, ?E4. Qed.

(** A server that is made, and one that listens. *)
Lemma listen_calm m ref : calm [] None m → calm [length (em_servers m)] None (e_servers (em_servers m ++ [Server ref false]) (em_overlaps m) m).
Proof.
  intros [H1 H2 H3 H4 H5 H6]. rewrite app_nil_r in H2, H3. split; cbn; try done; unfold live, stamps in *; cbn.
  - rewrite app_assoc. apply NoDup_app. split_and!; [done | | apply NoDup_singleton]. intros x Hx ->%list_elem_of_singleton.
    rewrite Forall_forall in H3. specialize (H3 _ Hx). lia.
  - rewrite length_app. cbn. rewrite app_assoc, Forall_app. split; [|repeat constructor; lia]. eapply Forall_impl; [exact H3 |]. cbn. lia.
  - eapply Forall_impl; [exact H4 |]. intros x Hx. cbn. apply lookup_app_l_Some. exact Hx.
  - intros srv s Hs Ho. apply lookup_snoc_Some in Hs as [[_ Hs]|[_ <-]]; [by apply (H5 srv s) | done].
Qed.

Definition took m (srv : nat) (port : Z) (ref : nat) : manager :=
  let id := eg_id (obj m ref) in
  let status := map_set (em_status m) id (BindStatus true None (eg_lan_bind_ip (obj m ref)) port) in
  let servers := alter (λ s, Server (sv_route s) true) srv (em_servers m) in
  match map_get (em_listeners m) id with
  | Some e => Manager (em_objs m) (map_set (em_listeners m) id (Entry srv port ref (li_stamp e))) status (em_drops m) servers
                (li_server e :: em_overlaps m) (em_stamp m) (em_runs m) (em_count m)
  | None => Manager (em_objs m) (map_set (em_listeners m) id (Entry srv port ref (S (em_stamp m)))) status (em_drops m) servers
              (em_overlaps m) (S (em_stamp m)) (em_runs m) (em_count m)
  end.
Lemma bound_took run srv ref old todo port m : map_get (em_runs m) run = Some (AtBind srv ref old todo) →
  old = (li_server <$> map_get (em_listeners m) (eg_id (obj m ref))) → (bound run (inl port) m).1 = (apply_routes run todo (took m srv port ref)).1.
Proof.
  intros Hr ->. unfold bound. rewrite Hr. rewrite !mthen_fst. do 2 f_equal. unfold took, set_listener, obj. cbn.
  by destruct (map_get (em_listeners m) _).
Qed.
Lemma once_swap (a b ov : list nat) (o srv : nat) : a ++ srv :: b ++ o :: ov ≡ₚ a ++ o :: b ++ ov ++ [srv].
Proof.
  apply Permutation_app_head. etrans; [apply Permutation_cons; [done |]; symmetry; apply Permutation_middle |].
  etrans; [apply perm_swap |]. constructor. rewrite app_assoc. apply Permutation_cons_append.
Qed.
Lemma alter_other (f : server → server) (srv : nat) (servers : list server) (P : Z * entry → server) (l : list (Z * entry)) :
  srv ∉ (li_server <$> l.*2) → Forall (λ x, servers !! (li_server x.2) = Some (P x)) l → Forall (λ x, alter f srv servers !! (li_server x.2) = Some (P x)) l.
Proof.
  intros Hn Hl. rewrite Forall_forall in Hl |- *. intros x Hx. rewrite alter_lookup, (Hl x Hx). destruct (decide _) as [->|]; [|done].
  destruct Hn. apply list_elem_of_fmap. exists x.2. split; [done |]. apply list_elem_of_fmap. by exists x.
Qed.
Lemma took_calm m srv port ref : calm [srv] None m → em_servers m !! srv = Some (Server ref false) → calm [] None (took m srv port ref).
Proof.
  intros Hc Hsrv. pose proof Hc as [H1 H2 H3 H4 H5 H6]. assert ((srv ∉ live m) ∧ (srv ∉ em_overlaps m)) as [Hnl Hno].
  { rewrite app_assoc in H2. apply NoDup_app in H2 as (_ & Hd & _). specialize (Hd srv). set_solver. }
  assert (∀ s' s, alter (λ s, Server (sv_route s) true) srv (em_servers m) !! s' = Some s → sv_open s = true → s' = srv ∨ s' ∈ live m ++ em_overlaps m) as Hopen.
  { intros s' s. rewrite alter_lookup. destruct (decide (srv = s')) as [->|]; [by left |]. intros Hs Ho. right. by apply (H5 s' s). }
  unfold took. destruct (map_get (em_listeners m) (eg_id (obj m ref))) as [e|] eqn:Eg.
  - apply map_get_elem in Eg. destruct (split_entry m _ e H1 Eg) as (l1 & l2 & El & _ & Es). rewrite Es.
    unfold live, stamps in *. rewrite El in *. rewrite !fmap_app, !fmap_cons in H2, H3, H6, Hnl. cbn [fst snd] in *.
    split; unfold live, stamps; cbn [em_listeners em_servers em_overlaps em_stamp]; rewrite ?fmap_app, ?fmap_cons; cbn [fst snd li_server li_stamp].
    + unfold map_ok in *. rewrite fmap_app, fmap_cons in H1 |- *. done.
    + rewrite app_nil_r, <- app_assoc. cbn [app]. rewrite once_swap. rewrite <- app_assoc in H2. done.
    + rewrite app_nil_r, length_alter, <- app_assoc. cbn [app]. rewrite once_swap. rewrite <- app_assoc in H3. done.
    + apply Forall_app in H4 as [H4a H4b]. apply Forall_cons in H4b as [_ H4b]. apply Forall_app. split; [|constructor].
      * apply (alter_other _ _ _ (λ x, open_if (negb (bool_decide (None = Some x.1))) x.2)); [set_solver | done].
      * cbn. by rewrite alter_lookup, decide_True, Hsrv by done.
      * apply (alter_other _ _ _ (λ x, open_if (negb (bool_decide (None = Some x.1))) x.2)); [set_solver | done].
    + intros s' s Hs Ho. destruct (Hopen s' s Hs Ho) as [->|Hin]; [set_solver |]. rewrite !fmap_app, !fmap_cons in Hin. cbn [snd] in Hin. set_solver.
    + done.
  - apply map_get_None in Eg. rewrite map_set_new by done.
    split; unfold live, stamps in *; cbn [em_listeners em_servers em_overlaps em_stamp]; rewrite ?fmap_app; cbn [fmap list_fmap fst snd li_server li_stamp].
    + unfold map_ok in *. rewrite fmap_app. apply NoDup_app. split_and!; [done | set_solver | apply NoDup_singleton].
    + rewrite app_nil_r, <- app_assoc. by rewrite (Permutation_app_comm [srv]).
    + rewrite app_nil_r, length_alter, <- app_assoc. by rewrite (Permutation_app_comm [srv]).
    + apply Forall_app. split; [apply (alter_other _ _ _ (λ x, open_if (negb (bool_decide (None = Some x.1))) x.2)); done |].
      apply Forall_singleton. cbn. by rewrite alter_lookup, decide_True, Hsrv by done.
    + intros s' s Hs Ho. destruct (Hopen s' s Hs Ho) as [->|Hin]; set_solver.
    + destruct H6 as [Hs Hf]. split.
      * apply sorted_app_iff. split_and!; [done | by repeat constructor |]. eapply Forall_impl; [exact Hf |]. intros x Hx. apply Forall_singleton. cbn in Hx |- *. lia.
      * apply Forall_app. split; [eapply Forall_impl; [exact Hf |]; cbn; lia | apply Forall_singleton; cbn; lia].
Qed.

(** *** The second loop *)

Lemma serves_same a b : _bindChanged a b = false → _softChanged a b = false → serves a b.
Proof.
  unfold _bindChanged, _softChanged. rewrite !orb_false_iff, !negb_false_iff, !bool_decide_eq_true, !Z.eqb_eq.
  intros [H1 H2] [[H3 H4] H5]. split_and!; try done. intros _. by rewrite <- (sort_by_perm id (allowed_of a)), H5, sort_by_perm.
Qed.
Lemma serves_assigned a b : serves (assign a b) b.
Proof. split_and!; try done. intros [l Hl]. unfold allowed_of, assign. cbn. by rewrite Hl. Qed.

(** The other routes have other ids. *)
Lemma others m done ref todo : NoDup (wanted m (done ++ ref :: todo)) → Forall (λ r, eg_id (obj m r) ≠ eg_id (obj m ref)) done.
Proof.
  unfold wanted. rewrite fmap_app, fmap_cons. intros (_ & Hd & _)%NoDup_app. apply Forall_forall. intros r Hr E.
  apply (Hd (eg_id (obj m r))); [apply list_elem_of_fmap; by exists r | rewrite E; apply list_elem_of_here].
Qed.
Lemma settled_snoc m done ref : settled m done → served m ref ∨ failed m ref → settled m (done ++ [ref]).
Proof. intros Hd Hr. apply Forall_app. split; [done |]. by apply Forall_singleton. Qed.

Lemma listener_opens run old m done ref todo : calm [] None m → (em_runs m = [] ∨ ∃ p, em_runs m = [(run, p)]) →
  old = (li_server <$> map_get (em_listeners m) (eg_id (obj m ref))) → Forall (known m) (done ++ ref :: todo) → within m (done ++ ref :: todo) →
  (NoDup (wanted m (done ++ ref :: todo)) → settled m done) → state_ok (Some (done ++ ref :: todo)) (listen run ref old todo m).1.
Proof.
  intros Hc Hr Ho Hk Hw Hs. unfold listen. rewrite !mthen_fst. cbn [mdo wait_at mset fst]. set (t := e_servers _ _ m).
  unfold state_ok. cbn [e_runs em_runs]. assert (map_set (em_runs t) run (AtBind (length (em_servers m)) ref old todo) = [(run, AtBind (length (em_servers m)) ref old todo)]) as ->.
  { cbn. destruct Hr as [->|[p ->]]; cbn; [done |]. by rewrite decide_True. }
  split; [|split; [|split; [done |]]].
  - apply (calm_same _ _ t); [done..|]. by apply listen_calm.
  - cbn. by rewrite lookup_app_r, Nat.sub_diag by lia.
  - by exists done.
Qed.

Lemma apply_ok run todo : ∀ m done, (∃ conf, from conf m) → calm [] None m → (em_runs m = [] ∨ ∃ p, em_runs m = [(run, p)]) →
  Forall (known m) (done ++ todo) → within m (done ++ todo) → (NoDup (wanted m (done ++ todo)) → settled m done) →
  state_ok (Some (done ++ todo)) (apply_routes run todo m).1.
Proof.
  induction todo as [|ref todo IH]; intros m done Hf Hc Hr Hk Hw Hs; cbn [apply_routes].
  { unfold run_ends. rewrite mthen_fst. cbn [mset mdo fst]. unfold state_ok. cbn [e_runs em_runs].
    assert (map_delete (em_runs m) run = []) as -> by (destruct Hr as [->|[p ->]]; cbn; [done | by rewrite decide_True]).
    split; [by apply (calm_same _ _ m) |]. rewrite app_nil_r in *. intros routes [= <-]. done. }
  destruct Hf as [conf Hf]. assert (known m ref) as Hkr by (apply Forall_app in Hk as [_ Hk]; by inversion Hk).
  assert (done ++ ref :: todo = (done ++ [ref]) ++ todo) as Eapp by (by rewrite <- app_assoc).
  destruct (map_get (em_listeners m) (eg_id (obj m ref))) as [e|] eqn:Eg; [|apply listener_opens; try done; by rewrite Eg].
  destruct (_bindChanged _ _) eqn:Eb; [apply listener_opens; try done; by rewrite Eg |].
  destruct (_softChanged _ _) eqn:Es.
  2:{ rewrite Eapp in *. apply IH; try done; [by exists conf |]. intros Hn. apply settled_snoc; [by apply Hs |]. left. exists e. split; [done |]. by apply serves_same. }
  rewrite mthen_fst. cbn [mset fst]. pose proof Eg as Hin. apply map_get_elem in Hin.
  pose proof (assign_from conf m e _ ref Hf Hkr Hin eq_refl) as Hf2. set (o := assign _ _) in *.
  pose proof (fr_listeners _ _ Hf) as Hl. rewrite Forall_forall in Hl. destruct (Hl _ Hin) as [Hke Hie]. cbn in Hke, Hie.
  set (t := e_objs _ m) in *. assert (∀ k, obj t k = if decide (k = li_route e) then o else obj m k) as Ho by (intros k; by apply obj_insert).
  assert (∀ k, eg_id (obj t k) = eg_id (obj m k)) as Hid by (intros k; rewrite Ho; case_decide; [subst k; by rewrite Hie | done]).
  assert (∀ refs, wanted t refs = wanted m refs) as Hwt by (intros refs; apply listed_same, Forall_true, Hid).
  assert (∀ refs, Forall (known m) refs → Forall (known t) refs) as Hkt by (intros refs Hx; cbn; by rewrite length_insert).
  rewrite Eapp in *. apply IH; [by exists conf | by apply (calm_same _ _ m) | done | by apply Hkt | unfold within; by rewrite Hwt |].
  rewrite Hwt. intros Hn. apply settled_snoc.
  - apply (settled_same m); [|by apply Hs]. rewrite <- Eapp in Hn. apply others in Hn. eapply Forall_impl; [exact Hn |]. intros r Hne. cbn in Hne. split_and!; try done.
    + rewrite Ho. rewrite decide_False; [done |]. intros ->. by rewrite Hie in Hne.
    + intros e' He'. apply map_get_elem, Hl in He' as [_ He']. cbn in He'. rewrite Ho, decide_False; [done |]. intros E. rewrite E, Hie in He'. by rewrite He' in Hne.
  - left. exists e. rewrite Hid. split; [done |]. rewrite (Ho (li_route e)), decide_True by done.
    rewrite Ho. case_decide; [done | apply serves_assigned].
Qed.

(** *** The first loop *)

Lemma find_first {A} (f : A → bool) l x : List.find f l = Some x → ∃ l1 l2, l = l1 ++ x :: l2 ∧ f x = true ∧ Forall (λ y, f y = false) l1.
Proof.
  induction l as [|y l IH]; [done |]. cbn. destruct (f y) eqn:Ef.
  - intros [= ->]. by exists [], l.
  - intros (l1 & l2 & -> & ? & ?)%IH. exists (y :: l1), l2. by repeat constructor.
Qed.

Lemma remove_ok run stamp routes m : (∃ conf, from conf m) → calm [] None m → (em_runs m = [] ∨ ∃ p, em_runs m = [(run, p)]) →
  Forall (known m) routes → Forall (λ x, (li_stamp x.2 <= stamp)%nat → x.1 ∈ wanted m routes) (em_listeners m) →
  state_ok (Some routes) (remove_listeners run stamp routes m).1.
Proof.
  intros Hf Hc Hr Hk Hst. unfold remove_listeners. destruct (List.find _ (em_listeners m)) as [[id e]|] eqn:Ef.
  - apply find_first in Ef as (l1 & l2 & El & [He Hid]%andb_true_iff & Hl1). cbn [fst snd] in He, Hid.
    apply negb_true_iff, bool_decide_eq_false in Hid.
    assert ((id, e) ∈ em_listeners m) as Hin by (rewrite El; set_solver). pose proof (close_calm m id e Hc Hin) as Hcl.
    rewrite mthen_fst. set (t := (close_server (li_server e) m).1) in *. cbn [wait_at mset fst].
    unfold state_ok. cbn [e_runs em_runs]. assert (map_set (em_runs t) run (AtClose id (li_stamp e) routes) = [(run, AtClose id (li_stamp e) routes)]) as ->.
    { cbn. destruct Hr as [->|[p ->]]; cbn; [done | by rewrite decide_True]. }
    split; [by apply (calm_same _ _ t) |]. split_and!; [done.. | apply list_elem_of_fmap; by exists (id, e) |].
    change (Forall (λ x, (li_stamp x.2 <= li_stamp e)%nat → x.1 ∈ wanted m routes ∨ x.1 = id) (em_listeners m)).
    destruct (ca_stamps _ _ _ Hc) as [Hs _]. unfold stamps in Hs. rewrite El in Hs |- *. rewrite !fmap_app, !fmap_cons in Hs. cbn [snd] in Hs.
    apply sorted_app_iff in Hs as (_ & Hs & _). apply StronglySorted_inv in Hs as [_ Hs].
    rewrite El, Forall_app in Hst. destruct Hst as [Hst1 _]. apply Forall_app. split; [|constructor; [by right |]].
    + apply Forall_forall. intros x Hx _. left. rewrite Forall_forall in Hl1, Hst1. specialize (Hl1 x Hx). specialize (Hst1 x Hx).
      apply andb_false_iff in Hl1 as [Hlt%Nat.ltb_ge|Hb]; [by apply Hst1 |]. by apply negb_false_iff, bool_decide_eq_true in Hb.
    + apply Forall_forall. intros x Hx Hle. rewrite !Forall_fmap, Forall_forall in Hs. specialize (Hs x Hx). cbn in Hs. lia.
  - rewrite mthen_fst. cbn [mset fst]. set (t := prune _ m). apply (apply_ok run routes t []); try done.
    + destruct Hf as [conf Hf]. exists conf. by destruct Hf.
    + by apply (calm_same _ _ m).
    + apply Forall_forall. intros x Hx. pose proof (find_none _ _ Ef x) as Hn. rewrite <- list_elem_of_In in Hn. specialize (Hn Hx).
      rewrite Forall_forall in Hst. apply andb_false_iff in Hn as [Hn%Nat.ltb_ge|Hn]; [by apply (Hst x Hx) |].
      by apply negb_false_iff, bool_decide_eq_true in Hn.
    + intros _. constructor.
Qed.

(** *** Steps *)

Lemma stop_next_ok run m todo : calm [] None m → (em_runs m = [] ∨ ∃ p, em_runs m = [(run, p)]) → em_listeners m = todo → state_ok None (stop_next run todo m).1.
Proof.
  intros Hc Hr Hl. destruct todo as [|[id e] todo]; cbn [stop_next].
  - unfold run_ends. rewrite mthen_fst. cbn [mset mdo fst]. unfold state_ok. cbn [e_runs em_runs].
    assert (map_delete (em_runs m) run = []) as -> by (destruct Hr as [->|[p ->]]; cbn; [done | by rewrite decide_True]).
    split; [by apply (calm_same _ _ m) | done].
  - assert ((id, e) ∈ em_listeners m) as Hin by (rewrite Hl; apply list_elem_of_here). pose proof (close_calm m id e Hc Hin) as Hcl.
    rewrite mthen_fst. set (t := (close_server (li_server e) m).1) in *. cbn [wait_at mset fst].
    unfold state_ok. cbn [e_runs em_runs]. assert (map_set (em_runs t) run (AtStopAll id todo) = [(run, AtStopAll id todo)]) as ->.
    { cbn. destruct Hr as [->|[p ->]]; cbn; [done | by rewrite decide_True]. }
    split; [by apply (calm_same _ _ t) |]. split; [done |]. exists e. exact Hl.
Qed.

(** What a step that keeps listeners, states, runs and objects leaves. *)
Lemma state_frame g m m' : (∃ conf, from conf m) → em_runs m' = em_runs m → em_listeners m' = em_listeners m → em_status m' = em_status m →
  (∀ r, known m r → known m' r ∧ obj m' r = obj m r) → (∀ pend c, calm pend c m → calm pend c m') →
  (∀ srv s, em_servers m !! srv = Some s → srv ∉ em_overlaps m → em_servers m' !! srv = Some s) → state_ok g m → state_ok g m'.
Proof.
  intros [conf Hf] Er El Es Ho Hc Hsv.
  assert (∀ refs, Forall (known m) refs → Forall (known m') refs) as Hk by (intros refs Hx; eapply Forall_impl; [exact Hx |]; intros r Hr; by apply Ho).
  assert (∀ refs, Forall (known m) refs → wanted m' refs = wanted m refs) as Hw.
  { intros refs Hx. apply listed_same. eapply Forall_impl; [exact Hx |]. intros r Hr. by rewrite (proj2 (Ho r Hr)). }
  assert (∀ refs, Forall (known m) refs → settled m refs → settled m' refs) as Hst.
  { intros refs Hx. apply settled_same. eapply Forall_impl; [exact Hx |]. intros r Hr. rewrite El, Es. split_and!; try done; [by apply Ho |].
    intros e He%map_get_elem. pose proof (fr_listeners _ _ Hf) as Hl. eapply Forall_forall in Hl; [|exact He]. by apply Ho, Hl. }
  unfold state_ok, within. rewrite Er, El. destruct (em_runs m) as [|[n p] [|]]; [| |by destruct p].
  - intros [H1 H2]. split; [by apply Hc |]. intros routes Hg. destruct (H2 routes Hg) as (? & ? & ?). rewrite Hw by done. split_and!; auto.
  - destruct p as [id stamp routes|srv ref old todo|id todo].
    + intros (? & ? & ? & ? & ?). rewrite Hw by done. split_and!; auto.
    + intros (H1 & H2 & H3 & done & Hg & Hkn & Hwi & Hs). assert (known m ref) as Hkr by (apply Forall_app in Hkn as [_ Hx]; by inversion Hx).
      rewrite (proj2 (Ho ref Hkr)). split; [by apply Hc |]. split; [|split; [done |]].
      * apply Hsv; [done |]. pose proof (ca_once _ _ _ H1) as Hn. rewrite app_assoc in Hn. apply NoDup_app in Hn as (_ & Hd & _).
        intros Hx. apply (Hd srv); set_solver.
      * exists done. rewrite Hw by done. split_and!; auto. intros Hn. apply Hst; [by apply Forall_app in Hkn as [? _] | by apply Hs].
    + intros (? & ? & ?). split_and!; auto.
Qed.
Lemma overlap_calm pend c m srv : srv ∈ em_overlaps m → calm pend c m →
  calm pend c (e_servers (alter (λ s, Server (sv_route s) false) srv (em_servers m)) (List.filter (λ s, negb (s =? srv)%nat) (em_overlaps m)) m).
Proof.
  intros Hin [H1 H2 H3 H4 H5 H6]. set (ov := List.filter _ _). assert (∀ x, x ∈ ov ↔ x ∈ em_overlaps m ∧ x ≠ srv) as Hov.
  { intros x. unfold ov. rewrite !list_elem_of_In, filter_In, negb_true_iff, Nat.eqb_neq. done. }
  assert (NoDup ov) as Hno.
  { apply NoDup_ListNoDup, List.NoDup_filter. apply NoDup_app in H2 as (_ & _ & H2). apply NoDup_app in H2 as (H2 & _). by apply NoDup_ListNoDup. }
  split; try done; unfold live, stamps in *; cbn [e_servers em_listeners em_servers em_overlaps].
  - apply NoDup_app in H2 as (? & Hd & H2). apply NoDup_app in H2 as (_ & Hd2 & ?). apply NoDup_app. split_and!; [done | set_solver |].
    apply NoDup_app. split_and!; [done | set_solver | done].
  - rewrite length_alter. rewrite !Forall_app in H3 |- *. destruct H3 as (? & H3 & ?). split_and!; try done.
    rewrite Forall_forall in H3 |- *. intros x [? _]%Hov. by apply H3.
  - apply alter_other; [|done]. apply NoDup_app in H2 as (_ & Hd & _). intros Hx. apply (Hd srv Hx). set_solver.
  - intros s' s. rewrite alter_lookup. case_decide as E.
    + subst. destruct (em_servers m !! s'); [|done]. by intros [= <-].
    + intros Hs Ho. specialize (H5 s' s Hs Ho). set_solver.
Qed.

(** Runs one after the other, over objects that there are. *)
Definition starts_well m (i : egress_input) : Prop :=
  match i with SetRoutes refs => em_runs m = [] ∧ Forall (known m) refs | StopAll => em_runs m = [] | _ => True end.
Fixpoint orderly m (inputs : list egress_input) : Prop :=
  match inputs with [] => True | i :: inputs => starts_well m i ∧ orderly (egress_step i m).1 inputs end.
Definition goal_of (goal : option (list nat)) (i : egress_input) : option (list nat) :=
  match i with SetRoutes refs => Some refs | StopAll => None | _ => goal end.

Lemma took_from conf m srv port ref : from conf m → known m ref → from conf (took m srv port ref).
Proof.
  intros Hf Hk. destruct (from_servers conf m true srv (em_overlaps m) Hf) as [H1 H2 H3 H4]. unfold took.
  destruct (map_get (em_listeners m) (eg_id (obj m ref))); split; try done; cbn; by apply map_set_Forall.
Qed.
Lemma step_from i m : (∃ conf, from conf m) → ∃ conf, from conf (egress_step i m).1.
Proof.
  intros [conf Hf]. assert (configured [NewConfig conf] = conf) as E by apply app_nil_r. rewrite <- E in Hf.
  eexists. by apply (egress_step_from [NewConfig conf] i m).
Qed.
Lemma one_run m run p : em_runs m = [(run, p)] → ∀ r q, map_get (em_runs m) r = Some q → r = run ∧ q = p.
Proof. intros -> r q. cbn. case_decide; [|done]. by intros [= <-]. Qed.

Lemma state_step g m i : (∃ conf, from conf m) → state_ok g m → starts_well m i → state_ok (goal_of g i) (egress_step i m).1.
Proof.
  intros Hf Hs Hi. destruct i as [routes|refs| |run|run r|srv|srv src]; cbn [goal_of egress_step starts_well] in *.
  - apply (state_frame g m); try done; [|intros pend c; by apply calm_same].
    intros r Hr. cbn. split; [rewrite length_app; lia |]. unfold obj. cbn. by rewrite app_nth1.
  - destruct Hi as [Hr Hk]. assert (forallb (λ ref, (ref <? length (em_objs m))%nat) refs = true) as ->.
    { apply forallb_forall. intros x Hx%list_elem_of_In. rewrite Forall_forall in Hk. by apply Nat.ltb_lt, Hk. }
    unfold setRoutes. rewrite mthen_fst. cbn [mset fst]. set (t := e_runs _ _ m). unfold state_ok in Hs. rewrite Hr in Hs. destruct Hs as [Hc _].
    apply remove_ok; [destruct Hf as [conf Hf]; exists conf; by destruct Hf | by apply (calm_same _ _ m) | by left | done |].
    destruct (ca_stamps _ _ _ Hc) as [_ Hst]. unfold stamps in Hst. rewrite !Forall_fmap in Hst. eapply Forall_impl; [exact Hst |].
    intros x Hx. cbn in Hx. lia.
  - unfold stopAll. rewrite mthen_fst. cbn [mset fst]. unfold state_ok in Hs. rewrite Hi in Hs. destruct Hs as [Hc _].
    apply stop_next_ok; [by apply (calm_same _ _ m) | by left | done].
  - unfold closed. destruct (map_get (em_runs m) run) as [p|] eqn:Eg; [|done]. pose proof Hs as Hst. unfold state_ok in Hs.
    destruct (em_runs m) as [|[n q] [|]] eqn:Er; [done | |by destruct q]. destruct (one_run m n q Er run p) as [-> ->]; [by rewrite Er |].
    destruct q as [id stamp routes|srv ref old todo|id todo]; [|done|].
    + destruct Hs as (Hc & -> & Hk & Hid & Hle). apply list_elem_of_fmap in Hid as ([id' e] & -> & Hin). cbn [fst] in *.
      pose proof (drop_calm m id' e Hc Hin) as Hd. rewrite !mthen_fst. set (t := (drop_listener id' m).1) in *. cbn [mset fst].
      apply remove_ok.
      * destruct Hf as [conf Hf]. exists conf. by destruct (drop_from conf id' m Hf).
      * by apply (calm_same _ _ t).
      * right. by eexists.
      * done.
      * apply Forall_forall. intros x Hx Hst'. cbn in Hx. apply map_delete_elem in Hx as [Hx Hne]. rewrite Forall_forall in Hle.
        by destruct (Hle x Hx Hst').
    + destruct Hs as (Hc & -> & e & Hl). rewrite mthen_fst. apply stop_next_ok.
      * apply (drop_calm m id e Hc). rewrite Hl. apply list_elem_of_here.
      * right. by eexists.
      * cbn. rewrite Hl. apply map_delete_first. rewrite <- Hl. apply Hc.
  - unfold bound. destruct (map_get (em_runs m) run) as [p|] eqn:Eg; [|done]. pose proof Hs as Hst. unfold state_ok in Hs.
    destruct (em_runs m) as [|[n q] [|]] eqn:Er; [done | |by destruct q]. destruct (one_run m n q Er run p) as [-> ->]; [by rewrite Er |].
    destruct q as [id stamp routes|srv ref old todo|id todo]; [done| |done].
    destruct Hs as (Hc & Hsv & Hold & done & -> & Hk & Hw & Hset). assert (known m ref) as Hkr by (apply Forall_app in Hk as [_ Hk]; by inversion Hk).
    destruct Hf as [conf Hf]. assert (done ++ ref :: todo = (done ++ [ref]) ++ todo) as Eapp by (by rewrite <- app_assoc).
    destruct r as [port|code].
    + pose proof (bound_took n srv ref old todo port m) as Hb. unfold bound in Hb. rewrite Er, Eg in Hb. rewrite (Hb eq_refl Hold).
      assert (∀ k, obj (took m srv port ref) k = obj m k) as Ho by (intros k; unfold took; by destruct (map_get (em_listeners m) _)).
      assert (∀ k, wanted (took m srv port ref) k = wanted m k) as Hwt by (intros k; apply listed_same, Forall_true; intros j; by rewrite Ho).
      assert (∃ e', li_route e' = ref ∧ em_listeners (took m srv port ref) = map_set (em_listeners m) (eg_id (obj m ref)) e') as (e' & Hre & Hl')
        by (unfold took; destruct (map_get (em_listeners m) _); by eexists (Entry _ _ _ _)).
      rewrite Eapp in *. apply apply_ok.
      * exists conf. by apply took_from.
      * by apply took_calm.
      * right. exists (AtBind srv ref old todo). unfold took. by destruct (map_get (em_listeners m) _).
      * unfold took. by destruct (map_get (em_listeners m) _).
      * unfold within. rewrite Hwt, Hl'. apply map_set_Forall; [done |]. unfold wanted. apply list_elem_of_fmap. exists ref. split; [done |]. set_solver.
      * rewrite Hwt. intros Hn. apply settled_snoc.
        -- apply (settled_same m); [|by apply Hset]. rewrite <- Eapp in Hn. apply others in Hn. eapply Forall_impl; [exact Hn |]. intros r Hne. cbn in Hne.
           rewrite Hl', !Ho, map_get_set, decide_False by done. split_and!; try done.
           unfold took. destruct (map_get (em_listeners m) (eg_id (obj m ref))); cbn [em_status]; by rewrite map_get_set, decide_False.
        -- left. exists e'. rewrite Hl', !Ho, map_get_set, decide_True, Hre by done. by repeat split.
    + rewrite mthen_fst. cbn [mset fst]. set (t := e_status _ _ m). rewrite Eapp in *. apply (apply_ok n todo t).
      * exists conf. by destruct Hf.
      * apply (calm_same _ _ m); try done. by eapply calm_weak.
      * right. by eexists.
      * done.
      * done.
      * intros Hn. apply settled_snoc.
        -- apply (settled_same m); [|by apply Hset]. rewrite <- Eapp in Hn. apply others in Hn. eapply Forall_impl; [exact Hn |]. intros r Hne. cbn in Hne.
           split_and!; try done. cbn. by rewrite map_get_set, decide_False.
        -- right. eexists. cbn. change (obj t ref) with (obj m ref). rewrite map_get_set, decide_True by done. done.
  - unfold overlap_ends. case_bool_decide as Ho; [|done]. rewrite mthen_fst. unfold close_server. rewrite mthen_fst. cbn [mset fst mdo].
    apply (state_frame g m); try done; [intros pend c Hx; exact (overlap_calm pend c m srv Ho Hx) |].
    intros srv' s Hsv Hno. cbn. rewrite alter_lookup, decide_False; [done | set_solver].
  - assert (∀ d, state_ok g (e_status (em_status m) d m)) as Hd.
    { intros d. apply (state_frame g m); try done. intros pend c. by apply calm_same. }
    unfold incoming. destruct (em_servers m !! srv) as [s|]; [|done]. destruct (sv_open s); [|done]. unfold _handleConnection.
    destruct (ipInAllowlist _ _); [done |]. rewrite mthen_fst. apply Hd.
Qed.

(** C18: if runs come one after the other, then whatever the kernel and the
    clients do: every server that still takes connections belongs to a
    listener or to one that is just being replaced - the door of a route that
    is gone is closed -; and after a run over routes with different ids the
    listeners are those of the routes, each listening where its route says, to
    its target, for its list of sources (a route without the field keeps the
    list that was), or it is reported as not bound. *)
Theorem egress_reconciles inputs : orderly newManager inputs →
  let m := (mrun egress_step inputs newManager).1 in
  (∀ srv s, em_servers m !! srv = Some s → sv_open s = true → srv ∈ live m ++ em_overlaps m) ∧
  (∀ refs, foldl goal_of None inputs = Some refs → em_runs m = [] → NoDup (wanted m refs) →
     within m refs ∧ settled m refs ∧ Forall (λ x, em_servers m !! li_server x.2 = Some (Server (li_route x.2) true)) (em_listeners m)).
Proof.
  intros Ho m. enough (state_ok (foldl goal_of None inputs) m) as Hs.
  { unfold state_ok in Hs. split.
    - destruct (em_runs m) as [|[n p] [|]]; [|destruct p|by destruct p]; [destruct Hs as [Hc _] | destruct Hs as [Hc _] ..]; apply Hc.
    - intros refs Hg Hr Hn. rewrite Hr in Hs. destruct Hs as [Hc Hs]. destruct (Hs refs Hg) as (_ & Hw & Hst). split_and!; [done | by apply Hst |].
      apply (ca_agree _ _ _ Hc). }
  subst m. enough (∀ g m, (∃ conf, from conf m) → state_ok g m → orderly m inputs → state_ok (foldl goal_of g inputs) (mrun egress_step inputs m).1) as Hall.
  { apply Hall; [exists []; split; constructor | | done]. split; [|done].
    split; cbn; try done; [apply NoDup_nil_2 | apply NoDup_nil_2 | split; constructor]. }
  clear Ho. induction inputs as [|i inputs IH]; intros g m Hf Hs Ho; [done |]. destruct Ho as [Hi Ho]. cbn [mrun foldl].
  pose proof (state_step g m i Hf Hs Hi) as Hs2. pose proof (step_from i m Hf) as Hf2. destruct (egress_step i m) as [t fx]. cbn [fst] in *.
  specialize (IH _ t Hf2 Hs2 Ho). by destruct (mrun egress_step inputs t).
Qed.
End Settles.

(** ** Small runs *)

Definition door (id port : Z) (allowed : option (option (list jstr))) : egress_route :=
  EgressRoute id (js "192.168.1.2") port (js "10.8.0.1") 8080 allowed.
Definition lan_only : option (option (list jstr)) := Some (Some [js "192.168.1.0/24"]).
Definition egress_run (inputs : list egress_input) : manager * list egress_effect :=
  let '(m, tr) := mrun egress_step inputs newManager in (m, concat tr.*2).

Lemma egress_reconciles_witness :
  let inputs := [NewConfig [door 1 5000 lan_only; door 2 5001 lan_only]; SetRoutes [0; 1]%nat; Bound 0 (inl 5000); Bound 0 (inr (js "EADDRINUSE"))] in
  let m := (mrun egress_step inputs newManager).1 in
  within m [0; 1]%nat ∧ settled m [0; 1]%nat ∧ em_listeners m = [(1, Entry 0 5000 0 1)].
Proof.
  intros inputs m. assert (orderly newManager inputs) as Ho.
  { split; [exact I |]. split; [split; [reflexivity | repeat constructor] |]. by repeat split. }
  destruct (egress_reconciles inputs Ho) as [_ Hs]. destruct (Hs [0; 1]%nat eq_refl eq_refl) as (Hw & Hst & _).
  { apply (bool_decide_eq_true_1 _). vm_compute. reflexivity. }
  split; [exact Hw |]. split; [exact Hst |]. vm_compute. reflexivity.
Defined.


(** Two runs at once, of the old routes and of the new ones: the server of the
    first stays open, and no listener knows it. *)
Lemma lost_listener :
  let m := (egress_run [NewConfig [door 1 5000 lan_only]; SetRoutes [0%nat]; NewConfig [door 1 6000 lan_only]; SetRoutes [1%nat];
                        Bound 0 (inl 5000); Bound 1 (inl 6000)]).1 in
  em_servers m = [Server 0 true; Server 1 true] ∧ live m = [1%nat] ∧ em_overlaps m = [] ∧ em_runs m = [].
Proof. by vm_compute. Qed.

(** A route that goes has a connection: the one that comes is not bound until it ends. *)
Lemma removal_waits :
  (egress_run [NewConfig [door 1 5000 lan_only; door 2 6000 lan_only]; SetRoutes [0%nat]; Bound 0 (inl 5000); SetRoutes [1%nat]]).2 =
  [Listen 0 0 (js "192.168.1.2") 5000; RunDone 0; CloseServer 0].
Proof. by vm_compute. Qed.

(** A route loses its list of sources, as a field: the old list stays in force. *)
Lemma missing_list_kept :
  last (egress_run [NewConfig [door 1 5000 lan_only]; SetRoutes [0%nat]; Bound 0 (inl 5000); NewConfig [door 1 5000 None]; SetRoutes [1%nat];
                    Incoming 0 (Some (js "192.168.1.77"))]).2 = Some (Connect 0 (js "10.8.0.1") 8080).
Proof. by vm_compute. Qed.

(** A route moves, the new port is taken, and it moves back: it is served, and reported as not bound. *)
Lemma status_stale :
  let m := (egress_run [NewConfig [door 1 5000 lan_only; door 1 6000 lan_only]; SetRoutes [0%nat]; Bound 0 (inl 5000);
                        SetRoutes [1%nat]; Bound 1 (inr (js "EADDRINUSE")); SetRoutes [0%nat]]).1 in
  live m = [0%nat] ∧ (em_servers m !! 0%nat) = Some (Server 0 true) ∧ em_runs m = [] ∧
  getStatus m = [(1, BindStatus false (Some (js "EADDRINUSE")) (js "192.168.1.2") 6000, 0)].
Proof. by vm_compute. Qed.
