(* ===== verification/CacheStore.v ===== *)
(** * src/cache: config.js, signature.js, store.js, lanServer.js, fetcher.js

    The blobs of the home cache: what a signature allows, the store with its
    index and its room, the answer to a request of the LAN, the list of what
    the server wants here and the download of one blob.  Files are a map from
    folders and names to bytes; a download, a listing of a folder and a URL
    that was read are inputs. *)

From S2P Require Import Prelude JsBuffer JsMap JsValues JsText Utf8 Crypto.

Local Open Scope Z_scope.

(** ** config.js *)

Definition DEFAULT_ROOT : jstr := js "/cache".
Definition MIN_BYTES : Z := 268435456.
Definition MAX_BYTES : Z := 70368744177664.
Definition DEFAULT_BYTES : Z := 21474836480.
Definition DEFAULT_PORT : Z := 8443.
Definition KINDS : list (jstr * bool) := [(js "drive", true); (js "photos", true); (js "updates", true); (js "vault", false)].

(** [path.resolve] of absolute paths, as their segments; [path.relative]. *)
Definition dots : jstr := js "..".
Definition walk (segs : list jstr) (s : jstr) : list jstr :=
  if bool_decide (s = [] ∨ s = js ".") then segs
  else if bool_decide (s = dots) then take (pred (length segs)) segs
  else segs ++ [s].
Definition isAbsolute (p : jstr) : bool := starts_with (js "/") p.
Definition resolve (base p : jstr) : list jstr :=
  foldl walk [] ((if isAbsolute p then [] else split_on 47 base) ++ split_on 47 p).
Definition path_text (segs : list jstr) : jstr := 47 :: join 47 segs.
Fixpoint relative (a b : list jstr) : list jstr :=
  match a, b with
  | x :: a', y :: b' => if bool_decide (x = y) then relative a' b' else ((λ _, dots) <$> a) ++ b
  | _, _ => ((λ _, dots) <$> a) ++ b
  end.

(** [GATEWAY_CACHE_ROOT] *)
Definition cacheRoot (env : option jstr) : jstr :=
  match env with Some r => if isAbsolute r then path_text (resolve [] r) else DEFAULT_ROOT | None => DEFAULT_ROOT end.

(** The root is what [cacheRoot] gives. *)
Definition safePath (p : option json) (root : jstr) : option jstr :=
  match p with
  | None | Some JNull | Some (JStr []) => Some root
  | Some (JStr p) =>
      if (512 <? Z.of_nat (length p)) || includes 0 p then None
      else
        let abs := resolve root p in
        match relative (resolve [] root) abs with
        | [] => Some root
        | s :: _ => if starts_with dots s then None else Some (path_text abs)
        end
  | _ => None
  end.

Record cache_cfg := CacheCfg {
  cc_enabled : bool; cc_requested : bool; cc_problem : option string; cc_path : jstr; cc_maxBytes : Z; cc_kinds : list (jstr * bool);
  cc_secret : option jstr; cc_port : Z }.
Definition fields_of (v : option json) : list (jstr * json) := match v with Some (JObj f) => f | _ => [] end.
Definition normalizeCache (root : jstr) (raw : option json) : cache_cfg :=
  let c := fields_of raw in
  let k := fields_of (field c (js "kinds")) in
  let kinds := (λ e, (e.1, match field k e.1 with Some (JBool b) => b | _ => e.2 end)) <$> KINDS in
  let p := safePath (field c (js "path")) root in
  let maxBytes := match field c (js "maxBytes") with
                  | Some (JNum (NInt z)) => if Z.abs z <=? 9007199254740991 then Z.min MAX_BYTES (Z.max MIN_BYTES z) else DEFAULT_BYTES
                  | _ => DEFAULT_BYTES end in
  let secret := match field c (js "secret") with
                | Some (JStr s) => if (32 <=? length s)%nat && (length s <=? 512)%nat then Some s else None | _ => None end in
  let port := match field c (js "port") with
              | Some (JNum (NInt z)) => if (1024 <=? z) && (z <=? 65535) then z else DEFAULT_PORT | _ => DEFAULT_PORT end in
  let requested := is_true (field c (js "enabled")) in
  let problem := if requested then match p, secret with
                                   | None, _ => Some "path_not_allowed"%string | _, None => Some "no_secret"%string | _, _ => None end
                 else None in
  CacheCfg (requested && bool_decide (problem = None)) requested problem (default root p) maxBytes kinds secret port.

(** ** signature.js *)

Definition SHA_RE (s : jstr) : bool := (length s =? 64)%nat && forallb hex_unit s.
Definition EXP_RE (s : jstr) : bool := (1 <=? length s)%nat && (length s <=? 12)%nat && forallb is_digit s.
Definition SIG_RE (s : jstr) : bool := (length s =? 64)%nat && forallb (λ c, hex_unit (lower_unit c)) s.
Definition MAX_AHEAD_S : Z := 600.
Definition SKEW_S : Z := 60.

Section Signature.
Context `{Node}.

Definition sign (secret sha exp : jstr) : jstr := hex (hmac_sha256 (utf8_encode secret) (utf8_encode (sha ++ 10 :: exp))).

(** Two buffers made of hexadecimal texts of 64 units are equal when the texts are, in small letters. *)
Definition verify (secret : option jstr) (sha : jstr) (exp sig : option jstr) (nowMs : Z) : string :=
  match secret, exp, sig with
  | Some ((_ :: _) as secret), Some exp, Some sig =>
      if negb (SHA_RE sha) || negb (EXP_RE exp) || negb (SIG_RE sig) then "bad_request"
      else
        let now := nowMs / 1000 in
        if digits_value exp <? now then "expired"
        else if now + MAX_AHEAD_S + SKEW_S <? digits_value exp then "too_far"
        else if bool_decide (lower_unit <$> sig = sign secret sha exp) then "ok" else "bad_signature"
  | _, _, _ => "bad_request"
  end.
End Signature.

(** ** store.js *)

Definition MAX_ITEMS : Z := 50000.
Definition PART_MAX_AGE_MS : Z := 7 * 86400000.

Record item := Item { it_size : Z; it_kind : option jstr; it_storedAt : num; it_lastUsedAt : num }.
Record store := Store {
  bs_dir : jstr; bs_items : list (jstr * item); bs_usedBytes : Z; bs_added : list jstr; bs_removed : list jstr; bs_dirty : bool }.

(** Files by folder and name. *)
Abbreviation disk := (list ((jstr * jstr) * list Z)).
Definition part_name (sha : jstr) : jstr := sha ++ js ".part".

Definition set_add (l : list jstr) (x : jstr) : list jstr := if bool_decide (x ∈ l) then l else l ++ [x].
Definition set_del (l : list jstr) (x : jstr) : list jstr := List.filter (λ y, negb (bool_decide (y = x))) l.

Definition _set (sha : jstr) (v : item) (s : store) : store :=
  let used := match map_get (bs_items s) sha with Some old => bs_usedBytes s - it_size old | None => bs_usedBytes s end in
  Store (bs_dir s) (map_set (bs_items s) sha v) (used + it_size v) (bs_added s) (bs_removed s) true.
Definition _unset (sha : jstr) (s : store) : store :=
  match map_get (bs_items s) sha with
  | Some old => Store (bs_dir s) (map_delete (bs_items s) sha) (bs_usedBytes s - it_size old) (bs_added s) (bs_removed s) true
  | None => s
  end.
Definition touch (now : num) (sha : jstr) (s : store) : store :=
  match map_get (bs_items s) sha with
  | Some e => Store (bs_dir s) (map_set (bs_items s) sha (Item (it_size e) (it_kind e) (it_storedAt e) now)) (bs_usedBytes s) (bs_added s) (bs_removed s) true
  | None => s
  end.
(** [commit] after the part was renamed. *)
Definition committed (now : num) (sha : jstr) (size : Z) (kind : jstr) (s : store) : store :=
  let s := _set sha (Item size (Some kind) now (NInt 0)) s in
  Store (bs_dir s) (bs_items s) (bs_usedBytes s) (set_add (bs_added s) sha) (set_del (bs_removed s) sha) (bs_dirty s).
(** [remove]: the file goes as well. *)
Definition remove (sha : jstr) (s : store) : store :=
  if map_has (bs_items s) sha then
    let s := _unset sha s in
    Store (bs_dir s) (bs_items s) (bs_usedBytes s) (set_del (bs_added s) sha) (set_add (bs_removed s) sha) (bs_dirty s)
  else s.
Definition remove_file (sha : jstr) (s : store) (d : disk) : disk :=
  if map_has (bs_items s) sha then map_delete d (bs_dir s, sha) else d.

(** *** Opening a folder: an entry as [lstat] finds it, a plain file with its bytes. *)
Record dir_entry := DirEntry { de_name : jstr; de_file : option (list Z); de_mtimeMs : num }.
Definition PART_RE (name : jstr) : bool := SHA_RE (take 64 name) && bool_decide (drop 64 name = js ".part").

(** [Number(v) || 0] of the numbers the program wrote. *)
Definition time_of (v : option json) : num := match v with Some (JNum n) => n | _ => NInt 0 end.
Definition or_num (a b : num) : num := if bool_decide (a = NInt 0) then b else a.
Definition obj_field (v : option json) (k : jstr) : option json := match v with Some (JObj f) => field f k | _ => None end.

(** Entries that the index knows; the rest is read. *)
Definition open_entry (idx : json) (t : store * list (jstr * list Z * num)) (e : dir_entry) : store * list (jstr * list Z * num) :=
  let '(s, unknown) := t in
  match de_file e with
  | Some content =>
      if SHA_RE (de_name e) then
        let ie := obj_field (Some idx) (de_name e) in
        if match obj_field ie (js "size") with Some (JNum (NInt n)) => n =? blen content | _ => false end && (map_size (bs_items s) <? MAX_ITEMS) then
          (_set (de_name e)
             (Item (blen content) (match obj_field ie (js "kind") with Some (JStr k) => Some (cut 16 k) | _ => None end)
                (or_num (time_of (obj_field ie (js "storedAt"))) (de_mtimeMs e)) (time_of (obj_field ie (js "lastUsedAt")))) s, unknown)
        else (s, unknown ++ [(de_name e, content, de_mtimeMs e)])
      else t
  | None => t
  end.

Section Open.
Context `{Node}.
(** Files without an entry are kept when their bytes have the name. *)
Definition adopt (t : store * disk) (u : jstr * list Z * num) : store * disk :=
  let '(s, d) := t in let '(name, content, mtime) := u in
  if (map_size (bs_items s) <? MAX_ITEMS) && bool_decide (hex (sha256 content) = name) then
    (_set name (Item (blen content) None mtime (NInt 0)) s, d)
  else (s, map_delete d (bs_dir s, name)).
(** Parts that are too old. *)
Definition stale_part (now : Z) (e : dir_entry) : bool :=
  PART_RE (de_name e) && bool_decide (is_Some (de_file e)) && num_lt (de_mtimeMs e) (NInt (now - PART_MAX_AGE_MS)).
Definition listed (dir : jstr) (l : list dir_entry) (d : disk) : disk :=
  foldl (λ d e, match de_file e with Some c => map_set d (dir, de_name e) c | None => map_delete d (dir, de_name e) end) d l.
Definition open (dir : jstr) (now : Z) (idx : json) (l : list dir_entry) (d : disk) : store * disk :=
  let d := listed dir l d in
  let d := foldl (λ d e, if stale_part now e then map_delete d (dir, de_name e) else d) d l in
  let '(s, unknown) := foldl (open_entry idx) (Store dir [] 0 [] [] false, []) l in
  foldl adopt (s, d) unknown.
End Open.

(** *** Room *)

(** [rank]: what goes first; [None] is protected. *)
Record cand := Cand { cd_sha : jstr; cd_rank : num; cd_used : num }.
(** [a.r - b.r || a.used - b.used]: whether [b] goes before [a] *)
Definition goes_before (b a : cand) : bool :=
  num_lt (cd_rank b) (cd_rank a) || (negb (num_lt (cd_rank a) (cd_rank b)) && num_lt (cd_used b) (cd_used a)).
Fixpoint insert_cand (a : cand) (l : list cand) : list cand :=
  match l with [] => [a] | b :: r => if goes_before b a then b :: insert_cand a r else a :: l end.
Definition sort_cands (l : list cand) : list cand := foldr insert_cand [] l.
Definition cands (rank : jstr → option num) (s : store) : list cand :=
  omap (λ e, (λ r, Cand e.1 r (or_num (it_lastUsedAt e.2) (it_storedAt e.2))) <$> rank e.1) (bs_items s).
Fixpoint take_victims (items : list (jstr * item)) (l : list cand) (free bytes : Z) : list jstr * Z :=
  match l with
  | [] => ([], free)
  | c :: l =>
      if bytes <=? free then ([], free)
      else
        let '(v, f) := take_victims items l (free + match map_get items (cd_sha c) with Some i => it_size i | None => 0 end) bytes in
        (cd_sha c :: v, f)
  end.
(** [makeRoom] up to its removals; [None]: there is not enough. *)
Definition makeRoom (bytes limit : Z) (rank : jstr → option num) (s : store) : option (list jstr) :=
  if bs_usedBytes s + bytes <=? limit then Some []
  else
    let '(v, free) := take_victims (bs_items s) (sort_cands (cands rank s)) (limit - bs_usedBytes s) bytes in
    if free <? bytes then None else Some v.

(** [clear]: all items and all parts go. *)
Definition clear (s : store) (d : disk) : store * disk :=
  let '(s, d) := foldl (λ t sha, (remove sha t.1, remove_file sha t.1 t.2)) (s, d) (bs_items s).*1 in
  (s, List.filter (λ f, negb (bool_decide (f.1.1 = bs_dir s) && PART_RE f.1.2)) d).

(** ** lanServer.js: the answer to a request *)

Inductive range := NoRange | InvalidRange | Span (start stop : Z).
Definition MAX_SAFE : Z := 9007199254740991.
(** Two runs of digits, each of which may be empty, behind [bytes=] and around a hyphen. *)
Definition range_re (s : jstr) : option (jstr * jstr) :=
  if starts_with (js "bytes=") s then
    match split_on 45 (drop 6 s) with
    | [a; b] => if forallb is_digit a && forallb is_digit b then Some (a, b) else None
    | _ => None
    end
  else None.
(** Numbers beyond the safe integers are refused, as [start], or cut to the size, as [end]. *)
Definition parseRange (header : option jstr) (size : Z) : range :=
  match header with
  | None => NoRange
  | Some h =>
      match range_re (trim h) with
      | None | Some ([], []) => InvalidRange
      | Some ([], n) => let n := digits_value n in if n =? 0 then InvalidRange else
          let start := Z.max 0 (size - n) in if size - 1 <? start then InvalidRange else Span start (size - 1)
      | Some (a, b) =>
          let start := digits_value a in
          let stop := match b with [] => size - 1 | _ => Z.min (digits_value b) (size - 1) end in
          if (MAX_SAFE <? start) || (stop <? start) || (size <=? start) then InvalidRange else Span start stop
      end
  end.

(** [new URL(text, 'https://gateway.invalid')]: the path and the parameters; [None] when it throws. *)
Class Urls := { request_url : jstr → option (jstr * list (jstr * jstr)) }.

Record counters := Counters { cn_hits : Z; cn_misses : Z; cn_bytesServed : Z; cn_bytesFetched : Z; cn_denied : Z }.
Definition zeroCounters : counters := Counters 0 0 0 0 0.
Definition add_counters (a b : counters) : counters :=
  Counters (cn_hits a + cn_hits b) (cn_misses a + cn_misses b) (cn_bytesServed a + cn_bytesServed b)
    (cn_bytesFetched a + cn_bytesFetched b) (cn_denied a + cn_denied b).

(** [Blob]: the status, the length that is declared, the span of the whole, the body. *)
Inductive response :=
  | Json (code : Z) (error : string) | NotSatisfiable (size : Z)
  | Blob (code length : Z) (span : option (Z * Z * Z)) (etag : jstr) (body : list Z).
Record request := Request { rq_method : jstr; rq_url : jstr; rq_range : option jstr }.

Definition PATH_RE (path : jstr) : option jstr :=
  if starts_with (js "/blob/") path && SHA_RE (drop 6 path) then Some (drop 6 path) else None.

Section Handler.
Context `{Node} `{Urls}.

(** The handler over the store of now, [None] when there is none: the answer,
    what is added to the counters - the bytes served are those of a client that
    reads to the end -, and the blob that was touched. *)
Definition handle (secret : option jstr) (s : option store) (d : disk) (now : Z) (q : request) : response * counters * option jstr :=
  let no error code := (Json code error, zeroCounters, None) in
  let head := bool_decide (rq_method q = js "HEAD") in
  if negb (bool_decide (rq_method q = js "GET")) && negb head then no "method_not_allowed"%string 405
  else
    match request_url (rq_url q) with
    | None => no "bad_request"%string 400
    | Some (path, params) =>
        match PATH_RE path with
        | None => no "not_found"%string 404
        | Some sha =>
            let v := verify secret sha (map_get params (js "exp")) (map_get params (js "sig")) now in
            if negb (String.eqb v "ok") then
              (Json 403 (if String.eqb v "bad_request" then "bad_signature" else v), Counters 0 0 0 0 1, None)
            else
              match s with
              | Some s =>
                  match (if map_has (bs_items s) sha then map_get d (bs_dir s, sha) else None) with
                  | None => (Json 404 "not_cached", Counters 0 1 0 0 0, None)
                  | Some content =>
                      let size := blen content in
                      match parseRange (rq_range q) size with
                      | InvalidRange => (NotSatisfiable size, zeroCounters, None)
                      | NoRange =>
                          let body := if head then [] else content in
                          (Blob 200 size None sha body, Counters 1 0 (blen body) 0 0, Some sha)
                      | Span a b =>
                          let body := if head || (size =? 0) then [] else subarray content a (b + 1) in
                          (Blob 206 (if size =? 0 then 0 else b - a + 1) (Some (a, b, size)) sha body, Counters 1 0 (blen body) 0 0, Some sha)
                      end
                  end
              | None => (Json 404 "not_cached", Counters 0 1 0 0 0, None)
              end
        end
    end.
End Handler.

(** ** fetcher.js *)

Definition MAX_WANT_ITEMS : Z := 20000.
Definition MAX_BLOB : Z := 68719476736.
Definition KIND_RE (s : jstr) : bool :=
  match s with
  | c :: r => is_lower c && (length r <=? 15)%nat && forallb (λ c, is_lower c || is_digit c || (c =? 95) || (c =? 45)) r
  | [] => false
  end.

Record want := Want { wa_sha : jstr; wa_size : Z; wa_kind : jstr; wa_priority : num }.

Section Fetch.
Context `{Unicode} `{Node}.

Definition want_of (x : json) : option want :=
  match x with
  | JObj f =>
      let sha := match field f (js "sha256") with Some (JStr s) => toLowerCase s | _ => [] end in
      match field f (js "size"), field f (js "kind") with
      | Some (JNum (NInt size)), Some (JStr kind) =>
          if SHA_RE sha && (0 <? size) && (size <=? MAX_SAFE) && (size <=? MAX_BLOB) && KIND_RE kind then
            Some (Want sha size kind (match field f (js "priority") with Some (JNum n) => if is_finite n then n else NInt 0 | _ => NInt 0 end))
          else None
      | _, _ => None
      end
  | _ => None
  end.
Definition want_list (data : json) : option (list json) :=
  match data with
  | JArr l => Some l
  | JObj f => match field f (js "items"), field f (js "want") with Some (JArr l), _ => Some l | _, Some (JArr l) => Some l | _, _ => None end
  | _ => None
  end.
(** A blob that was named before is skipped. *)
Definition parseWant (data : json) : option (list want) :=
  (λ l, foldl (λ out x, match want_of x with
                       | Some w => if bool_decide (wa_sha w ∈ (wa_sha <$> out)) then out else out ++ [w]
                       | None => out end) [] (take (Z.to_nat MAX_WANT_ITEMS) l)) <$> want_list data.

(** The answer of the server to a download: [dl_range] the three numbers of
    [content-range], the last [None] for a star; the pieces; how it ended; and
    how much of the data was in the file, when it did not end well. *)
Inductive dl_end := Finished | Failed (code : string).
Record download := Download {
  dl_status : Z; dl_range : option (Z * Z * option Z); dl_length : option Z; dl_data : list (list Z); dl_end_ : dl_end; dl_written : nat }.

(** [blob(sha, size, partFile)]: the part before and after, and the bytes that were fetched. *)
Definition checked (sha : jstr) (part : list Z) (fetched : Z) : option (list Z) * res Z :=
  if bool_decide (hex (sha256 part) = sha) then (Some part, Ok fetched) else (None, Throw "sha256_mismatch").
Fixpoint receive (size total : Z) (l : list (list Z)) : Z * bool :=
  match l with
  | [] => (total, true)
  | c :: l => let total := total + blen c in if size <? total then (total, false) else receive size total l
  end.
Definition blob (sha : jstr) (size : Z) (part : option (list Z)) (a : res download) : option (list Z) * res Z :=
  if negb (SHA_RE sha) then (part, Throw "bad_sha")
  else
    let part := match part with Some p => if size <? blen p then None else Some p | None => None end in
    let old := default [] part in
    let have := blen old in
    if size <=? have then checked sha old 0
    else
      match a with
      | Throw code => (part, Throw code)
      | NoFuel => (part, NoFuel)
      | Ok r =>
          let body (start : list Z) :=
            let data := concat (dl_data r) in
            if match dl_length r with Some n => size <? blen start + n | None => false end then (part, Throw "too_large")
            else
              let kept := Some (start ++ take (dl_written r) data) in
              let '(total, fits) := receive size (blen start) (dl_data r) in
              if negb fits then (kept, Throw "too_large")
              else
                match dl_end_ r with
                | Failed code => (kept, Throw code)
                | Finished =>
                    let file := start ++ data in
                    if negb (blen file =? size) then (Some file, Throw "short") else checked sha file (total - blen start)
                end in
          if (dl_status r =? 206) && (0 <? have) then
            match dl_range r with
            | Some (first, _, whole) =>
                if negb (first =? have) || match whole with Some w => negb (w =? size) | None => false end then (part, Throw "bad_range")
                else body old
            | None => (part, Throw "bad_range")
            end
          else if dl_status r =? 200 then body []
          else if (dl_status r =? 416) && (0 <? have) then (None, Throw "range_not_satisfiable")
          else (part, Throw (if dl_status r =? 404 then "not_found" else "http_status"))
      end.
End Fetch.

(** ** Facts *)

(** *** Paths stay inside the root *)

Definition clean_seg (s : jstr) : Prop := s ≠ [] ∧ s ≠ js "." ∧ s ≠ dots.
Lemma resolve_clean base p : Forall clean_seg (resolve base p).
Proof.
  unfold resolve. generalize ((if isAbsolute p then [] else split_on 47 base) ++ split_on 47 p). intros l.
  enough (∀ acc, Forall clean_seg acc → Forall clean_seg (foldl walk acc l)) as H by (apply H; constructor).
  induction l as [|s l IH]; intros acc Ha; [done |]. cbn [foldl]. apply IH. unfold walk. repeat case_bool_decide; [done | by apply Forall_take |].
  apply Forall_app. split; [done |]. apply Forall_singleton. unfold clean_seg. tauto.
Qed.
Lemma relative_inside a b : match relative a b with [] => True | s :: _ => starts_with dots s = false end → ∃ r, b = a ++ r.
Proof.
  revert b. induction a as [|x a IH]; intros b; cbn [relative]; [intros _; by exists b |].
  destruct b as [|y b]; [done |]. case_bool_decide; [|done]. subst. intros [r ->]%IH. by exists r.
Qed.
Lemma safePath_inside p root q : safePath p root = Some q → q = root ∨
  ∃ segs, q = path_text (resolve [] root ++ segs) ∧ segs ≠ [] ∧ Forall clean_seg (resolve [] root ++ segs).
Proof.
  unfold safePath. destruct p as [[| | |[|c p]| |]|]; try done; try (intros [= <-]; by left).
  destruct (_ || _); [done |]. pose proof (relative_inside (resolve [] root) (resolve root (c :: p))) as Hr.
  pose proof (resolve_clean root (c :: p)) as Hc.
  destruct (relative _ _) as [|s r] eqn:E; [intros [= <-]; by left |].
  destruct (starts_with dots s); [done |]. intros [= <-]. right. destruct (Hr eq_refl) as [segs Hs]. exists segs. rewrite Hs in *.
  split_and!; [done | | done]. intros ->. rewrite app_nil_r in E. clear -E. induction (resolve [] root) as [|x a IH]; [done |]. cbn [relative] in E.
  rewrite bool_decide_true in E by done. by apply IH.
Qed.

(** *** Signatures *)

Section Facts.
Context `{Unicode} `{Node} `{Urls}.

Lemma verify_ok secret sha exp sig now : verify secret sha exp sig now = "ok"%string ↔
  ∃ k e g, secret = Some k ∧ k ≠ [] ∧ exp = Some e ∧ sig = Some g ∧ SHA_RE sha = true ∧ EXP_RE e = true ∧ SIG_RE g = true ∧
    now / 1000 ≤ digits_value e ≤ now / 1000 + 660 ∧ lower_unit <$> g = sign k sha e.
Proof.
  unfold verify, MAX_AHEAD_S, SKEW_S. split.
  - destruct secret as [[|k0 k]|]; [done| |done]. destruct exp as [e|]; [|done]. destruct sig as [g|]; [|done].
    destruct (negb (SHA_RE sha) || negb (EXP_RE e) || negb (SIG_RE g)) eqn:E1; [done |]. rewrite !orb_false_iff, !negb_false_iff in E1.
    cbv zeta. destruct (Z.ltb_spec (digits_value e) (now / 1000)); [done |]. destruct (Z.ltb_spec (now / 1000 + 600 + 60) (digits_value e)); [done |].
    case_bool_decide as E2; [|done]. intros _. exists (k0 :: k), e, g. split_and!; try done; try lia; tauto.
  - intros (k & e & g & -> & Hk & -> & -> & -> & -> & -> & He & Hg). destruct k as [|k0 k]; [done |]. cbn [negb orb].
    cbv zeta. destruct (Z.ltb_spec (digits_value e) (now / 1000)); [lia |]. destruct (Z.ltb_spec (now / 1000 + 600 + 60) (digits_value e)); [lia |].
    by rewrite bool_decide_true.
Qed.

(** *** Spans *)

Lemma digits_nonneg s : forallb is_digit s = true → 0 ≤ digits_value s.
Proof.
  unfold digits_value. enough (∀ a, 0 ≤ a → forallb is_digit s = true → 0 ≤ fold_left (λ a d, a * 10 + (d - 48)) s a) as Hs by (intros; by apply Hs).
  induction s as [|c s IH]; intros a Ha Hd; [done |]. apply andb_true_iff in Hd as [Hc Hd]. unfold is_digit in Hc. cbn [fold_left]. apply IH; [lia | done].
Qed.
Lemma parseRange_span h size a b : 0 ≤ size → parseRange h size = Span a b → 0 ≤ a ∧ a ≤ b ∧ b < size.
Proof.
  intros Hs. unfold parseRange. destruct h as [h|]; [|done]. destruct (range_re (trim h)) as [[x y]|] eqn:Er; [|done].
  assert (forallb is_digit x = true ∧ forallb is_digit y = true) as [Hx%digits_nonneg Hy%digits_nonneg].
  { unfold range_re in Er. destruct (starts_with _ _); [|done]. destruct (split_on _ _) as [|? [|? [|]]]; try done.
    destruct (forallb _ _ && _) eqn:E; [|done]. apply andb_true_iff in E. by injection Er as <- <-. }
  destruct x as [|x0 x].
  - destruct y as [|y0 y]; [done |]. cbv zeta. destruct (_ =? 0); [done |]. destruct (Z.ltb_spec (size - 1) (Z.max 0 (size - digits_value (y0 :: y)))); [done |].
    intros [= <- <-]. lia.
  - set (v := digits_value (x0 :: x)) in *. cbv zeta. destruct (_ || _ || _) eqn:E; [done |]. rewrite !orb_false_iff, !Z.ltb_ge, Z.leb_gt in E.
    destruct y as [|y0 y]; intros [= <- <-]; lia.
Qed.

(** *** Downloads *)

Lemma checked_ok sha part fetched p n : checked sha part fetched = (p, Ok n) → p = Some part ∧ hex (sha256 part) = sha.
Proof. unfold checked. case_bool_decide; [|done]. by intros [= <- <-]. Qed.

Lemma receive_total size l : ∀ total, (receive size total l).2 = true → (receive size total l).1 = total + blen (concat l).
Proof.
  unfold blen. induction l as [|c l IH]; intros total; cbn [receive concat]; [cbn; lia |].
  destruct (_ <? _); [done |]. intros Hl. rewrite IH by done. rewrite length_app. unfold blen. lia.
Qed.
(** What a download that succeeds leaves has the size and the hash it should have. *)
Lemma blob_ok sha size part a p n : 0 < size → blob sha size part a = (p, Ok n) → ∃ c, p = Some c ∧ blen c = size ∧ hex (sha256 c) = sha.
Proof.
  intros Hsize. unfold blob. destruct (negb (SHA_RE sha)); [done |]. set (old := match part with Some _ => _ | None => None end).
  assert (blen (default [] old) ≤ size) as Hold.
  { unfold old. destruct part as [q|]; [|cbn; unfold blen; cbn; lia]. destruct (Z.ltb_spec size (blen q)); [cbn; unfold blen; cbn; lia | cbn; lia]. }
  clearbody old. cbv zeta. destruct (Z.leb_spec size (blen (default [] old))).
  { intros [-> Hh]%checked_ok. exists (default [] old). split_and!; [done | lia | done]. }
  destruct a as [r| |]; [|done..].
  assert (∀ start, (if match dl_length r with Some n0 => size <? blen start + n0 | None => false end then (old, Throw "too_large")
    else let '(total, fits) := receive size (blen start) (dl_data r) in
         if negb fits then (Some (start ++ take (dl_written r) (concat (dl_data r))), Throw "too_large")
         else match dl_end_ r with
              | Finished => if negb (blen (start ++ concat (dl_data r)) =? size) then (Some (start ++ concat (dl_data r)), Throw "short")
                            else checked sha (start ++ concat (dl_data r)) (total - blen start)
              | Failed code => (Some (start ++ take (dl_written r) (concat (dl_data r))), Throw code) end) = (p, Ok n) →
    ∃ c, p = Some c ∧ blen c = size ∧ hex (sha256 c) = sha) as Hbody.
  { intros start. destruct (match dl_length r with Some _ => _ | None => false end); [done |]. destruct (receive _ _ _) as [total fits].
    destruct (negb fits); [done |]. destruct (dl_end_ r); [|done]. destruct (Z.eqb_spec (blen (start ++ concat (dl_data r))) size); cbn [negb]; [|done].
    intros [-> Hh]%checked_ok. by exists (start ++ concat (dl_data r)). }
  destruct (_ && _); [destruct (dl_range r) as [[[first l] whole]|]; [|done]; destruct (_ || _); [done | apply Hbody] |].
  destruct (dl_status r =? 200); [apply Hbody |]. destruct (_ && _); [done |]. by destruct (_ =? 404).
Qed.
Lemma blob_part sha size part a p m : blob sha size part a = (p, m) → m ≠ NoFuel ∨ a = NoFuel.
Proof.
  unfold blob, checked. destruct a as [r| |]; [left|left|by right]; repeat case_match; congruence.
Qed.

(** *** What the store counts *)

Definition sizes (l : list (jstr * item)) : Z := map_sum it_size l.
Record store_fine (s : store) : Prop := { sf_items : map_ok (bs_items s); sf_used : bs_usedBytes s = sizes (bs_items s); sf_sizes : Forall (λ e, 0 ≤ it_size e.2) (bs_items s) }.

Lemma sizes_set l k (v : item) : map_ok l → sizes (map_set l k v) = sizes l - match map_get l k with Some o => it_size o | None => 0 end + it_size v.
Proof.
  unfold sizes, map_ok, map_sum. induction l as [|[k' v'] l IH]; intros Hm; cbn [map_set map_get foldr]; [cbn; lia |].
  rewrite fmap_cons in Hm. apply NoDup_cons in Hm as [_ Hm]. case_decide; cbn [foldr snd]; [lia |]. rewrite IH by done. lia.
Qed.
Lemma _set_fine sha v s : store_fine s → 0 ≤ it_size v → store_fine (_set sha v s).
Proof.
  intros [K1 K2 K3] Hv. unfold _set. split; cbn [bs_items bs_usedBytes]; [by apply map_set_ok | | by apply map_set_Forall].
  rewrite sizes_set by done. destruct (map_get _ _); lia.
Qed.
Lemma _unset_fine sha s : store_fine s → store_fine (_unset sha s).
Proof.
  intros [K1 K2 K3]. unfold _unset. destruct (map_get (bs_items s) sha) as [o|] eqn:E; [|done].
  split; cbn [bs_items bs_usedBytes]; [by apply map_delete_ok | | by apply map_delete_Forall]. unfold sizes. rewrite (map_sum_delete it_size _ _ _ K1 E). unfold sizes in K2. lia.
Qed.
Lemma touch_fine now sha s : store_fine s → store_fine (touch now sha s) ∧ bs_usedBytes (touch now sha s) = bs_usedBytes s.
Proof.
  intros [K1 K2 K3]. unfold touch. destruct (map_get (bs_items s) sha) as [o|] eqn:E; [|done]. split; [|done].
  split; cbn [bs_items bs_usedBytes]; [by apply map_set_ok | rewrite sizes_set, E by done; cbn; lia |]. apply map_set_Forall; [done |]. cbn. by apply (map_get_Forall _ _ _ _ K3) in E.
Qed.
Lemma committed_fine now sha size kind s : 0 ≤ size → store_fine s → store_fine (committed now sha size kind s).
Proof. intros Hs Hf. destruct (_set_fine sha (Item size (Some kind) now (NInt 0)) s Hf Hs). by split. Qed.
Lemma committed_used now sha size kind s : store_fine s → map_get (bs_items s) sha = None →
  bs_usedBytes (committed now sha size kind s) = bs_usedBytes s + size.
Proof. intros _ Hn. unfold committed, _set. by rewrite Hn. Qed.
Lemma remove_fine sha s : store_fine s → store_fine (remove sha s).
Proof. intros Hf. unfold remove. destruct (map_has _ _); [|done]. destruct (_unset_fine sha s Hf). by split. Qed.

Definition size_of (items : list (jstr * item)) (sha : jstr) : Z := match map_get items sha with Some i => it_size i | None => 0 end.
Lemma remove_used sha s : store_fine s → bs_usedBytes (remove sha s) = bs_usedBytes s - size_of (bs_items s) sha.
Proof.
  intros _. unfold remove, map_has, _unset, size_of. destruct (map_get (bs_items s) sha) eqn:E; [cbn | lia]. done.
Qed.
Lemma remove_items sha s k : map_get (bs_items (remove sha s)) k = if decide (k = sha) then None else map_get (bs_items s) k.
Proof.
  unfold remove, map_has, _unset. destruct (map_get (bs_items s) sha) eqn:E; cbn [bs_items]; [by rewrite map_get_delete |].
  case_decide; [by subst | done].
Qed.

(** *** Room *)

Definition total_of (items : list (jstr * item)) (l : list jstr) : Z := foldr (λ x n, size_of items x + n) 0 l.
Lemma insert_cand_perm a l : insert_cand a l ≡ₚ a :: l.
Proof. induction l as [|b l IH]; [done |]. cbn. destruct (goes_before b a); [|done]. rewrite IH. apply Permutation_swap. Qed.
Lemma sort_cands_perm l : sort_cands l ≡ₚ l.
Proof. induction l as [|a l IH]; [done |]. cbn. by rewrite insert_cand_perm, IH. Qed.
Lemma take_victims_spec items bytes l : ∀ free v f, take_victims items l free bytes = (v, f) →
  ∃ k, v = cd_sha <$> take k l ∧ f = free + total_of items v ∧ (bytes ≤ f ∨ v = cd_sha <$> l) ∧
    ∀ j, (j < k)%nat → (j < length l)%nat → free + total_of items (cd_sha <$> take j l) < bytes.
Proof.
  induction l as [|c l IH]; intros free v f; cbn [take_victims].
  { intros [= <- <-]. exists 0%nat. split_and!; [done | cbn; lia | by right |]. intros j Hj. cbn. lia. }
  destruct (Z.leb_spec bytes free).
  { intros [= <- <-]. exists 0%nat. split_and!; [done | cbn; lia | by left |]. intros j. lia. }
  destruct (take_victims _ _ _ _) as [v' f'] eqn:E. intros [= <- <-].
  destruct (IH _ _ _ E) as (k & -> & -> & Hor & Hmin). exists (S k). cbn [take fmap list_fmap total_of foldr]. split_and!.
  - done.
  - fold (total_of items (cd_sha <$> take k l)). unfold size_of at 1. lia.
  - destruct Hor as [?| ->]; [left; lia | by right].
  - intros [|j] Hj Hl; cbn [take fmap list_fmap total_of foldr]; [lia |]. specialize (Hmin j). cbn in Hl.
    fold (total_of items (cd_sha <$> take j l)). unfold size_of at 1. lia.
Qed.
Lemma cands_spec rank s c : c ∈ cands rank s → ∃ i, (cd_sha c, i) ∈ bs_items s ∧ rank (cd_sha c) = Some (cd_rank c).
Proof.
  unfold cands. intros ([sha i] & Hin & Hr)%list_elem_of_omap. cbn in Hr. destruct (rank sha) as [r|] eqn:E; [|done]. injection Hr as <-. exists i. split; [exact Hin | exact E].
Qed.

(** Room is made by the shortest run of what goes first, and never by what is protected. *)
Lemma makeRoom_spec bytes limit rank s v : store_fine s → makeRoom bytes limit rank s = Some v →
  bs_usedBytes s - total_of (bs_items s) v + bytes ≤ limit ∧ NoDup v ∧ (∀ x, x ∈ v → is_Some (rank x)) ∧
  ∃ k, v = cd_sha <$> take k (sort_cands (cands rank s)) ∧
    ∀ j, (j < length v)%nat → limit < bs_usedBytes s - total_of (bs_items s) (take j v) + bytes.
Proof.
  intros [Hm _ _]. unfold makeRoom. destruct (Z.leb_spec (bs_usedBytes s + bytes) limit).
  { intros [= <-]. split_and!; [cbn; lia | apply NoDup_nil_2 | by intros x ?%elem_of_nil |]. exists 0%nat. split; [done |]. cbn. lia. }
  destruct (take_victims _ _ _ _) as [v' f] eqn:E. destruct (Z.ltb_spec f bytes); [done |]. intros [= <-].
  apply take_victims_spec in E as (k & -> & -> & _ & Hmin).
  assert (NoDup (cd_sha <$> cands rank s)) as Hnd.
  { unfold cands, map_ok in *. clear -Hm. induction (bs_items s) as [|[sha i] l IH]; [apply NoDup_nil_2 |]. rewrite fmap_cons in Hm.
    apply NoDup_cons in Hm as [Hn Hm]. cbn [omap list_omap fst snd]. destruct (rank sha) as [r|]; cbn [fmap option_fmap option_map]; [|by apply IH].
    rewrite fmap_cons. apply NoDup_cons. split; [|by apply IH]. cbn. intros (c & E & ([sha' i'] & Hin & Hr)%list_elem_of_omap)%list_elem_of_fmap.
    cbn in Hr. destruct (rank sha') as [r'|]; [|done]. injection Hr as <-. cbn in E. subst. apply Hn, list_elem_of_fmap. by exists (sha', i'). }
  set (l := sort_cands (cands rank s)) in *. assert (l ≡ₚ cands rank s) as Hp by apply sort_cands_perm.
  assert (NoDup (cd_sha <$> take k l)) as Hnv.
  { assert (NoDup (cd_sha <$> l)) as Hl by (by rewrite Hp). rewrite <- (take_drop k l), fmap_app in Hl. by apply NoDup_app in Hl as [? _]. }
  split_and!; [lia | done | |].
  - intros x (c & -> & Hc)%list_elem_of_fmap. assert (c ∈ l) as Hcl by (rewrite <- (take_drop k l); set_solver).
    rewrite Hp in Hcl. apply cands_spec in Hcl as (i & _ & ->). done.
  - exists k. split; [done |]. intros j Hj. rewrite length_fmap, length_take in Hj. rewrite <- fmap_take, take_take, Nat.min_l by lia.
    specialize (Hmin j ltac:(lia) ltac:(lia)). lia.
Qed.

(** *** Opening a folder *)

Definition disk_ok (d : disk) : Prop := ∀ dir sha c, map_get d (dir, sha) = Some c → SHA_RE sha = true → hex (sha256 c) = sha.
Definition indexed (idx : json) (e : dir_entry) (content : list Z) : bool :=
  match obj_field (obj_field (Some idx) (de_name e)) (js "size") with Some (JNum (NInt n)) => n =? blen content | _ => false end.
(** What the index knows with its size was put there by the program. *)
Definition folder_ok (idx : json) (l : list dir_entry) : Prop :=
  Forall (λ e, ∀ c, de_file e = Some c → SHA_RE (de_name e) = true → indexed idx e c = true → hex (sha256 c) = de_name e) l.

Lemma listed_get dir l d dir' n c : map_get (listed dir l d) (dir', n) = Some c →
  (dir' = dir ∧ ∃ e, e ∈ l ∧ de_name e = n ∧ de_file e = Some c) ∨ map_get d (dir', n) = Some c.
Proof.
  unfold listed. induction l as [|e l IH] using rev_ind; [by right |]. rewrite foldl_app. cbn [foldl].
  destruct (de_file e) as [c'|] eqn:Ef; rewrite ?map_get_set, ?map_get_delete; case_decide as E; try done.
  - injection E as -> ->. intros [= ->]. left. split; [done |]. exists e. split_and!; [set_solver | done..].
  - intros [[-> (e' & ? & ? & ?)]|]%IH; [left; split; [done |]; exists e'; split_and!; [set_solver | done..] | by right].
  - intros [[-> (e' & ? & ? & ?)]|]%IH; [left; split; [done |]; exists e'; split_and!; [set_solver | done..] | by right].
Qed.
Lemma stale_get dir now l (d : disk) k c : map_get (foldl (λ d e, if stale_part now e then map_delete d (dir, de_name e) else d) d l) k = Some c → map_get d k = Some c.
Proof.
  revert d. induction l as [|e l IH]; intros d; cbn [foldl]; [done |]. intros Hg%IH. destruct (stale_part now e); [|done].
  rewrite map_get_delete in Hg. by case_decide.
Qed.
Lemma folder_entries idx l : ∀ s u, store_fine s → let t := foldl (open_entry idx) (s, u) l in
  store_fine t.1 ∧ bs_dir t.1 = bs_dir s ∧ (∀ x, x ∈ u → x ∈ t.2) ∧
  ∀ e c, e ∈ l → de_file e = Some c → SHA_RE (de_name e) = true → indexed idx e c = true ∨ (de_name e, c, de_mtimeMs e) ∈ t.2.
Proof.
  induction l as [|e l IH]; intros s u Hs; cbn [foldl].
  { split_and!; try done. intros e c ?%elem_of_nil. done. }
  assert (let t := open_entry idx (s, u) e in store_fine t.1 ∧ bs_dir t.1 = bs_dir s ∧ (∀ x, x ∈ u → x ∈ t.2) ∧
    ∀ c, de_file e = Some c → SHA_RE (de_name e) = true → indexed idx e c = true ∨ (de_name e, c, de_mtimeMs e) ∈ t.2) as (K1 & K2 & K3 & K4).
  { unfold open_entry, indexed. destruct (de_file e) as [c|]; [|done]. destruct (SHA_RE (de_name e)) eqn:Er; [|by split_and!].
    cbv zeta. destruct (_ && _) eqn:Ec; cbn [fst snd].
    - apply andb_true_iff in Ec as [Ei _]. split_and!; [apply _set_fine; [done | cbn; unfold blen; lia] | unfold _set; by destruct (map_get _ _) | done |].
      intros c' [= <-] _. by left.
    - split_and!; [done | done | set_solver |]. intros c' [= <-] _. right. set_solver. }
  destruct (open_entry idx (s, u) e) as [s' u']. cbn [fst snd] in *. destruct (IH s' u' K1) as (J1 & J2 & J3 & J4).
  split_and!; [done | congruence | auto |]. intros e' c [->|Hin]%elem_of_cons Hf Hr; [|by apply J4]. destruct (K4 c Hf Hr); auto.
Qed.
Lemma adopt_all dir rem : ∀ s d, store_fine s → bs_dir s = dir →
  (∀ dir' sha c, map_get d (dir', sha) = Some c → SHA_RE sha = true → hex (sha256 c) = sha ∨ dir' = dir ∧ ∃ m, (sha, c, m) ∈ rem) →
  let t := foldl adopt (s, d) rem in store_fine t.1 ∧ bs_dir t.1 = dir ∧ disk_ok t.2.
Proof.
  induction rem as [|[[n c] m] rem IH]; intros s d Hs Hdir Hd; cbn [foldl].
  { split_and!; try done. intros dir' sha c' Hg Hr. destruct (Hd dir' sha c' Hg Hr) as [|(_ & m & ?%elem_of_nil)]; done. }
  destruct (adopt (s, d) (n, c, m)) as [s1 d1] eqn:Ea. unfold adopt in Ea. destruct (_ && _) eqn:Ec; injection Ea as <- <-.
  - apply andb_true_iff in Ec as [_ Eh%bool_decide_eq_true]. apply IH.
    + apply _set_fine; [done | cbn; unfold blen; lia].
    + unfold _set. by destruct (map_get _ _).
    + intros dir' sha c' Hg Hr. destruct (Hd dir' sha c' Hg Hr) as [|(-> & m' & [[= -> -> ->]|Hin]%elem_of_cons)]; [by left | by left |].
      right. split; [done |]. by exists m'.
  - apply IH; [done..|]. intros dir' sha c' Hg Hr. rewrite map_get_delete in Hg. case_decide as E; [done |].
    destruct (Hd dir' sha c' Hg Hr) as [|(-> & m' & [[= -> -> ->]|Hin]%elem_of_cons)]; [by left | by rewrite Hdir in E |].
    right. split; [done |]. by exists m'.
Qed.
(** After opening, every blob of the folder has the hash that is its name. *)
Lemma open_fine dir now idx l d : disk_ok d → folder_ok idx l →
  store_fine (open dir now idx l d).1 ∧ bs_dir (open dir now idx l d).1 = dir ∧ disk_ok (open dir now idx l d).2.
Proof.
  intros Hd Hf. unfold open. set (s0 := Store dir [] 0 [] [] false).
  assert (store_fine s0) as Hs0 by (split; [apply NoDup_nil_2 | done | constructor]).
  pose proof (folder_entries idx l s0 [] Hs0) as Ho. destruct (foldl (open_entry idx) (s0, []) l) as [s u]. cbn [fst snd] in Ho.
  destruct Ho as (K1 & K2 & _ & K4). apply adopt_all; [done | done |].
  intros dir' sha c [[-> (e & He & <- & Hfile)]|Hg]%stale_get%listed_get Hr; [|left; by eapply Hd].
  destruct (K4 e c He Hfile Hr) as [Hi|Hu]; [|right; split; [done |]; by eexists].
  left. unfold folder_ok in Hf. rewrite Forall_forall in Hf. by apply (Hf e He c).
Qed.
Lemma remove_dir sha s : bs_dir (remove sha s) = bs_dir s.
Proof. unfold remove, _unset. destruct (map_has _ _); [|done]. by destruct (map_get _ _). Qed.
Lemma disk_delete d k : disk_ok d → disk_ok (map_delete d k).
Proof. intros Hd dir sha c. rewrite map_get_delete. case_decide; [done |]. apply Hd. Qed.
Lemma remove_file_ok sha s d : disk_ok d → disk_ok (remove_file sha s d).
Proof. intros Hd. unfold remove_file. destruct (map_has _ _); [by apply disk_delete | done]. Qed.
End Facts.
