(* ===== verification/HomeCache.v ===== *)
(** * src/cache/cache.js

    The home cache: its settings, the store in use, the pass that fetches what
    the server wants here, the answers in the LAN and the reports.  Waits are
    inputs; the HTTPS listener, the certificate and the tasks' timers are
    effects and inputs.  Store objects are numbered, because a pass keeps the
    one it began with. *)

From S2P Require Import Prelude JsBuffer JsMap JsValues JsText Crypto FeatureStatus CacheStore Machine.

Local Open Scope Z_scope.

Definition FULL_EVERY_MS : Z := 6 * 3600000.
Definition RESERVE_BYTES : Z := 512 * 1024 * 1024.
Definition MAX_HAVE : nat := 5000.

(** A pass: its store, the priorities, whether it fetched, its failures; the
    room that was allowed for the blob under way. *)
Record job := Job { jb_store : nat; jb_prio : list (jstr * num); jb_fetched : bool; jb_failures : list string; jb_limit : Z }.
(** Where it waits: for the list, for files to go, for a blob, for its renaming, for the report. *)
Inductive sync_point :=
  | AtWant (st : nat) | AtRoom (j : job) (w : want) (victims : list jstr) (todo : list want)
  | AtBlob (j : job) (w : want) (todo : list want) | AtCommit (j : job) (w : want) (todo : list want) (fetched : Z)
  | AtReport (run : nat).

Record body := Body {
  bd_full : bool; bd_have : list jstr; bd_gone : list jstr; bd_usedBytes : Z; bd_maxBytes : Z; bd_effectiveMaxBytes : Z; bd_items : Z;
  bd_counters : counters; bd_from : Z; bd_to : Z }.
(** A report under way; [rn_at]: which chunk waits. *)
Record run := Run {
  rn_store : nat; rn_full : bool; rn_added : list jstr; rn_removed : list jstr; rn_counters : counters; rn_from : Z; rn_to : Z; rn_at : nat }.

Record home := Home {
  hc_cfg : cache_cfg; hc_status : feature_status; hc_stores : list store; hc_store : option nat; hc_disk : disk;
  hc_state : string; hc_error : option (Z * string); hc_want : list want; hc_counters : counters; hc_periodFrom : Z;
  hc_lastSyncAt : option Z; hc_lastReportAt : option Z; hc_lastFullAt : Z; hc_needFull : bool;
  hc_server : option Z; hc_sync : option sync_point; hc_opening : option (bool * bool * cache_cfg);
  hc_runs : list (nat * run); hc_clears : list (nat * (nat * list jstr)); hc_count : nat }.

Definition off_cfg : cache_cfg := CacheCfg false false None [] 0 [] None 0.
Definition newHome (now : Z) (d : disk) : home :=
  Home off_cfg status_new [] None d "off" None [] zeroCounters now None None 0 true None None None [] [] 0.

Inductive home_effect :=
  | OpenFolder (dir : jstr) | StartTask (name : string) (ms : Z) | StopTask (name : string) | NewServer (port : Z) | CloseServer
  | AskWant | RemoveFile (dir name : jstr) | Download_ (dir sha : jstr) (size : Z) (have : Z) | AbortDownload | Rename (dir sha : jstr)
  | SaveIndex (dir : jstr) | PostReport (n : nat) (b : body) | Answer (r : response).
Abbreviation hop := (mop home home_effect).

(** *** Updates of one part *)

Definition h_cfg (cfg : cache_cfg) (st : feature_status) (h : home) : home :=
  Home cfg st (hc_stores h) (hc_store h) (hc_disk h) (hc_state h) (hc_error h) (hc_want h) (hc_counters h) (hc_periodFrom h)
    (hc_lastSyncAt h) (hc_lastReportAt h) (hc_lastFullAt h) (hc_needFull h) (hc_server h) (hc_sync h) (hc_opening h) (hc_runs h) (hc_clears h) (hc_count h).
Definition h_stores (l : list store) (s : option nat) (d : disk) (h : home) : home :=
  Home (hc_cfg h) (hc_status h) l s d (hc_state h) (hc_error h) (hc_want h) (hc_counters h) (hc_periodFrom h)
    (hc_lastSyncAt h) (hc_lastReportAt h) (hc_lastFullAt h) (hc_needFull h) (hc_server h) (hc_sync h) (hc_opening h) (hc_runs h) (hc_clears h) (hc_count h).
Definition h_state (s : string) (e : option (Z * string)) (server : option Z) (opening : option (bool * bool * cache_cfg)) (h : home) : home :=
  Home (hc_cfg h) (hc_status h) (hc_stores h) (hc_store h) (hc_disk h) s e (hc_want h) (hc_counters h) (hc_periodFrom h)
    (hc_lastSyncAt h) (hc_lastReportAt h) (hc_lastFullAt h) (hc_needFull h) server (hc_sync h) opening (hc_runs h) (hc_clears h) (hc_count h).
Definition h_sync (p : option sync_point) (h : home) : home :=
  Home (hc_cfg h) (hc_status h) (hc_stores h) (hc_store h) (hc_disk h) (hc_state h) (hc_error h) (hc_want h) (hc_counters h) (hc_periodFrom h)
    (hc_lastSyncAt h) (hc_lastReportAt h) (hc_lastFullAt h) (hc_needFull h) (hc_server h) p (hc_opening h) (hc_runs h) (hc_clears h) (hc_count h).
Definition h_want (w : list want) (at_ : option Z) (h : home) : home :=
  Home (hc_cfg h) (hc_status h) (hc_stores h) (hc_store h) (hc_disk h) (hc_state h) (hc_error h) w (hc_counters h) (hc_periodFrom h)
    at_ (hc_lastReportAt h) (hc_lastFullAt h) (hc_needFull h) (hc_server h) (hc_sync h) (hc_opening h) (hc_runs h) (hc_clears h) (hc_count h).
Definition h_counters (c : counters) (from : Z) (h : home) : home :=
  Home (hc_cfg h) (hc_status h) (hc_stores h) (hc_store h) (hc_disk h) (hc_state h) (hc_error h) (hc_want h) c from
    (hc_lastSyncAt h) (hc_lastReportAt h) (hc_lastFullAt h) (hc_needFull h) (hc_server h) (hc_sync h) (hc_opening h) (hc_runs h) (hc_clears h) (hc_count h).
Definition h_full (reportAt : option Z) (fullAt : Z) (need : bool) (h : home) : home :=
  Home (hc_cfg h) (hc_status h) (hc_stores h) (hc_store h) (hc_disk h) (hc_state h) (hc_error h) (hc_want h) (hc_counters h) (hc_periodFrom h)
    (hc_lastSyncAt h) reportAt fullAt need (hc_server h) (hc_sync h) (hc_opening h) (hc_runs h) (hc_clears h) (hc_count h).
Definition h_runs (r : list (nat * run)) (c : list (nat * (nat * list jstr))) (n : nat) (h : home) : home :=
  Home (hc_cfg h) (hc_status h) (hc_stores h) (hc_store h) (hc_disk h) (hc_state h) (hc_error h) (hc_want h) (hc_counters h) (hc_periodFrom h)
    (hc_lastSyncAt h) (hc_lastReportAt h) (hc_lastFullAt h) (hc_needFull h) (hc_server h) (hc_sync h) (hc_opening h) r c n.

Definition no_store : store := Store [] [] 0 [] [] false.
Definition st_of (h : home) (st : nat) : store := nth st (hc_stores h) no_store.
(** A change of one store object and of the files. *)
Definition on_store (st : nat) (f : store → store) (g : store → disk → disk) : hop := mset (λ h,
  h_stores (alter f st (hc_stores h)) (hc_store h) (g (st_of h st) (hc_disk h)) h).
Definition same_disk (s : store) (d : disk) : disk := d.

Definition clean (s : store) : store := Store (bs_dir s) (bs_items s) (bs_usedBytes s) (bs_added s) (bs_removed s) false.
Definition persist (st : nat) : hop := λ h,
  if bs_dirty (st_of h st) then (on_store st clean same_disk ⨾ mdo [SaveIndex (bs_dir (st_of h st))]) h else (h, []).
Definition removing (st : nat) (sha : jstr) : hop := λ h,
  (on_store st (remove sha) (remove_file sha)
   ⨾ mdo (if map_has (bs_items (st_of h st)) sha then [RemoveFile (bs_dir (st_of h st)) sha] else [])) h.

(** *** Settings *)

Definition abort : hop := λ h, (h, match hc_sync h with Some (AtBlob _ _ _) | Some (AtCommit _ _ _ _) => [AbortDownload] | _ => [] end).
Definition _stopServing : hop := λ h,
  (mset (h_state (hc_state h) (hc_error h) None (hc_opening h)) ⨾ mdo (StopTask "listen" :: match hc_server h with Some _ => [CloseServer] | None => [] end)) h.
Definition persist_current : hop := λ h, match hc_store h with Some st => persist st h | None => (h, []) end.
Definition no_current : hop := mset (λ h, h_stores (hc_stores h) None (hc_disk h) h).
Definition _shutdown : hop :=
  mdo [StopTask "sync"; StopTask "report"] ⨾ abort ⨾ _stopServing ⨾ persist_current ⨾ no_current.
Definition stop : hop := λ h, if cc_enabled (hc_cfg h) then _shutdown h else (h, []).

(** [apply] behind the opening of the folder; [tls]: there is a certificate. *)
Definition applied (wasOn moved portChanged : bool) (cfg : cache_cfg) (tls : bool) (now : Z) : hop := λ h,
  if negb tls then (mset (h_state "error" (Some (now, "tls"%string)) (hc_server h) (hc_opening h))) h
  else
    ((if bool_decide (is_Some (hc_server h)) && negb portChanged then mskip
      else mdo (match hc_server h with Some _ => [CloseServer] | None => [] end)
           ⨾ mset (h_state (hc_state h) (hc_error h) (Some (cc_port cfg)) (hc_opening h)) ⨾ mdo [NewServer (cc_port cfg); StartTask "listen" 0])
     ⨾ mset (λ h, h_state "running" None (hc_server h) (hc_opening h) h)
     ⨾ mdo (if negb wasOn || moved then [StartTask "sync" 5000; StartTask "report" 60000] else [StartTask "sync" 1000])) h.

Definition apply (cfg : cache_cfg) (tls : bool) (now : Z) : hop := λ h,
  let prev := hc_cfg h in
  (mset (h_cfg cfg (setEnabled (hc_status h) (cc_enabled cfg)))
   ⨾ (if negb (cc_enabled cfg) then
        (if cc_enabled prev then _shutdown else mskip)
        ⨾ mset (λ h, h_state (if cc_requested cfg then default "off"%string (cc_problem cfg) else "off") (hc_error h) (hc_server h) (hc_opening h) h)
      else
        let moved := negb (cc_enabled prev) || negb (bool_decide (cc_path prev = cc_path cfg)) in
        let portChanged := negb (cc_port prev =? cc_port cfg) in
        if moved then
          abort ⨾ persist_current ⨾ no_current ⨾ mset (λ h, h_state (hc_state h) (hc_error h) (hc_server h) (Some (cc_enabled prev, portChanged, cfg)) h)
          ⨾ mdo [OpenFolder (cc_path cfg)]
        else applied (cc_enabled prev) false portChanged cfg tls now)) h.

Section Home.
Context `{Unicode} `{Node} `{Urls}.

(** The folder was opened, or could not be. *)
Definition opened (r : res (json * list dir_entry)) (tls : bool) (now : Z) : hop := λ h,
  match hc_opening h with
  | Some (wasOn, portChanged, cfg) =>
      let h := h_state (hc_state h) (hc_error h) (hc_server h) None h in
      match r with
      | Ok (idx, l) =>
          let '(s, d) := open (cc_path cfg) now idx l (hc_disk h) in
          (mset (λ h, h_stores (hc_stores h ++ [s]) (Some (length (hc_stores h))) d h)
           ⨾ mset (λ h, h_full (hc_lastReportAt h) (hc_lastFullAt h) true h)
           ⨾ (λ h, persist (pred (length (hc_stores h))) h)
           ⨾ applied wasOn true portChanged cfg tls now) h
      | _ =>
          (mset (h_cfg (hc_cfg h) (fail (hc_status h) now (js "path_unwritable")))
           ⨾ mset (λ h, h_state "path_unwritable" (Some (now, "path_unwritable"%string)) (hc_server h) (hc_opening h) h) ⨾ _stopServing) h
      end
  | None => (h, [])
  end.

(** *** The pass *)

(** [free]: what the file system says, [None] when it does not. *)
Definition effectiveMax (free : option Z) (h : home) : Z :=
  let used := match hc_store h with Some st => bs_usedBytes (st_of h st) | None => 0 end in
  match free with
  | Some f => Z.max 0 (Z.min (cc_maxBytes (hc_cfg h)) (used + f - RESERVE_BYTES))
  | None => cc_maxBytes (hc_cfg h)
  end.

(** *** Reports *)

Definition chunk (i : nat) (l : list jstr) : list jstr := take MAX_HAVE (drop (i * MAX_HAVE) l).
Definition chunks_of (l : list jstr) : nat := (length l + (MAX_HAVE - 1)) / MAX_HAVE.
Definition chunks (r : run) : nat := Nat.max 1 (Nat.max (chunks_of (rn_added r)) (chunks_of (rn_removed r))).
Definition body_of (r : run) (free : option Z) (h : home) : body :=
  let s := st_of h (rn_store r) in
  let first := (rn_at r =? 0)%nat in
  Body (rn_full r && first) (chunk (rn_at r) (rn_added r)) (chunk (rn_at r) (rn_removed r)) (bs_usedBytes s) (cc_maxBytes (hc_cfg h))
    (effectiveMax free h) (map_size (bs_items s)) (if first then rn_counters r else zeroCounters) (rn_from r) (rn_to r).

(** [report()] up to its first wait: the number of the run, when there is one. *)
Definition report (now : Z) (free : option Z) (h : home) : home * list home_effect * option nat :=
  match hc_store h with
  | Some st =>
      if cc_enabled (hc_cfg h) then
        let s := st_of h st in
        let full := hc_needFull h || (FULL_EVERY_MS <=? now - hc_lastFullAt h) in
        let r := Run st full (if full then (bs_items s).*1 else bs_added s) (if full then [] else bs_removed s) (hc_counters h) (hc_periodFrom h) now 0 in
        let n := hc_count h in
        (h_runs (hc_runs h ++ [(n, r)]) (hc_clears h) (S n) (h_counters zeroCounters now h), [PostReport n (body_of r free h)], Some n)
      else (h, [], None)
  | None => (h, [], None)
  end.
Definition reporting (now : Z) (free : option Z) : hop := λ h, (report now free h).1.

Definition sync_ends : hop := mset (h_sync None).
Definition in_sync (n : nat) (h : home) : bool := match hc_sync h with Some (AtReport m) => bool_decide (m = n) | _ => false end.

(** What a full report said is forgotten, and what a report of changes said is. *)
Definition told (r : run) (s : store) : store :=
  if rn_full r then Store (bs_dir s) (bs_items s) (bs_usedBytes s) [] [] (bs_dirty s)
  else Store (bs_dir s) (bs_items s) (bs_usedBytes s) (foldl set_del (bs_added s) (rn_added r)) (foldl set_del (bs_removed s) (rn_removed r)) (bs_dirty s).
Definition report_ends (n : nat) (r : run) (ok_ : bool) : hop := λ h,
  (mset (h_runs (map_delete (hc_runs h) n) (hc_clears h) (hc_count h))
   ⨾ (if ok_ then
        mset (λ h, h_full (Some (rn_to r)) (if rn_full r then rn_to r else hc_lastFullAt h) (if rn_full r then false else hc_needFull h) h)
        ⨾ on_store (rn_store r) (told r) same_disk
      else mset (λ h, h_full (hc_lastReportAt h) (hc_lastFullAt h) true h))
   ⨾ persist (rn_store r) ⨾ (if in_sync n h then sync_ends else mskip)) h.
Definition posted (n : nat) (ok_ : bool) (free : option Z) : hop := λ h,
  match map_get (hc_runs h) n with
  | Some r =>
      if ok_ then
        if (S (rn_at r) <? chunks r)%nat then
          let r := Run (rn_store r) (rn_full r) (rn_added r) (rn_removed r) (rn_counters r) (rn_from r) (rn_to r) (S (rn_at r)) in
          (h_runs (map_set (hc_runs h) n r) (hc_clears h) (hc_count h) h, [PostReport n (body_of r free h)])
        else report_ends n r true h
      else
        ((if (rn_at r =? 0)%nat then mset (λ h, h_counters (add_counters (hc_counters h) (rn_counters r)) (rn_from r) h) else mskip)
         ⨾ report_ends n r false) h
  | None => (h, [])
  end.

Definition sync_done (j : job) (now : Z) (free : option Z) : hop :=
  persist (jb_store j)
  ⨾ mset (λ h, h_cfg (hc_cfg h) (match jb_failures j with
                                 | c :: _ => fail (hc_status h) now (js "download: " ++ js c)
                                 | [] => ok (hc_status h) now end) h)
  ⨾ (if jb_fetched j then λ h, match report now free h with (h, fx, Some n) => (h_sync (Some (AtReport n)) h, fx) | (h, fx, None) => (sync_ends ⨾ mdo fx) h end
     else sync_ends).

(** [rank]: first what is not wanted, then what has a lower priority. *)
Definition FIRST : num := NInt (-1000000000000000).
Definition rank_of (prio : list (jstr * num)) (p : num) (sha : jstr) : option num :=
  match map_get prio sha with
  | None => Some FIRST
  | Some q => if num_lt q p then Some q else None
  end.
Definition download (j : job) (w : want) (todo : list want) : hop := λ h,
  let dir := bs_dir (st_of h (jb_store j)) in
  (mset (h_sync (Some (AtBlob j w todo)))
   ⨾ mdo [Download_ dir (wa_sha w) (wa_size w) (blen (default [] (map_get (hc_disk h) (dir, part_name (wa_sha w)))))]) h.
Definition make_room (j : job) (w : want) (victims : list jstr) (todo : list want) : hop :=
  match victims with
  | v :: victims => removing (jb_store j) v ⨾ mset (h_sync (Some (AtRoom j w victims todo)))
  | [] => download j w todo
  end.

Fixpoint next_want (j : job) (todo : list want) (now : Z) (free : option Z) : hop := λ h,
  match todo with
  | [] => sync_done j now free h
  | w :: todo =>
      if negb (bool_decide (hc_store h = Some (jb_store j))) || negb (cc_enabled (hc_cfg h)) then sync_done j now free h
      else if map_has (bs_items (st_of h (jb_store j))) (wa_sha w) then next_want j todo now free h
      else
        let limit := effectiveMax free h in
        if limit <? wa_size w then next_want j todo now free h
        else
          match makeRoom (wa_size w) limit (rank_of (jb_prio j) (wa_priority w)) (st_of h (jb_store j)) with
          | Some victims => make_room (Job (jb_store j) (jb_prio j) (jb_fetched j) (jb_failures j) limit) w victims todo h
          | None => next_want j todo now free h
          end
  end.

(** [all.filter(…).sort((a, b) => b.priority - a.priority)] *)
Fixpoint insert_want (a : want) (l : list want) : list want :=
  match l with [] => [a] | b :: r => if num_lt (wa_priority a) (wa_priority b) then b :: insert_want a r else a :: l end.
Definition wanted (kinds : list (jstr * bool)) (all : list want) : list want :=
  foldr insert_want [] (List.filter (λ w, match map_get kinds (wa_kind w) with Some true => true | _ => false end) all).

Definition sync (now : Z) : hop := λ h,
  match hc_sync h, hc_store h with
  | None, Some st =>
      if cc_enabled (hc_cfg h) then
        (mset (λ h, h_cfg (hc_cfg h) (start (hc_status h) now) h) ⨾ mset (h_sync (Some (AtWant st))) ⨾ mdo [AskWant]) h
      else (h, [])
  | _, _ => (h, [])
  end.
(** The list of the server, as JSON. *)
Definition want_done (r : res json) (now : Z) (free : option Z) : hop := λ h,
  match hc_sync h with
  | Some (AtWant st) =>
      match (match r with Ok data => of_option "bad_want" (parseWant data) | Throw code => Throw code | NoFuel => NoFuel end) with
      | Ok all =>
          let l := wanted (cc_kinds (hc_cfg h)) all in
          (mset (h_want l (Some now)) ⨾ next_want (Job st (foldl (λ m w, map_set m (wa_sha w) (wa_priority w)) [] l) false [] 0) l now free) h
      | Throw code => (mset (h_cfg (hc_cfg h) (fail (hc_status h) now (js code))) ⨾ sync_ends) h
      | NoFuel => (h, [])
      end
  | _ => (h, [])
  end.
(** A file has gone. *)
Definition gone : hop := λ h,
  match hc_sync h with Some (AtRoom j w victims todo) => make_room j w victims todo h | _ => (h, []) end.

Definition failed (j : job) (w : want) (todo : list want) (code : string) (now : Z) (free : option Z) : hop :=
  let j := Job (jb_store j) (jb_prio j) (jb_fetched j) (jb_failures j ++ [code]) (jb_limit j) in
  if (3 <=? length (jb_failures j))%nat then sync_done j now free else next_want j todo now free.
(** The download ended; when it is right the part gets its name, or, with an
    error, does not. *)
Definition set_file (d : disk) (k : jstr * jstr) (c : option (list Z)) : disk :=
  match c with Some c => map_set d k c | None => map_delete d k end.
Definition blob_done (a : res CacheStore.download) (rename : option string) (now : Z) (free : option Z) : hop := λ h,
  match hc_sync h with
  | Some (AtBlob j w todo) =>
      let dir := bs_dir (st_of h (jb_store j)) in
      let key := (dir, part_name (wa_sha w)) in
      let '(part, r) := blob (wa_sha w) (wa_size w) (map_get (hc_disk h) key) a in
      (mset (λ h, h_stores (hc_stores h) (hc_store h) (set_file (hc_disk h) key part) h)
       ⨾ match r with
         | Ok n =>
             mset (λ h, h_counters (add_counters (hc_counters h) (Counters 0 0 0 n 0)) (hc_periodFrom h) h)
             ⨾ match rename with
               | None =>
                   mset (λ h, h_stores (hc_stores h) (hc_store h)
                                (set_file (map_delete (hc_disk h) key) (dir, wa_sha w) part) h)
                   ⨾ mset (h_sync (Some (AtCommit j w todo n))) ⨾ mdo [Rename dir (wa_sha w)]
               | Some code => failed j w todo code now free
               end
         | Throw code => if String.eqb code "aborted" then sync_done j now free else failed j w todo code now free
         | NoFuel => mskip
         end) h
  | _ => (h, [])
  end.
(** The part has its name; [next_want] says where the pass waits then. *)
Definition renamed (now : Z) (free : option Z) : hop := λ h,
  match hc_sync h with
  | Some (AtCommit j w todo _) =>
      (sync_ends ⨾ on_store (jb_store j) (committed (NInt now) (wa_sha w) (wa_size w) (wa_kind w)) same_disk
       ⨾ next_want (Job (jb_store j) (jb_prio j) true (jb_failures j) (jb_limit j)) todo now free) h
  | _ => (h, [])
  end.

(** *** Emptying *)

Definition clear_next (n st : nat) (todo : list jstr) (now : Z) (free : option Z) : hop :=
  match todo with
  | sha :: todo => removing st sha ⨾ mset (λ h, h_runs (hc_runs h) (map_set (hc_clears h) n (st, todo)) (hc_count h) h)
  | [] =>
      on_store st id (λ s d, List.filter (λ f, negb (bool_decide (f.1.1 = bs_dir s) && PART_RE f.1.2)) d)
      ⨾ mset (λ h, h_runs (hc_runs h) (map_delete (hc_clears h) n) (hc_count h) h)
      ⨾ persist st ⨾ mset (λ h, h_full (hc_lastReportAt h) (hc_lastFullAt h) true h) ⨾ reporting now free
  end.
Definition clear_ (now : Z) (free : option Z) : hop := λ h,
  match hc_store h with
  | Some st =>
      if cc_enabled (hc_cfg h) then
        let n := hc_count h in
        (abort ⨾ mset (h_runs (hc_runs h) (hc_clears h) (S n)) ⨾ clear_next n st (bs_items (st_of h st)).*1 now free) h
      else (h, [])
  | None => (h, [])
  end.
Definition cleared (n : nat) (now : Z) (free : option Z) : hop := λ h,
  match map_get (hc_clears h) n with Some (st, todo) => clear_next n st todo now free h | None => (h, []) end.

(** *** The LAN *)

Definition serve (q : request) (now : Z) : hop := λ h,
  match hc_server h with
  | Some _ =>
      let '(r, c, touched) := handle (cc_secret (hc_cfg h)) (st_of h <$> hc_store h) (hc_disk h) now q in
      (mset (λ h, h_counters (add_counters (hc_counters h) c) (hc_periodFrom h) h)
       ⨾ match touched, hc_store h with Some sha, Some st => on_store st (touch (NInt now) sha) same_disk | _, _ => mskip end
       ⨾ mdo [Answer r]) h
  | None => (h, [])
  end.

(** *** The machine *)

Inductive home_input :=
  | Apply (cfg : cache_cfg) (tls : bool) (now : Z) | Opened (r : res (json * list dir_entry)) (tls : bool) (now : Z) | Stop
  | Sync (now : Z) | WantDone (r : res json) (now : Z) (free : option Z) | Gone
  | BlobDone (a : res CacheStore.download) (rename : option string) (now : Z) (free : option Z) | Renamed (now : Z) (free : option Z)
  | ReportTick (now : Z) (free : option Z) | Posted (n : nat) (ok_ : bool) (free : option Z)
  | Clear (now : Z) (free : option Z) | Cleared (n : nat) (now : Z) (free : option Z) | Ask (q : request) (now : Z).
(** Settings come one after the other. *)
Definition home_step (i : home_input) : hop :=
  match i with
  | Apply cfg tls now => λ h, match hc_opening h with None => apply cfg tls now h | Some _ => (h, []) end
  | Opened r tls now => opened r tls now
  | Stop => stop
  | Sync now => sync now
  | WantDone r now free => want_done r now free
  | Gone => gone
  | BlobDone a rename now free => blob_done a rename now free
  | Renamed now free => renamed now free
  | ReportTick now free => reporting now free
  | Posted n ok_ free => posted n ok_ free
  | Clear now free => clear_ now free
  | Cleared n now free => cleared n now free
  | Ask q now => serve q now
  end.
End Home.

(** ** Facts *)

Create HintDb home.
Section Facts.
Context `{Unicode} `{Node} `{Urls}.
Context (M : Z) (HM : 0 ≤ M).
Implicit Types (h : home).

Definition want_ok (w : want) : Prop := SHA_RE (wa_sha w) = true ∧ 0 < wa_size w.
(** There is room for the blob under way, once the files [gone_] have gone. *)
Definition room h (j : job) (w : want) (gone_ : list jstr) : Prop :=
  let s := st_of h (jb_store j) in
  map_get (bs_items s) (wa_sha w) = None ∧ bs_usedBytes s - total_of (bs_items s) gone_ + wa_size w ≤ jb_limit j.
Definition job_ok h (j : job) : Prop := (jb_store j < length (hc_stores h))%nat.
Definition point_ok h (p : sync_point) : Prop :=
  match p with
  | AtWant st => (st < length (hc_stores h))%nat
  | AtRoom j w victims todo => job_ok h j ∧ jb_limit j ≤ M ∧ want_ok w ∧ Forall want_ok todo ∧ NoDup victims ∧ room h j w victims
  | AtBlob j w todo | AtCommit j w todo _ => job_ok h j ∧ jb_limit j ≤ M ∧ want_ok w ∧ Forall want_ok todo ∧ room h j w []
  | AtReport _ => True
  end.
(** A store counts right and holds no more than it may. *)
Definition store_ok (s : store) : Prop := store_fine s ∧ bs_usedBytes s ≤ M.
Record home_fine h : Prop := {
  hf_disk : disk_ok (hc_disk h); hf_stores : Forall store_ok (hc_stores h); hf_max : cc_maxBytes (hc_cfg h) ≤ M;
  hf_store : ∀ st, hc_store h = Some st → (st < length (hc_stores h))%nat;
  hf_sync : ∀ p, hc_sync h = Some p → point_ok h p }.
Definition holds (f : hop) : Prop := ∀ h, home_fine h → home_fine (f h).1.

Lemma holds_then (f g : hop) : holds f → holds g → holds (f ⨾ g).
Proof. intros Hf Hg h Hh. rewrite mthen_fst. by apply Hg, Hf. Qed.
Lemma holds_do fx : holds (mdo fx).
Proof. by intros h Hh. Qed.
Lemma holds_skip : holds mskip.
Proof. by intros h Hh. Qed.
Lemma run_holds (f : hop) h : holds f → home_fine h → home_fine (f h).1.
Proof. auto. Qed.
Lemma no_store_fine : store_fine no_store.
Proof. split; [apply NoDup_nil_2 | done | constructor]. Qed.
Lemma st_of_fine h st : home_fine h → store_fine (st_of h st).
Proof.
  intros Hh. pose proof (hf_stores h Hh) as Hs. unfold st_of. rewrite nth_lookup. destruct (hc_stores h !! st) eqn:E; [|apply no_store_fine].
  cbn. eapply Forall_forall in Hs; [apply Hs |]. by eapply list_elem_of_lookup_2.
Qed.

(** What neither the stores nor the files nor the pass see. *)
Record aside h h' : Prop := {
  as_disk : hc_disk h' = hc_disk h; as_stores : hc_stores h' = hc_stores h; as_max : cc_maxBytes (hc_cfg h') = cc_maxBytes (hc_cfg h) ∨ cc_maxBytes (hc_cfg h') ≤ M;
  as_store : hc_store h' = hc_store h ∨ hc_store h' = None;
  as_sync : hc_sync h' = hc_sync h ∨ hc_sync h' = None ∨ ∃ n, hc_sync h' = Some (AtReport n) }.
Lemma point_same h h' q : hc_stores h' = hc_stores h → point_ok h q → point_ok h' q.
Proof.
  intros E2. assert (∀ st, st_of h' st = st_of h st) as Es by (intros st; unfold st_of; by rewrite E2).
  destruct q; cbn [point_ok]; unfold room, job_ok; by rewrite ?Es, ?E2.
Qed.
Lemma aside_fine h h' : aside h h' → home_fine h → home_fine h'.
Proof.
  intros [E1 E2 E5 E4 E3] [A1 A2 A5 A4 A3]. split; [by rewrite E1 | by rewrite E2 | destruct E5; lia | |].
  - intros st Hst. rewrite E2. apply A4. destruct E4 as [E|E]; congruence.
  - intros p Hp. destruct E3 as [E|[E|[n E]]]; rewrite E in Hp; [| done | by injection Hp as <-]. by apply (point_same h), A3.
Qed.
Lemma holds_aside (f : home → home) : (∀ h, aside h (f h)) → holds (mset f).
Proof. intros Hf h Hh. eapply aside_fine; [apply Hf | exact Hh]. Qed.

(** Changes of a store that take nothing in. *)
Definition shrinks (f : store → store) : Prop := ∀ s, store_fine s → store_fine (f s) ∧
  (∀ k, map_get (bs_items s) k = None → map_get (bs_items (f s)) k = None) ∧
  ∀ l, NoDup l → bs_usedBytes (f s) - total_of (bs_items (f s)) l ≤ bs_usedBytes s - total_of (bs_items s) l.
Lemma shrinks_same (f : store → store) : (∀ s, bs_items (f s) = bs_items s ∧ bs_usedBytes (f s) = bs_usedBytes s) → shrinks f.
Proof. intros Hf s [A1 A2 A3]. destruct (Hf s) as [E1 E2]. split_and!; [split; by rewrite ?E1, ?E2 | by rewrite E1 | intros l _; rewrite E1, E2; lia]. Qed.
Lemma size_nonneg s k : store_fine s → 0 ≤ size_of (bs_items s) k.
Proof. intros [_ _ Hs]. unfold size_of. destruct (map_get _ k) eqn:E; [|lia]. by apply (map_get_Forall _ _ _ _ Hs) in E. Qed.
Lemma total_cons items k l : total_of items (k :: l) = size_of items k + total_of items l.
Proof. done. Qed.
Lemma shrinks_touch now sha : shrinks (touch now sha).
Proof.
  intros s Hs. destruct (touch_fine now sha s Hs) as [Hf Hu]. split_and!; [done | |].
  - intros k Hk. unfold touch. destruct (map_get (bs_items s) sha) as [e|] eqn:E; [|done]. cbn [bs_items]. rewrite map_get_set. case_decide; [congruence | done].
  - intros l _. rewrite Hu. assert (∀ k, size_of (bs_items (touch now sha s)) k = size_of (bs_items s) k) as Hz.
    { intros k. unfold touch. destruct (map_get (bs_items s) sha) as [e|] eqn:E; [|done]. cbn [bs_items]. unfold size_of. rewrite map_get_set.
      case_decide; [subst; by rewrite E | done]. }
    enough (total_of (bs_items (touch now sha s)) l = total_of (bs_items s) l) by lia.
    induction l as [|k l IH]; [done |]. by rewrite !total_cons, Hz, IH.
Qed.
Lemma shrinks_remove sha : shrinks (remove sha).
Proof.
  intros s Hs. split_and!; [by apply remove_fine | intros k Hk; rewrite remove_items; by case_decide |].
  intros l Hl. rewrite remove_used by done. pose proof (size_nonneg s sha Hs) as Hp.
  assert (∀ k, size_of (bs_items (remove sha s)) k = if decide (k = sha) then 0 else size_of (bs_items s) k) as Hz
    by (intros k; unfold size_of; rewrite remove_items; by case_decide).
  assert (∀ l, sha ∉ l → total_of (bs_items (remove sha s)) l = total_of (bs_items s) l) as Hno.
  { clear -Hz. induction l as [|k l IH]; [done |]. intros [Hk Hl]%not_elem_of_cons. rewrite !total_cons, Hz, decide_False by done. by rewrite IH. }
  enough (total_of (bs_items s) l ≤ total_of (bs_items (remove sha s)) l + size_of (bs_items s) sha) by lia.
  induction l as [|k l IH]; [cbn; lia |]. apply NoDup_cons in Hl as [Hk Hl]. rewrite !total_cons, Hz. specialize (IH Hl).
  case_decide as E; [subst; rewrite (Hno l Hk); lia | lia].
Qed.

Lemma st_of_alter h f st st' l d : l = alter f st (hc_stores h) →
  st_of (h_stores l (hc_store h) d h) st' = st_of h st' ∨ st' = st ∧ st_of (h_stores l (hc_store h) d h) st' = f (st_of h st').
Proof.
  intros ->. unfold st_of. cbn. rewrite !nth_lookup, list_lookup_alter. case_decide as E; [subst | left; reflexivity].
  match goal with |- context [hc_stores h !! ?x] => destruct (hc_stores h !! x) end; [right; split; reflexivity | left; reflexivity].
Qed.
Lemma room_shrinks h f st d j w l : home_fine h → shrinks f → NoDup l → room h j w l →
  room (h_stores (alter f st (hc_stores h)) (hc_store h) d h) j w l.
Proof.
  intros Hh Hf Hl [R1 R2]. unfold room. destruct (st_of_alter h f st (jb_store j) _ d eq_refl) as [E|[E0 E]]; rewrite E; [done |]. rewrite E0 in *.
  destruct (Hf _ (st_of_fine h st Hh)) as (_ & F1 & F2). split; [by apply F1 |]. specialize (F2 l Hl). lia.
Qed.
Lemma shrinks_ok f s : shrinks f → store_ok s → store_ok (f s).
Proof. intros Hf [Hs Hu]. destruct (Hf s Hs) as (F0 & _ & F2). split; [done |]. specialize (F2 [] (NoDup_nil_2)). cbn in F2. lia. Qed.
Lemma on_store_holds st f g : shrinks f → (∀ s d, disk_ok d → disk_ok (g s d)) → holds (on_store st f g).
Proof.
  intros Hf Hg h Hh. pose proof Hh as [A1 A2 A5 A4 A3]. cbn. split; cbn.
  - by apply Hg.
  - apply Forall_alter; [done |]. intros s Hs Hfine. by apply shrinks_ok.
  - done.
  - intros st' Hst. rewrite length_alter. by apply A4.
  - intros p Hp. specialize (A3 p Hp). destruct p; cbn [point_ok] in *; unfold job_ok in *; cbn [hc_stores h_stores]; rewrite ?length_alter; [done | | | |done].
    + destruct A3 as (? & ? & ? & ? & ? & ?). split_and!; try done. by apply room_shrinks.
    + destruct A3 as (? & ? & ? & ? & ?). split_and!; try done. apply room_shrinks; [done | done | apply NoDup_nil_2 | done].
    + destruct A3 as (? & ? & ? & ? & ?). split_and!; try done. apply room_shrinks; [done | done | apply NoDup_nil_2 | done].
Qed.

Ltac aside_tac := apply holds_aside; intros ?h; split; cbn; eauto.
Lemma persist_holds st : holds (persist st).
Proof.
  intros h Hh. unfold persist. destruct (bs_dirty _); [|done]. apply run_holds; [|done]. apply holds_then; [|apply holds_do].
  apply on_store_holds; [by apply shrinks_same | done].
Qed.
Lemma removing_holds st sha : holds (removing st sha).
Proof.
  intros h Hh. unfold removing. apply run_holds; [|done]. apply holds_then; [|apply holds_do].
  apply on_store_holds; [apply shrinks_remove | intros s d; apply remove_file_ok].
Qed.
Lemma abort_holds : holds abort.
Proof. by intros h Hh. Qed.
Lemma _stopServing_holds : holds _stopServing.
Proof. intros h Hh. unfold _stopServing. apply run_holds; [|done]. apply holds_then; [aside_tac | apply holds_do]. Qed.
Lemma persist_current_holds : holds persist_current.
Proof. intros h Hh. unfold persist_current. destruct (hc_store h); [by apply persist_holds | done]. Qed.
Lemma no_current_holds : holds no_current.
Proof. aside_tac. Qed.
Lemma sync_ends_holds : holds sync_ends.
Proof. aside_tac. Qed.
Lemma report_fine now free h : home_fine h → home_fine (report now free h).1.1.
Proof.
  intros Hh. unfold report. destruct (hc_store h); [|done]. destruct (cc_enabled _); [|done]. cbn. eapply aside_fine; [|exact Hh]. split; cbn; eauto.
Qed.
Lemma reporting_holds now free : holds (reporting now free).
Proof. intros h Hh. by apply report_fine. Qed.
#[local] Hint Resolve persist_holds removing_holds abort_holds _stopServing_holds persist_current_holds no_current_holds sync_ends_holds reporting_holds holds_do holds_skip : home.
Ltac hold := repeat first
  [ solve [eauto 1 with home] | apply holds_then
  | match goal with |- holds (if ?b then _ else _) => destruct b | |- holds (match ?x with _ => _ end) => destruct x end
  | solve [aside_tac] ].

Lemma _shutdown_holds : holds _shutdown.
Proof. unfold _shutdown. hold. Qed.
Lemma stop_holds : holds stop.
Proof. intros h Hh. unfold stop. destruct (cc_enabled _); [by apply _shutdown_holds | done]. Qed.
Lemma applied_holds wasOn moved portChanged cfg tls now : holds (applied wasOn moved portChanged cfg tls now).
Proof. intros h Hh. unfold applied. destruct (negb tls); apply run_holds; try done; hold. Qed.
#[local] Hint Resolve _shutdown_holds applied_holds : home.
Lemma apply_holds cfg tls now : cc_maxBytes cfg ≤ M → holds (apply cfg tls now).
Proof. intros Hm h Hh. unfold apply. apply run_holds; [|done]. cbv zeta. hold. Qed.
Lemma opened_holds r tls now :
  (∀ idx l, r = Ok (idx, l) → folder_ok idx l ∧ ∀ dir d, bs_usedBytes (open dir now idx l d).1 ≤ M) → holds (opened r tls now).
Proof.
  intros Hr h Hh. pose proof (hf_max h Hh) as Hmax. unfold opened. destruct (hc_opening h) as [[[wasOn portChanged] cfg]|]; [|done]. cbv zeta.
  assert (home_fine (h_state (hc_state h) (hc_error h) (hc_server h) None h)) as Hh' by (eapply aside_fine; [|exact Hh]; split; cbn; eauto).
  destruct r as [[idx l]|code|]; [|apply run_holds; [hold | done]..].
  destruct (Hr idx l eq_refl) as [Hf Hu]. destruct (open _ _ _ _ _) as [s d] eqn:Eo.
  pose proof (open_fine (cc_path cfg) now idx l (hc_disk h) (hf_disk h Hh) Hf) as (F1 & _ & F2).
  specialize (Hu (cc_path cfg) (hc_disk h)). cbn [hc_disk h_state] in Eo. rewrite Eo in F1, F2, Hu. cbn in F1, F2, Hu.
  apply run_holds; [|done]. apply holds_then; [|hold; intros h1 Hh1; by apply persist_holds].
  clear -F1 F2 Hu. intros h [A1 A2 A5 A4 A3]. cbn. split; cbn; [done | apply Forall_app_2; [done | by apply Forall_singleton] | done | |].
  - intros st [= <-]. rewrite length_app. cbn. lia.
  - intros p Hp. specialize (A3 p Hp). assert (∀ j, job_ok h j → st_of (h_stores (hc_stores h ++ [s]) (Some (length (hc_stores h))) d h) (jb_store j) = st_of h (jb_store j)) as Es.
    { intros j Hj. unfold st_of. cbn. by rewrite app_nth1. }
    destruct p; cbn [point_ok] in *; unfold job_ok, room in *; cbn [hc_stores h_stores]; rewrite ?length_app; cbn [length]; [lia | | | |done];
      (destruct A3 as (? & A3); rewrite Es by done; split; [lia | done]).
Qed.
(** *** The pass *)

Lemma sync_done_holds j now free : holds (sync_done j now free).
Proof.
  unfold sync_done. apply holds_then; [by apply persist_holds |]. apply holds_then; [aside_tac |].
  destruct (jb_fetched j); [|by apply sync_ends_holds]. intros h Hh. pose proof (report_fine now free h Hh) as Hr.
  destruct (report now free h) as [[h' fx] [n|]]; cbn in Hr |- *; (eapply aside_fine; [|exact Hr]; split; cbn; eauto).
Qed.
(** The pass waits for another step of the same blob. *)
Lemma point_set h p : home_fine h → point_ok h p → home_fine (h_sync (Some p) h).
Proof. intros [A1 A2 A5 A4 A3] Hp. split; try done. intros q [= <-]. by apply (point_same h). Qed.
Lemma room_remove h j w v l : home_fine h → NoDup (v :: l) → room h j w (v :: l) → room (removing (jb_store j) v h).1 j w l.
Proof.
  intros Hh [Hv Hl]%NoDup_cons [R1 R2]. unfold removing. rewrite mthen_fst. cbn [mdo fst on_store mset].
  pose proof (st_of_fine h (jb_store j) Hh) as Hs. destruct (shrinks_remove v _ Hs) as (_ & F1 & _).
  unfold room. set (d := remove_file _ _ _). destruct (st_of_alter h (remove v) (jb_store j) (jb_store j) _ d eq_refl) as [E|[_ E]].
  - assert (st_of h (jb_store j) = remove v (st_of h (jb_store j)) ∨ size_of (bs_items (st_of h (jb_store j))) v = 0) as Hor.
    { revert E. unfold st_of. cbn. rewrite !nth_lookup, list_lookup_alter, decide_True by done.
      destruct (hc_stores h !! jb_store j); cbn; [|by right]. intros E. by left. }
    rewrite E. split; [done |]. rewrite total_cons in R2. pose proof (size_nonneg (st_of h (jb_store j)) v Hs).
    destruct Hor as [Er|Hz]; [|lia]. pose proof (remove_used v _ Hs) as Hu. rewrite <- Er in Hu. lia.
  - rewrite E. split; [by apply F1 |]. rewrite remove_used by done. rewrite total_cons in R2.
    enough (total_of (bs_items (remove v (st_of h (jb_store j)))) l = total_of (bs_items (st_of h (jb_store j))) l) by lia.
    clear -Hv. induction l as [|k l IH]; [done |]. apply not_elem_of_cons in Hv as [Hk Hl]. rewrite !total_cons, IH by done.
    unfold size_of. rewrite remove_items. by rewrite decide_False.
Qed.
Lemma job_removing h st v j : job_ok h j → job_ok (removing st v h).1 j.
Proof. unfold removing, job_ok. rewrite mthen_fst. cbn. by rewrite length_alter. Qed.
Lemma make_room_fine h j w victims todo : home_fine h → job_ok h j → jb_limit j ≤ M → want_ok w → Forall want_ok todo → NoDup victims →
  room h j w victims → home_fine (make_room j w victims todo h).1.
Proof.
  intros Hh Hj Hm Hw Ht Hn Hr. destruct victims as [|v l]; cbn [make_room].
  - unfold download. rewrite mthen_fst. by apply point_set.
  - rewrite mthen_fst. apply point_set; [by apply removing_holds |]. cbn. split_and!; try done.
    + by apply job_removing.
    + by apply NoDup_cons in Hn as [_ ?].
    + by apply room_remove.
Qed.
Lemma effectiveMax_le free h : home_fine h → effectiveMax free h ≤ M.
Proof. intros Hh. pose proof (hf_max h Hh). unfold effectiveMax. destruct free; [destruct (hc_store h)|]; lia. Qed.
Lemma next_want_fine now free : ∀ todo j h, home_fine h → job_ok h j → Forall want_ok todo → home_fine (next_want j todo now free h).1.
Proof.
  induction todo as [|w todo IH]; intros j h Hh Hj Ht; cbn [next_want]; [by apply sync_done_holds |]. inv Ht.
  destruct (_ || _); [by apply sync_done_holds |]. destruct (map_has _ _) eqn:Eh; [by apply IH |]. cbv zeta.
  destruct (_ <? _); [by apply IH |]. destruct (makeRoom _ _ _ _) as [v|] eqn:Em; [|by apply IH].
  apply makeRoom_spec in Em as (K1 & K2 & _); [|by apply st_of_fine].
  apply make_room_fine; try done; [by apply effectiveMax_le |]. split; [|exact K1].
  cbn. unfold map_has in Eh. by destruct (map_get _ _).
Qed.
Lemma next_want_holds j todo now free h : home_fine h → job_ok h j → Forall want_ok todo → home_fine (next_want j todo now free h).1.
Proof. apply next_want_fine. Qed.
Lemma gone_holds : holds gone.
Proof.
  intros h Hh. unfold gone. destruct (hc_sync h) as [[]|] eqn:E; try done. pose proof (hf_sync h Hh _ E) as (? & ? & ? & ? & ? & ?).
  by apply make_room_fine.
Qed.
Lemma sync_holds now : holds (sync now).
Proof.
  intros h Hh. unfold sync. destruct (hc_sync h); [done |]. destruct (hc_store h) as [st|] eqn:Es; [|done]. destruct (cc_enabled _); [|done].
  rewrite !mthen_fst. cbn [mdo mset fst]. apply point_set.
  - eapply aside_fine; [|exact Hh]. split; cbn; eauto.
  - cbn. by apply (hf_store h Hh).
Qed.

Lemma want_of_ok x w : want_of x = Some w → want_ok w.
Proof.
  unfold want_of. destruct x; try done. cbv zeta. destruct (field _ _) as [[| |[]| | |]|]; try done. destruct (field _ _) as [[]|]; try done.
  destruct (_ && _) eqn:E; [|done]. intros [= <-]. rewrite !andb_true_iff in E. destruct E as ((((? & ?) & ?) & ?) & ?).
  split; cbn; [done | lia].
Qed.
Lemma parseWant_ok data l : parseWant data = Some l → Forall want_ok l.
Proof.
  unfold parseWant. destruct (want_list data) as [xs|]; [|done]. cbn. intros [= <-]. generalize (take (Z.to_nat MAX_WANT_ITEMS) xs). clear.
  intros xs. match goal with |- context [foldl ?f [] _] => set (g := f) end. assert (Forall want_ok []) as H0 by constructor. revert H0. generalize (@nil want). induction xs as [|x xs IH]; intros out Ho; [done |].
  cbn [foldl]. apply IH. subst g. cbn. destruct (want_of x) as [w|] eqn:E; [|done]. case_bool_decide; [done |]. apply Forall_app_2; [done |].
  apply Forall_singleton. by eapply want_of_ok.
Qed.
Lemma wanted_wants kinds l : Forall want_ok l → Forall want_ok (wanted kinds l).
Proof.
  intros Hl. unfold wanted. assert (∀ a l, want_ok a → Forall want_ok l → Forall want_ok (insert_want a l)) as Hi.
  { clear. intros a l Ha. induction 1 as [|b l Hb Hl IH]; cbn; [by apply Forall_singleton |]. destruct (num_lt _ _); by rewrite !Forall_cons. }
  induction Hl as [|w l Hw Hl IH]; [constructor |]. cbn [List.filter]. destruct (map_get kinds (wa_kind w)) as [[]|]; [|done..].
  cbn [foldr]. by apply Hi.
Qed.
Lemma want_done_holds r now free : holds (want_done r now free).
Proof.
  intros h Hh. pose proof (hf_max h Hh) as Hmax. unfold want_done. destruct (hc_sync h) as [[st| | | |]|] eqn:E; try done. pose proof (hf_sync h Hh _ E) as Hst. cbn in Hst.
  destruct (match r with Ok _ => _ | Throw _ => _ | NoFuel => _ end) as [all|code|] eqn:Er; [|apply run_holds; [hold | done] | done].
  - cbv zeta. rewrite mthen_fst. apply next_want_fine.
    + eapply aside_fine; [|exact Hh]. split; cbn; eauto.
    + done.
    + apply wanted_wants. destruct r as [data|?|]; try done. destruct (parseWant data) eqn:Ep; [|done]. injection Er as <-. by eapply parseWant_ok.
Qed.

Lemma failed_fine j w todo code now free h : home_fine h → job_ok h j → Forall want_ok todo → home_fine (failed j w todo code now free h).1.
Proof. intros Hh Hj Ht. unfold failed. cbv zeta. destruct (_ <=? _)%nat; [by apply sync_done_holds | by apply next_want_fine]. Qed.
Lemma part_name_not sha : SHA_RE sha = true → SHA_RE (part_name sha) = false.
Proof.
  unfold SHA_RE, part_name. rewrite length_app. intros [E%Nat.eqb_eq _]%andb_true_iff. by rewrite E.
Qed.
Lemma set_file_ok d k c : disk_ok d → (SHA_RE k.2 = true → ∀ x, c = Some x → hex (sha256 x) = k.2) → disk_ok (set_file d k c).
Proof.
  intros Hd Hc. unfold set_file. destruct c as [x|]; [|by apply disk_delete]. intros dir sha y. rewrite map_get_set.
  case_decide as E; [|by apply Hd]. intros [= <-]. subst. intros Hs. by apply (Hc Hs).
Qed.
(** Other files; the pass is where it was. *)
Lemma files_fine h d : home_fine h → disk_ok d → home_fine (h_stores (hc_stores h) (hc_store h) d h).
Proof. by intros [A1 A2 A5 A4 A3] Hd. Qed.
Lemma blob_done_holds a rename now free : holds (blob_done a rename now free).
Proof.
  intros h Hh. unfold blob_done. destruct (hc_sync h) as [[| |j w todo| |]|] eqn:Ep; try done.
  pose proof (hf_sync h Hh _ Ep) as (Hj & Hm & [Hsha Hsize] & Ht & Hr). cbv zeta. set (key := (_, part_name _)).
  destruct (blob _ _ _ _) as [part r] eqn:Eb.
  assert (disk_ok (set_file (hc_disk h) key part)) as Hd.
  { apply set_file_ok; [apply (hf_disk h Hh) |]. subst key. cbn. rewrite part_name_not by done. done. }
  rewrite mthen_fst. pose proof (files_fine h _ Hh Hd) as Hh1. cbn [mset fst]. set (h1 := h_stores _ _ _ h) in *.
  destruct r as [n|code|]; [|destruct (String.eqb code "aborted"); [by apply sync_done_holds | by apply failed_fine] | done].
  apply blob_ok in Eb as (c & -> & _ & Hhash); [|done]. rewrite mthen_fst. cbn [mset fst]. set (h2 := h_counters _ _ h1).
  assert (home_fine h2) as Hh2 by (eapply aside_fine; [|exact Hh1]; split; cbn; eauto).
  destruct rename as [code|]; [by apply failed_fine |]. rewrite !mthen_fst. cbn [mset mdo fst].
  apply point_set.
  - apply files_fine; [done |]. apply set_file_ok; [apply disk_delete, (hf_disk _ Hh2) |]. cbn. by intros _ x [= <-].
  - by apply (point_same h).
Qed.
Lemma renamed_holds now free : holds (renamed now free).
Proof.
  intros h Hh. unfold renamed. destruct (hc_sync h) as [[| | |j w todo n|]|] eqn:Ep; try done.
  pose proof (hf_sync h Hh _ Ep) as (Hj & Hm & [Hsha Hsize] & Ht & [R1 R2]). rewrite !mthen_fst. apply next_want_fine; [|cbn; unfold job_ok; cbn; by rewrite length_alter | done].
  pose proof Hh as [A1 A2 A5 A4 A3]. cbn. split; cbn; [done | | done | | done].
  - apply Forall_lookup_2. intros i s. rewrite list_lookup_alter. case_decide as E; [subst i|by apply Forall_lookup_1].
    destruct (hc_stores h !! jb_store j) as [s0|] eqn:Es; [|done]. intros [= <-].
    assert (st_of h (jb_store j) = s0) as E0 by (unfold st_of; by rewrite nth_lookup, Es). rewrite E0 in *.
    assert (store_ok s0) as [Hs Hu] by (eapply Forall_lookup_1; [exact A2 | exact Es]).
    split; [apply committed_fine; [lia | done] |]. rewrite committed_used by done. cbn in R2. lia.
  - intros st Hst. rewrite length_alter. by apply A4.
Qed.

(** *** Reports, emptying, answers *)

Lemma told_shrinks r : shrinks (told r).
Proof. apply shrinks_same. intros s. unfold told. by destruct (rn_full r). Qed.
Lemma report_ends_holds n r b : holds (report_ends n r b).
Proof.
  intros h Hh. unfold report_ends. apply run_holds; [|done]. hold. apply on_store_holds; [apply told_shrinks | done].
Qed.
Lemma posted_holds n b free : holds (posted n b free).
Proof.
  intros h Hh. unfold posted. destruct (map_get (hc_runs h) n) as [r|]; [|done]. destruct b.
  - destruct (_ <? _)%nat; [|by apply report_ends_holds]. cbv zeta. cbn. eapply aside_fine; [|exact Hh]. split; cbn; eauto.
  - apply run_holds; [|done]. apply holds_then; [hold | apply report_ends_holds].
Qed.
Lemma map_get_filter (f : jstr * jstr → bool) (d : disk) k : map_get (List.filter (λ e, f e.1) d) k = if f k then map_get d k else None.
Proof.
  induction d as [|[k' c] d IH]; [by destruct (f k) |]. cbn [List.filter fst]. destruct (f k') eqn:E.
  - cbn [map_get]. case_decide; [subst; by rewrite E | done].
  - rewrite IH. destruct (f k) eqn:Ek; [|done]. cbn [map_get]. case_decide; [congruence | done].
Qed.
Lemma clear_next_holds n st todo now free : holds (clear_next n st todo now free).
Proof.
  destruct todo as [|sha todo]; cbn [clear_next]; hold. apply on_store_holds; [by apply shrinks_same |].
  intros s d Hd dir sha c Hg.
  pose proof (eq_trans (eq_sym (map_get_filter (λ k, negb (bool_decide (k.1 = bs_dir s) && PART_RE k.2)) d (dir, sha))) Hg) as E.
  revert E. cbv beta. destruct (negb _); [apply Hd | done].
Qed.
Lemma clear_holds now free : holds (clear_ now free).
Proof.
  intros h Hh. unfold clear_. destruct (hc_store h) as [st|]; [|done]. destruct (cc_enabled _); [|done]. cbv zeta.
  apply run_holds; [|done]. hold. apply clear_next_holds.
Qed.
Lemma cleared_holds n now free : holds (cleared n now free).
Proof. intros h Hh. unfold cleared. destruct (map_get _ _) as [[st todo]|]; [by apply clear_next_holds | done]. Qed.
Lemma serve_holds q now : holds (serve q now).
Proof.
  intros h Hh. unfold serve. destruct (hc_server h); [|done]. destruct (handle _ _ _ _ _) as [[r c] t]. apply run_holds; [|done].
  hold. apply on_store_holds; [apply shrinks_touch | done].
Qed.

(** Folders hold what the index of the program says, and no more than [M]. *)
Definition input_ok (i : home_input) : Prop :=
  match i with
  | Apply cfg _ _ => cc_maxBytes cfg ≤ M
  | Opened (Ok (idx, l)) _ now => folder_ok idx l ∧ ∀ dir d, bs_usedBytes (open dir now idx l d).1 ≤ M
  | _ => True
  end.
Lemma step_fine i h : input_ok i → home_fine h → home_fine (home_step i h).1.
Proof.
  intros Hi Hh. destruct i; cbn [home_step].
  - destruct (hc_opening h); [done | by apply apply_holds].
  - apply opened_holds; [|done]. intros idx l ->. apply Hi.
  - by apply stop_holds.
  - by apply sync_holds.
  - by apply want_done_holds.
  - by apply gone_holds.
  - by apply blob_done_holds.
  - by apply renamed_holds.
  - by apply reporting_holds.
  - by apply posted_holds.
  - by apply clear_holds.
  - by apply cleared_holds.
  - by apply serve_holds.
Qed.
Lemma run_fine now inputs : Forall input_ok inputs → home_fine (mrun home_step inputs (newHome now [])).1.
Proof.
  intros Hi. assert (home_fine (newHome now [])) as Hnew by (split; cbn; [intros ? | constructor | | |]; done).
  revert Hnew. generalize (newHome now []). induction Hi as [|i is_ Hi His IH]; intros h Hh; [done |]. cbn [mrun].
  pose proof (step_fine i h Hi Hh) as Hs. destruct (home_step i h) as [h' fx]. cbn in Hs. specialize (IH h' Hs). by destruct (mrun _ _ _).
Qed.
(** *** What a client gets *)

Lemma starts_with_drop p : ∀ s, starts_with p s = true → s = p ++ drop (length p) s.
Proof.
  induction p as [|a p IH]; intros s; [done |]. destruct s as [|b s]; [done |]. cbn [starts_with].
  intros [->%Z.eqb_eq Hp]%andb_true_iff. cbn. f_equal. by apply IH.
Qed.
Lemma handle_blob secret s d now q code len span etag body c t :
  handle secret s d now q = (Blob code len span etag body, c, t) →
  ∃ path params s0 content, request_url (rq_url q) = Some (path, params) ∧ path = js "/blob/" ++ etag ∧ SHA_RE etag = true ∧
    verify secret etag (map_get params (js "exp")) (map_get params (js "sig")) now = "ok"%string ∧
    s = Some s0 ∧ map_get d (bs_dir s0, etag) = Some content ∧ t = Some etag ∧
    (rq_method q = js "HEAD" ∧ body = [] ∨ rq_method q = js "GET" ∧
     (code = 200 ∧ span = None ∧ body = content ∨
      ∃ a b, code = 206 ∧ span = Some (a, b, blen content) ∧ 0 ≤ a ∧ a ≤ b ∧ b < blen content ∧ body = subarray content a (b + 1))).
Proof.
  unfold handle. cbv zeta. destruct (negb _ && negb _) eqn:Em; [done |].
  destruct (request_url (rq_url q)) as [[path params]|] eqn:Eu; [|done]. destruct (PATH_RE path) as [sha|] eqn:Ep; [|done].
  destruct (String.eqb_spec (verify secret sha (map_get params (js "exp")) (map_get params (js "sig")) now) "ok") as [Ev|]; [|done]. cbn [negb].
  destruct s as [s0|]; [|done]. destruct (if map_has _ _ then _ else _) as [content|] eqn:Ec; [|done].
  assert (map_get d (bs_dir s0, sha) = Some content) as Hc by (by destruct (map_has _ _)).
  assert (path = js "/blob/" ++ sha ∧ SHA_RE sha = true) as [Hp Hs].
  { unfold PATH_RE in Ep. destruct (starts_with _ _ && _) eqn:E; [|done]. apply andb_true_iff in E as [E1 E2]. injection Ep as <-. split; [|done].
    by apply starts_with_drop in E1. }
  assert (rq_method q = js "HEAD" ∨ rq_method q = js "GET" ∧ rq_method q ≠ js "HEAD") as Hm.
  { do 2 case_bool_decide; first [done | by left | by right]. }
  destruct (parseRange (rq_range q) (blen content)) as [| |a b] eqn:Er; [|done|].
  - intros [= <- <- <- <- <- <- <-]. exists path, params, s0, content. split_and!; try done.
    destruct Hm as [->|[-> Hm]]; [left; by rewrite bool_decide_true | right; rewrite bool_decide_false by done; split; [done |]; by left].
  - apply parseRange_span in Er as (Ha & Hab & Hb); [|unfold blen; lia]. intros [= <- <- <- <- <- <- <-]. exists path, params, s0, content. split_and!; try done.
    destruct Hm as [->|[-> Hm]]; [left; by rewrite bool_decide_true | right; rewrite bool_decide_false by done; split; [done |]].
    right. exists a, b. assert ((blen content =? 0) = false) as -> by lia. by split_and!.
Qed.

Lemma in_disk h s name content : home_fine h → map_get (hc_disk h) (bs_dir s, name) = Some content → SHA_RE name = true → hex (sha256 content) = name.
Proof. intros Hh. apply (hf_disk h Hh). Qed.
End Facts.

Section Properties.
Context `{Unicode} `{Node} `{Urls}.

(** C20: what the cache gives to a client of the LAN was asked for with a
    signature of the server that is right and has not run out; it is a file of
    the folder in use whose hash is the name that was asked for, whole or the
    span that the answer says - whatever was downloaded, removed, emptied or
    opened before, in any order, if a folder holds under the sizes of its
    index what the program put there. *)
Theorem cache_serves M now inputs q t code len span etag body : 0 ≤ M → Forall (input_ok M) inputs →
  let h := (mrun home_step inputs (newHome now [])).1 in
  Answer (Blob code len span etag body) ∈ (serve q t h).2 →
  ∃ path params k e g st content,
    request_url (rq_url q) = Some (path, params) ∧ path = js "/blob/" ++ etag ∧
    cc_secret (hc_cfg h) = Some k ∧ k ≠ [] ∧ map_get params (js "exp") = Some e ∧ map_get params (js "sig") = Some g ∧
    t / 1000 ≤ digits_value e ≤ t / 1000 + 660 ∧ lower_unit <$> g = sign k etag e ∧
    hc_store h = Some st ∧ map_get (hc_disk h) (bs_dir (st_of h st), etag) = Some content ∧ hex (sha256 content) = etag ∧
    (rq_method q = js "HEAD" ∧ body = [] ∨ rq_method q = js "GET" ∧
     (code = 200 ∧ span = None ∧ body = content ∨
      ∃ a b, code = 206 ∧ span = Some (a, b, blen content) ∧ 0 ≤ a ∧ a ≤ b ∧ b < blen content ∧ body = subarray content a (b + 1))).
Proof.
  intros HM Hi h. pose proof (run_fine M HM now inputs Hi) as Hh. fold h in Hh. unfold serve.
  destruct (hc_server h); [|intros ?%elem_of_nil; done]. destruct (handle _ _ _ _ _) as [[r c] touched] eqn:Eh.
  rewrite !mthen_snd. cbn [mset mdo snd app]. intros Hin.
  assert (r = Blob code len span etag body) as -> by (destruct touched, (hc_store h); cbn in Hin; set_solver).
  apply handle_blob in Eh as (path & params & s0 & content & Hu & Hp & Hs & Hv & Hst & Hd & _ & Hb).
  destruct (hc_store h) as [st|] eqn:Es; [|done]. injection Hst as <-.
  apply verify_ok in Hv as (k & e & g & Hk & Hk0 & He & Hg & _ & _ & _ & Ht & Hsig).
  exists path, params, k, e, g, st, content. split_and!; try done; [lia | lia |]. by eapply in_disk.
Qed.

(** C21: every store counts exactly the bytes of its items; and when no
    settings ever allowed more than M bytes and no folder held more when it
    was opened, no store ever holds more: there is room for a blob before it
    is stored, also when other things happened while it was fetched. *)
Theorem cache_bounded M now inputs : 0 ≤ M → Forall (input_ok M) inputs →
  let h := (mrun home_step inputs (newHome now [])).1 in
  Forall (λ s, map_ok (bs_items s) ∧ bs_usedBytes s = sizes (bs_items s) ∧ 0 ≤ bs_usedBytes s ≤ M) (hc_stores h) ∧
  ∀ j w todo n, hc_sync h = Some (AtCommit j w todo n) →
    let s := st_of h (jb_store j) in
    bs_usedBytes s + wa_size w ≤ M ∧ bs_usedBytes (committed (NInt now) (wa_sha w) (wa_size w) (wa_kind w) s) = bs_usedBytes s + wa_size w.
Proof.
  intros HM Hi h. pose proof (run_fine M HM now inputs Hi) as Hh. fold h in Hh. split.
  - eapply Forall_impl; [apply (hf_stores _ _ Hh)|]. intros s [[Hm Hu Hs] Hle]. split_and!; try done. rewrite Hu. clear -Hs.
    unfold sizes, map_sum. induction Hs as [|[k i] l Hi Hl IH]; cbn [foldr snd] in *; lia.
  - intros j w todo n Hp s. pose proof (hf_sync _ _ Hh _ Hp) as (_ & Hl & _ & _ & [R1 R2]). fold s in R1, R2. cbn in R2. split; [lia |].
    apply committed_used; [|done]. by apply (st_of_fine M).
Qed.
End Properties.

(** A folder with one blob; settings that allow 10 bytes. *)
Definition sample_node : Node := toy_node (λ _, None).
Definition sample_urls : Urls := {|
  request_url := λ s, match split_on 63 s with [p; g] => Some (p, [(js "exp", js "100"); (js "sig", g)]) | _ => Some (s, []) end |}.
Definition sample_bytes : list Z := [1; 2; 3].
Definition sample_sha : jstr := hex (pad32 sample_bytes).
Definition sample_cfg : cache_cfg := CacheCfg true true None (js "/cache") 10 [(js "drive", true)] (Some (js "k")) 8443.
Definition sample_start : list home_input :=
  [Apply sample_cfg true 0; Opened (Ok (JObj [], [DirEntry sample_sha (Some sample_bytes) (NInt 0)])) true 0].
Definition sample_ask : request :=
  Request (js "GET") (js "/blob/" ++ sample_sha ++ 63 :: sign (H := sample_node) (js "k") sample_sha (js "100")) (Some (js "bytes=1-")).
Lemma sample_start_ok : Forall (input_ok (H0 := sample_node) 10) sample_start.
Proof.
  apply Forall_cons_2; [vm_compute; discriminate | apply Forall_singleton]. split.
  - apply Forall_singleton. intros c [= <-] _ _. reflexivity.
  - intros dir d. vm_compute. discriminate.
Qed.

Lemma cache_serves_witness : let U := ascii_unicode in let N := sample_node in let L := sample_urls in
  let h := (mrun home_step sample_start (newHome 0 [])).1 in
  (serve sample_ask 50000 h).2 = [Answer (Blob 206 2 (Some (1, 2, 3)) sample_sha [2; 3])] ∧
  ∃ st content, hc_store h = Some st ∧ map_get (hc_disk h) (bs_dir (st_of h st), sample_sha) = Some content ∧ hex (sha256 content) = sample_sha.
Proof.
  intros U N L h. assert ((serve sample_ask 50000 h).2 = [Answer (Blob 206 2 (Some (1, 2, 3)) sample_sha [2; 3])]) as E by (vm_compute; reflexivity).
  split; [exact E |].
  destruct (cache_serves (H := U) (H0 := N) (H1 := L) 10 0 sample_start sample_ask 50000 206 2 (Some (1, 2, 3)) sample_sha [2; 3]
    ltac:(lia) sample_start_ok) as (_ & _ & _ & _ & _ & st & content & _ & _ & _ & _ & _ & _ & _ & _ & Hst & Hc & Hh & _).
  { fold h. rewrite E. by apply list_elem_of_singleton. }
  exists st, content. split; [exact Hst |]. split; [exact Hc | exact Hh].
Defined.

(** A second blob is fetched while the first is there. *)
Definition second_bytes : list Z := [4; 5].
Definition second_sha : jstr := hex (pad32 second_bytes).
Definition third_sha : jstr := hex (pad32 [6]).
Definition want_json (sha : jstr) (size : Z) : json :=
  JObj [(js "sha256", JStr sha); (js "size", JNum (NInt size)); (js "kind", JStr (js "drive")); (js "priority", JNum (NInt size))].
Definition sample_list : json := JArr [want_json second_sha 2; want_json third_sha 1].
Definition answered (b : list Z) : res CacheStore.download := Ok (Download 200 None None [b] Finished 0).
Lemma cache_bounded_witness : let U := ascii_unicode in let N := sample_node in let L := sample_urls in
  let inputs := sample_start ++ [Sync 1; WantDone (Ok sample_list) 2 None; BlobDone (answered second_bytes) None 3 None] in
  let h := (mrun home_step inputs (newHome 0 [])).1 in
  (∃ j w todo n, hc_sync h = Some (AtCommit j w todo n) ∧ wa_sha w = second_sha) ∧
  Forall (λ s, map_ok (bs_items s) ∧ bs_usedBytes s = sizes (bs_items s) ∧ 0 ≤ bs_usedBytes s ≤ 10) (hc_stores h).
Proof.
  intros U N L inputs h. split.
  - eexists _, _, _, _. split; vm_compute; reflexivity.
  - apply (cache_bounded (H := U) (H0 := N) (H1 := L) 10 0 inputs); [lia |].
    apply Forall_app_2; [exact sample_start_ok | apply Forall_cons_2; [done | apply Forall_cons_2; [done | by apply Forall_singleton]]].
Defined.

(** A folder that could not be opened, and other settings with the same path:
    the cache says that it runs, and has no store. *)
Lemma running_without_store : let U := ascii_unicode in let N := sample_node in let L := sample_urls in
  let h := (mrun home_step [Apply sample_cfg true 0; Opened (Throw "EACCES") true 1; Apply sample_cfg true 2] (newHome 0 [])).1 in
  hc_state h = "running"%string ∧ hc_store h = None ∧ hc_server h = Some 8443 ∧ hc_opening h = None.
Proof. vm_compute. repeat split. Qed.

(** A blob that was stored while a full report was under way is in no report
    before the next full one: the report of the pass names the other blob only. *)
Definition told_inputs : list home_input :=
  sample_start ++ [Sync 1; WantDone (Ok sample_list) 2 None; BlobDone (answered second_bytes) None 3 None; ReportTick 4 None; Renamed 5 None;
                   Posted 0 true None; BlobDone (answered [6]) None 6 None].
Lemma report_forgets : let U := ascii_unicode in let N := sample_node in let L := sample_urls in
  let h := (mrun home_step told_inputs (newHome 0 [])).1 in
  (∃ i, map_get (bs_items (st_of h 0)) second_sha = Some i) ∧ bs_added (st_of h 0) = [] ∧ hc_needFull h = false ∧
  (∃ b, (home_step (Renamed 7 None) h).2 = [SaveIndex (js "/cache"); PostReport 1 b] ∧ bd_full b = false ∧ bd_have b = [third_sha]) ∧
  forallb (λ x, match x with PostReport _ b => negb (bool_decide (second_sha ∈ bd_have b)) | _ => true end)
    (concat (mrun home_step told_inputs (newHome 0 [])).2.*2) = true.
Proof.
  cbv zeta. split; [eexists; vm_compute; reflexivity |]. split; [vm_compute; reflexivity |]. split; [vm_compute; reflexivity |].
  split; [eexists; split; [vm_compute; reflexivity | split; vm_compute; reflexivity] |].
  vm_compute. reflexivity.
Qed.
