(* ===== verification/InetService.v ===== *)
(** * src/inetq/inetq.js, with the plan of src/features/schedule.js

    The service that measures the connection: the values it keeps until the
    server took them, the file they survive a restart in, measurements, speed
    tests and reports, whose waits are inputs.  The parts of the aggregation
    are those of Inetq; the clock stands still within a turn. *)

From S2P Require Import Prelude JsFloat JsMap JsValues FeatureStatus Inetq Machine.

Local Open Scope Z_scope.

(** ** schedule.js *)

(** [Date] in the time zone of the process: [atLocal], and the time with
    other minutes and no seconds. *)
Class LocalClock := { atLocal : Z → Z → Z → Z → Z; atMinute : Z → Z → Z }.

Definition HOUR_MS : Z := 3600000.
(** [while (t <= fromMs) t += 3600_000] *)
Definition advance (t fromMs : Z) : Z := if t <=? fromMs then t + ((fromMs - t) / HOUR_MS + 1) * HOUR_MS else t.

Section Schedule.
Context `{LocalClock}.

(** [m]: the minute of chance. *)
Definition nextSpeedtest (plan : jstr) (fromMs m : Z) : option Z :=
  if bool_decide (plan = js "hourly") then Some (advance (atMinute fromMs m) fromMs)
  else if bool_decide (plan = js "4x") then
    head (List.filter (λ t, fromMs <? t) (day ← [0; 1]; h ← [0; 6; 12; 18]; [atLocal fromMs day h m]))
  else None.
Definition nextNightly (fromMs m startHour : Z) : Z :=
  let today := atLocal fromMs 0 startHour m in if fromMs <? today then today else atLocal fromMs 1 startHour m.
End Schedule.

(** ** The service *)

Definition MAX_SAMPLES : nat := Z.to_nat 2016.
Definition MAX_OUTAGES : nat := 200.
Definition MAX_SPEEDTESTS : nat := 50.
Definition SAMPLES_PER_REPORT : nat := Z.to_nat 600.
Definition RETRY_MS : Z := 60000.

#[export] Instance cause_eq_dec : EqDecision cause.
Proof. solve_decision. Defined.
#[export] Instance outage_eq_dec : EqDecision outage.
Proof. solve_decision. Defined.

(** A speed test: an object, told apart by its number. *)
Record speedtest := Speedtest { sp_id : nat; sp_at : Z; sp_down : option f64; sp_up : option f64; sp_bytes : Z; sp_error : option jstr }.
Record inet_cfg := InetCfg { ic_enabled : bool; ic_speedtest : jstr; ic_targets : list jstr }.
(** What is sent and may be forgotten when it arrived. *)
Record parcel := Parcel { pa_samples : list interval; pa_outages : list outage; pa_speedtests : list speedtest }.
(** The file: [inetq-buffer.json], as the program writes it. *)
Record saved := Saved { sa_parcel : parcel; sa_open : option open_outage; sa_lastSpeedtest : option speedtest }.

Record inet := Inet {
  iq_cfg : inet_cfg; iq_status : feature_status; iq_agg : option bucket; iq_detector : detector;
  iq_samples : list interval; iq_outages : list (Z * outage); iq_speedtests : list speedtest;
  iq_loaded : bool; iq_dirty : bool; iq_file : option saved;
  iq_last : option measurement; iq_lastSpeedtest : option speedtest; iq_nextSpeedtestAt : option Z; iq_speedtestRunning : bool;
  iq_reporting : option parcel; iq_lastReportTryAt : Z; iq_lastReportAt : option Z; iq_reportError : option (Z * jstr);
  iq_ticks : list (nat * Z); iq_count : nat }.

Definition newInet (file : option saved) : inet :=
  Inet (InetCfg false (js "off") []) status_new None detector_new [] [] [] false false file None None None false None 0 None None [] 0.

(** The last four say what comes into the buffers and what is forgotten because it arrived. *)
Inductive inet_effect :=
  | Measure (n : nat) (targets : list jstr) | RunSpeedtest | PostInet (p : parcel) | WriteFile | StartLoop (ms : Z) | StopLoop
  | TookSample (s : interval) | TookOutage (o : outage) | TookTest (t : speedtest) | Delivered (p : parcel).
Abbreviation qop := (mop inet inet_effect).

Definition q_cfg (c : inet_cfg) (s : feature_status) (at_ : option Z) (q : inet) : inet :=
  Inet c s (iq_agg q) (iq_detector q) (iq_samples q) (iq_outages q) (iq_speedtests q) (iq_loaded q) (iq_dirty q) (iq_file q)
    (iq_last q) (iq_lastSpeedtest q) at_ (iq_speedtestRunning q) (iq_reporting q) (iq_lastReportTryAt q) (iq_lastReportAt q) (iq_reportError q)
    (iq_ticks q) (iq_count q).
Definition q_measured (a : option bucket) (d : detector) (m : option measurement) (q : inet) : inet :=
  Inet (iq_cfg q) (iq_status q) a d (iq_samples q) (iq_outages q) (iq_speedtests q) (iq_loaded q) (iq_dirty q) (iq_file q)
    m (iq_lastSpeedtest q) (iq_nextSpeedtestAt q) (iq_speedtestRunning q) (iq_reporting q) (iq_lastReportTryAt q) (iq_lastReportAt q) (iq_reportError q)
    (iq_ticks q) (iq_count q).
Definition q_kept (l : list interval) (o : list (Z * outage)) (t : list speedtest) (q : inet) : inet :=
  Inet (iq_cfg q) (iq_status q) (iq_agg q) (iq_detector q) l o t (iq_loaded q) true (iq_file q)
    (iq_last q) (iq_lastSpeedtest q) (iq_nextSpeedtestAt q) (iq_speedtestRunning q) (iq_reporting q) (iq_lastReportTryAt q) (iq_lastReportAt q) (iq_reportError q)
    (iq_ticks q) (iq_count q).
Definition q_file (loaded dirty : bool) (f : option saved) (q : inet) : inet :=
  Inet (iq_cfg q) (iq_status q) (iq_agg q) (iq_detector q) (iq_samples q) (iq_outages q) (iq_speedtests q) loaded dirty f
    (iq_last q) (iq_lastSpeedtest q) (iq_nextSpeedtestAt q) (iq_speedtestRunning q) (iq_reporting q) (iq_lastReportTryAt q) (iq_lastReportAt q) (iq_reportError q)
    (iq_ticks q) (iq_count q).
Definition q_test (t : option speedtest) (running : bool) (n : nat) (q : inet) : inet :=
  Inet (iq_cfg q) (iq_status q) (iq_agg q) (iq_detector q) (iq_samples q) (iq_outages q) (iq_speedtests q) (iq_loaded q) (iq_dirty q) (iq_file q)
    (iq_last q) t (iq_nextSpeedtestAt q) running (iq_reporting q) (iq_lastReportTryAt q) (iq_lastReportAt q) (iq_reportError q)
    (iq_ticks q) n.
Definition q_report (r : option parcel) (try_ : Z) (at_ : option Z) (e : option (Z * jstr)) (q : inet) : inet :=
  Inet (iq_cfg q) (iq_status q) (iq_agg q) (iq_detector q) (iq_samples q) (iq_outages q) (iq_speedtests q) (iq_loaded q) (iq_dirty q) (iq_file q)
    (iq_last q) (iq_lastSpeedtest q) (iq_nextSpeedtestAt q) (iq_speedtestRunning q) r try_ at_ e
    (iq_ticks q) (iq_count q).
Definition q_ticks (l : list (nat * Z)) (n : nat) (q : inet) : inet :=
  Inet (iq_cfg q) (iq_status q) (iq_agg q) (iq_detector q) (iq_samples q) (iq_outages q) (iq_speedtests q) (iq_loaded q) (iq_dirty q) (iq_file q)
    (iq_last q) (iq_lastSpeedtest q) (iq_nextSpeedtestAt q) (iq_speedtestRunning q) (iq_reporting q) (iq_lastReportTryAt q) (iq_lastReportAt q) (iq_reportError q)
    l n.
Definition q_status (f : feature_status → feature_status) (q : inet) : inet :=
  q_cfg (iq_cfg q) (f (iq_status q)) (iq_nextSpeedtestAt q) q.

(** *** What is kept *)

(** [push], then the oldest go: with [splice] or with [shift]. *)
Definition push_max {A} (max : nat) (l : list A) (x : A) : list A := drop (length (l ++ [x]) - max) (l ++ [x]).
Definition last_of {A} (max : nat) (l : list A) : list A := drop (length l - max) l.
Definition evict_oldest (m : list (Z * outage)) : list (Z * outage) :=
  if (MAX_OUTAGES <? length m)%nat then tail m else m.

Definition _addSample (s : option interval) : qop :=
  match s with
  | Some s => mset (λ q, q_kept (push_max MAX_SAMPLES (iq_samples q) s) (iq_outages q) (iq_speedtests q) q) ⨾ mdo [TookSample s]
  | None => mskip
  end.
Definition _addOutage (o : option outage) : qop :=
  match o with
  | Some o => mset (λ q, q_kept (iq_samples q) (evict_oldest (map_set (iq_outages q) (ou_start o) o)) (iq_speedtests q) q) ⨾ mdo [TookOutage o]
  | None => mskip
  end.
Definition add_speedtest (t : speedtest) : qop :=
  mset (λ q, q_kept (iq_samples q) (iq_outages q) (push_max MAX_SPEEDTESTS (iq_speedtests q) t) q) ⨾ mdo [TookTest t].

(** The objects of the file get new numbers. *)
Definition renumber (n : nat) (l : list speedtest) : list speedtest :=
  imap (λ i t, Speedtest (n + i) (sp_at t) (sp_down t) (sp_up t) (sp_bytes t) (sp_error t)) l.
Definition as_detector (o : open_outage) : detector := detector_of (oo_start o) (is_router (oo_cause o)) (Some (oo_lastDownAt o)).
Definition load_kept (p : parcel) : qop := λ q,
  let samples := last_of MAX_SAMPLES (pa_samples p) in
  let outages := last_of MAX_OUTAGES (pa_outages p) in
  let tests := renumber (iq_count q) (last_of MAX_SPEEDTESTS (pa_speedtests p)) in
  (mset (λ q, q_test (iq_lastSpeedtest q) (iq_speedtestRunning q) (iq_count q + length tests)
                (q_kept samples (foldl (λ m o, map_set m (ou_start o) o) (iq_outages q) outages) tests q))
   ⨾ mdo ((TookSample <$> samples) ++ (TookOutage <$> outages) ++ (TookTest <$> tests))) q.
Definition _load : qop := λ q,
  if iq_loaded q then (q, [])
  else
    (mset (λ q, q_file true (iq_dirty q) (iq_file q) q)
     ⨾ match iq_file q with
       | None => mskip
       | Some f =>
           load_kept (sa_parcel f)
           ⨾ mset (q_file true (iq_dirty q) (iq_file q))
           ⨾ mset (λ q, match sa_open f with Some o => q_measured (iq_agg q) (as_detector o) (iq_last q) q | None => q end)
           ⨾ mset (λ q, match sa_lastSpeedtest f with Some t => q_test (Some t) (iq_speedtestRunning q) (iq_count q) q | None => q end)
       end) q.
Definition to_save (q : inet) : saved :=
  Saved (Parcel (iq_samples q) (iq_outages q).*2 (iq_speedtests q)) (de_open (iq_detector q)) (iq_lastSpeedtest q).
(** [ok]: the file could be written. *)
Definition _persist (ok : bool) : qop := λ q,
  if iq_dirty q then (mset (q_file (iq_loaded q) false (if ok then Some (to_save q) else iq_file q)) ⨾ mdo [WriteFile]) q else (q, []).
Definition mark_dirty (q : inet) : inet := q_file (iq_loaded q) true (iq_file q) q.

Definition _pending (q : inet) : bool := negb (bool_decide (iq_samples q = [] ∧ iq_outages q = [] ∧ iq_speedtests q = [])).

Section Service.
Context `{LocalClock}.

(** *** Reports *)

Definition parcel_of (q : inet) : parcel := Parcel (take SAMPLES_PER_REPORT (iq_samples q)) (iq_outages q).*2 (iq_speedtests q).
Definition report (now : Z) : qop := λ q,
  if _pending q then
    (mset (q_report (Some (parcel_of q)) now (iq_lastReportAt q) (iq_reportError q)) ⨾ mdo [PostInet (parcel_of q)]) q
  else (q_report None (iq_lastReportTryAt q) (iq_lastReportAt q) (iq_reportError q) q, []).
Definition _reportAsync (now : Z) : qop := λ q, match iq_reporting q with Some _ => (q, []) | None => report now q end.

(** What arrived is forgotten. *)
Definition settle_outages (sent : list outage) (m : list (Z * outage)) : list (Z * outage) :=
  foldl (λ m o, if bool_decide (map_get m (ou_start o) = Some o) then map_delete m (ou_start o) else m) m sent.
Definition settled (p : parcel) (q : inet) : inet :=
  q_kept (List.filter (λ s, negb (bool_decide (in_t s ∈ in_t <$> pa_samples p))) (iq_samples q))
    (settle_outages (pa_outages p) (iq_outages q))
    (List.filter (λ t, negb (bool_decide (sp_id t ∈ sp_id <$> pa_speedtests p))) (iq_speedtests q)) q.
Definition posted (r : option jstr) (now : Z) (ok : bool) : qop := λ q,
  match iq_reporting q with
  | Some p =>
      match r with
      | Some error => (q_report None (iq_lastReportTryAt q) (iq_lastReportAt q) (Some (now, take 200 (js "report failed: " ++ error))) q, [])
      | None =>
          (mset (λ q, settled p (q_report None (iq_lastReportTryAt q) (Some now) None q)) ⨾ mdo [Delivered p]
           ⨾ _persist ok ⨾ (λ q, match iq_samples q with [] => (q, []) | _ => report now q end)) q
      end
  | None => (q, [])
  end.

(** *** Measurements and speed tests *)

Definition _startSpeedtest : qop := mset (λ q, q_test (iq_lastSpeedtest q) true (iq_count q) q) ⨾ mdo [RunSpeedtest].
(** The end of [tick]; [now]: its beginning; [at_]: the time of now. *)
Definition tick_ends (now at_ m : Z) (reportNow ok : bool) : qop :=
  (λ q, match iq_nextSpeedtestAt q with
        | Some t =>
            if (t <=? now) && negb (iq_speedtestRunning q) then
              (mset (q_cfg (iq_cfg q) (iq_status q) (nextSpeedtest (ic_speedtest (iq_cfg q)) now m))
               ⨾ (if active (iq_detector q) then mskip else _startSpeedtest)) q
            else (q, [])
        | None => (q, [])
        end)
  ⨾ _persist ok
  ⨾ (λ q, if reportNow || (_pending q && (RETRY_MS <=? now - iq_lastReportTryAt q)) then _reportAsync at_ q else (q, [])).
Definition tick (now m : Z) (ok : bool) : qop := λ q,
  if ic_enabled (iq_cfg q) then
    (_load ⨾ λ q,
      if negb (iq_speedtestRunning q) then
        (mset (q_status (λ s, start s now))
         ⨾ mset (q_ticks (iq_ticks q ++ [(iq_count q, now)]) (S (iq_count q))) ⨾ mdo [Measure (iq_count q) (ic_targets (iq_cfg q))]) q
      else
        let '(cur, closed) := flush BUCKET_MS (iq_agg q) now in
        (mset (q_measured cur (iq_detector q) (iq_last q)) ⨾ _addSample closed ⨾ tick_ends now now m (bool_decide (is_Some closed)) ok) q) q
  else (q, []).
(** The answers to the pings of tick [n], or an error. *)
Definition measured (n : nat) (r : res (option ping * option f64 * list ping)) (at_ m : Z) (ok_ : bool) : qop := λ q,
  match map_get (iq_ticks q) n with
  | Some now =>
      (mset (q_ticks (map_delete (iq_ticks q) n) (iq_count q))
       ⨾ match r with
         | Ok (router, srv, pubs) =>
             let me := measure now router srv pubs in
             let '(cur, closed) := add BUCKET_MS (iq_agg q) me in
             let '(d, changed) := observe CONFIRM_MS GAP_MS (iq_detector q) (me_at me) (me_inetOk me) (me_routerOk me) in
             mset (q_measured cur d (Some me)) ⨾ _addSample closed ⨾ _addOutage changed ⨾ mset (q_status (λ s, ok s at_))
             ⨾ tick_ends now at_ m (bool_decide (is_Some closed) || match changed with Some o => bool_decide (is_Some (ou_end o)) | None => false end) ok_
         | Throw code => mset (q_status (λ s, fail s at_ (js code))) ⨾ tick_ends now at_ m false ok_
         | NoFuel => mskip
         end) q
  | None => (q, [])
  end.
(** The test ended, with its result or an error. *)
Definition speedtest_done (r : speedtest + jstr) (now : Z) (ok : bool) : qop := λ q,
  if iq_speedtestRunning q then
    let t := match r with
             | inl t => Speedtest (iq_count q) (sp_at t) (sp_down t) (sp_up t) (sp_bytes t) (sp_error t)
             | inr e => Speedtest (iq_count q) now None None 0 (Some (take 40 e)) end in
    (mset (λ q, q_test (Some t) false (S (iq_count q)) q) ⨾ add_speedtest t ⨾ _persist ok ⨾ _reportAsync now) q
  else (q, []).
Definition requestSpeedtest : qop := λ q,
  if ic_enabled (iq_cfg q) && negb (iq_speedtestRunning q) then _startSpeedtest q else (q, []).

(** *** Settings *)

Definition apply (cfg : inet_cfg) (now m : Z) (ok : bool) : qop := λ q,
  let was := ic_enabled (iq_cfg q) in
  let planChanged := negb (bool_decide (ic_speedtest cfg = ic_speedtest (iq_cfg q))) in
  (mset (q_cfg cfg (setEnabled (iq_status q) (ic_enabled cfg))
           (if ic_enabled cfg && (planChanged || negb was) then nextSpeedtest (ic_speedtest cfg) now m else iq_nextSpeedtestAt q))
   ⨾ (if ic_enabled cfg && negb was then _load ⨾ mdo [StartLoop 10000]
      else if negb (ic_enabled cfg) && was then mdo [StopLoop] ⨾ mset mark_dirty ⨾ _persist ok
      else mskip)) q.
Definition replan (now m : Z) : qop := λ q,
  if ic_enabled (iq_cfg q) then (q_cfg (iq_cfg q) (iq_status q) (nextSpeedtest (ic_speedtest (iq_cfg q)) now m) q, []) else (q, []).
Definition stop (ok : bool) : qop := λ q,
  (mdo [StopLoop] ⨾ (if iq_loaded q then mset mark_dirty ⨾ _persist ok else mskip)) q.

Inductive inet_input :=
  | Apply (cfg : inet_cfg) (now m : Z) (ok : bool) | Replan (now m : Z) | Stop (ok : bool) | Tick (now m : Z) (ok : bool)
  | Measured (n : nat) (r : res (option ping * option f64 * list ping)) (at_ m : Z) (ok : bool)
  | RequestSpeedtest | SpeedtestDone (r : speedtest + jstr) (now : Z) (ok : bool) | Posted (r : option jstr) (now : Z) (ok : bool).
Definition inet_step (i : inet_input) : qop :=
  match i with
  | Apply cfg now m ok => apply cfg now m ok
  | Replan now m => replan now m
  | Stop ok => stop ok
  | Tick now m ok => tick now m ok
  | Measured n r at_ m ok => measured n r at_ m ok
  | RequestSpeedtest => requestSpeedtest
  | SpeedtestDone r now ok => speedtest_done r now ok
  | Posted r now ok => posted r now ok
  end.
End Service.

(** ** Facts: a buffer from which values go when they arrived, or when there are too many *)

Section Outbox.
Context {A K : Type} `{EqDecision K} (key : A → K) (max : nat).
Implicit Types (hist buf told sent : list A) (x : A).

(** At least [max] values came after [x]. *)
Definition pushed_out x hist : Prop := ∃ a b, hist = a ++ x :: b ∧ (max ≤ length b)%nat.
Record kept hist buf told : Prop := {
  kp_order : buf `sublist_of` hist; kp_told : ∀ x, x ∈ told → x ∈ hist;
  kp_all : ∀ x, x ∈ hist → x ∈ buf ∨ x ∈ told ∨ pushed_out x hist;
  kp_once : NoDup (key <$> told); kp_apart : ∀ x, x ∈ buf → key x ∉ key <$> told }.
(** What is on its way. *)
Definition flight hist told sent : Prop := (∀ x, x ∈ sent → x ∈ hist ∧ key x ∉ key <$> told) ∧ NoDup (key <$> sent).

Lemma kept_nil : kept [] [] [].
Proof. split; [done | done | by intros x ?%elem_of_nil | apply NoDup_nil_2 | by intros x ?%elem_of_nil]. Qed.
Lemma pushed_out_snoc x y hist : pushed_out x hist → pushed_out x (hist ++ [y]).
Proof. intros (a & b & -> & Hl). exists a, (b ++ [y]). rewrite <- app_assoc. split; [done |]. rewrite length_app. cbn. lia. Qed.
Lemma sublist_behind x p q hist : (p ++ x :: q) `sublist_of` hist → ∃ a b, hist = a ++ x :: b ∧ (length q ≤ length b)%nat.
Proof.
  intros (k1 & k2 & -> & _ & (l1 & l2 & -> & Hq)%sublist_cons_l)%sublist_app_l. exists (k1 ++ l1), l2.
  rewrite <- app_assoc. split; [done |]. by apply sublist_length.
Qed.
Lemma keys_inj l x y : NoDup (key <$> l) → x ∈ l → y ∈ l → key x = key y → x = y.
Proof.
  intros Hn. induction l as [|z l IH]; [by intros ?%elem_of_nil |]. rewrite fmap_cons in Hn. apply NoDup_cons in Hn as [Hz Hl].
  intros [->|Hx]%elem_of_cons [->|Hy]%elem_of_cons E; [done | | | by apply IH].
  - destruct Hz. apply list_elem_of_fmap. by exists y.
  - destruct Hz. apply list_elem_of_fmap. by exists x.
Qed.

Lemma kept_push hist buf told x : kept hist buf told → NoDup (key <$> hist ++ [x]) → kept (hist ++ [x]) (push_max max buf x) told.
Proof.
  intros [K1 K2 K3 K4 K5] Hn. assert ((buf ++ [x]) `sublist_of` (hist ++ [x])) as Hs by by apply sublist_app.
  unfold push_max. set (k := (length (buf ++ [x]) - max)%nat). pose proof (take_drop k (buf ++ [x])) as E.
  assert (drop k (buf ++ [x]) `sublist_of` hist ++ [x]) as Hd by (etrans; [apply sublist_drop | done]).
  split; [done | intros y Hy; apply elem_of_app; auto | | done |].
  - assert (∀ y, y ∈ buf ++ [x] → y ∈ drop k (buf ++ [x]) ∨ pushed_out y (hist ++ [x])) as Hin.
    { intros y Hy. rewrite <- E in Hy. apply elem_of_app in Hy as [Ht|]; [|by left]. right. apply list_elem_of_split in Ht as (p & q & Ht).
      rewrite Ht, <- app_assoc in E. cbn in E. rewrite <- E in Hs. apply sublist_behind in Hs as (a & b & Hh & Hb). exists a, b. split; [done |].
      rewrite length_app, length_drop in Hb. assert (0 < length (take k (buf ++ [x])))%nat by (rewrite Ht, length_app; cbn; lia).
      rewrite length_take in *. subst k. lia. }
    intros y [Hy| ->%list_elem_of_singleton]%elem_of_app; [destruct (K3 y Hy) as [Hb|[Ht|Hp]] | ].
    + destruct (Hin y) as [|]; [apply elem_of_app; by left | by left | by (right; right)].
    + right. by left.
    + right. right. by apply pushed_out_snoc.
    + destruct (Hin x) as [|]; [apply elem_of_app; right; by apply list_elem_of_singleton | by left | by (right; right)].
  - intros y Hy. assert (y ∈ buf ++ [x]) as [Hb| ->%list_elem_of_singleton]%elem_of_app by (rewrite <- E; apply elem_of_app; by right); [by apply K5 |].
    intros (z & Ez & Hz)%list_elem_of_fmap. rewrite fmap_app in Hn. apply NoDup_app in Hn as (_ & Hn & _).
    apply (Hn (key z)); [apply list_elem_of_fmap; by exists z; auto | apply list_elem_of_singleton]. done.
Qed.

Lemma flight_snoc hist told sent x : flight hist told sent → flight (hist ++ [x]) told sent.
Proof. intros [H1 H2]. split; [|done]. intros y Hy. destruct (H1 y Hy). split; [apply elem_of_app; by left | done]. Qed.
Lemma flight_from hist buf told sent : NoDup (key <$> hist) → kept hist buf told → sent `sublist_of` buf → flight hist told sent.
Proof.
  intros Hn [K1 K2 K3 K4 K5] Hs. split.
  - intros x Hx. pose proof (elem_of_sublist _ _ _ Hx Hs). split; [by eapply elem_of_sublist | by apply K5].
  - eapply sublist_NoDup; [exact Hn |]. apply fmap_sublist. by etrans.
Qed.
Lemma kept_accept hist buf told sent : NoDup (key <$> hist) → kept hist buf told → flight hist told sent →
  kept hist (List.filter (λ x, negb (bool_decide (key x ∈ key <$> sent))) buf) (told ++ sent).
Proof.
  intros Hn [K1 K2 K3 K4 K5] [F1 F2].
  assert (∀ x, x ∈ List.filter (λ x, negb (bool_decide (key x ∈ key <$> sent))) buf ↔ x ∈ buf ∧ key x ∉ key <$> sent) as Hf.
  { intros x. rewrite list_elem_of_In, filter_In, <- list_elem_of_In. case_bool_decide; naive_solver. }
  split.
  - etrans; [|exact K1]. clear. induction buf as [|x buf IH]; [done |]. cbn [List.filter]. destruct (negb _); by constructor.
  - intros x [Hx|Hx]%elem_of_app; [auto | by apply F1].
  - intros x Hx. destruct (K3 x Hx) as [Hb|[Ht|Hp]]; [|right; left; apply elem_of_app; by left | by (right; right)].
    destruct (decide (key x ∈ key <$> sent)) as [Hk|Hk]; [|left; by apply Hf]. right. left. apply elem_of_app. right.
    apply list_elem_of_fmap in Hk as (y & Ek & Hy). by rewrite (keys_inj hist x y Hn Hx (proj1 (F1 y Hy)) Ek).
  - rewrite fmap_app. apply NoDup_app. split_and!; [done | | done]. intros k Hk (y & -> & Hy)%list_elem_of_fmap. by apply (F1 y Hy).
  - intros x [Hx Hk]%Hf. rewrite fmap_app. intros [|]%elem_of_app; [by apply (K5 x) | done].
Qed.
Lemma last_of_sublist (l : list A) : last_of max l `sublist_of` l.
Proof. apply sublist_drop. Qed.
Lemma kept_load l : kept l l [].
Proof. split; [done | by intros x ?%elem_of_nil | by left | apply NoDup_nil_2 | by intros x _ ?%elem_of_nil]. Qed.
End Outbox.

(** *** Outages: the newest version of each *)

Section Newest.
Implicit Types (m : list (Z * outage)).
Definition latest (k : Z) (hist : list outage) : option outage := last (filter (λ o, ou_start o = k) hist).
(** At least [n] changes came after one of the outage [k]. *)
Definition followed (k : Z) (n : nat) (hist : list outage) : Prop := ∃ a c b, hist = a ++ c :: b ∧ ou_start c = k ∧ (n ≤ length b)%nat.
Record kept_map (hist : list outage) m (told : list outage) : Prop := {
  km_ok : map_ok m; km_size : (length m ≤ MAX_OUTAGES)%nat; km_order : m.*1 `sublist_of` (ou_start <$> hist);
  km_last : ∀ k v, map_get m k = Some v → latest k hist = Some v;
  km_all : ∀ k o, latest k hist = Some o → map_get m k = Some o ∨ o ∈ told ∨ followed k MAX_OUTAGES hist }.

Lemma latest_snoc k hist o : latest k (hist ++ [o]) = if decide (ou_start o = k) then Some o else latest k hist.
Proof.
  unfold latest. rewrite filter_app. case_decide as E.
  - rewrite (filter_cons_True (λ o, ou_start o = k)) by done. rewrite filter_nil. by rewrite last_snoc.
  - rewrite (filter_cons_False (λ o, ou_start o = k)) by done. by rewrite filter_nil, app_nil_r.
Qed.
Lemma followed_snoc k n hist o : followed k n hist → followed k n (hist ++ [o]).
Proof. intros (a & c & b & -> & Hc & Hl). exists a, c, (b ++ [o]). rewrite <- app_assoc. split_and!; [done.. |]. rewrite length_app. lia. Qed.
Lemma starts_behind p k q hist : (p ++ k :: q) `sublist_of` (ou_start <$> hist) → followed k (length q) hist.
Proof.
  intros (a & b & E & Hl)%(sublist_behind (A := Z)). apply fmap_app_inv in E as (a' & b' & -> & E & ->). symmetry in E.
  apply fmap_cons_inv in E as (c & b'' & Ec & Eb & ->). exists a', c, b''. split_and!; [done.. |]. by rewrite Eb, length_fmap in Hl.
Qed.
Lemma kept_map_nil : kept_map [] [] [].
Proof. split; [apply NoDup_nil_2 | cbn; lia | done | done | done]. Qed.
Lemma kept_map_told hist m told told' : (∀ o, o ∈ told → o ∈ told') → kept_map hist m told → kept_map hist m told'.
Proof. intros Ht [K1 K2 K3 K4 K5]. split; try done. intros k o Hk. destruct (K5 k o Hk) as [|[|]]; auto. Qed.

Lemma kept_map_evict hist m told : map_ok m → m.*1 `sublist_of` (ou_start <$> hist) → (length m ≤ S MAX_OUTAGES)%nat →
  (∀ k v, map_get m k = Some v → latest k hist = Some v) →
  (∀ k o, latest k hist = Some o → map_get m k = Some o ∨ o ∈ told ∨ followed k MAX_OUTAGES hist) →
  kept_map hist (evict_oldest m) told.
Proof.
  intros Hm Ho Hl Hlast Hall. unfold evict_oldest. destruct (Nat.ltb_spec MAX_OUTAGES (length m)) as [Hlt|]; [|by split].
  destruct m as [|[k0 v0] m]; [cbn in Hlt; lia |]. cbn [tail]. cbn in Hl, Hlt. pose proof Hm as Hm'. unfold map_ok in Hm'. rewrite fmap_cons in Hm'. apply NoDup_cons in Hm' as [Hk0 Hmt].
  assert (∀ k, map_get m k = if decide (k = k0) then None else map_get ((k0, v0) :: m) k) as Hg.
  { intros k. cbn [map_get]. case_decide as E; [subst; by apply map_get_None | done]. }
  rewrite fmap_cons in Ho. split; [done | cbn in Hlt; lia | | |].
  - etrans; [|exact Ho]. by apply sublist_cons.
  - intros k v. rewrite Hg. case_decide; [done | apply Hlast].
  - intros k o Hk. destruct (Hall k o Hk) as [Hgo|]; [|by right]. rewrite Hg. case_decide as E; [|by left]. subst. right. right.
    apply (starts_behind [] k0 m.*1) in Ho. destruct Ho as (a & c & b & -> & Hc & Hb). exists a, c, b. split_and!; [done.. |].
    rewrite length_fmap in Hb. cbn in Hlt. lia.
Qed.
Lemma map_set_order hist m o : map_ok m → m.*1 `sublist_of` (ou_start <$> hist) →
  (map_set m (ou_start o) o).*1 `sublist_of` (ou_start <$> hist ++ [o]) ∧ (length (map_set m (ou_start o) o) ≤ S (length m))%nat.
Proof.
  intros Hm Ho. split; [|apply map_set_length]. rewrite map_set_keys, fmap_app. cbn.
  case_decide; [by apply sublist_inserts_r | by apply sublist_app].
Qed.
Lemma kept_map_set hist m told o : kept_map hist m told → kept_map (hist ++ [o]) (evict_oldest (map_set m (ou_start o) o)) told.
Proof.
  intros [K1 K2 K3 K4 K5]. destruct (map_set_order hist m o K1 K3) as [Hs Hl]. apply kept_map_evict; [by apply map_set_ok | done | lia | |].
  - intros k v. rewrite map_get_set, latest_snoc. do 2 case_decide; [done | congruence | congruence | apply K4].
  - intros k v. rewrite latest_snoc, map_get_set. do 2 case_decide; [by left | congruence | congruence |]. intros Hk.
    destruct (K5 k v Hk) as [|[|]]; [by left | by right; left | right; right; by apply followed_snoc].
Qed.

Lemma map_delete_keys_filter m k : (map_delete m k).*1 `sublist_of` m.*1.
Proof. induction m as [|[k' v] m IH]; [done |]. cbn [map_delete]. case_decide; rewrite !fmap_cons; [by apply sublist_cons | by apply sublist_skip]. Qed.
Lemma kept_map_settle hist sent : ∀ m told, (∀ o, o ∈ sent → o ∈ told) → kept_map hist m told → kept_map hist (settle_outages sent m) told.
Proof.
  unfold settle_outages. induction sent as [|o sent IH]; intros m told Ht Hk; [done |]. cbn [foldl]. apply IH; [set_solver |].
  case_bool_decide as E; [|done]. destruct Hk as [K1 K2 K3 K4 K5]. split.
  - by apply map_delete_ok.
  - pose proof (map_delete_length m (ou_start o) o E). lia.
  - etrans; [apply map_delete_keys_filter | done].
  - intros k v. rewrite map_get_delete. case_decide; [done | apply K4].
  - intros k v Hv. rewrite map_get_delete. destruct (K5 k v Hv) as [Hg|]; [|by right]. case_decide as Ek; [|by left].
    right. left. apply Ht. rewrite Ek in Hg. rewrite Hg in E. injection E as ->. set_solver.
Qed.
End Newest.

(** ** The books of a run *)

Definition samples_of (fx : list inet_effect) : list interval := omap (λ x, match x with TookSample s => Some s | _ => None end) fx.
Definition outages_of (fx : list inet_effect) : list outage := omap (λ x, match x with TookOutage o => Some o | _ => None end) fx.
Definition tests_of (fx : list inet_effect) : list speedtest := omap (λ x, match x with TookTest t => Some t | _ => None end) fx.
Definition arrived (fx : list inet_effect) : list parcel := omap (λ x, match x with Delivered p => Some p | _ => None end) fx.

Abbreviation told_samples fx := (arrived fx ≫= pa_samples).
Abbreviation told_outages fx := (arrived fx ≫= pa_outages).
Abbreviation told_tests fx := (arrived fx ≫= pa_speedtests).

Record books (past : list inet_effect) (q : inet) : Prop := {
  bk_samples : NoDup (in_t <$> samples_of past) → kept in_t MAX_SAMPLES (samples_of past) (iq_samples q) (told_samples past);
  bk_flight : NoDup (in_t <$> samples_of past) → ∀ p, iq_reporting q = Some p → flight in_t (samples_of past) (told_samples past) (pa_samples p);
  bk_outages : kept_map (outages_of past) (iq_outages q) (told_outages past);
  bk_tests : kept sp_id MAX_SPEEDTESTS (tests_of past) (iq_speedtests q) (told_tests past);
  bk_tests_flight : ∀ p, iq_reporting q = Some p → flight sp_id (tests_of past) (told_tests past) (pa_speedtests p);
  bk_ids : NoDup (sp_id <$> tests_of past) ∧ Forall (λ t, (sp_id t < iq_count q)%nat) (tests_of past);
  bk_loaded : iq_loaded q = true }.

(** Effects that the books do not see. *)
Definition plain (x : inet_effect) : Prop := match x with TookSample _ | TookOutage _ | TookTest _ | Delivered _ => False | _ => True end.
Lemma books_app past fx : Forall plain fx → samples_of (past ++ fx) = samples_of past ∧ outages_of (past ++ fx) = outages_of past ∧
  tests_of (past ++ fx) = tests_of past ∧ arrived (past ++ fx) = arrived past.
Proof.
  intros Hf. unfold samples_of, outages_of, tests_of, arrived. rewrite !omap_app. induction Hf as [|x fx Hx Hf IH]; [by rewrite !app_nil_r |].
  destruct IH as (H1 & H2 & H3 & H4). destruct x; done.
Qed.
(** What leaves the buffers and the report as they are. *)
Record same q q' : Prop := {
  sm_samples : iq_samples q' = iq_samples q; sm_outages : iq_outages q' = iq_outages q; sm_tests : iq_speedtests q' = iq_speedtests q;
  sm_report : iq_reporting q' = iq_reporting q ∨ iq_reporting q' = None; sm_count : (iq_count q ≤ iq_count q')%nat;
  sm_loaded : iq_loaded q = true → iq_loaded q' = true }.
Lemma books_aside past fx q q' : Forall plain fx → same q q' → books past q → books (past ++ fx) q'.
Proof.
  intros Hfx [S1 S2 S3 S4 S5 S6] [B1 B2 B3 B4 B5 [B6 B7] B8]. destruct (books_app past fx Hfx) as (E1 & E2 & E3 & E4). split; rewrite ?E1, ?E2, ?E3, ?E4, ?S1, ?S2, ?S3.
  - done.
  - intros Hn p Hp. destruct S4 as [S4|S4]; rewrite S4 in Hp; [by apply B2 | done].
  - done.
  - done.
  - intros p Hp. destruct S4 as [S4|S4]; rewrite S4 in Hp; [by apply B5 | done].
  - split; [done |]. eapply Forall_impl; [exact B7 |]. cbn. lia.
  - auto.
Qed.

Abbreviation T := (tracks books).
Lemma T_set f : (∀ q, same q (f q)) → T (mset f).
Proof. intros Hf past q Hb. eapply books_aside; [constructor | apply Hf | exact Hb]. Qed.
Lemma T_do fx : Forall plain fx → T (mdo fx).
Proof. intros Hf past q Hb. eapply books_aside; [exact Hf | split; auto | exact Hb]. Qed.
Lemma T_skip : T mskip.
Proof. by apply (T_do []). Qed.
Ltac same_tac := intros; split; cbn; auto; lia.

Lemma T_persist ok : T (_persist ok).
Proof.
  intros past q Hb. unfold _persist. destruct (iq_dirty q); [|by apply (T_skip past q)].
  revert past q Hb. apply tracks_then; [|apply T_do; by apply Forall_singleton]. intros past q Hb.
  eapply books_aside; [constructor | | exact Hb]. same_tac.
Qed.

(** *** What comes in and what goes *)

Lemma samples_snoc past s : samples_of (past ++ [TookSample s]) = samples_of past ++ [s].
Proof. unfold samples_of. by rewrite omap_app. Qed.
Lemma T_addSample s : T (_addSample s).
Proof.
  destruct s as [s|]; [|apply T_skip]. intros past q [B1 B2 B3 B4 B5 [B6 B7] B8]. unfold _addSample. rewrite mthen_fst, mthen_snd. cbn [mset mdo fst snd app].
  assert (outages_of (past ++ [TookSample s]) = outages_of past ∧ tests_of (past ++ [TookSample s]) = tests_of past ∧ arrived (past ++ [TookSample s]) = arrived past)
    as (E2 & E3 & E4) by (unfold outages_of, tests_of, arrived; rewrite !omap_app; by rewrite !app_nil_r).
  split; rewrite ?E2, ?E3, ?E4, ?samples_snoc; cbn; try done.
  - intros Hn. apply kept_push; [|done]. apply B1. rewrite fmap_app in Hn. by apply NoDup_app in Hn as [? _].
  - intros Hn p Hp. apply flight_snoc. apply B2; [|done]. rewrite fmap_app in Hn. by apply NoDup_app in Hn as [? _].
Qed.
Lemma T_addOutage o : T (_addOutage o).
Proof.
  destruct o as [o|]; [|apply T_skip]. intros past q [B1 B2 B3 B4 B5 [B6 B7] B8]. unfold _addOutage. rewrite mthen_fst, mthen_snd. cbn [mset mdo fst snd app].
  assert (samples_of (past ++ [TookOutage o]) = samples_of past ∧ tests_of (past ++ [TookOutage o]) = tests_of past ∧ arrived (past ++ [TookOutage o]) = arrived past)
    as (E2 & E3 & E4) by (unfold samples_of, tests_of, arrived; rewrite !omap_app; by rewrite !app_nil_r).
  assert (outages_of (past ++ [TookOutage o]) = outages_of past ++ [o]) as E1 by (unfold outages_of; by rewrite omap_app).
  split; rewrite ?E1, ?E2, ?E3, ?E4; cbn; try done. by apply kept_map_set.
Qed.
(** A test with a new number. *)
Lemma T_addTest past q t : books past q → sp_id t = iq_count q → ∀ l r,
  books (past ++ ((mset (q_test l r (S (iq_count q))) ⨾ add_speedtest t) q).2) ((mset (q_test l r (S (iq_count q))) ⨾ add_speedtest t) q).1.
Proof.
  intros [B1 B2 B3 B4 B5 [B6 B7] B8] Ht l r. unfold add_speedtest. rewrite !mthen_fst, !mthen_snd. cbn [mset mdo fst snd app].
  assert (samples_of (past ++ [TookTest t]) = samples_of past ∧ outages_of (past ++ [TookTest t]) = outages_of past ∧ arrived (past ++ [TookTest t]) = arrived past)
    as (E2 & E3 & E4) by (unfold samples_of, outages_of, arrived; rewrite !omap_app; by rewrite !app_nil_r).
  assert (tests_of (past ++ [TookTest t]) = tests_of past ++ [t]) as E1 by (unfold tests_of; by rewrite omap_app).
  assert (NoDup (sp_id <$> tests_of past ++ [t])) as Hn.
  { rewrite fmap_app. apply NoDup_app. split_and!; [done | | apply NoDup_singleton]. intros k (x & Ek & Hx)%list_elem_of_fmap Hk%list_elem_of_singleton.
    rewrite Forall_forall in B7. specialize (B7 x Hx). lia. }
  split; rewrite ?E1, ?E2, ?E3, ?E4; cbn; try done.
  - by apply kept_push.
  - intros p Hp. by apply flight_snoc, B5.
  - split; [done |]. apply Forall_app_2; [eapply Forall_impl; [exact B7 |]; cbn; lia | apply Forall_singleton; lia].
Qed.

Lemma T_report now : T (report now).
Proof.
  intros past q Hb. unfold report. destruct (_pending q).
  2: { eapply books_aside; [constructor | | exact Hb]. same_tac. }
  rewrite mthen_fst, mthen_snd. cbn [mset mdo fst snd app]. destruct (books_app past [PostInet (parcel_of q)]) as (E1 & E2 & E3 & E4); [by apply Forall_singleton |].
  destruct Hb as [B1 B2 B3 B4 B5 [B6 B7] B8]. split; rewrite ?E1, ?E2, ?E3, ?E4; cbn; try done.
  - intros Hn p [= <-]. apply (flight_from in_t MAX_SAMPLES _ (iq_samples q)); [done | by apply B1 | apply sublist_take].
  - intros p [= <-]. by apply (flight_from sp_id MAX_SPEEDTESTS _ (iq_speedtests q)).
Qed.
Lemma T_reportAsync now : T (_reportAsync now).
Proof. intros past q Hb. unfold _reportAsync. destruct (iq_reporting q); [cbn; by rewrite app_nil_r | by apply T_report]. Qed.
Lemma T_delivered past q p at_ : books past q → iq_reporting q = Some p →
  books (past ++ [Delivered p]) (settled p (q_report None (iq_lastReportTryAt q) at_ None q)).
Proof.
  intros [B1 B2 B3 B4 B5 [B6 B7] B8] Hp.
  assert (samples_of (past ++ [Delivered p]) = samples_of past ∧ outages_of (past ++ [Delivered p]) = outages_of past ∧ tests_of (past ++ [Delivered p]) = tests_of past)
    as (E1 & E2 & E3) by (unfold samples_of, outages_of, tests_of; rewrite !omap_app; by rewrite !app_nil_r).
  assert (arrived (past ++ [Delivered p]) = arrived past ++ [p]) as E4 by (unfold arrived; by rewrite omap_app).
  split; rewrite ?E1, ?E2, ?E3, ?E4, ?bind_app; cbn; rewrite ?app_nil_r; try done.
  - intros Hn. apply kept_accept; [done | by apply B1 | by apply B2].
  - apply kept_map_settle; [intros o Ho; apply elem_of_app; by right |]. eapply kept_map_told; [|exact B3]. intros o Ho. apply elem_of_app. by left.
  - apply kept_accept; [done | done | by apply B5].
Qed.

(** *** The file *)

(** Before the file was read. *)
Record empty_books (past : list inet_effect) (q : inet) : Prop := {
  em_takes : samples_of past = [] ∧ outages_of past = [] ∧ tests_of past = [] ∧ arrived past = [];
  em_kept : iq_samples q = [] ∧ iq_outages q = [] ∧ iq_speedtests q = [] ∧ iq_reporting q = None }.

Lemma load_outages l : (length l ≤ MAX_OUTAGES)%nat → let m := foldl (λ m o, map_set m (ou_start o) o) [] l in (length m ≤ length l)%nat ∧ kept_map l m [].
Proof.
  induction l as [|o l IH] using rev_ind; [intros _; split; [done | apply kept_map_nil] |]. rewrite length_app. cbn [length]. intros Hl.
  cbv zeta. rewrite foldl_app. cbn [foldl]. destruct IH as [IH1 IH2]; [lia |]. set (m := foldl _ [] l) in *. pose proof (map_set_length m (ou_start o) o) as Hs. split; [lia |].
  pose proof (kept_map_set l m [] o IH2) as Hk. unfold evict_oldest in Hk. destruct (Nat.ltb_spec MAX_OUTAGES (length (map_set m (ou_start o) o))); [lia | done].
Qed.
Lemma renumber_ids n l : sp_id <$> renumber n l = seq n (length l).
Proof.
  revert n. induction l as [|t l IH]; intros n; [done |]. unfold renumber in *. cbn [imap]. rewrite fmap_cons. cbn [length seq sp_id]. f_equal; [lia |].
  rewrite <- IH. f_equal. apply imap_ext. intros i x _. cbn. by rewrite Nat.add_succ_r.
Qed.
Lemma last_of_length {A} max (l : list A) : (length (last_of max l) ≤ max)%nat.
Proof. unfold last_of. rewrite length_drop. lia. Qed.
Lemma omap_all {A B C} (f : A → B) (g : B → option C) (l : list A) : (∀ x, g (f x) = None) → omap g (f <$> l) = [].
Proof. intros Hg. induction l as [|x l IH]; [done |]. rewrite fmap_cons. cbn. by rewrite Hg. Qed.
Lemma omap_same {A B} (f : A → B) (g : B → option A) (l : list A) : (∀ x, g (f x) = Some x) → omap g (f <$> l) = l.
Proof. intros Hg. induction l as [|x l IH]; [done |]. rewrite fmap_cons. cbn. rewrite Hg. cbn. by f_equal. Qed.

Lemma books_load_kept p past q d f : empty_books past q → books (past ++ (load_kept p q).2) (q_file true d f (load_kept p q).1).
Proof.
  intros [(T1 & T2 & T3 & T4) (K1 & K2 & K3 & K4)]. unfold load_kept. cbv zeta. rewrite mthen_fst, mthen_snd. cbn [mset mdo fst snd app].
  set (s := last_of MAX_SAMPLES (pa_samples p)). set (o := last_of MAX_OUTAGES (pa_outages p)). set (t := renumber (iq_count q) (last_of MAX_SPEEDTESTS (pa_speedtests p))).
  set (fx := (TookSample <$> s) ++ (TookOutage <$> o) ++ (TookTest <$> t)).
  assert (samples_of (past ++ fx) = s ∧ outages_of (past ++ fx) = o ∧ tests_of (past ++ fx) = t ∧ arrived (past ++ fx) = []) as (E1 & E2 & E3 & E4).
  { unfold samples_of, outages_of, tests_of, arrived in *. subst fx. rewrite !omap_app, T1, T2, T3, T4. cbn [app].
    split_and!; repeat first [rewrite omap_same by done | rewrite omap_all by done]; rewrite ?app_nil_r; done. }
  assert (sp_id <$> t = seq (iq_count q) (length t)) as Eid.
  { subst t. rewrite renumber_ids. unfold renumber. by rewrite length_imap. }
  assert (length o ≤ MAX_OUTAGES)%nat as Ho by apply last_of_length. clearbody fx s o t.
  split; rewrite ?E1, ?E2, ?E3, ?E4; cbn; rewrite ?K2, ?K4; try done.
  - intros _. apply kept_load.
  - by apply load_outages.
  - apply kept_load.
  - split; [rewrite Eid; apply NoDup_seq |]. apply Forall_forall. intros x Hx. assert (sp_id x ∈ sp_id <$> t) as Hi by (apply list_elem_of_fmap; by exists x).
    rewrite Eid in Hi. apply elem_of_seq in Hi. lia.
Qed.
Lemma books_load past q : empty_books past q → iq_loaded q = false → books (past ++ (_load q).2) (_load q).1.
Proof.
  intros He K5. pose proof He as [(T1 & T2 & T3 & T4) (K1 & K2 & K3 & K4)]. unfold _load. rewrite K5. destruct (iq_file q) as [f|] eqn:Ef.
  - rewrite mthen_fst, mthen_snd. cbn [mset fst snd app]. set (q0 := q_file _ _ _ q).
    assert (empty_books past q0) as He' by (split; [done | by split_and!]).
    set (h1 := λ q1 : inet, match sa_open f with Some o => _ | None => q1 end). set (h2 := λ q1 : inet, match sa_lastSpeedtest f with Some t => _ | None => q1 end).
    assert (∀ r, same r (h1 r)) as S1 by (intros r; subst h1; cbn; destruct (sa_open f); same_tac).
    assert (∀ r, same r (h2 r)) as S2 by (intros r; subst h2; cbn; destruct (sa_lastSpeedtest f); same_tac).
    rewrite !mthen_fst, !mthen_snd. cbn [mset fst snd app]. rewrite !app_nil_r. rewrite <- (app_nil_r (past ++ _)).
    eapply books_aside; [constructor | apply S2 |]. rewrite <- (app_nil_r (past ++ _)). eapply books_aside; [constructor | apply S1 |].
    by apply books_load_kept.
  - rewrite mthen_fst, mthen_snd. cbn [mset mskip fst snd app]. rewrite app_nil_r. split; rewrite ?T1, ?T2, ?T3, ?T4; cbn; rewrite ?K1, ?K2, ?K3, ?K4; try done.
    + intros _. apply kept_nil.
    + apply kept_map_nil.
    + apply kept_nil.
    + split; [apply NoDup_nil_2 | constructor].
Qed.

(** *** Steps *)

Section Steps.
Context `{LocalClock}.

Lemma T_load : T _load.
Proof. intros past q Hb. unfold _load. rewrite (bk_loaded _ _ Hb). cbn. by rewrite app_nil_r. Qed.
Lemma T_startSpeedtest : T _startSpeedtest.
Proof. apply tracks_then; [apply T_set; same_tac | by apply T_do, Forall_singleton]. Qed.
Lemma T_nothing : T (λ q, (q, [])).
Proof. apply T_skip. Qed.
Lemma T_tick_ends now at_ m b ok : T (tick_ends now at_ m b ok).
Proof.
  unfold tick_ends. apply tracks_then; [|apply tracks_then; [apply T_persist |]].
  - intros past q Hb. cbv beta. destruct (iq_nextSpeedtestAt q); [|by apply T_nothing]. destruct (_ && _); [|by apply T_nothing].
    revert Hb. apply (tracks_then books); [apply T_set; same_tac |]. destruct (active _); [apply T_skip | apply T_startSpeedtest].
  - intros past q Hb. cbv beta. destruct (_ || _); [by apply T_reportAsync | by apply T_nothing].
Qed.
Lemma T_tick now m ok : T (tick now m ok).
Proof.
  intros past q Hb. unfold tick. destruct (ic_enabled _); [|by apply T_nothing]. revert past q Hb. apply tracks_then; [apply T_load |].
  intros past q Hb. cbv beta. destruct (negb _).
  - rewrite !mthen_fst, !mthen_snd. cbn [mset mdo fst snd app]. eapply books_aside; [by apply Forall_singleton | | exact Hb]. same_tac.
  - destruct (flush _ _ _) as [cur closed]. revert Hb. apply (tracks_then books); [apply T_set; same_tac |].
    apply tracks_then; [apply T_addSample | apply T_tick_ends].
Qed.
Lemma T_measured n r at_ m ok : T (measured n r at_ m ok).
Proof.
  intros past q Hb. unfold measured. destruct (map_get _ _) as [now|]; [|by apply T_nothing].
  rewrite mthen_fst, mthen_snd. cbn [mset fst snd app]. set (q1 := q_ticks _ _ q).
  assert (books past q1) as Hb1 by (rewrite <- (app_nil_r past); eapply books_aside; [constructor | | exact Hb]; same_tac).
  revert Hb1. generalize q1. clear Hb q1. intros q1. revert past q1. destruct r as [[[router srv] pubs]|code|]; [| |apply T_skip].
  - cbv zeta. destruct (add _ _ _) as [cur closed]. destruct (observe _ _ _ _ _ _) as [d changed].
    repeat (apply tracks_then; [first [apply T_set; same_tac | apply T_addSample | apply T_addOutage] |]). apply T_tick_ends.
  - apply tracks_then; [apply T_set; same_tac | apply T_tick_ends].
Qed.
Lemma T_speedtest_done r now ok : T (speedtest_done r now ok).
Proof.
  intros past q Hb. unfold speedtest_done. destruct (iq_speedtestRunning q); [|by apply T_nothing]. cbv zeta. set (t := match r with inl _ => _ | inr _ => _ end).
  assert (sp_id t = iq_count q) as Ht by (by destruct r). pose proof (T_addTest past q t Hb Ht (Some t) false) as Ha.
  rewrite mthen_fst, mthen_snd in Ha. cbn [mset fst snd app] in Ha.
  rewrite !mthen_fst, !mthen_snd. cbn [mset fst snd app]. rewrite app_assoc.
  assert (T (_persist ok ⨾ _reportAsync now)) as Hr by (apply tracks_then; [apply T_persist | apply T_reportAsync]).
  specialize (Hr _ _ Ha). by rewrite mthen_fst, mthen_snd in Hr.
Qed.
Lemma T_posted r now ok : T (posted r now ok).
Proof.
  intros past q Hb. unfold posted. destruct (iq_reporting q) as [p|] eqn:Ep; [|by apply T_nothing]. destruct r as [error|].
  - eapply books_aside; [constructor | | exact Hb]. same_tac.
  - pose proof (T_delivered past q p (Some now) Hb Ep) as Ha. rewrite !mthen_fst, !mthen_snd. cbn [mset mdo fst snd]. rewrite app_nil_l, app_assoc.
    assert (T (_persist ok ⨾ (λ q, match iq_samples q with [] => (q, []) | _ => report now q end))) as Hr.
    { apply tracks_then; [apply T_persist |]. intros past' q' Hb'. destruct (iq_samples q'); [by apply T_nothing | by apply T_report]. }
    specialize (Hr _ _ Ha). by rewrite mthen_fst, mthen_snd in Hr.
Qed.
Lemma T_shut ok : T (mset mark_dirty ⨾ _persist ok).
Proof. apply tracks_then; [apply T_set; same_tac | apply T_persist]. Qed.
Lemma T_apply cfg now m ok : T (apply cfg now m ok).
Proof.
  intros past q Hb. unfold apply. cbv zeta. revert Hb. apply (tracks_then books); [apply T_set; same_tac |].
  destruct (ic_enabled cfg && _); [apply tracks_then; [apply T_load | by apply T_do, Forall_singleton] |].
  destruct (_ && _); [apply tracks_then; [by apply T_do, Forall_singleton | apply T_shut] | apply T_skip].
Qed.
Lemma T_stop ok : T (stop ok).
Proof.
  intros past q Hb. unfold stop. revert Hb. apply (tracks_then books); [by apply T_do, Forall_singleton |].
  destruct (iq_loaded q); [apply T_shut | apply T_skip].
Qed.
Lemma T_step i : T (inet_step i).
Proof.
  destruct i; cbn [inet_step].
  - apply T_apply.
  - intros past q Hb. unfold replan. destruct (ic_enabled _); [|by apply T_nothing]. eapply books_aside; [constructor | | exact Hb]. same_tac.
  - apply T_stop.
  - apply T_tick.
  - apply T_measured.
  - intros past q Hb. unfold requestSpeedtest. destruct (_ && _); [by apply T_startSpeedtest | by apply T_nothing].
  - apply T_speedtest_done.
  - apply T_posted.
Qed.

(** Before the first settings that switch it on nothing happens. *)
Definition unread (past : list inet_effect) (q : inet) : Prop :=
  empty_books past q ∧ iq_loaded q = false ∧ iq_ticks q = [] ∧ iq_speedtestRunning q = false ∧ ic_enabled (iq_cfg q) = false.
Lemma unread_step i past q : unread past q → books (past ++ (inet_step i q).2) (inet_step i q).1 ∨ unread (past ++ (inet_step i q).2) (inet_step i q).1.
Proof.
  intros Hu. pose proof Hu as ([(E1 & E2 & E3 & E4) (K1 & K2 & K3 & K4)] & Hl & Ht & Hr & He).
  destruct i as [cfg now m ok|now m|ok|now m ok|n r at_ m ok| |r now ok|r now ok]; cbn [inet_step].
  - unfold apply. cbv zeta. rewrite He. cbn [negb andb]. rewrite andb_true_r, andb_false_r. rewrite mthen_fst, mthen_snd. cbn [mset fst snd app]. set (q1 := q_cfg _ _ _ q).
    assert (empty_books past q1) as He1 by (split; [done | by split_and!]). destruct (ic_enabled cfg) eqn:Ec.
    + left. rewrite mthen_fst, mthen_snd. cbn [mdo fst snd]. rewrite app_assoc. eapply books_aside; [by apply Forall_singleton | same_tac |]. by apply books_load.
    + right. cbn [mskip fst snd]. rewrite app_nil_r. split; [done | by split_and!].
  - right. unfold replan. rewrite He. cbn. by rewrite app_nil_r.
  - right. unfold stop. rewrite Hl, mthen_fst, mthen_snd. cbn [mdo mskip fst snd]. destruct (books_app past [StopLoop]) as (F1 & F2 & F3 & F4); [by apply Forall_singleton |].
    rewrite app_nil_r. split; [|done]. split; [by rewrite F1, F2, F3, F4 | done].
  - right. unfold tick. rewrite He. cbn. by rewrite app_nil_r.
  - right. unfold measured. rewrite Ht. cbn. by rewrite app_nil_r.
  - right. unfold requestSpeedtest. rewrite He. cbn. by rewrite app_nil_r.
  - right. unfold speedtest_done. rewrite Hr. cbn. by rewrite app_nil_r.
  - right. unfold posted. rewrite K4. cbn. by rewrite app_nil_r.
Qed.
Lemma run_books file inputs : let t := mrun inet_step inputs (newInet file) in books (concat t.2.*2) t.1 ∨ unread (concat t.2.*2) t.1.
Proof.
  apply (tracks_run (λ past q, books past q ∨ unread past q) inet_step).
  - right. split; [by split | done].
  - intros i past q [Hb|Hu]; [left; by apply T_step | by apply unread_step].
Qed.

End Steps.

(** ** Plans, restarts, reports *)

Lemma advance_later t fromMs : fromMs < advance t fromMs.
Proof. unfold advance, HOUR_MS. destruct (Z.leb_spec t fromMs); [|done]. pose proof (Z.div_mod (fromMs - t) 3600000). pose proof (Z.mod_pos_bound (fromMs - t) 3600000). lia. Qed.
(** The next speed test lies ahead, whatever the time zone does. *)
Lemma nextSpeedtest_later `{LocalClock} plan fromMs m t : nextSpeedtest plan fromMs m = Some t → fromMs < t.
Proof.
  unfold nextSpeedtest. case_bool_decide; [intros [= <-]; apply advance_later |]. case_bool_decide; [|done].
  intros Hh. assert (In t (List.filter (λ t, fromMs <? t) (day ← [0; 1]; h ← [0; 6; 12; 18]; [atLocal fromMs day h m]))) as Hi.
  { destruct (List.filter _ _) as [|x l]; [done |]. injection Hh as ->. by left. }
  apply filter_In in Hi as [_ Hi]. by apply Z.ltb_lt in Hi.
Qed.

Lemma fold_set_new l : ∀ m : list (Z * outage), NoDup (m.*1 ++ (ou_start <$> l)) → foldl (λ m o, map_set m (ou_start o) o) m l = m ++ ((λ o, (ou_start o, o)) <$> l).
Proof.
  induction l as [|o l IH]; intros m Hn; cbn [foldl]; [by rewrite app_nil_r |]. rewrite fmap_cons in Hn.
  assert (ou_start o ∉ m.*1) as Ho by (apply NoDup_app in Hn as (_ & Hn & _); intros Hi; apply (Hn _ Hi); by left).
  rewrite map_set_new by done. rewrite IH; [by rewrite fmap_cons, <- app_assoc |]. rewrite fmap_app. cbn. by rewrite <- app_assoc.
Qed.
(** What was written is what a restart begins with. *)
Lemma restart_has_all q : (length (iq_samples q) ≤ MAX_SAMPLES)%nat → (length (iq_outages q) ≤ MAX_OUTAGES)%nat → (length (iq_speedtests q) ≤ MAX_SPEEDTESTS)%nat →
  map_ok (iq_outages q) → Forall (λ e, e.1 = ou_start e.2) (iq_outages q) →
  let q' := (_load (newInet (Some (to_save q)))).1 in
  iq_samples q' = iq_samples q ∧ iq_outages q' = iq_outages q ∧ iq_speedtests q' = renumber 0 (iq_speedtests q).
Proof.
  intros H1 H2 H3 Hm Hk. cbv zeta. assert (∀ A n (l : list A), (length l ≤ n)%nat → last_of n l = l) as Hl.
  { intros A n l Hle. unfold last_of. by replace (length l - n)%nat with 0%nat by lia. }
  unfold _load. cbn [iq_loaded newInet iq_file]. rewrite !mthen_fst. unfold load_kept. cbv zeta. rewrite !mthen_fst. cbn [mset mdo fst].
  cbn [to_save sa_parcel pa_samples pa_outages pa_speedtests sa_open sa_lastSpeedtest].
  rewrite !Hl by (rewrite ?length_fmap; done).
  assert (foldl (λ m o, map_set m (ou_start o) o) [] (iq_outages q).*2 = iq_outages q) as Ho.
  { rewrite fold_set_new; [cbn; clear -Hk; induction Hk as [|[k o] m E Hk IH]; [done |]; cbn in E; subst; rewrite fmap_cons; cbn; by f_equal |]. cbn.
    unfold map_ok in Hm. clear -Hm Hk. assert (ou_start <$> (iq_outages q).*2 = (iq_outages q).*1) as ->; [|done].
    induction Hk as [|[k o] m E Hk IH]; [done |]. cbn in E. rewrite !fmap_cons in *. cbn. apply NoDup_cons in Hm as [_ Hm]. f_equal; [done | by apply IH]. }
  destruct (de_open (iq_detector q)), (iq_lastSpeedtest q); cbn; by rewrite Ho.
Qed.

(** Values that wait are reported a minute after the last try. *)
Lemma tick_reports `{LocalClock} now at_ m b ok q : _pending q = true → iq_reporting q = None → RETRY_MS <= now - iq_lastReportTryAt q →
  PostInet (parcel_of q) ∈ (tick_ends now at_ m b ok q).2.
Proof.
  intros Hp Hr Ht. unfold tick_ends. rewrite !mthen_snd. apply elem_of_app. right. apply elem_of_app. right.
  match goal with |- context [_persist ok ?x] => set (q1 := x) end. assert (iq_samples q1 = iq_samples q ∧ iq_outages q1 = iq_outages q ∧ iq_speedtests q1 = iq_speedtests q ∧ iq_reporting q1 = None ∧ iq_lastReportTryAt q1 = iq_lastReportTryAt q) as (E1 & E2 & E3 & E4 & E5).
  { subst q1. cbv beta. destruct (iq_nextSpeedtestAt q); [|done]. destruct (_ && _); [|done]. rewrite mthen_fst. destruct (active _); done. }
  clearbody q1. set (q2 := (_persist ok q1).1).
  assert (iq_samples q2 = iq_samples q ∧ iq_outages q2 = iq_outages q ∧ iq_speedtests q2 = iq_speedtests q ∧ iq_reporting q2 = None ∧ iq_lastReportTryAt q2 = iq_lastReportTryAt q) as (F1 & F2 & F3 & F4 & F5).
  { subst q2. unfold _persist. by destruct (iq_dirty q1). }
  clearbody q2. assert (_pending q2 = true) as Hp2 by (unfold _pending; by rewrite F1, F2, F3).
  rewrite F5, Hp2. assert ((RETRY_MS <=? now - iq_lastReportTryAt q) = true) as -> by lia. rewrite andb_true_r, orb_true_r.
  unfold _reportAsync. rewrite F4. unfold report. rewrite Hp2. rewrite mthen_snd. cbn [mset mdo fst snd app]. unfold parcel_of. rewrite F1, F2, F3. by left.
Qed.

(** A write that failed is not tried again: what changed counts as written. *)
Lemma failed_write_forgotten q : let q1 := (_persist false q).1 in iq_file q1 = iq_file q ∧ _persist true q1 = (q1, []).
Proof. unfold _persist. destruct (iq_dirty q) eqn:E; cbn; [done | by rewrite E]. Qed.
