(* ===== verification/Child.v ===== *)
(** * src/edge/child/bootstrap.js

    The runtime inside the process of an edge part: the modules it locks, the
    calls of the part to the edge host, the events of the host and its calls
    to the part.  The queue of microtasks is explicit: what a promise is
    waited for happens in a later turn than the message that settles it.
    Functions of the part are numbers, timers and the channel are inputs and
    effects; base64 is left to the channel, bytes are bytes. *)

From S2P Require Import Prelude JsBuffer JsMap JsValues JsText Machine.

Local Open Scope Z_scope.

(** ** What is locked *)

Definition DENIED_MODULES : list jstr :=
  js <$> ["child_process"; "cluster"; "worker_threads"; "inspector"; "inspector/promises"; "repl"; "wasi"; "sqlite"; "trace_events"; "v8"; "dns"; "dns/promises"]%string.
Definition NODE_ : jstr := js "node:".
Definition bare (name : jstr) : jstr := if starts_with NODE_ name then drop 5 name else name.
(** [Module._load], [process.getBuiltinModule] *)
Definition refuses_load (request : jstr) : bool := bool_decide (bare request ∈ DENIED_MODULES).
(** The hook of [import]; [builtin]: [Module.isBuiltin(specifier)]. *)
Definition refuses_import (specifier : jstr) (builtin : bool) : bool :=
  bool_decide (bare specifier ∈ DENIED_MODULES) && (starts_with NODE_ specifier || builtin).
(** [process.kill] *)
Definition refuses_kill (self pid : Z) : bool := negb (pid =? self).

(** ** Calls to the host *)

Definition HOST_TIMEOUT_MS : Z := 40000.
Definition ERROR_DATA_FIELDS : list jstr := js <$> ["sha256"; "expectedSha256"; "certificate"]%string.

Record error := Error { er_code : jstr; er_message : jstr; er_data : list (jstr * json) }.
Definition outcome : Type := json + error.
(** The answer of the host. *)
Inductive host_answer := AnswerOk (v : json) | AnswerError (code message : option json) (data : option json).
Definition text_or (v : option json) (d : jstr) : jstr := match v with Some (JStr ((_ :: _) as s)) => s | _ => d end.
Definition hostError (code message data : option json) : error :=
  Error (text_or code (js "edge_error")) (text_or message (js "gc call failed"))
    (match data with Some (JObj f) => omap (λ k, (λ v, (k, v)) <$> field f k) ERROR_DATA_FIELDS | _ => [] end).

(** What the part hands over as data: bytes, a text, another value as the text
    that [String] or [JSON.stringify] gives for it. *)
Inductive payload := PNone | PBytes (b : list Z) | PText (s : jstr) | POther (text : jstr).
Definition toB64 (p : payload) : list Z := match p with PNone => [] | PBytes b => b | PText s | POther s => utf8_encode s end.

Inductive api :=
  | UdpBind (port : json) (multicast : list json) | UdpSend (id : option (option Z)) (host port : json) (b : list Z) | UdpClose (id : option Z)
  | MdnsBrowse (service : json) | MdnsStop (id : option Z)
  | TcpConnect (host port : json) | TcpWrite (id : option Z) (b : list Z) | TcpEnd (id : option Z) | TcpDestroy (id : option Z)
  | HttpRequest (method url headers : json) (b : option (list Z)) (timeoutMs : option json) (pin : option jstr) (insecure : bool)
  | TlsFingerprint (host port : json) (timeoutMs : option json)
  | StoreGet (key : json) | StoreSet (key value : json) | StoreDelete (key : json)
  | MqttSubscribe (topic : json) | MqttUnsubscribe (id : option Z) | MqttPublish (topic : json) (b : list Z) (retain : bool) (qos : Z)
  | SerialOpen (name : json) (baudRate : option json).

(** What happens with the answer before the part sees it. *)
Inductive wait := Plain | Quiet | AsUdp (fn : option nat) | AsBrowse (fn : nat) | AsSocket | AsSub (fn : nat).

(** The functions of [gc] that call the host. *)
Inductive gc_call :=
  | GUdpBind (port : json) (multicast : option json) (fn : option nat) | GUdpSend (id : option (option Z)) (host port : json) (p : payload) | GUdpClose (id : option Z)
  | GBrowse (service : json) (fn : nat) | GBrowseStop (id : option Z) | GConnect (host port : json)
  | GWrite (id : option Z) (b : list Z) | GEnd (id : option Z)
  | GHttp (method url headers : option json) (p : payload) (timeoutMs pin insecure : option json)
  | GFingerprint (host : json) (port timeoutMs : option json)
  | GStoreGet (key : json) | GStoreSet (key value : json) | GStoreDelete (key : json)
  | GSubscribe (topic : json) (fn : nat) | GUnsubscribe (id : option Z) | GPublish (topic : json) (p : payload) (retain qos : option json)
  | GSerial (name : json) (baudRate : option json).
Definition or_default (v : option json) (d : json) : json := match or_null v with JNull => d | v => v end.
Definition host_call (c : gc_call) : api * wait :=
  match c with
  | GUdpBind port multicast fn => (UdpBind port (match or_null multicast with JNull => [] | JArr l => l | v => [v] end), AsUdp fn)
  | GUdpSend id host port p => (UdpSend id host port (toB64 p), Plain)
  | GUdpClose id => (UdpClose id, Quiet)
  | GBrowse service fn => (MdnsBrowse service, AsBrowse fn)
  | GBrowseStop id => (MdnsStop id, Quiet)
  | GConnect host port => (TcpConnect host port, AsSocket)
  | GWrite id b => (TcpWrite id b, Plain)
  | GEnd id => (TcpEnd id, Quiet)
  | GHttp method url headers p timeoutMs pin insecure =>
      (HttpRequest (or_default method (JStr (js "GET"))) (default JNull url) (or_default headers (JObj []))
         (match p with PNone => None | p => Some (toB64 p) end) timeoutMs (match pin with Some (JStr s) => Some s | _ => None end)
         (match insecure with None | Some JNull | Some (JBool false) => false | _ => true end), Plain)
  | GFingerprint host port timeoutMs => (TlsFingerprint host (default (JNum (NInt 443)) port) timeoutMs, Plain)
  | GStoreGet key => (StoreGet key, Plain)
  | GStoreSet key value => (StoreSet key value, Plain)
  | GStoreDelete key => (StoreDelete key, Plain)
  | GSubscribe topic fn => (MqttSubscribe topic, AsSub fn)
  | GUnsubscribe id => (MqttUnsubscribe id, Quiet)
  | GPublish topic p retain qos =>
      (MqttPublish topic (toB64 p) (truthy retain) (match qos with Some (JNum (NInt 1)) => 1 | _ => 0 end), Plain)
  | GSerial name baudRate => (SerialOpen name baudRate, Plain)
  end.

(** ** The process *)

(** Microtasks: a promise of a call is settled; the host called. *)
Inductive micro := Settle (n : nat) (w : wait) (o : outcome) | Run (call : nat) (method : jstr) (params : json).
(** The tables of resources: what the part gave for each. *)
Inductive kind := Udp | Mdns | Socket | Mqtt.
#[export] Instance kind_eq_dec : EqDecision kind.
Proof. solve_decision. Defined.

Record child := Child {
  ch_seq : Z; ch_pending : list (Z * (nat * wait)); ch_micro : list micro; ch_promises : nat;
  ch_resources : list ((kind * option Z) * option nat);
  ch_handlers : list (jstr * nat); ch_listeners : list nat; ch_config : json;
  ch_calls : nat; ch_running : list nat; ch_started : bool; ch_exited : bool }.
Definition newChild : child := Child 0 [] [] 0 [] [] [] JNull 0 [] false false.

(** [ToHost]: a request, with what happens with its answer; [Deliver]: an event for a resource, with what the part gave for it;
    [Answer]: the result of a call of the host; [Settled]: the part sees the
    outcome of a call of its own. *)
Inductive event := Datagram (b : list Z) (address port : json) | Service (service : json) | Message (topic : json) (b : list Z) (retain : bool) (qos : Z)
  | Data (b : list Z) | End | SocketError (message : jstr) | Close.
Inductive child_effect :=
  | ToHost (id : Z) (a : api) (w : wait) | ArmTimer (id : Z) | ClearTimer (id : Z) | Settled (n : nat) (o : outcome)
  | Deliver (k : kind) (id : option Z) (fn : option nat) (e : event) | Invoke (call : nat) (fn : nat) (params : json) | Answer (call : nat) (r : json + (jstr * jstr))
  | Configured (fn : nat) (config : json) | Throws (message : jstr) | Lockdown | LoadPart | Ready | Fatal (message : jstr) | Pong (id : json)
  | LogLine (level line : jstr) | EventOut (name : jstr) (data : json) | StopPart | ExitLater (ms : Z) | Exit (code : Z).
Abbreviation cop := (mop child child_effect).

Definition c_calls (seq : Z) (pending : list (Z * (nat * wait))) (m : list micro) (n : nat) (c : child) : child :=
  Child seq pending m n (ch_resources c) (ch_handlers c) (ch_listeners c) (ch_config c) (ch_calls c) (ch_running c) (ch_started c) (ch_exited c).
Definition c_resources (r : list ((kind * option Z) * option nat)) (c : child) : child :=
  Child (ch_seq c) (ch_pending c) (ch_micro c) (ch_promises c) r (ch_handlers c) (ch_listeners c) (ch_config c) (ch_calls c) (ch_running c) (ch_started c) (ch_exited c).
Definition c_part (h : list (jstr * nat)) (l : list nat) (config : json) (c : child) : child :=
  Child (ch_seq c) (ch_pending c) (ch_micro c) (ch_promises c) (ch_resources c) h l config (ch_calls c) (ch_running c) (ch_started c) (ch_exited c).
Definition c_host (n : nat) (running : list nat) (c : child) : child :=
  Child (ch_seq c) (ch_pending c) (ch_micro c) (ch_promises c) (ch_resources c) (ch_handlers c) (ch_listeners c) (ch_config c) n running (ch_started c) (ch_exited c).
Definition c_life (started exited : bool) (c : child) : child :=
  Child (ch_seq c) (ch_pending c) (ch_micro c) (ch_promises c) (ch_resources c) (ch_handlers c) (ch_listeners c) (ch_config c) (ch_calls c) (ch_running c) started exited.
Definition set_micro (m : list micro) (c : child) : child := c_calls (ch_seq c) (ch_pending c) m (ch_promises c) c.

(** *** Calls of the part *)

Definition hostCall (a : api) (w : wait) : cop := λ c,
  let id := ch_seq c + 1 in
  (mset (c_calls id (map_set (ch_pending c) id (ch_promises c, w)) (ch_micro c) (S (ch_promises c))) ⨾ mdo [ArmTimer id; ToHost id a w]) c.
(** Closing forgets the resource at once. *)
Definition forgets (g : gc_call) : option (kind * option Z) :=
  match g with GUdpClose id => Some (Udp, id) | GBrowseStop id => Some (Mdns, id) | GUnsubscribe id => Some (Mqtt, id) | _ => None end.
Definition gc (g : gc_call) : cop := λ c,
  (match forgets g with Some k => mset (c_resources (map_delete (ch_resources c) k)) | None => mskip end
   ⨾ hostCall (host_call g).1 (host_call g).2) c.
(** [EdgeSocket._destroy] *)
Definition socket_destroy (id : option Z) : cop := λ c,
  if map_has (ch_resources c) (Socket, id) then (mset (c_resources (map_delete (ch_resources c) (Socket, id))) ⨾ hostCall (TcpDestroy id) Quiet) c
  else (c, []).

(** The host answers, or 40 seconds are over: the rest is a microtask. *)
Definition settle (id : Z) (o : outcome) : cop := λ c,
  match map_get (ch_pending c) id with
  | Some (n, w) => (c_calls (ch_seq c) (map_delete (ch_pending c) id) (ch_micro c ++ [Settle n w o]) (ch_promises c) c, [])
  | None => (c, [])
  end.
Definition on_hostResult (id : Z) (r : host_answer) : cop := λ c,
  if map_has (ch_pending c) id then
    (mdo [ClearTimer id] ⨾ settle id (match r with AnswerOk v => inl v | AnswerError code message data => inr (hostError code message data) end)) c
  else (c, []).
Definition timed_out (id : Z) : cop := settle id (inr (Error (js "timeout") (js "gc call timed out") [])).

(** [r.id]: [None]: it throws. *)
Definition id_of (v : json) : option (option Z) :=
  match v with
  | JNull => None
  | JObj f => Some (match field f (js "id") with Some (JNum (NInt z)) => Some z | _ => None end)
  | _ => Some None
  end.
Definition null_error : error := Error (js "TypeError") (js "Cannot read properties of null") [].
Definition kind_of (w : wait) : option (kind * option nat) :=
  match w with AsUdp fn => Some (Udp, fn) | AsBrowse fn => Some (Mdns, Some fn) | AsSocket => Some (Socket, None) | AsSub fn => Some (Mqtt, Some fn) | Plain | Quiet => None end.
Definition continue (n : nat) (w : wait) (o : outcome) : cop := λ c,
  match kind_of w, o with
  | Some (k, fn), inl v =>
      match id_of v with
      | Some id => (mset (c_resources (map_set (ch_resources c) (k, id) fn)) ⨾ mdo [Settled n (inl v)]) c
      | None => (c, [Settled n (inr null_error)])
      end
  | _, inr _ => (c, [Settled n (match w with Quiet => inl JNull | _ => o end)])
  | None, o => (c, [Settled n o])
  end.

(** *** Calls of the host *)

Definition NAME_RE (s : jstr) : bool :=
  (1 <=? length s)%nat && (length s <=? 64)%nat && forallb (λ u, is_lower u || is_upper u || is_digit u || bool_decide (u ∈ js "._:-")) s.
Definition handleCall (call : nat) (method : jstr) (params : json) : cop := λ c,
  match map_get (ch_handlers c) method with
  | Some fn => (c_host (ch_calls c) (call :: ch_running c) c, [Invoke call fn params])
  | None => (c, [Answer call (inr (js "unknown_method", js "unknown method " ++ take 64 method))])
  end.
Definition on_call (method : jstr) (params : json) : cop := λ c,
  (set_micro (ch_micro c ++ [Run (ch_calls c) method params]) (c_host (S (ch_calls c)) (ch_running c) c), []).
(** The handler returned - with the value that JSON makes of it - or threw. *)
Definition handler_done (call : nat) (r : json + (option jstr * jstr)) : cop := λ c,
  if bool_decide (call ∈ ch_running c) then
    (c_host (ch_calls c) (List.filter (λ x, negb (x =? call)%nat) (ch_running c)) c,
     [Answer call (match r with
                   | inl v => inl v
                   | inr (code, message) => inr (match code with Some code => if (length code <=? 32)%nat then code else js "edge_error" | None => js "edge_error" end, take 500 message)
                   end)])
  else (c, []).

Definition micro_step (m : micro) : cop := match m with Settle n w o => continue n w o | Run call method params => handleCall call method params end.
(** All microtasks that wait; those they make wait for the next turn of the queue. *)
Definition drain : cop := λ c, (mset (set_micro []) ⨾ mseq (micro_step <$> ch_micro c)) c.

(** *** Events of the host *)

Definition deliver (k : kind) (id : option Z) (e : event) : cop := λ c,
  match map_get (ch_resources c) (k, id) with
  | Some None => (c, if bool_decide (k = Udp) then [] else [Deliver k id None e])
  | Some fn => (c, [Deliver k id fn e])
  | None => (c, [])
  end.
Definition on_socket (id : option Z) (e : event) : cop := λ c,
  (deliver Socket id e
   ⨾ match e with SocketError _ | Close => mset (c_resources (map_delete (ch_resources c) (Socket, id))) | _ => mskip end) c.

(** *** Start, settings, stop *)

Definition init (config : option json) : cop := λ c, (c_part (ch_handlers c) (ch_listeners c) (default JNull config) c, [Lockdown; LoadPart]).
Definition init_done (r : unit + jstr) : cop := λ c,
  match r with inl _ => (c_life true (ch_exited c) c, [Ready]) | inr e => (c, [Fatal (take 2000 e); ExitLater 50]) end.
Definition handle (method : option jstr) (fn : option nat) : cop := λ c,
  match method with
  | Some m =>
      if NAME_RE m then
        match fn with Some fn => (c_part (map_set (ch_handlers c) m fn) (ch_listeners c) (ch_config c) c, []) | None => (c, [Throws (js "gc.handle: handler must be a function")]) end
      else (c, [Throws (js "gc.handle: invalid method name")])
  | None => (c, [Throws (js "gc.handle: invalid method name")])
  end.
Definition emit (name : option jstr) (data : option json) : cop := λ c,
  match name with
  | Some m => if NAME_RE m then (c, [EventOut m (default JNull data)]) else (c, [Throws (js "gc.emit: invalid event name")])
  | None => (c, [Throws (js "gc.emit: invalid event name")])
  end.
Definition onConfig (fn : nat) : cop := mset (λ c, c_part (ch_handlers c) (ch_listeners c ++ [fn]) (ch_config c) c).
Definition applyConfig (data : option json) : cop := λ c,
  let config := default JNull data in
  (c_part (ch_handlers c) (ch_listeners c) config c, (λ fn, Configured fn config) <$> ch_listeners c).
Definition logError (prefix text : jstr) : cop := mdo [LogLine (js "error") (prefix ++ take 1800 text)].
Definition log (level : jstr) (texts : list jstr) : cop := mdo [LogLine level (take 4000 (join 32 texts))].
Definition exit (code : Z) : cop := mset (λ c, c_life (ch_started c) true c) ⨾ mdo [Exit code].

Inductive child_input :=
  | Gc (g : gc_call) | DestroySocket (id : option Z) | HandleFn (method : option jstr) (fn : option nat) | Emit (name : option jstr) (data : option json) | OnConfig (fn : nat)
  | Log (level : jstr) (texts : list jstr) | HandlerDone (call : nat) (r : json + (option jstr * jstr)) | EventThrew (prefix text : jstr)
  | HostInit (config : option json) | InitDone (r : unit + jstr) | HostResult (id : Z) (r : host_answer) | HostCalls (method : jstr) (params : json)
  | HostConfigure (data : option json) | HostPing (id : json) | HostStop | StopDone | HostEvent (k : kind) (id : option Z) (e : event)
  | TimerFires (id : Z) | Microtasks | Uncaught (text : jstr) | Disconnected | ExitTimer.
Definition child_step (i : child_input) : cop := λ c,
  if ch_exited c then (c, [])
  else
    (match i with
     | Gc g => gc g
     | DestroySocket id => socket_destroy id
     | HandleFn m fn => handle m fn
     | Emit name data => emit name data
     | OnConfig fn => onConfig fn
     | Log level texts => log level texts
     | HandlerDone call r => handler_done call r
     | EventThrew prefix text => logError prefix text
     | HostInit config => init config
     | InitDone r => init_done r
     | HostResult id r => on_hostResult id r
     | HostCalls method params => on_call method params
     | HostConfigure data => applyConfig data
     | HostPing id => mdo [Pong id]
     | HostStop => mdo [StopPart]
     | StopDone => exit 0
     | HostEvent k id e => match k with Socket => on_socket id e | k => deliver k id e end
     | TimerFires id => timed_out id
     | Microtasks => drain
     | Uncaught text => logError (js "uncaught: ") text ⨾ mdo [ExitLater 20]
     | Disconnected => exit 0
     | ExitTimer => exit 1
     end) c.

(** ** Facts *)

(** *** Every call ends once *)

Section Ledgers.
Implicit Types (c : child).

Definition settled_no (x : child_effect) : option nat := match x with Settled n _ => Some n | _ => None end.
Definition answered_no (x : child_effect) : option nat := match x with Answer n _ => Some n | _ => None end.
Definition micro_promise (m : micro) : option nat := match m with Settle n _ _ => Some n | _ => None end.
Definition micro_call (m : micro) : option nat := match m with Run n _ _ => Some n | _ => None end.
Definition waiting_promises c : list nat := (ch_pending c).*2.*1 ++ omap micro_promise (ch_micro c).
Definition waiting_calls c : list nat := omap micro_call (ch_micro c) ++ ch_running c.
Record child_ok c : Prop := { co_pending : map_ok (ch_pending c); co_ids : Forall (λ e, e.1 ≤ ch_seq c) (ch_pending c) }.

Abbreviation bal_p := (balanced settled_no waiting_promises ch_promises).
Abbreviation bal_c := (balanced answered_no waiting_calls ch_calls).
(** Both books at once. *)
Definition fair (f : cop) : Prop := ∀ c, child_ok c → child_ok (f c).1 ∧ bal_p c (f c) ∧ (NoDup (ch_running c) → bal_c c (f c)).

Lemma fair_quiet (f : cop) : (∀ c, ch_pending (f c).1 = ch_pending c ∧ ch_micro (f c).1 = ch_micro c ∧ ch_promises (f c).1 = ch_promises c ∧ ch_seq (f c).1 = ch_seq c ∧
    ch_running (f c).1 = ch_running c ∧ ch_calls (f c).1 = ch_calls c ∧ omap settled_no (f c).2 = [] ∧ omap answered_no (f c).2 = []) → fair f.
Proof.
  intros Hf c [A1 A2]. destruct (Hf c) as (E1 & E2 & E3 & E4 & E5 & E6 & E7 & E8). split_and!.
  - split; by rewrite ?E1, ?E4.
  - apply balanced_quiet; [done | unfold waiting_promises; by rewrite E1, E2 | done].
  - intros _. apply balanced_quiet; [done | unfold waiting_calls; by rewrite E2, E5 | done].
Qed.
(** Where nothing of the calls of the host changes. *)
Lemma bal_c_quiet c t : ch_calls t.1 = ch_calls c → waiting_calls t.1 = waiting_calls c → omap answered_no t.2 = [] → bal_c c t.
Proof. apply balanced_quiet. Qed.

Lemma fair_hostCall a w : fair (hostCall a w).
Proof.
  intros c [A1 A2]. unfold hostCall. cbv zeta. set (id := ch_seq c + 1).
  assert (map_set (ch_pending c) id (ch_promises c, w) = ch_pending c ++ [(id, (ch_promises c, w))]) as Es.
  { apply map_set_new. intros (e & Ee & He)%list_elem_of_fmap. rewrite Forall_forall in A2. specialize (A2 e He). subst id. lia. }
  rewrite mthen_fst. split_and!.
  - cbn. split; cbn; [by apply map_set_ok |]. rewrite Es. apply Forall_app_2; [eapply Forall_impl; [exact A2 |]; cbn; lia | apply Forall_singleton; cbn; lia].
  - exists 1%nat. rewrite mthen_fst, mthen_snd. cbn. split; [lia |]. unfold waiting_promises. cbn. rewrite Es, !fmap_app. cbn.
    rewrite <- !app_assoc. apply Permutation_app_head. apply Permutation_app_comm.
  - intros _. apply bal_c_quiet; rewrite ?mthen_fst, ?mthen_snd; done.
Qed.
Lemma fair_then f g : fair f → fair g → (∀ c, ch_running (f c).1 = ch_running c) → fair (f ⨾ g).
Proof.
  intros Hf Hg Hr c Hc. destruct (Hf c Hc) as (H1 & H2 & H3). destruct (Hg _ H1) as (G1 & G2 & G3). split_and!.
  - by rewrite mthen_fst.
  - by apply balanced_then.
  - intros Hn. apply balanced_then; [by apply H3 | apply G3; by rewrite Hr].
Qed.
Lemma fair_gc g : fair (gc g).
Proof.
  intros c Hc. unfold gc. revert Hc. apply fair_then; [|apply fair_hostCall |]; destruct (forgets g); try done; apply fair_quiet; done.
Qed.
Lemma fair_destroy id : fair (socket_destroy id).
Proof.
  intros c Hc. unfold socket_destroy. destruct (map_has _ _); [|by apply (fair_quiet (λ c, (c, [])))].
  revert Hc. apply fair_then; [by apply fair_quiet | apply fair_hostCall | done].
Qed.
Lemma pending_delete (m : list (Z * (nat * wait))) id n w : map_ok m → map_get m id = Some (n, w) → (map_delete m id).*2.*1 ++ [n] ≡ₚ m.*2.*1.
Proof. intros Hm Hg. pose proof (map_delete_values m id (n, w) Hm Hg) as Hp. apply (fmap_Permutation fst) in Hp. by rewrite fmap_app in Hp. Qed.
Lemma fair_settle id o : fair (settle id o).
Proof.
  intros c [A1 A2]. unfold settle. destruct (map_get (ch_pending c) id) as [[n w]|] eqn:E; [|by apply (fair_quiet (λ c, (c, [])))]. split_and!.
  - split; cbn; [by apply map_delete_ok | by apply map_delete_Forall].
  - exists 0%nat. cbn. split; [lia |]. unfold waiting_promises. cbn. rewrite app_nil_r, omap_app. cbn.
    rewrite <- (pending_delete _ id n w A1 E). rewrite <- app_assoc. apply Permutation_app_head. apply Permutation_app_comm.
  - intros _. apply bal_c_quiet; [done | | done]. unfold waiting_calls. cbn. by rewrite omap_app, app_nil_r.
Qed.
Lemma fair_result id r : fair (on_hostResult id r).
Proof.
  intros c Hc. unfold on_hostResult. destruct (map_has _ _); [|by apply (fair_quiet (λ c, (c, [])))].
  revert Hc. apply fair_then; [by apply fair_quiet | apply fair_settle | done].
Qed.

(** *** The microtasks *)

(** One of them, taken from the queue. *)
Lemma micro_books m c : let t := micro_step m c in
  ch_pending t.1 = ch_pending c ∧ ch_micro t.1 = ch_micro c ∧ ch_promises t.1 = ch_promises c ∧ ch_seq t.1 = ch_seq c ∧ ch_calls t.1 = ch_calls c ∧
  omap settled_no t.2 = option_list (micro_promise m) ∧ omap answered_no t.2 ++ ch_running t.1 ≡ₚ option_list (micro_call m) ++ ch_running c.
Proof.
  destruct m as [n w o|call method params]; cbn [micro_step].
  - unfold continue. destruct (kind_of w) as [[k fn]|]; [|destruct o; by split_and!]. destruct o as [v|e]; [|by split_and!].
    destruct (id_of v) as [id|]; [|by split_and!]. rewrite mthen_fst, mthen_snd. by split_and!.
  - unfold handleCall. destruct (map_get _ _); by split_and!.
Qed.
Lemma micros_books l : ∀ c, let t := mseq (micro_step <$> l) c in
  ch_pending t.1 = ch_pending c ∧ ch_micro t.1 = ch_micro c ∧ ch_promises t.1 = ch_promises c ∧ ch_seq t.1 = ch_seq c ∧ ch_calls t.1 = ch_calls c ∧
  omap settled_no t.2 = omap micro_promise l ∧ omap answered_no t.2 ++ ch_running t.1 ≡ₚ omap micro_call l ++ ch_running c.
Proof.
  induction l as [|m l IH]; intros c; [by split_and!|]. cbv zeta. rewrite fmap_cons. change (mseq (micro_step m :: (micro_step <$> l))) with (micro_step m ⨾ mseq (micro_step <$> l)).
  rewrite mthen_fst, mthen_snd. destruct (micro_books m c) as (E1 & E2 & E3 & E4 & E5 & E6 & E7). destruct (IH (micro_step m c).1) as (F1 & F2 & F3 & F4 & F5 & F6 & F7).
  rewrite F1, F2, F3, F4, F5, E1, E2, E3, E4, E5, !omap_app, E6, F6. split_and!; try done; [by destruct (micro_promise m) eqn:Em; cbn; rewrite Em |].
  rewrite <- app_assoc, F7, app_assoc, (Permutation_app_comm _ (omap micro_call l)), <- app_assoc, E7.
  cbn. destruct (micro_call m); cbn; [by rewrite Permutation_middle | done].
Qed.
Lemma fair_drain : fair drain.
Proof.
  intros c [A1 A2]. unfold drain. destruct (micros_books (ch_micro c) (set_micro [] c)) as (E1 & E2 & E3 & E4 & E5 & E6 & E7). split_and!.
  - rewrite mthen_fst. split; cbn [mset fst]; by rewrite ?E1, ?E4.
  - exists 0%nat. rewrite mthen_fst, mthen_snd. cbn [mset fst snd app]. rewrite E3, E6. split; [cbn; lia |]. unfold waiting_promises. rewrite E1, E2. cbn.
    rewrite !app_nil_r. apply Permutation_app_comm.
  - intros _. exists 0%nat. rewrite mthen_fst, mthen_snd. cbn [mset fst snd app]. rewrite E5. split; [cbn; lia |]. unfold waiting_calls. rewrite E2. cbn.
    rewrite app_nil_r. exact E7.
Qed.
End Ledgers.

Section Steps.
Implicit Types (c : child).

Lemma fair_handler call r : fair (handler_done call r).
Proof.
  intros c [A1 A2]. unfold handler_done. case_bool_decide as Hin; [|by apply (fair_quiet (λ c, (c, [])))]. split_and!.
  - by split.
  - apply balanced_quiet; by try done.
  - intros Hn. exists 0%nat. cbn. split; [lia |]. unfold waiting_calls. cbn. rewrite app_nil_r.
    assert (ch_running c ≡ₚ call :: List.filter (λ x, negb (x =? call)%nat) (ch_running c)) as Hp.
    { clear A1 A2. induction (ch_running c) as [|x l IH]; [by apply elem_of_nil in Hin |]. apply NoDup_cons in Hn as [Hx Hn]. cbn [List.filter].
      destruct (Nat.eqb_spec x call) as [->|Hne]; cbn [negb].
      - constructor. clear -Hx. induction l as [|y l IH]; [done |]. apply not_elem_of_cons in Hx as [Hy Hl]. cbn [List.filter].
        destruct (Nat.eqb_spec y call); [congruence |]. cbn [negb]. constructor. by apply IH.
      - apply elem_of_cons in Hin as [|Hin]; [congruence |]. rewrite (IH Hin Hn) at 1. by rewrite Permutation_swap. }
    rewrite Hp at 2. by rewrite Permutation_middle.
Qed.
Lemma fair_call method params : fair (on_call method params).
Proof.
  intros c [A1 A2]. unfold on_call. split_and!.
  - by split.
  - apply balanced_quiet; [done | | done]. unfold waiting_promises. cbn. by rewrite omap_app, app_nil_r.
  - intros _. exists 1%nat. cbn. split; [lia |]. unfold waiting_calls. cbn. rewrite omap_app. cbn. rewrite <- !app_assoc.
    apply Permutation_app_head, Permutation_app_comm.
Qed.
Lemma fair_init_done r : fair (init_done r).
Proof. apply fair_quiet. intros c. unfold init_done. by destruct r. Qed.
Lemma fair_handle m fn : fair (handle m fn).
Proof. apply fair_quiet. intros c. unfold handle. destruct m; [|done]. destruct (NAME_RE _); [|done]. by destruct fn. Qed.
Lemma fair_emit m d : fair (emit m d).
Proof. apply fair_quiet. intros c. unfold emit. destruct m; [|done]. by destruct (NAME_RE _). Qed.
Lemma fair_config d : fair (applyConfig d).
Proof. apply fair_quiet. intros c. unfold applyConfig. cbn. split_and!; try done; induction (ch_listeners c); done. Qed.
Lemma fair_deliver k id e : fair (deliver k id e).
Proof. apply fair_quiet. intros c. unfold deliver. destruct (map_get _ _) as [[fn|]|]; [done | case_bool_decide; done | done]. Qed.
Lemma deliver_state k id e c : (deliver k id e c).1 = c.
Proof. unfold deliver. by destruct (map_get _ _) as [[fn|]|]. Qed.
Lemma fair_socket id e : fair (on_socket id e).
Proof.
  intros c Hc. unfold on_socket. revert Hc. apply fair_then; [apply fair_deliver | | intros c0; by rewrite deliver_state].
  destruct e; by apply fair_quiet.
Qed.
Lemma fair_step i : fair (child_step i).
Proof.
  intros c Hc. unfold child_step. destruct (ch_exited c); [by apply (fair_quiet (λ c, (c, []))) |]. revert Hc.
  destruct i as [| | | | | | | | | | | | | | | |k id e| | | | |]; try (by apply fair_quiet).
  - apply fair_gc.
  - apply fair_destroy.
  - apply fair_handle.
  - apply fair_emit.
  - apply fair_handler.
  - apply fair_init_done.
  - apply fair_result.
  - apply fair_call.
  - apply fair_config.
  - destruct k; [apply fair_deliver | apply fair_deliver | apply fair_socket | apply fair_deliver].
  - apply fair_settle.
  - apply fair_drain.
Qed.

(** The numbers of the calls that wait are different. *)
Definition calls_ok c : Prop := child_ok c ∧ NoDup (waiting_calls c) ∧ Forall (λ n, (n < ch_calls c)%nat) (waiting_calls c).
Lemma calls_step i c : calls_ok c → calls_ok (child_step i c).1 ∧
  balanced settled_no waiting_promises ch_promises c (child_step i c) ∧ balanced answered_no waiting_calls ch_calls c (child_step i c).
Proof.
  intros (Hc & Hn & Hf). destruct (fair_step i c Hc) as (H1 & H2 & H3).
  assert (NoDup (ch_running c)) as Hr by (unfold waiting_calls in Hn; by apply NoDup_app in Hn as (_ & _ & ?)). specialize (H3 Hr).
  split_and!; [|done..]. split; [done |]. destruct H3 as (k & Hk & Hp).
  assert (NoDup (waiting_calls c ++ seq (ch_calls c) k)) as Hall.
  { apply NoDup_app. split_and!; [done | | apply NoDup_seq]. intros n Hin Hs. apply elem_of_seq in Hs. rewrite Forall_forall in Hf. specialize (Hf n Hin). lia. }
  split.
  - rewrite <- Hp in Hall. by apply NoDup_app in Hall as (_ & _ & ?).
  - apply Forall_forall. intros n Hin. assert (n ∈ waiting_calls c ++ seq (ch_calls c) k) as [Hw|Hs]%elem_of_app by (rewrite <- Hp; apply elem_of_app; by right).
    + rewrite Forall_forall in Hf. specialize (Hf n Hw). lia.
    + apply elem_of_seq in Hs. lia.
Qed.
Lemma run_ledgers inputs : let t := mrun child_step inputs newChild in
  ledger settled_no waiting_promises ch_promises t.1 (concat t.2.*2) ∧ ledger answered_no waiting_calls ch_calls t.1 (concat t.2.*2).
Proof.
  assert (calls_ok newChild) as H0 by (split; [split; [apply NoDup_nil_2 | constructor] | split; [apply NoDup_nil_2 | constructor]]).
  cbv zeta. split.
  - apply (mrun_ledger settled_no waiting_promises ch_promises child_step calls_ok newChild); [done | done | done |]. intros i c Hc. by destruct (calls_step i c Hc) as (? & ? & _).
  - apply (mrun_ledger answered_no waiting_calls ch_calls child_step calls_ok newChild); [done | done | done |]. intros i c Hc. by destruct (calls_step i c Hc) as (? & _ & ?).
Qed.
End Steps.

(** ** Events reach who asked for them

    What the messages that left and the outcomes the part saw say of the
    resources that are open: a resource is open from the moment the part saw
    the answer to its request until it closes it, or the host says that the
    connection is over. *)

Definition closes (a : api) : option (kind * option Z) :=
  match a with UdpClose id => Some (Udp, id) | MdnsStop id => Some (Mdns, id) | MqttUnsubscribe id => Some (Mqtt, id) | TcpDestroy id => Some (Socket, id) | _ => None end.
Record desk := Desk { dk_waits : list (Z * wait); dk_open : list ((kind * option Z) * option nat) }.
Definition desk_step (d : desk) (x : child_effect) : desk :=
  match x with
  | ToHost id a w => Desk (map_set (dk_waits d) id w) (match closes a with Some k => map_delete (dk_open d) k | None => dk_open d end)
  | Settled n (inl v) =>
      match w ← map_get (dk_waits d) (Z.of_nat n + 1); kind_of w, id_of v with
      | Some (k, fn), Some id => Desk (dk_waits d) (map_set (dk_open d) (k, id) fn)
      | _, _ => d
      end
  | Deliver Socket id _ (SocketError _ | Close) => Desk (dk_waits d) (map_delete (dk_open d) (Socket, id))
  | _ => d
  end.
Definition desk_of (fx : list child_effect) : desk := foldl desk_step (Desk [] []) fx.
Definition opened (fx : list child_effect) : list ((kind * option Z) * option nat) := dk_open (desk_of fx).

Lemma map_set_elem {K V} `{EqDecision K} (m : list (K * V)) k v e : e ∈ map_set m k v → e = (k, v) ∨ e ∈ m.
Proof.
  induction m as [|[k' v'] m IH]; cbn [map_set]; [intros ->%list_elem_of_singleton; by left |]. case_decide.
  - intros [->|]%elem_of_cons; [by left | right; by right].
  - intros [->|[|]%IH]%elem_of_cons; [right; by left | by left | right; by right].
Qed.
Section Desk.
Implicit Types (c : child) (past : list child_effect).

Definition well_delivered past : Prop := ∀ p k id fn e q, past = p ++ Deliver k id fn e :: q → map_get (opened p) (k, id) = Some fn.
Definition known past (n : nat) (w : wait) : Prop := map_get (dk_waits (desk_of past)) (Z.of_nat n + 1) = Some w.
Record desk_ok past c : Prop := {
  do_open : opened past = ch_resources c; do_seq : ch_seq c = Z.of_nat (ch_promises c);
  do_pending : ∀ id n w, (id, (n, w)) ∈ ch_pending c → (n < ch_promises c)%nat ∧ known past n w;
  do_micro : ∀ n w o, Settle n w o ∈ ch_micro c → (n < ch_promises c)%nat ∧ known past n w;
  do_delivered : well_delivered past }.

Abbreviation D := (tracks desk_ok).
Definition silent (x : child_effect) : Prop := match x with ToHost _ _ _ | Settled _ (inl _) | Deliver _ _ _ _ => False | _ => True end.
Lemma desk_silent past fx : Forall silent fx → desk_of (past ++ fx) = desk_of past.
Proof. intros Hf. unfold desk_of. rewrite foldl_app. generalize (foldl desk_step (Desk [] []) past). induction Hf as [|x fx Hx Hf IH]; intros d; [done |]. cbn [foldl]. rewrite IH. destruct x; try done. by destruct o. Qed.
Lemma delivered_app past fx : Forall (λ x, match x with Deliver _ _ _ _ => False | _ => True end) fx → well_delivered past → well_delivered (past ++ fx).
Proof.
  intros Hf Hw p k id fn e q E. destruct (decide (length past ≤ length p)%nat) as [Hl|Hl].
  - assert (Deliver k id fn e ∈ fx) as Hin.
    { assert (drop (length past) (past ++ fx) = drop (length past) p ++ Deliver k id fn e :: q) as Hd.
      { rewrite E, drop_app_le by done. done. }
      rewrite drop_app_length in Hd. rewrite Hd. set_solver. }
    rewrite Forall_forall in Hf. destruct (Hf _ Hin).
  - apply (Hw p k id fn e (take (length past - S (length p)) q)).
    assert (take (length past) (past ++ fx) = take (length past) (p ++ Deliver k id fn e :: q)) as Ht by by rewrite E.
    rewrite take_app_length in Ht. etrans; [exact Ht |]. rewrite take_app_ge by lia. f_equal. replace (length past - length p)%nat with (S (length past - S (length p))) by lia. done.
Qed.
Lemma delivered_snoc past k id fn e : well_delivered past → map_get (opened past) (k, id) = Some fn → well_delivered (past ++ [Deliver k id fn e]).
Proof.
  intros Hw Ho p k' id' fn' e' q E. destruct q as [|x q _] using rev_ind.
  - apply app_inj_tail in E as [-> [= -> -> -> ->]]. done.
  - rewrite app_comm_cons, app_assoc in E. apply app_inj_tail in E as [E _]. by eapply Hw.
Qed.

(** Steps that the books do not see. *)
Lemma D_aside f : (∀ c, ch_resources (f c).1 = ch_resources c ∧ ch_seq (f c).1 = ch_seq c ∧ ch_promises (f c).1 = ch_promises c ∧
    (∀ e, e ∈ ch_pending (f c).1 → e ∈ ch_pending c) ∧ (∀ n w o, Settle n w o ∈ ch_micro (f c).1 → Settle n w o ∈ ch_micro c) ∧ Forall silent (f c).2) → D f.
Proof.
  intros Hf past c [O S P M W]. destruct (Hf c) as (E1 & E2 & E3 & E4 & E5 & E6). pose proof (desk_silent past _ E6) as Ed. split.
  - unfold opened. by rewrite Ed, E1.
  - by rewrite E2, E3.
  - intros id n w Hin. unfold known. rewrite Ed, E3. apply (P id). by apply E4.
  - intros n w o Hin. unfold known. rewrite Ed, E3. eapply M. by apply E5.
  - apply delivered_app; [|done]. eapply Forall_impl; [exact E6 |]. by intros [].
Qed.
Lemma D_id : D (λ c, (c, [])).
Proof. apply D_aside. intros c. by split_and!. Qed.

Lemma known_set past c id a w n w' : desk_ok past c → id = ch_seq c + 1 → (n < ch_promises c)%nat → known past n w' → known (past ++ [ArmTimer id; ToHost id a w]) n w'.
Proof.
  intros Hd -> Hn Hk. unfold known, desk_of in *. rewrite foldl_app. cbn [foldl desk_step dk_waits]. rewrite map_get_set, decide_False; [done |].
  pose proof (do_seq _ _ Hd). lia.
Qed.
(** A request: what it closes is forgotten before. *)
Lemma D_request past c a w (r : list ((kind * option Z) * option nat)) : desk_ok past c →
  r = (match closes a with Some k => map_delete (ch_resources c) k | None => ch_resources c end) →
  let t := hostCall a w (c_resources r c) in desk_ok (past ++ t.2) t.1.
Proof.
  intros Hd Hr. cbv zeta. unfold hostCall. cbv zeta. rewrite mthen_fst, mthen_snd. cbn [mset mdo fst snd app c_calls c_resources ch_seq ch_promises ch_pending ch_micro].
  set (id := ch_seq c + 1). pose proof Hd as [O S P M W].
  assert (known (past ++ [ArmTimer id; ToHost id a w]) (ch_promises c) w) as Hnew.
  { unfold known, desk_of. rewrite foldl_app. cbn [foldl desk_step dk_waits]. rewrite map_get_set, decide_True; [done | subst id; lia]. }
  split; cbn [c_calls c_resources ch_resources ch_seq ch_promises ch_pending ch_micro].
  - unfold opened, desk_of in *. rewrite foldl_app. cbn [foldl desk_step dk_open]. rewrite O. by rewrite Hr.
  - subst id. lia.
  - intros i n w' [He|Hin]%map_set_elem.
    + injection He as -> -> ->. split; [lia | exact Hnew].
    + destruct (P i n w' Hin). split; [lia |]. by apply (known_set past c).
  - intros n w' o Hin. destruct (M n w' o Hin). split; [lia |]. by apply (known_set past c).
  - apply delivered_app; [|done]. by repeat constructor.
Qed.
End Desk.

Section Reaches.
Implicit Types (c : child) (past : list child_effect).
Abbreviation D := (tracks desk_ok).

Lemma closes_forgets g : closes (host_call g).1 = forgets g.
Proof. by destruct g. Qed.
Lemma D_gc g : D (gc g).
Proof.
  intros past c Hd. unfold gc. set (r := match forgets g with Some k => map_delete (ch_resources c) k | None => ch_resources c end).
  assert ((match forgets g with Some k => (mset (c_resources (map_delete (ch_resources c) k)) : cop) | None => mskip end) c = (c_resources r c, [])) as E
    by (subst r; destruct (forgets g); [done | by destruct c]).
  rewrite mthen_fst, mthen_snd, E. cbn [fst snd app]. apply D_request; [done |]. by rewrite closes_forgets.
Qed.
Lemma D_destroy id : D (socket_destroy id).
Proof.
  intros past c Hd. unfold socket_destroy. destruct (map_has _ _); [|by apply D_id]. rewrite mthen_fst, mthen_snd. cbn [mset fst snd app]. by apply D_request.
Qed.
Lemma D_settle id o : D (settle id o).
Proof.
  intros past c [O S P M W]. unfold settle. destruct (map_get (ch_pending c) id) as [[n w]|] eqn:E; [|cbn; by rewrite app_nil_r]. cbn [fst snd]. rewrite app_nil_r. split; cbn; try done.
  - intros i n' w' Hin. apply (P i). by apply map_delete_elem in Hin as [? _].
  - intros n' w' o' [Hin|Hin]%elem_of_app; [by eapply M |]. apply list_elem_of_singleton in Hin. injection Hin as -> -> ->. apply (P id). by apply map_get_elem.
Qed.
Lemma D_result id r : D (on_hostResult id r).
Proof.
  intros past c Hd. unfold on_hostResult. destruct (map_has _ _); [|by apply D_id]. revert Hd. apply (tracks_then desk_ok); [|apply D_settle].
  apply D_aside. intros c0. split_and!; try done. by apply Forall_singleton.
Qed.

(** The microtask of a call. *)
Lemma known_settled past n w m o : known past n w → known (past ++ [Settled m o]) n w.
Proof.
  unfold known, desk_of. rewrite foldl_app. cbn [foldl desk_step]. destruct o as [v|e]; [|done].
  destruct (w' ← _; kind_of w') as [[k fn]|]; [|done]. by destruct (id_of v).
Qed.
Lemma settled_desk past c n o d r : desk_ok past c → foldl desk_step (desk_of past) [Settled n o] = d → dk_open d = r → dk_waits d = dk_waits (desk_of past) →
  desk_ok (past ++ [Settled n o]) (c_resources r c).
Proof.
  intros [O S P M W] Hd Hr Hw. assert (desk_of (past ++ [Settled n o]) = d) as E by (unfold desk_of in *; by rewrite foldl_app). split; cbn.
  - unfold opened. by rewrite E.
  - done.
  - intros i n' w' Hin. unfold known. rewrite E, Hw. by eapply P.
  - intros n' w' o' Hin. unfold known. rewrite E, Hw. by eapply M.
  - apply delivered_app; [by apply Forall_singleton | done].
Qed.
Lemma resources_same c : c_resources (ch_resources c) c = c.
Proof. by destruct c. Qed.
Lemma D_continue past c n w o : desk_ok past c → known past n w → desk_ok (past ++ (continue n w o c).2) (continue n w o c).1.
Proof.
  intros Hd Hk. pose proof (do_open _ _ Hd) as O. unfold known in Hk.
  assert (∀ o', (match o' with inl v => kind_of w = None ∨ id_of v = None | inr _ => True end) → desk_ok (past ++ [Settled n o']) c) as Hno.
  { intros o' Ho. rewrite <- (resources_same c). apply (settled_desk past c n o' (desk_of past)); [done | | done | done]. cbn [foldl desk_step].
    destruct o' as [v|e]; [|done]. rewrite Hk. cbn. destruct Ho as [-> | Ho]; [done |]. destruct (kind_of w) as [[]|]; [|done]. by rewrite Ho. }
  unfold continue. destruct (kind_of w) as [[k fn]|] eqn:Ew.
  - destruct o as [v|e]; [|apply Hno; by destruct w]. destruct (id_of v) as [id|] eqn:Ei; [|by apply Hno].
    rewrite mthen_fst, mthen_snd. cbn [mset mdo fst snd app].
    apply (settled_desk past c n (inl v) (Desk (dk_waits (desk_of past)) (map_set (ch_resources c) (k, id) fn))); [done | | done | done].
    cbn [foldl desk_step]. rewrite Hk. cbn. rewrite Ew, Ei. unfold opened in O. by rewrite O.
  - destruct o as [v|e]; cbn [fst snd]; [apply Hno; by left |]. apply Hno. destruct w; try done. by left.
Qed.
Lemma D_run past c call method params : desk_ok past c → desk_ok (past ++ (handleCall call method params c).2) (handleCall call method params c).1.
Proof.
  apply (D_aside (handleCall call method params)). intros c0. unfold handleCall. destruct (map_get _ _); (split_and!; [done.. | by apply Forall_singleton]).
Qed.
Lemma D_micros l : ∀ past c, desk_ok past c → (∀ n w o, Settle n w o ∈ l → known past n w) →
  let t := mseq (micro_step <$> l) c in desk_ok (past ++ t.2) t.1.
Proof.
  induction l as [|m l IH]; intros past c Hd Hk; [cbn; by rewrite app_nil_r |]. cbv zeta. rewrite fmap_cons.
  change (mseq (micro_step m :: (micro_step <$> l))) with (micro_step m ⨾ mseq (micro_step <$> l)). rewrite mthen_fst, mthen_snd, app_assoc. apply IH.
  - destruct m as [n w o|call method params]; cbn [micro_step]; [apply D_continue; [done | apply (Hk n w o); by left] | by apply D_run].
  - intros n w o Hin. assert (known past n w) as Hn by (apply (Hk n w o); by right). destruct m as [n' w' o'|call method params]; cbn [micro_step].
    + assert (∃ o'', (continue n' w' o' c).2 = [Settled n' o'']) as [o'' ->]; [|by apply known_settled].
      unfold continue. destruct (kind_of w') as [[k fn]|], o' as [v|e]; try (by eexists). destruct (id_of v); by eexists.
    + unfold known. rewrite desk_silent; [done |]. unfold handleCall. destruct (map_get _ _); by apply Forall_singleton.
Qed.
Lemma D_drain : D drain.
Proof.
  intros past c Hd. unfold drain. rewrite mthen_fst, mthen_snd. cbn [mset fst snd app]. apply D_micros.
  - destruct Hd as [O S P M W]. split; try done. cbn. by intros n w o ?%elem_of_nil.
  - intros n w o Hin. by destruct (do_micro _ _ Hd n w o Hin).
Qed.

Definition ends (k : kind) (e : event) : bool := match k, e with Socket, (SocketError _ | Close) => true | _, _ => false end.
Lemma D_event past c k id fn e r : desk_ok past c → map_get (ch_resources c) (k, id) = Some fn →
  r = (if ends k e then map_delete (ch_resources c) (Socket, id) else ch_resources c) → desk_ok (past ++ [Deliver k id fn e]) (c_resources r c).
Proof.
  intros [O S P M W] Hg Hr. assert (dk_waits (desk_of (past ++ [Deliver k id fn e])) = dk_waits (desk_of past)) as Ew.
  { unfold desk_of. rewrite foldl_app. cbn [foldl desk_step]. by destruct k, e. }
  split; cbn.
  - unfold opened, desk_of in *. rewrite foldl_app. cbn [foldl desk_step]. rewrite Hr, <- O. by destruct k, e.
  - done.
  - intros i n w Hin. unfold known. rewrite Ew. by eapply P.
  - intros n w o Hin. unfold known. rewrite Ew. by eapply M.
  - apply delivered_snoc; [done |]. by rewrite O.
Qed.
Lemma D_deliver k id e : ends k e = false → D (deliver k id e).
Proof.
  intros He past c Hd. unfold deliver. destruct (map_get (ch_resources c) (k, id)) as [fn|] eqn:E; [|by apply D_id].
  assert (desk_ok (past ++ [Deliver k id fn e]) c) as Ho by (rewrite <- (resources_same c) at 1; apply D_event; [done | done | by rewrite He]).
  destruct fn as [fn|]; [done |]. case_bool_decide; [by apply D_id | done].
Qed.
Lemma D_socket id e : D (on_socket id e).
Proof.
  destruct (ends Socket e) eqn:He; unfold on_socket.
  - intros past c Hd. unfold deliver. destruct (map_get (ch_resources c) (Socket, id)) as [fn|] eqn:E.
    + assert (desk_ok (past ++ [Deliver Socket id fn e]) (c_resources (map_delete (ch_resources c) (Socket, id)) c)) as Ho by (apply D_event; [done | done | by rewrite He]).
      rewrite mthen_fst, mthen_snd, E. destruct fn as [fn|], e; try done.
    + rewrite mthen_fst, mthen_snd, E. assert (map_delete (ch_resources c) (Socket, id) = ch_resources c) as Er by by apply map_delete_notin, map_get_None.
      destruct e; try done; cbn [mset fst snd app]; rewrite Er, app_nil_r, resources_same; exact Hd.
  - intros past c Hd. revert Hd. apply (tracks_then desk_ok); [by apply D_deliver |]. destruct e; try done; apply D_id.
Qed.
Lemma D_plain (f : cop) : (∀ c, ch_resources (f c).1 = ch_resources c ∧ ch_seq (f c).1 = ch_seq c ∧ ch_promises (f c).1 = ch_promises c ∧
    ch_pending (f c).1 = ch_pending c ∧ ch_micro (f c).1 = ch_micro c ∧ Forall silent (f c).2) → D f.
Proof. intros Hf. apply D_aside. intros c. destruct (Hf c) as (-> & -> & -> & -> & -> & ?). by split_and!. Qed.
Lemma D_do fx : Forall silent fx → D (mdo fx).
Proof. intros Hf. apply D_plain. intros c. by split_and!. Qed.
Lemma D_exit code : D (exit code).
Proof. apply D_plain. intros c. split_and!; try done. by apply Forall_singleton. Qed.
(** Inputs that other tables answer. *)
Definition tabled (i : child_input) : bool :=
  match i with Gc _ | DestroySocket _ | HostResult _ _ | HostEvent _ _ _ | TimerFires _ | Microtasks | HostCalls _ _ => false | _ => true end.
Lemma D_tabled i : tabled i = true → D (child_step i).
Proof.
  intros Hi. apply D_plain. intros c. unfold child_step. destruct (ch_exited c); [by split_and!|].
  destruct i as [| |m fn|m d| | |call r| | |r| | |d| | | | | | | | |]; try done; cbn [mdo mset fst snd].
  - unfold handle. destruct m as [m|]; [destruct (NAME_RE m); [destruct fn|]|]; (split_and!; [done.. | by repeat constructor]).
  - unfold emit. destruct m as [m|]; [destruct (NAME_RE m)|]; (split_and!; [done.. | by repeat constructor]).
  - split_and!; [done.. | by repeat constructor].
  - unfold handler_done. case_bool_decide; (split_and!; [done.. | by repeat constructor]).
  - split_and!; [done.. | by repeat constructor].
  - split_and!; [done.. | by repeat constructor].
  - unfold init_done. destruct r; (split_and!; [done.. | by repeat constructor]).
  - unfold applyConfig. cbn. split_and!; try done. induction (ch_listeners c); by constructor.
  - split_and!; [done.. | by repeat constructor].
  - split_and!; [done.. | by repeat constructor].
  - split_and!; [done.. | by repeat constructor].
  - split_and!; [done.. | by repeat constructor].
  - split_and!; [done.. | by repeat constructor].
  - split_and!; [done.. | by repeat constructor].
Qed.
Lemma D_call method params : D (on_call method params).
Proof.
  apply D_aside. intros c. split_and!; try done. cbn. intros n w o [|Hin]%elem_of_app; [done |]. by apply list_elem_of_singleton in Hin.
Qed.
Lemma D_step i : D (child_step i).
Proof.
  destruct (tabled i) eqn:Et; [by apply D_tabled |]. intros past c Hd. unfold child_step. destruct (ch_exited c); [by apply D_id |].
  destruct i as [g|id| | | | | | | | |id r|method params| | | | |k id e|id| | | |]; try done.
  - by apply D_gc.
  - by apply D_destroy.
  - by apply D_result.
  - by apply D_call.
  - destruct k; [by apply D_deliver | by apply D_deliver | by apply D_socket | by apply D_deliver].
  - by apply D_settle.
  - by apply D_drain.
Qed.

End Reaches.

(** ** What is locked, and two events that are lost *)

(** A module is refused under its name and behind [node:]. *)
Lemma refuses_load_spec request : refuses_load request = true ↔ request ∈ DENIED_MODULES ∨ ∃ m, m ∈ DENIED_MODULES ∧ request = NODE_ ++ m.
Proof.
  unfold refuses_load, bare. rewrite bool_decide_eq_true. destruct (starts_with NODE_ request) eqn:E.
  - apply starts_with_app in E as [m ->]. change 5%nat with (length NODE_). rewrite drop_app_length. split; [intros Hm; right; by exists m |].
    intros [Hm|(m' & Hm' & E%app_inv_head)]; [|by subst].
    assert (Forall (λ d, starts_with NODE_ d = false) DENIED_MODULES) as Hd by (apply (bool_decide_eq_true_1 _); vm_compute; reflexivity).
    rewrite Forall_forall in Hd. specialize (Hd _ Hm). by rewrite (proj2 (starts_with_app NODE_ (NODE_ ++ m)) (ex_intro _ m eq_refl)) in Hd.
  - split; [by left | intros [|(m & _ & ->)]; [done |]]. by rewrite (proj2 (starts_with_app NODE_ (NODE_ ++ m)) (ex_intro _ m eq_refl)) in E.
Qed.

Definition with_id (id : Z) : json := JObj [(js "id", JNum (NInt id))].
(** Data of a connection that comes with the answer, before the microtasks ran. *)
Lemma early_data_lost :
  let fx := concat (mrun child_step [Gc (GConnect (JStr (js "192.168.1.9")) (JNum (NInt 25))); HostResult 1 (AnswerOk (with_id 5));
                                     HostEvent Socket (Some 5) (Data [1]); Microtasks; HostEvent Socket (Some 5) (Data [2])] newChild).2.*2 in
  omap (λ x, match x with Deliver _ _ _ e => Some e | _ => None end) fx = [Data [2]].
Proof. reflexivity. Qed.
(** A retained message, which the host passes on before it answers the subscription. *)
Lemma retained_lost :
  let fx := concat (mrun child_step [Gc (GSubscribe (JStr (js "a/b")) 7); HostEvent Mqtt (Some 5) (Message (JStr (js "a/b")) [1] true 1);
                                     HostResult 1 (AnswerOk (with_id 5)); Microtasks] newChild).2.*2 in
  Forall (λ x, match x with Deliver _ _ _ _ => False | _ => True end) fx.
Proof. by repeat constructor. Qed.
